(* ===== verification/_CoqProject ===== *)
-Q . S2P
Prelude.v
Layout.v
IdaSys.v
Text.v
Json.v
Errors.v
Handles.v
Protocol.v
ResultStore.v
Cfg.v
Tarjan.v
Regions.v
LargeFn.v
Dataflow.v
Pump.v
AsyncReader.v
Discovery.v
Sources.v
Pool.v
Jobs.v
Bfs.v
Index.v
IndexFile.v
Backend.v
Mutations.v
IdaLib.v
IdaToy.v
IdaSnap.v
IdaGraph.v
IdaCfg.v
IdaIndex.v
Transforms.v
Workflow.v
Requests.v
Worker.v
Deep.v
ValueAn.v
Float.v
TypeRec.v
Deob.v
Signatures.v
BlockDiff.v
Rules.v
BinDiff.v
Crypto.v
Analyses.v
SigFile.v
WasmModule.v
WasmCfg.v
WasmSsa.v
WasmCalls.v
WasmPseudo.v
WorkerMain.v
ChildEnv.v
Isolation.v
JobObject.v
Config.v
Broker.v
Tools.v
LargeFnTools.v
WasmTools.v
ToolDefs.v
Registry.v
Surface.v
Served.v
Bench.v
BenchMock.v
Cli.v
