(* ===== verification/Prelude.v ===== *)
(** * reverse-mcp: a verification development

    reverse-mcp serves IDA databases to agents over MCP.  A broker process
    owns a pool of worker processes, one per open database, talks to each over
    newline-delimited JSON on a pipe, and offers long outputs, background jobs
    and large-function analysis on top; a worker owns one database through a
    backend and keeps an audit trail, an analysis index and a result cache;
    the core crate holds what both share.  This development models those parts
    as executable functions and step relations and proves them correct.

    ** Parts and files

    Paths are relative to [src/crates/], but for the command line's.

    - [Prelude] (this file): machine integers as [Z] with their wrap-around,
      stable sorting and deduplication as in the standard library, the type
      [outcome] of code that can panic or needs fuel, shared list lemmas.
    - [Layout]: the size, alignment and offsets of a [#[repr(C)]] type;
      [IdaSys]: [reverse-ida-sys/src/lib.rs], the mirrors of the SDK's types
      and the facts measured on its headers.
    - [Text], [Json]: the string functions of Rust's standard library that the
      program calls (trimming, integer parsing and printing, prefixes,
      character boundaries), and [serde_json::Value] with its accessors.
    - [Errors]: [rmcp-core/src/error.rs] and [error_from_code] of
      [rmcp-broker/src/worker_pool.rs].
    - [Handles]: [rmcp-core/src/handle.rs].
    - [Protocol]: [rmcp-core/src/protocol.rs].
    - [ResultStore]: [rmcp-core/src/result_store.rs] and [bound_output] of
      [rmcp-broker/src/lib.rs], with the abstract time-to-live map it refines.
    - [Cfg], [Tarjan]: [rmcp-broker/src/preflight.rs]; the definitions are in
      [Cfg], the correctness of the iterative SCC algorithm in [Tarjan].
    - [Regions]: [rmcp-broker/src/regions.rs]; [LargeFn]:
      [rmcp-broker/src/largefn.rs], which feeds worker JSON to both;
      [Dataflow]: [rmcp-broker/src/dataflow.rs], over the region graph.
    - [Pump]: one worker session, its callers, pump task and monitor task
      ([WorkerSession], [pump_task], [fail_all], [mark_crashed] of
      [rmcp-broker/src/worker_pool.rs], [rmcp-broker/src/recovery.rs]) as a
      step function on events.
    - [Discovery]: versions, validation, pipeline and selection of
      [rmcp-core/src/discovery.rs], [rmcp-core/src/backend_registry.rs],
      [rmcp-core/src/platform.rs]; [Sources]: the rest of [discovery.rs], where
      the candidates and their versions come from, on a [Computer].
    - [Pool]: [WorkerPool] of [rmcp-broker/src/worker_pool.rs], which uses
      [Discovery] to choose a backend and [Handles] to name sessions.
    - [AsyncReader]: [AsyncFrameReader] of [rmcp-core/src/protocol.rs] under
      the [select!] of [pump_task]: the pump over bytes that arrive in pieces.
    - [Jobs]: [rmcp-broker/src/jobs.rs].
    - [Bfs]: the invariant of level-by-level graph search, used by the next
      file and by [Workflow].
    - [Index], [IndexFile]: [rmcp-core/src/analysis_index.rs], its queries and
      its file.
    - [Backend]: the trait of [rmcp-core/src/backend.rs] as the class
      [IdaBackend] with its laws [EditLaws] and [BackendLaws], and the mock of
      [rmcp-ida/src/mock.rs] as an instance of all three.
    - [Mutations]: [rmcp-worker/src/plan.rs], [apply_struct] of
      [rmcp-worker/src/types.rs] and the mutating arms of
      [rmcp-worker/src/dispatch.rs], over any [IdaBackend].
    - [IdaLib]: [rmcp-ida/src/idalib_backend.rs], the backend that drives IDA,
      as an instance of [IdaBackend] over any library ([Ida]), which keeps
      [EditLaws] when the library is [IdaHonest] and [BackendLaws] when it is
      [IdaQuiet] too; [IdaToy]: a small concrete library; [IdaSnap],
      [IdaGraph], [IdaCfg], [IdaIndex]: its snapshots, its call graph, its
      flow charts, its index and the recovery of functions.
    - [Transforms]: [rmcp-worker/src/transforms.rs], plans of byte patches
      proposed, validated, applied behind a snapshot and rolled back.
    - [Workflow]: [rmcp-worker/src/workflow.rs], over any [IdaBackend];
      [Requests]: the decoders of its requests and of the queries of [Index].
    - [Worker]: [rmcp-worker/src/state.rs], [handle] and the arms of
      [dispatch] that use the index and the cache, composed with those of
      [Mutations]; the invariant that keeps index and cache true.
    - [Deep], [ValueAn]: [rmcp-worker/src/deep.rs] and [valuean.rs], the
      bounded walks over calls; [Float]: IEEE doubles; [TypeRec]:
      [types.rs]; [Deob]: [deob.rs]; [Signatures], [SigFile]:
      [signatures.rs];
      [BlockDiff], [BinDiff]: [blockdiff.rs] and the fingerprint exports;
      [Rules]: [rules.rs]; [Crypto]: [crypto.rs] and the built-in pack.
    - [Analyses]: the remaining arms of [dispatch], over all of the above,
      and the whole dispatcher.
    - [WasmModule], [WasmCfg], [WasmSsa], [WasmCalls], [WasmPseudo]: the
      crate [rmcp-wasm], one file each, over the payloads and operators that
      its decoder delivers.
    - [WorkerMain]: [rmcp-worker/src/lib.rs], the process around the
      dispatcher.
    - [ChildEnv]: the environment [worker_pool.rs] and [isolation.rs] give a
      process they start, and what the worker makes of it.
    - [Isolation]: [rmcp-broker/src/isolation.rs], disposable workers;
      [JobObject]: their guard and [rmcp-broker/src/job_object.rs]; [Config]:
      [rmcp-core/src/config.rs] and [layout.rs].
    - [Broker]: the broker's state, database resolution and janitor
      ([rmcp-broker/src/lib.rs]) and the handlers' monad over a [Host] (the
      class of what the broker asks of the world); [Tools], [LargeFnTools],
      [WasmTools]: the tool handlers of [tools.rs], [largefn_tools.rs] and
      [wasm_tools.rs]; [ToolDefs], [Registry]: the catalogue and the
      dispatcher of [registry.rs], [prompts.rs] and [resources.rs].
    - [Surface]: which sessions and methods a call can reach, over all tools;
      [Served]: the same with the workers of [WorkerMain] behind the host.
    - [Bench]: the benchmarks, [src/src/bench.rs] and [bench_real.rs], over the
      pool and a host; [BenchMock]: the first of them run on mock workers.
    - [Cli]: the command line, [src/src/main.rs] and [src/src/cli.rs].

    ** What the theorems show

    - Functional correctness of the algorithms: Tarjan's components
      ([tarjan_sccs_correct]), the region partition and its quotient graph
      ([partition_covers], [region_graph_correct]), the same from arbitrary
      JSON ([cfg_index_faithful], [partition_from_graph_covers]), reachability,
      shortest call paths and neighbourhoods ([reachable_correct],
      [trace_call_path_shortest], [call_neighborhood_bounded]), evidence
      queries ([query_correct]), selection of an install ([resolve_strict],
      [discover_all_sound], [range_requirement]) and completeness of
      discovery ([discovery_exhaustive]).
    - The dataflow pass: soundness, convergence and completeness of its
      report ([dataflow_sound], [dataflow_converges],
      [dataflow_frontier_complete]).
    - Refinement: the result store implements a time-to-live map on every
      timed run ([store_refines_spec]), with its memory bound and the
      lossless spilling of outputs.
    - Concurrency: in every interleaving of callers, pump and monitor each
      call is answered at most once and by its own response
      ([calls_answered_once], [responses_routed]), and what happens when the
      worker exits or a write fails ([eof_crashes_session],
      [write_failure_strands_session], [request_channel_never_closes]).
    - Sessions: opening, backend choice and recovery of a pool
      ([spawn_adds_one_session], [backend_choice_honest],
      [recover_preserves_handles]); jobs ([jobs_bounded], [job_result_kept],
      [cancel_does_not_discard]).
    - Mutations: plans stop at the first failure, stale requests of the
      guarded methods change nothing, the audited methods are audited exactly
      ([plan_apply_prefix], [stale_revision_rejected], [mutations_audited]); a
      transform of a mock database is undone by one rollback
      ([transform_reversible], [validate_exact]); and from these, that over
      every request of the dispatcher a worker's index and cache give no stale
      answer in a session without the requests that replace the database or
      change a real one at the same revision ([unversioned];
      [index_answers_fresh], [cached_answers_fresh]).
    - The analyses of a worker compute what they report: the deep walk
      terminates and covers what is reachable ([deep_walk_exact],
      [resume_restores]), value rows, structures and triggered passes are the
      evidence counted ([value_rows_exact], [structure_exact],
      [deob_exact]), candidates and maps are the best ones
      ([identify_ranked], [map_functions_best]), a diff accounts for every
      block and a database does not differ from its own export
      ([diff_accounts_blocks], [export_diff_self]), scans find exactly the
      matches and the hashes ([crypto_scan_exact], [api_hashes_exact],
      [recovered_strings_exact]), and an accepted rule pack is well formed
      ([accepted_pack_typed], [pack_error_located]).
    - The surface: whatever a tool is called with, its requests go to the
      sessions its arguments denote, with the methods of its own list (a
      background job's method is the agent's choice outside a refusal list)
      and within the budgets ([calls_confined]); handles resolve exactly
      ([resolution_exact]); a worker outside the reach of a call does not
      change ([databases_isolated]) and a read tool changes no database,
      though a worker that panics on a read is lost
      ([reads_leave_databases]), whatever the backend; the worker process
      answers in order ([worker_answers_in_order]); disposable workers are
      capped, accounted for and ordered killed, within their budget and the
      time to reap them ([iso_ledger_balances], [isolated_within_budget]), and
      when a run ends, the end of everything the worker started is ordered
      ([guard_kills_tree]); a child gets
      the environment it reads ([worker_env_arrives]); the janitor and the
      doctor do what they say ([janitor_tick_exact], [doctor_exact]).
    - The edges of the program: the types shared with the SDK have its layout
      ([mirrors_match_sdk]), the worker reads every spelling of the requests
      and the queries of the protocol ([spellings_read]), the benchmarks come to an
      end and the mock one passes on the mock ([benches_end],
      [mock_bench_passes]).
    - The real backend: a restore opens the snapshot's content and never
      reuses a revision ([snapshot_restores]), the call graph and the index are exact
      ([call_graph_exact], [cfg_graph_exact], [real_index_exact]), the
      recovery of functions ends ([analyze_wait_total]), and it keeps the contract of the trait, so that
      [plan_apply_prefix], [index_answers_fresh] and [cached_answers_fresh]
      hold of it as of the mock.
    - WebAssembly: index spaces and budgets of a module
      ([function_index_space], [parse_within_budget]), nesting of regions,
      their parents and the branches to them ([regions_well_nested]),
      soundness of the SSA constants against an execution where every local is
      written before it is read ([ssa_constants_sound], [ssa_well_formed]),
      exact resolution of indirect calls through segments that do not overlap
      ([indirect_resolution_exact]), balanced pseudocode
      ([pseudocode_balanced]).
    - Round trips of frames and of errors ([frames_roundtrip],
      [error_roundtrip]); a frame survives being cut up on its way, as long as
      no request is taken up in the middle of it ([frames_survive_chunks]).
    - Where the code departs from its documentation, a theorem states what it
      does: [restore_reuses_revision], [restored_index_is_stale],
      [types_apply_unaudited], [subsystem_truncation_unreported],
      [entry_exit_spec], [cancel_unbounds_tasks], [start_panics_inside_char],
      [plan_guard_skips_malformed], [preflight_ignores_sccs],
      [first_hit_loses_ties], [half_read_costs_session], [zero_length_diverges],
      [closed_snapshot_overwrites], [resize_half_done],
      [missing_python_home_is_set], [limits_never_set], [failures_unreported],
      [hello_version_is_inherited], [omitted_detail], [root_as_text_refused],
      [restore_ignores_revision], [restore_unaudited], [unset_local_misaligns],
      [overlap_confirms_stale], [deep_pass_leaks],
      [real_round_trips_fixed],
      [session_commands_never_succeed].

    ** Conventions

    - A [u64], [u32] or [usize] (64-bit targets) is a [Z] in its range, a
      [Vec] length or index a [nat]; [+] on revisions, counters and addresses
      wraps as in a release build.  Strings are their UTF-8 bytes.  An [f64]
      is a [spec_float] of 53 bits computed exactly ([Float]), and its bit
      pattern in JSON.  Instants and durations are nanoseconds.
    - [Result] is [Error + A].  An operation that can panic returns an
      [outcome], and [Panic] is what indexing out of range, [expect] on
      [None] and slicing inside a character give.
    - [BTreeMap] and [HashMap] are [gmap]s.  The order in which a [HashMap] is
      iterated is a parameter constrained only to enumerate the map; a
      [BTreeMap] is iterated in key order.
    - Outside the program and therefore parameters: the JSON serializer (a
      frame is read back as [reread] of the value written, see [FrameCodecOk]),
      Unicode lowercasing, serde's error texts, the operating system as seen by discovery ([Machine]) and
      by the pool ([World]), the clock, the rule directory ([Env]), the
      decoders of WebAssembly and of TOML, a child process ([Child]), the
      process and job calls of Windows ([Win], documented in [WinOk]), and the
      IDA library ([Ida]), whose documented behaviour is in [IdaHonest],
      [FilesOk] (what saving, copying, closing and opening do to files; of
      edits, plugins and the analysis it says nothing) and [decodes] ([IdaQuiet] asks that a failed resize moved
      nothing, which the code leaves to its callers).  Laws assumed of them are fields of
      classes or named hypotheses, each with an instance or a witness.

    ** Fuel

    Recursion is structural wherever the source's loop is bounded by a
    counter ([rounds], [trace_levels], [near_levels], [reach_levels]).  The
    others run on fuel that is shown to suffice: [tarjan_fuel] (blocks plus
    edges: each step of a search either advances a cursor over an edge or
    finishes a block), [recover] with one more than [max_restarts],
    [walk_back] with the depth, the number of levels searched,
    [chunks_fuel], [decode_pairs], [read_frames], [version_scan] and the text
    functions with the length of their input, the chunks of a segment with its
    size ([segment_fuel]), the worker's loop with the length of its input, the
    calls of a function with its size ([callees_of]; an instruction of length
    zero is the one case it does not suffice for, and then no fuel does), the
    sweep of a segment with a quarter of it ([sweep_steps]).  That enough fuel
    exists for a deep walk is part of [deep_walk_exact].

    ** What is not modelled

    - The vendored IDA crates and the library behind them: they are the class
      [Ida], and their types in memory are [IdaSys].
    - The MCP transports ([serve_stdio], [serve_http]) and the decoding of
      WebAssembly, TOML and JSON text: third-party crates.
    - What the operating system does when a process is created, beyond the
      environment it is given and what comes back from it.
    - Locks: a handler of the broker runs alone, the interleavings modelled are
      those of [Pump], [AsyncReader], [Jobs] and [Isolation].
    - The unit tests of the source files, but for the one over the SDK facts.

    The theorems on [Worker], [Analyses] and [Served] hold for any decoder of
    queries and requests; that of the program is in [Requests]. *)

From stdpp Require Import base list gmap strings sorting.
From Stdlib Require Import ZArith Lia.

#[global] Set Warnings "-notation-overridden".

(** Names of the development's own notations live in [rmcp_scope]. *)
Declare Scope rmcp_scope.
Delimit Scope rmcp_scope with rmcp.

(** ** Machine integers

    A Rust [u32], [u64] or [usize] (64-bit targets) is a [Z] in the range of
    its width.  Wrap-around, saturation and checked operations are spelled
    out where the source uses them. *)

Definition u32_modulus : Z := 2 ^ 32.
Definition u64_modulus : Z := 2 ^ 64.
Definition u64_max : Z := u64_modulus - 1.
Definition usize_max : Z := u64_max.

Definition is_u64 (z : Z) : Prop := (0 <= z < u64_modulus)%Z.
Definition is_u32 (z : Z) : Prop := (0 <= z < u32_modulus)%Z.

#[global] Instance is_u64_dec z : Decision (is_u64 z).
Proof. unfold is_u64. apply _. Defined.

#[global] Instance is_u32_dec z : Decision (is_u32 z).
Proof. unfold is_u32. apply _. Defined.

(** [a.wrapping_add(b)], [a.wrapping_sub(b)] on [u64]. *)
Definition wrapping_add64 (a b : Z) : Z := (a + b) mod u64_modulus.
Definition wrapping_sub64 (a b : Z) : Z := (a - b) mod u64_modulus.

(** [a.saturating_sub(b)] on an unsigned type. *)
Definition saturating_sub (a b : Z) : Z := Z.max 0 (a - b).

Lemma wrapping_add64_u64 a b : is_u64 (wrapping_add64 a b).
Proof. apply Z.mod_pos_bound. reflexivity. Qed.

Lemma wrapping_sub64_u64 a b : is_u64 (wrapping_sub64 a b).
Proof. apply Z.mod_pos_bound. reflexivity. Qed.

Create HintDb rmcp.
#[export] Hint Resolve wrapping_add64_u64 wrapping_sub64_u64 : rmcp.

(** [cbbn]: decide every integer comparison of the goal by arithmetic, then
    reduce the conditionals they guard. *)
Ltac cbbn :=
  repeat (match goal with
    | |- context [Z.leb ?a ?b] => destruct (Z.leb_spec a b); try lia
    | |- context [Z.ltb ?a ?b] => destruct (Z.ltb_spec a b); try lia
    | |- context [Z.eqb ?a ?b] => destruct (Z.eqb_spec a b); try lia
    end;
    cbn [andb orb negb]; cbv beta zeta iota).

(** ** Sorting: [slice::sort_by_key], a stable sort *)
Section SortByKey.
Context {A : Type} (key : A -> Z).

Fixpoint insert_by_key (x : A) (l : list A) : list A :=
  match l with
  | [] => [x]
  | y :: l' => if (key x <=? key y)%Z then x :: y :: l' else y :: insert_by_key x l'
  end.

Definition sort_by_key (l : list A) : list A := foldr insert_by_key [] l.

Lemma insert_by_key_perm x l : insert_by_key x l ≡ₚ x :: l.
Proof using Type.
  induction l as [|y l IH]; simpl; [done|]. destruct (_ <=? _)%Z; [done|].
  rewrite IH. constructor.
Qed.

Lemma sort_by_key_perm l : sort_by_key l ≡ₚ l.
Proof using Type. induction l as [|x l IH]; simpl; [done|]. by rewrite insert_by_key_perm, IH. Qed.

Definition key_le (x y : A) : Prop := (key x <= key y)%Z.

Lemma insert_by_key_sorted x l :
  StronglySorted key_le l -> StronglySorted key_le (insert_by_key x l).
Proof using Type.
  induction 1 as [|y l Hs IH Hy]; simpl.
  { repeat constructor. }
  destruct (Z.leb_spec (key x) (key y)).
  - constructor; [by constructor|]. constructor; [done|].
    eapply Forall_impl; [exact Hy|]. unfold key_le. intros z Hz. lia.
  - constructor; [done|]. rewrite insert_by_key_perm. constructor; [unfold key_le; lia|done].
Qed.

Lemma sort_by_key_sorted l : StronglySorted key_le (sort_by_key l).
Proof using Type. induction l; simpl; [constructor|]. by apply insert_by_key_sorted. Qed.

Lemma length_sort_by_key l : length (sort_by_key l) = length l.
Proof using Type. by rewrite sort_by_key_perm. Qed.

(** The first [k] of a sorted list are below the rest. *)
Lemma sort_by_key_split k l x y :
  x ∈ take k (sort_by_key l) -> y ∈ drop k (sort_by_key l) -> (key x <= key y)%Z.
Proof using Type.
  pose proof (sort_by_key_sorted l) as Hs. rewrite <- (take_drop k (sort_by_key l)) in Hs.
  intros Hx Hy. exact (StronglySorted_app_1_elem_of key_le _ _ x y Hs Hx Hy).
Qed.

(** Lists with the same elements and distinct keys sort alike. *)
Lemma sort_by_key_strict l : NoDup (key <$> l) -> StronglySorted (fun x y => (key x < key y)%Z) (sort_by_key l).
Proof using Type.
  intros Hn. assert (NoDup (key <$> sort_by_key l)) as Hn' by by rewrite sort_by_key_perm.
  pose proof (sort_by_key_sorted l) as Hs. revert Hs Hn'. generalize (sort_by_key l). clear.
  induction 1 as [|x l Hs IH Hx]; intros Hn; [constructor|]. cbn [fmap list_fmap] in Hn. apply NoDup_cons in Hn as [Hn1 Hn2].
  constructor; [by apply IH|]. rewrite Forall_forall in *. intros y Hy. specialize (Hx y Hy). unfold key_le in Hx.
  assert (key x <> key y) by (intros E; apply Hn1; rewrite E; by apply list_elem_of_fmap_2). lia.
Qed.

Lemma sort_by_key_unique l1 l2 : l1 ≡ₚ l2 -> NoDup (key <$> l1) -> sort_by_key l1 = sort_by_key l2.
Proof using Type.
  intros Hp Hn. assert (NoDup (key <$> l2)) as Hn2 by by rewrite <- Hp.
  assert (AntiSymm (=) (fun x y => (key x < key y)%Z)) by (intros x y ? ?; lia).
  eapply (StronglySorted_unique (fun x y => (key x < key y)%Z)); [by apply sort_by_key_strict..|].
  by rewrite !sort_by_key_perm.
Qed.
End SortByKey.

(** ** [slice::sort_by] with a total comparison, also stable *)
Section SortBy.
Context {A : Type} (leb : A -> A -> bool).

Fixpoint insert_by (x : A) (l : list A) : list A :=
  match l with
  | [] => [x]
  | y :: l' => if leb x y then x :: y :: l' else y :: insert_by x l'
  end.

Definition sort_by (l : list A) : list A := foldr insert_by [] l.

Lemma insert_by_perm x l : insert_by x l ≡ₚ x :: l.
Proof using Type. induction l as [|y l IH]; simpl; [done|]. destruct (leb x y); [done|]. rewrite IH. constructor. Qed.

Lemma sort_by_perm l : sort_by l ≡ₚ l.
Proof using Type. induction l as [|x l IH]; simpl; [done|]. by rewrite insert_by_perm, IH. Qed.

Context (total : forall x y, leb x y = false -> leb y x = true).

Lemma insert_by_sorted x l :
  Sorted (fun a b => leb a b = true) l -> Sorted (fun a b => leb a b = true) (insert_by x l).
Proof using total.
  induction 1 as [|y l Hs IH Hd]; simpl; [repeat constructor|]. destruct (leb x y) eqn:E; [by repeat constructor|].
  constructor; [exact IH|]. destruct l as [|z l]; simpl; [by constructor; apply total|].
  destruct (leb x z); constructor; [by apply total|by inversion Hd].
Qed.

Lemma sort_by_sorted l : Sorted (fun a b => leb a b = true) (sort_by l).
Proof using total. induction l; simpl; [constructor|]. by apply insert_by_sorted. Qed.
End SortBy.

(** ** Collecting up to a limit

    The loop [if let Some(y) = f(x) { acc.push(y); if acc.len() >= max { truncated = true; break } }]. *)
Section PushUntil.
Context {A B : Type} (f : A -> option B) (max : nat).

Fixpoint push_until (l : list A) (acc : list B) : list B * bool :=
  match l with
  | [] => (acc, false)
  | x :: rest =>
      match f x with
      | None => push_until rest acc
      | Some y => let acc := acc ++ [y] in if (max <=? length acc)%nat then (acc, true) else push_until rest acc
      end
  end.

Lemma push_until_spec l acc :
  (length acc < max `max` 1)%nat ->
  push_until l acc = (take (max `max` 1) (acc ++ omap f l), (max `max` 1 <=? length (acc ++ omap f l))%nat).
Proof using Type.
  revert acc. induction l as [|x l IH]; intros acc Ha; cbn [push_until omap list_omap].
  { rewrite app_nil_r, take_ge by lia. destruct (Nat.leb_spec (max `max` 1) (length acc)); [lia|reflexivity]. }
  destruct (f x) as [y|]; [|by apply IH]. rewrite (cons_middle y acc (omap f l)), app_assoc.
  destruct (Nat.leb_spec max (length (acc ++ [y]))) as [Hle|Hlt];
    [rewrite length_app in Hle|rewrite length_app in Hlt]; cbn [length] in *.
  - rewrite (take_app_le (acc ++ [y])) by (rewrite length_app; cbn; lia). rewrite take_ge by (rewrite length_app; cbn; lia).
    f_equal. symmetry. apply Nat.leb_le. rewrite !length_app. cbn. lia.
  - apply IH. rewrite length_app. cbn. lia.
Qed.
End PushUntil.

(** ** [Vec::dedup]: drop an element equal to the next one *)
Section Dedup.
Context {A : Type} `{EqDecision A}.

Fixpoint dedup (l : list A) : list A :=
  match l with
  | [] => []
  | x :: l' =>
      match l' with
      | [] => [x]
      | y :: _ => if bool_decide (x = y) then dedup l' else x :: dedup l'
      end
  end.

Lemma elem_of_dedup x l : x ∈ dedup l <-> x ∈ l.
Proof.
  induction l as [|a l IH]; [done|]. cbn [dedup]. destruct l as [|b l]; [done|].
  case_bool_decide as Hd.
  - subst. rewrite IH, !elem_of_cons. tauto.
  - rewrite elem_of_cons, IH, !elem_of_cons. tauto.
Qed.
End Dedup.

(** A sorted list of integers without its repetitions is strictly sorted. *)
Lemma dedup_strict (l : list Z) :
  StronglySorted Z.le l -> StronglySorted Z.lt (dedup l).
Proof.
  induction 1 as [|a l Hs IH Ha]; [constructor|]. cbn [dedup]. destruct l as [|b l]; [repeat constructor|].
  case_bool_decide as Hd; [done|]. constructor; [done|].
  apply Forall_forall. intros x. rewrite elem_of_dedup. intros Hx.
  assert (b <= x)%Z; [|inversion_clear Ha; lia].
  apply elem_of_cons in Hx as [->|Hx]; [lia|]. inversion_clear Hs as [|? ? _ Hb].
  rewrite Forall_forall in Hb. by apply Hb.
Qed.

(** ** Lists *)

Lemma StronglySorted_lt_NoDup (l : list Z) : StronglySorted Z.lt l -> NoDup l.
Proof.
  induction 1 as [|a l Hs IH Ha]; constructor; [|done].
  intros Hin. rewrite Forall_forall in Ha. specialize (Ha a Hin). lia.
Qed.

Lemma StronglySorted_ext {A} (R1 R2 : relation A) (l : list A) :
  (forall a b, a ∈ l -> b ∈ l -> R1 a b -> R2 a b) ->
  StronglySorted R1 l -> StronglySorted R2 l.
Proof.
  intros HR Hs. induction Hs as [|a l Hs IH Hf]; [constructor|].
  constructor.
  - apply IH. intros x y Hx Hy. apply HR; by right.
  - rewrite Forall_forall in Hf |- *. intros x Hx. apply HR; [left|by right|auto].
Qed.

Lemma filter_fmap {A B} (f : A -> B) (P : B -> Prop) `{forall x, Decision (P x)} (l : list A) :
  filter P (f <$> l) = f <$> filter (fun x => P (f x)) l.
Proof.
  induction l as [| x l IH]; [reflexivity |]. cbn [fmap list_fmap]. rewrite !filter_cons. fold (f <$> l).
  rewrite IH. by case_decide.
Qed.

Lemma filter_none {A} (P : A -> Prop) `{forall x, Decision (P x)} (l : list A) :
  (forall x, x ∈ l -> ~ P x) -> filter P l = [].
Proof.
  induction l as [| x l IH]; intros HP; [reflexivity |]. rewrite filter_cons, decide_False by (apply HP; left).
  apply IH. intros y Hy. apply HP. by right.
Qed.

Lemma concat_fmap' {A B} (f : A -> B) (ls : list (list A)) :
  f <$> concat ls = concat (fmap (M:=list) f <$> ls).
Proof. induction ls as [|l ls IH]; simpl; [done|]. by rewrite fmap_app, IH. Qed.

Lemma concat_perm {A} (l1 l2 : list (list A)) : l1 ≡ₚ l2 -> concat l1 ≡ₚ concat l2.
Proof.
  induction 1 as [|x l1 l2 _ IH|x y l|l1 l2 l3 _ IH1 _ IH2]; simpl; [done|by rewrite IH| |by etrans].
  by rewrite !app_assoc, (Permutation_app_comm x y).
Qed.

(** ** Computations that may panic or need fuel

    Rust code that indexes out of range panics; a loop whose recursion is not
    structural runs on fuel.  The theorems show that neither happens. *)
Inductive outcome (A : Type) :=
  | Done (a : A)
  | Panic
  | OutOfFuel.
Arguments Done {A} a.
Arguments Panic {A}.
Arguments OutOfFuel {A}.

Lemma Done_inj {A} (x y : A) : Done x = Done y -> x = y.
Proof. by intros [= ->]. Qed.

Definition obind {A B} (o : outcome A) (f : A -> outcome B) : outcome B :=
  match o with Done a => f a | Panic => Panic | OutOfFuel => OutOfFuel end.

(** Indexing: [None] is out of range. *)
Definition at_ {A} (o : option A) : outcome A :=
  match o with Some a => Done a | None => Panic end.

Notation "x <~ o ; k" := (obind o (fun x => k))
  (at level 60, o at level 59, k at level 60, right associativity) : rmcp_scope.
