(* ===== verification/Layout.v ===== *)
(** * Layout: the layout of [repr(C)] types

    Size, alignment and field offsets as the Rust reference defines them for
    [#[repr(C)]] structs and unions of scalars, pointers and arrays on a
    64-bit target, and what makes such a layout sound: every field is aligned,
    lies inside the type and behind the field before it, with no more padding
    than its alignment needs. *)

From stdpp Require Import base list strings sets.
From Stdlib Require Import ZArith Lia.
From S2P Require Import Prelude.

Local Open Scope rmcp_scope.
Local Open Scope Z_scope.

Inductive ty :=
  | Int (bytes : Z)
  | Bool
  | Ptr (to : string)
  | Array (t : ty) (n : nat)
  | Struct (fields : list (string * ty))
  | Union (fields : list (string * ty)).

(** The next multiple of [a]. *)
Definition round_up (n a : Z) : Z := (n + a - 1) / a * a.

Fixpoint align_of (t : ty) : Z :=
  match t with
  | Int n => n
  | Bool => 1
  | Ptr _ => 8
  | Array t _ => align_of t
  | Struct fs | Union fs => foldr (fun f a => Z.max (align_of f.2) a) 1 fs
  end.

Fixpoint size_of (t : ty) : Z :=
  match t with
  | Int n => n
  | Bool => 1
  | Ptr _ => 8
  | Array t n => size_of t * Z.of_nat n
  | Struct fs => round_up (foldl (fun off f => round_up off (align_of f.2) + size_of f.2) 0 fs) (align_of t)
  | Union fs => round_up (foldr (fun f n => Z.max (size_of f.2) n) 0 fs) (align_of t)
  end.

(** The fields of a struct with their offsets, from [off] on. *)
Fixpoint place (off : Z) (fs : list (string * ty)) : list (string * ty * Z) :=
  match fs with
  | [] => []
  | (name, t) :: fs' => let o := round_up off (align_of t) in (name, t, o) :: place (o + size_of t) fs'
  end.

Definition placed (t : ty) : list (string * ty * Z) :=
  match t with Struct fs => place 0 fs | Union fs => (fun f => (f, 0)) <$> fs | _ => [] end.

Definition offset_of (t : ty) (name : string) : option Z :=
  snd <$> List.find (fun f => bool_decide (f.1.1 = name)) (placed t).

(** ** Soundness *)

(** The scalars of a target are 1, 2, 4 and 8 bytes wide. *)
Fixpoint scalar_ok (t : ty) : bool :=
  match t with
  | Int n => bool_decide (n ∈ [1; 2; 4; 8])
  | Bool | Ptr _ => true
  | Array t _ => scalar_ok t
  | Struct fs | Union fs => forallb (fun f => scalar_ok f.2) fs
  end.

Fixpoint ty_nested_ind (P : ty -> Prop)
    (HI : forall n, P (Int n)) (HB : P Bool) (HP : forall s, P (Ptr s)) (HA : forall t n, P t -> P (Array t n))
    (HS : forall fs, Forall (fun f => P f.2) fs -> P (Struct fs)) (HU : forall fs, Forall (fun f => P f.2) fs -> P (Union fs))
    (t : ty) : P t :=
  let go := ty_nested_ind P HI HB HP HA HS HU in
  let all := fix all fs : Forall (fun f => P f.2) fs :=
    match fs with [] => Forall_nil_2 _ | f :: fs' => Forall_cons_2 _ _ _ (go f.2) (all fs') end in
  match t with
  | Int n => HI n | Bool => HB | Ptr s => HP s | Array t n => HA t n (go t)
  | Struct fs => HS fs (all fs) | Union fs => HU fs (all fs)
  end.

Definition pow2 (a : Z) : Prop := a ∈ [1; 2; 4; 8].

Lemma pow2_pos a : pow2 a -> 0 < a.
Proof. unfold pow2. set_unfold. lia. Qed.

Lemma pow2_max a b : pow2 a -> pow2 b -> pow2 (Z.max a b).
Proof. intros Ha Hb. by destruct (Z.max_spec a b) as [[_ ->]|[_ ->]]. Qed.

Lemma pow2_divide a b : pow2 a -> pow2 b -> a <= b -> (a | b).
Proof.
  unfold pow2. set_unfold. intros Ha Hb Hle.
  destruct Ha as [->|[->|[->|[->|[]]]]], Hb as [->|[->|[->|[->|[]]]]]; try lia; by apply Z.mod_divide.
Qed.

Lemma round_up_divide n a : (a | round_up n a).
Proof. by exists ((n + a - 1) / a). Qed.

Lemma round_up_spec n a : 0 < a -> n <= round_up n a < n + a.
Proof.
  intros Ha. unfold round_up. pose proof (Z.div_mod (n + a - 1) a ltac:(lia)). pose proof (Z.mod_pos_bound (n + a - 1) a Ha). lia.
Qed.

Lemma align_pow2 t : scalar_ok t = true -> pow2 (align_of t).
Proof.
  assert (forall fs : list (string * ty), Forall (fun f => scalar_ok f.2 = true -> pow2 (align_of f.2)) fs -> forallb (fun f => scalar_ok f.2) fs = true ->
    pow2 (foldr (fun f a => Z.max (align_of f.2) a) 1 fs)) as Hall.
  { intros fs H. induction H as [|f fs Hf Hfs IH]; [by left|]. cbn [forallb foldr]. intros [H1 H2]%andb_true_iff. apply pow2_max; auto. }
  induction t as [n| |s|t n IH|fs IH|fs IH] using ty_nested_ind; intros Hok.
  - by apply bool_decide_eq_true in Hok.
  - by left.
  - by do 3 right; left.
  - by apply IH.
  - by apply Hall.
  - by apply Hall.
Qed.

Lemma size_divide t : scalar_ok t = true -> 0 <= size_of t /\ (align_of t | size_of t).
Proof.
  induction t as [n| |s|t n IH|fs IH|fs IH] using ty_nested_ind; intros Hok.
  - apply bool_decide_eq_true in Hok. cbn. split; [|done]. set_unfold. lia.
  - done.
  - split; [done|]. by exists 1.
  - destruct (IH Hok) as [H1 H2]. cbn. split; [nia|]. by apply Z.divide_mul_l.
  - pose proof (pow2_pos _ (align_pow2 _ Hok)) as Ha. split; [|apply round_up_divide].
    assert (forall off, 0 <= off -> 0 <= foldl (fun off f => round_up off (align_of f.2) + size_of f.2) off fs) as H.
    { cbn in Hok. clear Ha. induction IH as [|f fs Hf Hfs IH']; intros off Ho; cbn in *; [done|].
      apply andb_true_iff in Hok as [H1 H2]. apply IH'; [done|]. destruct (Hf H1) as [Hs _].
      pose proof (round_up_spec off (align_of f.2) (pow2_pos _ (align_pow2 _ H1))). lia. }
    specialize (H 0 ltac:(lia)). change (size_of (Struct fs)) with (round_up (foldl (fun off f => round_up off (align_of f.2) + size_of f.2) 0 fs) (align_of (Struct fs))).
    pose proof (round_up_spec (foldl (fun off f => round_up off (align_of f.2) + size_of f.2) 0 fs) _ Ha). lia.
  - pose proof (pow2_pos _ (align_pow2 _ Hok)) as Ha. split; [|apply round_up_divide].
    change (size_of (Union fs)) with (round_up (foldr (fun f n => Z.max (size_of f.2) n) 0 fs) (align_of (Union fs))).
    pose proof (round_up_spec (foldr (fun f n => Z.max (size_of f.2) n) 0 fs) _ Ha).
    assert (0 <= foldr (fun f n => Z.max (size_of f.2) n) 0 fs) by (clear; induction fs; cbn; lia). lia.
Qed.

(** Where the last field ends. *)
Definition extent (off : Z) (fs : list (string * ty)) : Z := foldl (fun off f => round_up off (align_of f.2) + size_of f.2) off fs.

Lemma place_fields off fs : (place off fs).*1 = fs.
Proof. revert off. induction fs as [|[n t] fs IH]; intros off; cbn; [done|]. by rewrite IH. Qed.

(** The fields behind [off] up to the [extent], each behind the one before. *)
Record in_order (off stop : Z) (ps : list (string * ty * Z)) : Prop := {
  io_stop : off <= stop;
  io_field f : f ∈ ps -> (align_of f.1.2 | f.2) /\ off <= f.2 /\ f.2 + size_of f.1.2 <= stop;
  io_before i j f g : ps !! i = Some f -> ps !! j = Some g -> (i < j)%nat -> f.2 + size_of f.1.2 <= g.2;
  io_padding i f g : ps !! i = Some f -> ps !! S i = Some g -> g.2 < f.2 + size_of f.1.2 + align_of g.1.2;
}.

Lemma place_in_order off fs : forallb (fun f => scalar_ok f.2) fs = true -> in_order off (extent off fs) (place off fs).
Proof.
  revert off. induction fs as [|[name t] fs IH]; intros off Hok; cbn [place extent foldl].
  { split; [done|by intros f ?%elem_of_nil|done|done]. }
  apply andb_true_iff in Hok as [Ht Hfs]. cbn [snd] in *. pose proof (round_up_spec off _ (pow2_pos _ (align_pow2 t Ht))) as Hr.
  destruct (size_divide t Ht) as [Hs _]. set (o := round_up off (align_of t)) in *. fold (extent (o + size_of t) fs).
  destruct (IH (o + size_of t) Hfs) as [I1 I2 I3 I4]. split.
  - lia.
  - intros f [->|Hf]%elem_of_cons; [cbn [fst snd]; split; [apply round_up_divide|lia]|]. destruct (I2 f Hf) as (H1 & H2 & H3). split; [done|lia].
  - intros [|i] [|j] f g Hi Hj Hij; try lia; cbn in Hi, Hj; [|apply (I3 i j); [done|done|lia]].
    injection Hi as <-. cbn [fst snd]. apply list_elem_of_lookup_2 in Hj. by apply I2 in Hj as (_ & ? & _).
  - intros [|i] f g Hi Hj; cbn in Hi, Hj; [|by eapply I4]. injection Hi as <-. cbn.
    destruct fs as [|[n' t'] fs]; [done|]. cbn in Hj. injection Hj as <-. cbn. cbn in Hfs. apply andb_true_iff in Hfs as [Ht' _].
    pose proof (round_up_spec (o + size_of t) _ (pow2_pos _ (align_pow2 t' Ht'))). lia.
Qed.

Lemma max_elem (h : ty -> Z) (z : Z) f (fs : list (string * ty)) : f ∈ fs -> h f.2 <= foldr (fun f a => Z.max (h f.2) a) z fs.
Proof.
  induction fs as [|g fs IH]; [by intros ?%elem_of_nil|]. cbn [foldr]. intros [->|Hf]%elem_of_cons; [lia|]. specialize (IH Hf). lia.
Qed.

(** The layout of a struct is sound: its fields in their order, aligned,
    inside the struct and apart from each other, with less padding before a
    field than its alignment and less behind the last than the struct's. *)
Lemma struct_sound (fs : list (string * ty)) (t := Struct fs) :
  scalar_ok t = true ->
  (placed t).*1 = fs /\ in_order 0 (extent 0 fs) (placed t)
  /\ extent 0 fs <= size_of t < extent 0 fs + align_of t /\ (align_of t | size_of t)
  /\ forall f, f ∈ fs -> (align_of f.2 | align_of t).
Proof.
  intros Hok. pose proof (align_pow2 t Hok) as Ha. split; [apply place_fields|]. split; [by apply place_in_order|].
  split; [by apply round_up_spec, pow2_pos|]. split; [apply round_up_divide|].
  intros f Hf. assert (scalar_ok f.2 = true) as Hfo.
  { cbn in Hok. rewrite forallb_forall in Hok. apply Hok. by apply list_elem_of_In. }
  apply pow2_divide; [by apply align_pow2|done|]. by apply (max_elem align_of).
Qed.

(** A field of a union starts it and fits. *)
Lemma union_sound (fs : list (string * ty)) (t := Union fs) :
  scalar_ok t = true ->
  (placed t).*1 = fs /\ (align_of t | size_of t)
  /\ forall f, f ∈ placed t -> f.2 = 0 /\ size_of f.1.2 <= size_of t.
Proof.
  intros Hok. pose proof (pow2_pos _ (align_pow2 t Hok)) as Ha. split; [cbn; rewrite <- list_fmap_compose; apply list_fmap_id|].
  split; [apply round_up_divide|]. intros f (g & -> & Hg)%list_elem_of_fmap. split; [done|]. cbn [fst].
  pose proof (round_up_spec (foldr (fun f n => Z.max (size_of f.2) n) 0 fs) _ Ha) as Hr.
  pose proof (max_elem size_of 0 g fs Hg) as Hm. change (size_of g.2 <= round_up (foldr (fun f n => Z.max (size_of f.2) n) 0 fs) (align_of t)). lia.
Qed.
