(* ===== verification/IdaSys.v ===== *)
(** * IdaSys: the mirrors of the IDA SDK's types

    Models [reverse-ida-sys/src/lib.rs]: the [#[repr(C)]] types that stand for
    those of the SDK, the layout asserted at compile time, and the facts
    measured on the SDK headers ([backends/abi/expected-9_2.json] and
    [expected-9_4.json]) with the test that compares them.  A type that is
    only used through a pointer is a [Ptr] where it is used. *)

From stdpp Require Import base list strings.
From Stdlib Require Import ZArith Lia.
From S2P Require Import Prelude Layout.

Local Open Scope rmcp_scope.
Local Open Scope Z_scope.

Definition u8 : ty := Int 1.
Definition i8 : ty := Int 1.
Definition u16 : ty := Int 2.
Definition i16 : ty := Int 2.
Definition u32 : ty := Int 4.
Definition i32 : ty := Int 4.
Definition u64 : ty := Int 8.
Definition i64 : ty := Int 8.
Definition usize : ty := Int 8.

Definition ea_t : ty := u64.
Definition sval_t : ty := i64.
Definition flags64_t : ty := u64.
Definition typid_t : ty := u64.
Definition biggest_t : ty := u64.

(** [_opaque: [u8; 0]], the body of the types used through pointers only. *)
Definition opaque : ty := Struct [("_opaque", Array u8 0)].

Definition qvector (elem : string) : ty := Struct [("array", Ptr elem); ("n", usize); ("alloc", usize)].

Definition range_t : ty := Struct [("start_ea", ea_t); ("end_ea", ea_t)].

Definition op_t : ty := Struct [
  ("n", u8); ("type_", u8); ("offb", i8); ("offo", i8); ("flags", u8); ("dtype", u8); ("reg", u16); ("value", ea_t); ("addr", ea_t);
  ("specval", ea_t); ("specflag1", i8); ("specflag2", i8); ("specflag3", i8); ("specflag4", i8)].

Definition insn_t : ty := Struct [
  ("cs", ea_t); ("ip", ea_t); ("ea", ea_t); ("itype", u16); ("size", u16); ("auxpref", u32); ("segpref", i8); ("insnpref", i8);
  ("flags", i16); ("ops", Array op_t 8)].

Definition argloc_union : ty := Union [
  ("sval", sval_t); ("reginfo", u32); ("rrel", Ptr "rrel_t"); ("dist", Ptr "scattered_aloc_t"); ("custom", Ptr "c_void");
  ("biggest", biggest_t)].
Definition argloc_t : ty := Struct [("atype", u32); ("_pad", u32); ("u", argloc_union)].
Definition tinfo_t : ty := Struct [("typid", typid_t)].
Definition vdloc_t : ty := argloc_t.
Definition lvar_locator_t : ty := Struct [("location", vdloc_t); ("defea", ea_t)].
Definition qstring : ty := Struct [("array", Ptr "u8"); ("n", usize); ("alloc", usize)].

Definition lvar_t : ty := Struct [
  ("location", vdloc_t); ("defea", ea_t); ("flags", i32); ("_pad0", u32); ("name", qstring); ("cmt", qstring); ("tif", tinfo_t);
  ("width", i32); ("defblk", i32); ("divisor", u64)].

Definition citem_t : ty := Struct [("ea", ea_t); ("op", u8); ("label_num", i32); ("index", i32); ("_pad1", i32)].

Definition cinsn_u : ty := Union [
  ("cblock", Ptr "cblock_t"); ("cexpr", Ptr "cexpr_t"); ("cif", Ptr "cif_t"); ("cfor", Ptr "cfor_t"); ("cwhile", Ptr "cwhile_t");
  ("cdo", Ptr "cdo_t"); ("cswitch", Ptr "cswitch_t"); ("creturn", Ptr "creturn_t"); ("cgoto", Ptr "cgoto_t"); ("casm", Ptr "casm_t");
  ("ctry", Ptr "ctry_t"); ("cthrow", Ptr "cthrow_t")].
Definition cinsn_t : ty := Struct [("base", citem_t); ("u", cinsn_u)].
Definition cblock_t : ty := Struct [("next", Ptr "cblock_t"); ("prev", Ptr "cblock_t"); ("length", usize)].

Definition cexpr_u : ty := Union [
  ("n", Ptr "cnumber_t"); ("fpc", Ptr "fnumber_t"); ("v", Ptr "var_ref_t"); ("obj_ea", ea_t); ("x", Ptr "cexpr_t"); ("y", Ptr "cexpr_t");
  ("a", Ptr "carglist_t"); ("m", u32); ("z", Ptr "cexpr_t"); ("ptrsize", i32); ("insn", Ptr "cinsn_t"); ("helper", Ptr "u8");
  ("string", Ptr "u8"); ("refwidth", i32); ("_upad0", u32); ("_upad1", u64); ("_usize", Array u8 24)].
Definition cexpr_t : ty := Struct [("base", citem_t); ("u", cexpr_u); ("typ", tinfo_t); ("exflags", u32); ("_pad2", u32)].
Definition cthrow_t : ty := Struct [("expr", cexpr_t)].

Definition ctree_maturity_t : ty := u32.
Definition intvec_t : ty := Struct [("array", Ptr "i32"); ("n", usize); ("alloc", usize)].

Definition cswitch_t : ty := Struct [
  ("base", citem_t); ("u", cexpr_u); ("typ", tinfo_t); ("exflags", u32); ("_pad2", u32); ("mvnf_value", u64); ("nf_flags32", u32);
  ("nf_opnum", i8); ("nf_props", i8); ("nf_serial", u8); ("nf_org_nbytes", i8); ("nf_type_name", qstring); ("nf_flags", flags64_t);
  ("cases_array", Ptr "ccase_t"); ("cases_n", usize); ("cases_alloc", usize)].

Definition ctry_t : ty := Struct [
  ("next", Ptr "cblock_t"); ("prev", Ptr "cblock_t"); ("length", usize); ("catchs_array", Ptr "ccatch_t"); ("catchs_n", usize);
  ("catchs_alloc", usize); ("old_state", usize); ("new_state", usize); ("is_wind", Bool)].

(** The feature [ida94] adds the tail of the newer SDK. *)
Definition cfunc_t (ida94 : bool) : ty := Struct ([
  ("entry_ea", ea_t); ("mba", Ptr "mba_t"); ("body", cinsn_t); ("argidx", Ptr "intvec_t"); ("maturity", ctree_maturity_t);
  ("user_labels", Ptr "user_labels_t"); ("user_cmts", Ptr "user_cmts_t"); ("numforms", Ptr "user_numforms_t");
  ("user_iflags", Ptr "user_iflags_t"); ("user_unions", Ptr "user_unions_t"); ("refcnt", i32); ("statebits", i32);
  ("eamap", Ptr "eamap_t"); ("boundaries", Ptr "boundaries_t"); ("sv", qvector "simpleline_t"); ("hdrlines", i32); ("_pad3", u32);
  ("treeitems", qvector "citem_t")] ++ (if ida94 then [("_ida94_tail", Array u8 8)] else [])).

Definition xrefblk_t : ty := Struct [
  ("from", ea_t); ("to", ea_t); ("iscode", Bool); ("type_", u8); ("user", Bool); ("_flags", u8); ("_pad", Array u8 2)].

(** ** Ranges *)

Record range := { start_ea : Z; end_ea : Z }.
Definition range_contains (r : range) (ea : Z) : bool := (start_ea r <=? ea) && (ea <? end_ea r).
Definition range_size (r : range) : Z := wrapping_sub64 (end_ea r) (start_ea r).

(** ** The asserted layout *)

Definition offset_is (t : ty) (name : string) (off : Z) : bool := bool_decide (offset_of t name = Some off).
Definition size_is (t : ty) (n : Z) : bool := size_of t =? n.

(** [const _: () = { assert!(..); .. }]. *)
Definition static_asserts (ida94 : bool) : bool :=
  size_is range_t 16 && (align_of range_t =? 8)
  && offset_is op_t "n" 0 && offset_is op_t "type_" 1 && offset_is op_t "reg" 6 && offset_is op_t "value" 8 && offset_is op_t "addr" 16
  && offset_is op_t "specval" 24 && offset_is op_t "specflag1" 32 && offset_is op_t "specflag4" 35
  && size_is op_t 40 && size_is insn_t 360 && size_is argloc_t 16 && size_is tinfo_t 8 && size_is vdloc_t 16 && size_is lvar_locator_t 24
  && size_is lvar_t 104 && size_is citem_t 24 && size_is cinsn_t 32 && size_is cblock_t 24 && size_is cexpr_t 64 && size_is cswitch_t 136
  && size_is ctry_t 72 && size_is cthrow_t 64 && size_is (cfunc_t ida94) (if ida94 then 192 else 184) && size_is qstring 24.

(** ** The measured facts *)

Record Facts := { f_sizeof : list (string * Z); f_alignof : list (string * Z); f_offsetof : list (string * string * Z) }.

(** The two files differ in one fact. *)
Definition expected (cfunc_size : Z) : Facts := {|
  f_sizeof := [("range_t", 16); ("op_t", 40); ("insn_t", 360); ("argloc_t", 16); ("vdloc_t", 16); ("tinfo_t", 8); ("lvar_locator_t", 24);
               ("lvar_t", 104); ("qstring", 24); ("citem_t", 24); ("cinsn_t", 32); ("cblock_t", 24); ("cexpr_t", 64); ("cswitch_t", 136);
               ("ctry_t", 72); ("cthrow_t", 64); ("cfunc_t", cfunc_size)];
  f_alignof := [("range_t", 8); ("op_t", 8); ("insn_t", 8); ("argloc_t", 8); ("tinfo_t", 8); ("lvar_t", 8); ("qstring", 8); ("citem_t", 8);
                ("cexpr_t", 8); ("cfunc_t", 8)];
  f_offsetof := [("op_t", "n", 0); ("op_t", "type", 1); ("op_t", "reg", 6); ("op_t", "value", 8); ("op_t", "addr", 16);
                 ("op_t", "specval", 24); ("op_t", "specflag1", 32); ("op_t", "specflag4", 35); ("insn_t", "ops", 40);
                 ("lvar_t", "location", 0); ("lvar_t", "defea", 16); ("lvar_t", "name", 32); ("lvar_t", "tif", 80); ("citem_t", "ea", 0);
                 ("citem_t", "op", 8); ("cexpr_t", "type", 48); ("cexpr_t", "exflags", 56); ("cfunc_t", "entry_ea", 0); ("cfunc_t", "mba", 8);
                 ("cfunc_t", "body", 16); ("cfunc_t", "maturity", 56)] |}.
Definition expected_9_2 : Facts := expected 184.
Definition expected_9_4 : Facts := expected 192.
Definition expected_jsons : list Facts := [expected_9_2; expected_9_4].

(** Every mirror with a body. *)
Definition mirrors (ida94 : bool) : list (string * ty) := [
  ("range_t", range_t); ("op_t", op_t); ("insn_t", insn_t); ("argloc_t", argloc_t); ("tinfo_t", tinfo_t); ("vdloc_t", vdloc_t);
  ("lvar_locator_t", lvar_locator_t); ("qstring", qstring); ("lvar_t", lvar_t); ("citem_t", citem_t); ("cinsn_t", cinsn_t);
  ("cblock_t", cblock_t); ("cexpr_t", cexpr_t); ("cthrow_t", cthrow_t); ("intvec_t", intvec_t); ("cswitch_t", cswitch_t);
  ("ctry_t", ctry_t); ("cfunc_t", cfunc_t ida94); ("xrefblk_t", xrefblk_t)].

Definition mirror (ida94 : bool) (name : string) : option ty := snd <$> List.find (fun m => bool_decide (m.1 = name)) (mirrors ida94).

(** The mirrors of a field called [type]. *)
Definition rust_field (struct field : string) : string :=
  if bool_decide (field = "type") then if bool_decide (struct = "cexpr_t") then "typ" else "type_" else field.

Definition fact (facts : list (string * Z)) (name : string) : option Z :=
  snd <$> List.find (fun f => bool_decide (f.1 = name)) facts.
Definition fact_offset (facts : Facts) (struct field : string) : option Z :=
  snd <$> List.find (fun f => bool_decide (f.1 = (struct, field))) (f_offsetof facts).

(** The test: the facts it looks at are there and right. *)
Definition check_size (facts : Facts) (name : string) (t : ty) : bool := bool_decide (fact (f_sizeof facts) name = Some (size_of t)).
Definition check_offset (facts : Facts) (struct field : string) (t : ty) : bool :=
  bool_decide (offset_of t (rust_field struct field) = fact_offset facts struct field /\ is_Some (fact_offset facts struct field)).

Definition check_invariant_facts (facts : Facts) : bool :=
  check_size facts "range_t" range_t && check_size facts "op_t" op_t && check_size facts "insn_t" insn_t
  && check_size facts "argloc_t" argloc_t && check_size facts "tinfo_t" tinfo_t && check_size facts "lvar_t" lvar_t
  && check_size facts "qstring" qstring && check_size facts "citem_t" citem_t && check_size facts "cexpr_t" cexpr_t
  && check_offset facts "op_t" "n" op_t && check_offset facts "op_t" "specflag4" op_t && check_offset facts "citem_t" "ea" citem_t
  && check_offset facts "cexpr_t" "type" cexpr_t.

Definition check_cfunc_facts (ida94 : bool) (facts : Facts) : bool :=
  check_size facts "cfunc_t" (cfunc_t ida94) && check_offset facts "cfunc_t" "maturity" (cfunc_t ida94).

Definition rust_mirrors_match_expected_abi_facts (ida94 : bool) : bool :=
  forallb check_invariant_facts expected_jsons && check_cfunc_facts ida94 (if ida94 then expected_9_4 else expected_9_2).

(** All of the facts, also those the test leaves out. *)
Definition facts_hold (ida94 : bool) (facts : Facts) : Prop :=
  Forall (fun f => exists t, mirror ida94 f.1 = Some t /\ size_of t = f.2) (f_sizeof facts)
  /\ Forall (fun f => exists t, mirror ida94 f.1 = Some t /\ align_of t = f.2) (f_alignof facts)
  /\ Forall (fun f => exists t, mirror ida94 f.1.1 = Some t /\ offset_of t (rust_field f.1.1 f.1.2) = Some f.2) (f_offsetof facts).

Lemma mirrors_scalar ida94 : forallb (fun m => scalar_ok m.2) (mirrors ida94) = true.
Proof. by destruct ida94; vm_compute. Qed.

Lemma all_facts ida94 : facts_hold ida94 (if ida94 then expected_9_4 else expected_9_2).
Proof.
  destruct ida94; split_and!; repeat (apply Forall_cons; split; [eexists; split; reflexivity|]); apply Forall_nil_2.
Qed.

(** The mirrors are those of the SDK.  In either build the layout asserted
    at compile time is the one the compiler computes, every fact measured on
    the headers of its SDK (not only those the test compares) holds of the
    mirror of that type, and both fact files pass the test as far as they
    share it.  In every mirror the fields lie in their order, aligned, inside
    the size the SDK gives the type and apart from each other. *)
Theorem mirrors_match_sdk (ida94 : bool) :
  static_asserts ida94 = true /\ rust_mirrors_match_expected_abi_facts ida94 = true
  /\ facts_hold ida94 (if ida94 then expected_9_4 else expected_9_2)
  /\ forall name fs, (name, Struct fs) ∈ mirrors ida94 ->
     in_order 0 (size_of (Struct fs)) (placed (Struct fs)) /\ (placed (Struct fs)).*1 = fs
     /\ (align_of (Struct fs) | size_of (Struct fs)).
Proof.
  split; [by destruct ida94; vm_compute|]. split; [by destruct ida94; vm_compute|]. split; [apply all_facts|].
  intros name fs Hin. assert (scalar_ok (Struct fs) = true) as Hok.
  { pose proof (mirrors_scalar ida94) as H. rewrite forallb_forall in H. apply (H (name, Struct fs)). by apply list_elem_of_In. }
  destruct (struct_sound fs Hok) as (Hf & [H1 H2 H3 H4] & [Hs _] & Hd & _). split; [|done]. split; [lia| |done|done].
  intros f Hin'. destruct (H2 f Hin') as (? & ? & ?). split; [done|lia].
Qed.

(** The build for one SDK is not the build for the other. *)
Example cfunc_differs : check_cfunc_facts true expected_9_2 = false /\ check_cfunc_facts false expected_9_4 = false.
Proof. by vm_compute. Qed.

(** A range holds as many addresses as its size, unless it is reversed. *)
Lemma range_size_count r ea :
  is_u64 (start_ea r) -> is_u64 (end_ea r) -> start_ea r <= end_ea r ->
  range_contains r ea = true <-> exists i, 0 <= i < range_size r /\ ea = start_ea r + i.
Proof.
  intros Hs He Hle. unfold range_contains, range_size, wrapping_sub64, is_u64 in *. rewrite Z.mod_small by lia.
  rewrite andb_true_iff, Z.leb_le, Z.ltb_lt. split; [intros ?; exists (ea - start_ea r); lia|intros (i & ? & ->); lia].
Qed.

Example reversed_range : range_contains {| start_ea := 8; end_ea := 4 |} 6 = false /\ range_size {| start_ea := 8; end_ea := 4 |} = 2 ^ 64 - 4.
Proof. by vm_compute. Qed.
