(* ===== verification/Text.v ===== *)
(** * Text: the string primitives of Rust's standard library that the program uses

    A Rust [str] is the list of its UTF-8 bytes, here a [string] of [ascii]
    (8-bit) characters.  [trim] knows the UTF-8 encodings of every character
    with the Unicode property White_Space.  Integer parsing follows
    [core::num]: sign, empty input, invalid digit and overflow are separate
    errors, checked in the order of the standard library. *)

From stdpp Require Import base list strings.
From Stdlib Require Import ZArith Lia Ascii.
From S2P Require Import Prelude.

Local Open Scope Z_scope.

Definition ord (c : ascii) : Z := Z.of_N (N_of_ascii c).
Definition chr (z : Z) : ascii := ascii_of_N (Z.to_N z).

Lemma ord_chr z : 0 <= z < 256 -> ord (chr z) = z.
Proof.
  intros H. unfold ord, chr. rewrite N_ascii_embedding by lia. lia.
Qed.

Lemma ord_range c : 0 <= ord c < 256.
Proof. unfold ord. pose proof (N_ascii_bounded c). lia. Qed.

(** ** Prefixes, suffixes, splitting *)

Fixpoint strip_prefix (p s : string) : option string :=
  match p, s with
  | EmptyString, _ => Some s
  | String a p', String b s' => if Ascii.eqb a b then strip_prefix p' s' else None
  | String _ _, EmptyString => None
  end.

Fixpoint rev_onto (s acc : string) : string :=
  match s with
  | EmptyString => acc
  | String c s' => rev_onto s' (String c acc)
  end.
Definition srev (s : string) : string := rev_onto s EmptyString.

Definition strip_suffix (p s : string) : option string :=
  srev <$> strip_prefix (srev p) (srev s).

Definition starts_with (p s : string) : bool :=
  match strip_prefix p s with Some _ => true | None => false end.

(** [s.split_once(pat)]: split at the first occurrence. *)
Fixpoint split_once (pat s : string) : option (string * string) :=
  match strip_prefix pat s with
  | Some rest => Some (EmptyString, rest)
  | None =>
      match s with
      | EmptyString => None
      | String c s' =>
          match split_once pat s' with
          | Some (a, b) => Some (String c a, b)
          | None => None
          end
      end
  end.

Definition contains (pat s : string) : bool :=
  match split_once pat s with Some _ => true | None => false end.

(** [s.split(c)]: the pieces between the occurrences of [c], one at least. *)
Fixpoint split_on (c : ascii) (s : string) : list string :=
  match s with
  | EmptyString => [EmptyString]
  | String x s' =>
      if Ascii.eqb c x then EmptyString :: split_on c s'
      else match split_on c s' with
           | [] => [String x EmptyString]
           | p :: ps => String x p :: ps
           end
  end.

(** [ss.join(sep)]. *)
Fixpoint join (sep : string) (ss : list string) : string :=
  match ss with
  | [] => EmptyString
  | [s] => s
  | s :: ss' => s +:+ sep +:+ join sep ss'
  end.

(** ** Character classes *)

Definition is_ascii_digit (c : ascii) : bool := (48 <=? ord c) && (ord c <=? 57).

Definition to_ascii_lower (c : ascii) : ascii :=
  if (65 <=? ord c) && (ord c <=? 90) then chr (ord c + 32) else c.

Fixpoint smap (f : ascii -> ascii) (s : string) : string :=
  match s with EmptyString => EmptyString | String c s' => String (f c) (smap f s') end.

Definition to_ascii_lowercase (s : string) : string := smap to_ascii_lower s.
Definition eq_ignore_ascii_case (s t : string) : bool :=
  bool_decide (to_ascii_lowercase s = to_ascii_lowercase t).

Fixpoint all_chars (p : ascii -> bool) (s : string) : bool :=
  match s with
  | EmptyString => true
  | String c s' => p c && all_chars p s'
  end.

(** [char::to_digit] for radices up to 16. *)
Definition to_digit (radix : Z) (c : ascii) : option Z :=
  let z := ord c in
  let d := if (48 <=? z) && (z <=? 57) then Some (z - 48)
           else if (97 <=? z) && (z <=? 102) then Some (z - 87)
           else if (65 <=? z) && (z <=? 70) then Some (z - 55)
           else None in
  match d with
  | Some x => if x <? radix then Some x else None
  | None => None
  end.

(** The digit character of a value below 16, as [{}] and [{:x}] print it. *)
Definition digit_char (d : Z) : ascii := chr (if d <? 10 then 48 + d else 87 + d).

Lemma to_digit_char radix d :
  0 <= d < radix -> radix <= 16 -> to_digit radix (digit_char d) = Some d.
Proof.
  intros Hd Hr. unfold to_digit, digit_char.
  destruct (Z.ltb_spec d 10); rewrite ord_chr by lia; cbbn.
  all: cbn [andb]; cbbn; f_equal; lia.
Qed.

(** ** White space *)

(** UTF-8 encodings of the characters with property White_Space. *)
Definition ws_seqs : list (list Z) :=
  [[9]; [10]; [11]; [12]; [13]; [32]; [194; 133]; [194; 160]; [225; 154; 128];
   [226; 128; 128]; [226; 128; 129]; [226; 128; 130]; [226; 128; 131]; [226; 128; 132];
   [226; 128; 133]; [226; 128; 134]; [226; 128; 135]; [226; 128; 136]; [226; 128; 137];
   [226; 128; 138]; [226; 128; 168]; [226; 128; 169]; [226; 128; 175]; [226; 129; 159];
   [227; 128; 128]].

Fixpoint of_codes (l : list Z) : string :=
  match l with [] => EmptyString | z :: l' => String (chr z) (of_codes l') end.

Definition ws_strings : list string := of_codes <$> ws_seqs.

Fixpoint strip_any (ps : list string) (s : string) : option string :=
  match ps with
  | [] => None
  | p :: ps' => match strip_prefix p s with Some r => Some r | None => strip_any ps' s end
  end.

Fixpoint strip_all_fuel (fuel : nat) (ps : list string) (s : string) : string :=
  match fuel with
  | O => s
  | S fuel' => match strip_any ps s with Some r => strip_all_fuel fuel' ps r | None => s end
  end.

Definition trim_start (s : string) : string :=
  strip_all_fuel (String.length s) ws_strings s.
Definition trim_end (s : string) : string :=
  srev (strip_all_fuel (String.length s) (srev <$> ws_strings) (srev s)).
Definition trim (s : string) : string := trim_end (trim_start s).

(** ** Integers *)

Inductive ParseIntError :=
  | Empty
  | InvalidDigit
  | PosOverflow.

Definition ParseIntError_to_string (e : ParseIntError) : string :=
  match e with
  | Empty => "cannot parse integer from empty string"
  | InvalidDigit => "invalid digit found in string"
  | PosOverflow => "number too large to fit in target type"
  end.

Fixpoint parse_loop (radix max result : Z) (s : string) : ParseIntError + Z :=
  match s with
  | EmptyString => inr result
  | String c rest =>
      let mul := result * radix in
      match to_digit radix c with
      | None => inl InvalidDigit
      | Some x =>
          if max <? mul then inl PosOverflow
          else if max <? mul + x then inl PosOverflow
          else parse_loop radix max (mul + x) rest
      end
  end.

(** [uN::from_str_radix]; [max] is the type's largest value. *)
Definition from_str_radix (radix max : Z) (s : string) : ParseIntError + Z :=
  match s with
  | EmptyString => inl Empty
  | String c rest =>
      if bool_decide (rest = EmptyString) && ((ord c =? 43) || (ord c =? 45))
      then inl InvalidDigit
      else if ord c =? 43 then parse_loop radix max 0 rest
      else parse_loop radix max 0 s
  end.

Definition parse_u64 (s : string) : ParseIntError + Z := from_str_radix 10 u64_max s.
Definition parse_hex_u64 (s : string) : ParseIntError + Z := from_str_radix 16 u64_max s.

Definition ok {E A} (r : E + A) : option A :=
  match r with inr a => Some a | inl _ => None end.

Fixpoint show_acc (radix : Z) (fuel : nat) (n : Z) (acc : string) : string :=
  match fuel with
  | O => acc
  | S fuel' =>
      if n <? radix then String (digit_char n) acc
      else show_acc radix fuel' (n / radix) (String (digit_char (n mod radix)) acc)
  end.

(** [{}] and [{:x}] on an unsigned integer; 64 digits suffice for 64 bits in
    any radix. *)
Definition show_radix (radix n : Z) : string := show_acc radix 64 n EmptyString.
Definition show_dec (n : Z) : string := show_radix 10 n.
(** [to_string] of a signed integer. *)
Definition show_signed (n : Z) : string := if n <? 0 then "-" +:+ show_dec (- n) else show_dec n.
Definition show_hex (n : Z) : string := show_radix 16 n.
(** [{:#x}]. *)
Definition show_0x (n : Z) : string := "0x" +:+ show_hex n.

(** [s.is_char_boundary(i)] and [&s[..i]] ([None] is the panic). *)
Definition is_char_boundary (s : string) (i : nat) : bool :=
  match i with
  | O => true
  | _ =>
    match String.get i s with
    | None => bool_decide (i = String.length s)
    | Some c => negb ((128 <=? ord c) && (ord c <? 192))
    end
  end.

(** [s.chars().take(n).collect()]: the first [n] characters; a byte
    [10xxxxxx] continues the character before it. *)
Fixpoint take_chars (n : nat) (s : string) : string :=
  match s with
  | EmptyString => EmptyString
  | String c s' =>
      if (128 <=? ord c) && (ord c <? 192) then String c (take_chars n s')
      else match n with O => EmptyString | S n' => String c (take_chars n' s') end
  end.

Definition slice_to (s : string) (i : nat) : option string :=
  if is_char_boundary s i then Some (String.substring 0 i s) else None.

(** [s.repeat(n)]. *)
Fixpoint repeat_str (s : string) (n : nat) : string :=
  match n with O => "" | S n' => s +:+ repeat_str s n' end.

(** [s.trim_start_matches(p)]. *)
Definition trim_start_matches (p s : string) : string := strip_all_fuel (String.length s) [p] s.

(** [s.split_whitespace().count()]; [inside] is whether a word has begun. *)
Fixpoint count_words (fuel : nat) (inside : bool) (s : string) : nat :=
  match fuel with
  | O => 0
  | S fuel' =>
      match strip_any ws_strings s with
      | Some rest => count_words fuel' false rest
      | None =>
          match s with
          | EmptyString => 0
          | String _ rest => (if inside then 0 else 1) + count_words fuel' true rest
          end
      end
  end%nat.
Definition word_count (s : string) : nat := count_words (String.length s) false s.

(** [s.lines().count()]: a final line break ends the last line. *)
Definition line_count (s : string) : nat :=
  let segments := split_on (chr 10) s in
  match last segments with
  | Some "" => pred (length segments)
  | _ => length segments
  end.

(** ** Lemmas on strings *)

Lemma append_nil_r s : s +:+ "" = s.
Proof. induction s as [|c s IH]; [done|]. by change (String c (s +:+ "") = String c s); rewrite IH. Qed.

Lemma append_cons c s t : String c s +:+ t = String c (s +:+ t).
Proof. done. Qed.

Lemma append_assoc s t u : (s +:+ t) +:+ u = s +:+ (t +:+ u).
Proof. induction s as [|c s IH]; [done|]. by rewrite !append_cons, IH. Qed.

Lemma strip_prefix_app p s : strip_prefix p (p +:+ s) = Some s.
Proof.
  induction p as [|c p IH]; [done|]. rewrite append_cons. simpl. by rewrite Ascii.eqb_refl.
Qed.

Lemma strip_prefix_Some p s r : strip_prefix p s = Some r <-> s = p +:+ r.
Proof.
  split.
  - revert s. induction p as [|c p IH]; intros s; simpl.
    + by intros [= ->].
    + destruct s as [|b s]; [done|]. destruct (Ascii.eqb_spec c b) as [->|]; [|done].
      intros ->%IH. done.
  - intros ->. apply strip_prefix_app.
Qed.

Lemma rev_onto_app s acc : rev_onto s acc = srev s +:+ acc.
Proof.
  unfold srev. revert acc. induction s as [|c s IH]; intros acc; [done|].
  simpl. rewrite IH, (IH (String c "")). by rewrite append_assoc.
Qed.

Lemma srev_cons c s : srev (String c s) = srev s +:+ String c "".
Proof. unfold srev at 1. simpl. apply rev_onto_app. Qed.

Lemma srev_app s t : srev (s +:+ t) = srev t +:+ srev s.
Proof.
  induction s as [|c s IH].
  - change ("" +:+ t) with t. by rewrite append_nil_r.
  - by rewrite append_cons, !srev_cons, IH, append_assoc.
Qed.

Lemma srev_involutive s : srev (srev s) = s.
Proof.
  induction s as [|c s IH]; [done|]. rewrite srev_cons, srev_app, IH. done.
Qed.

Lemma strip_suffix_app p s : strip_suffix p (s +:+ p) = Some s.
Proof.
  unfold strip_suffix. rewrite srev_app, strip_prefix_app. simpl.
  by rewrite srev_involutive.
Qed.

Lemma all_chars_app p s t : all_chars p (s +:+ t) = all_chars p s && all_chars p t.
Proof.
  induction s as [|c s IH]; [done|]. rewrite append_cons. simpl. by rewrite IH, andb_assoc.
Qed.

Lemma all_chars_srev p s : all_chars p (srev s) = all_chars p s.
Proof.
  induction s as [|c s IH]; [done|]. rewrite srev_cons, all_chars_app, IH. simpl.
  by rewrite andb_true_r, andb_comm.
Qed.

Lemma all_chars_impl (p q : ascii -> bool) s :
  (forall c, p c = true -> q c = true) -> all_chars p s = true -> all_chars q s = true.
Proof.
  intros Hpq. induction s as [|c s IH]; [done|]. simpl.
  intros [H1 H2]%andb_true_iff. by rewrite (Hpq _ H1), IH.
Qed.

(** The first occurrence of a pattern whose first character does not occur
    before it. *)
Lemma split_once_app c p a b :
  all_chars (fun x => negb (Ascii.eqb c x)) a = true ->
  split_once (String c p) (a +:+ String c p +:+ b) = Some (a, b).
Proof.
  induction a as [|x a IH]; intros Ha.
  - change ("" +:+ ?x) with x. rewrite append_cons. simpl.
    rewrite Ascii.eqb_refl. by rewrite strip_prefix_app.
  - simpl in Ha. apply andb_true_iff in Ha as [Hx Ha]. rewrite append_cons.
    cbn [split_once strip_prefix]. apply negb_true_iff in Hx. rewrite Hx.
    by rewrite IH.
Qed.

(** Splitting a text without the separator, and one that starts with such a
    text. *)
Lemma split_on_none c s :
  all_chars (fun x => negb (Ascii.eqb c x)) s = true -> split_on c s = [s].
Proof.
  induction s as [|x s IH]; [done|]. simpl. intros [Hx%negb_true_iff Hs]%andb_true_iff.
  by rewrite Hx, IH.
Qed.

Lemma split_on_app c a s :
  all_chars (fun x => negb (Ascii.eqb c x)) a = true ->
  split_on c (a +:+ String c s) = a :: split_on c s.
Proof.
  induction a as [|x a IH]; intros Ha.
  - change ("" +:+ ?x) with x. simpl. by rewrite Ascii.eqb_refl.
  - simpl in Ha. apply andb_true_iff in Ha as [Hx%negb_true_iff Ha].
    rewrite append_cons. cbn [split_on]. by rewrite Hx, IH.
Qed.

(** ** Digits are not white space *)

Lemma strip_any_None ps s c :
  Forall (fun p => match p with EmptyString => False | String d _ => d <> c end) ps ->
  strip_any ps (String c s) = None.
Proof.
  induction 1 as [|p ps Hp _ IH]; [done|]. simpl. destruct p as [|d p]; [done|].
  simpl. destruct (Ascii.eqb_spec d c); done.
Qed.

Lemma strip_all_id fuel ps s :
  match s with EmptyString => Forall (fun p => p <> EmptyString) ps
  | String c _ =>
    Forall (fun p => match p with EmptyString => False | String d _ => d <> c end) ps
  end ->
  strip_all_fuel fuel ps s = s.
Proof.
  intros H. destruct fuel as [|fuel]; [done|]. simpl. destruct s as [|c s].
  - replace (strip_any ps "") with (None : option string); [done|].
    induction H as [|[|d p] ps Hp _ IH]; simpl; congruence.
  - by rewrite strip_any_None.
Qed.

(** Printable ASCII above the space: no such character starts or ends the
    encoding of a white-space character. *)
Definition is_graphic (c : ascii) : bool := (33 <=? ord c) && (ord c <=? 126).

Lemma ws_not_graphic (ps : list string) c :
  ps = ws_strings \/ ps = srev <$> ws_strings ->
  is_graphic c = true ->
  Forall (fun p => match p with EmptyString => False | String d _ => d <> c end) ps.
Proof.
  intros Hps Hc.
  assert (Forall (fun p => match p with
    | EmptyString => False | String d _ => is_graphic d = false end) ps) as H.
  { destruct Hps as [-> | ->]; vm_compute; repeat constructor. }
  eapply Forall_impl; [exact H|]. intros [|d p]; [done|]. intros Hd ->. congruence.
Qed.

Lemma trim_graphic s : all_chars is_graphic s = true -> trim s = s.
Proof.
  intros Hs. unfold trim, trim_start, trim_end.
  rewrite (strip_all_id _ ws_strings s).
  2:{ destruct s as [|c s]; [vm_compute; repeat constructor; discriminate|].
      apply andb_true_iff in Hs as [Hc _]. apply ws_not_graphic; auto. }
  rewrite strip_all_id; [apply srev_involutive|].
  rewrite <- all_chars_srev in Hs. destruct (srev s) as [|c r].
  - vm_compute; repeat constructor; discriminate.
  - apply andb_true_iff in Hs as [Hc _]. apply ws_not_graphic; auto.
Qed.

(** ** Printing and parsing integers *)

Lemma show_acc_digits radix fuel n acc :
  0 <= n -> 2 <= radix <= 16 ->
  exists d, all_chars (fun c => match to_digit radix c with Some _ => true | None => false end) d = true
    /\ show_acc radix fuel n acc = d +:+ acc
    /\ (fuel <> O -> d <> EmptyString).
Proof.
  intros Hn Hr. revert n acc Hn. induction fuel as [|fuel IH]; intros n acc Hn; simpl.
  { exists "". done. }
  destruct (Z.ltb_spec n radix).
  - exists (String (digit_char n) ""). simpl. rewrite to_digit_char by lia. done.
  - pose proof (Z.mod_pos_bound n radix ltac:(lia)).
    destruct (IH (n / radix) (String (digit_char (n mod radix)) acc)) as (d & Hd & Heq & _).
    { apply Z.div_pos; lia. }
    exists (d +:+ String (digit_char (n mod radix)) ""). rewrite Heq, append_assoc.
    split; [|split; [done|]].
    + rewrite all_chars_app, Hd. simpl. by rewrite to_digit_char by lia.
    + intros _ E. apply (f_equal String.length) in E. destruct d; discriminate.
Qed.

Lemma show_radix_digits radix n :
  0 <= n -> 2 <= radix <= 16 ->
  all_chars (fun c => match to_digit radix c with Some _ => true | None => false end)
    (show_radix radix n) = true /\ show_radix radix n <> EmptyString.
Proof.
  intros Hn Hr. unfold show_radix.
  destruct (show_acc_digits radix 64 n "" Hn Hr) as (d & Hd & -> & Hne).
  rewrite append_nil_r. auto.
Qed.

Lemma parse_loop_show radix max fuel n acc :
  2 <= radix <= 16 -> 0 <= n <= max -> n < radix ^ Z.of_nat fuel ->
  fuel <> O ->
  parse_loop radix max 0 (show_acc radix fuel n acc) = parse_loop radix max n acc.
Proof.
  intros Hr. revert n acc. induction fuel as [|fuel IH]; intros n acc Hn Hlt Hf; [done|].
  simpl. destruct (Z.ltb_spec n radix).
  - cbn [parse_loop]. rewrite to_digit_char, Z.mul_0_l, Z.add_0_l by lia. by cbbn.
  - pose proof (Z.mod_pos_bound n radix ltac:(lia)).
    pose proof (Z.div_mod n radix ltac:(lia)) as Hdm.
    assert (0 <= n / radix) by (apply Z.div_pos; lia).
    rewrite Nat2Z.inj_succ, Z.pow_succ_r in Hlt by lia.
    assert (fuel <> O) by (intros ->; simpl in Hlt; lia).
    rewrite IH; [|nia|apply Z.div_lt_upper_bound; lia|done].
    cbn [parse_loop]. rewrite to_digit_char by lia.
    replace (n / radix * radix + n mod radix) with n by lia.
    by cbbn.
Qed.

Lemma parse_show_max radix max n :
  2 <= radix <= 16 -> 0 <= n <= max -> max < u64_modulus ->
  from_str_radix radix max (show_radix radix n) = inr n.
Proof.
  intros Hr Hn Hmax.
  destruct (show_radix_digits radix n) as [Hd Hne]; [lia..|].
  pose proof (parse_loop_show radix max 64 n "" Hr) as Hp.
  fold (show_radix radix n) in Hp. unfold from_str_radix.
  destruct (show_radix radix n) as [|c r]; [done|]. simpl in Hd.
  apply andb_true_iff in Hd as [Hc _].
  assert ((ord c =? 43) = false /\ (ord c =? 45) = false) as [-> ->].
  { unfold to_digit in Hc. split; revert Hc; cbbn; done. }
  rewrite andb_false_r. rewrite Hp; [done|lia| |done].
  eapply Z.lt_le_trans; [|apply (Z.pow_le_mono_l 2 radix); lia].
  change (2 ^ Z.of_nat 64) with u64_modulus. lia.
Qed.

Lemma parse_show radix n :
  2 <= radix <= 16 -> is_u64 n -> from_str_radix radix u64_max (show_radix radix n) = inr n.
Proof.
  intros Hr Hn. unfold is_u64 in Hn. apply parse_show_max; unfold u64_max; lia.
Qed.

(** A digit of a radix up to 16 is printable. *)
Lemma to_digit_graphic radix c :
  match to_digit radix c with Some _ => true | None => false end = true ->
  is_graphic c = true.
Proof.
  unfold to_digit, is_graphic. pose proof (ord_range c).
  cbbn; done.
Qed.

Lemma show_graphic radix n :
  0 <= n -> 2 <= radix <= 16 -> all_chars is_graphic (show_radix radix n) = true.
Proof.
  intros Hn Hr. eapply all_chars_impl; [apply to_digit_graphic|].
  by apply show_radix_digits.
Qed.

Lemma trim_show radix n : 0 <= n -> 2 <= radix <= 16 -> trim (show_radix radix n) = show_radix radix n.
Proof. intros. apply trim_graphic. by apply show_graphic. Qed.

Lemma show_dec_digits n : 0 <= n -> all_chars is_ascii_digit (show_dec n) = true.
Proof.
  intros Hn. eapply all_chars_impl; [|apply (show_radix_digits 10 n); lia].
  intros c. cbn beta. unfold to_digit, is_ascii_digit. cbbn; done.
Qed.

Lemma show_dec_inj n m : is_u64 n -> is_u64 m -> show_dec n = show_dec m -> n = m.
Proof.
  intros Hn Hm H. apply (f_equal (from_str_radix 10 u64_max)) in H.
  unfold show_dec in H. rewrite !parse_show in H by (done || lia). congruence.
Qed.

(** A text that ends where its characters do. *)
Lemma append_span p (a b s t : string) :
  all_chars p a = true -> all_chars p b = true ->
  (match s with String c _ => p c = false | EmptyString => True end) ->
  (match t with String c _ => p c = false | EmptyString => True end) ->
  a +:+ s = b +:+ t -> a = b /\ s = t.
Proof.
  revert b. induction a as [|c a IH]; intros [|d b] Ha Hb Hs Ht E; rewrite ?append_cons in E; cbn [all_chars] in *.
  - done.
  - change ("" +:+ s) with s in E. subst s. apply andb_true_iff in Hb as [Hd _]. congruence.
  - change ("" +:+ t) with t in E. subst t. apply andb_true_iff in Ha as [Hc _]. congruence.
  - injection E as -> E. apply andb_true_iff in Ha as [_ Ha]. apply andb_true_iff in Hb as [_ Hb].
    destruct (IH b Ha Hb Hs Ht E) as [-> ->]. done.
Qed.

Lemma append_same (a s t : string) : a +:+ s = a +:+ t -> s = t.
Proof. induction a as [|c a IH]; [done|]. rewrite !append_cons. intros [= E]. by apply IH. Qed.

(** A number and what follows it. *)
Lemma show_dec_span n m s t :
  is_u64 n -> is_u64 m ->
  (match s with String c _ => is_ascii_digit c = false | EmptyString => True end) ->
  (match t with String c _ => is_ascii_digit c = false | EmptyString => True end) ->
  show_dec n +:+ s = show_dec m +:+ t -> n = m /\ s = t.
Proof.
  intros Hn Hm Hs Ht E. unfold is_u64 in Hn, Hm.
  apply (append_span is_ascii_digit) in E as [E ->]; [|apply show_dec_digits; lia..|done|done]. split; [|done].
  by apply show_dec_inj.
Qed.

Create Rewrite HintDb text.
#[export] Hint Rewrite append_assoc append_nil_r strip_prefix_app strip_suffix_app : text.

(** ** Ranges and boundaries *)

Lemma parse_loop_range radix max n s z :
  (2 <= radix)%Z -> (0 <= n <= max)%Z -> parse_loop radix max n s = inr z -> (0 <= z <= max)%Z.
Proof.
  intros Hr. revert n. induction s as [|c s IH]; intros n Hn; cbn [parse_loop]; [by intros [= <-]|].
  destruct (to_digit radix c) as [x|] eqn:Hd; [|done].
  assert (0 <= x)%Z as Hx by (revert Hd; unfold to_digit; cbbn; intros [= <-]; lia).
  destruct (Z.ltb_spec max (n * radix)); [done|]. destruct (Z.ltb_spec max (n * radix + x)); [done|].
  apply IH. nia.
Qed.

Lemma from_str_radix_range radix max s z :
  (2 <= radix)%Z -> (0 <= max)%Z -> from_str_radix radix max s = inr z -> (0 <= z <= max)%Z.
Proof.
  intros Hr Hm. unfold from_str_radix. destruct s as [|c s]; [done|].
  destruct (_ && _); [done|]. destruct (_ =? _)%Z; intros H; eapply parse_loop_range in H; eauto; lia.
Qed.

Lemma get_all_chars p s k c : all_chars p s = true -> String.get k s = Some c -> p c = true.
Proof.
  revert k. induction s as [| d s IH]; intros k Hs G; [destruct k; discriminate |]. apply andb_true_iff in Hs as [Hd Hs].
  destruct k; cbn in G; [congruence | by eapply IH].
Qed.

Lemma is_char_boundary_graphic s i :
  all_chars is_graphic s = true -> (i <= String.length s)%nat -> is_char_boundary s i = true.
Proof.
  intros Hs Hi. destruct i as [| i]; [reflexivity |]. unfold is_char_boundary.
  destruct (String.get (S i) s) as [c |] eqn:G.
  - pose proof (get_all_chars _ _ _ _ Hs G) as Hc.
    unfold is_graphic in Hc. apply andb_true_iff in Hc as [_ Hc%Z.leb_le].
    destruct (Z.leb_spec 128 (ord c)); [lia | reflexivity].
  - apply bool_decide_eq_true_2. revert Hi G. clear Hs. generalize (S i). induction s as [| d s IH]; intros k Hi G; cbn in *.
    + lia.
    + destruct k; [discriminate |]. f_equal. apply IH; [lia | exact G].
Qed.

(** ** The order of strings *)

#[export] Instance leb_antisym : AntiSymm (=) (fun x y => String.leb x y = true).
Proof. intros x y Hx Hy. by apply String.leb_antisym. Qed.
#[export] Instance leb_trans : Transitive (fun x y => String.leb x y = true).
Proof.
  intros x y z. unfold String.leb.
  revert y z. induction x as [| a x IH]; intros y z; destruct y as [| b y], z as [| c z]; simpl; try done.
  unfold Ascii.compare. destruct (N.compare_spec (N_of_ascii a) (N_of_ascii b)) as [E1 | E1 | E1];
    destruct (N.compare_spec (N_of_ascii b) (N_of_ascii c)) as [E2 | E2 | E2]; try done;
    destruct (N.compare_spec (N_of_ascii a) (N_of_ascii c)) as [E3 | E3 | E3]; try lia; try done.
  apply IH.
Qed.

Lemma leb_total x y : String.leb x y = false -> String.leb y x = true.
Proof. intros E. destruct (String.leb_total x y) as [? | ?]; congruence. Qed.
