(* ===== verification/Json.v ===== *)
(** * Json: JSON documents

    The documents that broker and worker exchange: the data type of
    [serde_json::Value] and the accessors the program calls on it.  An object
    is an association list searched from the front; the program only builds
    objects from literals with distinct keys and only reads them by key.
    Integers are the [u64]/[i64] numbers of the wire format, a float is its
    IEEE-754 bit pattern.  The serializer itself is not part of the program
    and is a parameter where it is used. *)

From stdpp Require Import base list strings.
From Stdlib Require Import ZArith Lia.
From S2P Require Import Prelude.

Local Open Scope Z_scope.

#[warnings="-register-all"]
Inductive Value :=
  | JNull
  | JBool (b : bool)
  | JNum (n : Z)
  | JFloat (bits : Z)
  | JStr (s : string)
  | JArr (vs : list Value)
  | JObj (kvs : list (string * Value)).

Fixpoint assoc (k : string) (kvs : list (string * Value)) : option Value :=
  match kvs with
  | [] => None
  | (k', v) :: rest => if bool_decide (k = k') then Some v else assoc k rest
  end.

(** Insertion: replaces a field or adds it; [remove] drops every entry of a key. *)
Fixpoint set_assoc (k : string) (v : Value) (kvs : list (string * Value)) : list (string * Value) :=
  match kvs with
  | [] => [(k, v)]
  | (k', v') :: rest => if bool_decide (k = k') then (k, v) :: rest else (k', v') :: set_assoc k v rest
  end.
Definition remove_assoc (k : string) (kvs : list (string * Value)) : list (string * Value) :=
  filter (fun kv => kv.1 <> k) kvs.

(** [v.get(k)]. *)
Definition get (k : string) (v : Value) : option Value :=
  match v with JObj kvs => assoc k kvs | _ => None end.

(** [v[k]]: a missing key reads as [null]. *)
Definition index (v : Value) (k : string) : Value := default JNull (get k v).

Definition as_str (v : Value) : option string :=
  match v with JStr s => Some s | _ => None end.
Definition as_bool (v : Value) : option bool :=
  match v with JBool b => Some b | _ => None end.
Definition as_u64 (v : Value) : option Z :=
  match v with JNum n => if bool_decide (is_u64 n) then Some n else None | _ => None end.
Definition as_array (v : Value) : option (list Value) :=
  match v with JArr vs => Some vs | _ => None end.
Definition is_null (v : Value) : bool :=
  match v with JNull => true | _ => false end.

(** [Value] of a [usize] and of an [Option<&str>]. *)
Definition jnat (n : nat) : Value := JNum (Z.of_nat n).
Definition jopt {A} (f : A -> Value) (o : option A) : Value :=
  match o with Some a => f a | None => JNull end.

Notation "v @@ k" := (index v k) (at level 11, left associativity) : rmcp_scope.

(** [jread]: evaluate reads of literal keys from a literal object. *)
Ltac jread := cbn [index get assoc default bool_decide as_str as_bool as_u64 as_array is_null].
