(* ===== verification/Errors.v ===== *)
(** * Errors: the unified error type and its stable codes

    Models [rmcp-core/src/error.rs] (the enum, the code of each variant, the
    displayed message, the payload), and the broker's inverse
    [error_from_code] of [rmcp-broker/src/worker_pool.rs], which rebuilds an
    error from the code and message a worker sent. *)

From stdpp Require Import base list strings.
From Stdlib Require Import ZArith Lia Ascii.
From S2P Require Import Prelude Text.

Local Open Scope Z_scope.

Inductive Error :=
  | IdaNotFound (s : string)
  | IdaVersionMismatch (found detail : string)
  | Config (s : string)
  | CapabilityUnavailable (capability reason : string)
  | UnknownDb (h : string)
  | DbAmbiguous (count : Z) (candidates : string)
  | UnknownResult (h : string)
  | RevisionConflict (expected current : Z)
  | Worker (s : string)
  | Ipc (s : string)
  | Io (s : string).

#[global] Instance Error_eq_dec : EqDecision Error.
Proof. solve_decision. Defined.

(** [Result<T>]. *)
Definition Result (T : Type) : Type := Error + T.
Definition Ok {T} (x : T) : Result T := inr x.
Definition Err {T} (e : Error) : Result T := inl e.

Definition bindR {A B} (r : Result A) (f : A -> Result B) : Result B :=
  match r with inr a => f a | inl e => inl e end.
Notation "x <-? r ; k" := (bindR r (fun x => k))
  (at level 60, r at level 59, k at level 60, right associativity) : rmcp_scope.

Definition ok_or_else {A} (o : option A) (e : Error) : Result A :=
  match o with Some a => Ok a | None => Err e end.

Definition is_ok {A} (r : Result A) : bool := match r with inr _ => true | inl _ => false end.

(** [Error::code]. *)
Definition code (e : Error) : string :=
  match e with
  | IdaNotFound _ => "ida_not_found"
  | IdaVersionMismatch _ _ => "ida_version_mismatch"
  | Config _ => "config"
  | CapabilityUnavailable _ _ => "capability_unavailable"
  | UnknownDb _ => "unknown_db"
  | DbAmbiguous _ _ => "db_ambiguous"
  | UnknownResult _ => "unknown_result"
  | RevisionConflict _ _ => "revision_conflict"
  | Worker _ => "worker_failure"
  | Ipc _ => "ipc_failure"
  | Io _ => "io"
  end.

(** The [#[error("...")]] messages: [Error::to_string]. *)
Definition to_string (e : Error) : string :=
  match e with
  | IdaNotFound s => "ida not found: " +:+ s
  | IdaVersionMismatch found detail =>
      "ida version mismatch: found " +:+ found +:+ ", require 9.2.x: " +:+ detail
  | Config s => "config error: " +:+ s
  | CapabilityUnavailable capability reason =>
      "capability unavailable: " +:+ capability +:+ ": " +:+ reason
  | UnknownDb h => "db handle '" +:+ h +:+ "' is unknown or closed"
  | DbAmbiguous count candidates =>
      "db handle omitted and " +:+ show_dec count +:+ " DBs are open; specify one of: "
        +:+ candidates
  | UnknownResult h => "result handle '" +:+ h +:+ "' is unknown or expired"
  | RevisionConflict expected current =>
      "revision conflict: expected " +:+ show_dec expected +:+ ", current " +:+ show_dec current
  | Worker s => "worker failure: " +:+ s
  | Ipc s => "ipc failure: " +:+ s
  | Io s => "io: " +:+ s
  end.

(** [ErrorPayload], [Error::payload] and its [Display]. *)
Record ErrorPayload := { payload_code : string; payload_message : string }.
Definition payload (e : Error) : ErrorPayload :=
  {| payload_code := code e; payload_message := to_string e |}.
Definition payload_to_string (p : ErrorPayload) : string :=
  payload_code p +:+ ": " +:+ payload_message p.

(** [error_from_code], with its two local closures. *)
Definition parse_revision_conflict (message : string) : option Error :=
  rest ← strip_prefix "revision conflict: expected " message;
  '(expected, current) ← split_once ", current " rest;
  e ← ok (parse_u64 (trim expected));
  c ← ok (parse_u64 (trim current));
  Some (RevisionConflict e c).

Definition parse_capability (message : string) : option Error :=
  rest ← strip_prefix "capability unavailable: " message;
  '(capability, reason) ← split_once ": " rest;
  Some (CapabilityUnavailable capability reason).

Definition error_from_code (c message : string) : Error :=
  if bool_decide (c = "revision_conflict") then
    default (Worker message) (parse_revision_conflict message)
  else if bool_decide (c = "unknown_db") then
    UnknownDb (default message
      (s ← strip_prefix "db handle '" message; strip_suffix "' is unknown or closed" s))
  else if bool_decide (c = "capability_unavailable") then
    default (Worker message) (parse_capability message)
  else if bool_decide (c = "db_ambiguous") then DbAmbiguous 0 ""
  else Worker message.

(** The [u64]/[usize] fields of an error are in range. *)
Definition wf_error (e : Error) : Prop :=
  match e with
  | RevisionConflict expected current => is_u64 expected /\ is_u64 current
  | DbAmbiguous count _ => is_u64 count
  | _ => True
  end.

(** ** Lemmas *)

Lemma not_comma_digits n :
  0 <= n -> all_chars (fun x => negb (Ascii.eqb "," x)) (show_dec n) = true.
Proof.
  intros Hn. eapply all_chars_impl; [|by apply show_dec_digits].
  intros c Hc. destruct (Ascii.eqb_spec "," c) as [<-|]; [|done]. discriminate Hc.
Qed.

Lemma parse_revision_conflict_to_string e c :
  is_u64 e -> is_u64 c ->
  parse_revision_conflict (to_string (RevisionConflict e c)) = Some (RevisionConflict e c).
Proof.
  intros He Hc. unfold parse_revision_conflict, to_string.
  rewrite strip_prefix_app. cbn [mbind option_bind].
  rewrite (split_once_app "," " current "); [|apply not_comma_digits; apply He].
  cbn [mbind option_bind]. unfold show_dec, parse_u64, is_u64 in *.
  rewrite !trim_show, !parse_show by (unfold is_u64; lia). done.
Qed.

Lemma split_once_not_None pat a b : split_once pat (a +:+ pat +:+ b) <> None.
Proof.
  induction a as [|x a IH].
  - change ("" +:+ ?x) with x. destruct (pat +:+ b) eqn:E; cbn [split_once];
      rewrite <- E, strip_prefix_app; done.
  - rewrite append_cons. cbn [split_once].
    destruct (strip_prefix pat _); [done|]. destruct (split_once pat _) as [[]|]; done.
Qed.

Lemma parse_capability_to_string cap reason :
  all_chars (fun x => negb (Ascii.eqb ":" x)) cap = true ->
  parse_capability (to_string (CapabilityUnavailable cap reason))
  = Some (CapabilityUnavailable cap reason).
Proof.
  intros H. unfold parse_capability, to_string. rewrite strip_prefix_app.
  cbn [mbind option_bind]. by rewrite (split_once_app ":" " ").
Qed.

(** The set of codes that survive the worker boundary. *)
Definition crosses_boundary (c : string) : bool :=
  bool_decide (c ∈ ["revision_conflict"; "unknown_db"; "capability_unavailable"; "db_ambiguous"]).

(** Stable codes across the process boundary: whatever error a worker
    reports, the error the broker rebuilds from its code and message carries
    the same code when the code is one of the four that agents match on, and
    [worker_failure] for every other error. *)
Theorem error_code_stable (e : Error) :
  wf_error e ->
  code (error_from_code (code e) (to_string e))
  = if crosses_boundary (code e) then code e else "worker_failure".
Proof.
  intros Hwf. destruct e; try done.
  - unfold error_from_code. cbn [code]. do 3 (case_bool_decide; [done || idtac|]).
    all: try congruence. unfold parse_capability, to_string.
    rewrite strip_prefix_app. cbn [mbind option_bind].
    destruct (split_once _ _) as [[]|] eqn:E; [done|].
    by apply split_once_not_None in E.
  - unfold error_from_code. cbn [code]. rewrite bool_decide_eq_true_2 by done.
    destruct Hwf. by rewrite parse_revision_conflict_to_string.
Qed.

Lemma error_code_stable_witness :
  code (error_from_code (code (RevisionConflict 3 7)) (to_string (RevisionConflict 3 7)))
  = "revision_conflict".
Proof. rewrite error_code_stable; [reflexivity | split; split; vm_compute; congruence]. Defined.

(** What the broker can rebuild exactly. *)
Definition rebuildable (e : Error) : Prop :=
  match e with
  | RevisionConflict expected current => is_u64 expected /\ is_u64 current
  | UnknownDb _ => True
  | CapabilityUnavailable cap _ => all_chars (fun x => negb (Ascii.eqb ":" x)) cap = true
  | _ => False
  end.

(** Round trip: a revision conflict (any two [u64] revisions), an unknown
    handle (any text) and an unavailable capability whose name has no colon
    are rebuilt by the broker exactly as the worker raised them. *)
Theorem error_roundtrip (e : Error) :
  rebuildable e -> error_from_code (code e) (to_string e) = e.
Proof.
  destruct e; cbn [rebuildable code]; try done; intros H; unfold error_from_code.
  - rewrite 2!bool_decide_eq_false_2, bool_decide_eq_true_2 by done.
    by rewrite (parse_capability_to_string _ _ H).
  - rewrite bool_decide_eq_false_2, bool_decide_eq_true_2 by done.
    cbn [to_string]. rewrite strip_prefix_app. cbn [mbind option_bind].
    by rewrite strip_suffix_app.
  - rewrite bool_decide_eq_true_2 by done. destruct H.
    by rewrite (parse_revision_conflict_to_string expected current).
Qed.

Lemma error_roundtrip_witness :
  error_from_code "capability_unavailable" "capability unavailable: decompile: no hexrays: x64"
  = CapabilityUnavailable "decompile" "no hexrays: x64".
Proof. exact (error_roundtrip (CapabilityUnavailable "decompile" "no hexrays: x64") eq_refl). Defined.
