(* ===== verification/Handles.v ===== *)
(** * Handles: the short identifiers [db1], [r17], [job3]

    Models [rmcp-core/src/handle.rs].  The process-wide atomic [NEXT_ID] is
    explicit state: an allocation takes the counter and returns the handle
    with the counter's next value (a [fetch_add], wrapping at 64 bits). *)

From stdpp Require Import base list strings.
From Stdlib Require Import ZArith Lia.
From S2P Require Import Prelude Text.

Local Open Scope Z_scope.

Record Handle := { prefix : string; n : Z }.

#[global] Instance Handle_eq_dec : EqDecision Handle.
Proof. solve_decision. Defined.

(** [Handle::new]: [NEXT_ID.fetch_add(1)]. *)
Definition Handle_new (p : string) (next_id : Z) : Handle * Z :=
  ({| prefix := p; n := next_id |}, wrapping_add64 next_id 1).

(** [Display for Handle]. *)
Definition Handle_to_string (h : Handle) : string := prefix h +:+ show_dec (n h).

Definition expected_prefix_leak (p : string) : string :=
  if bool_decide (p = "db") then "db"
  else if bool_decide (p = "r") then "r"
  else "x".

(** [Handle::parse]. *)
Definition Handle_parse (s expected_prefix : string) : option Handle :=
  rest ← strip_prefix expected_prefix s;
  if bool_decide (rest = "") || negb (all_chars is_ascii_digit rest) then None
  else
    k ← ok (parse_u64 rest);
    Some {| prefix := expected_prefix_leak expected_prefix; n := k |}.

(** [HandleAllocator]: [new] starts at 1; the derived [Default] at 0. *)
Record HandleAllocator := { next : Z }.
Definition HandleAllocator_new : HandleAllocator := {| next := 1 |}.
Definition alloc_db (a : HandleAllocator) : Handle * HandleAllocator :=
  ({| prefix := "db"; n := next a |}, {| next := wrapping_add64 (next a) 1 |}).

(** [k] allocations in a row, with their displayed names. *)
Fixpoint alloc_dbs (k : nat) (a : HandleAllocator) : list string * HandleAllocator :=
  match k with
  | O => ([], a)
  | S k' =>
      let '(h, a1) := alloc_db a in
      let '(hs, a2) := alloc_dbs k' a1 in
      (Handle_to_string h :: hs, a2)
  end.

(** [k] handles from the global counter, with arbitrary prefixes. *)
Fixpoint new_handles (ps : list string) (next_id : Z) : list Handle * Z :=
  match ps with
  | [] => ([], next_id)
  | p :: ps' =>
      let '(h, id1) := Handle_new p next_id in
      let '(hs, id2) := new_handles ps' id1 in
      (h :: hs, id2)
  end.

(** ** Lemmas *)

Lemma wrapping_succ k : is_u64 k -> k < u64_max -> wrapping_add64 k 1 = k + 1.
Proof.
  unfold is_u64, u64_max, wrapping_add64. intros. rewrite Z.mod_small; lia.
Qed.

Lemma show_dec_not_empty k : 0 <= k -> show_dec k <> "".
Proof. intros. apply (show_radix_digits 10 k); lia. Qed.

(** Same prefix, same text: same handle. *)
Lemma Handle_to_string_inj h1 h2 :
  is_u64 (n h1) -> is_u64 (n h2) -> prefix h1 = prefix h2 ->
  Handle_to_string h1 = Handle_to_string h2 -> h1 = h2.
Proof.
  destruct h1 as [p1 n1], h2 as [p2 n2]. unfold Handle_to_string. simpl. intros H1 H2 -> E.
  f_equal. apply show_dec_inj; [done..|].
  apply (f_equal (strip_prefix p2)) in E. rewrite !strip_prefix_app in E. congruence.
Qed.

Lemma new_handles_n ps next_id :
  is_u64 next_id -> next_id + Z.of_nat (length ps) < u64_modulus ->
  n <$> (new_handles ps next_id).1 = seqZ next_id (Z.of_nat (length ps))
  /\ prefix <$> (new_handles ps next_id).1 = ps
  /\ (new_handles ps next_id).2 = next_id + Z.of_nat (length ps).
Proof.
  revert next_id. induction ps as [|p ps IH]; intros next_id Hid Hlt; simpl.
  - split; [done|]. split; [done|lia].
  - unfold is_u64 in *. simpl in Hlt.
    rewrite wrapping_succ by (unfold is_u64, u64_max; lia).
    specialize (IH (next_id + 1)). destruct (new_handles ps (next_id + 1)) as [hs id2].
    simpl in *. destruct IH as (H1 & H2 & H3); [lia..|].
    change (list_fmap _ _ n hs) with (n <$> hs).
    change (list_fmap _ _ prefix hs) with (prefix <$> hs).
    rewrite H1, H2, H3, (seqZ_cons next_id) by lia.
    split; [f_equal; f_equal; lia|]. split; [done|lia].
Qed.

(** Round trip: the text of a database or result handle parses back to
    that very handle, for every 64-bit number. *)
Theorem Handle_parse_to_string (p : string) (k : Z) :
  p = "db" \/ p = "r" -> is_u64 k ->
  Handle_parse (Handle_to_string {| prefix := p; n := k |}) p = Some {| prefix := p; n := k |}.
Proof.
  intros Hp Hk. unfold Handle_parse, Handle_to_string. simpl.
  rewrite strip_prefix_app. cbn [mbind option_bind].
  rewrite bool_decide_eq_false_2 by (apply show_dec_not_empty; apply Hk).
  rewrite show_dec_digits by apply Hk. simpl.
  unfold parse_u64, show_dec. rewrite parse_show by (done || lia). simpl.
  by destruct Hp as [-> | ->].
Qed.

Lemma Handle_parse_to_string_witness :
  Handle_parse "db17" "db" = Some {| prefix := "db"; n := 17 |}.
Proof.
  apply (Handle_parse_to_string "db" 17); [left; reflexivity | unfold is_u64, u64_modulus; lia].
Defined.

(** Uniqueness: handles drawn from the one global counter, whatever
    their kinds ([db], [r], [job]) and however allocations interleave, never
    repeat a number, so no two handles of one kind print alike, until 2^64
    handles have been drawn. *)
Theorem new_handles_unique (ps : list string) (next_id : Z) :
  is_u64 next_id -> next_id + Z.of_nat (length ps) < u64_modulus ->
  NoDup (n <$> (new_handles ps next_id).1)
  /\ forall i j h1 h2,
       (new_handles ps next_id).1 !! i = Some h1 -> (new_handles ps next_id).1 !! j = Some h2 ->
       prefix h1 = prefix h2 -> Handle_to_string h1 = Handle_to_string h2 -> i = j.
Proof.
  intros Hid Hlt. destruct (new_handles_n ps next_id Hid Hlt) as (Hn & _ & _).
  assert (NoDup (n <$> (new_handles ps next_id).1)) as Hnd by (rewrite Hn; apply NoDup_seqZ).
  split; [done|]. intros i j h1 h2 H1 H2 Hp Hs.
  assert (forall i h, (new_handles ps next_id).1 !! i = Some h -> is_u64 (n h)) as Hrange.
  { intros i' h Hh. assert ((n <$> (new_handles ps next_id).1) !! i' = Some (n h)) as Hl
      by (rewrite list_lookup_fmap, Hh; done).
    rewrite Hn in Hl. apply lookup_seqZ in Hl. unfold is_u64 in *. lia. }
  assert (h1 = h2) as -> by (apply Handle_to_string_inj; eauto).
  eapply NoDup_lookup; [exact Hnd|rewrite list_lookup_fmap, H1; done|].
  rewrite list_lookup_fmap, H2. done.
Qed.

Lemma new_handles_unique_witness :
  NoDup (n <$> (new_handles ["db"; "r"; "job"; "r"] 1).1).
Proof.
  refine (proj1 (new_handles_unique ["db"; "r"; "job"; "r"] 1 _ _)).
  - unfold is_u64, u64_modulus. lia.
  - reflexivity.
Defined.
