(* ===== verification/Protocol.v ===== *)
(** * Protocol: newline-delimited JSON frames between broker and worker

    Models [rmcp-core/src/protocol.rs]: requests, responses, the hello
    message, [FrameReader::read] and [write_frame] (and their async twins,
    which are the same code over tokio's traits).  The byte stream of a pipe
    is a [string]; a writer is the bytes written so far and, when the pipe is
    broken, the message of the I/O error.  The JSON codec of a frame type is
    the class [FrameCodec]. *)

From stdpp Require Import base list strings.
From Stdlib Require Import ZArith Lia Ascii.
From S2P Require Import Prelude Text Json Errors.

Local Open Scope Z_scope.
Local Open Scope rmcp_scope.

(** ** Messages *)

Record WorkerRequest := { req_id : Z; req_method : string; req_params : Value }.

Record WorkerErrorBody := { body_code : string; body_message : string }.

Record WorkerResponse := {
  resp_id : Z;
  resp_result : option Value;
  resp_error : option WorkerErrorBody;
}.

Record WorkerHello := {
  protocol : Z;
  hello_ida_version : string;
  pid : Z;
  hello_ida_dir : string;
  idausr : string;
}.

Definition PROTOCOL_VERSION : Z := 1.

Definition WorkerResponse_ok (id : Z) (result : Value) : WorkerResponse :=
  {| resp_id := id; resp_result := Some result; resp_error := None |}.

Definition WorkerResponse_err (id : Z) (e : Error) : WorkerResponse :=
  {| resp_id := id; resp_result := None;
     resp_error := Some {| body_code := code e; body_message := to_string e |} |}.

Definition into_result (r : WorkerResponse) : Result Value :=
  match resp_result r, resp_error r with
  | Some v, _ => Ok v
  | None, Some e => Err (Worker (body_code e +:+ ": " +:+ body_message e))
  | None, None => Err (Ipc "empty worker response")
  end.

(** ** Byte streams *)

Definition newline : ascii := "010".

(** Well-formed UTF-8 (the table of the Unicode standard), which
    [BufRead::read_line] requires. *)
Definition cont (lo hi : Z) (c : ascii) : bool := (lo <=? ord c) && (ord c <=? hi).

Fixpoint utf8_valid (s : string) : bool :=
  match s with
  | EmptyString => true
  | String a s1 =>
      let z := ord a in
      if z <=? 127 then utf8_valid s1
      else match s1 with
      | EmptyString => false
      | String b s2 =>
          if (194 <=? z) && (z <=? 223) then cont 128 191 b && utf8_valid s2
          else match s2 with
          | EmptyString => false
          | String c s3 =>
              if (224 <=? z) && (z <=? 239) then
                cont (if z =? 224 then 160 else 128) (if z =? 237 then 159 else 191) b
                && cont 128 191 c && utf8_valid s3
              else match s3 with
              | EmptyString => false
              | String d s4 =>
                  if (240 <=? z) && (z <=? 244) then
                    cont (if z =? 240 then 144 else 128) (if z =? 244 then 143 else 191) b
                    && cont 128 191 c && cont 128 191 d && utf8_valid s4
                  else false
              end
          end
      end
  end.

(** The bytes up to and including the first newline, and the rest. *)
Fixpoint take_line (s : string) : string * string :=
  match s with
  | EmptyString => (EmptyString, EmptyString)
  | String c s' =>
      if Ascii.eqb c newline then (String c EmptyString, s')
      else let '(l, r) := take_line s' in (String c l, r)
  end.

(** [read_line]: the line (empty at end of stream) and the remaining stream. *)
Definition read_line (s : string) : Result string * string :=
  let '(l, r) := take_line s in
  if utf8_valid l then (Ok l, r) else (Err (Io "stream did not contain valid UTF-8"), r).

Record Sink := { written : string; fault : option string }.

Definition write_all (w : Sink) (buf : string) : Result Sink :=
  match fault w with
  | Some e => Err (Io e)
  | None => Ok {| written := written w +:+ buf; fault := None |}
  end.

(** ** Frames *)

(** A frame type's JSON codec: serializer and deserializer, with their error
    messages. *)
Class FrameCodec (T : Type) := {
  to_vec : T -> string + string;
  from_str : string -> string + T;
}.

(** What the frame layer needs of a codec: the compact encoding of a message
    is valid UTF-8 without a newline, and once surrounding white space is
    removed it is decoded, to the message [reread v].  That is [v] itself but
    for what serde_json does not keep: a [Some(Value::Null)] in an optional
    field is written as [null] and read as [None], and the last digit of a
    float may be read differently. *)
Class FrameCodecOk (T : Type) `{!FrameCodec T} := {
  reread : T -> T;
  to_vec_utf8 : forall v s, to_vec v = inr s -> utf8_valid (s +:+ String newline "") = true;
  to_vec_line : forall v s, to_vec v = inr s ->
    all_chars (fun c => negb (Ascii.eqb newline c)) s = true;
  from_to : forall v s, to_vec v = inr s ->
    from_str (trim (s +:+ String newline "")) = inr (reread v);
}.

Section Frames.
Context {T : Type} `{!FrameCodec T}.

(** [FrameReader::read]: one value, [None] on clean end of stream. *)
Definition read_frame (stream : string) : Result (option T) * string :=
  let '(line, rest) := read_line stream in
  match line with
  | inl e => (Err e, rest)
  | inr l =>
      if bool_decide (l = EmptyString) then (Ok None, rest)
      else match from_str (trim l) with
        | inr v => (Ok (Some v), rest)
        | inl e => (Err (Ipc ("bad frame: " +:+ e)), rest)
        end
  end.

(** [write_frame]: serialize, append a newline, write, flush. *)
Definition write_frame (w : Sink) (v : T) : Result Sink :=
  match to_vec v with
  | inl e => Err (Ipc e)
  | inr buf => write_all w (buf +:+ String newline "")
  end.

Fixpoint write_frames (w : Sink) (vs : list T) : Result Sink :=
  match vs with
  | [] => Ok w
  | v :: vs' => w1 <-? write_frame w v; write_frames w1 vs'
  end.

(** Read until end of stream or the first error; [fuel] bounds the frames. *)
Fixpoint read_frames (fuel : nat) (stream : string) : option (list T) :=
  match fuel with
  | O => None
  | S fuel' =>
      match read_frame stream with
      | (inr None, _) => Some []
      | (inr (Some v), rest) => cons v <$> read_frames fuel' rest
      | (inl _, _) => None
      end
  end.

Context `{!FrameCodecOk T}.

Lemma take_line_app s rest :
  all_chars (fun c => negb (Ascii.eqb newline c)) s = true ->
  take_line (s +:+ String newline rest) = (s +:+ String newline "", rest).
Proof using Type.
  induction s as [|c s IH]; [done|]. rewrite !append_cons. cbn [take_line all_chars].
  intros [Hc Hs]%andb_true_iff. rewrite Ascii.eqb_sym.
  apply negb_true_iff in Hc. rewrite Hc, IH by done. done.
Qed.

Lemma read_frame_app v s rest :
  to_vec v = inr s -> read_frame (s +:+ String newline rest) = (Ok (Some (reread v)), rest).
Proof using FrameCodecOk0.
  intros Hv. unfold read_frame, read_line.
  rewrite take_line_app by eauto using to_vec_line.
  rewrite (to_vec_utf8 v s Hv). cbn match. unfold Ok. rewrite bool_decide_eq_false_2 by (destruct s; done).
  by rewrite (from_to v s Hv).
Qed.

Lemma write_frames_app w vs w' :
  write_frames w vs = Ok w' ->
  exists s, written w' = written w +:+ s /\
    forall fuel, (length vs < fuel)%nat -> read_frames fuel s = Some (reread <$> vs).
Proof using FrameCodecOk0.
  revert w. induction vs as [|v vs IH]; intros w; cbn [write_frames].
  - intros [= <-]. exists "". rewrite append_nil_r. split; [done|].
    intros [|fuel] Hf; [lia|]. done.
  - unfold write_frame, bindR. destruct (to_vec v) as [e|buf] eqn:Hv; [done|].
    unfold write_all. destruct (fault w); [done|]. simpl.
    intros (s & Hs & Hrd)%IH. simpl in Hs.
    exists (buf +:+ String newline s). split.
    { rewrite Hs, !append_assoc. done. }
    intros [|fuel] Hf; [lia|]. cbn [read_frames]. rewrite (read_frame_app v) by done.
    simpl. rewrite Hrd by (simpl in Hf; lia). done.
Qed.

(** Frame round trip: a sequence of messages written to a fresh pipe
    reads back as exactly that sequence, each as its codec rereads it,
    followed by a clean end of stream, for every codec whose compact output is
    a single line of UTF-8 that it can decode. *)
Theorem frames_roundtrip (vs : list T) (w : Sink) :
  write_frames {| written := ""; fault := None |} vs = Ok w ->
  read_frames (S (length vs)) (written w) = Some (reread <$> vs).
Proof using FrameCodecOk0.
  intros (s & Hs & Hrd)%write_frames_app. rewrite Hs. apply Hrd. lia.
Qed.
End Frames.

(** A codec for [u64] frames, to exercise the theorem. *)
#[export] Instance u64_codec : FrameCodec Z := {
  to_vec z := if bool_decide (is_u64 z) then inr (show_dec z) else inl "out of range";
  from_str s := match parse_u64 s with inr z => inr z | inl e => inl (ParseIntError_to_string e) end;
}.

Lemma trim_line s :
  s <> "" -> all_chars is_graphic s = true -> trim (s +:+ String newline "") = s.
Proof.
  intros Hne Hs. unfold trim, trim_start, trim_end.
  rewrite (strip_all_id _ ws_strings).
  2:{ destruct s as [|c s]; [done|]. apply andb_true_iff in Hs as [Hc _].
      apply ws_not_graphic; auto. }
  rewrite srev_app. change (srev (String newline "") +:+ srev s) with (String newline (srev s)).
  destruct (String.length _) as [|k] eqn:El.
  { destruct s; discriminate. }
  cbn [strip_all_fuel].
  change (strip_any (srev <$> ws_strings) (String newline (srev s))) with (Some (srev s)).
  cbn match. rewrite strip_all_id; [apply srev_involutive|].
  rewrite <- all_chars_srev in Hs. destruct (srev s) as [|c r].
  - vm_compute. repeat constructor; discriminate.
  - apply andb_true_iff in Hs as [Hc _]. apply ws_not_graphic; auto.
Qed.

Lemma utf8_graphic_line s :
  all_chars is_graphic s = true -> utf8_valid (s +:+ String newline "") = true.
Proof.
  induction s as [|c s IH]; [done|]. rewrite append_cons. cbn [all_chars utf8_valid].
  intros [Hc Hs]%andb_true_iff. unfold is_graphic in Hc. revert Hc. cbbn; try done. auto.
Qed.

Lemma u64_to_vec (v : Z) s : to_vec v = inr s -> is_u64 v /\ s = show_dec v.
Proof. simpl. case_bool_decide; [|done]. by intros [= <-]. Qed.

#[export] Instance u64_codec_ok : FrameCodecOk Z.
Proof.
  refine {| reread z := z |}; intros v s (Hr & ->)%u64_to_vec.
  - apply utf8_graphic_line, show_graphic; [apply Hr|lia].
  - eapply all_chars_impl; [|apply (show_graphic 10); [apply Hr|lia]].
    intros c Hc. destruct (Ascii.eqb_spec newline c) as [<-|]; done.
  - rewrite trim_line; [|apply (show_radix_digits 10); [apply Hr|lia]|
      apply show_graphic; [apply Hr|lia]].
    simpl. unfold parse_u64, show_dec. by rewrite parse_show by (done || lia).
Defined.

Lemma frames_roundtrip_witness :
  exists w, write_frames (T := Z) {| written := ""; fault := None |} [7; 0; 4096] = Ok w
    /\ read_frames (T := Z) 4 (written w) = Some [7; 0; 4096].
Proof.
  destruct (write_frames (T := Z) {| written := ""; fault := None |} [7; 0; 4096]) as [e|w] eqn:E; [vm_compute in E; discriminate E|].
  exists w. split; [reflexivity|]. exact (frames_roundtrip (T := Z) [7; 0; 4096] w E).
Defined.
