(* ===== verification/ResultStore.v ===== *)
(** * ResultStore: spilled tool outputs behind handles

    Models [rmcp-core/src/result_store.rs] and the broker's [bound_output]
    ([rmcp-broker/src/lib.rs]).  The [Mutex<HashMap>] is a [gmap] threaded
    through the operations; every operation holds the lock for its whole
    body, so one operation is one step.  Instants and durations are integers
    in nanoseconds; the current time is an argument.  Two things outside the
    program are parameters: [serialize] ([serde_json::to_string], [None] when
    it fails) and [hash_iter], the iteration order of the hash map, about
    which only that it enumerates the entries is assumed. *)

From stdpp Require Import base list gmap strings sorting.
From Stdlib Require Import ZArith Lia.
From S2P Require Import Prelude Text Json Errors Handles.

Local Open Scope Z_scope.

Record Entry := {
  payload : Value;
  tool : string;
  total_len : Z;
  created : Z;
  ttl : Z;
}.

Record ResultStore := {
  entries : gmap string Entry;
  store_ttl : Z;
  preview_chars : nat;
}.

Record StoredResultMeta := {
  meta_handle : string;
  meta_tool : string;
  meta_total_len : Z;
  meta_ttl_secs : Z;
  meta_age_secs : Z;
}.

Definition nanos_per_sec : Z := 1000000000.
Definition as_secs (d : Z) : Z := d / nanos_per_sec.

(** [created.elapsed()]: saturating at zero. *)
Definition elapsed (now : Z) (e : Entry) : Z := saturating_sub now (created e).
Definition expired (now : Z) (e : Entry) : bool := ttl e <=? elapsed now e.

Definition with_entries (s : ResultStore) (m : gmap string Entry) : ResultStore :=
  {| entries := m; store_ttl := store_ttl s; preview_chars := preview_chars s |}.

Definition ResultStore_new (t : Z) : ResultStore :=
  {| entries := ∅; store_ttl := t; preview_chars := 400 |}.

(** The loop [while cut > 0 && !s.is_char_boundary(cut) { cut -= 1 }]. *)
Fixpoint char_floor (s : string) (cut : nat) : nat :=
  match cut with
  | O => O
  | S c => if is_char_boundary s cut then cut else char_floor s c
  end.

(** Removing keys one after the other, as the [for k in ..] loops do. *)
Definition remove_all (ks : list string) (m : gmap string Entry) : gmap string Entry :=
  foldl (fun m k => delete k m) m ks.

Lemma lookup_remove_all ks m k :
  remove_all ks m !! k = if decide (k ∈ ks) then None else m !! k.
Proof.
  revert m. induction ks as [|k' ks IH]; intros m; cbn [remove_all foldl].
  { case_decide as H; [by apply not_elem_of_nil in H|done]. }
  fold (remove_all ks (delete k' m)). rewrite IH.
  destruct (decide (k = k')) as [->|Hne].
  - rewrite lookup_delete_eq, (decide_True _ (P := k' ∈ k' :: ks)) by constructor.
    by case_decide.
  - rewrite lookup_delete_ne by done.
    destruct (decide (k ∈ ks)), (decide (k ∈ k' :: ks)) as [Hc|Hc]; try done.
    + destruct Hc. by right.
    + apply elem_of_cons in Hc as [|]; done.
Qed.

Lemma char_floor_boundary s k : is_char_boundary s (char_floor s k) = true.
Proof.
  induction k as [|k IH]; [done|]. cbn [char_floor].
  destruct (is_char_boundary s (S k)) eqn:E; done.
Qed.

Lemma char_floor_le s k : (char_floor s k <= k)%nat.
Proof.
  induction k as [|k IH]; [done|]. cbn [char_floor]. case_match; lia.
Qed.

Lemma size_remove_all ks (m : gmap string Entry) :
  NoDup ks -> (forall k, k ∈ ks -> is_Some (m !! k)) ->
  (size (remove_all ks m) + length ks = size m)%nat.
Proof.
  intros Hnd. revert m. induction Hnd as [|k ks Hk Hnd IH]; intros m Hin; [simpl; lia|].
  destruct (Hin k) as [e He]; [left|].
  change (remove_all (k :: ks) m) with (remove_all ks (delete k m)).
  pose proof (IH (delete k m)) as IH'. rewrite (map_size_delete_Some k m (mk_is_Some _ _ He)) in IH'.
  assert (size m <> 0%nat).
  { intros ->%map_size_empty_inv. by rewrite lookup_empty in He. }
  simpl. cut (forall k', k' ∈ ks -> is_Some (delete k m !! k')).
  { intros H'. specialize (IH' H'). lia. }
  intros k' Hk'. rewrite lookup_delete_ne by congruence. apply Hin. by right.
Qed.

Section Store.
Context (serialize : Value -> option string).
Context (hash_iter : gmap string Entry -> list (string * Entry)).

Definition serialized_len (v : Value) : Z :=
  match serialize v with Some s => Z.of_nat (String.length s) | None => 0 end.

Definition preview_of (v : Value) (max_chars : nat) : string :=
  let s := default "" (serialize v) in
  if (String.length s <=? max_chars)%nat then s
  else String.substring 0 (char_floor s max_chars) s +:+ "…".

(** [put]: (handle, preview, was_spilled), the store, the handle counter. *)
Definition put (s : ResultStore) (now next_id : Z) (tl : string) (v : Value) (threshold : Z)
  : (string * string * bool) * ResultStore * Z :=
  let len := serialized_len v in
  if len <=? threshold then (("", "", false), s, next_id)
  else
    let '(h, next_id') := Handle_new "r" next_id in
    let handle := Handle_to_string h in
    let preview := preview_of v (preview_chars s) in
    let entry := {| total_len := len; payload := v; tool := tl; created := now;
                    ttl := store_ttl s |} in
    ((handle, preview, true), with_entries s (<[handle := entry]> (entries s)), next_id').

Definition get (s : ResultStore) (now : Z) (handle : string) : Result Value * ResultStore :=
  match entries s !! handle with
  | None => (Err (UnknownResult handle), s)
  | Some e =>
      if expired now e
      then (Err (UnknownResult handle), with_entries s (delete handle (entries s)))
      else (Ok (payload e), s)
  end.

Definition metadata (s : ResultStore) (now : Z) (handle : string) : Result StoredResultMeta :=
  match entries s !! handle with
  | None => Err (UnknownResult handle)
  | Some e =>
      if expired now e then Err (UnknownResult handle)
      else Ok {| meta_handle := handle; meta_tool := tool e; meta_total_len := total_len e;
                 meta_ttl_secs := as_secs (ttl e); meta_age_secs := as_secs (elapsed now e) |}
  end.

Definition matches (needle : string) (e : Entry) : bool :=
  match serialize (payload e) with Some s => contains needle s | None => false end.

Definition find (s : ResultStore) (now : Z) (needle : string) : list string :=
  take 20 (fst <$> filter (fun kv => matches needle kv.2 = true)
    (filter (fun kv => expired now kv.2 = false) (hash_iter (entries s)))).

Definition release (s : ResultStore) (handle : string) : Result unit * ResultStore :=
  match entries s !! handle with
  | None => (Err (UnknownResult handle), s)
  | Some _ => (Ok tt, with_entries s (delete handle (entries s)))
  end.

Definition sweep (s : ResultStore) (now : Z) : nat * ResultStore :=
  let exp := fst <$> filter (fun kv => expired now kv.2 = true) (hash_iter (entries s)) in
  (length exp, with_entries s (remove_all exp (entries s))).

Definition enforce_cap (s : ResultStore) (max : nat) : nat * ResultStore :=
  if (size (entries s) <=? max)%nat then (0%nat, s)
  else
    let by_age := sort_by_key (fun kc => kc.2)
      ((fun kv => (kv.1, created kv.2)) <$> hash_iter (entries s)) in
    let excess := (size (entries s) - max)%nat in
    let evict := fst <$> take excess by_age in
    (length evict, with_entries s (remove_all evict (entries s))).

Definition len (s : ResultStore) : nat := size (entries s).
Definition is_empty (s : ResultStore) : bool := bool_decide (len s = 0%nat).

(** [bound_output] of the broker: inline payload, or reference + preview. *)
Definition bound_output (s : ResultStore) (now next_id : Z) (threshold : Z)
    (tl : string) (v : Value) : Value * ResultStore * Z :=
  let '((handle, preview, spilled), s', next_id') := put s now next_id tl v threshold in
  if negb spilled then (v, s', next_id')
  else (JObj [("result_ref", JStr handle); ("preview", JStr preview);
              ("hint", JStr "payload exceeded output budget; read it with ida_result(handle)")],
        s', next_id').

(** ** Abstract specification

    What the store promises its clients: a map from handles to entries in
    which an entry is visible until its deadline.  When an expired entry is
    physically removed is not observable, except by [release], whose answer
    for an expired handle the specification leaves open. *)

Definition visible (now : Z) (m : gmap string Entry) : gmap string Entry :=
  filter (fun kv => expired now kv.2 = false) m.

Inductive op :=
  | OpPut (tl : string) (v : Value) (threshold : Z)
  | OpGet (h : string)
  | OpMetadata (h : string)
  | OpFind (needle : string)
  | OpRelease (h : string)
  | OpSweep
  | OpCap (max : nat).

Inductive answer :=
  | AnsPut (r : string * string * bool)
  | AnsValue (r : Result Value)
  | AnsMeta (r : Result StoredResultMeta)
  | AnsFind (hs : list string)
  | AnsUnit (r : Result unit)
  | AnsCount (k : nat).

(** One operation at time [now]; the state carries the handle counter. *)
Definition exec (now : Z) (o : op) (st : ResultStore * Z) : answer * (ResultStore * Z) :=
  let '(s, id) := st in
  match o with
  | OpPut tl v th => let '(r, s', id') := put s now id tl v th in (AnsPut r, (s', id'))
  | OpGet h => let '(r, s') := get s now h in (AnsValue r, (s', id))
  | OpMetadata h => (AnsMeta (metadata s now h), (s, id))
  | OpFind nd => (AnsFind (find s now nd), (s, id))
  | OpRelease h => let '(r, s') := release s h in (AnsUnit r, (s', id))
  | OpSweep => let '(k, s') := sweep s now in (AnsCount k, (s', id))
  | OpCap max => let '(k, s') := enforce_cap s max in (AnsCount k, (s', id))
  end.

Definition spec_get (now : Z) (a : gmap string Entry) (h : string) : Result Value :=
  match visible now a !! h with Some e => Ok (payload e) | None => Err (UnknownResult h) end.

Definition spec_meta (now : Z) (a : gmap string Entry) (h : string) : Result StoredResultMeta :=
  match visible now a !! h with
  | Some e => Ok {| meta_handle := h; meta_tool := tool e; meta_total_len := total_len e;
                    meta_ttl_secs := as_secs (ttl e); meta_age_secs := as_secs (elapsed now e) |}
  | None => Err (UnknownResult h)
  end.

Definition spec_find (now : Z) (a : gmap string Entry) (nd : string) (hs : list string) : Prop :=
  NoDup hs
  /\ (forall h, h ∈ hs -> exists e, visible now a !! h = Some e /\ matches nd e = true)
  /\ ((length hs < 20)%nat ->
       forall h e, visible now a !! h = Some e -> matches nd e = true -> h ∈ hs)
  /\ (length hs <= 20)%nat.

(** [spec_step t c now a o r a']: when [a] is visible at time [now],
    operation [o] may answer [r] and leave [a'] visible; [t] is the store's
    time-to-live and [c] its preview length. *)
Inductive spec_step (t : Z) (c : nat) (now : Z) (a : gmap string Entry)
  : op -> answer -> gmap string Entry -> Prop :=
  | spec_put_inline tl v th :
      serialized_len v <= th ->
      spec_step t c now a (OpPut tl v th) (AnsPut ("", "", false)) a
  | spec_put_spill tl v th h :
      th < serialized_len v -> a !! h = None ->
      spec_step t c now a (OpPut tl v th) (AnsPut (h, preview_of v c, true))
        (visible now (<[h := {| payload := v; tool := tl; total_len := serialized_len v;
                                created := now; ttl := t |}]> a))
  | spec_op_get h : spec_step t c now a (OpGet h) (AnsValue (spec_get now a h)) a
  | spec_op_meta h : spec_step t c now a (OpMetadata h) (AnsMeta (spec_meta now a h)) a
  | spec_op_find nd hs :
      spec_find now a nd hs -> spec_step t c now a (OpFind nd) (AnsFind hs) a
  | spec_release_ok h :
      spec_step t c now a (OpRelease h) (AnsUnit (Ok tt)) (delete h a)
  | spec_release_unknown h :
      a !! h = None ->
      spec_step t c now a (OpRelease h) (AnsUnit (Err (UnknownResult h))) a
  | spec_op_sweep k : spec_step t c now a OpSweep (AnsCount k) a
  | spec_op_cap max k a' :
      a' ⊆ a ->
      (forall h1 h2 e1 e2, a !! h1 = Some e1 -> a' !! h1 = None -> a' !! h2 = Some e2 ->
         created e1 <= created e2) ->
      (size a' <= max)%nat ->
      spec_step t c now a (OpCap max) (AnsCount k) a'.

(** Timed runs; between two operations the visible contents age. *)
Inductive spec_run (t : Z) (c : nat) (a : gmap string Entry)
  : list (Z * op) -> list answer -> Prop :=
  | spec_run_nil : spec_run t c a [] []
  | spec_run_cons now o r a' ops rs :
      spec_step t c now (visible now a) o r a' ->
      spec_run t c a' ops rs ->
      spec_run t c a ((now, o) :: ops) (r :: rs).

Fixpoint run (ops : list (Z * op)) (st : ResultStore * Z) : list answer :=
  match ops with
  | [] => []
  | (now, o) :: ops' => let '(r, st') := exec now o st in r :: run ops' st'
  end.

(** Times of a run do not decrease. *)
Fixpoint timed (from : Z) (ops : list (Z * op)) : Prop :=
  match ops with [] => True | (now, _) :: ops' => from <= now /\ timed now ops' end.

(** ** Lemmas *)

Context (hash_iter_perm : forall m, hash_iter m ≡ₚ map_to_list m).

Lemma visible_lookup now m h e :
  visible now m !! h = Some e <-> m !! h = Some e /\ expired now e = false.
Proof using Type. unfold visible. rewrite map_lookup_filter_Some. done. Qed.

Lemma visible_lookup_None now m h :
  visible now m !! h = None <-> forall e, m !! h = Some e -> expired now e = true.
Proof using Type.
  rewrite eq_None_not_Some. split.
  - intros H e He. apply not_false_is_true. intros Hx. apply H. exists e.
    by apply visible_lookup.
  - intros H (e & (He & Hx)%visible_lookup). rewrite (H e He) in Hx. done.
Qed.

(** Expiry is permanent. *)
Lemma expired_mono now now' e : now <= now' -> expired now e = true -> expired now' e = true.
Proof using Type. unfold expired, elapsed, saturating_sub. cbbn. Qed.

Lemma visible_visible now now' m : now <= now' -> visible now' (visible now m) = visible now' m.
Proof using Type.
  intros Hle. apply map_eq. intros h. apply option_eq. intros e.
  rewrite !visible_lookup. split; [tauto|]. intros [He Hx]. repeat split; try done.
  destruct (expired now e) eqn:E; [|done]. by rewrite (expired_mono now now') in Hx.
Qed.

Lemma visible_delete now m h : visible now (delete h m) = delete h (visible now m).
Proof using Type. apply map_filter_delete. Qed.

Lemma visible_delete_expired now m h :
  visible now m !! h = None -> visible now (delete h m) = visible now m.
Proof using Type. intros H. rewrite visible_delete. by apply delete_id. Qed.

Lemma elem_hash_iter m kv : kv ∈ hash_iter m <-> m !! kv.1 = Some kv.2.
Proof using hash_iter_perm.
  rewrite hash_iter_perm. destruct kv. by rewrite elem_of_map_to_list.
Qed.

Lemma NoDup_hash_iter m : NoDup (fst <$> hash_iter m).
Proof using hash_iter_perm. rewrite hash_iter_perm. apply NoDup_fst_map_to_list. Qed.

Lemma NoDup_fst_filter (P : string * Entry -> Prop) `{!forall kv, Decision (P kv)}
    (l : list (string * Entry)) :
  NoDup (fst <$> l) -> NoDup (fst <$> filter P l).
Proof using Type.
  intros Hnd. eapply sublist_NoDup; [exact Hnd|].
  apply fmap_sublist, sublist_filter.
Qed.

(** Keys of the store come from the handle counter. *)
Definition store_wf (s : ResultStore) (id : Z) : Prop :=
  is_u64 id /\
  forall h e, entries s !! h = Some e ->
    exists k, 0 <= k < id /\ h = Handle_to_string {| prefix := "r"; n := k |}.

Lemma fresh_handle s id :
  store_wf s id -> entries s !! Handle_to_string {| prefix := "r"; n := id |} = None.
Proof using Type.
  intros [Hid Hk]. apply eq_None_not_Some. intros (e & (k & Hlt & Heq)%Hk).
  unfold is_u64 in Hid.
  apply Handle_to_string_inj in Heq; [|done|unfold is_u64; simpl; lia|done].
  injection Heq as ->. lia.
Qed.

(** The keys that [enforce_cap] evicts. *)
Definition evicted (m : gmap string Entry) (excess : nat) : list string :=
  fst <$> take excess (sort_by_key (fun kc => kc.2)
    ((fun kv => (kv.1, created kv.2)) <$> hash_iter m)).

Lemma by_age_lookup m h t :
  (h, t) ∈ sort_by_key (fun kc => kc.2) ((fun kv => (kv.1, created kv.2)) <$> hash_iter m) <->
  exists e, m !! h = Some e /\ t = created e.
Proof using hash_iter_perm.
  rewrite sort_by_key_perm, list_elem_of_fmap. split.
  - intros ([h' e] & [= -> ->] & He%elem_hash_iter). eauto.
  - intros (e & He & ->). exists (h, e). split; [done|]. by apply elem_hash_iter.
Qed.

Lemma evicted_NoDup m k : NoDup (evicted m k).
Proof using hash_iter_perm.
  unfold evicted. eapply sublist_NoDup; [|apply fmap_sublist, sublist_take].
  rewrite sort_by_key_perm, <- list_fmap_compose. apply NoDup_hash_iter.
Qed.

Lemma evicted_lookup m k h :
  h ∈ evicted m k -> exists e, m !! h = Some e.
Proof using hash_iter_perm.
  unfold evicted. intros ([h' t] & -> & Ht)%list_elem_of_fmap.
  apply (elem_of_take) in Ht as (i & Hi & _). apply list_elem_of_lookup_2, by_age_lookup in Hi.
  destruct Hi as (e & He & _). eauto.
Qed.

Lemma length_evicted m k : (k <= size m)%nat -> length (evicted m k) = k.
Proof using hash_iter_perm.
  intros Hk. unfold evicted. rewrite length_fmap, length_take, length_sort_by_key, length_fmap,
    hash_iter_perm, length_map_to_list. lia.
Qed.

(** Oldest first: an evicted entry is at least as old as any kept one. *)
Lemma evicted_oldest m k h1 h2 e1 e2 :
  h1 ∈ evicted m k -> h2 ∉ evicted m k -> m !! h1 = Some e1 -> m !! h2 = Some e2 ->
  created e1 <= created e2.
Proof using hash_iter_perm.
  intros H1 H2 He1 He2. unfold evicted in *.
  apply list_elem_of_fmap in H1 as ([h1' t1] & -> & H1). simpl in *.
  assert (t1 = created e1) as ->.
  { apply elem_of_take in H1 as (i & Hi & _).
    apply list_elem_of_lookup_2, by_age_lookup in Hi as (e & He & ->). congruence. }
  apply (sort_by_key_split (fun kc : string * Z => kc.2) k _ (h1', created e1) (h2, created e2) H1).
  assert ((h2, created e2) ∈ sort_by_key (fun kc : string * Z => kc.2)
    ((fun kv => (kv.1, created kv.2)) <$> hash_iter m)) as Hin by (apply by_age_lookup; eauto).
  rewrite <- (take_drop k), elem_of_app in Hin. destruct Hin as [Hin|]; [|done].
  destruct H2. apply list_elem_of_fmap. by exists (h2, created e2).
Qed.

Lemma visible_insert_visible now m h e :
  visible now (<[h := e]> (visible now m)) = visible now (<[h := e]> m).
Proof using Type.
  apply map_eq. intros h'. apply option_eq. intros e'. rewrite !visible_lookup.
  rewrite !lookup_insert. case_decide; [done|]. rewrite visible_lookup. tauto.
Qed.

Lemma put_refines s id now tl v th r s' id' :
  store_wf s id -> id < u64_max ->
  put s now id tl v th = (r, s', id') ->
  store_wf s' id' /\ id <= id' <= id + 1
  /\ store_ttl s' = store_ttl s /\ preview_chars s' = preview_chars s
  /\ spec_step (store_ttl s) (preview_chars s) now (visible now (entries s))
       (OpPut tl v th) (AnsPut r) (visible now (entries s')).
Proof using Type.
  intros Hwf Hid. unfold put. destruct (Z.leb_spec (serialized_len v) th).
  { intros [= <- <- <-]. repeat split; try (done || apply Hwf || lia). by constructor. }
  pose proof (fresh_handle _ _ Hwf) as Hf. destruct Hwf as [Hu Hk].
  unfold Handle_new. rewrite wrapping_succ by done. intros [= <- <- <-]. simpl.
  split; [|split; [lia|split; [done|split; [done|]]]].
  - unfold u64_max, is_u64 in *. split; [unfold is_u64; lia|]. simpl. intros h e.
    rewrite lookup_insert. case_decide as Hd.
    + intros _. exists id. split; [lia|done].
    + intros (k & ? & ->)%Hk. exists k. split; [lia|done].
  - rewrite <- visible_insert_visible. apply spec_put_spill; [done|].
    apply visible_lookup_None. intros e. by rewrite Hf.
Qed.

Lemma get_refines s now h r s' :
  get s now h = (r, s') ->
  r = spec_get now (visible now (entries s)) h
  /\ visible now (entries s') = visible now (entries s)
  /\ entries s' ⊆ entries s /\ store_ttl s' = store_ttl s /\ preview_chars s' = preview_chars s.
Proof using Type.
  unfold get, spec_get. rewrite visible_visible by lia.
  destruct (entries s !! h) as [e|] eqn:He.
  - destruct (expired now e) eqn:Hx; intros [= <- <-].
    + assert (visible now (entries s) !! h = None) as Hn.
      { apply visible_lookup_None. congruence. }
      rewrite Hn. simpl. split; [done|]. split; [by apply visible_delete_expired|].
      split; [apply delete_subseteq|done].
    + assert (visible now (entries s) !! h = Some e) as -> by (by apply visible_lookup). done.
  - intros [= <- <-].
    assert (visible now (entries s) !! h = None) as ->; [|done].
    apply visible_lookup_None. congruence.
Qed.

Lemma metadata_refines s now h :
  metadata s now h = spec_meta now (visible now (entries s)) h.
Proof using Type.
  unfold metadata, spec_meta. rewrite visible_visible by lia.
  destruct (entries s !! h) as [e|] eqn:He.
  - destruct (expired now e) eqn:Hx.
    + assert (visible now (entries s) !! h = None) as ->; [|done].
      apply visible_lookup_None. congruence.
    + assert (visible now (entries s) !! h = Some e) as -> by (by apply visible_lookup). done.
  - assert (visible now (entries s) !! h = None) as ->; [|done].
    apply visible_lookup_None. congruence.
Qed.

Lemma find_refines s now nd : spec_find now (visible now (entries s)) nd (find s now nd).
Proof using hash_iter_perm.
  unfold spec_find, find. rewrite visible_visible by lia.
  set (l := fst <$> _). assert (NoDup l) as Hnd.
  { apply NoDup_fst_filter, NoDup_fst_filter, NoDup_hash_iter. }
  assert (forall h, h ∈ l <-> exists e, visible now (entries s) !! h = Some e /\ matches nd e = true)
    as Hl.
  { intros h. unfold l. rewrite list_elem_of_fmap. setoid_rewrite list_elem_of_filter.
    setoid_rewrite list_elem_of_filter. setoid_rewrite elem_hash_iter.
    setoid_rewrite visible_lookup. split.
    - intros ([h' e] & -> & Hm & Hx & He). eauto.
    - intros (e & (He & Hx) & Hm). by exists (h, e). }
  split; [by eapply sublist_NoDup, sublist_take|]. split; [|split].
  - intros h (i & Hi & _)%elem_of_take. apply Hl. by eapply list_elem_of_lookup_2.
  - rewrite length_take. intros Hlt h e Hv Hm. rewrite take_ge by lia. apply Hl. eauto.
  - rewrite length_take. lia.
Qed.

Lemma sweep_exact s now k s' :
  sweep s now = (k, s') ->
  entries s' = visible now (entries s) /\ (k + size (visible now (entries s)) = size (entries s))%nat.
Proof using hash_iter_perm.
  unfold sweep. set (ks := fst <$> _). intros [= <- <-]. simpl.
  assert (forall h, h ∈ ks <-> exists e, entries s !! h = Some e /\ expired now e = true) as Hks.
  { intros h. unfold ks. rewrite list_elem_of_fmap. setoid_rewrite list_elem_of_filter.
    setoid_rewrite elem_hash_iter. split.
    - intros ([h' e] & -> & Hx & He). eauto.
    - intros (e & He & Hx). by exists (h, e). }
  assert (remove_all ks (entries s) = visible now (entries s)) as Heq.
  { apply map_eq. intros h. apply option_eq. intros e.
    rewrite lookup_remove_all, visible_lookup. case_decide as Hd.
    - apply Hks in Hd as (e' & He' & Hx'). split; [done|]. intros [? ?]. congruence.
    - split; [|tauto]. intros He. split; [done|]. apply not_true_is_false. intros Hx.
      apply Hd, Hks. eauto. }
  split; [done|]. rewrite <- Heq.
  rewrite Nat.add_comm. apply size_remove_all.
  - apply NoDup_fst_filter, NoDup_hash_iter.
  - intros h (e & He & _)%Hks. eauto.
Qed.

Lemma cap_exact s max k s' :
  enforce_cap s max = (k, s') ->
  entries s' = remove_all (evicted (entries s) (size (entries s) - max)) (entries s)
  /\ k = (size (entries s) - max)%nat /\ size (entries s') = Nat.min max (size (entries s)).
Proof using hash_iter_perm.
  unfold enforce_cap. destruct (Nat.leb_spec (size (entries s)) max) as [Hle|Hlt].
  - intros [= <- <-]. replace (size (entries s) - max)%nat with 0%nat by lia.
    split; [done|]. split; lia.
  - fold (evicted (entries s) (size (entries s) - max)). intros [= <- <-]. simpl.
    split; [done|]. rewrite length_evicted by lia. split; [done|].
    pose proof (size_remove_all (evicted (entries s) (size (entries s) - max)) (entries s)) as Hs.
    rewrite length_evicted in Hs by lia. specialize (Hs (evicted_NoDup _ _)).
    ospecialize (Hs _); [|lia]. intros h Hh. apply evicted_lookup in Hh as [e He]. eauto.
Qed.

Lemma cap_refines s now max k s' t c :
  enforce_cap s max = (k, s') ->
  spec_step t c now (visible now (entries s)) (OpCap max) (AnsCount k) (visible now (entries s')).
Proof using hash_iter_perm.
  intros (He & _ & Hsz)%cap_exact. apply spec_op_cap.
  - apply map_subseteq_spec. intros h e. rewrite !visible_lookup, He, lookup_remove_all.
    case_decide; [by intros [? _]|done].
  - intros h1 h2 e1 e2 (H1 & Hx1)%visible_lookup Hn (H2 & Hx2)%visible_lookup.
    rewrite He, lookup_remove_all in H2. case_decide as Hd2; [done|].
    eapply evicted_oldest; [|exact Hd2|exact H1|exact H2].
    destruct (decide (h1 ∈ evicted (entries s) (size (entries s) - max))) as [|Hd1]; [done|].
    assert (entries s' !! h1 = Some e1) as H1'.
    { by rewrite He, lookup_remove_all, decide_False. }
    rewrite visible_lookup_None in Hn. rewrite (Hn e1 H1') in Hx1. done.
  - etrans; [apply map_size_filter|]. lia.
Qed.

Lemma store_wf_subset s s' id :
  store_wf s id -> entries s' ⊆ entries s -> store_wf s' id.
Proof using Type.
  intros [Hu Hk] Hsub. split; [done|]. intros h e He. apply (Hk h e).
  by eapply lookup_weaken.
Qed.

Lemma release_refines s h r s' now t c :
  release s h = (r, s') ->
  entries s' ⊆ entries s
  /\ spec_step t c now (visible now (entries s)) (OpRelease h) (AnsUnit r) (visible now (entries s')).
Proof using Type.
  unfold release. destruct (entries s !! h) as [e|] eqn:He; intros [= <- <-]; simpl.
  - split; [apply delete_subseteq|]. rewrite visible_delete. constructor.
  - split; [done|]. constructor. apply visible_lookup_None. congruence.
Qed.

(** One concrete step is allowed by the specification and keeps the
    invariant. *)
Lemma exec_refines now o s id r s' id' :
  store_wf s id -> id < u64_max ->
  exec now o (s, id) = (r, (s', id')) ->
  store_wf s' id' /\ id <= id' <= id + 1
  /\ store_ttl s' = store_ttl s /\ preview_chars s' = preview_chars s
  /\ spec_step (store_ttl s) (preview_chars s) now (visible now (entries s)) o r
       (visible now (entries s')).
Proof using hash_iter_perm.
  intros Hwf Hid. destruct o as [tl v th|h|h|nd|h| |max]; cbn [exec].
  - destruct (put s now id tl v th) as [[r0 s0] id0] eqn:E. intros [= <- <- <-].
    eapply put_refines; eauto.
  - destruct (get s now h) as [r0 s0] eqn:E. intros [= <- <- <-].
    apply get_refines in E as (-> & Hv & Hsub & -> & ->).
    split; [by eapply store_wf_subset|]. split; [lia|]. rewrite Hv. repeat split. constructor.
  - intros [= <- <- <-]. split; [done|]. split; [lia|]. repeat split.
    rewrite metadata_refines. constructor.
  - intros [= <- <- <-]. split; [done|]. split; [lia|]. repeat split.
    constructor. apply find_refines.
  - destruct (release s h) as [r0 s0] eqn:E. intros [= <- <- <-].
    assert (store_ttl s0 = store_ttl s /\ preview_chars s0 = preview_chars s) as [-> ->].
    { unfold release in E. case_match; by simplify_eq. }
    eapply release_refines in E as [Hsub Hst].
    split; [by eapply store_wf_subset|]. split; [lia|]. repeat split. exact Hst.
  - destruct (sweep s now) as [k s0] eqn:E. intros [= <- <- <-].
    assert (store_ttl s0 = store_ttl s /\ preview_chars s0 = preview_chars s) as [-> ->].
    { unfold sweep in E. by simplify_eq. }
    apply sweep_exact in E as [He _].
    split; [eapply store_wf_subset; [done|]; rewrite He; apply map_filter_subseteq|].
    split; [lia|]. repeat split. rewrite He, visible_visible by lia. constructor.
  - destruct (enforce_cap s max) as [k s0] eqn:E. intros [= <- <- <-].
    assert (store_ttl s0 = store_ttl s /\ preview_chars s0 = preview_chars s) as [-> ->].
    { unfold enforce_cap in E. case_match; by simplify_eq. }
    split; [eapply store_wf_subset; [done|]|split; [lia|repeat split; by eapply cap_refines]].
    apply cap_exact in E as (-> & _ & _). apply map_subseteq_spec. intros h e.
    rewrite lookup_remove_all. by case_decide.
Qed.

Lemma run_refines ops s id a from :
  store_wf s id -> id + Z.of_nat (length ops) < u64_max ->
  timed from ops ->
  (forall now, from <= now -> visible now a = visible now (entries s)) ->
  spec_run (store_ttl s) (preview_chars s) a ops (run ops (s, id)).
Proof using hash_iter_perm.
  revert s id a from. induction ops as [|[now o] ops IH]; intros s id a from Hwf Hid Ht Ha.
  { constructor. }
  cbn [run]. destruct (exec now o (s, id)) as [r [s' id']] eqn:E.
  cbn [timed length] in Ht, Hid. destruct Ht as [Hfrom Ht].
  apply exec_refines in E as (Hwf' & Hid' & Httl & Hpc & Hst); [|done|lia].
  econstructor; [rewrite (Ha now Hfrom); exact Hst|].
  rewrite <- Httl, <- Hpc. apply (IH s' id' _ now); [done|lia|done|].
  intros now' Hn. by apply visible_visible.
Qed.

(** C2. Refinement: every timed run of a fresh result store (any mix of
    put, get, metadata, find, release, sweep and cap enforcement, at
    non-decreasing times) is a run of the abstract time-to-live map.  In
    particular a spilled payload is returned unchanged until its deadline
    unless it was released or evicted, expired handles are unknown, a new
    handle never replaces an entry, eviction removes the oldest entries,
    and sweeping or lazy removal is never observable. *)
Theorem store_refines_spec (t from id : Z) (ops : list (Z * op)) :
  0 <= id -> id + Z.of_nat (length ops) < u64_max -> timed from ops ->
  spec_run t 400 ∅ ops (run ops (ResultStore_new t, id)).
Proof using hash_iter_perm.
  intros H0 Hid Ht.
  apply (run_refines ops (ResultStore_new t) id ∅ from); [|done|done|done].
  split; [unfold is_u64, u64_max in *; lia|]. intros h e He. simpl in He. by rewrite lookup_empty in He.
Qed.

(** Memory bound: enforcing a cap leaves exactly [min cap size]
    entries, reports how many it dropped, and every entry it dropped is at
    least as old as every entry it kept. *)
Theorem enforce_cap_bounds (s s' : ResultStore) (max k : nat) :
  enforce_cap s max = (k, s') ->
  len s' = Nat.min max (len s) /\ k = (len s - max)%nat /\ entries s' ⊆ entries s
  /\ forall h1 h2 e1 e2, entries s !! h1 = Some e1 -> entries s' !! h1 = None ->
       entries s' !! h2 = Some e2 -> created e1 <= created e2.
Proof using hash_iter_perm.
  intros (He & -> & Hsz)%cap_exact. unfold len. split; [done|]. split; [done|]. split.
  - rewrite He. apply map_subseteq_spec. intros h e. rewrite lookup_remove_all. by case_decide.
  - intros h1 h2 e1 e2 H1 Hn H2. rewrite He, lookup_remove_all in Hn, H2.
    destruct (decide (h1 ∈ _)); [|congruence]. destruct (decide (h2 ∈ _)); [done|].
    by eapply evicted_oldest.
Qed.

(** Nothing is lost in the output bound: what [bound_output] returns is
    either the payload itself (it fits the threshold, nothing is stored) or
    an object whose [result_ref] fetches exactly the payload, at any time
    before the deadline. *)
Theorem bound_output_lossless (s s' : ResultStore) (now later id id' th : Z) (tl : string)
    (v out : Value) :
  store_wf s id -> id < u64_max ->
  bound_output s now id th tl v = (out, s', id') ->
  now <= later -> later - now < store_ttl s ->
  (serialized_len v <= th /\ out = v /\ s' = s)
  \/ exists h, index out "result_ref" = JStr h /\ (get s' later h).1 = Ok v.
Proof using Type.
  intros Hwf Hid. unfold bound_output, put.
  destruct (Z.leb_spec (serialized_len v) th).
  { intros [= <- <- <-]. by left. }
  cbn. intros [= <- <- <-] Hle Hlt. right. eexists. split; [done|].
  unfold get. simpl. rewrite lookup_insert_eq.
  unfold expired, elapsed, saturating_sub. simpl. cbbn. done.
Qed.
End Store.

(** ** Witnesses, with a concrete serializer and the map's own order *)
Module StoreWitness.
Definition ser (v : Value) : option string := as_str v.
Definition iter (m : gmap string Entry) : list (string * Entry) := map_to_list m.

Lemma store_refines_spec_witness :
  spec_run ser 60 400 ∅
    [(0, OpPut "t" (JStr "abcdef") 3); (5, OpGet "r1"); (61, OpSweep); (61, OpGet "r1")]
    [AnsPut ("r1", "abcdef", true); AnsValue (Ok (JStr "abcdef")); AnsCount 1;
     AnsValue (Err (UnknownResult "r1"))].
Proof.
  refine (store_refines_spec ser iter (fun m => Permutation_refl _) 60 0 1
    [(0, OpPut "t" (JStr "abcdef") 3); (5, OpGet "r1"); (61, OpSweep); (61, OpGet "r1")] _ _ _).
  - lia.
  - reflexivity.
  - cbn. lia.
Defined.

Definition full : ResultStore :=
  {| entries := <["r1" := {| payload := JNull; tool := "t"; total_len := 4; created := 5; ttl := 9 |}]>
      {["r2" := {| payload := JNull; tool := "t"; total_len := 4; created := 3; ttl := 9 |}]};
     store_ttl := 9; preview_chars := 400 |}.

Lemma enforce_cap_bounds_witness :
  len (enforce_cap iter full 1).2 = 1%nat /\ entries (enforce_cap iter full 1).2 !! "r2" = None.
Proof.
  pose proof (enforce_cap_bounds iter (fun m => Permutation_refl _) full
    (enforce_cap iter full 1).2 1 (enforce_cap iter full 1).1 (surjective_pairing _)) as H.
  split; [rewrite (proj1 H); vm_compute; reflexivity | vm_compute; reflexivity].
Defined.

Lemma bound_output_lossless_witness :
  exists h, index (bound_output ser (ResultStore_new 60) 0 1 3 "t" (JStr "abcdef")).1.1 "result_ref"
    = JStr h.
Proof.
  destruct (bound_output_lossless ser (ResultStore_new 60)
    (bound_output ser (ResultStore_new 60) 0 1 3 "t" (JStr "abcdef")).1.2 0 10 1
    (bound_output ser (ResultStore_new 60) 0 1 3 "t" (JStr "abcdef")).2 3 "t" (JStr "abcdef")
    (bound_output ser (ResultStore_new 60) 0 1 3 "t" (JStr "abcdef")).1.1) as [[H _]|[h [H _]]].
  - split; [unfold is_u64, u64_modulus; lia|]. intros h e He. discriminate He.
  - reflexivity.
  - vm_compute. reflexivity.
  - lia.
  - cbn. lia.
  - vm_compute in H. congruence.
  - exists h. exact H.
Defined.
End StoreWitness.
