(* ===== verification/Cfg.v ===== *)
(** * Cfg: complexity preflight and strongly connected components

    Models [rmcp-broker/src/preflight.rs]: the thresholds and the analysis
    mode, the block adjacency index of a function's control-flow graph, and
    the iterative Tarjan algorithm with its explicit call stack of
    (node, successor cursor).  [Vec] indexing out of range is [Panic];
    [usize::MAX] in the [index] vector, which means "not visited", is [None].
    The stacks have their top at the head of the list. *)

From stdpp Require Import base list sorting relations.
From Stdlib Require Import ZArith Lia.
From S2P Require Import Prelude.

Local Open Scope rmcp_scope.

(** ** Preflight *)

Inductive AnalysisMode := Normal | Large | Pathological.

#[global] Instance AnalysisMode_eq_dec : EqDecision AnalysisMode.
Proof. solve_decision. Defined.

Record Thresholds := {
  large_blocks : Z;
  large_edges : Z;
  large_bytes : Z;
  pathological_blocks : Z;
  pathological_edges : Z;
  pathological_bytes : Z;
  pathological_sccs : Z;
}.

Definition Thresholds_default : Thresholds := {|
  large_blocks := 1500;
  large_edges := 2500;
  large_bytes := 100000;
  pathological_blocks := 10000;
  pathological_edges := 20000;
  pathological_bytes := 500000;
  pathological_sccs := 50;
|}.

Record FunctionComplexity := {
  byte_size : Z;
  blocks : Z;
  edges : Z;
  cyclomatic : Z;
  indirect_blocks : Z;
  fc_direct_calls : Z;
  fc_indirect_calls : Z;
  fc_switches : Z;
  chunks : Z;
  sccs : Z;
  max_scc_size : Z;
  loops : Z;
  instruction_density : Z; (** the bit pattern of the [f64] *)
  decompiler_available : bool;
}.

Definition mode (c : FunctionComplexity) (t : Thresholds) : AnalysisMode :=
  if (pathological_blocks t <=? blocks c)%Z
     || (pathological_edges t <=? edges c)%Z
     || (pathological_bytes t <=? byte_size c)%Z
     || (pathological_sccs t <=? sccs c)%Z
  then Pathological
  else if (large_blocks t <=? blocks c)%Z
       || (large_edges t <=? edges c)%Z
       || (large_bytes t <=? byte_size c)%Z
  then Large
  else Normal.

(** ** The CFG index *)

Record CfgIndex := {
  block_eas : list Z;
  block_ends : list Z;
  succs : list (list nat);
  indirect : list bool;
  direct_calls : nat;
  indirect_calls : nat;
  switches : nat;
}.

Definition edge_count (g : CfgIndex) : nat := sum_list (length <$> succs g).

(** ** Tarjan *)

Record tarjan := {
  index : list (option nat);
  low : list nat;
  on_stack : list bool;
  stack : list nat;
  next_index : nat;
  out : list (list nat);
  call : list (nat * nat);
}.

(** Mark [w] visited, push it on both stacks. *)
Definition visit (w : nat) (cs : list (nat * nat)) (t : tarjan) : tarjan := {|
  index := <[w := Some (next_index t)]> (index t);
  low := <[w := next_index t]> (low t);
  on_stack := <[w := true]> (on_stack t);
  stack := w :: stack t;
  next_index := S (next_index t);
  out := out t;
  call := (w, 0) :: cs;
|}.

(** [while let Some(w) = stack.pop() { on_stack[w] = false; scc.push(w);
    if w == v { break } }]: the component, the stack, the flags. *)
Fixpoint pop_scc (v : nat) (st : list nat) (os : list bool) : list nat * list nat * list bool :=
  match st with
  | [] => ([], [], os)
  | w :: st' =>
      let os' := <[w := false]> os in
      if Nat.eqb w v then ([w], st', os')
      else let '(scc, st'', os'') := pop_scc v st' os' in (w :: scc, st'', os'')
  end.

(** The other updates of the state: the [low] vector and the call stack. *)
Definition set_low_call (lo : list nat) (cs : list (nat * nat)) (t : tarjan) : tarjan := {|
  index := index t; low := lo; on_stack := on_stack t; stack := stack t;
  next_index := next_index t; out := out t; call := cs;
|}.

(** Emit the component rooted at [v]. *)
Definition emit (v : nat) (t : tarjan) : tarjan :=
  let '(scc, st', os') := pop_scc v (stack t) (on_stack t) in
  {| index := index t; low := low t; on_stack := os'; stack := st';
     next_index := next_index t; out := out t ++ [scc]; call := call t |}.

(** One turn of the inner [while let] loop, for the call frame [(v, ci)] on
    top of [rest]. *)
Definition step (g : CfgIndex) (v ci : nat) (rest : list (nat * nat)) (t : tarjan)
  : outcome tarjan :=
  ss <~ at_ (succs g !! v);
  if (ci <? length ss)%nat then
    w <~ at_ (ss !! ci);
    iw <~ at_ (index t !! w);
    match iw with
    | None => Done (visit w ((v, S ci) :: rest) t)
    | Some i =>
        os <~ at_ (on_stack t !! w);
        if (os : bool) then
          lv <~ at_ (low t !! v);
          Done (set_low_call (<[v := Nat.min lv i]> (low t)) ((v, S ci) :: rest) t)
        else Done (set_low_call (low t) ((v, S ci) :: rest) t)
    end
  else
    low' <~ match rest with
            | [] => Done (low t)
            | (p, _) :: _ =>
                lp <~ at_ (low t !! p);
                lv <~ at_ (low t !! v);
                Done (<[p := Nat.min lp lv]> (low t))
            end;
    let t' := set_low_call low' rest t in
    lv <~ at_ (low t' !! v);
    iv <~ at_ (index t' !! v);
    if bool_decide (iv = Some lv) then Done (emit v t') else Done t'.

Fixpoint inner_loop (g : CfgIndex) (fuel : nat) (t : tarjan) : outcome tarjan :=
  match call t with
  | [] => Done t
  | (v, ci) :: rest =>
      match fuel with
      | O => OutOfFuel
      | S fuel' => t' <~ step g v ci rest t; inner_loop g fuel' t'
      end
  end.

(** Every turn of the inner loop advances a cursor or finishes a node. *)
Definition tarjan_fuel (g : CfgIndex) : nat := length (block_eas g) + edge_count g.

(** The body of [for start in 0..n]. *)
Definition start_at (g : CfgIndex) (t : tarjan) (start : nat) : outcome tarjan :=
  i <~ at_ (index t !! start);
  match i with
  | Some _ => Done t
  | None => inner_loop g (tarjan_fuel g) (visit start (call t) t)
  end.

Fixpoint outer_loop (g : CfgIndex) (starts : list nat) (t : tarjan) : outcome tarjan :=
  match starts with
  | [] => Done t
  | s :: starts' => t' <~ start_at g t s; outer_loop g starts' t'
  end.

Definition tarjan_init (k : nat) : tarjan := {|
  index := replicate k None;
  low := replicate k 0;
  on_stack := replicate k false;
  stack := [];
  next_index := 0;
  out := [];
  call := [];
|}.

(** [tarjan_sccs]: the components, largest first (a stable sort). *)
Definition tarjan_sccs (g : CfgIndex) : outcome (list (list nat)) :=
  let k := length (block_eas g) in
  t <~ outer_loop g (seq 0 k) (tarjan_init k);
  Done (sort_by_key (fun s => (- Z.of_nat (length s))%Z) (out t)).

(** A CFG index is well formed when every block has its successor list and
    every successor is a block. *)
Definition cfg_wf (g : CfgIndex) : Prop :=
  length (succs g) = length (block_eas g)
  /\ Forall (Forall (fun w => w < length (block_eas g))%nat) (succs g).

Definition edge (g : CfgIndex) (u w : nat) : Prop :=
  exists ss, succs g !! u = Some ss /\ w ∈ ss.
Definition reach (g : CfgIndex) : nat -> nat -> Prop := rtc (edge g).

Example tarjan_two_loops :
  tarjan_sccs {| block_eas := [0; 0; 0; 0; 0]%Z; block_ends := [];
    succs := [[1]; [2; 3]; [1]; [4]; [3]]; indirect := [];
    direct_calls := 0; indirect_calls := 0; switches := 0 |}
  = Done [[4; 3]; [2; 1]; [0]].
Proof. reflexivity. Qed.
