(* ===== verification/Tarjan.v ===== *)
(** * Tarjan: correctness of the iterative SCC computation of [Cfg]

    The loop invariant of the algorithm (index order of the two stacks, the
    meaning of [low], closedness of the emitted components) is preserved by
    each of its three transitions: visiting a block, advancing a cursor, and
    finishing a block with or without emitting a component.  From it follow
    termination without a panic, that the components partition the blocks,
    and that they are exactly the strongly connected components. *)

From stdpp Require Import base list sorting relations.
From Stdlib Require Import ZArith Lia.
From S2P Require Import Prelude Cfg.

Lemma pop_scc_spec v st os :
  v ∈ st -> NoDup st ->
  exists pre st' os', pop_scc v st os = (pre ++ [v], st', os') /\ st = pre ++ v :: st'
    /\ length os' = length os
    /\ forall x, x < length os -> os' !! x = if decide (x ∈ pre ++ [v]) then Some false else os !! x.
Proof.
  revert os. induction st as [|w st IH]; intros os Hv Hnd; [by inversion Hv|].
  cbn [pop_scc]. destruct (Nat.eqb_spec w v) as [->|Hne].
  - exists [], st, (<[v := false]> os). simpl. rewrite length_insert.
    repeat split. intros x Hx. rewrite list_lookup_insert.
    destruct (decide (x ∈ [v])) as [->%list_elem_of_singleton|Hd].
    + by rewrite decide_True.
    + rewrite decide_False; [done|]. intros [-> _]. apply Hd. left.
  - apply NoDup_cons in Hnd as [Hw Hnd]. apply elem_of_cons in Hv as [?|Hv]; [done|].
    destruct (IH (<[w := false]> os) Hv Hnd) as (pre & st' & os' & -> & -> & Hl & Hos).
    exists (w :: pre), st', os'. rewrite length_insert in Hl, Hos. repeat split; [done|].
    intros x Hx. rewrite Hos by done. simpl.
    destruct (decide (x ∈ pre ++ [v])) as [Hin|Hin].
    + by rewrite decide_True by (by right).
    + rewrite list_lookup_insert. destruct (decide (w = x)) as [->|Hwx].
      * rewrite !decide_True; [done|left|done].
      * rewrite decide_False by tauto. rewrite decide_False; [done|].
        intros [?|?]%elem_of_cons; [congruence|done].
Qed.

Lemma sum_list_update (f f' : nat -> nat) w (l : list nat) :
  NoDup l -> w ∈ l -> (forall u, u <> w -> f u = f' u) ->
  sum_list_with f l + f' w = sum_list_with f' l + f w.
Proof.
  intros Hnd Hw Hf. induction Hnd as [|u l Hu Hnd IH]; [by inversion Hw|]. simpl.
  apply elem_of_cons in Hw as [->|Hw].
  - assert (sum_list_with f l = sum_list_with f' l) as ->; [|lia].
    clear -Hu Hf. induction l as [|x l IH]; [done|]. simpl.
    rewrite (Hf x), IH; [done|..]; set_solver.
  - rewrite (Hf u) by (intros ->; done). specialize (IH Hw). lia.
Qed.

Lemma sum_list_ext {A} (f f' : A -> nat) (l : list A) :
  (forall x, f x = f' x) -> sum_list_with f l = sum_list_with f' l.
Proof. intros Hf. induction l as [|x l IH]; simpl; [done|]. by rewrite Hf, IH. Qed.

Lemma sum_list_le {A} (f f' : A -> nat) (l : list A) :
  (forall x, f x <= f' x) -> sum_list_with f l <= sum_list_with f' l.
Proof. intros Hf. induction l as [|x l IH]; simpl; [done|]. specialize (Hf x). lia. Qed.

Lemma sum_list_seq_S f k m :
  sum_list_with f (seq (S k) m) = sum_list_with (fun u => f (S u)) (seq k m).
Proof. revert k. induction m as [|m IH]; intros k; simpl; [done|]. by rewrite IH. Qed.

(** Vertices plus edges, summed by vertex. *)
Lemma sum_degrees (l : list (list nat)) :
  sum_list_with (fun u => S (length (default [] (l !! u)))) (seq 0 (length l))
  = length l + sum_list (length <$> l).
Proof.
  induction l as [|x l IH]; [done|]. rewrite fmap_cons. cbn [length seq sum_list_with].
  rewrite sum_list_seq_S.
  change (sum_list_with _ (seq 0 (length l)))
    with (sum_list_with (fun u => S (length (default [] (l !! u)))) (seq 0 (length l))).
  rewrite IH. unfold id. simpl. lia.
Qed.

#[local] Set Default Proof Using "All".

Section Correct.
Context (g : CfgIndex) (Hg : cfg_wf g).

Abbreviation N := (length (block_eas g)).

Definition idx (t : tarjan) (v i : nat) : Prop := index t !! v = Some (Some i).
Definition visited (t : tarjan) (v : nat) : Prop := exists i, idx t v i.
Definition frame (t : tarjan) (c : nat) : Prop := exists ci, (c, ci) ∈ call t.
Definition emitted (t : tarjan) (v : nat) : Prop := v ∈ concat (out t).

(** [u]'s edge to [w] was examined: it lies before [u]'s cursor, or [u] is
    finished. *)
Definition processed (t : tarjan) (u w : nat) : Prop :=
  exists ss pos, succs g !! u = Some ss /\ ss !! pos = Some w /\ visited t u
    /\ forall ci, (u, ci) ∈ call t -> pos < ci.

(** [a] above [b] on a stack: later discovered. *)
Definition later (t : tarjan) (a b : nat) : Prop :=
  forall i j, idx t a i -> idx t b j -> j < i.
Definition call_rel (t : tarjan) (a b : nat * nat) : Prop :=
  reach g b.1 a.1 /\ later t a.1 b.1.

(** [c] is the topmost call frame at or below [u]. *)
Definition owner (t : tarjan) (u c : nat) : Prop :=
  frame t c
  /\ (forall i j, idx t c i -> idx t u j -> i <= j)
  /\ (forall c' i i' j, frame t c' -> idx t c i -> idx t c' i' -> idx t u j -> i' <= j -> i' <= i).

Record inv (t : tarjan) : Prop := {
  i_len : length (index t) = N /\ length (low t) = N /\ length (on_stack t) = N;
  i_lt : forall v i, idx t v i -> i < next_index t;
  i_inj : forall u v i, idx t u i -> idx t v i -> u = v;
  i_vis : forall v, visited t v <-> v ∈ stack t \/ emitted t v;
  i_nodup : NoDup (stack t ++ concat (out t));
  i_os : forall v, v < N -> on_stack t !! v = Some (bool_decide (v ∈ stack t));
  i_sorted : StronglySorted (later t) (stack t);
  i_call_stack : forall c, frame t c -> c ∈ stack t;
  i_call_sorted : StronglySorted (call_rel t) (call t);
  i_proc : forall u w, processed t u w -> visited t w;
  i_closed : forall o1 scc o2 u w, out t = o1 ++ scc :: o2 -> u ∈ scc -> edge g u w ->
    w ∈ concat (o1 ++ [scc]);
  i_desc : forall c u i j, frame t c -> u ∈ stack t -> idx t c i -> idx t u j -> i <= j ->
    reach g c u;
  i_back : forall u, u ∈ stack t -> exists c i j, frame t c /\ idx t c i /\ idx t u j /\ i <= j
    /\ reach g u c;
  i_low : forall c, frame t c -> exists x l i, low t !! c = Some l /\ x ∈ stack t /\ idx t x l
    /\ reach g c x /\ idx t c i /\ l <= i;
  i_low_min : forall u w c l j, u ∈ stack t -> processed t u w -> w ∈ stack t -> owner t u c ->
    low t !! c = Some l -> idx t w j -> l <= j;
  i_scc : forall scc, scc ∈ out t -> scc <> [] /\ forall x y, x ∈ scc -> y ∈ scc -> reach g x y;
}.

Lemma idx_lt_N t v i : inv t -> idx t v i -> v < N.
Proof.
  intros [[Hl _] _ _ _ _ _ _ _ _ _ _ _ _ _ _ _] H. rewrite <- Hl.
  by eapply lookup_lt_Some.
Qed.

Lemma idx_fun t v i j : idx t v i -> idx t v j -> i = j.
Proof. unfold idx. congruence. Qed.

Lemma succ_lt u ss pos w : succs g !! u = Some ss -> ss !! pos = Some w -> w < N.
Proof.
  destruct Hg as [_ Hf]. intros Hu Hw. rewrite Forall_lookup in Hf.
  specialize (Hf _ _ Hu). rewrite Forall_lookup in Hf. eauto.
Qed.

Lemma inv_init : inv (tarjan_init N).
Proof.
  assert (forall v i, ~ idx (tarjan_init N) v i) as Hno.
  { intros v i [H _]%lookup_replicate. discriminate. }
  assert (forall c, ~ frame (tarjan_init N) c) as Hfr by (intros c [ci H]; inversion H).
  split; simpl; try (by intros * H; destruct (Hno _ _ H)); try (by intros * H; inversion H);
    try (by intros * H; destruct (Hfr _ H)); try (by constructor).
  - rewrite !length_replicate. done.
  - intros v. split; [intros [i H]; by destruct (Hno v i)|intros [H|H]; inversion H].
  - intros v Hv. rewrite lookup_replicate_2 by done. done.
  - intros u w (ss & pos & _ & _ & [i H] & _). by destruct (Hno u i).
  - intros [|] ? ? ? ? H; discriminate.
Qed.

(** ** Visiting a block *)

(** [w] is visited from the top frame's cursor, or as a new root. *)
Definition visits (t : tarjan) (w : nat) (cs : list (nat * nat)) : Prop :=
  (call t = [] /\ cs = [])
  \/ exists v ci rest ss, call t = (v, ci) :: rest /\ cs = (v, S ci) :: rest
       /\ succs g !! v = Some ss /\ ss !! ci = Some w.

Section Visit.
Context (t : tarjan) (w : nat) (cs : list (nat * nat)).
Context (Ht : inv t) (Hw : w < N) (Hnew : index t !! w = Some None) (Hcs : visits t w cs).

Abbreviation t' := (visit w cs t).

Lemma visit_idx x i : idx t' x i <-> (x = w /\ i = next_index t) \/ idx t x i.
Proof.
  unfold idx. simpl. rewrite list_lookup_insert. case_decide as Hd.
  - destruct Hd as [-> _]. rewrite Hnew. split; [intros [= <-]; auto|].
    intros [[_ ->]|?]; congruence.
  - split; [auto|]. intros [[-> ->]|?]; [|done].
    destruct Hd. split; [done|]. by eapply lookup_lt_Some.
Qed.

Lemma visit_new i : ~ idx t w i.
Proof. unfold idx. congruence. Qed.

Lemma visit_idx_old x i : x <> w -> idx t' x i -> idx t x i.
Proof. rewrite visit_idx. tauto. Qed.

Lemma visit_visited x : visited t' x <-> x = w \/ visited t x.
Proof.
  unfold visited. setoid_rewrite visit_idx. split.
  - intros (i & [[-> _]|Hi]); eauto.
  - intros [->|[i Hi]]; eauto.
Qed.

Lemma visit_stack_ne x : x ∈ stack t -> x <> w.
Proof.
  intros Hx ->. destruct (proj2 (i_vis t Ht w)) as [i Hi]; [by left|]. by apply visit_new in Hi.
Qed.

Lemma cs_frame c ci : (c, ci) ∈ cs -> exists ci', (c, ci') ∈ call t /\ ci' <= ci.
Proof.
  destruct Hcs as [[_ ->]|(v & k & rest & ss & -> & -> & _)]; [by inversion 1|].
  intros [[= -> ->]|Hin]%elem_of_cons.
  - exists k. split; [left|lia].
  - exists ci. split; [by right|done].
Qed.

Lemma call_frame_cs c ci : (c, ci) ∈ call t -> exists ci', (c, ci') ∈ cs /\ ci <= ci'.
Proof.
  destruct Hcs as [[-> _]|(v & k & rest & ss & -> & -> & _)]; [by inversion 1|].
  intros [[= -> ->]|Hin]%elem_of_cons.
  - exists (S k). split; [left|lia].
  - exists ci. split; [by right|done].
Qed.

Lemma visit_frame c : frame t' c <-> c = w \/ frame t c.
Proof.
  unfold frame. simpl. split.
  - intros [ci [[= -> ->]|Hin]%elem_of_cons]; [by left|]. right.
    apply cs_frame in Hin as (ci' & ? & _). eauto.
  - intros [->|[ci Hin]]; [exists 0; left|].
    apply call_frame_cs in Hin as (ci' & ? & _). exists ci'. by right.
Qed.

Lemma frame_idx c : frame t c -> exists i, idx t c i.
Proof. intros Hf%(i_call_stack t Ht). apply (i_vis t Ht). by left. Qed.

Lemma frame_ne c : frame t c -> c <> w.
Proof. intros [i Hi]%frame_idx ->. by apply visit_new in Hi. Qed.

(** Every call frame reaches the new block. *)
Lemma frame_reach c : frame t c -> reach g c w.
Proof.
  intros [ci Hin]. pose proof (i_call_sorted t Ht) as Hs.
  destruct Hcs as [[E _]|(v & k & rest & ss & E & _ & Hss & Hk)]; rewrite E in Hin, Hs.
  { by inversion Hin. }
  assert (edge g v w) as He.
  { exists ss. split; [done|]. by eapply list_elem_of_lookup_2. }
  apply elem_of_cons in Hin as [[= -> ->]|Hin]; [by apply rtc_once|].
  apply StronglySorted_cons in Hs as [Hf _]. rewrite Forall_forall in Hf.
  destruct (Hf _ Hin) as [Hr _]. simpl in Hr. eapply rtc_r; eauto.
Qed.

(** Newly processed edges lead to the new block. *)
Lemma visit_processed u x : processed t' u x -> u <> w /\ (x = w \/ processed t u x).
Proof.
  intros (ss & pos & Hss & Hpos & Hvis & Hci). simpl in Hci.
  assert (u <> w) as Hne.
  { intros ->. specialize (Hci 0). ospecialize (Hci _); [left|]. lia. }
  split; [done|]. apply visit_visited in Hvis as [?|Hvis]; [done|].
  destruct Hcs as [[E1 E2]|(v & k & rest & ss' & E & -> & Hss' & Hk)].
  { right. exists ss, pos. repeat split; try done. intros ci. rewrite E1. by inversion 1. }
  destruct (decide (u = v /\ pos = k)) as [[-> ->]|Hd].
  - left. congruence.
  - right. exists ss, pos. repeat split; try done. intros ci. rewrite E.
    intros [[= -> ->]|Hin]%elem_of_cons.
    + specialize (Hci (S k)). ospecialize (Hci _); [right; left|].
      destruct (decide (pos = k)); [naive_solver|lia].
    + apply Hci. by do 2 right.
Qed.

Lemma visit_later a b : a <> w -> b <> w -> later t a b -> later t' a b.
Proof. intros Ha Hb H i j Hi%visit_idx_old Hj%visit_idx_old; eauto. Qed.

Lemma visit_low c : c <> w -> low t' !! c = low t !! c.
Proof. intros. simpl. by rewrite list_lookup_insert_ne. Qed.

Lemma visit_owner u c : u <> w -> visited t u -> owner t' u c -> owner t u c.
Proof.
  intros Hu [j Hj] ([->|Hf]%visit_frame & Hle & Hmax).
  - exfalso. specialize (Hle (next_index t) j).
    rewrite !visit_idx in Hle. ospecialize (Hle _ _); [auto..|].
    pose proof (i_lt t Ht _ _ Hj). lia.
  - split; [done|]. split.
    + intros i j' Hi Hj'. apply Hle; apply visit_idx; auto.
    + intros c' i i' j' Hf' Hi Hi' Hj' Hij.
      apply (Hmax c' i i' j'); try (apply visit_idx; auto); [apply visit_frame; auto|done].
Qed.

Lemma visit_call_sorted : StronglySorted (call_rel t') (call t').
Proof.
  simpl. constructor.
  - assert (StronglySorted (call_rel t') (call t)) as Hs'.
    { eapply StronglySorted_ext; [|exact (i_call_sorted t Ht)].
      intros [a ka] [b kb] Ha Hb [Hr Hl]. split; [done|]. simpl in *.
      apply visit_later; [apply frame_ne; by exists ka|apply frame_ne; by exists kb|done]. }
    destruct Hcs as [[_ E]|(v & k & rest & ss & E1 & E & _)]; rewrite E at 2; [constructor|].
    rewrite E1 in Hs'. inversion Hs' as [|? ? Hs1 Hs2]. constructor; [done|exact Hs2].
  - apply Forall_forall. intros [c ci] Hin.
    assert (frame t c) as Hf by (apply cs_frame in Hin as (? & ? & _); eexists; eauto).
    split; simpl; [by apply frame_reach|].
    intros i j Hi Hj. apply visit_idx in Hi as [[_ ->]|Hi]; [|by apply visit_new in Hi].
    apply visit_idx_old in Hj; [|by apply frame_ne]. by apply (i_lt t Ht) in Hj.
Qed.

Lemma visit_back u :
  u ∈ stack t' -> exists c i j, frame t' c /\ idx t' c i /\ idx t' u j /\ i <= j /\ reach g u c.
Proof.
  simpl. intros [->|Hu]%elem_of_cons.
  - exists w, (next_index t), (next_index t). split; [apply visit_frame; auto|].
    split; [apply visit_idx; auto|]. split; [apply visit_idx; auto|]. split; [done|].
    apply rtc_refl.
  - destruct (i_back t Ht u Hu) as (c & i & j & Hf & Hi & Hj & Hle & Hr).
    exists c, i, j. split; [apply visit_frame; auto|]. rewrite !visit_idx. auto.
Qed.

Lemma visit_low_sound c :
  frame t' c -> exists x l i, low t' !! c = Some l /\ x ∈ stack t' /\ idx t' x l
    /\ reach g c x /\ idx t' c i /\ l <= i.
Proof.
  destruct (i_len t Ht) as (_ & Hl & _).
  intros [->|Hf]%visit_frame.
  - exists w, (next_index t), (next_index t). rewrite !visit_idx.
    split; [simpl; apply list_lookup_insert_eq; lia|].
    split; [left|]. split; [auto|]. split; [apply rtc_refl|]. auto.
  - destruct (i_low t Ht c Hf) as (x & l & i & Hlo & Hx & Hxl & Hr & Hi & Hle).
    exists x, l, i. rewrite visit_low by (by apply frame_ne). rewrite !visit_idx.
    split; [done|]. split; [by right|]. auto.
Qed.

Lemma visit_low_min u x c l j :
  u ∈ stack t' -> processed t' u x -> x ∈ stack t' -> owner t' u c ->
  low t' !! c = Some l -> idx t' x j -> l <= j.
Proof.
  intros Hu [Hne Hp]%visit_processed Hx Ho Hl Hj.
  simpl in Hu. apply elem_of_cons in Hu as [?|Hu]; [done|].
  apply visit_owner in Ho; [|done|by apply (i_vis t Ht); left].
  assert (frame t c) as Hf by apply Ho.
  rewrite visit_low in Hl by (by apply frame_ne).
  destruct (decide (x = w)) as [->|Hxw].
  - apply visit_idx in Hj as [[_ ->]|Hj]; [|by apply visit_new in Hj].
    destruct (i_low t Ht c Hf) as (y & l' & i & Hlo & _ & _ & _ & Hi & Hle).
    apply (i_lt t Ht) in Hi. assert (l' = l) by congruence. lia.
  - apply visit_idx_old in Hj; [|done]. destruct Hp as [?|Hp]; [done|].
    simpl in Hx. apply elem_of_cons in Hx as [?|Hx]; [done|].
    by eapply (i_low_min t Ht u x c).
Qed.

Lemma visit_desc c u i j : frame t' c -> u ∈ stack t' -> idx t' c i -> idx t' u j -> i <= j -> reach g c u.
Proof.
  intros [->|Hf]%visit_frame Hu Hi Hj Hij.
  - apply visit_idx in Hi as [[_ ->]|Hi]; [|by apply visit_new in Hi].
    apply visit_idx in Hj as [[-> ->]|Hj]; [apply rtc_refl|].
    apply (i_lt t Ht) in Hj. lia.
  - simpl in Hu. apply elem_of_cons in Hu as [->|Hu]; [by apply frame_reach|].
    apply visit_idx_old in Hi; [|by apply frame_ne].
    apply visit_idx_old in Hj; [|by apply visit_stack_ne].
    by apply (i_desc t Ht c u i j).
Qed.

Lemma inv_visit : inv t'.
Proof.
  destruct (i_len t Ht) as (Hl1 & Hl2 & Hl3).
  assert (w ∉ stack t) as Hws by (intros Hx; by apply visit_stack_ne in Hx).
  assert (~ emitted t w) as Hwo.
  { intros He. destruct (proj2 (i_vis t Ht w)) as [i Hi]; [by right|]. by apply visit_new in Hi. }
  split.
  - simpl. by rewrite !length_insert.
  - intros v i [[-> ->]|Hi]%visit_idx; simpl; [lia|]. apply (i_lt t Ht) in Hi. lia.
  - intros u v i [[-> ->]|Hu]%visit_idx [[-> Hi]|Hv]%visit_idx; try done.
    + apply (i_lt t Ht) in Hv. lia.
    + subst. apply (i_lt t Ht) in Hu. lia.
    + by apply (i_inj t Ht u v i).
  - intros v. rewrite visit_visited, (i_vis t Ht). simpl. rewrite elem_of_cons.
    unfold emitted. simpl. tauto.
  - simpl. constructor; [|apply (i_nodup t Ht)]. by intros [?|?]%elem_of_app.
  - intros v Hv. simpl. rewrite list_lookup_insert. case_decide as Hd.
    + destruct Hd as [-> _]. by rewrite bool_decide_eq_true_2 by left.
    + rewrite (i_os t Ht v Hv). f_equal. apply bool_decide_ext. rewrite elem_of_cons.
      split; [auto|]. intros [->|?]; [|done]. destruct Hd. split; [done|lia].
  - simpl. constructor.
    + eapply StronglySorted_ext; [|apply (i_sorted t Ht)].
      intros a b Ha Hb. apply visit_later; by apply visit_stack_ne.
    + apply Forall_forall. intros b Hb i j Hi Hj.
      apply visit_idx in Hi as [[_ ->]|Hi]; [|by apply visit_new in Hi].
      apply visit_idx_old in Hj; [|by apply visit_stack_ne]. by apply (i_lt t Ht) in Hj.
  - intros c [->|Hf]%visit_frame; simpl; [left|]. right. by apply (i_call_stack t Ht).
  - apply visit_call_sorted.
  - intros u x [_ [->|Hp]]%visit_processed; apply visit_visited; [by left|].
    right. by eapply (i_proc t Ht).
  - exact (i_closed t Ht).
  - apply visit_desc.
  - apply visit_back.
  - apply visit_low_sound.
  - apply visit_low_min.
  - exact (i_scc t Ht).
Qed.
End Visit.

(** ** Advancing the cursor over an edge to a visited block *)

Section Advance.
Context (t : tarjan) (v ci : nat) (rest : list (nat * nat)) (ss : list nat) (w i lv : nat).
Context (Ht : inv t) (Hcall : call t = (v, ci) :: rest).
Context (Hss : succs g !! v = Some ss) (Hw : ss !! ci = Some w) (Hi : idx t w i).
Context (Hlv : low t !! v = Some lv).

Definition new_low : list nat :=
  if bool_decide (w ∈ stack t) then <[v := Nat.min lv i]> (low t) else low t.
Abbreviation t' := (set_low_call new_low ((v, S ci) :: rest) t).

Lemma adv_frame c : frame t' c <-> frame t c.
Proof.
  unfold frame. simpl. rewrite Hcall. split.
  - intros [k [[= -> ->]|Hin]%elem_of_cons]; [exists ci; left|exists k; by right].
  - intros [k [[= -> ->]|Hin]%elem_of_cons]; [exists (S ci); left|exists k; by right].
Qed.

Lemma adv_processed u x : processed t' u x -> processed t u x \/ (u = v /\ x = w).
Proof.
  intros (ss' & pos & Hs & Hp & Hv & Hc).
  destruct (decide (u = v /\ pos = ci)) as [[-> ->]|Hd].
  - right. split; [done|]. congruence.
  - left. exists ss', pos. repeat split; try done. intros k. rewrite Hcall.
    intros [[= -> ->]|Hin]%elem_of_cons.
    + specialize (Hc (S ci)). ospecialize (Hc _); [left|].
      destruct (decide (pos = ci)); [tauto|lia].
    + apply Hc. by right.
Qed.

Lemma adv_owner u c : owner t' u c <-> owner t u c.
Proof. unfold owner. setoid_rewrite adv_frame. done. Qed.

Lemma owner_self u c : frame t u -> owner t u c -> c = u.
Proof.
  intros Hf (Hc & Hle & Hmax).
  destruct (i_low t Ht u Hf) as (_ & _ & iu & _ & _ & _ & _ & Hiu & _).
  destruct (i_low t Ht c Hc) as (_ & _ & ic & _ & _ & _ & _ & Hic & _).
  pose proof (Hle ic iu Hic Hiu). pose proof (Hmax u ic iu iu Hf Hic Hiu Hiu).
  apply (i_inj t Ht c u iu); [|done]. replace iu with ic by lia. done.
Qed.

Lemma adv_low c l : low t !! c = Some l ->
  exists l', low t' !! c = Some l' /\ l' <= l
    /\ (l' = l \/ (c = v /\ w ∈ stack t /\ l' = i)).
Proof.
  intros Hl. simpl. unfold new_low. case_bool_decide as Hst; [|exists l; auto].
  rewrite list_lookup_insert. case_decide as Hd; [|exists l; auto].
  destruct Hd as [<- _]. assert (l = lv) as -> by congruence.
  exists (Nat.min lv i). split; [done|]. split; [lia|].
  destruct (Nat.min_spec lv i) as [[_ ->]|[_ ->]]; auto.
Qed.

Lemma inv_advance : inv t'.
Proof.
  assert (frame t v) as Hfv by (exists ci; rewrite Hcall; left).
  assert (edge g v w) as Hvw.
  { exists ss. split; [done|]. by eapply list_elem_of_lookup_2. }
  destruct Ht as [Hlen Hlt Hinj Hvis Hnd Hos Hsort Hcst Hcso Hpr Hcl Hde Hba Hlo Hlm Hsc].
  split; try done.
  - simpl. destruct Hlen as (? & ? & ?). unfold new_low.
    case_bool_decide; rewrite ?length_insert; done.
  - intros c Hf%adv_frame. by apply Hcst.
  - simpl. rewrite Hcall in Hcso. inversion Hcso as [|? ? H1 H2]. constructor; [done|exact H2].
  - intros u x [Hp|[-> ->]]%adv_processed; [by apply (Hpr u x)|]. by exists i.
  - intros c u a b Hf%adv_frame. by apply Hde.
  - intros u Hu. destruct (Hba u Hu) as (c & a & b & Hf & Hr). exists c, a, b.
    split; [by apply adv_frame|done].
  - intros c Hf%adv_frame. destruct (Hlo c Hf) as (x & l & a & Hl & Hx & Hxl & Hr & Ha & Hle).
    destruct (adv_low c l Hl) as (l' & Hl' & Hle' & [->|(-> & Hst & ->)]).
    + by exists x, l, a.
    + exists w, i, a. split; [done|]. split; [done|]. split; [done|].
      split; [by apply rtc_once|]. split; [done|lia].
  - intros u x c l' j Hu Hp Hx Ho%adv_owner Hl' Hj.
    destruct (Hlo c (proj1 Ho)) as (_ & l & _ & Hl & _).
    destruct (adv_low c l Hl) as (l2 & Hl2 & Hle2 & _).
    assert (l2 = l') as -> by congruence.
    apply adv_processed in Hp as [Hp|[-> ->]].
    + pose proof (Hlm u x c l j Hu Hp Hx Ho Hl Hj). lia.
    + apply owner_self in Ho; [|done]. subst c.
      assert (j = i) as -> by (eapply idx_fun; eauto).
      assert (low t' !! v = Some (Nat.min lv i)) as Hmin.
      { simpl. unfold new_low. rewrite bool_decide_eq_true_2 by done.
        apply list_lookup_insert_eq. by eapply lookup_lt_Some. }
      assert (l' = Nat.min lv i) by congruence. lia.
Qed.
End Advance.

(** ** Finishing a block *)

Section Finish.
Context (t : tarjan) (v ci : nat) (rest : list (nat * nat)) (ss : list nat) (lv iv : nat).
Context (Ht : inv t) (Hcall : call t = (v, ci) :: rest).
Context (Hss : succs g !! v = Some ss) (Hci : length ss <= ci).
Context (Hlv : low t !! v = Some lv) (Hiv : idx t v iv).

Lemma fin_frame_v : frame t v.
Proof. exists ci. rewrite Hcall. left. Qed.

(** The other frames lie strictly below [v]. *)
Lemma fin_below c k i : (c, k) ∈ rest -> idx t c i -> i < iv /\ reach g c v.
Proof.
  intros Hin Hi. pose proof (i_call_sorted t Ht) as Hs. rewrite Hcall in Hs.
  apply StronglySorted_cons in Hs as [Hf _]. rewrite Forall_forall in Hf.
  destruct (Hf _ Hin) as [Hr Hl]. split; [by apply (Hl iv i)|done].
Qed.

Lemma fin_frame_rest c : frame t c -> c = v \/ exists k, (c, k) ∈ rest.
Proof. intros [k Hk]. rewrite Hcall in Hk. apply elem_of_cons in Hk as [[= -> _]|?]; eauto. Qed.

Lemma fin_rest_frame c k : (c, k) ∈ rest -> frame t c.
Proof. intros Hk. exists k. rewrite Hcall. by right. Qed.

Lemma frame_has_idx c : frame t c -> exists i, idx t c i.
Proof. intros Hf%(i_call_stack t Ht). apply (i_vis t Ht). by left. Qed.

Lemma fin_rest_ne c k : (c, k) ∈ rest -> c <> v.
Proof.
  intros Hin ->. destruct (fin_below v k iv Hin Hiv). lia.
Qed.

(** An edge is processed once [v]'s frame is gone iff it was before. *)
Lemma fin_processed t1 u x :
  call t1 = rest -> index t1 = index t -> processed t1 u x -> processed t u x.
Proof.
  intros E1 E2 (ss' & pos & Hs & Hp & Hv & Hc). exists ss', pos. split; [done|].
  split; [done|]. split; [unfold visited, idx in *; by rewrite E2 in Hv|].
  intros k. rewrite Hcall. intros [[= -> ->]|Hin]%elem_of_cons.
  - assert (ss' = ss) as -> by congruence. apply lookup_lt_Some in Hp. lia.
  - apply Hc. by rewrite E1.
Qed.

(** [low] after the propagation to the parent frame. *)
Context (lo : list nat).
Context (Hlo : match rest with
  | [] => lo = low t
  | (p, _) :: _ => exists lp, low t !! p = Some lp /\ lo = <[p := Nat.min lp lv]> (low t)
  end).

Lemma fin_low_v : lo !! v = Some lv.
Proof.
  pose proof fin_rest_ne as Hne. destruct rest as [|[p k] r]; [by rewrite Hlo|].
  destruct Hlo as (lp & Hp & ->). rewrite list_lookup_insert_ne; [done|].
  apply (Hne p k). left.
Qed.

Lemma fin_low c k l :
  (c, k) ∈ rest -> low t !! c = Some l ->
  exists l', lo !! c = Some l' /\ l' <= l /\ (l' = l \/ l' = lv).
Proof.
  intros Hin Hl. destruct rest as [|[p k'] r]; [by inversion Hin|].
  destruct Hlo as (lp & Hp & ->). rewrite list_lookup_insert. case_decide as Hd.
  - destruct Hd as [<- _]. assert (l = lp) as -> by congruence.
    exists (Nat.min lp lv). split; [done|]. split; [lia|].
    destruct (Nat.min_spec lp lv) as [[_ ->]|[_ ->]]; auto.
  - exists l. auto.
Qed.

(** The frame that inherits [v]'s blocks gets [v]'s [low]. *)
Lemma fin_low_parent c l :
  (exists k, (c, k) ∈ rest) ->
  (forall c' k' i i', (c', k') ∈ rest -> idx t c i -> idx t c' i' -> i' <= i) ->
  lo !! c = Some l -> l <= lv.
Proof.
  intros [k Hin] Hmax Hl. pose proof (i_call_sorted t Ht) as Hs. rewrite Hcall in Hs.
  apply StronglySorted_cons in Hs as [_ Hs].
  destruct (frame_has_idx c (fin_rest_frame c k Hin)) as [ic Hic].
  pose proof fin_rest_frame as Hrf. pose proof frame_has_idx as Hfi.
  destruct rest as [|[p k'] r]; [by inversion Hin|].
  destruct Hlo as (lp & Hp & ->).
  destruct (Hfi p) as [ip Hip]; [apply (Hrf p k'); left|].
  assert (c = p) as ->.
  { apply elem_of_cons in Hin as [[= -> _]|Hin]; [done|].
    apply StronglySorted_cons in Hs as [Hf _]. rewrite Forall_forall in Hf.
    destruct (Hf _ Hin) as [_ Hlt]. specialize (Hlt ip ic Hip Hic).
    specialize (Hmax p k' ic ip). ospecialize (Hmax _ _ _); [left|done|done|]. lia. }
  rewrite list_lookup_insert_eq in Hl by (by eapply lookup_lt_Some). injection Hl as <-. lia.
Qed.

Lemma fin_call_sorted : StronglySorted (call_rel t) rest.
Proof.
  pose proof (i_call_sorted t Ht) as Hs. rewrite Hcall in Hs.
  by apply StronglySorted_cons in Hs as [_ Hs].
Qed.

Lemma fin_len_lo : length lo = N.
Proof.
  destruct (i_len t Ht) as (_ & Hl & _). destruct rest as [|[p k] r].
  - by rewrite Hlo.
  - destruct Hlo as (lp & _ & ->). by rewrite length_insert.
Qed.

Abbreviation t1 := (set_low_call lo rest t).

Lemma fin_frame c : frame t1 c <-> exists k, (c, k) ∈ rest.
Proof. done. Qed.

Lemma fin_low_of c k : (c, k) ∈ rest ->
  exists x l l' i, low t !! c = Some l /\ lo !! c = Some l' /\ l' <= l /\ (l' = l \/ l' = lv)
    /\ x ∈ stack t /\ idx t x l /\ reach g c x /\ idx t c i /\ l <= i /\ i < iv.
Proof.
  intros Hin.
  destruct (i_low t Ht c (fin_rest_frame c k Hin)) as (x & l & i & Hl & Hx & Hxl & Hr & Hi & Hle).
  destruct (fin_low c k l Hin Hl) as (l' & Hl' & Hle' & Hor).
  exists x, l, l', i. repeat split; try done. by apply (fin_below c k).
Qed.

(** The owner of a block once [v]'s frame is gone. *)
Lemma fin_owner t2 u c j :
  call t2 = rest -> index t2 = index t -> idx t u j -> owner t2 u c ->
  (exists k, (c, k) ∈ rest)
  /\ (j < iv -> owner t u c)
  /\ (iv <= j -> owner t u v
      /\ forall c' k' i i', (c', k') ∈ rest -> idx t c i -> idx t c' i' -> i' <= i).
Proof.
  intros E1 E2 Hj (Hf & Hle & Hmax). unfold frame in Hf. rewrite E1 in Hf.
  assert (forall x i, idx t2 x i <-> idx t x i) as Hidx by (intros; unfold idx; by rewrite E2).
  split; [done|]. split.
  - intros Hlt. split; [destruct Hf as [k Hk]; by eapply fin_rest_frame|]. split.
    + intros i j' Hi Hj'. apply Hle; by apply Hidx.
    + intros c' i i' j' Hf' Hi Hi' Hj' Hij. apply fin_frame_rest in Hf' as [->|[k' Hk']].
      * assert (i' = iv) by (eapply idx_fun; eauto).
        assert (j' = j) by (eapply idx_fun; eauto). lia.
      * apply (Hmax c' i i' j'); try (by apply Hidx); [|done].
        exists k'. by rewrite E1.
  - intros Hge. split; [split; [apply fin_frame_v|split]|].
    + intros i j' Hi Hj'. assert (i = iv) by (eapply idx_fun; eauto).
      assert (j' = j) by (eapply idx_fun; eauto). lia.
    + intros c' i i' j' Hf' Hi Hi' Hj' Hij. assert (i = iv) by (eapply idx_fun; eauto).
      apply fin_frame_rest in Hf' as [->|[k' Hk']].
      * assert (i' = iv) by (eapply idx_fun; eauto). lia.
      * destruct (fin_below c' k' i' Hk' Hi'). lia.
    + intros c' k' i i' Hk' Hi Hi'. destruct (fin_below c' k' i' Hk' Hi').
      apply (Hmax c' i i' j); try (by apply Hidx); [exists k'; by rewrite E1|lia].
Qed.

Lemma fin_low_min t2 u w c l j :
  call t2 = rest -> index t2 = index t -> low t2 = lo ->
  u ∈ stack t -> processed t2 u w -> w ∈ stack t -> owner t2 u c ->
  low t2 !! c = Some l -> idx t2 w j -> l <= j.
Proof.
  intros E1 E2 E3 Hu Hp%fin_processed Hw Ho Hl Hj; [|done|done].
  rewrite E3 in Hl. unfold idx in Hj. rewrite E2 in Hj. fold (idx t w j) in Hj.
  destruct (proj2 (i_vis t Ht u)) as [ju Hju]; [by left|].
  destruct (fin_owner t2 u c ju E1 E2 Hju Ho) as ([k Hk] & Hlt & Hge).
  destruct (fin_low_of c k Hk) as (_ & l0 & l' & _ & Hl0 & Hl' & Hle & _).
  assert (l' = l) as -> by congruence.
  destruct (decide (iv <= ju)) as [Hd|Hd].
  - destruct (Hge Hd) as [Hov Hmaxp].
    pose proof (i_low_min t Ht u w v lv j Hu Hp Hw Hov Hlv Hj).
    pose proof (fin_low_parent c l (ex_intro _ k Hk) Hmaxp Hl). lia.
  - pose proof (i_low_min t Ht u w c l0 j Hu Hp Hw (Hlt ltac:(lia)) Hl0 Hj). lia.
Qed.

(** *** Not a root: the block stays on the stack *)
Lemma inv_finish : lv <> iv -> inv t1.
Proof.
  intros Hne.
  destruct (i_low t Ht v fin_frame_v) as (xv & l & i & Hl & Hxv & Hxvl & Hrv & Hi & Hle).
  assert (l = lv) as -> by congruence. assert (i = iv) as -> by (eapply idx_fun; eauto).
  pose proof fin_call_sorted as Hcso.
  pose proof (i_len t Ht) as (Hl1 & Hl2 & Hl3).
  split; try (apply Ht); try done.
  - split; [done|]. split; [apply fin_len_lo|done].
  - intros c [k Hk]. apply (i_call_stack t Ht). by eapply fin_rest_frame.
  - intros u w Hp. apply fin_processed in Hp; [|done|done]. by apply (i_proc t Ht) in Hp.
  - intros c u a b [k Hk]. apply (i_desc t Ht). by eapply fin_rest_frame.
  - intros u Hu. destruct (i_back t Ht u Hu) as (c & a & b & Hf & Ha & Hb & Hab & Hr).
    apply fin_frame_rest in Hf as [->|[k Hk]].
    + destruct (i_back t Ht xv Hxv) as (c & a' & b' & Hf & Ha' & Hb' & Hab' & Hr').
      assert (a = iv) as -> by (eapply idx_fun; eauto).
      assert (b' = lv) as -> by (eapply idx_fun; eauto).
      apply fin_frame_rest in Hf as [->|[k Hk]].
      { assert (a' = iv) by (eapply idx_fun; eauto). lia. }
      exists c, a', b. split; [by exists k|]. split; [done|]. split; [done|].
      split; [lia|]. do 2 (etrans; [eassumption|]). done.
    + exists c, a, b. split; [by exists k|done].
  - intros c [k Hk].
    destruct (fin_low_of c k Hk) as (x & l0 & l' & i & Hl0 & Hl' & Hle' & Hor & Hx & Hxl & Hr & Hic & Hli & Hlt).
    destruct Hor as [->| ->].
    + by exists x, l0, i.
    + exists xv, lv, i. repeat split; try done; [|lia].
      etrans; [|exact Hrv]. by apply (fin_below c k i).
  - intros u w c l0 j Hu Hp Hw Ho Hl0 Hj. by eapply (fin_low_min t1 u w c l0 j).
Qed.

(** *** A root: its component leaves the stack *)
Section Root.
Context (Hroot : lv = iv) (pre st' : list nat) (os' : list bool).
Context (Hpop : pop_scc v (stack t) (on_stack t) = (pre ++ [v], st', os')).
Context (Hst : stack t = pre ++ v :: st') (Hlos : length os' = length (on_stack t)).
Context (Hos : forall x, x < length (on_stack t) ->
  os' !! x = if decide (x ∈ pre ++ [v]) then Some false else on_stack t !! x).

Abbreviation t2 := (emit v t1).

Lemma emit_eq : t2 = {| index := index t; low := lo; on_stack := os'; stack := st';
  next_index := next_index t; out := out t ++ [pre ++ [v]]; call := rest |}.
Proof. unfold emit. simpl. by rewrite Hpop. Qed.

Lemma emit_disj u : u ∈ pre ++ [v] -> u ∉ st'.
Proof.
  pose proof (i_nodup t Ht) as Hnd. rewrite Hst in Hnd.
  apply NoDup_app in Hnd as (Hnd & _ & _).
  apply NoDup_app in Hnd as (_ & Hd & Hnd). apply NoDup_cons in Hnd as [Hv _].
  intros [Hu| ->%list_elem_of_singleton]%elem_of_app; [|done].
  intros Hin. apply (Hd u Hu). by right.
Qed.

(** The component is the part of the stack at or above [v]. *)
Lemma emit_split u j : u ∈ stack t -> idx t u j -> (u ∈ pre ++ [v] /\ iv <= j) \/ (u ∈ st' /\ j < iv).
Proof.
  intros Hu Hj. pose proof (i_sorted t Ht) as Hs. rewrite Hst in Hs, Hu.
  apply elem_of_app in Hu as [Hu|[->|Hu]%elem_of_cons].
  - left. split; [apply elem_of_app; by left|].
    assert (later t u v) as Hl by (apply (StronglySorted_app_1_elem_of _ _ _ _ _ Hs Hu); left).
    specialize (Hl j iv Hj Hiv). lia.
  - left. split; [apply elem_of_app; right; left|].
    assert (j = iv) by (eapply idx_fun; eauto). lia.
  - right. split; [done|]. apply StronglySorted_app_1_r in Hs.
    apply StronglySorted_cons in Hs as [Hf _]. rewrite Forall_forall in Hf.
    by apply (Hf u Hu iv j).
Qed.

Lemma emit_in_stack u : u ∈ stack t <-> u ∈ pre ++ [v] \/ u ∈ st'.
Proof. rewrite Hst, !elem_of_app, elem_of_cons, list_elem_of_singleton. tauto. Qed.

Lemma emit_st_old u : u ∈ st' -> u ∈ stack t.
Proof. rewrite emit_in_stack. auto. Qed.

Lemma stack_idx u : u ∈ stack t -> exists j, idx t u j.
Proof. intros Hu. apply (i_vis t Ht). by left. Qed.

Lemma emit_st_lt u j : u ∈ st' -> idx t u j -> j < iv.
Proof.
  intros Hu Hj. destruct (emit_split u j (emit_st_old u Hu) Hj) as [[Hin _]|[_ ?]]; [|done].
  by destruct (emit_disj u Hin).
Qed.

Lemma emit_frame_st c k : (c, k) ∈ rest -> c ∈ st'.
Proof.
  intros Hk. pose proof (fin_rest_frame c k Hk) as Hf.
  apply (i_call_stack t Ht) in Hf as Hc. destruct (stack_idx c Hc) as [i Hi].
  destruct (fin_below c k i Hk Hi). destruct (emit_split c i Hc Hi) as [[_ ?]|[? _]]; [lia|done].
Qed.

Lemma emit_concat : concat (out t ++ [pre ++ [v]]) = concat (out t) ++ pre ++ [v].
Proof. rewrite concat_app. simpl. by rewrite app_nil_r. Qed.

(** Nothing below [v] is reachable from the component in one step. *)
Lemma emit_closed u w : u ∈ pre ++ [v] -> edge g u w -> w ∈ concat (out t ++ [pre ++ [v]]).
Proof.
  intros Hu (ss' & Hs & Hw). apply list_elem_of_lookup in Hw as [pos Hpos].
  assert (u ∈ stack t) as Hus by (apply emit_in_stack; auto).
  destruct (stack_idx u Hus) as [ju Hju].
  assert (iv <= ju) as Hge.
  { destruct (emit_split u ju Hus Hju) as [[_ ?]|[Hst' ?]]; [done|].
    by destruct (emit_disj u Hu). }
  assert (processed t u w) as Hp.
  { exists ss', pos. split; [done|]. split; [done|]. split; [by exists ju|].
    intros k. rewrite Hcall. intros [[= -> ->]|Hin]%elem_of_cons.
    - assert (ss' = ss) as -> by congruence. apply lookup_lt_Some in Hpos. lia.
    - destruct (fin_below u k ju Hin Hju). lia. }
  rewrite emit_concat. apply elem_of_app.
  apply (i_proc t Ht) in Hp as Hvis. apply (i_vis t Ht) in Hvis as [Hws|He]; [|by left].
  right. destruct (stack_idx w Hws) as [jw Hjw].
  assert (owner t u v) as Hov.
  { split; [apply fin_frame_v|]. split.
    - intros i j Hi Hj. assert (i = iv) by (eapply idx_fun; eauto).
      assert (j = ju) by (eapply idx_fun; eauto). lia.
    - intros c' i i' j Hf' Hi Hi' _ _. assert (i = iv) by (eapply idx_fun; eauto).
      apply fin_frame_rest in Hf' as [->|[k Hk]].
      + assert (i' = iv) by (eapply idx_fun; eauto). lia.
      + destruct (fin_below c' k i' Hk Hi'). lia. }
  pose proof (i_low_min t Ht u w v lv jw Hus Hp Hws Hov Hlv Hjw).
  destruct (emit_split w jw Hws Hjw) as [[? _]|[_ ?]]; [done|lia].
Qed.

(** The component is strongly connected through [v]. *)
Lemma emit_connected x y : x ∈ pre ++ [v] -> y ∈ pre ++ [v] -> reach g x y.
Proof.
  assert (forall u, u ∈ pre ++ [v] -> exists j, u ∈ stack t /\ idx t u j /\ iv <= j) as Hup.
  { intros u Hu. assert (u ∈ stack t) as Hus by (apply emit_in_stack; auto).
    destruct (stack_idx u Hus) as [j Hj]. exists j. split; [done|]. split; [done|].
    destruct (decide (iv <= j)) as [|Hlt]; [done|]. exfalso.
    destruct (emit_split u j Hus Hj) as [[_ ?]|[Hin _]]; [lia|].
    by destruct (emit_disj u Hu). }
  intros (jx & Hxs & Hjx & Hgx)%Hup (jy & Hys & Hjy & Hgy)%Hup.
  transitivity v.
  - destruct (i_back t Ht x Hxs) as (c & a & b & Hf & Ha & Hb & Hab & Hr).
    apply fin_frame_rest in Hf as [->|[k Hk]]; [done|].
    etrans; [exact Hr|]. by apply (fin_below c k a).
  - by apply (i_desc t Ht v y iv jy fin_frame_v).
Qed.

Lemma emit_nodup : NoDup (st' ++ concat (out t ++ [pre ++ [v]])).
Proof.
  pose proof (i_nodup t Ht) as Hnd. rewrite Hst in Hnd. rewrite emit_concat.
  assert (st' ++ concat (out t) ++ pre ++ [v] ≡ₚ (pre ++ v :: st') ++ concat (out t)) as ->;
    [|done]. solve_Permutation.
Qed.

Lemma emit_closed_prefix o1 scc o2 u w :
  out t ++ [pre ++ [v]] = o1 ++ scc :: o2 -> u ∈ scc -> edge g u w -> w ∈ concat (o1 ++ [scc]).
Proof.
  intros E Hu He. destruct o2 as [|o o2' _] using rev_ind.
  - apply app_inj_tail in E as [<- <-]. by apply (emit_closed u).
  - rewrite app_comm_cons, app_assoc in E. apply app_inj_tail in E as [E _].
    by apply (i_closed t Ht o1 scc o2' u w).
Qed.

Lemma inv_emit : inv t2.
Proof.
  rewrite emit_eq. pose proof fin_call_sorted as Hcso.
  pose proof (i_len t Ht) as (Hl1 & Hl2 & Hl3).
  split; cbn [index low on_stack stack next_index out call]; try done; try (apply Ht).
  - split; [done|]. split; [apply fin_len_lo|congruence].
  - intros x. change (visited _ x) with (visited t x). rewrite (i_vis t Ht x).
    unfold emitted. simpl. rewrite emit_concat, emit_in_stack, (elem_of_app (concat (out t))). tauto.
  - apply emit_nodup.
  - intros x Hx. rewrite Hos by lia. case_decide as Hd.
    + rewrite bool_decide_eq_false_2; [done|]. by apply emit_disj.
    + rewrite (i_os t Ht x Hx). f_equal. apply bool_decide_ext. rewrite emit_in_stack.
      split; [by intros [?|?]|by right].
  - pose proof (i_sorted t Ht) as Hs. rewrite Hst in Hs.
    apply StronglySorted_app_1_r, StronglySorted_cons in Hs as [_ Hs]. exact Hs.
  - intros c [k Hk]. by apply (emit_frame_st c k).
  - intros u w Hp. apply fin_processed in Hp; [|done|done].
    apply (i_proc t Ht) in Hp. exact Hp.
  - apply emit_closed_prefix.
  - intros c u a b [k Hk] Hu. apply (i_desc t Ht); [by eapply fin_rest_frame|by apply emit_st_old].
  - intros u Hu.
    destruct (i_back t Ht u (emit_st_old u Hu)) as (c & a & b & Hf & Ha & Hb & Hab & Hr).
    pose proof (emit_st_lt u b Hu Hb). apply fin_frame_rest in Hf as [->|[k Hk]].
    { assert (a = iv) by (eapply idx_fun; eauto). lia. }
    exists c, a, b. split; [by exists k|done].
  - intros c [k Hk].
    destruct (fin_low_of c k Hk)
      as (x & l & l' & i & Hl & Hl' & Hle' & Hor & Hx & Hxl & Hr & Hic & Hli & Hlt).
    assert (l' = l) as -> by lia. exists x, l, i. repeat split; try done.
    destruct (emit_split x l Hx Hxl) as [[_ ?]|[? _]]; [lia|done].
  - intros u w c l j Hu Hp Hw Ho Hl Hj.
    eapply (fin_low_min _ u w c l j); [| | |by apply emit_st_old|exact Hp|
      by apply emit_st_old|exact Ho|exact Hl|exact Hj]; done.
  - intros scc [Hin| ->%list_elem_of_singleton]%elem_of_app; [by apply (i_scc t Ht)|].
    split; [by destruct pre|]. apply emit_connected.
Qed.
End Root.
End Finish.

(** ** Termination measure *)

Definition deg (u : nat) : nat := length (default [] (succs g !! u)).
Definition weight (t : tarjan) (u : nat) : nat :=
  match index t !! u with Some None => S (deg u) | _ => 0 end.
Definition frame_weight (f : nat * nat) : nat := S (deg f.1 - f.2).
Definition measure (t : tarjan) : nat :=
  sum_list_with (weight t) (seq 0 N) + sum_list_with frame_weight (call t).

Lemma measure_cons t v ci rest : call t = (v, ci) :: rest ->
  measure t = sum_list_with (weight t) (seq 0 N) + S (deg v - ci) + sum_list_with frame_weight (rest).
Proof. intros E. unfold measure. rewrite E. cbn [sum_list_with]. change (frame_weight (v, ci)) with (S (deg v - ci)). lia. Qed.

Lemma measure_visit t w cs :
  index t !! w = Some None -> w < N ->
  measure (visit w cs t) = sum_list_with (weight t) (seq 0 N) + sum_list_with frame_weight (cs).
Proof.
  intros Hw HN. rewrite (measure_cons _ w 0 cs) by done. rewrite Nat.sub_0_r.
  pose proof (sum_list_update (weight t) (weight (visit w cs t)) w (seq 0 N) (NoDup_seq 0 N)) as Hs.
  ospecialize (Hs _ _).
  - apply elem_of_seq. lia.
  - intros u Hu. unfold weight. simpl. by rewrite list_lookup_insert_ne by done.
  - assert (weight (visit w cs t) w = 0) as E1.
    { unfold weight. simpl. rewrite list_lookup_insert_eq; [done|]. by eapply lookup_lt_Some. }
    assert (weight t w = S (deg w)) as E2 by (unfold weight; by rewrite Hw). lia.
Qed.

Lemma visit_visited_mono t w cs x : index t !! w = Some None -> visited t x -> visited (visit w cs t) x.
Proof.
  intros Hw [i Hi]. exists i. unfold idx in *. simpl. rewrite list_lookup_insert.
  case_decide as Hd; [|done]. destruct Hd as [<- _]. congruence.
Qed.

Lemma at_Done {A} (o : option A) a : o = Some a -> at_ o = Done a.
Proof. by intros ->. Qed.

(** What a turn of the loop guarantees. *)
Definition good (t t' : tarjan) : Prop :=
  inv t' /\ measure t' < measure t /\ (forall x, visited t x -> visited t' x).

Lemma step_edge_ok t v ci rest ss w :
  inv t -> call t = (v, ci) :: rest -> succs g !! v = Some ss -> ss !! ci = Some w ->
  exists t', step g v ci rest t = Done t' /\ good t t'.
Proof.
  intros Ht Hcall Hss Hw. pose proof (succ_lt v ss ci w Hss Hw) as HwN.
  pose proof (i_len t Ht) as (Hl1 & Hl2 & Hl3).
  assert (deg v = length ss) as Hdeg by (unfold deg; by rewrite Hss).
  pose proof (lookup_lt_Some _ _ _ Hw) as Hlt.
  unfold step. rewrite Hss. simpl. rewrite (proj2 (Nat.ltb_lt _ _)) by done. rewrite Hw. simpl.
  destruct (lookup_lt_is_Some_2 (index t) w) as [[i|] Hi]; [lia| |].
  - rewrite Hi. simpl. rewrite (i_os t Ht w) by done. simpl.
    destruct (i_low t Ht v) as (x & lv & iv & Hlv & _); [exists ci; rewrite Hcall; left|].
    assert (good t (set_low_call (new_low t v w i lv) ((v, S ci) :: rest) t)) as Hgood.
    { split; [by eapply inv_advance|]. split; [|done].
      rewrite (measure_cons t v ci rest) by done. rewrite (measure_cons _ v (S ci) rest) by done.
      change (weight (set_low_call _ _ t)) with (weight t). lia. }
    unfold new_low in Hgood. case_bool_decide.
    + rewrite Hlv. simpl. eauto.
    + eauto.
  - rewrite Hi. simpl. eexists. split; [done|].
    assert (visits t w ((v, S ci) :: rest)) as Hcs by (right; by exists v, ci, rest, ss).
    split; [by apply inv_visit|]. split.
    + rewrite measure_visit by done. rewrite (measure_cons t v ci rest) by done.
      cbn [sum_list_with]. change (frame_weight (v, S ci)) with (S (deg v - S ci)). lia.
    + intros x. by apply visit_visited_mono.
Qed.

Lemma step_finish_ok t v ci rest ss :
  inv t -> call t = (v, ci) :: rest -> succs g !! v = Some ss -> length ss <= ci ->
  exists t', step g v ci rest t = Done t' /\ good t t'.
Proof.
  intros Ht Hcall Hss Hci. unfold step. rewrite Hss. simpl.
  rewrite (proj2 (Nat.ltb_ge _ _)) by done.
  assert (frame t v) as Hfv by (exists ci; rewrite Hcall; left).
  destruct (i_low t Ht v Hfv) as (x & lv & iv & Hlv & _ & _ & _ & Hiv & _).
  assert (exists lo, match rest with
      | [] => Done (low t)
      | (p, _) :: _ => obind (at_ (low t !! p)) (fun lp => obind (at_ (low t !! v)) (fun lv0 =>
          Done (<[p := Nat.min lp lv0]> (low t))))
      end = Done lo /\
    match rest with [] => lo = low t
    | (p, _) :: _ => exists lp, low t !! p = Some lp /\ lo = <[p := Nat.min lp lv]> (low t) end)
    as (lo & Hlo1 & Hlo).
  { destruct rest as [|[p k] r]; [by exists (low t)|].
    destruct (i_low t Ht p) as (_ & lp & _ & Hlp & _); [exists k; rewrite Hcall; right; left|].
    rewrite Hlp, Hlv. simpl. eauto. }
  rewrite Hlo1. simpl.
  assert (lo !! v = Some lv) as Hlov by (by eapply fin_low_v).
  rewrite Hlov. simpl. unfold idx in Hiv. rewrite Hiv. simpl. fold (idx t v iv) in Hiv.
  assert (forall ta, index ta = index t -> call ta = rest -> measure ta < measure t) as Hm.
  { intros ta E1 E2. rewrite (measure_cons t v ci rest) by done. unfold measure. rewrite E2.
    rewrite (sum_list_ext (weight ta) (weight t)); [lia|].
    intros y. unfold weight. by rewrite E1. }
  case_bool_decide as Hd.
  - injection Hd as Hd.
    destruct (pop_scc_spec v (stack t) (on_stack t)) as (pre & st' & os' & Hpop & Hst & Hlos & Hos).
    { by apply (i_call_stack t Ht). }
    { pose proof (i_nodup t Ht) as Hnd. by apply NoDup_app in Hnd as (Hnd & _). }
    assert (inv (emit v (set_low_call lo rest t))) as Hinv.
    { eapply (inv_emit t v ci rest ss lv iv); try eassumption. done. }
    eexists. split; [done|]. split; [done|].
    unfold emit in *. simpl in *. rewrite Hpop in *. split; [by apply Hm|done].
  - eexists. split; [done|]. split; [|split; [by apply Hm|done]].
    eapply (inv_finish t v ci rest ss lv iv); try eassumption. congruence.
Qed.

Lemma step_ok t v ci rest :
  inv t -> call t = (v, ci) :: rest -> exists t', step g v ci rest t = Done t' /\ good t t'.
Proof.
  intros Ht Hcall.
  assert (v < N) as HvN.
  { destruct (proj2 (i_vis t Ht v)) as [i Hi].
    - left. apply (i_call_stack t Ht). exists ci. rewrite Hcall. left.
    - by eapply idx_lt_N. }
  destruct Hg as [Hlen _]. destruct (lookup_lt_is_Some_2 (succs g) v) as [ss Hss]; [lia|].
  destruct (ss !! ci) as [w|] eqn:Hw.
  - by eapply step_edge_ok.
  - eapply step_finish_ok; [done..|]. by apply lookup_ge_None.
Qed.

(** ** The loops *)

Definition finished (t t' : tarjan) : Prop :=
  inv t' /\ call t' = [] /\ (forall x, visited t x -> visited t' x).

Lemma inner_loop_ok fuel t :
  inv t -> measure t <= fuel -> exists t', inner_loop g fuel t = Done t' /\ finished t t'.
Proof.
  revert t. induction fuel as [|fuel IH]; intros t Ht Hm.
  - destruct (call t) as [|[v ci] rest] eqn:Hc.
    + exists t. simpl. rewrite Hc. split; [done|]. by split.
    + rewrite (measure_cons t v ci rest Hc) in Hm. lia.
  - cbn [inner_loop]. destruct (call t) as [|[v ci] rest] eqn:Hc.
    + exists t. split; [done|]. by split.
    + destruct (step_ok t v ci rest Ht Hc) as (t1 & -> & Ht1 & Hm1 & Hv1). simpl.
      destruct (IH t1 Ht1) as (t2 & Hrun & Ht2 & Hc2 & Hv2); [lia|].
      exists t2. split; [done|]. split; [done|]. split; [done|]. eauto.
Qed.

Lemma weight_total t : sum_list_with (weight t) (seq 0 N) <= tarjan_fuel g.
Proof.
  destruct Hg as [Hlen _]. unfold tarjan_fuel, edge_count.
  rewrite <- Hlen, <- sum_degrees. apply sum_list_le.
  intros u. unfold weight, deg. case_match; [case_match|]; lia.
Qed.

Lemma start_at_ok t s :
  inv t -> call t = [] -> s < N -> exists t', start_at g t s = Done t' /\ finished t t' /\ visited t' s.
Proof.
  intros Ht Hc Hs. pose proof (i_len t Ht) as (Hl & _). unfold start_at.
  destruct (lookup_lt_is_Some_2 (index t) s) as [[i|] Hi]; [lia| |]; rewrite Hi; simpl.
  - exists t. split; [done|]. split; [by split|]. by exists i.
  - assert (inv (visit s (call t) t)) as Hv by (apply inv_visit; try done; left; by rewrite Hc).
    destruct (inner_loop_ok (tarjan_fuel g) (visit s (call t) t) Hv) as (t' & Hrun & Ht' & Hc' & Hvis).
    { rewrite measure_visit by done. rewrite Hc. simpl. rewrite Nat.add_0_r. apply weight_total. }
    exists t'. split; [done|]. split.
    + split; [done|]. split; [done|]. intros x Hx. apply Hvis. by apply visit_visited_mono.
    + apply Hvis. exists (next_index t). unfold idx. simpl. apply list_lookup_insert_eq. lia.
Qed.

Lemma outer_loop_ok starts t :
  inv t -> call t = [] -> Forall (fun s => s < N) starts ->
  exists t', outer_loop g starts t = Done t' /\ finished t t'
    /\ forall s, s ∈ starts -> visited t' s.
Proof.
  intros Ht Hc Hs. revert t Ht Hc. induction Hs as [|s starts Hs _ IH]; intros t Ht Hc.
  - exists t. split; [done|]. split; [by split|]. intros s H. inversion H.
  - destruct (start_at_ok t s Ht Hc Hs) as (t1 & Hrun & (Ht1 & Hc1 & Hv1) & Hvs).
    destruct (IH t1 Ht1 Hc1) as (t2 & Hrun2 & (Ht2 & Hc2 & Hv2) & Hall).
    exists t2. cbn [outer_loop]. rewrite Hrun. simpl. split; [done|]. split.
    + split; [done|]. split; [done|]. eauto.
    + intros x [->|Hx]%elem_of_cons; eauto.
Qed.

(** The emitted components of a completed run. *)
Lemma emitted_scc t x y scc :
  inv t -> scc ∈ out t -> x ∈ scc -> (y ∈ scc <-> reach g x y /\ reach g y x).
Proof.
  intros Ht Hscc Hx. split.
  { intros Hy. split; by apply (i_scc t Ht scc). }
  assert (forall o1 o2 a b, out t = o1 ++ o2 -> a ∈ concat o1 -> reach g a b -> b ∈ concat o1) as Hcl.
  { intros o1 o2 a b E Ha Hr. revert Ha. induction Hr as [|a b c He Hr IH]; [done|].
    intros Ha. apply IH. clear IH Hr.
    apply list_elem_of_In, in_concat in Ha as (s & Hs & Ha).
    apply list_elem_of_In in Hs, Ha. apply list_elem_of_split in Hs as (p & q & ->).
    assert (b ∈ concat (p ++ [s])) as Hb.
    { apply (i_closed t Ht p s (q ++ o2) a b); [by rewrite E, <- app_assoc|done|done]. }
    rewrite concat_app in Hb |- *. rewrite elem_of_app in Hb |- *. destruct Hb as [Hb|Hb]; [by left|].
    right. simpl in Hb |- *. rewrite app_nil_r in Hb. apply elem_of_app. by left. }
  intros [Hxy Hyx]. apply list_elem_of_split in Hscc as (o1 & o2 & E).
  assert (y ∈ concat (o1 ++ [scc])) as Hy.
  { apply (Hcl (o1 ++ [scc]) o2 x y); [by rewrite <- app_assoc|..|done].
    rewrite concat_app. apply elem_of_app. right. simpl. by rewrite app_nil_r. }
  rewrite concat_app in Hy. simpl in Hy. rewrite app_nil_r in Hy.
  apply elem_of_app in Hy as [Hy|]; [|done]. exfalso.
  pose proof (Hcl o1 (scc :: o2) y x E Hy Hyx) as Hx'.
  pose proof (i_nodup t Ht) as Hnd. rewrite E, concat_app in Hnd.
  apply NoDup_app in Hnd as (_ & _ & Hnd). apply NoDup_app in Hnd as (_ & Hd & _).
  apply (Hd x Hx'). simpl. apply elem_of_app. by left.
Qed.
End Correct.

(** The specification the clients of [tarjan_sccs] use. *)
Lemma tarjan_sccs_spec (g : CfgIndex) :
  cfg_wf g ->
  exists sccs, tarjan_sccs g = Done sccs
    /\ concat sccs ≡ₚ seq 0 (length (block_eas g))
    /\ StronglySorted (fun a b => length b <= length a) sccs
    /\ forall scc, scc ∈ sccs -> scc <> [] /\
         forall x, x ∈ scc -> forall y, y ∈ scc <-> reach g x y /\ reach g y x.
Proof.
  intros Hg. unfold tarjan_sccs.
  destruct (outer_loop_ok g Hg (seq 0 (length (block_eas g))) (tarjan_init (length (block_eas g))))
    as (t & Hrun & (Ht & Hc & _) & Hall); [by apply inv_init|done| |].
  { apply Forall_forall. intros x Hx%elem_of_seq. lia. }
  rewrite Hrun. simpl. eexists. split; [done|].
  set (key := fun s : list nat => (- Z.of_nat (length s))%Z).
  assert (stack t = []) as Hst.
  { destruct (stack t) as [|u st] eqn:E; [done|].
    destruct (i_back g t Ht u) as (c & _ & _ & [k Hk] & _); [rewrite E; left|].
    rewrite Hc in Hk. inversion Hk. }
  assert (concat (out t) ≡ₚ seq 0 (length (block_eas g))) as Hperm.
  { apply NoDup_Permutation.
    - pose proof (i_nodup g t Ht) as Hnd. by rewrite Hst in Hnd.
    - apply NoDup_seq.
    - intros x. rewrite elem_of_seq. split.
      + intros Hx. destruct (proj2 (i_vis g t Ht x)) as [i Hi]; [by right|].
        apply (idx_lt_N g Hg t x i Ht) in Hi. lia.
      + intros Hx. destruct (proj1 (i_vis g t Ht x)) as [H|H]; [|by rewrite Hst in H; inversion H|done].
        apply Hall, elem_of_seq. lia. }
  split; [|split].
  - rewrite <- Hperm. apply concat_perm, sort_by_key_perm.
  - eapply StronglySorted_ext; [|apply (sort_by_key_sorted key)].
    intros a b _ _. unfold key_le, key. lia.
  - intros scc Hscc. rewrite sort_by_key_perm in Hscc. split; [by apply (i_scc g t Ht scc)|].
    intros x Hx y. by apply (emitted_scc g Hg t).
Qed.

(** C1. Tarjan's algorithm is correct: on every well-formed control-flow
    graph the iterative computation neither panics nor runs out of its fuel
    (blocks plus edges), the components it returns partition the block
    indices, come largest first, and each is exactly the class of blocks
    mutually reachable from any of its members. *)
Theorem tarjan_sccs_correct (g : CfgIndex) :
  cfg_wf g ->
  exists sccs, tarjan_sccs g = Done sccs
    /\ concat sccs ≡ₚ seq 0 (length (block_eas g))
    /\ StronglySorted (fun a b => length b <= length a) sccs
    /\ forall scc, scc ∈ sccs -> scc <> [] /\
         forall x, x ∈ scc -> forall y, y ∈ scc <-> reach g x y /\ reach g y x.
Proof. apply tarjan_sccs_spec. Qed.

Lemma tarjan_sccs_correct_witness :
  exists sccs, tarjan_sccs {| block_eas := [16; 32; 48]%Z; block_ends := [];
      succs := [[1]; [2]; [1]]; indirect := [];
      direct_calls := 0; indirect_calls := 0; switches := 0 |} = Done sccs
    /\ concat sccs ≡ₚ [0; 1; 2].
Proof.
  destruct (tarjan_sccs_correct {| block_eas := [16; 32; 48]%Z; block_ends := [];
      succs := [[1]; [2]; [1]]; indirect := [];
      direct_calls := 0; indirect_calls := 0; switches := 0 |}) as (sccs & Hrun & Hperm & _).
  - split; [reflexivity|]. cbn. repeat constructor.
  - exists sccs. split; [exact Hrun | exact Hperm].
Defined.
