(* ===== verification/Regions.v ===== *)
(** * Regions: virtual region partitioning of a control-flow graph

    Models [rmcp-broker/src/regions.rs].  The partition is built in three
    phases: a region per multi-block strongly connected component, bounded
    linear chunks over the remaining blocks, and the region graph read off
    the block edges.  [BTreeMap]s are [gmap]s; the source's [loop_of_block]
    map is written but never read and has no counterpart here. *)

From stdpp Require Import base list gmap strings sorting.
From Stdlib Require Import ZArith Lia.
From S2P Require Import Prelude Text Cfg Tarjan.

Local Open Scope rmcp_scope.

Inductive RegionRole := Loop | Dispatcher | Chunk.

#[global] Instance RegionRole_eq_dec : EqDecision RegionRole.
Proof. solve_decision. Defined.

Record Region := {
  region_id : string;
  role : RegionRole;
  region_eas : list Z;
  block_ids : list nat;
  entry_blocks : list Z;
  exit_blocks : list Z;
  pred_regions : list string;
  succ_regions : list string;
  partition_reason : string;
}.

Record Partition := {
  version : Z;
  function_ea : Z;
  regions : list Region;
  block_region : gmap nat string;
  diagnostics : list string;
}.

Record PartitionOptions := {
  max_chunk_blocks : nat;
  min_dispatcher_scc : nat;
}.

Definition PartitionOptions_default : PartitionOptions :=
  {| max_chunk_blocks := 64; min_dispatcher_scc := 8 |}.

Definition show_nat (k : nat) : string := show_dec (Z.of_nat k).

(** ** Standard library *)

(** [slice::chunks(k)]; panics for [k = 0]. *)
Fixpoint chunks_fuel {A} (fuel k : nat) (l : list A) : list (list A) :=
  match fuel with
  | O => []
  | S fuel' => match l with [] => [] | _ => take k l :: chunks_fuel fuel' k (drop k l) end
  end.
Definition chunks {A} (k : nat) (l : list A) : outcome (list (list A)) :=
  match k with O => Panic | _ => Done (chunks_fuel (length l) k l) end.

(** [sort] on strings (byte order). *)
Fixpoint insert_str (x : string) (l : list string) : list string :=
  match l with
  | [] => [x]
  | y :: l' => if String.leb x y then x :: y :: l' else y :: insert_str x l'
  end.
Definition sort_str (l : list string) : list string := foldr insert_str [] l.

Definition dedup_sorted (v : list string) : list string := dedup (sort_str v).

(** Apply a partial operation to each element. *)
Fixpoint mapO {A B} (f : A -> outcome B) (l : list A) : outcome (list B) :=
  match l with
  | [] => Done []
  | x :: l' => y <~ f x; ys <~ mapO f l'; Done (y :: ys)
  end.

(** ** Entry and exit blocks of a set of blocks *)

Definition external_pred (g : CfgIndex) (blocks : list nat) (b : nat) : bool :=
  existsb (fun pss => negb (bool_decide (pss.1 ∈ blocks)) && bool_decide (b ∈ pss.2))
    (imap pair (succs g)).

(** The loop body: is [b] an entry, is it an exit. *)
Definition entry_exit_of (g : CfgIndex) (blocks : list nat) (b : nat) : outcome (bool * bool) :=
  ss <~ at_ (succs g !! b);
  let ext := external_pred g blocks b in
  let has_external_succ := existsb (fun s => negb (bool_decide (s ∈ blocks))) ss in
  let internal_succ := existsb (fun s => bool_decide (s ∈ blocks)) ss in
  let isolated := negb internal_succ && negb ext in
  Done (ext || isolated || (length blocks =? 1)%nat,
        has_external_succ || match ss with [] => true | _ => false end).

Definition entry_exit_blocks (g : CfgIndex) (blocks : list nat) : outcome (list Z * list Z) :=
  rows <~ mapO (fun b => ee <~ entry_exit_of g blocks b; ea <~ at_ (block_eas g !! b);
                         Done (ea, ee.1, ee.2)) blocks;
  let entry := (fun r => r.1.1) <$> filter (fun r => r.1.2 = true) rows in
  let exit := (fun r => r.1.1) <$> filter (fun r => r.2 = true) rows in
  Done (sort_by_key id entry, sort_by_key id exit).

(** ** Phases 1 and 2 *)

Record building := {
  counter : nat;
  built : list Region;
  owner_of : gmap nat string;
}.

(** The common tail of both loops: [next_id()], the [block_region] inserts,
    the entry and exit blocks, the new region. *)
Definition add_region (g : CfgIndex) (ro : RegionRole) (bs : list nat) (reason : string)
    (st : building) : outcome building :=
  let id := "R" +:+ show_nat (S (counter st)) in
  let br := foldl (fun m b => <[b := id]> m) (owner_of st) bs in
  ee <~ entry_exit_blocks g bs;
  eas <~ mapO (fun b => at_ (block_eas g !! b)) bs;
  Done {| counter := S (counter st);
          built := built st ++ [{| region_id := id; role := ro; region_eas := eas; block_ids := bs;
                                   entry_blocks := ee.1; exit_blocks := ee.2;
                                   pred_regions := []; succ_regions := [];
                                   partition_reason := reason |}];
          owner_of := br |}.

Fixpoint add_loops (g : CfgIndex) (opts : PartitionOptions) (sccs : list (list nat))
    (st : building) : outcome building :=
  match sccs with
  | [] => Done st
  | scc :: rest =>
      if (length scc <=? 1)%nat then add_loops g opts rest st
      else
        let blocks_sorted := sort_by_key Z.of_nat scc in
        let ro := if (min_dispatcher_scc opts <=? length scc)%nat then Dispatcher else Loop in
        st' <~ add_region g ro blocks_sorted
          ("SCC of " +:+ show_nat (length scc) +:+ " blocks (loop/dispatcher structure)") st;
        add_loops g opts rest st'
  end.

Fixpoint add_chunks (g : CfgIndex) (cs : list (list nat)) (st : building) : outcome building :=
  match cs with
  | [] => Done st
  | c :: rest =>
      st' <~ add_region g Chunk c
        ("linear chunk of " +:+ show_nat (length c) +:+ " blocks (fallback bucketing)") st;
      add_chunks g rest st'
  end.

(** [in_loop]: the blocks of multi-block components. *)
Definition in_loop (k : nat) (sccs : list (list nat)) : list bool :=
  foldl (fun v b => <[b := true]> v) (replicate k false)
    (concat (filter (fun s => (1 < length s)%nat) sccs)).

(** ** Phase 3: the region graph *)

Record region_edges := { pred : gmap string (list string); succ : gmap string (list string) }.

Definition push_edge (m : gmap string (list string)) (k v : string) : gmap string (list string) :=
  <[k := default [] (m !! k) ++ [v]]> m.

Definition add_edge (br : gmap nat string) (rb : string) (s : nat) (e : region_edges) : region_edges :=
  match br !! s with
  | None => e
  | Some rs =>
      if bool_decide (rs = rb) then e
      else {| succ := push_edge (succ e) rb rs; pred := push_edge (pred e) rs rb |}
  end.

Fixpoint cross_edges (g : CfgIndex) (br : gmap nat string) (bs : list nat) (e : region_edges)
  : outcome region_edges :=
  match bs with
  | [] => Done e
  | b :: rest =>
      match br !! b with
      | None => cross_edges g br rest e
      | Some rb =>
          ss <~ at_ (succs g !! b);
          cross_edges g br rest (foldl (fun e s => add_edge br rb s e) e ss)
      end
  end.

Definition link (e : region_edges) (r : Region) : Region := {|
  region_id := region_id r; role := role r; region_eas := region_eas r; block_ids := block_ids r;
  entry_blocks := entry_blocks r; exit_blocks := exit_blocks r;
  pred_regions := match pred e !! region_id r with
                  | Some ps => dedup_sorted ps | None => pred_regions r end;
  succ_regions := match succ e !! region_id r with
                  | Some ss => dedup_sorted ss | None => succ_regions r end;
  partition_reason := partition_reason r;
|}.

Definition count_role (p : RegionRole -> bool) (rs : list Region) : nat :=
  length (filter (fun r => p (role r) = true) rs).

(** ** [partition] *)

Definition partition (g : CfgIndex) (opts : PartitionOptions) : outcome Partition :=
  let k := length (block_eas g) in
  sccs <~ tarjan_sccs g;
  let flags := in_loop k sccs in
  st1 <~ add_loops g opts sccs {| counter := 0; built := []; owner_of := ∅ |};
  let singles := filter (fun b => flags !! b = Some false) (seq 0 k) in
  cs <~ chunks (max_chunk_blocks opts) singles;
  st2 <~ add_chunks g cs st1;
  e <~ cross_edges g (owner_of st2) (seq 0 k) {| pred := ∅; succ := ∅ |};
  let rs := link e <$> built st2 in
  Done {| version := 1;
          function_ea := default 0%Z (head (block_eas g));
          regions := rs;
          block_region := owner_of st2;
          diagnostics := [show_nat (length rs) +:+ " regions from " +:+ show_nat k +:+ " blocks ("
            +:+ show_nat (count_role (fun x => negb (bool_decide (x = Chunk))) rs)
            +:+ " loop/dispatcher, "
            +:+ show_nat (count_role (fun x => bool_decide (x = Chunk)) rs) +:+ " chunks)"] |}.

Definition example_cfg : CfgIndex := {| block_eas := [16; 32; 48; 64]%Z; block_ends := [];
  succs := [[1]; [2; 3]; [1]; []]; indirect := [];
  direct_calls := 0; indirect_calls := 0; switches := 0 |}.

Example partition_example :
  match partition example_cfg PartitionOptions_default with
  | Done p => (fun r => (region_id r, role r, block_ids r, succ_regions r)) <$> regions p
      = [("R1", Loop, [1; 2], ["R2"]); ("R2", Chunk, [0; 3], ["R1"])]
  | _ => False
  end.
Proof. vm_compute. reflexivity. Qed.

(** ** Lemmas: standard library *)

Lemma mapO_Done {A B} (f : A -> outcome B) (h : A -> B) l :
  (forall x, x ∈ l -> f x = Done (h x)) -> mapO f l = Done (h <$> l).
Proof.
  induction l as [|x l IH]; intros Hf; [done|]. simpl. rewrite Hf by left. simpl.
  rewrite IH; [done|]. intros y Hy. apply Hf. by right.
Qed.

Lemma mapO_total {A B} (f : A -> outcome B) l :
  (forall x, x ∈ l -> exists y, f x = Done y) -> exists ys, mapO f l = Done ys.
Proof.
  induction l as [|x l IH]; intros Hf; [by exists []|]. simpl.
  destruct (Hf x) as [y ->]; [left|]. destruct IH as [ys ->].
  - intros z Hz. apply Hf. by right.
  - simpl. eauto.
Qed.

Lemma concat_chunks_fuel {A} fuel k (l : list A) :
  length l <= fuel -> k <> 0 ->
  concat (chunks_fuel fuel k l) = l
  /\ Forall (fun c => 0 < length c <= k) (chunks_fuel fuel k l).
Proof.
  revert l. induction fuel as [|fuel IH]; intros l Hl Hk.
  - destruct l; [|simpl in Hl; lia]. simpl. auto.
  - destruct l as [|x l]; [simpl; auto|]. cbn [chunks_fuel].
    destruct (IH (drop k (x :: l))) as [Hc Hf]; [|done|].
    { rewrite length_drop. simpl in *. lia. }
    split.
    + cbn [concat]. rewrite Hc. apply take_drop.
    + constructor; [|done]. rewrite length_take. simpl. lia.
Qed.

Lemma sort_str_perm l : sort_str l ≡ₚ l.
Proof.
  assert (forall x l, insert_str x l ≡ₚ x :: l) as Hi.
  { intros x. induction l0 as [|y l0 IH]; simpl; [done|]. destruct (String.leb x y); [done|].
    rewrite IH. constructor. }
  induction l as [|x l IH]; simpl; [done|]. by rewrite Hi, IH.
Qed.

Lemma elem_of_dedup_sorted x l : x ∈ dedup_sorted l <-> x ∈ l.
Proof. unfold dedup_sorted. by rewrite elem_of_dedup, sort_str_perm. Qed.

Lemma existsb_elem_of (l : list nat) (P : nat -> Prop) `{!forall x, Decision (P x)} :
  existsb (fun s => bool_decide (P s)) l = true <-> exists s, s ∈ l /\ P s.
Proof.
  rewrite existsb_exists. split; intros (s & H1 & H2); exists s.
  - apply list_elem_of_In in H1. by apply bool_decide_eq_true in H2.
  - apply list_elem_of_In in H1. by rewrite bool_decide_true.
Qed.

Lemma existsb_elem_of_neg (l : list nat) (P : nat -> Prop) `{!forall x, Decision (P x)} :
  existsb (fun s => negb (bool_decide (P s))) l = true <-> exists s, s ∈ l /\ ~ P s.
Proof.
  rewrite existsb_exists. split; intros (s & H1 & H2); exists s.
  - apply list_elem_of_In in H1. by apply negb_true_iff, bool_decide_eq_false in H2.
  - apply list_elem_of_In in H1. by rewrite bool_decide_false.
Qed.

Lemma external_pred_spec g blocks b :
  external_pred g blocks b = true <-> exists p, p ∉ blocks /\ edge g p b.
Proof.
  unfold external_pred. rewrite existsb_exists. split.
  - intros ([p ss] & Hin & [Hn%negb_true_iff Hb]%andb_true_iff).
    apply list_elem_of_In, elem_of_lookup_imap in Hin as (i & y & [= -> ->] & Hi).
    exists i. split; [by apply bool_decide_eq_false in Hn|]. exists y.
    split; [done|]. by apply bool_decide_eq_true in Hb.
  - intros (p & Hn & ss & Hss & Hb). exists (p, ss). split.
    + apply list_elem_of_In, elem_of_lookup_imap. eauto.
    + simpl. by rewrite bool_decide_false, bool_decide_true.
Qed.

(** ** Lemmas: the two construction loops add one region per group *)

Definition rid (k : nat) : string := "R" +:+ show_nat (S k).

Lemma rid_inj j k :
  (Z.of_nat (S j) < u64_modulus)%Z -> (Z.of_nat (S k) < u64_modulus)%Z -> rid j = rid k -> j = k.
Proof.
  unfold rid, show_nat. intros Hj Hk E. apply (f_equal (strip_prefix "R")) in E.
  rewrite !strip_prefix_app in E. injection E as E.
  apply show_dec_inj in E; unfold is_u64 in *; lia.
Qed.

Section Build.
Context (g : CfgIndex) (Hg : cfg_wf g).

Definition group : Type := RegionRole * list nat * string.

Fixpoint add_all (gs : list group) (st : building) : outcome building :=
  match gs with
  | [] => Done st
  | (ro, bs, reason) :: rest => st' <~ add_region g ro bs reason st; add_all rest st'
  end.

Definition loop_groups (opts : PartitionOptions) (sccs : list (list nat)) : list group :=
  (fun scc => (if (min_dispatcher_scc opts <=? length scc)%nat then Dispatcher else Loop,
               sort_by_key Z.of_nat scc,
               "SCC of " +:+ show_nat (length scc) +:+ " blocks (loop/dispatcher structure)"))
  <$> filter (fun s => (1 < length s)%nat) sccs.

Definition chunk_groups (cs : list (list nat)) : list group :=
  (fun c => (Chunk, c, "linear chunk of " +:+ show_nat (length c) +:+ " blocks (fallback bucketing)"))
  <$> cs.

Lemma add_loops_all opts sccs st : add_loops g opts sccs st = add_all (loop_groups opts sccs) st.
Proof using Type.
  revert st. induction sccs as [|scc sccs IH]; intros st; [done|]. cbn [add_loops].
  unfold loop_groups. rewrite filter_cons. destruct (Nat.leb_spec (length scc) 1).
  - rewrite decide_False by lia. apply IH.
  - rewrite decide_True by lia. cbn [fmap list_fmap add_all].
    destruct (add_region g _ _ _ st); try done. apply IH.
Qed.

Lemma add_chunks_all cs st : add_chunks g cs st = add_all (chunk_groups cs) st.
Proof using Type.
  revert st. induction cs as [|c cs IH]; intros st; [done|].
  cbn [add_chunks chunk_groups fmap list_fmap add_all].
  destruct (add_region g _ _ _ st); try done. apply IH.
Qed.

Lemma add_all_app gs1 gs2 st :
  add_all (gs1 ++ gs2) st = (st' <~ add_all gs1 st; add_all gs2 st').
Proof using Type.
  revert st. induction gs1 as [|[[ro bs] rs] gs1 IH]; intros st; [done|]. cbn [add_all app].
  destruct (add_region g ro bs rs st); try done. apply IH.
Qed.

(** A region as it is first built: where it comes from. *)
Definition ea_of (b : nat) : Z := default 0%Z (block_eas g !! b).

Definition built_from (k : nat) (gr : group) (r : Region) : Prop :=
  region_id r = rid k /\ role r = gr.1.1 /\ block_ids r = gr.1.2 /\ partition_reason r = gr.2
  /\ region_eas r = ea_of <$> gr.1.2
  /\ pred_regions r = [] /\ succ_regions r = [].

Definition in_range (bs : list nat) : Prop := forall b, b ∈ bs -> b < length (block_eas g).

Lemma entry_exit_ok bs : in_range bs -> exists ee, entry_exit_blocks g bs = Done ee.
Proof using Hg.
  intros Hr. destruct Hg as [Hlen _]. unfold entry_exit_blocks.
  assert (forall b, b ∈ bs -> exists row, (ee <~ entry_exit_of g bs b; ea <~ at_ (block_eas g !! b);
                       Done (ea, ee.1, ee.2)) = Done row) as Hrow.
  { intros b Hb%Hr. destruct (lookup_lt_is_Some_2 (block_eas g) b Hb) as [ea Hea].
    destruct (lookup_lt_is_Some_2 (succs g) b) as [ss Hss]; [lia|].
    unfold entry_exit_of. rewrite Hss, Hea. simpl. eauto. }
  assert (exists rows, mapO (fun b => ee <~ entry_exit_of g bs b; ea <~ at_ (block_eas g !! b);
                       Done (ea, ee.1, ee.2)) bs = Done rows) as [rows ->]; [|simpl; eauto].
  by apply mapO_total.
Qed.

Lemma eas_ok bs : in_range bs -> mapO (fun b => at_ (block_eas g !! b)) bs = Done (ea_of <$> bs).
Proof using Type.
  intros Hr. apply mapO_Done.
  intros b Hb%Hr. unfold ea_of. by destruct (lookup_lt_is_Some_2 (block_eas g) b Hb) as [ea ->].
Qed.

Lemma foldl_insert_lookup (bs : list nat) (id : string) (m : gmap nat string) b :
  foldl (fun m b => <[b := id]> m) m bs !! b = if decide (b ∈ bs) then Some id else m !! b.
Proof using Type.
  revert m. induction bs as [|x bs IH]; intros m.
  { cbn [foldl]. rewrite decide_False; [done|]. apply not_elem_of_nil. }
  cbn [foldl]. rewrite IH. destruct (decide (b ∈ bs)) as [Hb|Hb].
  - by rewrite decide_True by (by right).
  - rewrite lookup_insert. destruct (decide (x = b)) as [->|Hne].
    + by rewrite decide_True by left.
    + rewrite decide_False; [done|]. intros [|]%elem_of_cons; congruence.
Qed.

Lemma add_region_ok ro bs reason st : in_range bs ->
  exists r, add_region g ro bs reason st = Done {| counter := S (counter st);
      built := built st ++ [r];
      owner_of := foldl (fun m b => <[b := rid (counter st)]> m) (owner_of st) bs |}
    /\ built_from (counter st) (ro, bs, reason) r.
Proof using Hg.
  intros Hr. unfold add_region. destruct (entry_exit_ok bs Hr) as [ee ->]. simpl.
  rewrite (eas_ok bs Hr). simpl. eexists. split; [done|]. by repeat split.
Qed.

(** All groups, from state [st]: the regions, and who owns which block. *)
Lemma add_all_ok gs st :
  Forall (fun gr : group => in_range gr.1.2) gs ->
  exists st', add_all gs st = Done st'
    /\ counter st' = counter st + length gs
    /\ (exists rs, built st' = built st ++ rs /\ length rs = length gs
         /\ forall i gr r, gs !! i = Some gr -> rs !! i = Some r -> built_from (counter st + i) gr r)
    /\ (forall b, (forall i gr, gs !! i = Some gr -> b ∉ gr.1.2) -> owner_of st' !! b = owner_of st !! b)
    /\ (NoDup (concat ((fun gr : group => gr.1.2) <$> gs)) ->
        forall i gr b, gs !! i = Some gr -> b ∈ gr.1.2 ->
          owner_of st' !! b = Some (rid (counter st + i))).
Proof using Hg.
  intros Hf. revert st. induction Hf as [|[[ro bs] reason] gs Hbs Hf IH]; intros st.
  { exists st. simpl. split; [done|]. split; [lia|]. split; [|done].
    exists []. rewrite app_nil_r. done. }
  destruct (add_region_ok ro bs reason st Hbs) as (r & Hadd & Hr).
  cbn [add_all]. rewrite Hadd. simpl.
  destruct (IH {| counter := S (counter st); built := built st ++ [r];
      owner_of := foldl (fun m b => <[b := rid (counter st)]> m) (owner_of st) bs |})
    as (st' & Hrun & Hc & (rs & Hb & Hl & Hrs) & Hout & Hin).
  simpl in *. exists st'. split; [done|]. split; [lia|]. split; [|split].
  - exists (r :: rs). rewrite Hb, <- app_assoc. split; [done|]. split; [simpl; lia|].
    intros [|i] gr r' Hgr Hr'; simplify_eq/=.
    + by rewrite Nat.add_0_r.
    + rewrite Nat.add_succ_r. by apply Hrs.
  - intros b Hb'. rewrite Hout.
    + rewrite foldl_insert_lookup, decide_False; [done|]. apply (Hb' 0 (ro, bs, reason)). done.
    + intros i gr Hgr. by apply (Hb' (S i)).
  - intros (Hnd1 & Hd & Hnd2)%NoDup_app [|i] gr b Hgr Hin'; simplify_eq/=.
    + rewrite Hout.
      * rewrite foldl_insert_lookup, decide_True by done. by rewrite Nat.add_0_r.
      * intros i gr Hgr Hb2. apply (Hd b Hin'). apply list_elem_of_In, in_concat.
        exists gr.1.2. split; [|by apply list_elem_of_In].
        apply list_elem_of_In, list_elem_of_fmap. exists gr. split; [done|].
        by eapply list_elem_of_lookup_2.
    + rewrite Nat.add_succ_r. by apply (Hin Hnd2 i gr).
Qed.
End Build.

(** ** Lemmas: the region graph *)

Definition crosses (g : CfgIndex) (br : gmap nat string) (bs : list nat) (rb rs : string) : Prop :=
  exists b s, b ∈ bs /\ edge g b s /\ br !! b = Some rb /\ br !! s = Some rs /\ rs <> rb.

Lemma elem_push_edge m k v k' v' :
  v' ∈ default [] (push_edge m k v !! k') <-> v' ∈ default [] (m !! k') \/ (k' = k /\ v' = v).
Proof.
  unfold push_edge. rewrite lookup_insert. destruct (decide (k = k')) as [->|Hne]; simpl.
  - rewrite elem_of_app, list_elem_of_singleton. intuition congruence.
  - intuition congruence.
Qed.

Lemma foldl_add_edge br rb ss e :
  let e' := foldl (fun e s => add_edge br rb s e) e ss in
  (forall k v, v ∈ default [] (succ e' !! k) <-> v ∈ default [] (succ e !! k)
     \/ (k = rb /\ v <> rb /\ exists s, s ∈ ss /\ br !! s = Some v))
  /\ (forall k v, v ∈ default [] (pred e' !! k) <-> v ∈ default [] (pred e !! k)
     \/ (v = rb /\ k <> rb /\ exists s, s ∈ ss /\ br !! s = Some k)).
Proof.
  revert e. induction ss as [|s ss IH]; intros e; cbn [foldl].
  { split; intros k v; (split; [by left|intros [?|(_ & _ & s & H & _)]; [done|inversion H]]). }
  destruct (IH (add_edge br rb s e)) as [H1 H2]. clear IH. cbv zeta in *.
  assert (forall k v, (v ∈ default [] (succ (add_edge br rb s e) !! k) <->
      v ∈ default [] (succ e !! k) \/ (k = rb /\ v <> rb /\ br !! s = Some v))
    /\ (v ∈ default [] (pred (add_edge br rb s e) !! k) <->
      v ∈ default [] (pred e !! k) \/ (v = rb /\ k <> rb /\ br !! s = Some k))) as Hadd.
  { intros k v. unfold add_edge. destruct (br !! s) as [rs|]; [|split; naive_solver].
    case_bool_decide; cbn [succ pred]; [split; naive_solver|].
    rewrite !elem_push_edge. split; naive_solver. }
  setoid_rewrite elem_of_cons.
  split; intros k v; [rewrite H1, (proj1 (Hadd k v))|rewrite H2, (proj2 (Hadd k v))]; naive_solver.
Qed.

Lemma cross_edges_ok g br bs e :
  (forall b, b ∈ bs -> is_Some (succs g !! b)) ->
  exists e', cross_edges g br bs e = Done e'
    /\ (forall k v, v ∈ default [] (succ e' !! k) <->
          v ∈ default [] (succ e !! k) \/ crosses g br bs k v)
    /\ (forall k v, v ∈ default [] (pred e' !! k) <->
          v ∈ default [] (pred e !! k) \/ crosses g br bs v k).
Proof.
  revert e. induction bs as [|b bs IH]; intros e Hbs.
  { exists e. split; [done|]. split; intros k v;
      (split; [by left|intros [?|(b & s & H & _)]; [done|inversion H]]). }
  assert (forall b', b' ∈ bs -> is_Some (succs g !! b')) as Hbs' by (intros; apply Hbs; by right).
  assert (forall k v, crosses g br (b :: bs) k v <-> crosses g br bs k v
    \/ exists s, edge g b s /\ br !! b = Some k /\ br !! s = Some v /\ v <> k) as Hcr.
  { intros k v. unfold crosses. setoid_rewrite elem_of_cons. naive_solver. }
  cbn [cross_edges]. destruct (br !! b) as [rb|] eqn:Hb.
  - destruct (Hbs b) as [ss Hss]; [left|]. rewrite Hss. simpl.
    destruct (IH (foldl (fun e s => add_edge br rb s e) e ss) Hbs') as (e' & -> & H1 & H2).
    destruct (foldl_add_edge br rb ss e) as [F1 F2]. cbv zeta in *.
    assert (forall s, edge g b s <-> s ∈ ss) as He.
    { intros s. unfold edge. rewrite Hss. naive_solver. }
    exists e'. split; [done|]. setoid_rewrite Hcr. setoid_rewrite He.
    split; intros k v; [rewrite H1, F1|rewrite H2, F2]; naive_solver.
  - destruct (IH e Hbs') as (e' & -> & H1 & H2). exists e'. split; [done|].
    setoid_rewrite Hcr. split; intros k v; [rewrite H1|rewrite H2]; naive_solver.
Qed.

Lemma link_succ e r x :
  succ_regions r = [] -> (x ∈ succ_regions (link e r) <-> x ∈ default [] (succ e !! region_id r)).
Proof.
  intros Hr. simpl. destruct (succ e !! region_id r); simpl; [apply elem_of_dedup_sorted|].
  by rewrite Hr.
Qed.

Lemma link_pred e r x :
  pred_regions r = [] -> (x ∈ pred_regions (link e r) <-> x ∈ default [] (pred e !! region_id r)).
Proof.
  intros Hr. simpl. destruct (pred e !! region_id r); simpl; [apply elem_of_dedup_sorted|].
  by rewrite Hr.
Qed.

(** ** Lemmas: the groups partition the blocks *)

Lemma foldl_insert_true (bs : list nat) (v : list bool) b :
  foldl (fun v b => <[b := true]> v) v bs !! b =
    if decide (b ∈ bs /\ b < length v) then Some true else v !! b.
Proof.
  revert v. induction bs as [|x bs IH]; intros v.
  { cbn [foldl]. rewrite decide_False; [done|]. intros [H _]. inversion H. }
  cbn [foldl]. rewrite IH, length_insert, list_lookup_insert.
  destruct (decide (b ∈ bs /\ b < length v)) as [Hd|Hd].
  - rewrite decide_True; [done|]. destruct Hd. split; [by right|done].
  - destruct (decide (x = b /\ x < length v)) as [[-> Hx]|Hx].
    + rewrite decide_True; [done|]. split; [left|done].
    + rewrite decide_False; [done|]. intros [[->|H]%elem_of_cons Hl]; tauto.
Qed.

Lemma in_loop_lookup k sccs b : b < k ->
  in_loop k sccs !! b
  = Some (bool_decide (b ∈ concat (filter (fun s => (1 < length s)%nat) sccs))).
Proof.
  intros Hb. unfold in_loop. rewrite foldl_insert_true, length_replicate.
  rewrite lookup_replicate_2 by done. case_decide as Hd.
  - by rewrite bool_decide_eq_true_2 by tauto.
  - rewrite bool_decide_eq_false_2; [done|]. tauto.
Qed.

Section Groups.
Context (g : CfgIndex) (opts : PartitionOptions) (sccs cs : list (list nat)).
Abbreviation K := (length (block_eas g)).
Context (Hperm : concat sccs ≡ₚ seq 0 K).
Abbreviation loops := (filter (fun s => (1 < length s)%nat) sccs).
Abbreviation singles := (filter (fun b => in_loop K sccs !! b = Some false) (seq 0 K)).
Context (Hcs : concat cs = singles).

Definition groups : list group := loop_groups opts sccs ++ chunk_groups cs.

Lemma concat_filter_sublist (l : list (list nat)) :
  sublist (concat (filter (fun s => (1 < length s)%nat) l)) (concat l).
Proof using Type.
  induction l as [|s l IH]; [done|]. rewrite filter_cons. case_decide; simpl.
  - by apply sublist_app.
  - by apply sublist_inserts_l.
Qed.

Lemma groups_blocks : concat ((fun gr : group => gr.1.2) <$> groups) ≡ₚ concat loops ++ singles.
Proof using Hcs.
  unfold groups. rewrite fmap_app, concat_app. apply Permutation_app.
  - unfold loop_groups. rewrite <- list_fmap_compose. generalize loops as l.
    induction l as [|s l IH]; [done|]. rewrite fmap_cons. simpl. f_equiv; [|exact IH].
    apply sort_by_key_perm.
  - unfold chunk_groups. rewrite <- list_fmap_compose, <- Hcs.
    by rewrite (list_fmap_ext _ id), list_fmap_id.
Qed.

Lemma groups_perm : concat ((fun gr : group => gr.1.2) <$> groups) ≡ₚ seq 0 K.
Proof using Hperm Hcs.
  rewrite groups_blocks.
  assert (NoDup (concat sccs)) as Hnd by (rewrite Hperm; apply NoDup_seq).
  apply NoDup_Permutation; [|apply NoDup_seq|].
  - apply NoDup_app. split; [by eapply sublist_NoDup, concat_filter_sublist|]. split.
    + intros b Hb (Hs & Hin)%list_elem_of_filter. apply elem_of_seq in Hin.
      rewrite in_loop_lookup in Hs by lia. injection Hs as Hs.
      by apply bool_decide_eq_false_1 in Hs.
    + apply NoDup_filter, NoDup_seq.
  - intros b. rewrite elem_of_app, list_elem_of_filter. split.
    + intros [Hb|[_ Hb]]; [|done]. rewrite <- Hperm.
      eapply elem_of_sublist; [done|apply concat_filter_sublist].
    + intros Hb. destruct (decide (b ∈ concat loops)) as [|Hn]; [by left|]. right.
      split; [|done]. apply elem_of_seq in Hb. rewrite in_loop_lookup by lia.
      by rewrite bool_decide_eq_false_2.
Qed.
End Groups.

Lemma elem_of_groups (gs : list group) b :
  b ∈ concat ((fun gr : group => gr.1.2) <$> gs) <-> exists i gr, gs !! i = Some gr /\ b ∈ gr.1.2.
Proof.
  rewrite list_elem_of_In, in_concat. split.
  - intros (l & Hl & Hb). apply list_elem_of_In, list_elem_of_fmap in Hl as (gr & -> & Hgr).
    apply list_elem_of_lookup in Hgr as [i Hi]. exists i, gr. split; [done|].
    by apply list_elem_of_In.
  - intros (i & gr & Hi & Hb). exists gr.1.2. split; [|by apply list_elem_of_In].
    apply list_elem_of_In, list_elem_of_fmap. exists gr. split; [done|].
    by eapply list_elem_of_lookup_2.
Qed.

(** Everything [partition] computes, in terms of the components and the
    groups. *)
Lemma partition_spec g opts :
  cfg_wf g -> max_chunk_blocks opts <> 0 ->
  exists p sccs cs e rs,
    partition g opts = Done p
    /\ tarjan_sccs g = Done sccs
    /\ Forall (fun c => 0 < length c <= max_chunk_blocks opts) cs
    /\ concat ((fun gr : group => gr.1.2) <$> groups opts sccs cs) ≡ₚ seq 0 (length (block_eas g))
    /\ length rs = length (groups opts sccs cs)
    /\ (forall i gr r, groups opts sccs cs !! i = Some gr -> rs !! i = Some r -> built_from g i gr r)
    /\ regions p = link e <$> rs
    /\ (forall i gr b, groups opts sccs cs !! i = Some gr -> b ∈ gr.1.2 ->
          block_region p !! b = Some (rid i))
    /\ (forall b x, block_region p !! b = Some x ->
          exists i gr, groups opts sccs cs !! i = Some gr /\ b ∈ gr.1.2)
    /\ (forall k v, v ∈ default [] (succ e !! k) <->
          crosses g (block_region p) (seq 0 (length (block_eas g))) k v)
    /\ (forall k v, v ∈ default [] (pred e !! k) <->
          crosses g (block_region p) (seq 0 (length (block_eas g))) v k).
Proof.
  intros Hg Hk. destruct (tarjan_sccs_spec g Hg) as (sccs & Hrun & Hperm & _ & _).
  unfold partition. rewrite Hrun. simpl.
  set (singles := filter _ (seq 0 _)).
  destruct (concat_chunks_fuel (length singles) (max_chunk_blocks opts) singles) as [Hcs Hf]; [done..|].
  set (cs := chunks_fuel (length singles) (max_chunk_blocks opts) singles) in *.
  assert (chunks (max_chunk_blocks opts) singles = Done cs) as Hch.
  { unfold chunks. by destruct (max_chunk_blocks opts). }
  pose proof (groups_perm g opts sccs cs Hperm Hcs) as Hgp.
  destruct (add_all_ok g Hg (groups opts sccs cs) {| counter := 0; built := []; owner_of := ∅ |})
    as (st & Hadd & _ & (rs & Hb & Hl & Hrs) & Hout & Hown).
  { apply Forall_forall. intros gr Hgr b Hb.
    assert (b ∈ seq 0 (length (block_eas g))) as Hin%elem_of_seq; [|lia].
    rewrite <- Hgp. apply list_elem_of_In, in_concat. exists gr.1.2.
    split; [|by apply list_elem_of_In]. apply list_elem_of_In, list_elem_of_fmap. eauto. }
  unfold groups in Hadd. rewrite add_all_app in Hadd.
  rewrite <- add_loops_all in Hadd.
  destruct (add_loops g opts sccs _) as [st1| |] eqn:Hst1; try done. simpl in Hadd |- *.
  rewrite Hch. simpl. rewrite add_chunks_all, Hadd. simpl.
  destruct (cross_edges_ok g (owner_of st) (seq 0 (length (block_eas g))) {| pred := ∅; succ := ∅ |})
    as (e & -> & He1 & He2).
  { intros b Hb'%elem_of_seq. apply lookup_lt_is_Some. destruct Hg. lia. }
  simpl in *. eexists _, sccs, cs, e, rs. split; [done|]. simpl.
  split; [done|]. split; [done|]. split; [done|]. split; [done|]. split; [done|].
  split; [by rewrite Hb|]. split.
  { apply Hown. rewrite Hgp. apply NoDup_seq. }
  split.
  - intros b x Hx. destruct (decide (b ∈ concat ((fun gr : group => gr.1.2) <$> groups opts sccs cs)))
      as [Hin|Hn].
    + by apply elem_of_groups.
    + exfalso. rewrite Hout in Hx; [done|]. intros i gr Hgr Hb'. apply Hn, elem_of_groups. eauto.
  - split; intros k v; [rewrite He1|rewrite He2]; rewrite lookup_empty; simpl;
      (split; [intros [H|?]; [inversion H|done]|by right]).
Qed.

Lemma group_roles opts sccs cs gr :
  gr ∈ groups opts sccs cs ->
  (gr.1.1 = Chunk /\ gr.1.2 ∈ cs)
  \/ exists scc, scc ∈ sccs /\ gr.1.2 ≡ₚ scc /\ 1 < length scc
       /\ gr.1.1 = if (min_dispatcher_scc opts <=? length scc)%nat then Dispatcher else Loop.
Proof.
  unfold groups. intros [Hin|Hin]%elem_of_app.
  - right. unfold loop_groups in Hin.
    apply list_elem_of_fmap in Hin as (scc & -> & [H1 H2]%list_elem_of_filter).
    exists scc. repeat split; try done. simpl. apply sort_by_key_perm.
  - left. unfold chunk_groups in Hin. apply list_elem_of_fmap in Hin as (c & -> & Hc). done.
Qed.

Lemma regions_fmap {A} (f : Region -> A) (h : group -> A) gs rs e :
  length rs = length gs ->
  (forall i gr r, gs !! i = Some gr -> rs !! i = Some r -> f (link e r) = h gr) ->
  f <$> (link e <$> rs) = h <$> gs.
Proof.
  intros Hl Hrs. rewrite <- list_fmap_compose. apply list_eq. intros i. rewrite !list_lookup_fmap.
  destruct (gs !! i) as [gr|] eqn:Hgr.
  - destruct (lookup_lt_is_Some_2 rs i) as [r Hr].
    { rewrite Hl. by eapply lookup_lt_Some. }
    rewrite Hr. simpl. by rewrite (Hrs i gr r Hgr Hr).
  - apply lookup_ge_None in Hgr. by rewrite (proj2 (lookup_ge_None rs i)) by lia.
Qed.

Lemma regions_block_ids g gs rs e :
  length rs = length gs ->
  (forall i gr r, gs !! i = Some gr -> rs !! i = Some r -> built_from g i gr r) ->
  block_ids <$> (link e <$> rs) = (fun gr : group => gr.1.2) <$> gs.
Proof.
  intros Hl Hrs. apply regions_fmap; [done|]. intros i gr r Hgr Hr.
  simpl. by destruct (Hrs i gr r Hgr Hr) as (_ & _ & -> & _).
Qed.

(** The addresses listed by the regions are those of the blocks. *)
Lemma partition_eas g opts :
  cfg_wf g -> max_chunk_blocks opts <> 0 ->
  exists p, partition g opts = Done p
    /\ concat (region_eas <$> regions p) ≡ₚ block_eas g.
Proof.
  intros Hg Hk.
  destruct (partition_spec g opts Hg Hk)
    as (p & sccs & cs & e & rs & Hp & _ & _ & Hperm & Hl & Hrs & Hreg & _).
  exists p. split; [done|]. rewrite Hreg.
  rewrite (regions_fmap region_eas (fun gr : group => ea_of g <$> gr.1.2) (groups opts sccs cs)); [|done|].
  - change (fun gr : group => ea_of g <$> gr.1.2)
      with (fmap (M:=list) (ea_of g) ∘ (fun gr : group => gr.1.2)).
    rewrite list_fmap_compose, <- concat_fmap', Hperm.
    assert (ea_of g <$> seq 0 (length (block_eas g)) = block_eas g) as ->; [|done].
    apply list_eq. intros i. rewrite list_lookup_fmap.
    destruct (block_eas g !! i) as [x|] eqn:Hx.
    + rewrite lookup_seq_lt by (by eapply lookup_lt_Some). simpl. unfold ea_of. by rewrite Hx.
    + apply lookup_ge_None in Hx. by rewrite lookup_seq_ge.
  - intros i gr r Hgr Hr. simpl. by destruct (Hrs i gr r Hgr Hr) as (_ & _ & _ & _ & -> & _).
Qed.

(** C11. The partition covers the function: with a positive chunk size it is
    computed without a panic, every block lies in exactly one region, a chunk
    region holds between one and [max_chunk_blocks] blocks, and every other
    region is a strongly connected component of at least two blocks, marked a
    dispatcher exactly when it has [min_dispatcher_scc] blocks or more. *)
Theorem partition_covers (g : CfgIndex) (opts : PartitionOptions) :
  cfg_wf g -> max_chunk_blocks opts <> 0 ->
  exists p, partition g opts = Done p
    /\ concat (block_ids <$> regions p) ≡ₚ seq 0 (length (block_eas g))
    /\ forall r, r ∈ regions p ->
         (role r = Chunk /\ 0 < length (block_ids r) <= max_chunk_blocks opts)
         \/ (1 < length (block_ids r)
             /\ role r = (if (min_dispatcher_scc opts <=? length (block_ids r))%nat
                          then Dispatcher else Loop)
             /\ forall x y, x ∈ block_ids r -> (y ∈ block_ids r <-> reach g x y /\ reach g y x)).
Proof.
  intros Hg Hk.
  destruct (partition_spec g opts Hg Hk)
    as (p & sccs & cs & e & rs & Hp & Hs & Hcs & Hperm & Hl & Hrs & Hreg & _).
  destruct (tarjan_sccs_spec g Hg) as (sccs' & Hs' & _ & _ & Hscc).
  assert (sccs' = sccs) as -> by congruence.
  exists p. split; [done|].
  assert (block_ids <$> regions p = (fun gr : group => gr.1.2) <$> groups opts sccs cs) as Hids
    by (rewrite Hreg; by eapply regions_block_ids).
  split; [by rewrite Hids|]. intros r. rewrite Hreg.
  intros (r0 & -> & Hr0)%list_elem_of_fmap. apply list_elem_of_lookup in Hr0 as [i Hr0].
  destruct (lookup_lt_is_Some_2 (groups opts sccs cs) i) as [gr Hgr].
  { rewrite <- Hl. by eapply lookup_lt_Some. }
  destruct (Hrs i gr r0 Hgr Hr0) as (_ & Hro & Hbi & _). simpl. rewrite Hro, Hbi.
  apply list_elem_of_lookup_2 in Hgr.
  destruct (group_roles opts sccs cs gr Hgr) as [[Hc Hin]|(scc & Hin & Hpm & Hlen & Hrole)].
  - left. split; [done|]. rewrite Forall_forall in Hcs. by apply Hcs.
  - right. rewrite (Permutation_length Hpm). split; [done|]. split; [done|].
    intros x y. rewrite Hpm. intros Hx. by apply (Hscc scc).
Qed.

Lemma partition_covers_witness :
  exists p, partition example_cfg PartitionOptions_default = Done p
    /\ concat (block_ids <$> regions p) ≡ₚ [0; 1; 2; 3].
Proof.
  destruct (partition_covers example_cfg PartitionOptions_default) as (p & Hp & Hc & _).
  - split; [reflexivity|]. cbn. repeat constructor.
  - cbn. lia.
  - exists p. split; [exact Hp|exact Hc].
Defined.

(** Non-empty groups: no more regions than blocks. *)
Lemma length_le_concat {A} (ls : list (list A)) :
  Forall (fun l => 0 < length l) ls -> length ls <= length (concat ls).
Proof. induction 1 as [|l ls Hl _ IH]; simpl; [done|]. rewrite length_app. lia. Qed.

Lemma groups_count opts sccs cs k :
  Forall (fun c => 0 < length c <= max_chunk_blocks opts) cs ->
  concat ((fun gr : group => gr.1.2) <$> groups opts sccs cs) ≡ₚ seq 0 k ->
  length (groups opts sccs cs) <= k.
Proof.
  intros Hcs Hperm.
  pose proof (length_le_concat ((fun gr : group => gr.1.2) <$> groups opts sccs cs)) as Hle.
  rewrite Hperm, length_fmap, length_seq in Hle. apply Hle.
  apply Forall_fmap, Forall_forall. intros gr Hgr. simpl.
  destruct (group_roles opts sccs cs gr Hgr) as [[_ Hin]|(scc & _ & Hpm & Hlen & _)].
  - rewrite Forall_forall in Hcs. by apply Hcs.
  - rewrite Hpm. lia.
Qed.

(** How a partition is laid out over its groups of blocks [gs]: region [i] is
    group [i], blocks belong to the region of their group, and the region
    edges are the block edges that cross regions. *)
Record laid_out (g : CfgIndex) (p : Partition) (gs : list group) : Prop := {
  lo_length : length (regions p) = length gs;
  lo_inj : forall i j, i < length gs -> j < length gs -> rid i = rid j -> i = j;
  lo_at : forall i r, regions p !! i = Some r -> exists gr, gs !! i = Some gr
    /\ region_id r = rid i /\ block_ids r = gr.1.2;
  lo_own : forall i gr b, gs !! i = Some gr -> b ∈ gr.1.2 -> block_region p !! b = Some (rid i);
  lo_some : forall b x, block_region p !! b = Some x -> exists i gr, gs !! i = Some gr /\ b ∈ gr.1.2;
  lo_succ : forall r x, r ∈ regions p -> (x ∈ succ_regions r <->
    crosses g (block_region p) (seq 0 (length (block_eas g))) (region_id r) x);
  lo_pred : forall r x, r ∈ regions p -> (x ∈ pred_regions r <->
    crosses g (block_region p) (seq 0 (length (block_eas g))) x (region_id r));
}.

Lemma partition_laid_out g opts p :
  cfg_wf g -> max_chunk_blocks opts <> 0 -> (Z.of_nat (length (block_eas g)) < u64_modulus)%Z ->
  partition g opts = Done p -> exists gs, laid_out g p gs.
Proof.
  intros Hg Hk Hsz Hrun. destruct (partition_spec g opts Hg Hk)
    as (p' & sccs & cs & e & rs & Hp & _ & Hcs & Hperm & Hl & Hrs & Hreg & Hown & Hsome & Hsu & Hpr).
  assert (p' = p) as -> by congruence. exists (groups opts sccs cs).
  assert (length (groups opts sccs cs) <= length (block_eas g)) as Hcount by (by eapply groups_count).
  assert (forall i r, regions p !! i = Some r -> exists r0 gr, r = link e r0
    /\ groups opts sccs cs !! i = Some gr /\ built_from g i gr r0) as Hat.
  { intros i r Hr. rewrite Hreg, list_lookup_fmap in Hr.
    destruct (rs !! i) as [r0|] eqn:Hr0; [|done]. injection Hr as <-.
    destruct (lookup_lt_is_Some_2 (groups opts sccs cs) i) as [gr Hgr].
    { rewrite <- Hl. by eapply lookup_lt_Some. }
    exists r0, gr. eauto. }
  split; try done.
  - by rewrite Hreg, length_fmap.
  - intros i j Hi Hj. apply rid_inj; lia.
  - intros i r (r0 & gr & -> & Hgr & Hid & _ & Hbi & _)%Hat. eauto.
  - intros r x [i (r0 & gr & -> & Hgr & Hid & _ & _ & _ & _ & Hpn & Hsn)%Hat]%list_elem_of_lookup.
    rewrite link_succ by done. apply Hsu.
  - intros r x [i (r0 & gr & -> & Hgr & Hid & _ & _ & _ & _ & Hpn & Hsn)%Hat]%list_elem_of_lookup.
    rewrite link_pred by done. apply Hpr.
Qed.

Section Layout.
Context (g : CfgIndex) (p : Partition) (gs : list group) (Hg : cfg_wf g) (Hlo : laid_out g p gs).

Lemma lo_blocks r b : r ∈ regions p -> (b ∈ block_ids r <-> block_region p !! b = Some (region_id r)).
Proof using Hlo.
  intros [i Hi]%list_elem_of_lookup. destruct (lo_at _ _ _ Hlo i r Hi) as (gr & Hgr & -> & ->).
  split; [by apply (lo_own _ _ _ Hlo)|]. intros Hb. destruct (lo_some _ _ _ Hlo b _ Hb) as (j & gr' & Hj & Hin).
  rewrite (lo_own _ _ _ Hlo j gr' b Hj Hin) in Hb. apply (inj Some), (lo_inj _ _ _ Hlo) in Hb;
    [|by eapply lookup_lt_Some..]. subst. congruence.
Qed.

Lemma lo_owner b x : block_region p !! b = Some x -> x ∈ region_id <$> regions p.
Proof using Hlo.
  intros Hb. destruct (lo_some _ _ _ Hlo b x Hb) as (j & gr & Hj & Hin).
  assert (is_Some (regions p !! j)) as [r' Hr'].
  { apply lookup_lt_is_Some. rewrite (lo_length _ _ _ Hlo). by eapply lookup_lt_Some. }
  apply list_elem_of_fmap. exists r'. split; [|by eapply list_elem_of_lookup_2].
  destruct (lo_at _ _ _ Hlo j r' Hr') as (_ & _ & -> & _). rewrite (lo_own _ _ _ Hlo j gr b Hj Hin) in Hb.
  congruence.
Qed.

Lemma lo_nodup : NoDup (region_id <$> regions p).
Proof using Hlo.
  apply NoDup_alt. intros i j x Hi Hj. rewrite list_lookup_fmap in Hi, Hj.
  destruct (regions p !! i) as [ri|] eqn:Hri; [|done].
  destruct (regions p !! j) as [rj|] eqn:Hrj; [|done].
  destruct (lo_at _ _ _ Hlo i ri Hri) as (gi & Hi' & Ei & _), (lo_at _ _ _ Hlo j rj Hrj) as (gj & Hj' & Ej & _).
  simpl in Hi, Hj. apply (lo_inj _ _ _ Hlo); [by eapply lookup_lt_Some..|congruence].
Qed.

Lemma lo_crosses r1 r2 : r1 ∈ regions p -> r2 ∈ regions p ->
  (crosses g (block_region p) (seq 0 (length (block_eas g))) (region_id r1) (region_id r2) <->
    region_id r1 <> region_id r2
    /\ exists b1 b2, b1 ∈ block_ids r1 /\ b2 ∈ block_ids r2 /\ edge g b1 b2).
Proof using Hg Hlo.
  intros H1 H2. unfold crosses. split.
  - intros (b & s & Hb & He & Hb1 & Hs2 & Hne). split; [congruence|]. exists b, s.
    split; [by apply lo_blocks|]. split; [by apply lo_blocks|done].
  - intros (Hne & b & s & Hb & Hs & He). exists b, s. split.
    + destruct He as (ss & Hss & _). apply elem_of_seq. apply lookup_lt_Some in Hss. destruct Hg. lia.
    + split; [done|]. split; [by apply lo_blocks|]. split; [by apply lo_blocks|congruence].
Qed.
End Layout.

(** The region graph, as the data-flow pass uses it. *)
Lemma region_graph_spec (g : CfgIndex) (opts : PartitionOptions) (p : Partition) :
  cfg_wf g -> max_chunk_blocks opts <> 0 ->
  (Z.of_nat (length (block_eas g)) < u64_modulus)%Z ->
  partition g opts = Done p ->
  (forall r, r ∈ regions p -> exists i, region_id r = rid i)
  /\ (forall r q, r ∈ regions p -> q ∈ pred_regions r -> q ∈ region_id <$> regions p)
  /\ NoDup (region_id <$> regions p)
  /\ (forall r b, r ∈ regions p -> (b ∈ block_ids r <-> block_region p !! b = Some (region_id r)))
  /\ (forall r1 r2, r1 ∈ regions p -> r2 ∈ regions p ->
        (region_id r2 ∈ succ_regions r1 <->
           region_id r1 <> region_id r2
           /\ exists b1 b2, b1 ∈ block_ids r1 /\ b2 ∈ block_ids r2 /\ edge g b1 b2))
  /\ (forall r1 r2, r1 ∈ regions p -> r2 ∈ regions p ->
        (region_id r1 ∈ pred_regions r2 <-> region_id r2 ∈ succ_regions r1)).
Proof.
  intros Hg Hk Hsz Hrun. destruct (partition_laid_out g opts p Hg Hk Hsz Hrun) as [gs Hlo].
  split; [|split; [|split; [by eapply lo_nodup|split; [by intros; eapply lo_blocks|split]]]].
  - intros r [i Hi]%list_elem_of_lookup. destruct (lo_at _ _ _ Hlo i r Hi) as (_ & _ & -> & _). eauto.
  - intros r q Hr (b & s & _ & _ & Hb & _)%(lo_pred _ _ _ Hlo); [|done]. by eapply lo_owner.
  - intros r1 r2 H1 H2. rewrite (lo_succ _ _ _ Hlo) by done. by eapply lo_crosses.
  - intros r1 r2 H1 H2. by rewrite (lo_succ _ _ _ Hlo), (lo_pred _ _ _ Hlo).
Qed.

(** C18. The region graph is the quotient of the block graph: region ids are
    distinct, [block_region] maps a block to the region that lists it,
    [succ_regions] of [r1] lists [r2] exactly when they differ and some block
    of [r1] has a successor in [r2], and [pred_regions] is its converse. *)
Theorem region_graph_correct (g : CfgIndex) (opts : PartitionOptions) (p : Partition) :
  cfg_wf g -> max_chunk_blocks opts <> 0 ->
  (Z.of_nat (length (block_eas g)) < u64_modulus)%Z ->
  partition g opts = Done p ->
  NoDup (region_id <$> regions p)
  /\ (forall r b, r ∈ regions p -> (b ∈ block_ids r <-> block_region p !! b = Some (region_id r)))
  /\ (forall r1 r2, r1 ∈ regions p -> r2 ∈ regions p ->
        (region_id r2 ∈ succ_regions r1 <->
           region_id r1 <> region_id r2
           /\ exists b1 b2, b1 ∈ block_ids r1 /\ b2 ∈ block_ids r2 /\ edge g b1 b2))
  /\ (forall r1 r2, r1 ∈ regions p -> r2 ∈ regions p ->
        (region_id r1 ∈ pred_regions r2 <-> region_id r2 ∈ succ_regions r1)).
Proof.
  intros Hg Hk Hsz Hrun. by destruct (region_graph_spec g opts p Hg Hk Hsz Hrun) as (_ & _ & ?).
Qed.

Lemma region_graph_correct_witness :
  exists p, partition example_cfg PartitionOptions_default = Done p
    /\ NoDup (region_id <$> regions p).
Proof.
  destruct (partition example_cfg PartitionOptions_default) as [p| |] eqn:Hp;
    [|vm_compute in Hp; discriminate Hp..].
  exists p. split; [reflexivity|].
  refine (proj1 (region_graph_correct example_cfg PartitionOptions_default p _ _ _ Hp)).
  - split; [reflexivity|]. cbn. repeat constructor.
  - cbn. lia.
  - reflexivity.
Defined.

(** ** Entry blocks *)

(** What [entry_exit_blocks] lists for a group of two or more blocks.  A
    block is an exit iff it has a successor outside the group or none at all,
    as documented.  It is an entry iff some block outside the group branches
    to it, or nothing outside branches to it and none of its own successors
    is in the group: the second disjunct looks at successors, where the
    documentation speaks of blocks without predecessors. *)
Theorem entry_exit_spec (g : CfgIndex) (blocks : list nat) (b : nat) (ss : list nat) :
  succs g !! b = Some ss -> length blocks <> 1 ->
  exists en ex, entry_exit_of g blocks b = Done (en, ex)
    /\ (en = true <-> (exists p, p ∉ blocks /\ edge g p b)
         \/ ((forall p, edge g p b -> p ∈ blocks) /\ forall s, edge g b s -> s ∉ blocks))
    /\ (ex = true <-> (exists s, edge g b s /\ s ∉ blocks) \/ forall s, ~ edge g b s).
Proof.
  intros Hss Hlen. unfold entry_exit_of. rewrite Hss. simpl.
  assert (forall s, edge g b s <-> s ∈ ss) as Hedge.
  { intros s. split; [intros (? & ? & ?); congruence|by exists ss]. }
  assert (external_pred g blocks b = true <-> exists p, p ∉ blocks /\ edge g p b) as Hext
    by apply external_pred_spec.
  eexists _, _. split; [done|]. split.
  - rewrite !orb_true_iff, andb_true_iff, !negb_true_iff, Nat.eqb_eq, <- !not_true_iff_false, Hext.
    rewrite (existsb_elem_of ss (fun s => s ∈ blocks)). split.
    + intros [[Hp|[Hi Hn]]|?]; [by left| |done]. right. split.
      * intros p Hp. destruct (decide (p ∈ blocks)); [done|]. exfalso. eauto.
      * intros s Hs%Hedge Hb. eauto.
    + intros [Hp|[Hp Hs]]; left; [by left|]. right. split.
      * intros (s & Hs1 & Hs2). by eapply Hs; [apply Hedge|].
      * intros (p & Hn & He). by apply Hn, Hp.
  - rewrite orb_true_iff, (existsb_elem_of_neg ss (fun s => s ∈ blocks)). split.
    + intros [(s & H1 & H2)|Hnil].
      * left. exists s. by rewrite Hedge.
      * right. intros s Hs%Hedge. destruct ss; [inversion Hs|done].
    + intros [(s & H1%Hedge & H2)|Hno]; [left; eauto|right].
      destruct ss as [|s ss]; [done|]. exfalso. apply (Hno s), Hedge. left.
Qed.

Lemma entry_exit_spec_witness :
  exists en ex, entry_exit_of
      {| block_eas := [16; 32]%Z; block_ends := []; succs := [[1]; []]; indirect := [];
         direct_calls := 0; indirect_calls := 0; switches := 0 |} [0; 1] 0 = Done (en, ex)
    /\ en = false.
Proof.
  set (g := {| block_eas := [16; 32]%Z; block_ends := []; succs := [[1]; []]; indirect := [];
         direct_calls := 0; indirect_calls := 0; switches := 0 |}).
  destruct (entry_exit_spec g [0; 1] 0 [1]) as (en & ex & Hrun & _).
  - reflexivity.
  - discriminate.
  - exists en, ex. split; [exact Hrun|]. vm_compute in Hrun. congruence.
Defined.
