(* ===== verification/LargeFn.v ===== *)
(** * LargeFn: from worker JSON to the complexity profile and the partition

    Models [rmcp-broker/src/largefn.rs], the adapters between the worker's
    [function_at] and [graph kind=cfg] responses and the preflight and
    partition of [Cfg] and [Regions].  The responses are arbitrary JSON: the
    theorems hold for every document, well formed or not. *)

From stdpp Require Import base list gmap strings sorting.
From Stdlib Require Import ZArith Lia.
From S2P Require Import Prelude Text Cfg Tarjan Regions Json.

Local Open Scope rmcp_scope.

(** [v[key].as_bool().unwrap_or(false)], [v[key].as_u64().unwrap_or(0)]. *)
Definition flag (key : string) (v : Value) : bool := default false (as_bool (v @@ key)).
Definition num (key : string) (v : Value) : Z := default 0%Z (as_u64 (v @@ key)).

Definition count_flag (key : string) (ns : list Value) : nat :=
  length (filter (fun n => flag key n = true) ns).

(** [graph[key].as_array()] with the empty slice for anything else. *)
Definition array_of (graph : Value) (key : string) : list Value :=
  default [] (as_array (graph @@ key)).

Definition complexity_from_function_graph (func graph : Value) (decompiler : bool)
  : FunctionComplexity :=
  let start := num "ea_start" func in
  let end_ := num "ea_end" func in
  let nodes := array_of graph "nodes" in
  let n_blocks := Z.of_nat (length nodes) in
  let n_edges := Z.of_nat (length (array_of graph "edges")) in
  {| byte_size := saturating_sub end_ start;
     blocks := n_blocks;
     edges := n_edges;
     cyclomatic := wrapping_add64 (saturating_sub n_edges n_blocks) 2;
     indirect_blocks := Z.of_nat (count_flag "indirect" nodes);
     fc_direct_calls := 0; fc_indirect_calls := 0; fc_switches := 0;
     Cfg.chunks := Z.of_nat (count_flag "chunk" nodes);
     sccs := 0; max_scc_size := 0; loops := 0;
     instruction_density := 0;
     decompiler_available := decompiler |}.

(** The sorted block starts, and their index by address. *)
Definition block_starts (graph : Value) : list Z :=
  dedup (sort_by_key id (omap (fun n => as_u64 (n @@ "ea")) (array_of graph "nodes"))).

Definition ea_index (eas : list Z) : gmap Z nat :=
  foldl (fun m ie => <[ie.2 := ie.1]> m) ∅ (imap pair eas).

(** The body of the loop over the edges. *)
Definition add_succ (ix : gmap Z nat) (e : Value) (ss : list (list nat)) : outcome (list (list nat)) :=
  match ix !! num "from" e, ix !! num "to" e with
  | Some fi, Some ti =>
      if (length ss <=? ti)%nat then Done ss
      else
        row <~ at_ (ss !! fi);
        if bool_decide (ti ∈ row) then Done ss else Done (<[fi := row ++ [ti]]> ss)
  | _, _ => Done ss
  end.

Fixpoint add_succs (ix : gmap Z nat) (es : list Value) (ss : list (list nat))
  : outcome (list (list nat)) :=
  match es with
  | [] => Done ss
  | e :: es' => ss' <~ add_succ ix e ss; add_succs ix es' ss'
  end.

(** The [indirect] flags: [if i < indirect.len() { indirect[i] = .. }]. *)
Definition indirect_flags (k : nat) (nodes : list Value) : list bool :=
  foldl (fun v inode => if (inode.1 <? length v)%nat then <[inode.1 := flag "indirect" inode.2]> v else v)
    (replicate k false) (imap pair nodes).

Definition cfg_index_from_graph (graph : Value) : outcome CfgIndex :=
  let eas := block_starts graph in
  ss <~ add_succs (ea_index eas) (array_of graph "edges") (replicate (length eas) []);
  Done {| block_eas := eas;
          block_ends := drop 1 eas ++ [u64_max];
          succs := ss;
          indirect := indirect_flags (length eas) (array_of graph "nodes");
          direct_calls := 0; indirect_calls := 0; switches := 0 |}.

Definition partition_from_graph (graph : Value) (ea : Z) (opts : PartitionOptions)
  : outcome Partition :=
  g <~ cfg_index_from_graph graph;
  p <~ partition g opts;
  Done {| version := version p; function_ea := ea; regions := regions p;
          block_region := block_region p; diagnostics := diagnostics p |}.

(** A three-block function with a loop, its nodes out of address order. *)
Definition example_graph : Value := JObj
  [("nodes", JArr [JObj [("ea", JNum 48); ("indirect", JBool true)];
                   JObj [("ea", JNum 16)]; JObj [("ea", JNum 32)]]);
   ("edges", JArr [JObj [("from", JNum 16); ("to", JNum 32)];
                   JObj [("from", JNum 32); ("to", JNum 16)];
                   JObj [("from", JNum 32); ("to", JNum 48)];
                   JObj [("from", JNum 32); ("to", JNum 99)]])].

Example cfg_index_example :
  exists g, cfg_index_from_graph example_graph = Done g
    /\ block_eas g = [16; 32; 48]%Z /\ succs g = [[1]; [0; 2]; []].
Proof. eexists. split; [vm_compute; reflexivity|]. done. Qed.

(** ** Lemmas *)

Lemma as_u64_range v z : as_u64 v = Some z -> is_u64 z.
Proof. destruct v; simpl; try done. case_bool_decide; congruence. Qed.

Lemma block_starts_sorted graph : StronglySorted Z.lt (block_starts graph).
Proof.
  apply dedup_strict. eapply StronglySorted_ext; [|apply (sort_by_key_sorted id)].
  by intros a b _ _.
Qed.

Lemma elem_of_block_starts graph x :
  x ∈ block_starts graph <-> exists n, n ∈ array_of graph "nodes" /\ as_u64 (n @@ "ea") = Some x.
Proof. unfold block_starts. by rewrite elem_of_dedup, sort_by_key_perm, list_elem_of_omap. Qed.

Lemma ea_index_foldl (eas : list Z) k (m : gmap Z nat) x :
  NoDup eas ->
  foldl (fun m ie => <[ie.2 := ie.1]> m) m (imap (fun i => pair (k + i)) eas) !! x
  = match list_find (x =.) eas with Some (i, _) => Some (k + i) | None => m !! x end.
Proof.
  revert k m. induction eas as [|e eas IH]; intros k m Hnd; [done|].
  inversion_clear Hnd as [|? ? Hn Hnd']. rewrite imap_cons. cbn [foldl].
  rewrite (imap_ext _ (fun i => pair (S k + i))) by (intros i y _; simpl; f_equal; lia).
  rewrite IH by done. simpl. destruct (decide (x = e)) as [->|Hne].
  - destruct (list_find _ eas) as [[i y]|] eqn:Hf.
    + exfalso. apply list_find_Some in Hf as (Hi & <- & _). by apply Hn, (list_elem_of_lookup_2 _ i).
    + simpl. by rewrite lookup_insert_eq.
  - destruct (list_find _ eas) as [[i y]|]; simpl; [f_equal; lia|by rewrite lookup_insert_ne].
Qed.

Lemma ea_index_spec (eas : list Z) x i :
  NoDup eas -> ea_index eas !! x = Some i <-> eas !! i = Some x.
Proof.
  intros Hnd. unfold ea_index. rewrite (ea_index_foldl eas 0 ∅ x Hnd), lookup_empty. split.
  - destruct (list_find _ eas) as [[j y]|] eqn:Hf; [|done]. intros [= <-].
    apply list_find_Some in Hf as (Hj & <- & _). done.
  - intros Hi. destruct (list_find (x =.) eas) as [[j y]|] eqn:Hf.
    + apply list_find_Some in Hf as (Hj & <- & _). f_equal. simpl. by eapply NoDup_lookup.
    + apply list_find_None in Hf. rewrite Forall_forall in Hf.
      by destruct (Hf x (list_elem_of_lookup_2 _ _ _ Hi)).
Qed.

Section Edges.
Context (eas : list Z) (Heas : NoDup eas).

(** [i -> j] is an edge of the JSON list [es]. *)
Definition json_edge (es : list Value) (i j : nat) : Prop :=
  exists e, e ∈ es /\ eas !! i = Some (num "from" e) /\ eas !! j = Some (num "to" e).

Definition rows_ok (ss : list (list nat)) : Prop :=
  length ss = length eas /\ Forall (fun row => NoDup row /\ Forall (fun j => j < length eas) row) ss.

Definition row_edge (ss : list (list nat)) (i j : nat) : Prop :=
  exists row, ss !! i = Some row /\ j ∈ row.

Lemma add_succ_ok e ss : rows_ok ss ->
  exists ss', add_succ (ea_index eas) e ss = Done ss' /\ rows_ok ss'
    /\ forall i j, row_edge ss' i j <-> row_edge ss i j \/ json_edge [e] i j.
Proof using Heas.
  intros [Hlen Hrows]. unfold add_succ.
  assert (forall i j, json_edge [e] i j <->
    ea_index eas !! num "from" e = Some i /\ ea_index eas !! num "to" e = Some j) as Hj.
  { intros i j. rewrite !ea_index_spec by done. unfold json_edge. split.
    - intros (e' & ->%list_elem_of_singleton & Hi & Hj). done.
    - intros [Hi Hj]. exists e. rewrite list_elem_of_singleton. done. }
  destruct (ea_index eas !! num "from" e) as [fi|] eqn:Hf.
  2: { exists ss. split; [done|]. split; [done|]. intros i j. rewrite Hj. split; [by left|].
       intros [?|[? _]]; done. }
  destruct (ea_index eas !! num "to" e) as [ti|] eqn:Ht.
  2: { exists ss. split; [done|]. split; [done|]. intros i j. rewrite Hj. split; [by left|].
       intros [?|[_ ?]]; done. }
  apply ea_index_spec, lookup_lt_Some in Hf; [|done]. apply ea_index_spec, lookup_lt_Some in Ht; [|done].
  destruct (Nat.leb_spec (length ss) ti); [lia|].
  destruct (lookup_lt_is_Some_2 ss fi) as [row Hrow]; [lia|]. rewrite Hrow. simpl.
  destruct (Forall_lookup_1 _ _ _ _ Hrows Hrow) as [Hnd Hlt].
  case_bool_decide as Hin.
  - exists ss. split; [done|]. split; [done|]. intros i j. rewrite Hj. split; [by left|].
    intros [?|[[= <-] [= <-]]]; [done|]. by exists row.
  - eexists. split; [done|]. split.
    { split; [by rewrite length_insert|]. apply Forall_insert; [done|]. split.
      - apply NoDup_app. split; [done|]. split; [|apply NoDup_singleton].
        by intros x Hx ->%list_elem_of_singleton.
      - apply Forall_app. split; [done|]. by repeat constructor. }
    intros i j. rewrite Hj. unfold row_edge. destruct (decide (i = fi)) as [->|Hne].
    + rewrite list_lookup_insert_eq by lia. split.
      * intros (? & [= <-] & [Hx|Hx]%elem_of_app); [by left; exists row|].
        apply list_elem_of_singleton in Hx as ->. by right.
      * intros [(? & ? & Hx)|[_ [= <-]]]; (eexists; split; [done|]); apply elem_of_app; simplify_eq.
        -- by left.
        -- right. by apply list_elem_of_singleton.
    + rewrite list_lookup_insert_ne by done. split; [by left|]. intros [?|[[= ->] _]]; done.
Qed.

Lemma add_succs_ok es ss : rows_ok ss ->
  exists ss', add_succs (ea_index eas) es ss = Done ss' /\ rows_ok ss'
    /\ forall i j, row_edge ss' i j <-> row_edge ss i j \/ json_edge es i j.
Proof using Heas.
  revert ss. induction es as [|e es IH]; intros ss Hss; simpl.
  { exists ss. split; [done|]. split; [done|]. intros i j. split; [by left|].
    intros [?|(e & He & _)]; [done|inversion He]. }
  destruct (add_succ_ok e ss Hss) as (ss1 & -> & H1 & He1). simpl.
  destruct (IH ss1 H1) as (ss2 & Hrun & H2 & He2). exists ss2. split; [done|]. split; [done|].
  intros i j. rewrite He2, He1. unfold json_edge. split.
  - intros [[?|(e' & Hin & ?)]|(e' & Hin & ?)]; [by left|right; exists e'..].
    + apply list_elem_of_singleton in Hin as ->. split; [left|done].
    + split; [by right|done].
  - intros [?|(e' & [->|Hin]%elem_of_cons & ?)]; [by left; left| |].
    + left. right. exists e. by rewrite list_elem_of_singleton.
    + right. by exists e'.
Qed.
End Edges.

(** What [cfg_index_from_graph] returns. *)
Lemma cfg_index_spec graph :
  exists g, cfg_index_from_graph graph = Done g
    /\ cfg_wf g
    /\ block_eas g = block_starts graph
    /\ Forall (fun row => NoDup row) (succs g)
    /\ indirect g = indirect_flags (length (block_eas g)) (array_of graph "nodes")
    /\ forall i j, edge g i j <-> json_edge (block_eas g) (array_of graph "edges") i j.
Proof.
  pose proof (StronglySorted_lt_NoDup _ (block_starts_sorted graph)) as Hnd.
  destruct (add_succs_ok (block_starts graph) Hnd (array_of graph "edges")
    (replicate (length (block_starts graph)) [])) as (ss & Hrun & (Hlen & Hrows) & He).
  { split; [by rewrite length_replicate|]. apply Forall_replicate. split; constructor. }
  unfold cfg_index_from_graph. rewrite Hrun. eexists. split; [done|]. simpl.
  split; [|split; [done|]].
  { split; simpl; [done|]. eapply Forall_impl; [exact Hrows|]. by intros row [_ ?]. }
  split. { eapply Forall_impl; [exact Hrows|]. by intros row [? _]. }
  split; [done|]. intros i j. unfold edge. simpl. fold (row_edge ss i j). rewrite He.
  split; [|by right]. intros [(row & Hrow & Hin)|?]; [|done].
  apply lookup_replicate_1 in Hrow as [-> _]. inversion Hin.
Qed.

(** ** The CFG index *)

(** For every response, well formed or not, the CFG index is built
    without a panic; its blocks are exactly the addresses of the listed nodes,
    in strictly increasing order; block [i] has block [j] as a successor iff
    some listed edge goes from the one's address to the other's (a missing
    address reads as 0), each successor once; and every successor is a block. *)
Theorem cfg_index_faithful (graph : Value) :
  exists g, cfg_index_from_graph graph = Done g
    /\ StronglySorted Z.lt (block_eas g)
    /\ (forall x, x ∈ block_eas g <->
          exists n, n ∈ array_of graph "nodes" /\ as_u64 (n @@ "ea") = Some x)
    /\ (forall i j, edge g i j <-> exists e, e ∈ array_of graph "edges"
          /\ block_eas g !! i = Some (num "from" e) /\ block_eas g !! j = Some (num "to" e))
    /\ Forall (fun row => NoDup row) (succs g)
    /\ cfg_wf g.
Proof.
  destruct (cfg_index_spec graph) as (g & Hrun & Hwf & Heas & Hnd & _ & He).
  exists g. split; [done|]. rewrite Heas in *. split; [apply block_starts_sorted|].
  split; [apply elem_of_block_starts|]. done.
Qed.

Lemma indirect_flags_foldl (nodes : list Value) k (v : list bool) i :
  foldl (fun v inode => if (inode.1 <? length v)%nat
                        then <[inode.1 := flag "indirect" inode.2]> v else v)
    v (imap (fun i => pair (k + i)) nodes) !! i
  = if decide (k <= i < length v)
    then match nodes !! (i - k) with Some n => Some (flag "indirect" n) | None => v !! i end
    else v !! i.
Proof.
  revert k v. induction nodes as [|n nodes IH]; intros k v; [by case_decide|].
  rewrite imap_cons. cbn [foldl fst snd]. rewrite Nat.add_0_r.
  rewrite (imap_ext _ (fun i => pair (S k + i))) by (intros j y _; simpl; f_equal; lia).
  rewrite IH. destruct (Nat.ltb_spec k (length v)) as [Hk|Hk].
  - rewrite length_insert. destruct (decide (i = k)) as [->|Hne].
    + rewrite decide_False by lia. rewrite decide_True by lia.
      rewrite list_lookup_insert_eq by done. by rewrite Nat.sub_diag.
    + rewrite list_lookup_insert_ne by done. do 2 case_decide; try lia; [|done].
      replace (i - k) with (S (i - S k)) by lia. done.
  - do 2 case_decide; try lia; done.
Qed.

Lemma indirect_flags_spec k nodes i :
  indirect_flags k nodes !! i
  = if decide (i < k) then Some (default false (flag "indirect" <$> nodes !! i)) else None.
Proof.
  unfold indirect_flags. change (imap pair nodes) with (imap (fun i => pair (0 + i)) nodes).
  rewrite (indirect_flags_foldl nodes 0 (replicate k false) i), length_replicate, Nat.sub_0_r.
  destruct (decide (i < k)).
  - rewrite decide_True by lia. rewrite lookup_replicate_2 by done. by destruct (nodes !! i).
  - rewrite decide_False by lia. apply lookup_replicate_None. lia.
Qed.

Lemma sort_sorted_id (l : list Z) : StronglySorted Z.lt l -> dedup (sort_by_key id l) = l.
Proof.
  intros Hs. assert (sort_by_key id l = l) as ->.
  { induction Hs as [|a l Hs IH Ha]; [done|].
    change (insert_by_key id a (sort_by_key id l) = a :: l). rewrite IH.
    destruct l as [|b l]; [done|]. simpl. inversion_clear Ha.
    unfold id. destruct (Z.leb_spec a b); [done|lia]. }
  induction Hs as [|a l Hs IH Ha]; [done|]. cbn [dedup]. destruct l as [|b l]; [done|].
  inversion_clear Ha. rewrite bool_decide_false by lia. by rewrite IH.
Qed.

(** The indirect-transfer flags are stored by position in the response,
    the blocks by address: when the response lists its nodes in strictly
    increasing address order, each block carries the flag of its own node. *)
Theorem indirect_flags_aligned (graph : Value) (eas : list Z) (g : CfgIndex) :
  as_u64 <$> ((fun n => n @@ "ea") <$> array_of graph "nodes") = Some <$> eas ->
  StronglySorted Z.lt eas ->
  cfg_index_from_graph graph = Done g ->
  forall i n, array_of graph "nodes" !! i = Some n ->
    Some <$> block_eas g !! i = Some (as_u64 (n @@ "ea"))
    /\ indirect g !! i = Some (flag "indirect" n).
Proof.
  intros Heas Hs Hrun i n Hn.
  destruct (cfg_index_spec graph) as (g' & Hrun' & _ & Hblocks & _ & Hind & _).
  assert (g' = g) as -> by congruence.
  assert (omap (fun n => as_u64 (n @@ "ea")) (array_of graph "nodes") = eas) as Hom.
  { clear -Heas. revert eas Heas.
    induction (array_of graph "nodes") as [|m ns IH]; intros [|a eas] Heas; simplify_eq/=; [done|].
    match goal with E : as_u64 _ = Some a |- _ => rewrite E end. f_equal. by apply IH. }
  assert (block_eas g = eas) as Hb.
  { rewrite Hblocks. unfold block_starts. rewrite Hom. by apply sort_sorted_id. }
  assert (Some <$> eas !! i = Some (as_u64 (n @@ "ea"))) as Hi.
  { rewrite <- list_lookup_fmap, <- Heas, !list_lookup_fmap, Hn. done. }
  rewrite Hb. split; [done|]. rewrite Hind, Hb, indirect_flags_spec, Hn, decide_True; [done|].
  destruct (eas !! i) eqn:Hi'; [by eapply lookup_lt_Some|done].
Qed.

Lemma indirect_flags_aligned_witness :
  exists g, cfg_index_from_graph (JObj [("nodes", JArr [JObj [("ea", JNum 16)];
      JObj [("ea", JNum 32); ("indirect", JBool true)]])]) = Done g
    /\ indirect g !! 1 = Some true.
Proof.
  destruct (cfg_index_from_graph (JObj [("nodes", JArr [JObj [("ea", JNum 16)];
      JObj [("ea", JNum 32); ("indirect", JBool true)]])])) as [g| |] eqn:Hrun;
    [|vm_compute in Hrun; discriminate Hrun..].
  exists g. split; [reflexivity|].
  refine (proj2 (indirect_flags_aligned _ [16; 32]%Z g _ _ Hrun 1
    (JObj [("ea", JNum 32); ("indirect", JBool true)]) _)).
  - vm_compute. reflexivity.
  - repeat constructor.
  - reflexivity.
Defined.

(** The flags of [example_graph], whose nodes are not in address order: the
    flag of the node at 48 is read as that of the block at 16. *)
Example indirect_flags_misaligned :
  exists g, cfg_index_from_graph example_graph = Done g
    /\ block_eas g !! 0 = Some 16%Z /\ indirect g = [true; false; false].
Proof. eexists. split; [vm_compute; reflexivity|]. done. Qed.

(** ** The partition of a response *)

(** From any response and with a positive chunk size, the partition is
    computed without a panic; it is anchored at the requested address and its
    regions list the address of every block exactly once. *)
Theorem partition_from_graph_covers (graph : Value) (ea : Z) (opts : PartitionOptions) :
  max_chunk_blocks opts <> 0 ->
  exists p, partition_from_graph graph ea opts = Done p
    /\ function_ea p = ea
    /\ NoDup (concat (region_eas <$> regions p))
    /\ forall x, x ∈ concat (region_eas <$> regions p) <->
         exists n, n ∈ array_of graph "nodes" /\ as_u64 (n @@ "ea") = Some x.
Proof.
  intros Hk. destruct (cfg_index_spec graph) as (g & Hrun & Hwf & Heas & _).
  destruct (partition_eas g opts Hwf Hk) as (p & Hp & Hc).
  unfold partition_from_graph. rewrite Hrun. simpl. rewrite Hp. simpl.
  eexists. split; [done|]. simpl. rewrite Heas in Hc. split; [done|]. split.
  - rewrite Hc. apply StronglySorted_lt_NoDup, block_starts_sorted.
  - intros x. rewrite Hc. apply elem_of_block_starts.
Qed.

Lemma partition_from_graph_covers_witness :
  exists p, partition_from_graph example_graph 16 PartitionOptions_default = Done p
    /\ NoDup (concat (region_eas <$> regions p)).
Proof.
  destruct (partition_from_graph_covers example_graph 16 PartitionOptions_default)
    as (p & Hp & _ & Hnd & _).
  - cbn. lia.
  - exists p. split; [exact Hp|exact Hnd].
Defined.

(** ** Preflight *)

Definition mode_rank (m : AnalysisMode) : nat :=
  match m with Normal => 0 | Large => 1 | Pathological => 2 end.

(** A function that is at least as big in every measure the thresholds
    look at is never analysed in a lighter mode. *)
Theorem mode_monotone (c c' : FunctionComplexity) (t : Thresholds) :
  (blocks c <= blocks c')%Z -> (edges c <= edges c')%Z ->
  (byte_size c <= byte_size c')%Z -> (sccs c <= sccs c')%Z ->
  mode_rank (mode c t) <= mode_rank (mode c' t).
Proof. intros H1 H2 H3 H4. unfold mode. cbbn; simpl; lia. Qed.

Lemma mode_monotone_witness :
  mode_rank (mode (complexity_from_function_graph JNull JNull true) Thresholds_default)
  <= mode_rank (mode (complexity_from_function_graph JNull example_graph true) Thresholds_default).
Proof. apply mode_monotone; vm_compute; discriminate. Defined.

(** The number of strongly connected components, documented as forcing
    the pathological mode, never does: the adapter leaves it at zero, so the
    selected mode is the same for any two positive bounds on it. *)
Theorem preflight_ignores_sccs (func graph : Value) (d : bool) (t : Thresholds) (k : Z) :
  (0 < pathological_sccs t)%Z -> (0 < k)%Z ->
  mode (complexity_from_function_graph func graph d) t
  = mode (complexity_from_function_graph func graph d)
      {| large_blocks := large_blocks t; large_edges := large_edges t; large_bytes := large_bytes t;
         pathological_blocks := pathological_blocks t; pathological_edges := pathological_edges t;
         pathological_bytes := pathological_bytes t; pathological_sccs := k |}.
Proof. intros Ht Hk. unfold mode. simpl. cbbn; done. Qed.

Lemma preflight_ignores_sccs_witness :
  mode (complexity_from_function_graph JNull example_graph true) Thresholds_default = Normal
  /\ mode (complexity_from_function_graph JNull example_graph true) Thresholds_default
   = mode (complexity_from_function_graph JNull example_graph true)
      {| large_blocks := 1500; large_edges := 2500; large_bytes := 100000;
         pathological_blocks := 10000; pathological_edges := 20000;
         pathological_bytes := 500000; pathological_sccs := 1 |}.
Proof.
  split; [reflexivity|].
  exact (preflight_ignores_sccs JNull example_graph true Thresholds_default 1 eq_refl eq_refl).
Defined.
