(* ===== verification/Dataflow.v ===== *)
(** * Dataflow: the bounded fixpoint over the region graph

    Models [rmcp-broker/src/dataflow.rs].  [elapsed i] is the reading of
    [started.elapsed()] in front of round [i], in nanoseconds; nothing is
    assumed of it.  The local [preds] map of [run_dataflow] and its closure
    argument are never read and have no counterpart.  The number of rounds
    is the recursion of [rounds]: it runs out exactly when
    [iterations >= max_iterations]. *)

From stdpp Require Import base list gmap strings sorting.
From Stdlib Require Import ZArith Lia.
From S2P Require Import Prelude Text Cfg Tarjan Regions.

Inductive Confidence := Confirmed | Heuristic | Unknown.

#[global] Instance Confidence_eq_dec : EqDecision Confidence.
Proof. solve_decision. Defined.

Record Fact := { key : string; value : option Z; confidence : Confidence }.

#[global] Instance Fact_eq_dec : EqDecision Fact.
Proof. solve_decision. Defined.

Record RegionFacts := {
  rf_region_id : string;
  out_facts : list Fact;
  in_requests : list string;
}.

Record DataflowResult := {
  res_in_facts : gmap string (list Fact);
  res_completed : list string;
  frontier : list string;
  iterations : nat;
  converged : bool;
  stop_reason : string;
}.

Record DataflowLimits := {
  max_iterations : nat;
  max_facts_per_region : nat;
  deadline : Z;
}.

Definition DataflowLimits_default : DataflowLimits :=
  {| max_iterations := 32; max_facts_per_region := 512; deadline := 30 * 10 ^ 9 |}.

(** The mutable state of the loop. *)
Record dstate := {
  in_facts : gmap string (list Fact);
  completed : list string;
  pending : gset string;
}.

Definition fact_cap_warning (n cap : nat) (succ : string) : string :=
  "WARN: fact cap " +:+ show_nat n +:+ "/" +:+ show_nat cap +:+ " reached at " +:+ succ.

(** [for f in &rf.out_facts { .. }]: the facts of [succ], the [completed] list. *)
Fixpoint push_facts (cap : nat) (succ : string) (fs entry : list Fact) (done : list string)
  : list Fact * list string :=
  match fs with
  | [] => (entry, done)
  | f :: fs' =>
      if bool_decide (f ∈ entry) then push_facts cap succ fs' entry done
      else if (length entry <? cap)%nat then push_facts cap succ fs' (entry ++ [f]) done
      else (entry, done ++ [fact_cap_warning (length entry) cap succ])
  end.

Definition find_region (p : Partition) (id : string) : option Region :=
  List.find (fun r => bool_decide (region_id r = id)) (regions p).

(** The body of the loop over the successors of [rid]. *)
Definition process_succ (p : Partition) (cap : nat) (rid : string) (rf : RegionFacts)
    (s : dstate * list string) (succ : string) : dstate * list string :=
  let '(st, next_ready) := s in
  let '(entry, done) :=
    push_facts cap succ (out_facts rf) (default [] (in_facts st !! succ)) (completed st) in
  let all_preds_done :=
    match find_region p succ with
    | Some r => forallb (fun q => bool_decide (q = rid) || bool_decide (q ∈ done)) (pred_regions r)
    | None => false
    end in
  let facts := <[succ := entry]> (in_facts st) in
  if all_preds_done && bool_decide (succ ∈ pending st) then
    ({| in_facts := facts; completed := done; pending := pending st ∖ {[succ]} |},
     next_ready ++ [succ])
  else ({| in_facts := facts; completed := done; pending := pending st |}, next_ready).

(** The body of the loop over the ready regions. *)
Definition process_region (p : Partition) (rfs : gmap string RegionFacts) (cap : nat)
    (s : dstate * list string) (rid : string) : dstate * list string :=
  let '(st, next_ready) := s in
  let st1 := {| in_facts := in_facts st; completed := completed st ++ [rid]; pending := pending st |} in
  match rfs !! rid with
  | None => (st1, next_ready)
  | Some rf =>
      foldl (process_succ p cap rid rf) (st1, next_ready)
        (default [] (succ_regions <$> find_region p rid))
  end.

Definition round (p : Partition) (rfs : gmap string RegionFacts) (cap : nat)
    (ready : list string) (st : dstate) : dstate * list string :=
  foldl (process_region p rfs cap) (st, []) ready.

(** The [while] loop: [left] rounds of the budget remain, [i] have run. *)
Fixpoint rounds (p : Partition) (rfs : gmap string RegionFacts) (limits : DataflowLimits)
    (elapsed : nat -> Z) (left i : nat) (ready : list string) (st : dstate)
  : dstate * list string * nat * string :=
  match ready with
  | [] => (st, [], i, "")
  | _ =>
      match left with
      | O => (st, ready, i, "work budget (" +:+ show_nat (max_iterations limits) +:+ ")")
      | S left' =>
          if (deadline limits <=? elapsed i)%Z then (st, ready, i, "deadline")
          else
            let '(st', ready') := round p rfs (max_facts_per_region limits) ready st in
            rounds p rfs limits elapsed left' (S i) ready' st'
      end
  end.

Definition start_ready (p : Partition) : list string :=
  region_id <$> filter (fun r => pred_regions r = []) (regions p).
Definition start_pending (p : Partition) : gset string :=
  list_to_set (region_id <$> filter (fun r => pred_regions r <> []) (regions p)).

Definition run_dataflow (p : Partition) (rfs : gmap string RegionFacts) (limits : DataflowLimits)
    (elapsed : nat -> Z) : DataflowResult :=
  let '(st, ready, n, stop) :=
    rounds p rfs limits elapsed (max_iterations limits) 0 (start_ready p)
      {| in_facts := ∅; completed := []; pending := start_pending p |} in
  let '(conv, stop') :=
    if bool_decide (ready = []) && bool_decide (stop = "") then
      if bool_decide (pending st = ∅) then (true, "converged")
      else (false, "frontier settled: " +:+ show_nat (size (pending st))
                     +:+ " region(s) with unsatisfied preds")
    else (false, stop) in
  {| res_in_facts := in_facts st;
     res_completed := completed st;
     frontier := filter (fun id => id ∉ completed st) (region_id <$> regions p);
     iterations := n;
     converged := conv;
     stop_reason := stop' |}.

(** ** What the pass relies on

    The region graph the partitioner promises: distinct ids, edges between
    regions, [pred_regions] the converse of [succ_regions], and ids that are
    never mistaken for one of the warnings kept in the same list. *)
Definition is_warning (x : string) : bool := starts_with "WARN" x.

Class RegionGraph (p : Partition) : Prop := {
  rg_nodup : NoDup (region_id <$> regions p);
  rg_pred : forall r q, r ∈ regions p -> q ∈ pred_regions r -> q ∈ region_id <$> regions p;
  rg_converse : forall r1 r2, r1 ∈ regions p -> r2 ∈ regions p ->
    (region_id r1 ∈ pred_regions r2 <-> region_id r2 ∈ succ_regions r1);
  rg_names : forall r, r ∈ regions p -> is_warning (region_id r) = false;
}.

(** ** Lemmas *)

Lemma fact_cap_warning_is n cap s : is_warning (fact_cap_warning n cap s) = true.
Proof. reflexivity. Qed.

(** What [push_facts] does to the facts of a region. *)
Lemma push_facts_spec cap s fs entry done entry' done' :
  push_facts cap s fs entry done = (entry', done') ->
  NoDup entry -> length entry <= cap ->
  (done' = done \/ exists n, done' = done ++ [fact_cap_warning n cap s])
  /\ NoDup entry' /\ length entry' <= cap
  /\ (forall f, f ∈ entry' -> f ∈ entry \/ f ∈ fs)
  /\ (forall f, f ∈ entry -> f ∈ entry')
  /\ length entry <= length entry'
  /\ (forall f, f ∈ fs -> f ∈ entry' \/ cap <= length entry').
Proof.
  revert entry. induction fs as [|f fs IH]; intros entry Hrun Hnd Hcap; simpl in Hrun.
  { injection Hrun as <- <-. split; [by left|]. do 2 (split; [done|]). split; [by left|].
    do 2 (split; [done|]). intros f Hf. inversion Hf. }
  case_bool_decide as Hin; [|destruct (Nat.ltb_spec (length entry) cap) as [Hlt|Hge]].
  - destruct (IH _ Hrun Hnd Hcap) as (Hd & H1 & H2 & H3 & H4 & H5 & H6).
    repeat (split; [done|]). split; [|split; [done|split; [done|]]].
    + intros g Hg. destruct (H3 g Hg); [by left|right; by right].
    + intros g [->|Hg]%elem_of_cons; auto.
  - destruct (IH _ Hrun) as (Hd & H1 & H2 & H3 & H4 & H5 & H6).
    { apply NoDup_app. split; [done|]. split; [|apply NoDup_singleton].
      intros x Hx Hf. apply list_elem_of_singleton in Hf as ->. done. }
    { rewrite length_app. simpl. lia. }
    rewrite length_app in H5. simpl in H5.
    repeat (split; [done|]). split; [|split; [|split; [lia|]]].
    + intros g Hg. destruct (H3 g Hg) as [[?|Hf]%elem_of_app|?]; [by left| |right; by right].
      apply list_elem_of_singleton in Hf as ->. right. left.
    + intros g Hg. apply H4, elem_of_app. by left.
    + intros g [->|Hg]%elem_of_cons; [|auto]. left. apply H4, elem_of_app. right.
      by apply list_elem_of_singleton.
  - injection Hrun as <- <-. split; [right; eauto|]. do 2 (split; [done|]). split; [by left|].
    do 2 (split; [done|]). intros g _. by right.
Qed.

Section Pass.
Context (p : Partition) `{Hp : !RegionGraph p} (rfs : gmap string RegionFacts) (cap : nat).

Lemma region_id_inj r1 r2 :
  r1 ∈ regions p -> r2 ∈ regions p -> region_id r1 = region_id r2 -> r1 = r2.
Proof using Hp.
  intros [i Hi]%list_elem_of_lookup [j Hj]%list_elem_of_lookup E.
  assert (i = j) as ->; [|congruence].
  eapply (NoDup_lookup (region_id <$> regions p)); [apply rg_nodup| |].
  - rewrite list_lookup_fmap, Hi. done.
  - rewrite list_lookup_fmap, Hj. simpl. congruence.
Qed.

Lemma find_region_spec r : r ∈ regions p -> find_region p (region_id r) = Some r.
Proof using Hp.
  intros Hr. unfold find_region.
  destruct (List.find _ (regions p)) as [r'|] eqn:Hf.
  - apply find_some in Hf as [Hin Hd]. apply bool_decide_eq_true in Hd.
    f_equal. apply region_id_inj; [by apply list_elem_of_In|done|done].
  - apply find_none with (x := r) in Hf; [|by apply list_elem_of_In].
    apply bool_decide_eq_false in Hf. done.
Qed.

Definition facts_everywhere : Prop := forall r, r ∈ regions p -> is_Some (rfs !! region_id r).

(** The invariant inside a round: [cur] is the region being propagated,
    [todo] and [next] are the two queues; successors of [cur] in [remw] are
    still to be tried for readiness, those in [reml] still to get its facts. *)
Record inv (cur : string) (remw reml todo next : list string) (st : dstate) : Prop := {
  v_cover : forall r, r ∈ regions p ->
    region_id r ∈ completed st \/ region_id r ∈ todo ++ next \/ region_id r ∈ pending st;
  v_queue : forall x, x ∈ todo ++ next -> exists r, r ∈ regions p /\ region_id r = x
    /\ forall q, q ∈ pred_regions r -> q ∈ completed st;
  v_kind : forall x, x ∈ completed st -> x ∈ region_id <$> regions p \/ is_warning x = true;
  v_pending : forall x, x ∈ pending st -> x ∈ region_id <$> regions p;
  v_nodup : NoDup (filter (fun x => is_warning x = false) (completed st) ++ todo ++ next);
  v_disj : forall x, x ∈ pending st -> x ∉ completed st /\ x ∉ todo ++ next;
  v_topo : forall i r, r ∈ regions p -> completed st !! i = Some (region_id r) ->
    forall q, q ∈ pred_regions r -> q ∈ take i (completed st);
  v_wait : facts_everywhere -> forall r, r ∈ regions p -> region_id r ∈ pending st ->
    (exists q, q ∈ pred_regions r /\ q ∉ completed st) \/ region_id r ∈ remw;
  v_facts : forall s entry, in_facts st !! s = Some entry -> NoDup entry /\ length entry <= cap
    /\ forall f, f ∈ entry -> exists r rf, r ∈ regions p /\ s ∈ succ_regions r
         /\ region_id r ∈ completed st /\ rfs !! region_id r = Some rf /\ f ∈ out_facts rf;
  v_lossless : forall r rf s f, r ∈ regions p -> region_id r ∈ completed st ->
    rfs !! region_id r = Some rf -> s ∈ succ_regions r -> f ∈ out_facts rf ->
    (region_id r = cur /\ s ∈ reml) \/ f ∈ default [] (in_facts st !! s)
    \/ cap <= length (default [] (in_facts st !! s));
}.

Lemma id_elem x : x ∈ region_id <$> regions p <-> exists r, r ∈ regions p /\ region_id r = x.
Proof using Type. rewrite list_elem_of_fmap. split; intros (r & ? & ?); eauto. Qed.

Lemma id_not_warning x : x ∈ region_id <$> regions p -> is_warning x = false.
Proof using Hp. rewrite id_elem. intros (r & Hr & <-). by apply rg_names. Qed.

Lemma inv_start cur :
  inv cur [] [] (start_ready p) []
    {| in_facts := ∅; completed := []; pending := start_pending p |}.
Proof using Hp.
  split; cbn [completed pending in_facts]; unfold start_ready, start_pending; try done.
  - intros r Hr. right. rewrite app_nil_r, elem_of_list_to_set, !list_elem_of_fmap.
    destruct (decide (pred_regions r = [])); [left|right]; exists r;
      by rewrite list_elem_of_filter.
  - intros x. rewrite app_nil_r. intros (r & -> & [Hn Hr]%list_elem_of_filter)%list_elem_of_fmap.
    exists r. split; [done|]. split; [done|]. rewrite Hn. intros q Hq. inversion Hq.
  - intros x Hx. inversion Hx.
  - intros x. rewrite elem_of_list_to_set.
    intros (r & -> & [_ Hr]%list_elem_of_filter)%list_elem_of_fmap. by apply list_elem_of_fmap_2.
  - rewrite filter_nil, app_nil_r. simpl. eapply sublist_NoDup; [apply rg_nodup|].
    apply fmap_sublist, sublist_filter.
  - intros x. rewrite elem_of_list_to_set, app_nil_r.
    intros (r & -> & [Hn Hr]%list_elem_of_filter)%list_elem_of_fmap. split; [apply not_elem_of_nil|].
    intros (r' & E & [Hn' Hr']%list_elem_of_filter)%list_elem_of_fmap.
    apply region_id_inj in E; [|done..]. by subst.
  - intros _ r Hr. rewrite elem_of_list_to_set.
    intros (r' & E & [Hn Hr']%list_elem_of_filter)%list_elem_of_fmap.
    apply region_id_inj in E; [|done..]. subst r'. left.
    destruct (pred_regions r) as [|q qs]; [done|]. exists q. split; [left|apply not_elem_of_nil].
  - intros r rf s f _ Hx. inversion Hx.
Qed.

(** [completed] only grows by warnings while facts are pushed. *)
Definition grows (d d' : list string) : Prop :=
  exists ws, d' = d ++ ws /\ Forall (fun w => is_warning w = true) ws.

Lemma grows_id d d' x : grows d d' -> x ∈ region_id <$> regions p -> (x ∈ d' <-> x ∈ d).
Proof using Hp.
  intros (ws & -> & Hws) Hx%id_not_warning. rewrite elem_of_app. split; [|by left].
  intros [?|Hin]; [done|]. rewrite Forall_forall in Hws. by rewrite (Hws x Hin) in Hx.
Qed.

Lemma grows_filter d d' :
  grows d d' -> filter (fun x => is_warning x = false) d' = filter (fun x => is_warning x = false) d.
Proof using Type.
  intros (ws & -> & Hws). rewrite filter_app.
  replace (filter _ ws) with (@nil string); [by rewrite app_nil_r|].
  induction Hws as [|w ws Hw _ IH]; [done|]. rewrite filter_cons, decide_False; [done|congruence].
Qed.

(** The facts of a region keep their sources when [s] receives those of [cur]. *)
Lemma push_sources cur rf s cs ps todo next st rcur entry done s' e' :
  rcur ∈ regions p -> region_id rcur = cur -> cur ∈ completed st -> rfs !! cur = Some rf -> s ∈ succ_regions rcur ->
  grows (completed st) done -> inv cur cs ps todo next st -> NoDup entry -> length entry <= cap ->
  (forall f, f ∈ entry -> f ∈ default [] (in_facts st !! s) \/ f ∈ out_facts rf) ->
  <[s := entry]> (in_facts st) !! s' = Some e' ->
  NoDup e' /\ length e' <= cap
  /\ forall f, f ∈ e' -> exists r rf, r ∈ regions p /\ s' ∈ succ_regions r
       /\ region_id r ∈ done /\ rfs !! region_id r = Some rf /\ f ∈ out_facts rf.
Proof using Hp.
  intros Hr Hcur Hin Hrf Hs Hg H Hnd Hlen Hfrom. pose proof (fun x => grows_id _ _ x Hg) as Hid.
  rewrite lookup_insert. destruct (decide (s = s')) as [<-|Hne].
  - intros [= <-]. split; [done|]. split; [done|]. intros f Hf. destruct (Hfrom f Hf) as [Hf'|Hf'].
    + destruct (in_facts st !! s) as [e0|] eqn:E; [|inversion Hf'].
      destruct (v_facts _ _ _ _ _ _ H s e0 E) as (_ & _ & Hsrc).
      destruct (Hsrc f Hf') as (r' & rf' & ? & ? & ? & ?). exists r', rf'.
      rewrite Hid by (by apply list_elem_of_fmap_2). done.
    + exists rcur, rf. rewrite Hcur, Hid; [done|]. rewrite <- Hcur. by apply list_elem_of_fmap_2.
  - intros E. destruct (v_facts _ _ _ _ _ _ H s' e' E) as (? & ? & Hsrc). split; [done|]. split; [done|].
    intros f Hf. destruct (Hsrc f Hf) as (r' & rf' & ? & ? & ? & ?). exists r', rf'.
    rewrite Hid by (by apply list_elem_of_fmap_2). done.
Qed.

Lemma inv_push cur rf s rem todo next st rcur entry done :
  rcur ∈ regions p -> region_id rcur = cur -> cur ∈ completed st ->
  rfs !! cur = Some rf -> s ∈ succ_regions rcur ->
  push_facts cap s (out_facts rf) (default [] (in_facts st !! s)) (completed st) = (entry, done) ->
  inv cur (s :: rem) (s :: rem) todo next st ->
  inv cur (s :: rem) rem todo next
    {| in_facts := <[s := entry]> (in_facts st); completed := done; pending := pending st |}
  /\ grows (completed st) done.
Proof using Hp.
  intros Hr Hcur Hin Hrf Hs Hpush H.
  destruct (push_facts_spec _ _ _ _ _ _ _ Hpush) as (Hd & Hnd & Hlen & Hfrom & Hkeep & Hmono & Hall).
  { destruct (in_facts st !! s) as [e0|] eqn:E; [|constructor]. by destruct (v_facts _ _ _ _ _ _ H s e0 E). }
  { destruct (in_facts st !! s) as [e0|] eqn:E; [|simpl; lia].
    by destruct (v_facts _ _ _ _ _ _ H s e0 E) as (_ & ? & _). }
  assert (grows (completed st) done) as Hg.
  { destruct Hd as [->|(n & ->)].
    - exists []. by rewrite app_nil_r.
    - exists [fact_cap_warning n cap s]. split; [done|]. by repeat constructor. }
  split; [|done]. pose proof (fun x => grows_id _ _ x Hg) as Hid.
  split; cbn [completed pending in_facts].
  - intros r' Hr'. rewrite Hid by (by apply list_elem_of_fmap_2). by apply (v_cover _ _ _ _ _ _ H).
  - intros x Hx. destruct (v_queue _ _ _ _ _ _ H x Hx) as (r' & Hr' & E & Hq). exists r'.
    split; [done|]. split; [done|]. intros q Hq'. apply Hid; [by eapply rg_pred|by apply Hq].
  - destruct Hg as (ws & -> & Hws). intros x [Hx|Hx]%elem_of_app; [by apply (v_kind _ _ _ _ _ _ H)|].
    right. rewrite Forall_forall in Hws. by apply Hws.
  - apply (v_pending _ _ _ _ _ _ H).
  - rewrite (grows_filter _ _ Hg). apply (v_nodup _ _ _ _ _ _ H).
  - intros x Hx. rewrite Hid by (by apply (v_pending _ _ _ _ _ _ H)). by apply (v_disj _ _ _ _ _ _ H).
  - intros i r' Hr' Hi q Hq. destruct Hg as (ws & -> & Hws).
    apply lookup_app_Some in Hi as [Hi|[_ Hi]].
    + rewrite take_app_le by (apply lookup_lt_Some in Hi; lia). by eapply (v_topo _ _ _ _ _ _ H).
    + apply list_elem_of_lookup_2 in Hi. rewrite Forall_forall in Hws.
      pose proof (Hws _ Hi). rewrite rg_names in *; done.
  - intros Hfe r' Hr' Hpe. destruct (v_wait _ _ _ _ _ _ H Hfe r' Hr' Hpe) as [(q & Hq & Hn)|?]; [|by right].
    left. exists q. split; [done|]. rewrite Hid; [done|]. by eapply rg_pred.
  - intros s' e'. by apply (push_sources cur rf s (s :: rem) (s :: rem) todo next st rcur).
  - intros r' rf' s' f Hr' Hc Hrf' Hs' Hf. rewrite Hid in Hc by (by apply list_elem_of_fmap_2).
    rewrite lookup_insert. destruct (decide (s = s')) as [<-|Hne]; simpl.
    + destruct (v_lossless _ _ _ _ _ _ H r' rf' s f Hr' Hc Hrf' Hs' Hf) as [[E _]|[?|?]].
      * right. apply Hall. assert (rf' = rf) as -> by congruence. done.
      * right. left. by apply Hkeep.
      * right. right. lia.
    + destruct (v_lossless _ _ _ _ _ _ H r' rf' s' f Hr' Hc Hrf' Hs' Hf) as [[E Hin']|?]; [|by right].
      left. split; [done|]. apply elem_of_cons in Hin' as [->|?]; done.
Qed.

(** A successor whose predecessors are all done moves to the next queue. *)
Lemma inv_ready cur s rem todo next st r :
  r ∈ regions p -> region_id r = s -> (forall q, q ∈ pred_regions r -> q ∈ completed st) ->
  s ∈ pending st ->
  inv cur (s :: rem) rem todo next st ->
  inv cur rem rem todo (next ++ [s])
    {| in_facts := in_facts st; completed := completed st; pending := pending st ∖ {[s]} |}.
Proof using Hp.
  intros Hr Hs Hpreds Hpe H. split; cbn [completed pending in_facts].
  - intros r' Hr'. rewrite app_assoc, (elem_of_app (todo ++ next)), list_elem_of_singleton.
    destruct (decide (region_id r' = s)) as [E|Hne]; [by right; left; right|].
    destruct (v_cover _ _ _ _ _ _ H r' Hr') as [?|[?|?]]; [by left|by right; left; left|].
    right. right. by apply elem_of_difference; rewrite elem_of_singleton.
  - intros x. rewrite app_assoc, (elem_of_app (todo ++ next)), list_elem_of_singleton.
    intros [Hx| ->]; [by apply (v_queue _ _ _ _ _ _ H)|]. by exists r.
  - apply (v_kind _ _ _ _ _ _ H).
  - intros x [Hx _]%elem_of_difference. by apply (v_pending _ _ _ _ _ _ H).
  - rewrite (app_assoc todo), app_assoc. apply NoDup_app. split; [apply (v_nodup _ _ _ _ _ _ H)|].
    split; [|apply NoDup_singleton]. intros x Hx Hx'. apply list_elem_of_singleton in Hx' as ->.
    destruct (v_disj _ _ _ _ _ _ H s Hpe) as [Hn1 Hn2].
    apply elem_of_app in Hx as [[_ Hx]%list_elem_of_filter|Hx]; done.
  - intros x [Hx Hne]%elem_of_difference. rewrite elem_of_singleton in Hne.
    destruct (v_disj _ _ _ _ _ _ H x Hx) as [Hn1 Hn2]. split; [done|].
    rewrite app_assoc, elem_of_app, list_elem_of_singleton. tauto.
  - apply (v_topo _ _ _ _ _ _ H).
  - intros Hfe r' Hr' [Hx Hne]%elem_of_difference. rewrite elem_of_singleton in Hne.
    destruct (v_wait _ _ _ _ _ _ H Hfe r' Hr' Hx) as [?|[?|?]%elem_of_cons]; [by left|done|by right].
  - apply (v_facts _ _ _ _ _ _ H).
  - apply (v_lossless _ _ _ _ _ _ H).
Qed.

Lemma inv_not_ready cur s rem reml todo next st :
  (forall r, facts_everywhere -> r ∈ regions p -> region_id r = s -> s ∈ pending st ->
     exists q, q ∈ pred_regions r /\ q ∉ completed st) ->
  inv cur (s :: rem) reml todo next st -> inv cur rem reml todo next st.
Proof using Type.
  intros Hs []. split; try done. intros Hfe r Hr Hx.
  destruct (v_wait0 Hfe r Hr Hx) as [?|[E|?]%elem_of_cons]; [by left| |by right].
  left. apply (Hs r Hfe Hr E). by rewrite <- E.
Qed.

Lemma process_succ_ok cur rf s rem todo next st rcur :
  rcur ∈ regions p -> region_id rcur = cur -> cur ∈ completed st ->
  rfs !! cur = Some rf -> s ∈ succ_regions rcur ->
  inv cur (s :: rem) (s :: rem) todo next st ->
  exists st' next', process_succ p cap cur rf (st, next) s = (st', next')
    /\ inv cur rem rem todo next' st' /\ cur ∈ completed st'.
Proof using Hp.
  intros Hr Hcur Hin Hrf Hs H. unfold process_succ.
  destruct (push_facts _ _ _ _ _) as [entry done] eqn:Hpush.
  destruct (inv_push cur rf s rem todo next st rcur entry done Hr Hcur Hin Hrf Hs Hpush H) as [H1 Hg].
  assert (cur ∈ done) as Hin'.
  { destruct Hg as (ws & -> & _). apply elem_of_app. by left. }
  set (ready := match find_region p s with Some r => _ | None => false end).
  destruct (ready && bool_decide (s ∈ pending st)) eqn:Hb.
  - apply andb_true_iff in Hb as [Hb Hpe%bool_decide_eq_true].
    eexists _, _. split; [done|]. split; [|done].
    destruct (proj1 (id_elem s) (v_pending _ _ _ _ _ _ H s Hpe)) as (r & Hr' & Hid).
    subst ready. rewrite <- Hid, find_region_spec in Hb by done. rewrite forallb_forall in Hb.
    eapply (inv_ready cur s rem todo next _ r) in H1; try done.
    cbn [completed]. intros q Hq%list_elem_of_In%Hb%orb_true_iff.
    destruct Hq as [Hq|Hq]; apply bool_decide_eq_true in Hq; by subst.
  - eexists _, _. split; [done|]. split; [|done]. eapply inv_not_ready; [|exact H1].
    cbn [completed pending]. intros r _ Hr' Hid Hpe.
    rewrite (bool_decide_true _ Hpe), andb_true_r in Hb. subst ready.
    rewrite <- Hid, find_region_spec in Hb by done.
    apply not_true_iff_false in Hb. rewrite forallb_forall in Hb.
    destruct (decide (Exists (fun q => q ∉ done) (pred_regions r))) as [He|Hn].
    + apply Exists_exists in He as (q & Hq & Hd). eauto.
    + exfalso. apply Hb. intros q Hq%list_elem_of_In. apply orb_true_iff. right.
      apply bool_decide_eq_true. destruct (decide (q ∈ done)); [done|].
      exfalso. apply Hn, Exists_exists. eauto.
Qed.

Lemma process_succs_ok cur rf ss todo next st rcur :
  rcur ∈ regions p -> region_id rcur = cur -> cur ∈ completed st ->
  rfs !! cur = Some rf -> ss ⊆ succ_regions rcur ->
  inv cur ss ss todo next st ->
  exists st' next', foldl (process_succ p cap cur rf) (st, next) ss = (st', next')
    /\ inv cur [] [] todo next' st'.
Proof using Hp.
  intros Hr Hcur. revert st next. induction ss as [|s ss IH]; intros st next Hin Hrf Hss H.
  { by exists st, next. }
  destruct (process_succ_ok cur rf s ss todo next st rcur) as (st1 & n1 & E & H1 & Hin1); try done.
  { apply Hss. left. }
  cbn [foldl]. rewrite E. apply IH; try done. intros x Hx. apply Hss. by right.
Qed.

(** Taking a region off the queue. *)
Lemma inv_take cur rid todo next st r :
  r ∈ regions p -> region_id r = rid ->
  inv cur [] [] (rid :: todo) next st ->
  inv rid (succ_regions r) (succ_regions r) todo next
    {| in_facts := in_facts st; completed := completed st ++ [rid]; pending := pending st |}.
Proof using Hp.
  intros Hr Hid H. pose proof (id_not_warning rid) as Hw. rewrite id_elem in Hw.
  split; cbn [completed pending in_facts].
  - intros r' Hr'. rewrite elem_of_app, list_elem_of_singleton.
    destruct (v_cover _ _ _ _ _ _ H r' Hr') as [?|[Hx|?]]; [by left; left| |by right; right].
    simpl in Hx. apply elem_of_cons in Hx as [?|?]; [by left; right|by right; left].
  - intros x Hx. destruct (v_queue _ _ _ _ _ _ H x) as (r' & ? & ? & Hq); [by right|].
    exists r'. split; [done|]. split; [done|]. intros q Hq'. apply elem_of_app. left. auto.
  - intros x [Hx|Hx]%elem_of_app; [by apply (v_kind _ _ _ _ _ _ H)|].
    apply list_elem_of_singleton in Hx as ->. left. apply id_elem. eauto.
  - apply (v_pending _ _ _ _ _ _ H).
  - rewrite filter_app, filter_cons, decide_True by eauto. rewrite filter_nil, <- app_assoc.
    apply (v_nodup _ _ _ _ _ _ H).
  - intros x Hx. destruct (v_disj _ _ _ _ _ _ H x Hx) as [H1 H2].
    rewrite elem_of_app, list_elem_of_singleton. simpl in H2. rewrite elem_of_cons in H2. tauto.
  - intros i r' Hr' Hi q Hq. apply lookup_app_Some in Hi as [Hi|[Hge Hi]].
    + rewrite take_app_le by (apply lookup_lt_Some in Hi; lia). by eapply (v_topo _ _ _ _ _ _ H).
    + apply list_lookup_singleton_Some in Hi as [Hi Hx].
      assert (r' = r) as -> by (apply region_id_inj; congruence).
      rewrite take_app_ge, elem_of_app by done. left.
      destruct (v_queue _ _ _ _ _ _ H rid) as (r2 & Hr2 & E2 & Hq2); [left|].
      assert (r2 = r) as -> by (apply region_id_inj; congruence). by apply Hq2.
  - intros Hfe r' Hr' Hx. destruct (v_wait _ _ _ _ _ _ H Hfe r' Hr' Hx) as [(q & Hq & Hn)|Hnil];
      [|inversion Hnil].
    destruct (decide (q = rid)) as [->|Hne].
    + right. apply (rg_converse r r'); [done|done|]. by rewrite Hid.
    + left. exists q. rewrite elem_of_app, list_elem_of_singleton. tauto.
  - intros s e E. destruct (v_facts _ _ _ _ _ _ H s e E) as (? & ? & Hsrc).
    split; [done|]. split; [done|]. intros f Hf.
    destruct (Hsrc f Hf) as (r' & rf' & ? & ? & ? & ?). exists r', rf'. rewrite elem_of_app. tauto.
  - intros r' rf' s f Hr' Hc Hrf Hs Hf. apply elem_of_app in Hc as [Hc|Hc].
    + destruct (v_lossless _ _ _ _ _ _ H r' rf' s f Hr' Hc Hrf Hs Hf) as [[_ Hn]|?];
        [inversion Hn|by right].
    + apply list_elem_of_singleton in Hc. left. split; [done|].
      assert (r' = r) as -> by (apply region_id_inj; congruence). done.
Qed.

Lemma process_region_ok rid todo next st :
  inv "" [] [] (rid :: todo) next st ->
  exists st' next', process_region p rfs cap (st, next) rid = (st', next')
    /\ inv "" [] [] todo next' st'.
Proof using Hp.
  intros H. destruct (v_queue _ _ _ _ _ _ H rid) as (r & Hr & Hid & _); [left|].
  pose proof (inv_take "" rid todo next st r Hr Hid H) as H1.
  unfold process_region.
  assert (find_region p rid = Some r) as -> by (rewrite <- Hid; by apply find_region_spec). simpl.
  destruct (rfs !! rid) as [rf|] eqn:Hrf.
  - destruct (process_succs_ok rid rf (succ_regions r) todo next
      {| in_facts := in_facts st; completed := completed st ++ [rid]; pending := pending st |} r)
      as (st' & next' & -> & H2); try done.
    { cbn [completed]. apply elem_of_app. right. by apply list_elem_of_singleton. }
    exists st', next'. split; [done|]. destruct H2. split; try done.
    intros. destruct (v_lossless0 r0 rf0 s f) as [[_ Hn]|?]; try done; [inversion Hn|by right].
  - eexists _, _. split; [done|]. destruct H1. split; try done.
    + intros Hfe. destruct (Hfe r Hr) as [x Hx]. congruence.
    + intros. destruct (v_lossless0 r0 rf s f) as [[? _]|?]; try done; [congruence|by right].
Qed.

(** Propagation only adds to the completed list. *)
Lemma process_succs_completed cur rf ss st next :
  completed st ⊆ completed (foldl (process_succ p cap cur rf) (st, next) ss).1.
Proof using Hp.
  revert st next. induction ss as [|s ss IH]; intros st next; [done|]. cbn [foldl].
  unfold process_succ at 2. destruct (push_facts _ _ _ _ _) as [e d] eqn:Hpush.
  assert (completed st ⊆ d) as Hd.
  { clear IH. revert Hpush. generalize (default [] (in_facts st !! s)).
    induction (out_facts rf) as [|f fs IH]; intros l Hpush; simpl in Hpush.
    { by injection Hpush as _ <-. }
    repeat case_match; [by eapply IH..|]. injection Hpush as _ <-. set_solver. }
  destruct (_ && _); (etransitivity; [exact Hd|]); (etransitivity; [|apply IH]); done.
Qed.

Lemma process_region_completed st next rid :
  completed st ++ [rid] ⊆ completed (process_region p rfs cap (st, next) rid).1.
Proof using Hp.
  unfold process_region. destruct (rfs !! rid); [|done].
  etransitivity; [|apply process_succs_completed]. done.
Qed.

Lemma process_regions_ok ready next st :
  inv "" [] [] ready next st ->
  exists st' ready', foldl (process_region p rfs cap) (st, next) ready = (st', ready')
    /\ inv "" [] [] ready' [] st'
    /\ completed st ⊆ completed st' /\ ready ⊆ completed st'.
Proof using Hp.
  revert st next. induction ready as [|rid ready IH]; intros st next H.
  { exists st, next. split; [done|]. split; [|split; [done|apply list_subseteq_nil]].
    destruct H. split; rewrite ?app_nil_r; done. }
  destruct (process_region_ok rid ready next st H) as (st1 & n1 & E & H1).
  pose proof (process_region_completed st next rid) as Hc. rewrite E in Hc. simpl in Hc.
  cbn [foldl]. rewrite E. destruct (IH st1 n1 H1) as (st' & ready' & -> & H' & Hs1 & Hs2).
  exists st', ready'. split; [done|]. split; [done|]. split.
  - intros x Hx. apply Hs1, Hc, elem_of_app. by left.
  - intros x [->|Hx]%elem_of_cons; [|by apply Hs2]. apply Hs1, Hc, elem_of_app. right.
    by apply list_elem_of_singleton.
Qed.

Lemma round_ok ready st :
  inv "" [] [] ready [] st ->
  exists st' ready', round p rfs cap ready st = (st', ready')
    /\ inv "" [] [] ready' [] st'
    /\ completed st ⊆ completed st' /\ ready ⊆ completed st'.
Proof using Hp. apply process_regions_ok. Qed.
End Pass.

Section Run.
Context (p : Partition) `{Hp : !RegionGraph p} (rfs : gmap string RegionFacts).
Context (limits : DataflowLimits) (elapsed : nat -> Z).

#[local] Abbreviation pass_inv := (inv p rfs (max_facts_per_region limits) "" [] []).

Lemma rounds_ok left i ready st :
  pass_inv ready [] st ->
  exists st' ready' n stop, rounds p rfs limits elapsed left i ready st = (st', ready', n, stop)
    /\ pass_inv ready' [] st' /\ n <= i + left /\ (stop = "" <-> ready' = []).
Proof using Hp.
  revert i ready st. induction left as [|left IH]; intros i ready st H;
    destruct ready as [|x ready]; cbn [rounds].
  1,3: by eexists _, _, _, _; split; [done|]; split; [done|]; split; [lia|].
  - eexists _, _, _, _. split; [done|]. split; [done|]. split; [lia|]. by split.
  - destruct (_ <=? _)%Z.
    + eexists _, _, _, _. split; [done|]. split; [done|]. split; [lia|]. by split.
    + destruct (round_ok p rfs _ (x :: ready) st H) as (st1 & ready1 & -> & H1 & _).
      destruct (IH (S i) ready1 st1 H1) as (st' & ready' & n & stop & E & H' & Hn & Hs).
      exists st', ready', n, stop. split; [done|]. split; [done|]. split; [lia|done].
Qed.

(** The state in which the loop of [run_dataflow] stops. *)
Lemma run_dataflow_stop :
  exists st ready, pass_inv ready [] st
    /\ res_in_facts (run_dataflow p rfs limits elapsed) = in_facts st
    /\ res_completed (run_dataflow p rfs limits elapsed) = completed st
    /\ frontier (run_dataflow p rfs limits elapsed)
       = filter (fun id => id ∉ completed st) (region_id <$> regions p)
    /\ iterations (run_dataflow p rfs limits elapsed) <= max_iterations limits
    /\ (converged (run_dataflow p rfs limits elapsed) = true <-> ready = [] /\ pending st = ∅)
    /\ exists n stop, rounds p rfs limits elapsed (max_iterations limits) 0 (start_ready p)
         {| in_facts := ∅; completed := []; pending := start_pending p |} = (st, ready, n, stop).
Proof using Hp.
  destruct (rounds_ok (max_iterations limits) 0 (start_ready p)
    {| in_facts := ∅; completed := []; pending := start_pending p |})
    as (st & ready & n & stop & E & H & Hn & Hs); [by apply inv_start|].
  exists st, ready. split; [done|]. unfold run_dataflow. rewrite E.
  destruct (decide (ready = [])) as [->|Hne].
  - rewrite (proj2 Hs) by done. rewrite !(bool_decide_true (_ = _)) by done. simpl.
    case_bool_decide; simpl; (split; [done|]); (split; [done|]); (split; [done|]); (split; [done|]);
      (split; [naive_solver|]); eauto.
  - rewrite (bool_decide_false (ready = [])) by done. simpl.
    do 4 (split; [done|]). split; [split; [done|by intros [? _]]|eauto].
Qed.

Lemma queue_not_completed ready st x :
  pass_inv ready [] st -> x ∈ ready -> x ∉ completed st.
Proof using Hp.
  intros H Hx Hc. pose proof (v_nodup _ _ _ _ _ _ _ _ _ H) as Hnd. rewrite app_nil_r in Hnd.
  apply NoDup_app in Hnd as (_ & Hd & _). apply (Hd x); [|done].
  apply list_elem_of_filter. split; [|done].
  destruct (v_queue _ _ _ _ _ _ _ _ _ H x) as (r & Hr & <- & _); [by rewrite app_nil_r|].
  by apply rg_names.
Qed.

Section Acyclic.
Context (rank : string -> nat).
Context (Hfe : facts_everywhere p rfs).
Context (Hrank : forall r q, r ∈ regions p -> q ∈ pred_regions r -> rank q < rank (region_id r)).

(** A region whose predecessors are all completed is not pending. *)
Lemma not_waiting ready st r :
  pass_inv ready [] st -> r ∈ regions p ->
  (forall q, q ∈ pred_regions r -> q ∈ completed st) ->
  region_id r ∈ completed st \/ region_id r ∈ ready.
Proof using Hfe.
  intros H Hr Hq. destruct (v_cover _ _ _ _ _ _ _ _ _ H r Hr) as [?|[Hx|Hx]]; [by left| |].
  - right. by rewrite app_nil_r in Hx.
  - destruct (v_wait _ _ _ _ _ _ _ _ _ H Hfe r Hr Hx) as [(q & Hin & Hn)|Hn]; [|inversion Hn].
    by destruct Hn; apply Hq.
Qed.

Lemma settled_completed st r :
  pass_inv [] [] st -> r ∈ regions p -> region_id r ∈ completed st.
Proof using Hp Hfe Hrank.
  intros H. remember (rank (region_id r)) as k eqn:Hk. revert r Hk.
  induction (lt_wf k) as [k _ IH]. intros r -> Hr.
  destruct (not_waiting [] st r H Hr) as [?|Hn]; [|done|inversion Hn].
  intros q Hq. pose proof (rg_pred r q Hr Hq) as (rq & Hrq & <-)%id_elem.
  eapply IH; [by apply Hrank|done|done].
Qed.

Lemma completed_no_pending ready st :
  pass_inv ready [] st -> (forall r, r ∈ regions p -> region_id r ∈ completed st) ->
  ready = [] /\ pending st = ∅.
Proof using Hp.
  intros H Hall. split.
  - destruct ready as [|x ready]; [done|].
    destruct (v_queue _ _ _ _ _ _ _ _ _ H x) as (r & Hr & <- & _); [by left|].
    exfalso. apply (queue_not_completed _ st (region_id r) H); [left|by apply Hall].
  - apply elem_of_equiv_empty_L. intros x Hx.
    destruct (v_disj _ _ _ _ _ _ _ _ _ H x Hx) as [Hn _]. apply Hn.
    apply (v_pending _ _ _ _ _ _ _ _ _ H), id_elem in Hx as (r & Hr & <-). by apply Hall.
Qed.

Lemma rounds_complete left i ready st :
  (forall j, (elapsed j < deadline limits)%Z) ->
  (forall r, r ∈ regions p -> rank (region_id r) < i + left) ->
  pass_inv ready [] st ->
  (forall r, r ∈ regions p -> rank (region_id r) < i -> region_id r ∈ completed st) ->
  exists st' n, rounds p rfs limits elapsed left i ready st = (st', [], n, "")
    /\ forall r, r ∈ regions p -> region_id r ∈ completed st'.
Proof using Hp Hfe Hrank.
  intros Hel. revert i ready st. induction left as [|left IH]; intros i ready st Hmax H Hdone.
  - destruct (completed_no_pending ready st H) as [-> _].
    { intros r Hr. apply Hdone; [done|]. rewrite <- (Nat.add_0_r i). by apply Hmax. }
    exists st, i. split; [done|]. intros r Hr. by apply settled_completed.
  - destruct ready as [|x ready]; cbn [rounds].
    { exists st, i. split; [done|]. intros r Hr. by apply settled_completed. }
    specialize (Hel i) as Hi. destruct (Z.leb_spec (deadline limits) (elapsed i)); [lia|].
    destruct (round_ok p rfs _ (x :: ready) st H) as (st1 & ready1 & -> & H1 & Hs1 & Hs2).
    apply IH; [|done|].
    + intros r Hr. specialize (Hmax r Hr). lia.
    + intros r Hr Hlt. destruct (decide (rank (region_id r) < i)) as [?|Hge]; [by apply Hs1, Hdone|].
      destruct (not_waiting (x :: ready) st r H Hr) as [?|?]; [|by apply Hs1|by apply Hs2].
      intros q Hq. pose proof (rg_pred r q Hr Hq) as (rq & Hrq & <-)%id_elem.
      apply Hdone; [done|]. specialize (Hrank r _ Hr Hq). lia.
Qed.
End Acyclic.
End Run.

(** ** The partitioner keeps its promise *)

Lemma rid_not_warning i : is_warning (rid i) = false.
Proof. reflexivity. Qed.

Lemma partition_region_graph g opts p :
  cfg_wf g -> max_chunk_blocks opts <> 0 ->
  (Z.of_nat (length (block_eas g)) < u64_modulus)%Z ->
  partition g opts = Done p -> RegionGraph p.
Proof.
  intros Hg Hk Hsz Hrun.
  destruct (region_graph_spec g opts p Hg Hk Hsz Hrun) as (Hid & Hpr & Hnd & _ & _ & Hconv).
  split; [done|done|done|]. intros r Hr. destruct (Hid r Hr) as [i ->]. apply rid_not_warning.
Qed.

(** A straight-line function in two chunks. *)
Definition line_cfg : CfgIndex := {| block_eas := [16; 32; 48]%Z; block_ends := [];
  succs := [[1]; [2]; []]; indirect := []; direct_calls := 0; indirect_calls := 0; switches := 0 |}.
Definition line_partition : Partition :=
  match partition line_cfg {| max_chunk_blocks := 2; min_dispatcher_scc := 8 |} with
  | Done p => p
  | _ => {| version := 0; function_ea := 0; regions := []; block_region := ∅; diagnostics := [] |}
  end.
Definition line_facts : gmap string RegionFacts :=
  <["R1" := {| rf_region_id := "R1"; in_requests := [];
               out_facts := [{| key := "const:rax"; value := Some 7%Z; confidence := Confirmed |}] |}]>
  (<["R2" := {| rf_region_id := "R2"; out_facts := []; in_requests := [] |}]> ∅).

Lemma line_partition_ok : RegionGraph line_partition.
Proof.
  apply (partition_region_graph line_cfg {| max_chunk_blocks := 2; min_dispatcher_scc := 8 |}).
  - split; [reflexivity|]. cbn. repeat constructor.
  - discriminate.
  - reflexivity.
  - reflexivity.
Qed.

Example run_dataflow_example :
  let res := run_dataflow line_partition line_facts DataflowLimits_default (fun _ => 0%Z) in
  res_completed res = ["R1"; "R2"] /\ converged res = true
  /\ length (default [] (res_in_facts res !! "R2")) = 1.
Proof. vm_compute. done. Qed.

(** C16. Propagation is sound and bounded, whatever the budget, the clock and
    the facts: regions complete in topological order (every predecessor of a
    completed region completed earlier, so a region on a cycle never does);
    a region holds no fact twice and at most [max_facts_per_region]; each of
    its facts was produced by a completed region of which it is a successor;
    and a fact so produced is missing only from a region that is full. *)
Theorem dataflow_sound (p : Partition) (Hp : RegionGraph p) (rfs : gmap string RegionFacts)
    (limits : DataflowLimits) (elapsed : nat -> Z) :
  let res := run_dataflow p rfs limits elapsed in
  (forall i r, r ∈ regions p -> res_completed res !! i = Some (region_id r) ->
     forall q, q ∈ pred_regions r -> q ∈ take i (res_completed res))
  /\ (forall s entry, res_in_facts res !! s = Some entry ->
        NoDup entry /\ length entry <= max_facts_per_region limits
        /\ forall f, f ∈ entry -> exists r rf, r ∈ regions p /\ s ∈ succ_regions r
             /\ region_id r ∈ res_completed res /\ rfs !! region_id r = Some rf /\ f ∈ out_facts rf)
  /\ (forall r rf s f, r ∈ regions p -> region_id r ∈ res_completed res ->
        rfs !! region_id r = Some rf -> s ∈ succ_regions r -> f ∈ out_facts rf ->
        f ∈ default [] (res_in_facts res !! s)
        \/ max_facts_per_region limits <= length (default [] (res_in_facts res !! s))).
Proof.
  destruct (run_dataflow_stop p rfs limits elapsed) as (st & ready & H & Hf & Hc & _).
  cbv zeta. rewrite Hf, Hc. destruct H. split; [done|]. split; [done|].
  intros r rf s f H1 H2 H3 H4 H5.
  destruct (v_lossless0 r rf s f H1 H2 H3 H4 H5) as [[_ Hn]|?]; [inversion Hn|done].
Qed.

Lemma dataflow_sound_witness :
  "R1" ∈ take 1
    (res_completed (run_dataflow line_partition line_facts DataflowLimits_default (fun _ => 0%Z))).
Proof.
  destruct (dataflow_sound line_partition line_partition_ok line_facts DataflowLimits_default
    (fun _ => 0%Z)) as (Htopo & _).
  destruct (regions line_partition !! 1) as [r|] eqn:Hr; [|vm_compute in Hr; discriminate Hr].
  apply (Htopo 1 r).
  - apply (list_elem_of_lookup_2 _ 1). exact Hr.
  - vm_compute in Hr. injection Hr as <-. vm_compute. reflexivity.
  - vm_compute in Hr. injection Hr as <-. vm_compute. left.
Defined.

(** Nothing is lost when the pass stops early: it runs at most
    [max_iterations] rounds, no region completes twice, every region is
    either completed or in the resumable frontier and never both, and the
    pass reports convergence exactly when the frontier is empty. *)
Theorem dataflow_frontier_complete (p : Partition) (Hp : RegionGraph p)
    (rfs : gmap string RegionFacts) (limits : DataflowLimits) (elapsed : nat -> Z) :
  let res := run_dataflow p rfs limits elapsed in
  iterations res <= max_iterations limits
  /\ NoDup (filter (fun x => is_warning x = false) (res_completed res))
  /\ (forall r, r ∈ regions p ->
        (region_id r ∈ frontier res <-> region_id r ∉ res_completed res))
  /\ (forall x, x ∈ res_completed res ++ frontier res ->
        x ∈ region_id <$> regions p \/ is_warning x = true)
  /\ (converged res = true <-> frontier res = []).
Proof.
  destruct (run_dataflow_stop p rfs limits elapsed) as (st & ready & H & _ & Hc & Hfr & Hit & Hconv & _).
  cbv zeta. rewrite Hc, Hconv, Hfr. split; [done|]. split.
  { pose proof (v_nodup _ _ _ _ _ _ _ _ _ H) as Hnd. by apply NoDup_app in Hnd as [? _]. }
  split.
  { intros r Hr. rewrite list_elem_of_filter. split; [by intros [? _]|].
    intros Hn. split; [done|]. by apply list_elem_of_fmap_2. }
  split.
  { intros x [Hx|[_ Hx]%list_elem_of_filter]%elem_of_app; [|by left].
    by apply (v_kind _ _ _ _ _ _ _ _ _ H). }
  assert (filter (fun id => id ∉ completed st) (region_id <$> regions p) = []
    <-> forall r, r ∈ regions p -> region_id r ∈ completed st) as ->.
  { split.
    - intros Hnil r Hr. destruct (decide (region_id r ∈ completed st)) as [?|Hn]; [done|].
      assert (region_id r ∈ @nil string) as Hx; [|inversion Hx].
      rewrite <- Hnil. apply list_elem_of_filter. split; [done|]. by apply list_elem_of_fmap_2.
    - intros Hall. destruct (filter _ _) as [|x l] eqn:E; [done|]. exfalso.
      assert (x ∈ x :: l) as Hx by left. rewrite <- E in Hx.
      apply list_elem_of_filter in Hx as [Hn (r & -> & Hr)%list_elem_of_fmap]. by apply Hn, Hall. }
  split.
  - intros [-> Hpe] r Hr. destruct (v_cover _ _ _ _ _ _ _ _ _ H r Hr) as [?|[Hx|Hx]]; [done| |].
    + inversion Hx.
    + rewrite Hpe in Hx. set_solver.
  - intros Hall. by apply (completed_no_pending p rfs limits).
Qed.

Lemma dataflow_frontier_complete_witness :
  let res := run_dataflow line_partition line_facts DataflowLimits_default (fun _ => 0%Z) in
  iterations res <= 32 /\ (converged res = true <-> frontier res = []).
Proof.
  destruct (dataflow_frontier_complete line_partition line_partition_ok line_facts
    DataflowLimits_default (fun _ => 0%Z)) as (Hit & _ & _ & _ & Hc).
  split; [exact Hit|exact Hc].
Defined.

(** C17. On an acyclic region graph the pass converges: if every region has
    its facts, [rank] orders the regions along the edges, the budget exceeds
    every rank and the deadline does not pass, all regions complete, the
    frontier is empty and the pass says so. *)
Theorem dataflow_converges (p : Partition) (Hp : RegionGraph p) (rfs : gmap string RegionFacts)
    (limits : DataflowLimits) (elapsed : nat -> Z) (rank : string -> nat) :
  (forall r, r ∈ regions p -> is_Some (rfs !! region_id r)) ->
  (forall r q, r ∈ regions p -> q ∈ pred_regions r -> rank q < rank (region_id r)) ->
  (forall r, r ∈ regions p -> rank (region_id r) < max_iterations limits) ->
  (forall j, (elapsed j < deadline limits)%Z) ->
  let res := run_dataflow p rfs limits elapsed in
  (forall r, r ∈ regions p -> region_id r ∈ res_completed res)
  /\ converged res = true /\ stop_reason res = "converged".
Proof.
  intros Hfe Hrank Hmax Hel. unfold run_dataflow.
  destruct (rounds_complete p rfs limits elapsed rank Hfe Hrank (max_iterations limits) 0
    (start_ready p) {| in_facts := ∅; completed := []; pending := start_pending p |})
    as (st & n & E & Hall); [done|done|by apply inv_start|lia|].
  destruct (rounds_ok p rfs limits elapsed (max_iterations limits) 0 (start_ready p)
    {| in_facts := ∅; completed := []; pending := start_pending p |})
    as (st' & ready' & n' & stop' & E' & H & _); [by apply inv_start|].
  rewrite E in E'. injection E' as -> <- <- <-. rewrite E.
  destruct (completed_no_pending p rfs limits [] st' H Hall) as [_ Hpe].
  rewrite !bool_decide_true by done. done.
Qed.

Lemma dataflow_converges_witness :
  converged (run_dataflow line_partition line_facts DataflowLimits_default (fun _ => 0%Z)) = true.
Proof.
  refine (proj1 (proj2 (dataflow_converges line_partition line_partition_ok line_facts
    DataflowLimits_default (fun _ => 0%Z) (fun x => if bool_decide (x = "R1") then 0 else 1) _ _ _ _))).
  - assert (forallb (fun r => bool_decide (is_Some (line_facts !! region_id r)))
      (regions line_partition) = true) as Hall by (vm_compute; reflexivity).
    rewrite forallb_forall in Hall. intros r Hr%list_elem_of_In.
    exact (bool_decide_eq_true_1 _ (Hall r Hr)).
  - assert (forallb (fun r => forallb (fun q => bool_decide (q = "R1")
      && negb (bool_decide (region_id r = "R1"))) (pred_regions r)) (regions line_partition) = true)
      as Hall by (vm_compute; reflexivity).
    rewrite forallb_forall in Hall. intros r q Hr%list_elem_of_In Hq%list_elem_of_In.
    specialize (Hall r Hr). rewrite forallb_forall in Hall.
    specialize (Hall q Hq). apply andb_true_iff in Hall as [Hall1 Hall2].
    apply negb_true_iff in Hall2. rewrite Hall1, Hall2. lia.
  - intros r _. destruct (bool_decide _); simpl; lia.
  - intros _. reflexivity.
Defined.

(** Regions that form a cycle never become ready: the loop and the chunk of
    [example_cfg] wait for each other, and the pass does nothing. *)
Example cyclic_regions_never_start :
  match partition example_cfg PartitionOptions_default with
  | Done p =>
      let res := run_dataflow p ∅ DataflowLimits_default (fun _ => 0%Z) in
      iterations res = 0 /\ frontier res = ["R1"; "R2"]
      /\ stop_reason res = "frontier settled: 2 region(s) with unsatisfied preds"
  | _ => False
  end.
Proof. vm_compute. done. Qed.

(** A region without facts is completed but does not release its successors. *)
Example missing_facts_block_successors :
  let res := run_dataflow line_partition (delete "R1" line_facts) DataflowLimits_default (fun _ => 0%Z) in
  res_completed res = ["R1"] /\ frontier res = ["R2"] /\ converged res = false.
Proof. vm_compute. done. Qed.
