(* ===== verification/Pump.v ===== *)
(** * Pump: one worker session and its request pump

    Models the concurrent part of [rmcp-broker/src/worker_pool.rs]:
    [WorkerSession::call_with_timeout], [next_call_id], [pump_task],
    [fail_all], [mark_crashed] and the monitor task that
    [spawn_for_with_budget] starts, with the health states and failure
    classification of [rmcp-broker/src/recovery.rs].

    The tasks interleave: a [state] holds what they share and an [event] is
    one atomic step of one of them; [step] is the effect of an event, [None]
    when it is not enabled.  A caller of [call] is a number, standing for the
    receiving half of its one-shot channel.  The request channel is a queue
    of at most 64; a caller waiting for a slot is in [sending], a caller
    waiting for its answer in [waiting] (with its timeout in milliseconds),
    and [outcomes] is what [call] returned to whom.  [wire] logs the requests
    written to the worker.  The bytes of a frame are in [AsyncReader]; process
    management is outside. *)

From stdpp Require Import base list gmap strings.
From Stdlib Require Import ZArith Lia.
From S2P Require Import Prelude Text Json Errors Protocol.

Local Open Scope rmcp_scope.

(** ** Recovery data *)

Inductive WorkerHealth := Healthy | Crashed | Recovering | Dead.

#[global] Instance WorkerHealth_eq_dec : EqDecision WorkerHealth.
Proof. solve_decision. Defined.

Record RestartPolicy := { max_restarts : Z; backoff : Z }.
Definition RestartPolicy_default : RestartPolicy := {| max_restarts := 3; backoff := 200 * 10 ^ 6 |}.

Record SessionMeta := { meta_db_path : string; meta_backend_kind : string; meta_ida_version : string }.
Definition SessionMeta_new (db_path backend_kind ida_version : string) : SessionMeta :=
  {| meta_db_path := db_path; meta_backend_kind := backend_kind; meta_ida_version := ida_version |}.

Record ErrorLike := { like_code : string; like_message : string }.

Inductive CallFailure :=
  | Operation (e : ErrorLike)
  | UnknownOutcome (hint : string)
  | NotSent (hint : string)
  | TimedOut.

(** [From<Error> for CallFailure]. *)
Definition CallFailure_from (e : Error) : CallFailure :=
  Operation {| like_code := code e; like_message := to_string e |}.

Definition classify_send_failure (sent : bool) (why : string) : CallFailure :=
  if sent then UnknownOutcome why else NotSent why.

Definition is_mutation (method : string) : bool :=
  bool_decide (method ∈ ["rename"; "set_comment"; "set_type"; "patch_bytes"; "run_plugin"]).

(** ** Calls *)

Definition clamp (lo hi x : Z) : Z := Z.max lo (Z.min hi x).

(** The timeout of a call, in milliseconds. *)
Definition call_timeout (params : Value) (default_ms : Z) : Z :=
  match v ← get "timeout_ms" params; as_u64 v with
  | Some ms => clamp 5000 1800000 ms
  | None => default_ms
  end.

Definition dead_error : Error := Worker "worker is dead; close and reopen the db".
Definition closed_error : Error := Worker "worker request channel closed".
Definition dropped_error : Error := Worker "worker dropped response (crashed?)".
Definition timeout_error (ms : Z) : Error :=
  Worker ("worker timed out after " +:+ show_dec (ms / 1000)
    +:+ "s (budget: the agent may pass timeout_ms, 5000..1800000)").

Definition caller := nat.

Record state := {
  next_id : Z;
  sending : gmap caller (WorkerRequest * Z);
  queue : list (WorkerRequest * caller);
  pump_pending : gmap Z caller;
  wire : list (WorkerRequest * caller);
  waiting : gmap caller Z;
  outcomes : gmap caller (Result Value);
  pump_running : bool;
  crash_msg : option string;
  monitor : bool;
  tx_some : bool;
  held : bool;
  health : WorkerHealth;
}.

(** The state [spawn_for_with_budget] sets up after the handshake. *)
Definition init (id : Z) : state := {|
  next_id := id; sending := ∅; queue := []; pump_pending := ∅; wire := []; waiting := ∅;
  outcomes := ∅; pump_running := true; crash_msg := None; monitor := true;
  tx_some := true; held := true; health := Healthy;
|}.

(** [back.send(v)]: lost when the caller has stopped waiting. *)
Definition deliver (v : Result Value) (st : state) (c : caller) : state :=
  match waiting st !! c with
  | None => st
  | Some _ => {|
      next_id := next_id st; sending := sending st; queue := queue st;
      pump_pending := pump_pending st; wire := wire st;
      waiting := delete c (waiting st); outcomes := <[c := v]> (outcomes st);
      pump_running := pump_running st; crash_msg := crash_msg st; monitor := monitor st;
      tx_some := tx_some st; held := held st; health := health st |}
  end.

Definition deliver_all (v : Result Value) (cs : list caller) (st : state) : state :=
  foldl (deliver v) st cs.

(** The pump's own fields. *)
Definition set_pump (q : list (WorkerRequest * caller)) (pe : gmap Z caller)
    (w : list (WorkerRequest * caller)) (running : bool) (st : state) : state := {|
  next_id := next_id st; sending := sending st; queue := q; pump_pending := pe; wire := w;
  waiting := waiting st; outcomes := outcomes st; pump_running := running;
  crash_msg := crash_msg st; monitor := monitor st; tx_some := tx_some st; held := held st;
  health := health st |}.

(** [fail_all]: drain the pending map, answer each caller with an error. *)
Definition fail_all (why : string) (st : state) : state :=
  let st' := deliver_all (Err (Worker why)) (map_to_list (pump_pending st)).*2 st in
  set_pump (queue st') ∅ (wire st') (pump_running st') st'.

(** Leaving the loop: the receiver, the pending senders and the crash sender
    are dropped, so every caller still queued or pending sees its one-shot
    channel close. *)
Definition stop (st : state) : state :=
  let st' := deliver_all (Err dropped_error)
    ((queue st).*2 ++ (map_to_list (pump_pending st)).*2) st in
  set_pump [] ∅ (wire st') false st'.

Definition crash (msg : string) (st : state) : state := {|
  next_id := next_id st; sending := sending st; queue := queue st; pump_pending := pump_pending st;
  wire := wire st; waiting := waiting st; outcomes := outcomes st; pump_running := pump_running st;
  crash_msg := Some msg; monitor := monitor st; tx_some := tx_some st; held := held st;
  health := health st |}.

(** The value of a response frame. *)
Definition response_value (r : WorkerResponse) : Result Value :=
  match resp_result r with
  | Some v => Ok v
  | None => Err (match resp_error r with
                 | Some e => error_from_code (body_code e) (body_message e)
                 | None => Worker "worker error"
                 end)
  end.

(** [mark_crashed], by the monitor task, which then ends. *)
Definition mark_crashed (st : state) : state := {|
  next_id := next_id st; sending := sending st; queue := queue st; pump_pending := pump_pending st;
  wire := wire st; waiting := waiting st; outcomes := outcomes st; pump_running := pump_running st;
  crash_msg := crash_msg st; monitor := false; tx_some := false; held := held st;
  health := Crashed |}.

Inductive event :=
  | Begin (c : caller) (method : string) (params : Value) (default_ms : Z)
  | OtherSession
  | Send (c : caller)
  | Timeout (c : caller)
  | RecvWritten
  | RecvWriteFailed
  | RecvClosed
  | Response (r : WorkerResponse)
  | Eof
  | FrameError (e : string)
  | Monitor
  | DropSession.

(** The sender lives in the session, which the pool (or the caller that is
    opening it) and the monitor task keep alive. *)
Definition channel_open (st : state) : bool := tx_some st && (held st || monitor st).

Definition is_fresh (c : caller) (st : state) : bool :=
  bool_decide (sending st !! c = None) && bool_decide (waiting st !! c = None)
  && bool_decide (outcomes st !! c = None).

Definition set_calls (id : Z) (se : gmap caller (WorkerRequest * Z)) (q : list (WorkerRequest * caller))
    (w : gmap caller Z) (o : gmap caller (Result Value)) (st : state) : state := {|
  next_id := id; sending := se; queue := q; pump_pending := pump_pending st; wire := wire st;
  waiting := w; outcomes := o; pump_running := pump_running st; crash_msg := crash_msg st;
  monitor := monitor st; tx_some := tx_some st; held := held st; health := health st |}.

(** Up to the evaluation of the request, its id included. *)
Definition begin_call (c : caller) (method : string) (params : Value) (default_ms : Z) (st : state)
  : state :=
  if tx_some st then
    set_calls (wrapping_add64 (next_id st) 1)
      (<[c := ({| req_id := next_id st; req_method := method; req_params := params |},
               call_timeout params default_ms)]> (sending st))
      (queue st) (waiting st) (outcomes st) st
  else set_calls (next_id st) (sending st) (queue st) (waiting st)
         (<[c := Err dead_error]> (outcomes st)) st.

(** [tx.send(..).await]: an error once the pump is gone, else it waits for
    one of the 64 slots. *)
Definition send_call (c : caller) (st : state) : option state :=
  '(req, ms) ← sending st !! c;
  if negb (pump_running st) then
    Some (set_calls (next_id st) (delete c (sending st)) (queue st) (waiting st)
            (<[c := Err closed_error]> (outcomes st)) st)
  else if (length (queue st) <? 64)%nat then
    Some (set_calls (next_id st) (delete c (sending st)) (queue st ++ [(req, c)])
            (<[c := ms]> (waiting st)) (outcomes st) st)
  else None.

(** [pending.insert(req.id, back)] for the next queued request; a sender it
    replaces is dropped. *)
Definition recv (st : state) : option (WorkerRequest * caller * state) :=
  match queue st with
  | [] => None
  | (req, c) :: q =>
      let st1 := match pump_pending st !! req_id req with
                 | Some old => deliver (Err dropped_error) st old
                 | None => st
                 end in
      Some (req, c, set_pump q (<[req_id req := c]> (pump_pending st)) (wire st1)
                      (pump_running st1) st1)
  end.

Definition step (e : event) (st : state) : option state :=
  match e with
  | Begin c method params default_ms =>
      if held st && is_fresh c st then Some (begin_call c method params default_ms st) else None
  | OtherSession =>
      Some (set_calls (wrapping_add64 (next_id st) 1) (sending st) (queue st) (waiting st) (outcomes st) st)
  | Send c => send_call c st
  | Timeout c => ms ← waiting st !! c; Some (deliver (Err (timeout_error ms)) st c)
  | RecvWritten =>
      if pump_running st then
        '(req, c, st1) ← recv st;
        Some (set_pump (queue st1) (pump_pending st1) (wire st1 ++ [(req, c)]) (pump_running st1) st1)
      else None
  | RecvWriteFailed =>
      if pump_running st then
        '(_, st1) ← recv st;
        Some (stop (fail_all "worker stdin write failed" st1))
      else None
  | RecvClosed =>
      if pump_running st && bool_decide (queue st = []) && negb (channel_open st)
      then Some (stop st) else None
  | Response r =>
      if pump_running st then
        Some (match pump_pending st !! resp_id r with
              | Some c =>
                  deliver (response_value r)
                    (set_pump (queue st) (delete (resp_id r) (pump_pending st)) (wire st) true st) c
              | None => st
              end)
      else None
  | Eof =>
      if pump_running st then
        Some (stop (crash "worker exited unexpectedly" (fail_all "worker exited unexpectedly" st)))
      else None
  | FrameError m =>
      if pump_running st then
        Some (stop (crash ("worker frame error: " +:+ m) (fail_all ("worker frame error: " +:+ m) st)))
      else None
  | Monitor =>
      if monitor st then
        match crash_msg st with
        | Some _ => Some (mark_crashed st)
        | None =>
            if pump_running st then None
            else Some {|
              next_id := next_id st; sending := sending st; queue := queue st;
              pump_pending := pump_pending st; wire := wire st; waiting := waiting st;
              outcomes := outcomes st; pump_running := pump_running st; crash_msg := crash_msg st;
              monitor := false; tx_some := tx_some st; held := held st; health := health st |}
        end
      else None
  | DropSession =>
      if held st && bool_decide (sending st = ∅) && bool_decide (waiting st = ∅) then
        Some {|
          next_id := next_id st; sending := sending st; queue := queue st;
          pump_pending := pump_pending st; wire := wire st; waiting := waiting st;
          outcomes := outcomes st; pump_running := pump_running st; crash_msg := crash_msg st;
          monitor := monitor st; tx_some := tx_some st; held := false; health := health st |}
      else None
  end.

(** Executions: [steps es s s'] when the events [es] lead from [s] to [s']. *)
Inductive steps : list event -> state -> state -> Prop :=
  | steps_nil s : steps [] s s
  | steps_snoc es e s s' s'' : steps es s s' -> step e s' = Some s'' -> steps (es ++ [e]) s s''.

Fixpoint run (es : list event) (st : state) : option state :=
  match es with
  | [] => Some st
  | e :: es' => st' ← step e st; run es' st'
  end.

Example pump_example :
  (fun st => outcomes st !! 0) <$>
    run [Begin 0 "ping" JNull 120000; Send 0; RecvWritten;
         Response (WorkerResponse_ok 1 (JBool true))] (init 1)
  = Some (Some (Ok (JBool true))).
Proof. vm_compute. reflexivity. Qed.

(** ** Lemmas: delivering answers *)

(** The fields that delivering an answer leaves alone. *)
Definition frame (st st' : state) : Prop :=
  next_id st' = next_id st /\ sending st' = sending st /\ queue st' = queue st
  /\ pump_pending st' = pump_pending st /\ wire st' = wire st
  /\ pump_running st' = pump_running st /\ crash_msg st' = crash_msg st
  /\ monitor st' = monitor st /\ tx_some st' = tx_some st /\ held st' = held st
  /\ health st' = health st.

Lemma frame_trans s1 s2 s3 : frame s1 s2 -> frame s2 s3 -> frame s1 s3.
Proof.
  intros (? & ? & ? & ? & ? & ? & ? & ? & ? & ? & ?) (? & ? & ? & ? & ? & ? & ? & ? & ? & ? & ?).
  repeat split; congruence.
Qed.

Lemma deliver_spec v st c :
  frame st (deliver v st c)
  /\ waiting (deliver v st c) = delete c (waiting st)
  /\ forall c', outcomes (deliver v st c) !! c'
       = if decide (c' = c /\ is_Some (waiting st !! c)) then Some v else outcomes st !! c'.
Proof.
  unfold deliver. destruct (waiting st !! c) as [ms|] eqn:Hw; simpl.
  - split; [done|]. split; [done|]. intros c'. destruct (decide (c' = c)) as [->|Hne].
    + rewrite decide_True by eauto. apply lookup_insert_eq.
    + rewrite decide_False by naive_solver. by apply lookup_insert_ne.
  - split; [done|]. split; [by rewrite delete_id|]. intros c'.
    rewrite decide_False; [done|]. intros [_ [? ?]]. done.
Qed.

Lemma deliver_all_spec v cs st :
  frame st (deliver_all v cs st)
  /\ (forall c, waiting (deliver_all v cs st) !! c
        = if decide (c ∈ cs) then None else waiting st !! c)
  /\ (forall c, outcomes (deliver_all v cs st) !! c
        = if decide (c ∈ cs /\ is_Some (waiting st !! c)) then Some v else outcomes st !! c).
Proof.
  revert st. induction cs as [|a cs IH]; intros st.
  { cbn. split; [done|]. split; intros c.
    - rewrite decide_False; [done|]. apply not_elem_of_nil.
    - rewrite decide_False; [done|]. intros [Hc _]. inversion Hc. }
  cbn [deliver_all foldl]. fold (deliver_all v cs (deliver v st a)).
  destruct (IH (deliver v st a)) as (Hf & Hw & Ho). destruct (deliver_spec v st a) as (Hf1 & Hw1 & Ho1).
  split; [by eapply frame_trans|]. split; intros c.
  - rewrite Hw, Hw1. destruct (decide (c ∈ cs)) as [Hc|Hc].
    + by rewrite decide_True by (by right).
    + destruct (decide (c = a)) as [->|Hne].
      * rewrite decide_True by left. apply lookup_delete_eq.
      * rewrite decide_False by (intros [|]%elem_of_cons; done). by apply lookup_delete_ne.
  - rewrite Ho, Hw1, Ho1. destruct (decide (c = a)) as [->|Hne].
    + rewrite lookup_delete_eq. rewrite decide_False by (intros [_ [? ?]]; done).
      destruct (decide (is_Some (waiting st !! a))).
      * rewrite !decide_True; [done|split; [left|done]|done].
      * rewrite !decide_False by naive_solver. done.
    + rewrite lookup_delete_ne by done. rewrite (decide_False (P := c = a /\ _)) by naive_solver.
      destruct (decide (c ∈ cs /\ is_Some (waiting st !! c))) as [[? ?]|Hn].
      * rewrite decide_True; [done|]. split; [by right|done].
      * rewrite decide_False; [done|]. intros [[|]%elem_of_cons ?]; tauto.
Qed.

(** Callers the pump still owes an answer. *)
Definition owed (st : state) : list caller := (queue st).*2 ++ (map_to_list (pump_pending st)).*2.

Lemma elem_of_pending_callers (m : gmap Z caller) c :
  c ∈ (map_to_list m).*2 <-> exists id, m !! id = Some c.
Proof.
  rewrite list_elem_of_fmap. split.
  - intros ([id c'] & -> & Hin). apply elem_of_map_to_list in Hin. eauto.
  - intros [id Hid]. exists (id, c). split; [done|]. by apply elem_of_map_to_list.
Qed.

(** What leaving the loop does, with or without [fail_all] before. *)
Definition shut (st st' : state) : Prop :=
  next_id st' = next_id st /\ sending st' = sending st /\ wire st' = wire st
  /\ queue st' = [] /\ pump_pending st' = ∅ /\ pump_running st' = false
  /\ monitor st' = monitor st /\ tx_some st' = tx_some st /\ held st' = held st
  /\ health st' = health st
  /\ (forall c, waiting st' !! c = if decide (c ∈ owed st) then None else waiting st !! c)
  /\ (forall c, c ∉ owed st \/ waiting st !! c = None -> outcomes st' !! c = outcomes st !! c)
  /\ (forall c, c ∈ owed st -> is_Some (waiting st !! c) -> exists e, outcomes st' !! c = Some (Err e)).

Lemma stop_shut st : shut st (stop st).
Proof.
  unfold stop, shut. fold (owed st).
  destruct (deliver_all_spec (Err dropped_error) (owed st) st)
    as ((? & ? & ? & ? & ? & ? & ? & ? & ? & ? & ?) & Hw & Ho). simpl.
  do 10 (split; [done|]). split; [done|]. split; intros c.
  - intros Hc. rewrite Ho, decide_False; [done|]. intros [? [? ?]]. destruct Hc; [done|congruence].
  - intros Hc Hs. exists dropped_error. by rewrite Ho, decide_True.
Qed.

Lemma fail_all_shut why st (f : state -> state) :
  (forall s, f s = s \/ exists m, f s = crash m s) ->
  shut st (stop (f (fail_all why st))).
Proof.
  intros Hf. destruct (deliver_all_spec (Err (Worker why)) (map_to_list (pump_pending st)).*2 st)
    as ((? & ? & Hq & ? & ? & ? & ? & ? & ? & ? & ?) & Hw & Ho).
  set (s1 := f (fail_all why st)).
  assert (shut s1 (stop s1)) as Hs by apply stop_shut.
  assert (owed s1 = (queue st).*2) as Hs1.
  { unfold s1. destruct (Hf (fail_all why st)) as [->|[m ->]]; unfold owed; simpl;
      rewrite map_to_list_empty; simpl; by rewrite app_nil_r, Hq. }
  assert (forall c, waiting s1 !! c = if decide (c ∈ (map_to_list (pump_pending st)).*2) then None
    else waiting st !! c) as Hw1.
  { intros c. rewrite <- Hw. unfold s1. by destruct (Hf (fail_all why st)) as [->|[m ->]]. }
  assert (forall c, outcomes s1 !! c = if decide (c ∈ (map_to_list (pump_pending st)).*2
    /\ is_Some (waiting st !! c)) then Some (Err (Worker why)) else outcomes st !! c) as Ho1.
  { intros c. rewrite <- Ho. unfold s1. by destruct (Hf (fail_all why st)) as [->|[m ->]]. }
  assert (next_id s1 = next_id st /\ sending s1 = sending st /\ wire s1 = wire st
    /\ monitor s1 = monitor st /\ tx_some s1 = tx_some st /\ held s1 = held st
    /\ health s1 = health st) as (? & ? & ? & ? & ? & ? & ?).
  { unfold s1. destruct (Hf (fail_all why st)) as [->|[m ->]]; simpl; done. }
  clearbody s1. unfold shut in *. rewrite Hs1 in Hs.
  destruct Hs as (? & ? & ? & ? & ? & ? & ? & ? & ? & ? & Hsw & Hso & Hsd).
  do 6 (split; [congruence|]). do 4 (split; [congruence|]).
  assert (forall c, c ∈ owed st <-> c ∈ (queue st).*2 \/ c ∈ (map_to_list (pump_pending st)).*2) as How
    by (intros c; apply elem_of_app).
  split; [|split]; intros c.
  - rewrite Hsw, Hw1. destruct (decide (c ∈ (queue st).*2)) as [Hin|Hn].
    + rewrite decide_True; [done|]. apply How. by left.
    + destruct (decide (c ∈ (map_to_list (pump_pending st)).*2)) as [Hin|Hn'].
      * rewrite decide_True; [done|]. apply How. by right.
      * rewrite decide_False; [done|]. rewrite How. tauto.
  - intros Hc. rewrite Hso.
    + rewrite Ho1, decide_False; [done|]. intros [Hin [x Hx]]. rewrite How in Hc. destruct Hc; [tauto|congruence].
    + rewrite Hw1. destruct Hc as [Hc|Hc]; [left; rewrite How in Hc; tauto|right]. by destruct (decide _).
  - intros Hc Hs. destruct (decide (c ∈ (map_to_list (pump_pending st)).*2)) as [Hin|Hn].
    + exists (Worker why). rewrite Hso; [by rewrite Ho1, decide_True|].
      right. by rewrite Hw1, decide_True.
    + apply How in Hc as [Hc|?]; [|done]. apply Hsd; [done|]. rewrite Hw1, decide_False by done. done.
Qed.

(** ** The invariant *)

Definition ids (l : list (WorkerRequest * caller)) : list Z := (fun rc => req_id rc.1) <$> l.

(** [id0] is the counter the session started from, [k] the events so far. *)
Record inv (id0 k : Z) (st : state) : Prop := {
  i_next : (id0 <= next_id st <= id0 + k)%Z;
  i_nodup : NoDup (ids (wire st ++ queue st));
  i_old : forall id, id ∈ ids (wire st ++ queue st) -> (id < next_id st)%Z;
  i_sending : forall c req ms, sending st !! c = Some (req, ms) ->
    (req_id req < next_id st)%Z /\ req_id req ∉ ids (wire st ++ queue st);
  i_sending_inj : forall c1 c2 r1 r2 m1 m2, sending st !! c1 = Some (r1, m1) ->
    sending st !! c2 = Some (r2, m2) -> req_id r1 = req_id r2 -> c1 = c2;
  i_pending : forall id c, pump_pending st !! id = Some c ->
    exists req, (req, c) ∈ wire st /\ req_id req = id;
  i_sending_only : forall c, is_Some (sending st !! c) ->
    waiting st !! c = None /\ outcomes st !! c = None;
  i_waiting_only : forall c, is_Some (waiting st !! c) -> outcomes st !! c = None;
  i_owed : forall c, is_Some (waiting st !! c) -> c ∈ owed st;
  i_stopped : pump_running st = false -> owed st = [];
  i_live : pump_running st = true ->
    monitor st = true /\ tx_some st = true /\ health st = Healthy /\ crash_msg st = None;
}.

Lemma elem_of_owed st c : c ∈ owed st <-> c ∈ (queue st).*2 \/ exists id, pump_pending st !! id = Some c.
Proof. unfold owed. rewrite elem_of_app, elem_of_pending_callers. done. Qed.

Lemma init_inv id0 : (0 <= id0)%Z -> inv id0 0 (init id0).
Proof.
  intros Hid. split; simpl; try done; try lia; try (by intros c [? ?]).
  - constructor.
  - intros id Hin. inversion Hin.
Qed.

Lemma ids_app l1 l2 : ids (l1 ++ l2) = ids l1 ++ ids l2.
Proof. apply fmap_app. Qed.

(** More events, same state. *)
Lemma inv_later id0 k k' st : (k <= k')%Z -> inv id0 k st -> inv id0 k' st.
Proof. intros Hk []. split; try done. lia. Qed.

(** Leaving the loop, from [st] itself or from a state [st1] in which the pump
    has already moved a request from the queue to the pending map. *)
Lemma inv_shut id0 k st st1 st' :
  inv id0 k st ->
  next_id st1 = next_id st -> sending st1 = sending st -> wire st1 = wire st ->
  waiting st1 = waiting st -> outcomes st1 = outcomes st ->
  (forall c, c ∈ owed st -> c ∈ owed st1) ->
  shut st1 st' -> inv id0 k st'.
Proof.
  intros H En1 Es1 Ew1 Ewt1 Eo1 Hsub1
    (En & Es & Ew & Eq & Ep & Er & Em & Et & Eh & Ehe & Hw & Ho & _).
  rewrite Ewt1, Eo1 in *. rewrite En1 in En. rewrite Es1 in Es. rewrite Ew1 in Ew.
  assert (forall c, waiting st' !! c = None) as Hnone.
  { intros c. rewrite Hw. destruct (decide (c ∈ owed st1)) as [|Hn]; [done|].
    destruct (waiting st !! c) as [ms|] eqn:E; [|done]. exfalso. apply Hn, Hsub1.
    apply (i_owed _ _ _ H). by rewrite E. }
  assert (sublist (ids (wire st')) (ids (wire st ++ queue st))) as Hsub.
  { rewrite Ew, ids_app. by apply sublist_inserts_r. }
  assert (forall id, id ∈ ids (wire st') -> id ∈ ids (wire st ++ queue st)) as Hin.
  { rewrite Ew, ids_app. intros id ?. apply elem_of_app. by left. }
  split; rewrite ?En, ?Es, ?Eq, ?Ep, ?app_nil_r.
  - apply (i_next _ _ _ H).
  - eapply sublist_NoDup; [apply (i_nodup _ _ _ H)|done].
  - intros id Hid%Hin. by apply (i_old _ _ _ H).
  - intros c req ms Hc. destruct (i_sending _ _ _ H c req ms Hc) as [H1 H2]. split; [done|].
    intros Hid%Hin. done.
  - apply (i_sending_inj _ _ _ H).
  - intros id c. rewrite lookup_empty. done.
  - intros c Hc. split; [apply Hnone|]. destruct (i_sending_only _ _ _ H c Hc) as [Hn1 Hn2].
    rewrite Ho; [done|]. by right.
  - intros c [ms Hc]. rewrite Hnone in Hc. done.
  - intros c [ms Hc]. rewrite Hnone in Hc. done.
  - intros _. unfold owed. by rewrite Eq, Ep, map_to_list_empty.
  - congruence.
Qed.

(** Delivering to a caller that the pump no longer owes anything, or that
    gave up. *)
Lemma inv_deliver id0 k v st c :
  inv id0 k {| next_id := next_id st; sending := sending st; queue := queue st;
      pump_pending := pump_pending st; wire := wire st; waiting := delete c (waiting st);
      outcomes := outcomes st; pump_running := pump_running st; crash_msg := crash_msg st;
      monitor := monitor st; tx_some := tx_some st; held := held st; health := health st |} ->
  (forall c', is_Some (waiting st !! c') -> outcomes st !! c' = None /\ sending st !! c' = None) ->
  inv id0 k (deliver v st c).
Proof.
  intros H Hd. destruct (deliver_spec v st c) as ((En & Es & Eq & Ep & Ew & Er & Ec & Em & Et & Eh & Ehe) & Hw & Ho).
  destruct H; simpl in *.
  split; unfold owed in *; rewrite ?En, ?Es, ?Eq, ?Ep, ?Ew, ?Er, ?Ec, ?Em, ?Et, ?Eh, ?Ehe, ?Hw; try done.
  - intros c' Hc'. destruct (i_sending_only0 c' Hc') as [H1 H2]. split; [done|].
    rewrite Ho, decide_False; [done|]. intros [-> Hs]. destruct (Hd c Hs) as [_ E].
    rewrite E in Hc'. by destruct Hc'.
  - intros c' Hc'. rewrite Ho, decide_False by (intros [-> _]; rewrite lookup_delete_eq in Hc'; by destruct Hc').
    by apply i_waiting_only0.
Qed.

(** *** One lemma per kind of event *)

Lemma next_id_bump id0 k st :
  inv id0 k st -> (0 <= id0)%Z -> (id0 + k + 1 < u64_modulus)%Z ->
  wrapping_add64 (next_id st) 1 = (next_id st + 1)%Z.
Proof.
  intros H H0 Hk. pose proof (i_next _ _ _ H). unfold wrapping_add64. apply Z.mod_small. lia.
Qed.

Lemma inv_begin id0 k st c m ps d :
  inv id0 k st -> (0 <= id0)%Z -> (id0 + k + 1 < u64_modulus)%Z ->
  is_fresh c st = true -> inv id0 (k + 1) (begin_call c m ps d st).
Proof.
  intros H H0 Hk Hf. unfold is_fresh in Hf.
  apply andb_true_iff in Hf as [[Hs%bool_decide_eq_true Hw%bool_decide_eq_true]%andb_true_iff
    Ho%bool_decide_eq_true].
  pose proof (next_id_bump id0 k st H H0 Hk) as Hbump. unfold begin_call. destruct (tx_some st) eqn:Htx.
  - destruct H. split; simpl; rewrite ?Hbump; try done.
    + lia.
    + intros id Hid%i_old0. lia.
    + intros c' req ms. rewrite lookup_insert. destruct (decide (c = c')) as [<-|Hne].
      * intros [= <- <-]. simpl. split; [lia|]. intros Hid%i_old0. lia.
      * intros Hc'. destruct (i_sending0 c' req ms Hc'). split; [lia|done].
    + intros c1 c2 r1 r2 m1 m2. rewrite !lookup_insert.
      destruct (decide (c = c1)) as [<-|H1], (decide (c = c2)) as [<-|H2]; [done| | |by apply i_sending_inj0].
      * intros [= <- <-] E%i_sending0. simpl. lia.
      * intros E%i_sending0 [= <- <-]. simpl. lia.
    + intros c'. rewrite lookup_insert. destruct (decide (c = c')) as [<-|Hne]; [done|]. apply i_sending_only0.
  - destruct H. split; simpl; try done.
    + lia.
    + intros c' Hc'. destruct (decide (c = c')) as [<-|Hne]; [rewrite Hs in Hc'; by destruct Hc'|].
      rewrite lookup_insert_ne by done. by apply i_sending_only0.
    + intros c' Hc'. destruct (decide (c = c')) as [<-|Hne]; [rewrite Hw in Hc'; by destruct Hc'|].
      rewrite lookup_insert_ne by done. by apply i_waiting_only0.
Qed.

Lemma inv_other id0 k st :
  inv id0 k st -> (0 <= id0)%Z -> (id0 + k + 1 < u64_modulus)%Z ->
  inv id0 (k + 1) (set_calls (wrapping_add64 (next_id st) 1) (sending st) (queue st) (waiting st)
    (outcomes st) st).
Proof.
  intros H H0 Hk. pose proof (next_id_bump id0 k st H H0 Hk) as Hbump.
  destruct H. split; simpl; rewrite ?Hbump; try done.
  - lia.
  - intros id Hid%i_old0. lia.
  - intros c req ms Hc. destruct (i_sending0 c req ms Hc). split; [lia|done].
Qed.

Lemma inv_send id0 k st st' c : inv id0 k st -> send_call c st = Some st' -> inv id0 k st'.
Proof.
  intros H. unfold send_call. destruct (sending st !! c) as [[req ms]|] eqn:Hc; [|done]. simpl.
  destruct (i_sending _ _ _ H c req ms Hc) as [Hlt Hnew].
  destruct (i_sending_only _ _ _ H c) as [Hw Ho]; [by rewrite Hc|].
  destruct (pump_running st) eqn:Hr; simpl.
  - destruct (length (queue st) <? 64)%nat; [|done]. intros [= <-]. destruct H.
    split; simpl; try done.
    + rewrite app_assoc, ids_app. apply NoDup_app. split; [done|]. split; [|apply NoDup_singleton].
      intros id Hid Hin. apply list_elem_of_singleton in Hin as ->. done.
    + intros id. rewrite app_assoc, ids_app. intros [Hid|Hid]%elem_of_app; [by apply i_old0|].
      apply list_elem_of_singleton in Hid as ->. done.
    + intros c' req' ms' Hc'. rewrite app_assoc, ids_app.
      apply lookup_delete_Some in Hc' as [Hne Hc']. destruct (i_sending0 _ _ _ Hc') as [Hl Hn].
      split; [done|]. intros [Hid|Hid]%elem_of_app; [done|]. apply list_elem_of_singleton in Hid.
      by apply Hne, (i_sending_inj0 c c' req req' ms ms').
    + intros c1 c2 r1 r2 m1 m2 [_ H1]%lookup_delete_Some [_ H2]%lookup_delete_Some.
      by apply (i_sending_inj0 c1 c2 r1 r2 m1 m2).
    + intros c' [x [Hne Hc']%lookup_delete_Some]. rewrite lookup_insert_ne by done. apply i_sending_only0. eauto.
    + intros c'. rewrite lookup_insert. destruct (decide (c = c')) as [<-|Hne]; [done|]. apply i_waiting_only0.
    + intros c'. rewrite lookup_insert, elem_of_owed. cbn [queue pump_pending set_calls]. rewrite fmap_app, elem_of_app.
      destruct (decide (c = c')) as [<-|Hne].
      * intros _. left. right. by apply list_elem_of_singleton.
      * intros Hs%i_owed0. apply elem_of_owed in Hs as [?|?]; [by left; left|by right].
    + congruence.
  - intros [= <-]. destruct H. split; simpl; try done.
    + intros c' req' ms' [_ Hc']%lookup_delete_Some. by apply (i_sending0 c' req' ms').
    + intros c1 c2 r1 r2 m1 m2 [_ H1]%lookup_delete_Some [_ H2]%lookup_delete_Some.
      by apply (i_sending_inj0 c1 c2 r1 r2 m1 m2).
    + intros c' [x [Hne Hc']%lookup_delete_Some]. rewrite lookup_insert_ne by done. apply i_sending_only0. eauto.
    + intros c' Hc'. destruct (decide (c = c')) as [<-|Hne]; [rewrite Hw in Hc'; by destruct Hc'|].
      rewrite lookup_insert_ne by done. by apply i_waiting_only0.
Qed.

Lemma waiting_private id0 k st c :
  inv id0 k st -> is_Some (waiting st !! c) -> outcomes st !! c = None /\ sending st !! c = None.
Proof.
  intros H Hw. split; [by apply (i_waiting_only _ _ _ H)|].
  destruct (sending st !! c) eqn:E; [|done].
  destruct (i_sending_only _ _ _ H c) as [Hn _]; [by rewrite E|]. rewrite Hn in Hw. by destruct Hw.
Qed.

(** A caller gives up waiting. *)
Lemma inv_give_up id0 k v st c : inv id0 k st -> inv id0 k (deliver v st c).
Proof.
  intros H. apply inv_deliver; [|intros c' Hc'; by eapply waiting_private].
  destruct H. split; simpl; try done.
  - intros c' Hc'. destruct (i_sending_only0 c' Hc') as [H1 H2]. split; [|done].
    by rewrite lookup_delete_None; right.
  - intros c' [x [_ Hc']%lookup_delete_Some]. apply i_waiting_only0. eauto.
  - intros c' [x [_ Hc']%lookup_delete_Some]. apply (i_owed0 c'). eauto.
Qed.

(** The next request is never one the pump is already waiting for. *)
Lemma recv_not_pending id0 k st req c q c' :
  inv id0 k st -> queue st = (req, c) :: q -> pump_pending st !! req_id req = Some c' -> False.
Proof.
  intros H Hq Hp. destruct (i_pending _ _ _ H _ _ Hp) as (r & Hin & E).
  pose proof (i_nodup _ _ _ H) as Hnd. rewrite Hq, ids_app in Hnd.
  apply NoDup_app in Hnd as (_ & Hd & _). apply (Hd (req_id req)); [|left]. rewrite <- E.
  by apply (list_elem_of_fmap_2 (fun rc : WorkerRequest * caller => req_id rc.1) (wire st) (r, c')).
Qed.

Lemma recv_spec id0 k st req c st1 :
  inv id0 k st -> recv st = Some (req, c, st1) ->
  exists q, queue st = (req, c) :: q
    /\ st1 = set_pump q (<[req_id req := c]> (pump_pending st)) (wire st) (pump_running st) st.
Proof.
  intros H. unfold recv. destruct (queue st) as [|[req' c'] q] eqn:Hq; [done|].
  destruct (pump_pending st !! req_id req') as [old|] eqn:Hp.
  - exfalso. by eapply recv_not_pending.
  - intros [= <- <- <-]. eauto.
Qed.

Lemma inv_written id0 k st req c st1 :
  inv id0 k st -> pump_running st = true -> recv st = Some (req, c, st1) ->
  inv id0 k (set_pump (queue st1) (pump_pending st1) (wire st1 ++ [(req, c)]) (pump_running st1) st1).
Proof.
  intros H Hr Hrecv. destruct (recv_spec id0 k st req c st1 H Hrecv) as (q & Hq & ->).
  assert (ids ((wire st ++ [(req, c)]) ++ q) = ids (wire st ++ queue st)) as Hids.
  { by rewrite Hq, <- app_assoc. }
  pose proof (fun c' => recv_not_pending id0 k st req c q c' H Hq) as Hfresh.
  destruct H. split; cbn -[ids owed]; rewrite ?Hids; try done.
  - intros id c'. rewrite lookup_insert. destruct (decide (req_id req = id)) as [<-|Hne].
    + intros [= <-]. exists req. split; [|done]. apply elem_of_app. right. by apply list_elem_of_singleton.
    + intros Hp. destruct (i_pending0 id c' Hp) as (r & Hin & E). exists r. split; [|done].
      apply elem_of_app. by left.
  - intros c' Hc'. apply elem_of_owed. cbn.
    pose proof (i_owed0 c' Hc') as Ho. rewrite elem_of_owed, Hq in Ho.
    destruct Ho as [[->|Hin]%elem_of_cons|[id Hid]].
    + right. exists (req_id req). apply lookup_insert_eq.
    + by left.
    + destruct (decide (id = req_id req)) as [->|Hne].
      * exfalso. by eapply Hfresh.
      * right. exists id. by rewrite lookup_insert_ne.
  - congruence.
Qed.

Lemma inv_write_failed id0 k st req c st1 :
  inv id0 k st -> recv st = Some (req, c, st1) ->
  inv id0 k (stop (fail_all "worker stdin write failed" st1)).
Proof.
  intros H Hrecv. destruct (recv_spec id0 k st req c st1 H Hrecv) as (q & Hq & ->).
  eapply inv_shut; [exact H|..|apply (fail_all_shut _ _ (fun s => s)); by left]; try done.
  intros c'. rewrite !elem_of_owed, Hq. cbn.
  intros [[->|Hin]%elem_of_cons|[id Hid]]; [|by left|].
  - right. exists (req_id req). apply lookup_insert_eq.
  - right. exists id. rewrite lookup_insert_ne; [done|]. intros <-. by eapply recv_not_pending.
Qed.

Lemma inv_response id0 k st r :
  inv id0 k st -> pump_running st = true ->
  inv id0 k (match pump_pending st !! resp_id r with
             | Some c => deliver (response_value r)
                 (set_pump (queue st) (delete (resp_id r) (pump_pending st)) (wire st) true st) c
             | None => st end).
Proof.
  intros H Hr. destruct (pump_pending st !! resp_id r) as [c|] eqn:Hp; [|done].
  apply inv_deliver; [|intros c' Hc'; exact (waiting_private id0 k st c' H Hc')].
  destruct H. split; cbn -[ids owed]; try done.
  - intros id c' [_ Hid]%lookup_delete_Some. by apply i_pending0.
  - intros c' Hc'. destruct (i_sending_only0 c' Hc') as [H1 H2]. split; [|done].
    by rewrite lookup_delete_None; right.
  - intros c' [x [_ Hc']%lookup_delete_Some]. apply i_waiting_only0. eauto.
  - intros c' [x [Hne Hc']%lookup_delete_Some]. apply elem_of_owed. cbn.
    destruct (proj1 (elem_of_owed st c') (i_owed0 c' ltac:(eauto))) as [?|[id Hid]]; [by left|].
    right. exists id. rewrite lookup_delete_ne; [done|]. congruence.
  - auto.
Qed.

Lemma inv_step id0 k st st' e :
  (0 <= id0)%Z -> (id0 + k + 1 < u64_modulus)%Z ->
  inv id0 k st -> step e st = Some st' -> inv id0 (k + 1) st'.
Proof.
  intros H0 Hk H. destruct e; simpl.
  - destruct (held st && is_fresh c st) eqn:Hf; [|done]. intros [= <-].
    apply andb_true_iff in Hf as [_ Hf]. by apply inv_begin.
  - intros [= <-]. by apply inv_other.
  - intros Hs. eapply inv_later; [|by eapply inv_send]. lia.
  - destruct (waiting st !! c); [|done]. intros [= <-].
    eapply inv_later; [|by apply inv_give_up]. lia.
  - destruct (pump_running st) eqn:Hr; [|done].
    destruct (recv st) as [[[req c] st1]|] eqn:Hrecv; [|done]. intros [= <-].
    eapply inv_later; [|by eapply inv_written]. lia.
  - destruct (pump_running st) eqn:Hr; [|done].
    destruct (recv st) as [[[req c] st1]|] eqn:Hrecv; [|done]. intros [= <-].
    eapply inv_later; [|by eapply inv_write_failed]. lia.
  - destruct (_ && _); [|done]. intros [= <-].
    eapply inv_later; [|eapply (inv_shut _ _ st st); [done..|apply stop_shut]]. lia.
  - destruct (pump_running st) eqn:Hr; [|done]. intros [= <-].
    eapply inv_later; [|by apply inv_response]. lia.
  - destruct (pump_running st) eqn:Hr; [|done]. intros [= <-].
    eapply inv_later; [|eapply (inv_shut _ _ st st); [done..|]]; [lia|].
    apply fail_all_shut. eauto.
  - destruct (pump_running st) eqn:Hr; [|done]. intros [= <-].
    eapply inv_later; [|eapply (inv_shut _ _ st st); [done..|]]; [lia|].
    apply fail_all_shut. eauto.
  - destruct (monitor st) eqn:Hm; [|done]. destruct (crash_msg st) eqn:Hc.
    + intros [= <-]. eapply (inv_later _ k); [lia|]. destruct H. split; simpl; try done.
      intros Hr. destruct (i_live0 Hr) as (_ & _ & _ & ?). congruence.
    + destruct (pump_running st) eqn:Hr; [done|]. intros [= <-]. eapply (inv_later _ k); [lia|].
      destruct H. split; simpl; try done. intros _. by apply i_stopped0.
  - destruct (_ && _); [|done]. intros [= <-]. eapply (inv_later _ k); [lia|].
    destruct H. split; simpl; done.
Qed.

Lemma inv_steps id0 es st :
  (0 <= id0)%Z -> (id0 + Z.of_nat (length es) < u64_modulus)%Z ->
  steps es (init id0) st -> inv id0 (Z.of_nat (length es)) st.
Proof.
  intros H0 Hk Hrun. remember (init id0) as s0 eqn:Hs0.
  induction Hrun as [s|es e s s' s'' Hrun IH Hstep]; subst s; [by apply init_inv|].
  rewrite length_app in *. simpl in *. rewrite Nat2Z.inj_add. eapply inv_step; [done|lia| |done].
  apply IH; [lia|done].
Qed.

(** ** What callers can rely on *)

(** What a caller was told is never taken back. *)
Lemma deliver_mono v st c c' o :
  (is_Some (waiting st !! c) -> outcomes st !! c = None) ->
  outcomes st !! c' = Some o -> outcomes (deliver v st c) !! c' = Some o.
Proof.
  intros Hd Ho. destruct (deliver_spec v st c) as (_ & _ & ->).
  rewrite decide_False; [done|]. intros [-> Hw]. rewrite (Hd Hw) in Ho. done.
Qed.

Lemma shut_mono st st' c o :
  (forall c, is_Some (waiting st !! c) -> outcomes st !! c = None) ->
  shut st st' -> outcomes st !! c = Some o -> outcomes st' !! c = Some o.
Proof.
  intros Hd (_ & _ & _ & _ & _ & _ & _ & _ & _ & _ & _ & Hkeep & _) Ho. rewrite Hkeep; [done|]. right.
  destruct (waiting st !! c) eqn:E; [|done]. rewrite Hd in Ho; [done|]. by rewrite E.
Qed.

Lemma step_mono id0 k st st' e c o :
  inv id0 k st -> step e st = Some st' -> outcomes st !! c = Some o -> outcomes st' !! c = Some o.
Proof.
  intros H Hstep Ho. pose proof (i_waiting_only _ _ _ H) as Hw. destruct e; simpl in Hstep.
  - destruct (held st && is_fresh c0 st) eqn:Hf; [|done]. injection Hstep as <-.
    unfold begin_call. destruct (tx_some st); simpl; [done|].
    rewrite lookup_insert_ne; [done|]. intros ->. unfold is_fresh in Hf.
    rewrite Ho in Hf. simpl in Hf. rewrite !andb_false_r in Hf. done.
  - by injection Hstep as <-.
  - unfold send_call in Hstep. destruct (sending st !! c0) as [[req ms]|] eqn:Hs; [|done].
    simpl in Hstep. destruct (i_sending_only _ _ _ H c0) as [_ Hn]; [by rewrite Hs|].
    destruct (negb _); [|destruct (_ <? _)%nat; [|done]]; injection Hstep as <-; simpl; [|done].
    rewrite lookup_insert_ne; [done|]. congruence.
  - destruct (waiting st !! c0); [|done]. injection Hstep as <-. by apply deliver_mono; [apply Hw|].
  - destruct (pump_running st); [|done]. destruct (recv st) as [[[req c1] st1]|] eqn:Hr; [|done].
    injection Hstep as <-. destruct (recv_spec _ _ _ _ _ _ H Hr) as (q & _ & ->). done.
  - destruct (pump_running st); [|done]. destruct (recv st) as [[[req c1] st1]|] eqn:Hr; [|done].
    injection Hstep as <-. destruct (recv_spec _ _ _ _ _ _ H Hr) as (q & _ & ->).
    eapply shut_mono; [|apply (fail_all_shut _ _ (fun s => s)); by left|exact Ho]. exact Hw.
  - destruct (_ && _); [|done]. injection Hstep as <-. eapply shut_mono; [done|apply stop_shut|done].
  - destruct (pump_running st); [|done]. injection Hstep as <-.
    destruct (pump_pending st !! resp_id r); [|done]. apply deliver_mono; [apply Hw|done].
  - destruct (pump_running st); [|done]. injection Hstep as <-.
    eapply shut_mono; [exact Hw|apply fail_all_shut; eauto|done].
  - destruct (pump_running st); [|done]. injection Hstep as <-.
    eapply shut_mono; [exact Hw|apply fail_all_shut; eauto|done].
  - destruct (monitor st); [|done]. destruct (crash_msg st); [by injection Hstep as <-|].
    destruct (pump_running st); [done|]. by injection Hstep as <-.
  - destruct (_ && _); [|done]. by injection Hstep as <-.
Qed.

(** C3. Every call returns at most once and none is forgotten: in every
    reachable state a caller is in at most one of the stages sending,
    waiting, answered; a caller that waits is one the running pump still owes
    an answer, so once the pump has stopped nobody waits; and an answer that
    was given never changes. *)
Theorem calls_answered_once (id0 : Z) (es : list event) (st : state) :
  (0 <= id0)%Z -> (id0 + Z.of_nat (length es) < u64_modulus)%Z ->
  steps es (init id0) st ->
  (forall c, is_Some (sending st !! c) -> waiting st !! c = None /\ outcomes st !! c = None)
  /\ (forall c, is_Some (waiting st !! c) -> outcomes st !! c = None
        /\ pump_running st = true
        /\ (c ∈ (queue st).*2 \/ exists id, pump_pending st !! id = Some c))
  /\ (pump_running st = false -> waiting st = ∅)
  /\ (forall e st' c o, step e st = Some st' -> outcomes st !! c = Some o ->
        outcomes st' !! c = Some o).
Proof.
  intros H0 Hk Hrun. pose proof (inv_steps id0 es st H0 Hk Hrun) as H.
  assert (forall c, is_Some (waiting st !! c) -> pump_running st = true) as Hr.
  { intros c Hc. destruct (pump_running st) eqn:E; [done|].
    apply (i_owed _ _ _ H) in Hc. rewrite (i_stopped _ _ _ H E) in Hc. inversion Hc. }
  split; [apply (i_sending_only _ _ _ H)|]. split; [|split].
  - intros c Hc. split; [by apply (i_waiting_only _ _ _ H)|]. split; [by eapply Hr|].
    by apply elem_of_owed, (i_owed _ _ _ H).
  - intros Hs. apply map_empty. intros c. destruct (waiting st !! c) eqn:E; [|done].
    rewrite (Hr c) in Hs; [done|]. by rewrite E.
  - intros e st' c o. by eapply step_mono.
Qed.

(** A short execution: a call, its request written, the worker gone. *)
Definition crash_trace : list event :=
  [Begin 0 "rename" JNull 120000; Send 0; RecvWritten; Eof; Monitor].

Lemma steps_run es : forall st st', run es st = Some st' -> steps es st st'.
Proof.
  induction es as [|e es IH] using rev_ind; intros st st' Hrun.
  - injection Hrun as <-. constructor.
  - assert (exists s1, run es st = Some s1 /\ step e s1 = Some st') as (s1 & H1 & H2).
    { clear IH. revert st Hrun. induction es as [|e' es IH]; intros st Hrun; simpl in *.
      - destruct (step e st) as [s|] eqn:E; [|done]. simpl in Hrun. injection Hrun as <-. eauto.
      - destruct (step e' st) as [s|]; [|done]. simpl in *. by apply IH. }
    econstructor; [by apply IH|done].
Qed.

Lemma calls_answered_once_witness :
  exists st, steps crash_trace (init 1) st /\ pump_running st = false /\ waiting st = ∅.
Proof.
  destruct (run crash_trace (init 1)) as [st|] eqn:Hrun; [|vm_compute in Hrun; discriminate Hrun].
  pose proof (steps_run _ _ _ Hrun) as Hs. exists st. split; [exact Hs|].
  assert (pump_running st = false) as Hr.
  { vm_compute in Hrun. injection Hrun as <-. reflexivity. }
  split; [exact Hr|].
  refine (proj1 (proj2 (proj2 (calls_answered_once 1 crash_trace st _ _ Hs))) Hr);
    vm_compute; congruence.
Defined.

(** C9. Responses reach the right caller and no request is sent twice: no two
    requests on the wire share an id, and when a response is processed, the
    only call it can complete is the one whose request carried the response's
    id, with exactly the response's value. *)
Theorem responses_routed (id0 : Z) (es : list event) (st st' : state) (r : WorkerResponse) :
  (0 <= id0)%Z -> (id0 + Z.of_nat (length es) < u64_modulus)%Z ->
  steps es (init id0) st -> step (Response r) st = Some st' ->
  NoDup (ids (wire st))
  /\ forall c v, outcomes st !! c = None -> outcomes st' !! c = Some v ->
       v = response_value r /\ waiting st' !! c = None
       /\ exists req, (req, c) ∈ wire st /\ req_id req = resp_id r.
Proof.
  intros H0 Hk Hrun Hstep. pose proof (inv_steps id0 es st H0 Hk Hrun) as H. split.
  { pose proof (i_nodup _ _ _ H) as Hnd. rewrite ids_app in Hnd. by apply NoDup_app in Hnd as [? _]. }
  intros c v Hn Hv. simpl in Hstep. destruct (pump_running st); [|done]. injection Hstep as <-.
  destruct (pump_pending st !! resp_id r) as [c0|] eqn:Hp; [|congruence].
  match type of Hv with outcomes (deliver ?v0 ?s ?c1) !! _ = _ =>
    destruct (deliver_spec v0 s c1) as (_ & Hw & Ho) end.
  rewrite Ho in Hv. destruct (decide _) as [[-> _]|_]; [|simpl in Hv; congruence].
  injection Hv as <-. split; [done|]. split; [rewrite Hw; apply lookup_delete_eq|].
  by apply (i_pending _ _ _ H).
Qed.

Lemma responses_routed_witness :
  exists st st', steps [Begin 0 "ping" JNull 120000; Send 0; RecvWritten] (init 1) st
    /\ step (Response (WorkerResponse_ok 1 JNull)) st = Some st' /\ NoDup (ids (wire st)).
Proof.
  destruct (run [Begin 0 "ping" JNull 120000; Send 0; RecvWritten] (init 1)) as [st|] eqn:Hrun;
    [|vm_compute in Hrun; discriminate Hrun].
  pose proof (steps_run _ _ _ Hrun) as Hs.
  destruct (step (Response (WorkerResponse_ok 1 JNull)) st) as [st'|] eqn:Hstep.
  2: { vm_compute in Hrun. injection Hrun as <-. vm_compute in Hstep. discriminate Hstep. }
  exists st, st'. split; [exact Hs|]. split; [exact Hstep|].
  refine (proj1 (responses_routed 1 _ st st' _ _ _ Hs Hstep)); vm_compute; congruence.
Defined.

(** The pump never sees its request channel closed: the monitor task
    keeps the session, and with it the sender, alive for as long as the pump
    runs.  The documented exit "when the request channel closes" does not
    happen, and dropping a session (a failed [db.open]) leaves its pump, and
    the worker it owns, running. *)
Theorem request_channel_never_closes (id0 : Z) (es : list event) (st : state) :
  (0 <= id0)%Z -> (id0 + Z.of_nat (length es) < u64_modulus)%Z ->
  steps es (init id0) st ->
  step RecvClosed st = None
  /\ forall st', pump_running st = true -> step DropSession st = Some st' ->
       pump_running st' = true /\ channel_open st' = true /\ step RecvClosed st' = None.
Proof.
  intros H0 Hk Hrun. pose proof (inv_steps id0 es st H0 Hk Hrun) as H.
  assert (pump_running st = true -> tx_some st && monitor st = true) as Hopen.
  { intros Hr. destruct (i_live _ _ _ H Hr) as (-> & -> & _). done. }
  split.
  - simpl. destruct (pump_running st) eqn:Hr; [|done]. apply andb_true_iff in Hopen as [Ht Hm]; [|done].
    unfold channel_open. by rewrite Hm, Ht, orb_true_r, andb_false_r.
  - intros st' Hr. specialize (Hopen Hr). apply andb_true_iff in Hopen as [Ht Hm]. simpl.
    destruct (_ && _); [|done]. intros [= <-]. unfold channel_open. simpl.
    rewrite Hr, Ht, Hm. simpl. by rewrite andb_false_r.
Qed.

Lemma request_channel_never_closes_witness :
  exists st, steps [DropSession] (init 1) st /\ step RecvClosed st = None /\ pump_running st = true.
Proof.
  destruct (run [DropSession] (init 1)) as [st|] eqn:Hrun; [|vm_compute in Hrun; discriminate Hrun].
  pose proof (steps_run _ _ _ Hrun) as Hs. exists st. split; [exact Hs|]. split.
  - refine (proj1 (request_channel_never_closes 1 [DropSession] st _ _ Hs)); vm_compute; congruence.
  - vm_compute in Hrun. injection Hrun as <-. reflexivity.
Defined.

(** The session after a failed write to the worker: no pump, no crash report. *)
Definition stranded (st : state) : Prop :=
  pump_running st = false /\ crash_msg st = None /\ health st = Healthy /\ tx_some st = true.

Lemma stranded_step st st' e : stranded st -> step e st = Some st' -> stranded st'.
Proof.
  unfold stranded. intros (Hr & Hc & Hh & Ht) Hstep. destruct e; simpl in Hstep.
  - destruct (_ && _); [|done]. injection Hstep as <-. unfold begin_call. by rewrite Ht.
  - by injection Hstep as <-.
  - unfold send_call in Hstep. rewrite Hr in Hstep.
    destruct (sending st !! c) as [[req ms]|]; [|done]. simpl in Hstep. by injection Hstep as <-.
  - destruct (waiting st !! c); [|done]. injection Hstep as <-.
    destruct (deliver_spec (Err (timeout_error z)) st c)
      as ((_ & _ & _ & _ & _ & -> & -> & _ & -> & _ & ->) & _). done.
  - by rewrite Hr in Hstep.
  - by rewrite Hr in Hstep.
  - by rewrite Hr in Hstep.
  - by rewrite Hr in Hstep.
  - by rewrite Hr in Hstep.
  - by rewrite Hr in Hstep.
  - rewrite Hc, Hr in Hstep. destruct (monitor st); [|done]. by injection Hstep as <-.
  - destruct (_ && _); [|done]. by injection Hstep as <-.
Qed.

Lemma stop_crash_msg st : crash_msg (stop st) = crash_msg st.
Proof. apply (deliver_all_spec (Err dropped_error) ((queue st).*2 ++ (map_to_list (pump_pending st)).*2) st). Qed.

Lemma fail_all_crash_msg why st : crash_msg (fail_all why st) = crash_msg st.
Proof. apply (deliver_all_spec (Err (Worker why)) (map_to_list (pump_pending st)).*2 st). Qed.

(** A failed write to the worker ends the pump without a crash report:
    from then on, whatever happens, the session stays [Healthy] (so [recover]
    leaves it alone) while every call on it fails with a closed channel. *)
Theorem write_failure_strands_session (id0 : Z) (es es' : list event) (st st1 st2 : state) :
  (0 <= id0)%Z -> (id0 + Z.of_nat (length es) < u64_modulus)%Z ->
  steps es (init id0) st -> step RecvWriteFailed st = Some st1 -> steps es' st1 st2 ->
  health st2 = Healthy /\ pump_running st2 = false
  /\ forall c st3, step (Send c) st2 = Some st3 -> outcomes st3 !! c = Some (Err closed_error).
Proof.
  intros H0 Hk Hrun Hfail Hrun'. pose proof (inv_steps id0 es st H0 Hk Hrun) as H.
  assert (stranded st1) as Hs.
  { simpl in Hfail. destruct (pump_running st) eqn:Hr; [|done].
    destruct (recv st) as [[[req c] s1]|] eqn:Hrecv; [|done]. injection Hfail as <-.
    destruct (recv_spec _ _ _ _ _ _ H Hrecv) as (q & _ & ->).
    destruct (i_live _ _ _ H Hr) as (_ & Ht & Hh & Hc).
    match goal with |- stranded (stop (fail_all ?w ?s)) =>
      destruct (fail_all_shut w s (fun x => x) ltac:(by left))
        as (_ & _ & _ & _ & _ & Er & _ & Et & _ & Ehe & _) end.
    unfold stranded. rewrite Er, Et, Ehe, stop_crash_msg, fail_all_crash_msg. done. }
  assert (stranded st2) as (Hr2 & _ & Hh2 & _).
  { clear Hfail H. induction Hrun' as [|es' e s s' s'' _ IH Hstep]; [done|].
    eapply stranded_step; [by apply IH|done]. }
  split; [done|]. split; [done|]. intros c st3 Hsend. simpl in Hsend. unfold send_call in Hsend.
  destruct (sending st2 !! c) as [[req ms]|]; [|done]. rewrite Hr2 in Hsend. simpl in Hsend.
  injection Hsend as <-. simpl. apply lookup_insert_eq.
Qed.

Lemma write_failure_strands_session_witness :
  exists st2, steps [Monitor; Begin 1 "ping" JNull 120000]
      (default (init 1) (run [Begin 0 "rename" JNull 120000; Send 0; RecvWriteFailed] (init 1))) st2
    /\ health st2 = Healthy.
Proof.
  destruct (run [Begin 0 "rename" JNull 120000; Send 0] (init 1)) as [st|] eqn:Hrun;
    [|vm_compute in Hrun; discriminate Hrun].
  destruct (step RecvWriteFailed st) as [st1|] eqn:Hstep.
  2: { vm_compute in Hrun. injection Hrun as <-. vm_compute in Hstep. discriminate Hstep. }
  destruct (run [Monitor; Begin 1 "ping" JNull 120000] st1) as [st2|] eqn:Hrun2.
  2: { vm_compute in Hrun. injection Hrun as <-. vm_compute in Hstep. injection Hstep as <-.
       vm_compute in Hrun2. discriminate Hrun2. }
  exists st2. split.
  - replace (default _ _) with st1; [exact (steps_run _ _ _ Hrun2)|].
    vm_compute in Hrun. injection Hrun as <-. vm_compute in Hstep. injection Hstep as <-.
    vm_compute. reflexivity.
  - refine (proj1 (write_failure_strands_session 1 _ _ st st1 st2 _ _ (steps_run _ _ _ Hrun) Hstep
      (steps_run _ _ _ Hrun2))); vm_compute; congruence.
Defined.

(** A worker that exits is noticed: after end of file the monitor's turn
    always comes, it marks the session crashed, every call that was in flight
    has an error as its answer, and a later call is refused at once without
    taking a request id. *)
Theorem eof_crashes_session (id0 : Z) (es : list event) (st st1 : state) :
  (0 <= id0)%Z -> (id0 + Z.of_nat (length es) < u64_modulus)%Z ->
  steps es (init id0) st -> step Eof st = Some st1 ->
  (forall c, is_Some (waiting st !! c) -> exists e, outcomes st1 !! c = Some (Err e))
  /\ exists st2, step Monitor st1 = Some st2 /\ health st2 = Crashed
       /\ forall c m ps d st3, step (Begin c m ps d) st2 = Some st3 ->
            outcomes st3 !! c = Some (Err dead_error) /\ next_id st3 = next_id st2.
Proof.
  intros H0 Hk Hrun Heof. pose proof (inv_steps id0 es st H0 Hk Hrun) as H.
  simpl in Heof. destruct (pump_running st) eqn:Hr; [|done]. injection Heof as <-.
  destruct (i_live _ _ _ H Hr) as (Hm & _).
  pose proof (fail_all_shut "worker exited unexpectedly" st (crash "worker exited unexpectedly"))
    as Hshut. specialize (Hshut ltac:(eauto)).
  set (st1 := stop _) in *.
  assert (crash_msg st1 = Some "worker exited unexpectedly") as Hc by apply stop_crash_msg.
  destruct Hshut as (_ & _ & _ & _ & _ & _ & Em & _ & _ & _ & _ & _ & Hans). split.
  - intros c Hw. apply Hans; [by apply (i_owed _ _ _ H)|done].
  - exists (mark_crashed st1). split; [cbn [step]; by rewrite Em, Hm, Hc|]. split; [done|].
    intros c m ps d st3. cbn [step]. destruct (_ && _); [|done]. intros [= <-].
    unfold begin_call. simpl. split; [apply lookup_insert_eq|done].
Qed.

Lemma eof_crashes_session_witness :
  exists st st1, steps [Begin 0 "rename" JNull 120000; Send 0; RecvWritten] (init 1) st
    /\ step Eof st = Some st1 /\ exists st2, step Monitor st1 = Some st2 /\ health st2 = Crashed.
Proof.
  destruct (run [Begin 0 "rename" JNull 120000; Send 0; RecvWritten] (init 1)) as [st|] eqn:Hrun;
    [|vm_compute in Hrun; discriminate Hrun].
  pose proof (steps_run _ _ _ Hrun) as Hs.
  destruct (step Eof st) as [st1|] eqn:Hstep.
  2: { vm_compute in Hrun. injection Hrun as <-. vm_compute in Hstep. discriminate Hstep. }
  exists st, st1. split; [exact Hs|]. split; [exact Hstep|].
  assert (0 <= 1)%Z as H0 by lia.
  assert (1 + Z.of_nat 3 < u64_modulus)%Z as Hk by reflexivity.
  destruct (eof_crashes_session 1 [Begin 0 "rename" JNull 120000; Send 0; RecvWritten] st st1 H0 Hk Hs Hstep) as (_ & st2 & Hm & Hh & _).
  exists st2. split; [exact Hm|exact Hh].
Defined.

(** An agent-chosen timeout can neither disable the bound nor starve a
    call: whatever [timeout_ms] says, the effective timeout of a call lies
    between 5 seconds and 30 minutes, as does the default. *)
Theorem call_timeout_bounded (params : Value) (default_ms : Z) :
  (5000 <= default_ms <= 1800000)%Z -> (5000 <= call_timeout params default_ms <= 1800000)%Z.
Proof.
  intros Hd. unfold call_timeout, clamp. destruct (get "timeout_ms" params ≫= as_u64); lia.
Qed.

Lemma call_timeout_bounded_witness :
  (5000 <= call_timeout (JObj [("timeout_ms", JNum 18446744073709551615)]) 120000 <= 1800000)%Z.
Proof. apply call_timeout_bounded. lia. Defined.
