(* ===== verification/AsyncReader.v ===== *)
(** * AsyncReader: the pump and the bytes it reads

    [Pump] takes the reading of a response as one step.  Here it is what it
    is in [rmcp-core/src/protocol.rs]: [AsyncFrameReader::read] collects the
    bytes that have arrived into a line of its own, over as many polls as it
    takes, and [tokio::select!] in [pump_task] drops the unfinished read
    whenever it takes up a request instead, the bytes collected so far with
    it ([read_line] is documented not to be cancellation safe).

    A run of this system is a run of [Pump].  As long as no request is taken
    up in the middle of a frame, however the bytes are cut up on their way
    the worker's responses arrive complete and in order; a request that is
    taken up in the middle of one costs the session. *)

From stdpp Require Import base list gmap strings.
From Stdlib Require Import ZArith Lia Ascii.
From S2P Require Import Prelude Text Json Errors Protocol Pump.

Local Open Scope rmcp_scope.

(** ** The reader *)

(** What has arrived and was not read; the line of the read in progress;
    whether the worker closed its end. *)
Record reader := { unread : string; line : string; closed : bool }.
Definition reader_new : reader := {| unread := ""; line := ""; closed := false |}.

(** The bytes up to and including the first newline, and the rest. *)
Fixpoint cut_line (s : string) : option (string * string) :=
  match s with
  | EmptyString => None
  | String c s' =>
      if Ascii.eqb c newline then Some (String c "", s')
      else '(l, r) ← cut_line s'; Some (String c l, r)
  end.

(** One poll of [read_line]: ready at a newline or at the end of the stream,
    else everything is collected. *)
Definition poll_line (r : reader) : option string * reader :=
  match cut_line (unread r) with
  | Some (l, rest) => (Some (line r +:+ l), {| unread := rest; line := ""; closed := closed r |})
  | None =>
      let all := line r +:+ unread r in
      if closed r then (Some all, {| unread := ""; line := ""; closed := true |})
      else (None, {| unread := ""; line := all; closed := false |})
  end.

(** The read in progress is dropped. *)
Definition drop_read (r : reader) : reader := {| unread := unread r; line := ""; closed := closed r |}.

Definition decode_line {T} `{!FrameCodec T} (l : string) : Result (option T) :=
  if utf8_valid l then
    if bool_decide (l = "") then Ok None
    else match from_str (trim l) with inr v => Ok (Some v) | inl e => Err (Ipc ("bad frame: " +:+ e)) end
  else Err (Io "stream did not contain valid UTF-8").

(** One poll of [AsyncFrameReader::read]. *)
Definition poll_read {T} `{!FrameCodec T} (r : reader) : option (Result (option T)) * reader :=
  let '(l, r') := poll_line r in (decode_line <$> l, r').

(** ** The pump over the reader *)

Inductive io := Arrive (s : string) | Hangup | Poll | Task (e : event).

(** What a finished read is to the pump. *)
Definition read_event (res : Result (option WorkerResponse)) : event :=
  match res with inr (Some r) => Response r | inr None => Eof | inl e => FrameError (to_string e) end.

Definition is_read (e : event) : bool := match e with Response _ | Eof | FrameError _ => true | _ => false end.

(** The other branch of [select!] completes. *)
Definition takes_request (e : event) : bool :=
  match e with RecvWritten | RecvWriteFailed | RecvClosed => true | _ => false end.

Section System.
Context `{!FrameCodec WorkerResponse}.
Implicit Types (r : reader) (st : state).

(** The next state and the event of [Pump] that it was, if any. *)
Definition sys_step (i : io) (s : reader * state) : option (reader * state * list event) :=
  let '(r, st) := s in
  match i with
  | Arrive a => if closed r then None else Some ({| unread := unread r +:+ a; line := line r; closed := false |}, st, [])
  | Hangup => Some ({| unread := unread r; line := line r; closed := true |}, st, [])
  | Poll =>
      if pump_running st then
        match poll_read r with
        | (None, r') => Some (r', st, [])
        | (Some res, r') => st' ← step (read_event res) st; Some (r', st', [read_event res])
        end
      else None
  | Task e =>
      if is_read e then None
      else st' ← step e st; Some (if takes_request e then drop_read r else r, st', [e])
  end.

Fixpoint sys_run (ios : list io) (s : reader * state) : option (reader * state * list event) :=
  match ios with
  | [] => Some (s, [])
  | i :: ios' => '(s', es) ← sys_step i s; '(s'', es') ← sys_run ios' s'; Some (s'', es ++ es')
  end.

(** No request is taken up in the middle of a frame. *)
Definition calm_at (i : io) (r : reader) : bool :=
  match i with Task e => negb (takes_request e) || bool_decide (line r = "") | _ => true end.
Fixpoint calm (ios : list io) (s : reader * state) : bool :=
  match ios with
  | [] => true
  | i :: ios' => calm_at i s.1 && match sys_step i s with Some (s', _) => calm ios' s' | None => true end
  end.

Fixpoint arrived (ios : list io) : string :=
  match ios with [] => "" | Arrive a :: ios' => a +:+ arrived ios' | _ :: ios' => arrived ios' end.

Definition responses (es : list event) : list WorkerResponse :=
  omap (fun e => match e with Response r => Some r | _ => None end) es.

(** Every run is one of [Pump]. *)
Lemma pump_run_app es es' st st' st'' : run es st = Some st' -> run es' st' = Some st'' -> run (es ++ es') st = Some st''.
Proof using Type.
  revert st. induction es as [|e es IH]; intros st; cbn [run app]; [by intros [= ->]|].
  destruct (step e st) as [st1|]; [|done]. cbn. apply IH.
Qed.

Lemma sys_step_pump i r st r' st' es : sys_step i (r, st) = Some (r', st', es) -> run es st = Some st'.
Proof using Type.
  destruct i as [a| | |e]; cbn [sys_step].
  - destruct (closed r); [done|]. by intros [= <- <- <-].
  - by intros [= <- <- <-].
  - destruct (pump_running st); [|done]. destruct (poll_read r) as [[res|] r1]; [|by intros [= <- <- <-]].
    destruct (step (read_event res) st) as [st1|] eqn:E; [|done]. intros [= <- <- <-]. cbn. by rewrite E.
  - destruct (is_read e); [done|]. destruct (step e st) as [st1|] eqn:E; [|done]. intros [= <- <- <-]. cbn. by rewrite E.
Qed.

Lemma sys_refines_pump ios r st r' st' es : sys_run ios (r, st) = Some (r', st', es) -> run es st = Some st'.
Proof using Type.
  revert r st es. induction ios as [|i ios IH]; intros r st es; cbn [sys_run]; [by intros [= <- <- <-]|].
  destruct (sys_step i (r, st)) as [[[r1 st1] es1]|] eqn:E; [|done]. cbn.
  destruct (sys_run ios (r1, st1)) as [[[r2 st2] es2]|] eqn:E2; [|done]. cbn. intros [= <- <- <-].
  eapply pump_run_app; [by eapply sys_step_pump|by eapply IH].
Qed.
End System.

(** ** Lines *)

Definition no_newline (s : string) : bool := all_chars (fun c => negb (Ascii.eqb newline c)) s.

Lemma no_newline_app s t : no_newline (s +:+ t) = no_newline s && no_newline t.
Proof. apply all_chars_app. Qed.

Lemma no_newline_cons c s : c <> newline -> no_newline s = true -> no_newline (String c s) = true.
Proof. intros Hc Hs. unfold no_newline. cbn [all_chars]. rewrite Ascii.eqb_sym. by apply Ascii.eqb_neq in Hc as ->. Qed.

Lemma cut_line_Some s l rest :
  cut_line s = Some (l, rest) -> s = l +:+ rest /\ exists body, l = body +:+ String newline "" /\ no_newline body = true.
Proof.
  revert l. induction s as [|c s IH]; intros l; cbn [cut_line]; [done|].
  destruct (Ascii.eqb_spec c newline) as [->|Hc]; [intros [= <- <-]; split; [done|]; by exists ""|].
  destruct (cut_line s) as [[l' r']|]; [|done]. intros [= <- <-]. destruct (IH l' eq_refl) as (-> & body & -> & Hb).
  split; [done|]. exists (String c body). split; [done|]. by apply no_newline_cons.
Qed.

Lemma cut_line_None s : cut_line s = None -> no_newline s = true.
Proof.
  induction s as [|c s IH]; cbn [cut_line]; [done|]. destruct (Ascii.eqb_spec c newline) as [->|Hc]; [done|].
  destruct (cut_line s) as [[]|]; [done|]. intros _. apply no_newline_cons; auto.
Qed.

(** The first line of a text is unique. *)
Lemma line_unique a b s t :
  no_newline a = true -> no_newline b = true -> a +:+ String newline s = b +:+ String newline t -> a = b /\ s = t.
Proof.
  intros Ha Hb H. assert (take_line (a +:+ String newline s) = take_line (b +:+ String newline t)) as E by by rewrite H.
  rewrite !take_line_app in E by done. injection E as E1 E2. split; [|done]. clear -E1.
  revert b E1. induction a as [|c a IH]; intros [|d b]; cbn; [done|intros [= _ E]; by destruct b|intros [= _ E]; by destruct a|].
  intros [= -> E]. by rewrite (IH b E).
Qed.

(** A text without a newline that starts a line is part of it. *)
Lemma line_prefix a t b s : no_newline a = true -> a +:+ t = b +:+ String newline s -> exists m, b = a +:+ m.
Proof.
  revert b. induction a as [|c a IH]; intros b Ha H; [by exists b|]. destruct b as [|d b].
  - injection H as -> _. by vm_compute in Ha.
  - injection H as -> H. destruct (IH b) as [m ->]; [|done|by exists m]. by apply andb_true_iff in Ha as [_ Ha].
Qed.

Lemma no_newline_absurd a s : no_newline (a +:+ String newline s) = true -> False.
Proof. rewrite no_newline_app. intros [_ H]%andb_true_iff. by vm_compute in H. Qed.

(** ** Delivery *)

Section Delivery.
Context `{!FrameCodec WorkerResponse}.
Implicit Types (r : reader) (st : state) (vs : list WorkerResponse).

(** The text of a sequence of frames. *)
Inductive encodes : list WorkerResponse -> string -> Prop :=
  | encodes_nil : encodes [] ""
  | encodes_cons v vs b s : to_vec v = inr b -> encodes vs s -> encodes (v :: vs) (b +:+ String newline s).

Lemma write_frames_encodes w vs w' :
  write_frames w vs = Ok w' -> exists s, encodes vs s /\ written w' = written w +:+ s.
Proof using Type.
  revert w. induction vs as [|v vs IH]; intros w; cbn [write_frames].
  - intros [= <-]. exists "". rewrite append_nil_r. split; [constructor|done].
  - unfold write_frame, bindR. destruct (to_vec v) as [e|buf] eqn:Hv; [done|].
    unfold write_all. destruct (fault w); [done|]. cbn. intros (s & Hs & Hw)%IH. cbn in Hw.
    exists (buf +:+ String newline s). split; [by constructor|]. rewrite Hw, !append_assoc. done.
Qed.

Context `{!FrameCodecOk WorkerResponse}.

Lemma decode_frame v b : to_vec v = inr b -> decode_line (b +:+ String newline "") = Ok (Some (reread v)).
Proof using FrameCodecOk0.
  intros Hv. unfold decode_line. rewrite (to_vec_utf8 v b Hv), bool_decide_eq_false_2 by (by destruct b). by rewrite (from_to v b Hv).
Qed.

(** What is on its way when [later] is still to come, in the middle of a line
    without a newline; once the worker hung up nothing is. *)
Record flow vs r (later : string) : Prop := {
  fl_text : exists s, encodes vs s /\ line r +:+ unread r +:+ later = s;
  fl_line : no_newline (line r) = true;
  fl_closed : closed r = true -> later = "";
}.

(** A poll reads the next frame, or waits for more of it, or sees the end. *)
Lemma poll_flow vs r later :
  flow vs r later ->
  match poll_read r with
  | (None, r') => flow vs r' later /\ unread r' = ""
  | (Some res, r') =>
      match vs with v :: vs' => res = Ok (Some (reread v)) /\ flow vs' r' later | [] => res = Ok None /\ flow [] r' later end
  end.
Proof using FrameCodecOk0.
  intros [(s & Hs & Ht) Hl Hc]. unfold poll_read, poll_line. destruct (cut_line (unread r)) as [[l rest]|] eqn:E.
  - apply cut_line_Some in E as (Eu & body & -> & Hb). cbn [fmap option_fmap option_map].
    assert (s = (line r +:+ body) +:+ String newline (rest +:+ later)) as Es.
    { rewrite <- Ht, Eu, !append_assoc. done. }
    destruct Hs as [|v vs b s Hv Hs]; [destruct (line r), body; discriminate Es|].
    apply line_unique in Es as [-> ->]; [|by eapply to_vec_line|by rewrite no_newline_app, Hl, Hb].
    rewrite <- append_assoc, (decode_frame v) by done. split; [done|]. split; cbn; [by eexists|done|exact Hc].
  - apply cut_line_None in E. destruct (closed r) eqn:Ecl; cbn [fmap option_fmap option_map].
    + rewrite (Hc eq_refl), append_nil_r in Ht. destruct Hs as [|v vs b s Hv Hs].
      * rewrite Ht. split; [done|]. split; cbn; [|done|exact Hc]. exists "". split; [constructor|]. by rewrite Hc.
      * exfalso. apply (no_newline_absurd b s). by rewrite <- Ht, no_newline_app, Hl, E.
    + split; [|done]. split; cbn; [|by rewrite no_newline_app, Hl, E|done]. exists s. split; [done|]. by rewrite <- Ht, append_assoc.
Qed.

Lemma closed_arrives ios r st out : closed r = true -> sys_run ios (r, st) = Some out -> arrived ios = "".
Proof using Type.
  revert r st out. induction ios as [|i ios IH]; intros r st out Hc; [done|]. cbn [sys_run].
  destruct (sys_step i (r, st)) as [[[r1 st1] es]|] eqn:E; [|done]. cbn.
  destruct (sys_run ios (r1, st1)) eqn:E2; [|done]. intros _.
  assert (closed r1 = true -> arrived ios = "") as Hrest by (intros H; by eapply IH).
  destruct i as [a| | |e]; cbn [arrived]; revert E; cbn [sys_step]; [by rewrite Hc| | |].
  - intros [= <- <- <-]. by apply Hrest.
  - destruct (pump_running st); [|done]. unfold poll_read, poll_line. rewrite Hc. intros E. apply Hrest.
    destruct (cut_line _) as [[]|]; cbn in E; destruct (step _ st); cbn in E; by simplify_eq.
  - destruct (is_read e); [done|]. destruct (step e st); [|done]. intros [= <- <- <-]. apply Hrest. by destruct (takes_request e).
Qed.

(** What a step reads of [vs], and leaves. *)
Definition reads vs es vs' : Prop :=
  exists vs0, vs = vs0 ++ vs' /\ responses es = reread <$> vs0 /\ (forall m, FrameError m ∉ es) /\ (Eof ∈ es -> vs' = []).

Lemma reads_none vs es : Forall (fun e => is_read e = false) es -> reads vs es vs.
Proof using Type.
  intros H. exists []. split; [done|]. split; [|split].
  - induction H as [|e es He Hes IH]; [done|]. by destruct e.
  - intros m Hm. rewrite Forall_forall in H. by apply H in Hm.
  - intros Hm. rewrite Forall_forall in H. by apply H in Hm.
Qed.

Lemma reads_app vs1 es1 vs2 es2 vs3 : reads vs1 es1 vs2 -> reads vs2 es2 vs3 -> reads vs1 (es1 ++ es2) vs3.
Proof using Type.
  intros (v1 & -> & R1 & Hf1 & He1) (v2 & -> & R2 & Hf2 & He2). exists (v1 ++ v2). split; [by rewrite (assoc_L (++))|]. split; [|split].
  - unfold responses in *. by rewrite omap_app, R1, R2, fmap_app.
  - intros m. rewrite elem_of_app. intros [H|H]; [by apply (Hf1 m)|by apply (Hf2 m)].
  - rewrite elem_of_app. intros [H|H]; [|by apply He2]. by apply He1, app_nil in H as [_ ->].
Qed.

Lemma step_flow i vs r st r' st' es later :
  flow vs r (arrived [i] +:+ later) -> (i = Hangup -> later = "") -> calm_at i r = true ->
  sys_step i (r, st) = Some (r', st', es) -> exists vs', reads vs es vs' /\ flow vs' r' later.
Proof using FrameCodecOk0.
  destruct i as [a| | |e]; cbn [arrived sys_step calm_at]; intros Hfl Hhang Hcalm.
  - destruct (closed r) eqn:Hc; [done|]. intros [= <- <- <-]. exists vs. split; [by apply reads_none|].
    destruct Hfl as [(s & Hs & Ht) Hl _]. split; cbn; [|done|done]. exists s. split; [done|]. rewrite <- Ht, append_nil_r, !append_assoc. done.
  - intros [= <- <- <-]. exists vs. split; [by apply reads_none|]. destruct Hfl as [Ht Hl _]. split; cbn; auto.
  - destruct (pump_running st); [|done]. pose proof (poll_flow vs r later Hfl) as Hp.
    destruct (poll_read r) as [[res|] r1]; [|intros [= <- <- <-]; exists vs; split; [by apply reads_none|apply Hp]].
    destruct (step (read_event res) st) as [st1|]; [|done]. intros [= <- <- <-].
    destruct vs as [|v vs]; destruct Hp as [-> Hp]; [exists []|exists vs]; (split; [|exact Hp]).
    + exists []. split; [done|]. split; [done|]. split; [|done]. intros m. cbn. by intros ?%list_elem_of_singleton.
    + exists [v]. split; [done|]. split; [done|]. split; [intros m|]; cbn; by intros ?%list_elem_of_singleton.
  - destruct (is_read e) eqn:He; [done|]. destruct (step e st) as [st1|]; [|done]. intros [= <- <- <-].
    exists vs. split; [apply reads_none; by repeat constructor|]. destruct (takes_request e) eqn:Hq; [|exact Hfl].
    cbn in Hcalm. apply bool_decide_eq_true in Hcalm. destruct Hfl as [Ht Hl Hc]. rewrite Hcalm in Ht. by split.
Qed.

Lemma run_flow ios vs r st r' st' es later :
  flow vs r (arrived ios +:+ later) -> (Hangup ∈ ios -> later = "") -> calm ios (r, st) = true ->
  sys_run ios (r, st) = Some (r', st', es) -> exists vs', reads vs es vs' /\ flow vs' r' later.
Proof using FrameCodecOk0.
  revert vs r st es. induction ios as [|i ios IH]; intros vs r st es Hfl Hhang; cbn [sys_run calm].
  { intros _ [= <- <- <-]. exists vs. split; [by apply reads_none|exact Hfl]. }
  destruct (sys_step i (r, st)) as [[[r1 st1] es1]|] eqn:E1; [|done].
  intros [Hc1 Hc]%andb_true_iff. cbn. destruct (sys_run ios (r1, st1)) as [[[r2 st2] es2]|] eqn:E2; [|done].
  cbn. intros [= <- <- <-]. assert (arrived (i :: ios) +:+ later = arrived [i] +:+ (arrived ios +:+ later)) as Ea.
  { destruct i; cbn; rewrite ?append_nil_r, ?append_assoc; done. }
  rewrite Ea in Hfl. destruct (step_flow i vs r st r1 st1 es1 (arrived ios +:+ later)) as (vs1 & Hr1 & Hf1); [exact Hfl| |done|exact E1|].
  { intros ->. rewrite Hhang by (by left). cbn in E1. injection E1 as <- <- <-. rewrite append_nil_r. by eapply closed_arrives; [|exact E2]. }
  destruct (IH vs1 r1 st1 es2 Hf1) as (vs2 & Hr2 & Hf2); [|exact Hc|exact E2|].
  { intros H. apply Hhang. by right. }
  exists vs2. split; [by eapply reads_app|exact Hf2].
Qed.

(** C10. However the worker's output is cut into pieces on its way and however
    the polls of the pump, its callers, timeouts and the monitor interleave: as
    long as no request is taken up while a frame is half read, the pump reads
    exactly the responses the worker wrote, each as the codec rereads it, in
    their order, never a damaged frame, and the end of the stream only behind
    the last of them; and when the reader has taken in everything that arrived,
    the next response is one that has not arrived completely. *)
Theorem frames_survive_chunks (id : Z) (ios : list io) (r : reader) (st : state) (es : list event)
    (vs : list WorkerResponse) (w : Sink) (later : string) :
  write_frames {| written := ""; fault := None |} vs = Ok w ->
  arrived ios +:+ later = written w -> (Hangup ∈ ios -> later = "") ->
  calm ios (reader_new, init id) = true ->
  sys_run ios (reader_new, init id) = Some (r, st, es) ->
  exists done rest, vs = done ++ rest /\ responses es = reread <$> done
    /\ (forall m, FrameError m ∉ es) /\ (Eof ∈ es -> rest = [])
    /\ (unread r = "" -> forall v b, head rest = Some v -> to_vec v = inr b -> exists missing, b = line r +:+ missing).
Proof using FrameCodecOk0.
  intros (s & Hs & Hw)%write_frames_encodes Ha Hhang Hcalm Hrun. cbn in Hw.
  destruct (run_flow ios vs reader_new (init id) r st es later) as (rest & (vs0 & Hvs & Hr & Hf & He) & [(s' & Hs' & Ht) Hl _]); [|done..|].
  { split; cbn; [|done|done]. exists s. by rewrite Ha. }
  exists vs0, rest. split; [done|]. split; [done|]. split; [done|]. split; [done|]. intros Hu v b Hhd Hv. rewrite Hu in Ht.
  destruct Hs' as [|v' rest b' s' Hv' Hs']; [done|]. injection Hhd as ->. rewrite Hv in Hv'. injection Hv' as <-.
  by eapply line_prefix; [exact Hl|].
Qed.
End Delivery.

(** ** A request in the middle of a frame *)

Lemma cut_line_app b : no_newline b = true -> cut_line (b +:+ String newline "") = Some (b +:+ String newline "", "").
Proof.
  induction b as [|c b IH]; [done|]. intros [Hc Hb]%andb_true_iff. rewrite append_cons. cbn [cut_line].
  rewrite Ascii.eqb_sym. apply negb_true_iff in Hc as ->. by rewrite IH.
Qed.

Lemma cut_line_nothing b : no_newline b = true -> cut_line b = None.
Proof.
  induction b as [|c b IH]; [done|]. intros [Hc Hb]%andb_true_iff. cbn [cut_line].
  rewrite Ascii.eqb_sym. apply negb_true_iff in Hc as ->. by rewrite IH.
Qed.

Section Loss.
Context `{!FrameCodec WorkerResponse}.

(** A response of two pieces, between which a request is taken up: the first
    piece is gone, the second is read as a frame of its own, and when it is
    not one (the tail of a JSON object never is) the pump gives up: every
    pending call fails and the session is reported as crashed, although the
    worker is well. *)
Lemma half_read_costs_session b1 b2 e st st1 :
  no_newline b1 = true -> no_newline b2 = true ->
  decode_line (T := WorkerResponse) (b2 +:+ String newline "") = Err e ->
  pump_running st = true -> step RecvWritten st = Some st1 -> pump_running st1 = true ->
  let why := "worker frame error: " +:+ to_string e in
  sys_run [Arrive b1; Poll; Task RecvWritten; Arrive (b2 +:+ String newline ""); Poll] (reader_new, st)
  = Some (reader_new, stop (crash why (fail_all why st1)), [RecvWritten; FrameError (to_string e)]).
Proof.
  intros H1 H2 Hd Hrun Hst Hrun1 why. assert (step (FrameError (to_string e)) st1 = Some (stop (crash why (fail_all why st1)))) as Hlast.
  { unfold step. by rewrite Hrun1. }
  cbn -[step decode_line to_string]. rewrite Hrun. unfold poll_read, poll_line.
  cbn -[step decode_line to_string]. change ("" +:+ b1) with b1. rewrite (cut_line_nothing b1 H1). cbn -[step decode_line to_string].
  rewrite Hst. cbn -[step decode_line to_string]. rewrite Hrun1. change ("" +:+ (b2 +:+ String newline "")) with (b2 +:+ String newline "").
  unfold poll_read, poll_line. cbn [unread]. rewrite (cut_line_app b2 H2). cbn -[step decode_line to_string].
  change ("" +:+ (b2 +:+ String newline "")) with (b2 +:+ String newline ""). rewrite Hd. cbn -[step decode_line to_string]. by rewrite Hlast.
Qed.
End Loss.

(** ** On a small codec *)

Module ChunkWitness.
Definition answer (z : Z) : WorkerResponse := WorkerResponse_ok z JNull.
Definition read_back (v : WorkerResponse) : WorkerResponse := {| resp_id := resp_id v; resp_result := None; resp_error := None |}.

(** The answers alone have an encoding, an [r] and the number; as in JSON, the
    [null] they hold is read back as absent. *)
#[local] Instance answer_codec : FrameCodec WorkerResponse := {
  to_vec v := match v with
              | {| resp_result := Some JNull; resp_error := None |} =>
                  match to_vec (resp_id v) with inr s => inr ("r" +:+ s) | inl e => inl e end
              | _ => inl "no answer"
              end;
  from_str s := match strip_prefix "r" s with
                | Some d => match from_str d with inr z => inr (read_back (answer z)) | inl e => inl e end
                | None => inl "expected value"
                end;
}.

Definition vs : list WorkerResponse := [answer 1; answer 2].
Definition later : string := String newline "".
Definition ios : list io := [
  Task (Begin 0 "ping" JNull 120000); Task (Send 0); Task RecvWritten; Arrive "r"; Poll; Arrive ("1" +:+ String newline "r");
  Poll; Task (Begin 1 "ping" JNull 120000); Task (Send 1); Task RecvWritten; Poll; Arrive "2"; Poll].

#[local] Instance answer_codec_ok : FrameCodecOk WorkerResponse.
Proof.
  assert (forall v s, to_vec v = inr s -> v = answer (resp_id v) /\ exists d, to_vec (resp_id v) = inr d /\ s = "r" +:+ d) as H.
  { intros [i [v|] [e|]] s; try (by destruct v || done); destruct v; try done. cbn [to_vec answer_codec resp_id]. destruct (to_vec i) as [e|d] eqn:E; [done|].
    intros [= <-]. split; [done|]. by exists d. }
  assert (forall (z : Z) d, to_vec z = inr d -> d <> "" /\ all_chars is_graphic d = true) as Hd.
  { intros z d. simpl. case_bool_decide as Hz; [|done]. intros [= <-]. split; [apply (show_radix_digits 10); [apply Hz|lia]|].
    apply show_graphic; [apply Hz|lia]. }
  refine {| reread := read_back |}; intros v s (Hv & d & Ed & ->)%H; destruct (Hd _ _ Ed) as [Hne Hg].
  - by apply utf8_graphic_line.
  - change ("r" +:+ d) with (String "r" d). cbn [all_chars]. by apply (to_vec_line (T := Z) _ _ Ed).
  - rewrite trim_line by done. cbn [from_str answer_codec]. rewrite strip_prefix_app, <- (trim_line d Hne Hg).
    rewrite (from_to (T := Z) _ _ Ed). by rewrite Hv.
Defined.

Lemma frames_survive_chunks_witness :
  exists r st es, sys_run ios (reader_new, init 1) = Some (r, st, es)
    /\ responses es = [read_back (answer 1)] /\ exists missing, "r2" = line r +:+ missing.
Proof.
  destruct (sys_run ios (reader_new, init 1)) as [[[r st] es]|] eqn:E; [|by vm_compute in E].
  destruct (frames_survive_chunks 1 ios r st es vs {| written := arrived ios +:+ later; fault := None |} later)
    as (read & rest & Hvs & Hread & _ & _ & Hhalf); [vm_compute; reflexivity|reflexivity|unfold ios; set_solver|vm_compute; reflexivity|exact E|].
  assert (responses es = [read_back (answer 1)] /\ unread r = "") as [Hr Hu] by (vm_compute in E; injection E as <- _ <-; by split).
  exists r, st, es. split; [done|]. split; [done|]. rewrite Hr in Hread.
  destruct read as [|v [|v' read]]; [done| |done]. injection Hvs as <- <-. by apply (Hhalf Hu (answer 2)).
Defined.

(** A request taken up when the first letter of an answer was read. *)
Example half_read : exists r st,
  sys_run [Arrive "r"; Poll; Task (Begin 0 "ping" JNull 120000); Task (Send 0); Task RecvWritten;
           Arrive ("1" +:+ String newline ""); Poll; Task Monitor] (reader_new, init 1) = Some (r, st,
    [Begin 0 "ping" JNull 120000; Send 0; RecvWritten; FrameError "ipc failure: bad frame: expected value"; Monitor])
  /\ health st = Crashed.
Proof. do 2 eexists. split; [vm_compute; reflexivity|reflexivity]. Qed.
End ChunkWitness.
