(* ===== verification/Discovery.v ===== *)
(** * Discovery: IDA versions, installs and their selection

    Models [rmcp-core/src/discovery.rs] (versions and requirements, install
    validation, the discovery pipeline and the selection),
    [rmcp-core/src/backend_registry.rs] and [rmcp-core/src/platform.rs].
    Paths are strings.  What the operating system answers is a [Machine]:
    which files exist, how paths canonicalize, what the environment, the
    configuration files, the registry and the drive scan offer as candidate
    directories, and the version resource of a library; the theorems hold for
    every machine. *)

From stdpp Require Import base list strings sorting.
From Stdlib Require Import ZArith Lia Ascii.
From S2P Require Import Prelude Text Errors.

Local Open Scope Z_scope.
Local Open Scope rmcp_scope.

(** ** Platform *)

Inductive Os := Windows | Macos | Linux.

Definition path_env : string := "PATH".
Definition path_separator (os : Os) : string := match os with Windows => ";" | _ => ":" end.
Definition prepend_path (os : Os) (dir existing : string) : string :=
  if bool_decide (existing = "") then dir else dir +:+ path_separator os +:+ existing.
Definition runtime_libraries (os : Os) : list string :=
  match os with
  | Windows => ["ida.dll"; "idalib.dll"]
  | Macos => ["libida.dylib"; "libidalib.dylib"]
  | Linux => ["libida.so"; "libidalib.so"]
  end.
Definition python_home_dirname (os : Os) : string :=
  match os with Windows => "Python311" | _ => "python" end.
Definition worker_exe_name (os : Os) : string :=
  match os with Windows => "reverse-mcp.exe" | _ => "reverse-mcp" end.
Definition shared_lib_ext (os : Os) : string :=
  match os with Windows => "dll" | Macos => "dylib" | Linux => "so" end.

(** ** Versions *)

Record Version := { major : Z; minor : Z; build : Z }.

#[global] Instance Version_eq_dec : EqDecision Version.
Proof. solve_decision. Defined.

Definition wf_version (v : Version) : Prop := is_u32 (major v) /\ is_u32 (minor v) /\ is_u32 (build v).

Definition backend_key (v : Version) : string := show_dec (major v) +:+ "_" +:+ show_dec (minor v).

Definition parse_u32 (s : string) : option Z := ok (from_str_radix 10 (u32_modulus - 1) s).

Definition Version_parse (s : string) : option Version :=
  match split_on "." (trim s) with
  | p0 :: p1 :: rest =>
      ma ← parse_u32 (trim p0);
      mi ← parse_u32 (trim p1);
      Some {| major := ma; minor := mi;
              build := default 0 (b ← head rest; parse_u32 (trim b)) |}
  | _ => None
  end.

Definition Version_to_string (v : Version) : string :=
  if build v =? 0 then show_dec (major v) +:+ "." +:+ show_dec (minor v)
  else show_dec (major v) +:+ "." +:+ show_dec (minor v) +:+ "." +:+ show_dec (build v).

(** The derived order, as one number (the fields are 32-bit). *)
Definition version_key (v : Version) : Z :=
  (major v * u32_modulus + minor v) * u32_modulus + build v.

(** [(v.major, v.minor)] compared lexicographically. *)
Definition mm_lt (a b : Version) : bool :=
  (major a <? major b) || ((major a =? major b) && (minor a <? minor b)).
Definition mm_le (a b : Version) : bool := negb (mm_lt b a).

Inductive Constraint :=
  | Exact (v : Version)
  | AtLeast (v : Version)
  | AtMost (v : Version)
  | Greater (v : Version)
  | Less (v : Version).

Definition Constraint_matches (c : Constraint) (v : Version) : bool :=
  match c with
  | Exact r => (major v =? major r) && (minor v =? minor r)
  | AtLeast r => mm_le r v
  | AtMost r => mm_le v r
  | Greater r => mm_lt r v
  | Less r => mm_lt v r
  end.

Record IdaRequirement := { constraints : list Constraint; latest : bool }.

Definition bad_version (part : string) : Error :=
  Config ("bad version in requirement: '" +:+ part +:+ "'").

(** One comma-separated part of the requirement [req]. *)
Definition parse_constraint (req part0 : string) : Result Constraint :=
  let part := trim part0 in
  match strip_prefix ">=" part with
  | Some rest => v <-? ok_or_else (Version_parse rest) (bad_version part); Ok (AtLeast v)
  | None =>
  match strip_prefix "<=" part with
  | Some rest => v <-? ok_or_else (Version_parse rest) (bad_version part); Ok (AtMost v)
  | None =>
  match strip_prefix ">" part with
  | Some rest => v <-? ok_or_else (Version_parse rest) (bad_version part); Ok (Greater v)
  | None =>
  match strip_prefix "<" part with
  | Some rest => v <-? ok_or_else (Version_parse rest) (bad_version part); Ok (Less v)
  | None =>
      v <-? ok_or_else (Version_parse part)
        (Config ("bad version requirement '" +:+ req
           +:+ "': use " +:+ String "034" "9.2" +:+ String "034" ", " +:+ String "034" "latest"
           +:+ String "034" " or " +:+ String "034" ">=9.2,<9.4" +:+ String "034" ""));
      Ok (Exact v)
  end end end end.

Fixpoint parse_constraints (req : string) (parts : list string) : Result (list Constraint) :=
  match parts with
  | [] => Ok []
  | p :: ps => c <-? parse_constraint req p; cs <-? parse_constraints req ps; Ok (c :: cs)
  end.

Definition IdaRequirement_parse (req0 : string) : Result IdaRequirement :=
  let req := trim req0 in
  if bool_decide (req = "") || eq_ignore_ascii_case req "latest"
  then Ok {| constraints := []; latest := true |}
  else cs <-? parse_constraints req (split_on "," req); Ok {| constraints := cs; latest := false |}.

Definition IdaRequirement_matches (r : IdaRequirement) (v : Version) : bool :=
  forallb (fun c => Constraint_matches c v) (constraints r).

(** ** Backend registry *)

Record BackendManifest := {
  key : string;
  sdk_version : string;
  sdk_commit : string;
  ffi_source : string;
  generator : string;
  verified_arch : list string;
  verified : bool;
}.

Definition KNOWN_BACKENDS : list BackendManifest := [
  {| key := "9_2"; sdk_version := "9.2"; sdk_commit := "9.2.250908";
     ffi_source := "idalib-sys 0.7.2+9.2.250908 (vendored)";
     generator := "autocxx 0.27 + autocxx-bindgen 0.71";
     verified_arch := ["x86_64"]; verified := true |};
  {| key := "9_4"; sdk_version := "9.4";
     sdk_commit := "ida-sdk v9.4.0-sdk.1 (2a9143f2f4abd7f54fe20d1e40fb68391d19c4cb)";
     ffi_source := "idalib94-sys 0.10.1+9.4.260714 (vendored from idalib-rs/idalib v0.10.1+9.4.260714, commit 4f0437a3cff5067738f4645a1e365e139c09156c)";
     generator := "autocxx-idalib 0.30 + autocxx-bindgen-idalib 0.73";
     verified_arch := ["x86_64"]; verified := true |}
].

Definition manifest_for (k : string) : option BackendManifest :=
  List.find (fun m => bool_decide (key m = k)) KNOWN_BACKENDS.
Definition is_verified (k : string) : bool :=
  match manifest_for k with Some m => verified m | None => false end.
Definition known_keys : list string := key <$> KNOWN_BACKENDS.
Definition verified_keys : list string := key <$> filter (fun m => verified m = true) KNOWN_BACKENDS.

Inductive BackendStatus := Ready | AvailableUnverified | Unavailable.

#[global] Instance BackendStatus_eq_dec : EqDecision BackendStatus.
Proof. solve_decision. Defined.

Definition BackendStatus_debug (s : BackendStatus) : string :=
  match s with
  | Ready => "Ready" | AvailableUnverified => "AvailableUnverified" | Unavailable => "Unavailable"
  end.

Definition backend_status (v : Version) : BackendStatus :=
  match manifest_for (backend_key v) with
  | Some m => if verified m then Ready else AvailableUnverified
  | None => Unavailable
  end.

(** ** Installs *)

Inductive Arch := X64 | Arm64.

Record Decompiler := { dec_name : string; dec_path : string }.

Inductive DiscoverySource :=
  | Explicit | EnvVar | ConfigFile | OsNative | CommonPaths | RegHint | DriveScan.

#[global] Instance DiscoverySource_eq_dec : EqDecision DiscoverySource.
Proof. solve_decision. Defined.

Definition source_as_str (s : DiscoverySource) : string :=
  match s with
  | Explicit => "explicit" | EnvVar => "env" | ConfigFile => "config" | OsNative => "os_native"
  | CommonPaths => "common_paths" | RegHint => "reg_hint" | DriveScan => "drive_scan"
  end.

Record IdaInstallation := {
  root : string;
  version : Version;
  arch : Arch;
  idalib : string;
  ida : string;
  decompilers : list Decompiler;
  source : DiscoverySource;
  backend : BackendStatus;
}.

Definition backend_ready (i : IdaInstallation) : bool := bool_decide (backend i = Ready).

(** [runtime_paths]: the two libraries and the decompiler names. *)
Definition runtime_ida (os : Os) : string :=
  match os with Windows => "ida.dll" | Macos => "libida.dylib" | Linux => "libida.so" end.
Definition runtime_idalib (os : Os) : string :=
  match os with Windows => "idalib.dll" | Macos => "libidalib.dylib" | Linux => "libidalib.so" end.
Definition runtime_decompilers (os : Os) : list string :=
  match os with
  | Windows => ["hexx64.dll"; "hexarm64.dll"; "hexarm.dll"; "hexmips.dll"; "hexppc.dll"; "hexarc.dll";
                "hexrv.dll"; "hexrays.dll"]
  | Macos => ["libhexx64.dylib"; "libhexarm64.dylib"]
  | Linux => ["libhexx64.so"; "libhexarm64.so"]
  end.

Record Machine := {
  os : Os;
  path_join : string -> string -> string;
  file_name : string -> option string;
  is_file : string -> bool;
  canonicalize : string -> option string;
  (** Windows only: the version resource of a library, the uninstall registry. *)
  pe_file_version : string -> option Version;
  registry_version_for_dir : string -> option Version;
  (** candidate directories, per source *)
  idadir : list string; (** [IDADIR] and its first two ancestors, or none *)
  ida_config_dirs : list string;
  os_native_candidates : list (string * option string);
  common_paths : list string;
  reg_hint_candidates : list string;
  cached_drive_scan : option string;
}.

Definition is_valid_ida_dir (m : Machine) (dir : string) : bool :=
  is_file m (path_join m dir (runtime_ida (os m))) && is_file m (path_join m dir (runtime_idalib (os m))).

(** The longest [digit(.digit)*] prefix, the rest, the number of dots. *)
Fixpoint take_version (s : string) : string * string * nat :=
  match s with
  | EmptyString => (EmptyString, EmptyString, O)
  | String c s' =>
      if is_ascii_digit c then
        let '(a, r, k) := take_version s' in (String c a, r, k)
      else if Ascii.eqb c "." then
        match s' with
        | String d _ =>
            if is_ascii_digit d then
              let '(a, r, k) := take_version s' in (String c a, r, S k)
            else (EmptyString, s, O)
        | EmptyString => (EmptyString, s, O)
        end
      else (EmptyString, s, O)
  end.

Fixpoint version_scan (fuel : nat) (s : string) : option Version :=
  match fuel with
  | O => None
  | S fuel' =>
      match s with
      | EmptyString => None
      | String c s' =>
          if is_ascii_digit c then
            let '(candidate, rest, dots) := take_version s in
            let nums := omap parse_u32 (split_on "." candidate) in
            match dots, nums with
            | S _, n0 :: n1 :: ns =>
                if 7 <=? n0 then Some {| major := n0; minor := n1; build := default 0 (head ns) |}
                else version_scan fuel' rest
            | _, _ => version_scan fuel' rest
            end
          else version_scan fuel' s'
      end
  end.

(** [to_lowercase] acts on letters only, never on digits and dots. *)
Definition version_from_name (name : string) : option Version :=
  let lower := to_ascii_lowercase name in version_scan (S (String.length lower)) lower.

Fixpoint first_some {A B} (f : A -> option B) (l : list A) : option B :=
  match l with
  | [] => None
  | x :: l' => match f x with Some y => Some y | None => first_some f l' end
  end.

Definition detect_version (m : Machine) (dir : string) (hint : option string) : option Version :=
  let resource :=
    match os m with
    | Windows =>
        match pe_file_version m (path_join m dir (runtime_idalib (os m))) with
        | Some v => Some v
        | None =>
            match pe_file_version m (path_join m dir (runtime_ida (os m))) with
            | Some v => Some v
            | None => registry_version_for_dir m dir
            end
        end
    | _ => None
    end in
  match resource with
  | Some v => Some v
  | None =>
      first_some version_from_name
        (match file_name m dir with Some x => [x] | None => [] end
         ++ match hint with Some x => [x] | None => [] end)
  end.

Fixpoint trim_end_matches_fuel (fuel : nat) (pat s : string) : string :=
  match fuel with
  | O => s
  | S fuel' =>
      match strip_suffix pat s with Some s' => trim_end_matches_fuel fuel' pat s' | None => s end
  end.
Definition trim_end_matches (pat s : string) : string := trim_end_matches_fuel (String.length s) pat s.

Definition validate (m : Machine) (dir : string) (src : DiscoverySource) (hint : option string)
  : Result IdaInstallation :=
  let ida_path := path_join m dir (runtime_ida (os m)) in
  let idalib_path := path_join m dir (runtime_idalib (os m)) in
  if negb (is_file m ida_path) || negb (is_file m idalib_path) then
    Err (IdaNotFound (dir +:+ " is not a valid IDA install (missing " +:+ runtime_ida (os m)
           +:+ " or " +:+ runtime_idalib (os m) +:+ ")"))
  else
    let v := default {| major := 0; minor := 0; build := 0 |} (detect_version m dir hint) in
    Ok {| root := dir; version := v; arch := X64; idalib := idalib_path; ida := ida_path;
          decompilers :=
            d ← [dir; path_join m dir "plugins"];
            omap (fun name => let p := path_join m d name in
                    if is_file m p then
                      Some {| dec_name := trim_end_matches ".dll" name; dec_path := p |}
                    else None)
              (runtime_decompilers (os m));
          source := src; backend := backend_status v |}.

(** The closure [push]: the installs found, the canonical paths seen. *)
Definition push (m : Machine) (src : DiscoverySource) (st : list IdaInstallation * list string)
    (candidate : string * option string) : list IdaInstallation * list string :=
  let '(out, seen) := st in
  let canonical := default candidate.1 (canonicalize m candidate.1) in
  if bool_decide (canonical ∈ seen) then st
  else match validate m candidate.1 src candidate.2 with
       | inr inst => (out ++ [inst], seen ++ [canonical])
       | inl _ => st
       end.

Definition no_hint (dirs : list string) : list (string * option string) := (fun d => (d, None)) <$> dirs.

(** The candidates of every source after the explicit one, in order. *)
Definition candidates (m : Machine) : list (DiscoverySource * list (string * option string)) :=
  [(EnvVar, no_hint (idadir m)); (ConfigFile, no_hint (ida_config_dirs m));
   (OsNative, os_native_candidates m); (CommonPaths, no_hint (common_paths m));
   (RegHint, no_hint (reg_hint_candidates m));
   (DriveScan, no_hint (match cached_drive_scan m with Some d => [d] | None => [] end))].

Definition discover_all (m : Machine) (explicit : option string) : list IdaInstallation :=
  let st0 := match explicit with Some d => push m Explicit ([], []) (d, None) | None => ([], []) end in
  match st0.1 with
  | _ :: _ => st0.1
  | [] =>
      let st := foldl (fun st sc => foldl (push m sc.1) st sc.2) st0 (candidates m) in
      sort_by_key (fun i => - version_key (version i)) st.1
  end.

(** ** Selection *)

(** [max_by_key(|i| i.version)]: the last of the largest. *)
Fixpoint max_by_version (l : list IdaInstallation) : option IdaInstallation :=
  match l with
  | [] => None
  | i :: l' =>
      match max_by_version l' with
      | None => Some i
      | Some j => if version_key (version j) <? version_key (version i) then Some i else Some j
      end
  end.

Definition requirement_display (r : IdaRequirement) : string :=
  if latest r then "latest" else "custom".

(** [resolve_with] after discovery: select among [all]. *)
Definition select_install (all : list IdaInstallation) (requirement : IdaRequirement)
  : Result IdaInstallation :=
  match all with
  | [] => Err (IdaNotFound "no IDA installation found on this machine")
  | _ =>
      let matching := filter (fun i => IdaRequirement_matches requirement (version i) = true) all in
      match matching with
      | [] =>
          Err (IdaVersionMismatch
            (join "; " ((fun i => "IDA " +:+ Version_to_string (version i) +:+ " (" +:+ root i +:+ ")")
               <$> all))
            ("requirement '" +:+ requirement_display requirement +:+ "' matched none of "
               +:+ show_dec (Z.of_nat (length all)) +:+ " installed version(s)"))
      | _ =>
          let best :=
            match max_by_version (filter (fun i => backend_ready i = true) matching) with
            | Some b => Some b
            | None => if latest requirement then max_by_version matching else None
            end in
          ok_or_else best (CapabilityUnavailable "idalib"
            ("requirement '" +:+ requirement_display requirement +:+ "' matched "
               +:+ join "; " ((fun i => "IDA " +:+ Version_to_string (version i) +:+ " (" +:+ root i
                                 +:+ "), backend: " +:+ BackendStatus_debug (backend i)) <$> matching)
               +:+ " but no verified backend ships for it (verified: " +:+ join ", " verified_keys
               +:+ "); pick another version or extend the backend registry"))
      end
  end.

Definition resolve_with (m : Machine) (explicit : option string) (requirement : IdaRequirement)
  : Result IdaInstallation :=
  select_install (discover_all m explicit) requirement.

Definition resolve (m : Machine) (requirement : IdaRequirement) : Result IdaInstallation :=
  resolve_with m None requirement.

Example version_from_name_example :
  version_from_name "IDA_Professional_9.2.250908" = Some {| major := 9; minor := 2; build := 250908 |}
  /\ version_from_name "lib64" = None.
Proof. vm_compute. done. Qed.

(** ** Lemmas: version texts *)

Lemma parse_u32_show n : is_u32 n -> parse_u32 (trim (show_dec n)) = Some n.
Proof.
  intros Hn. unfold is_u32 in Hn. unfold parse_u32, show_dec.
  rewrite trim_show by lia. rewrite parse_show_max; [done|lia..|]. reflexivity.
Qed.

(** A decimal number has no dot, comma or other punctuation. *)
Lemma show_dec_no c n : 0 <= n -> is_ascii_digit c = false ->
  all_chars (fun x => negb (Ascii.eqb c x)) (show_dec n) = true.
Proof.
  intros Hn Hc. eapply all_chars_impl; [|by apply show_dec_digits].
  intros x Hx. cbn beta. destruct (Ascii.eqb_spec c x) as [->|]; [congruence|done].
Qed.

Lemma version_graphic v : wf_version v -> all_chars is_graphic (Version_to_string v) = true.
Proof.
  intros (H1 & H2 & H3). unfold is_u32 in *. unfold Version_to_string.
  destruct (build v =? 0); rewrite !all_chars_app; unfold show_dec;
    rewrite !show_graphic by lia; reflexivity.
Qed.

Lemma Version_parse_show v : wf_version v -> Version_parse (Version_to_string v) = Some v.
Proof.
  intros Hv. pose proof (version_graphic v Hv) as Hg. destruct Hv as (H1 & H2 & H3).
  assert (0 <= major v /\ 0 <= minor v /\ 0 <= build v) as (? & ? & ?) by (unfold is_u32 in *; lia).
  unfold Version_parse. rewrite (trim_graphic _ Hg). unfold Version_to_string.
  destruct (Z.eqb_spec (build v) 0) as [E|E].
  - change ("." +:+ ?x) with (String "." x).
    rewrite split_on_app, split_on_none by (by apply show_dec_no).
    rewrite !parse_u32_show by done. simpl. destruct v; simpl in *. by subst.
  - change ("." +:+ show_dec (minor v) +:+ "." +:+ show_dec (build v))
      with (String "." (show_dec (minor v) +:+ String "." (show_dec (build v)))).
    rewrite !split_on_app by (by apply show_dec_no). rewrite split_on_none by (by apply show_dec_no).
    cbn [head mbind option_bind]. rewrite !parse_u32_show by done. by destruct v.
Qed.

(** Round trip: the text of a version with 32-bit fields parses back to
    that version, with or without a build number. *)
Theorem Version_parse_to_string (v : Version) :
  wf_version v -> Version_parse (Version_to_string v) = Some v.
Proof. apply Version_parse_show. Qed.

Lemma Version_parse_to_string_witness :
  Version_parse "9.2.250908" = Some {| major := 9; minor := 2; build := 250908 |}.
Proof.
  apply (Version_parse_to_string {| major := 9; minor := 2; build := 250908 |}).
  vm_compute. repeat split; congruence.
Defined.

Lemma version_first_char v : wf_version v ->
  exists c r, Version_to_string v = String c r /\ is_ascii_digit c = true.
Proof.
  intros (H1 & _). unfold is_u32 in H1. pose proof (show_dec_digits (major v) ltac:(lia)) as Hd.
  destruct (show_radix_digits 10 (major v)) as [_ Hne]; [lia..|]. fold (show_dec (major v)) in Hne.
  unfold Version_to_string. destruct (show_dec (major v)) as [|c r]; [done|].
  simpl in Hd. apply andb_true_iff in Hd as [Hc _].
  destruct (build v =? 0); rewrite append_cons; eauto.
Qed.

Lemma version_no_comma v : wf_version v ->
  all_chars (fun x => negb (Ascii.eqb "," x)) (Version_to_string v) = true.
Proof.
  intros (H1 & H2 & H3). unfold is_u32 in *. unfold Version_to_string.
  destruct (build v =? 0); rewrite !all_chars_app, !show_dec_no by (done || lia); reflexivity.
Qed.

Lemma parse_at_least req a : wf_version a ->
  parse_constraint req (">=" +:+ Version_to_string a) = Ok (AtLeast a).
Proof.
  intros Ha. unfold parse_constraint.
  rewrite trim_graphic by (rewrite all_chars_app, version_graphic by done; reflexivity).
  rewrite strip_prefix_app, Version_parse_show by done. done.
Qed.

Lemma parse_less req b : wf_version b ->
  parse_constraint req ("<" +:+ Version_to_string b) = Ok (Less b).
Proof.
  intros Hb. unfold parse_constraint.
  rewrite trim_graphic by (rewrite all_chars_app, version_graphic by done; reflexivity).
  pose proof (Version_parse_show b Hb) as Hp.
  destruct (version_first_char b Hb) as (c & r & E & Hc). rewrite E in *.
  change ("<" +:+ ?x) with (String "<" x). cbn [strip_prefix].
  assert (Ascii.eqb "=" c = false) as Hne.
  { destruct (Ascii.eqb_spec "=" c) as [<-|]; [discriminate Hc|done]. }
  rewrite Hne. cbn -[Version_parse]. by rewrite Hp.
Qed.

Lemma range_parse a b : wf_version a -> wf_version b ->
  IdaRequirement_parse (">=" +:+ Version_to_string a +:+ ",<" +:+ Version_to_string b)
  = Ok {| constraints := [AtLeast a; Less b]; latest := false |}.
Proof.
  intros Ha Hb. unfold IdaRequirement_parse. cbv zeta.
  rewrite trim_graphic.
  2: { rewrite !all_chars_app, !version_graphic by done. reflexivity. }
  assert (eq_ignore_ascii_case (">=" +:+ Version_to_string a +:+ ",<" +:+ Version_to_string b) "latest"
    = false) as ->.
  { unfold eq_ignore_ascii_case. apply bool_decide_eq_false. intros E.
    change (">=" +:+ ?x) with (String ">" (String "=" x)) in E. discriminate E. }
  rewrite bool_decide_false by (change (">=" +:+ ?x) with (String ">" (String "=" x)); discriminate).
  cbn [orb]. change (",<" +:+ ?x) with (String "," ("<" +:+ x)). rewrite <- append_assoc.
  rewrite split_on_app.
  2: { rewrite all_chars_app, version_no_comma by done. reflexivity. }
  rewrite split_on_none.
  2: { rewrite all_chars_app, version_no_comma by done. reflexivity. }
  cbn [parse_constraints]. rewrite parse_at_least, parse_less by done. done.
Qed.

(** A range requirement means what it says: [">=a,<b"] parses, is not the
    auto-select requirement, and admits exactly the versions whose major and
    minor number lie in the half-open interval from [a] to [b]. *)
Theorem range_requirement (a b : Version) :
  wf_version a -> wf_version b ->
  exists r, IdaRequirement_parse (">=" +:+ Version_to_string a +:+ ",<" +:+ Version_to_string b) = Ok r
    /\ latest r = false
    /\ forall v, IdaRequirement_matches r v = true <->
         (major a < major v \/ (major a = major v /\ minor a <= minor v))
         /\ (major v < major b \/ (major v = major b /\ minor v < minor b)).
Proof.
  intros Ha Hb. eexists. split; [by apply range_parse|]. split; [done|]. intros v.
  unfold IdaRequirement_matches, Constraint_matches, mm_le, mm_lt. simpl. rewrite andb_true_r.
  cbbn; intuition lia.
Qed.

Lemma range_requirement_witness :
  exists r, IdaRequirement_parse ">=9.2,<9.4" = Ok r /\ latest r = false.
Proof.
  destruct (range_requirement {| major := 9; minor := 2; build := 0 |} {| major := 9; minor := 4; build := 0 |})
    as (r & Hr & Hl & _).
  - vm_compute. repeat split; congruence.
  - vm_compute. repeat split; congruence.
  - exists r. split; [exact Hr|exact Hl].
Defined.

(** ** Lemmas: selection *)

Lemma max_by_version_spec l i :
  max_by_version l = Some i ->
  i ∈ l /\ forall j, j ∈ l -> version_key (version j) <= version_key (version i).
Proof.
  revert i. induction l as [|x l IH]; intros i; simpl; [done|].
  destruct (max_by_version l) as [y|] eqn:Hm.
  - destruct (IH y eq_refl) as [Hin Hmax].
    destruct (Z.ltb_spec (version_key (version y)) (version_key (version x))); intros [= <-].
    + split; [left|]. intros j [->|Hj]%elem_of_cons; [lia|]. specialize (Hmax j Hj). lia.
    + split; [by right|]. intros j [->|Hj]%elem_of_cons; [lia|]. by apply Hmax.
  - intros [= <-]. split; [left|]. intros j [->|Hj]%elem_of_cons; [lia|].
    destruct l as [|z l]; [inversion Hj|]. simpl in Hm. by repeat case_match.
Qed.

Lemma max_by_version_None l : max_by_version l = None <-> l = [].
Proof. destruct l; simpl; [done|]. split; [|done]. by repeat case_match. Qed.

(** The last of the largest: nothing at or after it is as large. *)
Lemma max_by_version_last l1 l2 i j :
  j ∈ l2 -> version_key (version i) <= version_key (version j) -> i ∉ l1 -> i ∉ l2 ->
  max_by_version (l1 ++ i :: l2) <> Some i.
Proof.
  intros Hj Hle Hn1 Hn2. induction l1 as [|x l1 IH]; simpl.
  - destruct (max_by_version l2) as [y|] eqn:Hm.
    + destruct (max_by_version_spec l2 y Hm) as [Hin Hmax]. specialize (Hmax j Hj).
      destruct (Z.ltb_spec (version_key (version y)) (version_key (version i))); [lia|].
      intros [= ->]. done.
    + apply max_by_version_None in Hm as ->. inversion Hj.
  - destruct (max_by_version (l1 ++ i :: l2)) as [y|] eqn:Hm.
    + destruct (_ <? _); [intros [= ->]; apply Hn1; left|]. apply IH. intros ?. apply Hn1. by right.
    + apply max_by_version_None in Hm. by destruct l1.
Qed.

Definition matching (req : IdaRequirement) (all : list IdaInstallation) : list IdaInstallation :=
  filter (fun i => IdaRequirement_matches req (version i) = true) all.
Definition ready (l : list IdaInstallation) : list IdaInstallation :=
  filter (fun i => backend_ready i = true) l.

(** The four ways [select_install] ends. *)
Lemma select_install_cases all req :
  (all = [] /\ exists s, select_install all req = Err (IdaNotFound s))
  \/ (all <> [] /\ matching req all = [] /\ exists f d, select_install all req = Err (IdaVersionMismatch f d))
  \/ (exists i, max_by_version (ready (matching req all)) = Some i /\ select_install all req = Ok i)
  \/ (matching req all <> [] /\ ready (matching req all) = []
      /\ if latest req then exists i, max_by_version (matching req all) = Some i /\ select_install all req = Ok i
         else exists c r, select_install all req = Err (CapabilityUnavailable c r)).
Proof.
  unfold select_install. destruct all as [|x all]; [left; eauto|].
  fold (matching req (x :: all)). destruct (matching req (x :: all)) as [|y ms] eqn:Hm.
  { right. left. split; [done|]. split; [done|]. eauto. }
  right. right. fold (ready (y :: ms)).
  destruct (max_by_version (ready (y :: ms))) as [i|] eqn:Hb; [left; simpl; eauto|].
  right. apply max_by_version_None in Hb. split; [done|]. split; [done|].
  destruct (latest req); simpl; [|eauto].
  destruct (max_by_version ms) as [z|]; [destruct (_ <? _)|]; simpl; eauto.
Qed.

(** What a successful selection returns. *)
Lemma select_install_ok all req i :
  select_install all req = Ok i ->
  i ∈ all /\ IdaRequirement_matches req (version i) = true /\ (latest req = false -> backend_ready i = true).
Proof.
  intros Hi.
  assert ((i ∈ ready (matching req all)) \/ (latest req = true /\ i ∈ matching req all)) as Hin.
  { destruct (select_install_cases all req) as [(_ & s & E)|[(_ & _ & f & d & E)|[(i' & Hm & E)|(_ & _ & H)]]];
      [rewrite E in Hi; discriminate Hi..| |].
    - rewrite E in Hi. injection Hi as <-. left. by apply max_by_version_spec.
    - destruct (latest req).
      + destruct H as (i' & Hm & E). rewrite E in Hi. injection Hi as <-. right. split; [done|].
        by apply max_by_version_spec.
      + destruct H as (c & r & E). rewrite E in Hi. discriminate Hi. }
  unfold ready, matching in Hin. rewrite !list_elem_of_filter in Hin.
  destruct Hin as [(? & ? & ?)|(? & ? & ?)]; repeat split; try done. congruence.
Qed.

Lemma resolve_in m explicit req i :
  resolve_with m explicit req = inr i -> i ∈ discover_all m explicit.
Proof. intros H. by apply (select_install_ok _ req). Qed.

(** ** Lemmas: the discovery pipeline *)

Section Pipeline.
Context (m : Machine).

Definition canonical_root (dir : string) : string := default dir (canonicalize m dir).

(** What every collected install satisfies. *)
Definition install_ok (i : IdaInstallation) : Prop :=
  is_valid_ida_dir m (root i) = true /\ backend i = backend_status (version i).

Definition collected (st : list IdaInstallation * list string) : Prop :=
  Forall install_ok st.1 /\ st.2 = canonical_root ∘ root <$> st.1 /\ NoDup st.2.

Lemma validate_ok dir src hint i :
  validate m dir src hint = inr i -> install_ok i /\ root i = dir.
Proof.
  unfold validate, install_ok, is_valid_ida_dir.
  destruct (is_file m (path_join m dir (runtime_ida (os m)))) eqn:H1; [|done].
  destruct (is_file m (path_join m dir (runtime_idalib (os m)))) eqn:H2; [|done].
  simpl. intros [= <-]. simpl. by rewrite H1, H2.
Qed.

Lemma validate_total dir src hint :
  is_valid_ida_dir m dir = true -> exists i, validate m dir src hint = inr i /\ root i = dir.
Proof.
  unfold validate, is_valid_ida_dir. intros [-> ->]%andb_true_iff. simpl. eexists. split; [done|done].
Qed.

Lemma push_collected src st c : collected st -> collected (push m src st c).
Proof.
  destruct st as [out seen]. intros (Hok & Hseen & Hnd). simpl in *. unfold push.
  case_bool_decide as Hin; [done|].
  destruct (validate m c.1 src c.2) as [e|i] eqn:Hv; [done|].
  apply validate_ok in Hv as [Hi Hr]. unfold collected. simpl. split; [|split].
  - apply Forall_app. split; [done|]. by apply Forall_singleton.
  - rewrite Hseen, fmap_app. unfold canonical_root. simpl. by rewrite Hr.
  - apply NoDup_app. split; [done|]. split; [|apply NoDup_singleton].
    intros x Hx Hx'. apply list_elem_of_singleton in Hx' as ->. done.
Qed.

Lemma pushes_collected cs st :
  collected st -> collected (foldl (fun st sc => foldl (push m sc.1) st sc.2) st cs).
Proof.
  revert st. induction cs as [|[src ds] cs IH]; intros st Hst; [done|]. simpl. apply IH.
  clear IH. revert st Hst. induction ds as [|d ds IH]; intros st Hst; [done|].
  simpl. by apply IH, push_collected.
Qed.

Lemma start_collected explicit :
  collected (match explicit with Some d => push m Explicit ([], []) (d, None) | None => ([], []) end).
Proof.
  assert (collected ([], [])) as H0 by (repeat split; constructor).
  destruct explicit; [by apply push_collected|done].
Qed.
End Pipeline.

(** What discovery returns, on every machine: each install is a directory
    that holds both runtime libraries and carries the registry's verdict for
    its version; no directory is listed twice, even under two names; a valid
    explicit directory is the only install considered; otherwise they come
    highest version first. *)
Theorem discover_all_sound (m : Machine) (explicit : option string) :
  Forall (fun i => is_valid_ida_dir m (root i) = true /\ backend i = backend_status (version i))
    (discover_all m explicit)
  /\ NoDup ((fun i => default (root i) (canonicalize m (root i))) <$> discover_all m explicit)
  /\ (forall d, explicit = Some d -> is_valid_ida_dir m d = true ->
        root <$> discover_all m explicit = [d])
  /\ StronglySorted (fun i j => version_key (version j) <= version_key (version i))
       (discover_all m explicit).
Proof.
  pose proof (start_collected m explicit) as H0. unfold discover_all.
  set (st0 := match explicit with Some _ => _ | None => _ end) in *.
  assert (length st0.1 <= 1)%nat as Hlen.
  { unfold st0. destruct explicit as [d|]; [|simpl; lia]. unfold push.
    rewrite bool_decide_false by (apply not_elem_of_nil). destruct (validate _ _ _ _); simpl; lia. }
  assert (forall d, explicit = Some d -> is_valid_ida_dir m d = true -> root <$> st0.1 = [d]) as Hex.
  { intros d -> Hd. unfold st0, push. rewrite bool_decide_false by (apply not_elem_of_nil).
    destruct (validate_total m d Explicit None Hd) as (i & Hv & Hr). simpl. rewrite Hv. simpl. by rewrite Hr. }
  clearbody st0. destruct (st0.1) as [|i l] eqn:Hst.
  - destruct (pushes_collected m (candidates m) st0 H0) as (Hok & Hseen & Hnd).
    set (st := foldl _ st0 _) in *. split; [|split; [|split]].
    + by rewrite sort_by_key_perm.
    + assert ((fun i => default (root i) (canonicalize m (root i)))
        <$> sort_by_key (fun i => - version_key (version i)) st.1 ≡ₚ st.2) as ->; [|done].
      rewrite sort_by_key_perm, Hseen. done.
    + intros d Hd Hv. specialize (Hex d Hd Hv). done.
    + eapply StronglySorted_ext; [|apply (sort_by_key_sorted (fun i => - version_key (version i)))].
      intros a b _ _. unfold key_le. lia.
  - destruct H0 as (Hok & Hseen & Hnd). rewrite Hst in *. split; [done|]. split; [by rewrite Hseen in Hnd|].
    split; [done|]. destruct l as [|j l]; [|simpl in Hlen; lia]. repeat constructor.
Qed.

(** A Linux machine with two installs of the same version. *)
Definition demo_machine : Machine := {|
  os := Linux;
  path_join := fun d n => d +:+ "/" +:+ n;
  file_name := fun d => Some d;
  is_file := fun p => bool_decide (p ∈ ["/opt/ida-9.2/libida.so"; "/opt/ida-9.2/libidalib.so";
                                       "/home/u/ida-9.2/libida.so"; "/home/u/ida-9.2/libidalib.so"]);
  canonicalize := fun d => Some d;
  pe_file_version := fun _ => None;
  registry_version_for_dir := fun _ => None;
  idadir := ["/opt/ida-9.2"; "/opt"; "/"];
  ida_config_dirs := [];
  os_native_candidates := [];
  common_paths := ["/home/u/ida-9.2"];
  reg_hint_candidates := [];
  cached_drive_scan := None;
|}.

(** C37. Selection is strict and optimal: an install is returned only if it
    was discovered and satisfies the requirement, and, unless the requirement
    is the auto-select one, only if a verified backend can drive it; whenever
    such a backend-ready match exists one is returned, of the highest version
    among them. *)
Theorem resolve_strict (m : Machine) (explicit : option string) (req : IdaRequirement) :
  (forall i, resolve_with m explicit req = Ok i ->
     i ∈ discover_all m explicit
     /\ IdaRequirement_matches req (version i) = true
     /\ (latest req = false -> backend_ready i = true))
  /\ (forall j, j ∈ discover_all m explicit -> IdaRequirement_matches req (version j) = true ->
        backend_ready j = true ->
        exists i, resolve_with m explicit req = Ok i /\ backend_ready i = true
          /\ version_key (version j) <= version_key (version i)).
Proof.
  unfold resolve_with. set (all := discover_all m explicit). split.
  - intros i Hi. by apply select_install_ok.
  - intros j Hj Hmj Hrj.
    assert (j ∈ ready (matching req all)) as Hin by (unfold ready, matching; by rewrite !list_elem_of_filter).
    destruct (select_install_cases all req) as [(E & _)|[(_ & E & _)|[(i & Hm & E)|(_ & E & _)]]].
    + rewrite E in Hj. inversion Hj.
    + unfold ready in Hin. rewrite E, filter_nil in Hin. inversion Hin.
    + exists i. split; [done|]. apply max_by_version_spec in Hm as [Hi Hmax].
      unfold ready in Hi. apply list_elem_of_filter in Hi as [Hi _]. split; [done|]. by apply Hmax.
    + rewrite E in Hin. inversion Hin.
Qed.

(** The error says which step failed: nothing installed, nothing of a
    matching version, or, for a strict requirement only, no verified backend
    for what matched. *)
Theorem resolve_error_codes (m : Machine) (explicit : option string) (req : IdaRequirement) (e : Error) :
  resolve_with m explicit req = Err e ->
  (code e = "ida_not_found" /\ discover_all m explicit = [])
  \/ (code e = "ida_version_mismatch" /\ discover_all m explicit <> []
      /\ forall i, i ∈ discover_all m explicit -> IdaRequirement_matches req (version i) = false)
  \/ (code e = "capability_unavailable" /\ latest req = false
      /\ forall i, i ∈ discover_all m explicit -> IdaRequirement_matches req (version i) = true ->
           backend_ready i = false).
Proof.
  unfold resolve_with. set (all := discover_all m explicit). intros He.
  destruct (select_install_cases all req) as [(H & s & E)|[(Hne & Hm & f & d & E)|[(i' & Hm & E)|(_ & Hr & H)]]].
  - rewrite E in He. injection He as <-. left. done.
  - rewrite E in He. injection He as <-. right. left. split; [done|]. split; [done|]. intros i Hi.
    apply not_true_iff_false. intros Hb. assert (i ∈ matching req all) as Hin.
    { unfold matching. by apply list_elem_of_filter. }
    rewrite Hm in Hin. inversion Hin.
  - rewrite E in He. discriminate He.
  - destruct (latest req); [destruct H as (i & _ & E); rewrite E in He; discriminate He|].
    destruct H as (c & r & E). rewrite E in He. injection He as <-. right. right.
    split; [done|]. split; [done|]. intros i Hi Hb. apply not_true_iff_false. intros Hb'.
    assert (i ∈ ready (matching req all)) as Hin by (unfold ready, matching; by rewrite !list_elem_of_filter).
    rewrite Hr in Hin. inversion Hin.
Qed.

Lemma resolve_error_codes_witness :
  exists e, resolve_with demo_machine None {| constraints := [Exact {| major := 3; minor := 7; build := 0 |}];
                                              latest := false |} = Err e
    /\ code e = "ida_version_mismatch".
Proof.
  destruct (resolve_with demo_machine None
    {| constraints := [Exact {| major := 3; minor := 7; build := 0 |}]; latest := false |})
    as [e|i] eqn:He; [|vm_compute in He; discriminate He].
  exists e. split; [reflexivity|].
  destruct (resolve_error_codes _ _ _ _ He) as [[_ H]|[[H _]|[_ [_ H]]]].
  - vm_compute in H. discriminate H.
  - exact H.
  - vm_compute in He. injection He as <-. reflexivity.
Defined.

Lemma filter_split {A} (P : A -> Prop) `{!forall x, Decision (P x)} l1 x l2 :
  P x -> filter P (l1 ++ x :: l2) = filter P l1 ++ x :: filter P l2.
Proof. intros Hx. by rewrite filter_app, filter_cons_True. Qed.

(** Among installs of the same version the last one listed is selected:
    an install found by a source of higher priority (such as [IDADIR]) loses
    to an equally new, equally ready one found by a later source, where the
    documentation says that the first hit wins. *)
Theorem first_hit_loses_ties (l1 l2 : list IdaInstallation) (i j : IdaInstallation) (req : IdaRequirement) :
  NoDup (l1 ++ i :: l2) -> j ∈ l2 -> version j = version i -> backend_ready j = true ->
  IdaRequirement_matches req (version j) = true ->
  select_install (l1 ++ i :: l2) req <> Ok i.
Proof.
  intros Hnd Hj Hv Hr Hm Hsel. apply NoDup_app in Hnd as (_ & Hd & Hnd2).
  apply NoDup_cons in Hnd2 as [Hn2 _].
  assert (i ∉ l1) as Hn1 by (intros Hi; apply (Hd i Hi); left).
  assert (j ∈ ready (matching req (l1 ++ i :: l2))) as Hin.
  { unfold ready, matching. rewrite !list_elem_of_filter. split; [done|]. split; [done|].
    apply elem_of_app. right. by right. }
  destruct (select_install_cases (l1 ++ i :: l2) req)
    as [(E & _)|[(_ & E & _)|[(i' & Hmax & E)|(_ & E & _)]]].
  - by destruct l1.
  - unfold ready in Hin. rewrite E, filter_nil in Hin. inversion Hin.
  - rewrite E in Hsel. injection Hsel as ->.
    destruct (decide (backend_ready i = true)) as [Hri|Hri].
    + unfold ready, matching in Hmax. rewrite filter_split in Hmax by congruence.
      rewrite filter_split in Hmax by done. revert Hmax. apply (max_by_version_last _ _ i j).
      * by rewrite !list_elem_of_filter.
      * rewrite Hv. lia.
      * rewrite !list_elem_of_filter. tauto.
      * rewrite !list_elem_of_filter. tauto.
    + apply max_by_version_spec in Hmax as [Hi _]. unfold ready in Hi.
      apply list_elem_of_filter in Hi as [Hi _]. done.
  - rewrite E in Hin. inversion Hin.
Qed.

Lemma first_hit_loses_ties_witness :
  root <$> discover_all demo_machine None = ["/opt/ida-9.2"; "/home/u/ida-9.2"]
  /\ exists i j, discover_all demo_machine None = [i; j]
       /\ select_install [i; j] {| constraints := []; latest := true |} <> Ok i.
Proof.
  split; [vm_compute; reflexivity|].
  destruct (discover_all demo_machine None) as [|i [|j [|? ?]]] eqn:E;
    [vm_compute in E; discriminate E..| |vm_compute in E; discriminate E].
  exists i, j. split; [reflexivity|].
  apply (first_hit_loses_ties [] [j] i j); vm_compute in E; injection E as <- <-.
  - apply NoDup_cons. split; [|apply NoDup_singleton].
    rewrite list_elem_of_singleton. discriminate.
  - left.
  - reflexivity.
  - reflexivity.
  - reflexivity.
Defined.
