(* ===== verification/Sources.v ===== *)
(** * Sources: where discovery looks for IDA installations

    Models the sources of candidate directories in
    [rmcp-core/src/discovery.rs]: the environment, [ida-config.json], the
    Windows registry, the macOS and Linux application directories, the common
    paths, the [ida.reg] hints and the drive scan with its cache; and the
    version resource of a library.  A [Computer] is what those functions see
    of the machine; [machine_of] assembles the [Machine] of [Discovery] from
    it.  The decoder of the configuration file, the registry, the version
    resources and path arithmetic are its fields. *)

From stdpp Require Import base list gmap strings sets.
From Stdlib Require Import ZArith Lia Ascii.
From S2P Require Import Prelude Text Json Errors Discovery.

Local Open Scope Z_scope.
Local Open Scope rmcp_scope.

(** ** The machine *)

(** An entry of a directory: its name, its path, and whether it is a
    directory ([None] when its type cannot be read). *)
Record DirItem := { item_name : string; item_path : string; item_dir : option bool }.

(** The values of an uninstall key that can be opened. *)
Record UninstallKey := {
  display_name : option string;
  install_location : option string;
  display_version : option string;
  uninstall_string : option string;
}.

Record CacheEntry := { cache_dir_of : string; scanned_at : Z }.

Record Computer := {
  c_os : Os;
  c_join : string -> string -> string;
  c_file_name : string -> option string;
  c_parent : string -> option string;
  c_is_file : string -> bool;
  c_is_dir : string -> bool;
  c_canonicalize : string -> option string;
  c_read_dir : string -> option (list DirItem);
  c_read_text : string -> option string;
  c_env : string -> option string;
  c_split_paths : string -> list string;
  c_current_dir : option string;
  c_exe_dir : string;
  c_lower : string -> string;
  c_json : string -> option Value;
  (** [HKLM], [HKLM] (32 bit) and [HKCU], where the key can be opened *)
  c_uninstall : list (option (list UninstallKey));
  c_app_path : option string;
  (** the bytes of a version resource, and a query of it: units and length *)
  c_resource : string -> option (list Z);
  c_ver_query : list Z -> string -> option (list Z * Z);
  c_utf16 : list Z -> string;
  (** the cache file, and the time, in nanoseconds *)
  c_cache : option CacheEntry;
  c_now : Z;
}.

Section Sources.
Context (c : Computer).

Definition valid_dir (dir : string) : bool :=
  c_is_file c (c_join c dir (runtime_ida (c_os c))) && c_is_file c (c_join c dir (runtime_idalib (c_os c))).

(** [ancestors(p).take(n)]: the parents, nearest first. *)
Fixpoint parents (n : nat) (p : string) : list string :=
  match n with
  | O => []
  | S n' => match c_parent c p with Some d => d :: parents n' d | None => [] end
  end.

Definition home_dir : option string :=
  match c_env c "USERPROFILE" with Some d => Some d | None => c_env c "HOME" end.

(** 2. [IDADIR]. *)
Definition idadir_candidates : list string :=
  match c_env c "IDADIR" with Some d => d :: parents 2 d | None => [] end.

(** 3. [ida-config.json]. *)
Definition config_keys : list string := ["idaPath"; "ida_path"; "IDADIR"; "installDir"; "install_dir"].

(** The install a key reveals: the path itself, or one of three ancestors. *)
Definition revealed (v : Value) (key : string) : option string :=
  p ← (x ← get key v; as_str x); find valid_dir (p :: parents 3 p).

Definition ida_config_dirs : list string :=
  let cfg_dirs := match c_os c with
                  | Windows => match c_env c "APPDATA" with Some a => [c_join c (c_join c a "Hex-Rays") "IDA Pro"] | None => [] end
                  | _ => match home_dir with Some h => [c_join c h ".idapro"] | None => [] end
                  end in
  dir ← cfg_dirs;
  (match (raw ← c_read_text c (c_join c dir "ida-config.json"); c_json c raw) with
   | Some v => match first_some (revealed v) config_keys with Some d => [d] | None => [] end
   | None => []
   end)
  ++ match c_parent c dir with Some p => if valid_dir p then [p] else [] | None => [] end.

(** 4. Windows: the uninstall registry and the application path. *)
Definition mentions_ida (name : string) : bool := contains "ida" (c_lower c name).

Definition quote_mark : string := of_codes [34].

(** [trim_matches] of the quotation mark. *)
Definition trim_quotes (s : string) : string := trim_end_matches quote_mark (trim_start_matches quote_mark s).

Definition uninstall_candidates (k : UninstallKey) : list (string * option string) :=
  let name := default "" (display_name k) in
  if mentions_ida name then
    let hint := if bool_decide (name = "") then None else Some name in
    match install_location k with Some loc => if valid_dir loc then [(loc, hint)] else [] | None => [] end
    ++ match (u ← uninstall_string k; c_parent c (trim_quotes u)) with Some d => [(d, hint)] | None => [] end
  else [].

Definition registry_uninstall_entries : list (string * option string) :=
  keys ← c_uninstall c; k ← default [] keys; uninstall_candidates k.

(** Entries of a directory chosen by their name; none when it cannot be read. *)
Definition chosen (base : string) (keep : string -> bool) : list DirItem :=
  filter (fun e => keep (item_name e) = true) (default [] (c_read_dir c base)).

Definition ends_with (suffix s : string) : bool := match strip_suffix suffix s with Some _ => true | None => false end.

Definition macos_candidates : list (string * option string) :=
  base ← ["/Applications"; match home_dir with Some h => c_join c h "Applications" | None => "/nonexistent" end];
  e ← chosen base (fun n => mentions_ida n && ends_with ".app" n);
  [(c_join c (item_path e) "Contents/MacOS", Some (item_name e))].

Definition xdg_data_dirs : list string :=
  "/usr/share" :: (match c_env c "XDG_DATA_DIRS" with Some x => c_split_paths c x | None => [] end
                   ++ match home_dir with Some h => [c_join c h ".local/share"] | None => [] end).

(** [s.lines()]: without line ends; a last empty piece is no line. *)
Definition lines (s : string) : list string :=
  let pieces := split_on (chr 10) s in
  let kept := match last pieces with Some "" => take (pred (length pieces)) pieces | _ => pieces end in
  (fun l => default l (strip_suffix (of_codes [13]) l)) <$> kept.

(** The first word of [split_whitespace]. *)
Fixpoint word_prefix (s : string) : string :=
  match strip_any ws_strings s with
  | Some _ => ""
  | None => match s with EmptyString => "" | String x s' => String x (word_prefix s') end
  end.
Definition first_word (s : string) : option string :=
  let w := word_prefix (trim_start s) in if bool_decide (w = "") then None else Some w.

Definition parse_desktop_exec (path : string) : option string :=
  raw ← c_read_text c path;
  exec ← first_some (strip_prefix "Exec=") (lines raw);
  first_word exec.

Definition linux_candidates : list (string * option string) :=
  (dir ← xdg_data_dirs;
   e ← chosen (c_join c dir "applications") (fun n => mentions_ida n && ends_with ".desktop" n);
   match (exec ← parse_desktop_exec (item_path e); c_parent c exec) with Some d => [(d, Some (item_name e))] | None => [] end)
  ++ (dir ← match c_env c "PATH" with Some p => c_split_paths c p | None => [] end;
      if c_is_file c (c_join c dir "ida") || c_is_file c (c_join c dir "idalib") then [(dir, None)] else [])
  ++ [("/opt", None)].

Definition os_native_candidates : list (string * option string) :=
  match c_os c with
  | Windows => registry_uninstall_entries
      ++ match (val ← c_app_path c; c_parent c val) with Some d => [(d, None)] | None => [] end
  | Macos => macos_candidates
  | Linux => linux_candidates
  end.

(** 5. Common paths. *)
Definition common_paths : list string :=
  item_path <$> (base ← (match c_env c "ProgramFiles" with Some d => [d] | None => [] end
                         ++ match c_env c "ProgramFiles(x86)" with Some d => [d] | None => [] end
                         ++ match c_env c "LOCALAPPDATA" with Some d => [c_join c d "Programs"] | None => [] end
                         ++ match home_dir with Some d => [d] | None => [] end);
                 chosen base mentions_ida).

(** 6. [ida.reg]. *)
Definition reg_line (line : string) : list string :=
  match strip_prefix "Root=" (trim_quotes (trim line)) with
  | Some val => let p := trim_quotes (trim val) in if valid_dir p then [p] else []
  | None => []
  end.

Definition reg_hint_candidates : list string :=
  base ← [c_exe_dir c; default "" (c_current_dir c)];
  match c_read_text c (c_join c base "ida.reg") with Some raw => l ← lines raw; reg_line l | None => [] end
  ++ filter (fun d => c_is_file c (c_join c d "ida.reg") && valid_dir d = true) (base :: parents 1 base).

(** 7. The drive scan. *)
Definition SCAN_MAX_DEPTH : nat := 3.
Definition SCAN_CACHE_TTL : Z := 24 * 3600 * 10 ^ 9.

Definition skipped (name : string) : bool :=
  let n := c_lower c name in
  starts_with "$" n || bool_decide (n = "windows") || bool_decide (n = "system volume information").

(** [scan_dir(dir, depth)] with [below] levels left: [SCAN_MAX_DEPTH + 1 - depth]. *)
Fixpoint scan_dir (below : nat) (dir : string) : option string :=
  if valid_dir dir then Some dir
  else match below with
       | O => None
       | S below' =>
           first_some (fun e => if bool_decide (item_dir e = Some true) && negb (skipped (item_name e))
                                then scan_dir below' (item_path e) else None)
             (default [] (c_read_dir c dir))
       end.

Definition drive_letters : list string := (fun k => of_codes [Z.of_nat k; 58; 92]) <$> seq 65 26.

Definition drive_roots : list string :=
  match c_os c with
  | Windows => filter (fun r => c_is_dir c r = true) drive_letters
  | _ => ["/"]
  end.

Definition scan_drives : option string := first_some (scan_dir (S SCAN_MAX_DEPTH)) drive_roots.

(** A cached hit that is fresh and still an install; [elapsed] fails for a time to come. *)
Definition cache_hit : option string :=
  e ← c_cache c;
  if (scanned_at e <=? c_now c) && (c_now c - scanned_at e <? SCAN_CACHE_TTL) && valid_dir (cache_dir_of e)
  then Some (cache_dir_of e) else None.

(** The result, and what the cache file then holds. *)
Definition cached_drive_scan : option string * option CacheEntry :=
  match cache_hit with
  | Some d => (Some d, c_cache c)
  | None =>
      match scan_drives with
      | Some d => (Some d, Some {| cache_dir_of := d; scanned_at := c_now c |})
      | None => (None, c_cache c)
      end
  end.

(** ** Versions *)

(** [parse_version_string]: "9.2.250908", "9,2,250908,0". *)
Definition parse_version_string (s : string) : option Version :=
  let pieces := x ← split_on "." s; y ← split_on "," x; split_on " " y in
  match omap (fun p => parse_u32 (trim p)) pieces with
  | n0 :: n1 :: ns => Some {| major := n0; minor := n1; build := default 0 (head ns) |}
  | _ => None
  end.

(** The little-endian word at an index, [None] beyond the buffer. *)
Definition word (data : list Z) (i : nat) : option Z :=
  b0 ← data !! (4 * i)%nat; b1 ← data !! (4 * i + 1)%nat; b2 ← data !! (4 * i + 2)%nat; b3 ← data !! (4 * i + 3)%nat;
  Some (b0 + 2 ^ 8 * b1 + 2 ^ 16 * b2 + 2 ^ 24 * b3).

Definition SIGNATURE : Z := 0xFEEF04BD.

(** [fixed_file_info_version]; [Panic] stands for the read past the buffer,
    which the code does not check. *)
Fixpoint fixed_info_from (data : list Z) (i n : nat) : outcome (option Version) :=
  match n with
  | O => Done None
  | S n' =>
      if bool_decide (word data i = Some SIGNATURE) then
        match word data (i + 2), word data (i + 3) with
        | Some ms, Some ls =>
            let v := {| major := Z.shiftr ms 16; minor := Z.land ms 0xFFFF; build := Z.land ls 0xFFFF |} in
            Done (if (0 <? major v) && (0 <? minor v) then Some v else None)
        | _, _ => Panic
        end
      else fixed_info_from data (S i) n'
  end.

Definition fixed_file_info_version (data : list Z) : outcome (option Version) := fixed_info_from data 0 (length data / 4).

(** [format!("{:04x}")]. *)
Definition hex4 (z : Z) : string := let h := show_hex z in repeat_str "0" (4 - String.length h) +:+ h.

Fixpoint unit_pairs (l : list Z) : list string :=
  match l with
  | lang :: cp :: rest => (hex4 lang +:+ hex4 cp) :: unit_pairs rest
  | _ => []
  end.

Definition query_translation_codepages (data : list Z) : option (list string) :=
  '(units, len) ← c_ver_query c data "\VarFileInfo\Translation";
  if len <? 4 then None
  else let out := unit_pairs (take (Z.to_nat (len / 2)) units) in
       if bool_decide (out = []) then None else Some out.

Definition nul : string := of_codes [0].

Definition query_string_value (data : list Z) (subblock : string) : option string :=
  '(units, len) ← c_ver_query c data subblock;
  if 0 <? len then
    let t := trim_end_matches nul (c_utf16 c (take (Z.to_nat len) units)) in
    if bool_decide (t = "") then None else Some t
  else None.

Definition version_block (data : list Z) (cp : string) : option Version :=
  s ← query_string_value data ("\StringFileInfo\" +:+ cp +:+ "\FileVersion"); parse_version_string s.

Definition pe_file_version (path : string) : outcome (option Version) :=
  match c_resource c path with
  | None => Done None
  | Some data =>
      fixed <~ fixed_file_info_version data;
      Done (match fixed with
            | Some v => Some v
            | None => first_some (version_block data) (default [] (query_translation_codepages data) ++ ["040904b0"; "040904e4"])
            end)
  end.

(** [norm]: lower case, backslashes, none at the end. *)
Definition slash_to_back (x : ascii) : ascii := if Ascii.eqb x "/" then chr 92 else x.
Fixpoint map_string (f : ascii -> ascii) (s : string) : string :=
  match s with EmptyString => EmptyString | String x s' => String (f x) (map_string f s') end.
Definition norm (p : string) : string := trim_end_matches (of_codes [92]) (map_string slash_to_back (c_lower c p)).

Definition key_version (want : string) (k : UninstallKey) : option Version :=
  loc ← install_location k;
  if bool_decide (norm loc = want) then
    match (d ← display_version k; version_from_name d) with
    | Some v => Some v
    | None => n ← display_name k; version_from_name n
    end
  else None.

Definition registry_version_for_dir (root : string) : option Version :=
  first_some (fun keys => first_some (key_version (norm root)) (default [] keys)) (c_uninstall c).

(** ** The machine discovery works on *)

Definition machine_of : Machine := {|
  os := c_os c; path_join := c_join c; file_name := c_file_name c; is_file := c_is_file c; canonicalize := c_canonicalize c;
  Discovery.pe_file_version := fun p => match pe_file_version p with Done v => v | _ => None end;
  Discovery.registry_version_for_dir := registry_version_for_dir;
  idadir := idadir_candidates; Discovery.ida_config_dirs := ida_config_dirs;
  Discovery.os_native_candidates := os_native_candidates; Discovery.common_paths := common_paths;
  Discovery.reg_hint_candidates := reg_hint_candidates; Discovery.cached_drive_scan := cached_drive_scan.1;
|}.
End Sources.

(** [discover]: the legacy interface to one install. *)
Definition discover (m : Machine) (explicit : option string) : Result (string * string) :=
  req <-? IdaRequirement_parse "latest";
  i <-? resolve_with m explicit req;
  Ok (root i, source_as_str (source i)).

(** ** What the scan finds *)

(** [d] is at most [below] levels under [dir], through directories the scan
    looks into. *)
Inductive lies_below (c : Computer) : nat -> string -> string -> Prop :=
  | lies_here below dir : lies_below c below dir dir
  | lies_in below dir items e d :
      c_read_dir c dir = Some items -> e ∈ items -> item_dir e = Some true -> skipped c (item_name e) = false ->
      lies_below c below (item_path e) d -> lies_below c (S below) dir d.

Lemma first_some_Some {A B} (f : A -> option B) l y : first_some f l = Some y -> exists x, x ∈ l /\ f x = Some y.
Proof.
  induction l as [|x l IH]; cbn; [done|]. destruct (f x) as [z|] eqn:E; [intros [= <-]; exists x; split; [left|done]|].
  intros (x' & Hx & Ey)%IH. exists x'. split; [by right|done].
Qed.

Lemma first_some_None {A B} (f : A -> option B) l : first_some f l = None <-> forall x, x ∈ l -> f x = None.
Proof.
  induction l as [|x l IH]; cbn; [split; [by intros _ x Hx%elem_of_nil|done]|]. destruct (f x) eqn:E.
  - split; [done|]. intros H. by rewrite (H x ltac:(left)) in E.
  - rewrite IH. split; [intros H y [->|Hy]%elem_of_cons; auto|]. intros H y Hy. apply H. by right.
Qed.

Lemma scan_dir_sound c below dir d : scan_dir c below dir = Some d -> valid_dir c d = true /\ lies_below c below dir d.
Proof.
  revert dir d. induction below as [|below IH]; intros dir d; cbn [scan_dir].
  - destruct (valid_dir c dir) eqn:E; [|done]. intros [= <-]. split; [done|constructor].
  - destruct (valid_dir c dir) eqn:E; [intros [= <-]; split; [done|constructor]|].
    intros (e & He & Hs)%first_some_Some. destruct (bool_decide _ && _) eqn:Ec; [|done].
    apply andb_true_iff in Ec as [Hd%bool_decide_eq_true Hn%negb_true_iff]. apply IH in Hs as [Hv Hl]. split; [done|].
    destruct (c_read_dir c dir) as [items|] eqn:Hr; [|by apply elem_of_nil in He]. by eapply lies_in.
Qed.

Lemma scan_dir_complete c below dir d : lies_below c below dir d -> scan_dir c below dir = None -> valid_dir c d = false.
Proof.
  induction 1 as [below dir|below dir items e d Hr He Hd Hn _ IH].
  - destruct (valid_dir c dir) eqn:E; [|done]. destruct below; cbn [scan_dir]; by rewrite E.
  - cbn [scan_dir]. destruct (valid_dir c dir); [done|]. rewrite Hr. rewrite first_some_None. intros H. apply IH.
    specialize (H e He). by rewrite bool_decide_true, Hn in H.
Qed.

(** The cached answer is an install too. *)
Lemma cached_scan_valid c d : (cached_drive_scan c).1 = Some d -> valid_dir c d = true.
Proof.
  unfold cached_drive_scan. destruct (cache_hit c) as [x|] eqn:Hc.
  - intros [= ->]. unfold cache_hit in Hc. destruct (c_cache c) as [e|]; [|done]. cbn in Hc.
    destruct (_ && valid_dir c _) eqn:E; [|done]. injection Hc as <-. by apply andb_true_iff in E as [_ E].
  - destruct (scan_drives c) as [x|] eqn:Hs; [|done]. intros [= ->]. unfold scan_drives in Hs.
    apply first_some_Some in Hs as (r & _ & Hs). by destruct (scan_dir_sound _ _ _ _ Hs).
Qed.

Lemma cached_scan_None c : (cached_drive_scan c).1 = None -> scan_drives c = None.
Proof. unfold cached_drive_scan. destruct (cache_hit c); [done|]. by destruct (scan_drives c). Qed.

(** The same machine later, with another cache file. *)
Definition at_time (c : Computer) (cache : option CacheEntry) (now : Z) : Computer := {|
  c_os := c_os c; c_join := c_join c; c_file_name := c_file_name c; c_parent := c_parent c; c_is_file := c_is_file c;
  c_is_dir := c_is_dir c; c_canonicalize := c_canonicalize c; c_read_dir := c_read_dir c; c_read_text := c_read_text c; c_env := c_env c;
  c_split_paths := c_split_paths c; c_current_dir := c_current_dir c; c_exe_dir := c_exe_dir c; c_lower := c_lower c; c_json := c_json c;
  c_uninstall := c_uninstall c; c_app_path := c_app_path c; c_resource := c_resource c; c_ver_query := c_ver_query c; c_utf16 := c_utf16 c;
  c_cache := cache; c_now := now |}.

(** Within a day of a successful scan the answer comes from the cache, and is
    the same; the drives are not scanned again. *)
Lemma scan_cached c d t :
  cache_hit c = None -> scan_drives c = Some d -> c_now c <= t < c_now c + SCAN_CACHE_TTL ->
  cache_hit (at_time c (cached_drive_scan c).2 t) = Some d.
Proof.
  intros Hc Hs Ht. unfold cached_drive_scan. rewrite Hc, Hs. cbn [snd]. unfold cache_hit. cbn [c_cache at_time mbind option_bind scanned_at c_now cache_dir_of].
  assert (valid_dir c d = true) as Hv.
  { apply cached_scan_valid. unfold cached_drive_scan. by rewrite Hc, Hs. }
  change (valid_dir (at_time c _ t) d) with (valid_dir c d). rewrite Hv.
  destruct (Z.leb_spec (c_now c) t); [|lia]. destruct (Z.ltb_spec (t - c_now c) SCAN_CACHE_TTL); [done|lia].
Qed.

(** ** Discovery misses nothing *)

Section Complete.
Context (m : Machine).

Definition covers (st : list IdaInstallation * list string) (d : string) : Prop :=
  exists i, i ∈ st.1 /\ canonical_root m (root i) = canonical_root m d.

Lemma push_covers src st cd d : covers st d -> covers (push m src st cd) d.
Proof using Type.
  destruct st as [out seen]. intros (i & Hi & E). unfold push. case_bool_decide; [by exists i|].
  destruct (validate m cd.1 src cd.2); [by exists i|]. exists i. split; [|done]. apply elem_of_app. by left.
Qed.

Lemma push_covers_new src st d hint :
  collected m st -> is_valid_ida_dir m d = true -> covers (push m src st (d, hint)) d.
Proof using Type.
  destruct st as [out seen]. intros (_ & Hseen & _) Hd. cbn [fst snd] in *. unfold push. cbn [fst snd]. case_bool_decide as Hin.
  - rewrite Hseen in Hin. apply list_elem_of_fmap in Hin as (i & E & Hi). by exists i.
  - destruct (validate_total m d src hint Hd) as (i & -> & Hr). exists i. split; [apply elem_of_app; right; left|by rewrite Hr].
Qed.

Lemma pushes_cover (cs : list (DiscoverySource * list (string * option string))) st d :
  collected m st -> is_valid_ida_dir m d = true ->
  covers st d \/ (exists src ds hint, (src, ds) ∈ cs /\ (d, hint) ∈ ds) ->
  covers (foldl (fun st sc => foldl (push m sc.1) st sc.2) st cs) d.
Proof using Type.
  intros Hst Hd. revert st Hst. induction cs as [|[src ds] cs IH]; intros st Hst Hor.
  { destruct Hor as [H|(? & ? & ? & H & _)]; [done|by apply elem_of_nil in H]. }
  cbn [foldl fst snd]. assert (collected m (foldl (push m src) st ds)) as Hst1.
  { exact (pushes_collected m [(src, ds)] st Hst). }
  apply IH; [done|]. destruct Hor as [Hc|(src' & ds' & hint & [E|H]%elem_of_cons & Hin)].
  - left. clear -Hc. revert st Hc. induction ds as [|x ds IH]; intros st Hc; [done|]. apply IH, push_covers, Hc.
  - injection E as -> ->. left. clear -Hst Hd Hin. revert st Hst. induction ds as [|x ds IH]; intros st Hst; [by apply elem_of_nil in Hin|].
    cbn [foldl]. apply elem_of_cons in Hin as [<-|Hin]; [|by apply IH, push_collected].
    assert (forall ds st, covers st d -> covers (foldl (push m src) st ds) d) as Hfold.
    { clear. induction ds as [|y ds IH]; intros st Hc; [done|]. apply IH, push_covers, Hc. }
    by apply Hfold, push_covers_new.
  - right. by exists src', ds', hint.
Qed.
End Complete.

(** C36. Discovery misses nothing it looks at: on every computer, without an
    explicit directory, each valid install directory that any source names
    (the environment, the configuration file, the registry, the desktop
    files, the common paths, the hints or the scan) is among the results,
    under its own or another name of the same directory; and when discovery
    finds nothing, no directory the scan looks at is an install: those within
    four levels of a drive root that are reached through entries the file
    system types as directories and whose names the scan does not skip
    ([$...], windows, system volume information). *)
Theorem discovery_exhaustive (c : Computer) :
  let m := machine_of c in
  (forall src ds d hint, (src, ds) ∈ candidates m -> (d, hint) ∈ ds -> valid_dir c d = true ->
     exists i, i ∈ discover_all m None /\ canonical_root m (root i) = canonical_root m d)
  /\ (discover_all m None = [] -> forall r d, r ∈ drive_roots c -> lies_below c (S SCAN_MAX_DEPTH) r d -> valid_dir c d = false).
Proof.
  cbv zeta. set (m := machine_of c). assert (forall src ds d hint, (src, ds) ∈ candidates m -> (d, hint) ∈ ds -> valid_dir c d = true ->
     exists i, i ∈ discover_all m None /\ canonical_root m (root i) = canonical_root m d) as Hall.
  { intros src ds d hint Hs Hd Hv. unfold discover_all. cbn [fst].
    destruct (pushes_cover m (candidates m) ([], []) d) as (i & Hi & E); [apply (start_collected m None)|exact Hv|right; by exists src, ds, hint|].
    exists i. split; [|done]. by rewrite sort_by_key_perm. }
  split; [exact Hall|]. intros Hnil r d Hr Hl.
  destruct (cached_drive_scan c).1 as [x|] eqn:Hx.
  - exfalso. pose proof (cached_scan_valid c x Hx) as Hv.
    destruct (Hall DriveScan (no_hint [x]) x None) as (i & Hi & _); [|left|done|rewrite Hnil in Hi; by apply elem_of_nil in Hi].
    unfold candidates. cbn [Discovery.cached_drive_scan m machine_of]. rewrite Hx. do 5 right. left.
  - apply cached_scan_None in Hx. unfold scan_drives in Hx. rewrite first_some_None in Hx. by eapply scan_dir_complete, Hx.
Qed.

(** ** The version resource *)

Lemma word_Some data i : (4 * i + 4 <= length data)%nat -> exists w, word data i = Some w.
Proof.
  intros Hl. unfold word.
  destruct (lookup_lt_is_Some_2 data (4 * i)) as [b0 ->]; [lia|]. destruct (lookup_lt_is_Some_2 data (4 * i + 1)) as [b1 ->]; [lia|].
  destruct (lookup_lt_is_Some_2 data (4 * i + 2)) as [b2 ->]; [lia|]. destruct (lookup_lt_is_Some_2 data (4 * i + 3)) as [b3 ->]; [lia|].
  by eexists.
Qed.

(** A resource whose signature starts a whole structure is read within its bytes ... *)
Lemma fixed_info_in_bounds (data : list Z) :
  (forall i, word data i = Some SIGNATURE -> (4 * (i + 4) <= length data)%nat) -> exists v, fixed_file_info_version data = Done v.
Proof.
  intros H. unfold fixed_file_info_version. generalize (length data / 4)%nat as n. intros n. generalize 0%nat as i.
  induction n as [|n IH]; intros i; cbn [fixed_info_from]; [by exists None|].
  case_bool_decide as E; [|apply IH]. specialize (H i E). destruct (word_Some data (i + 2)) as [ms ->]; [lia|].
  destruct (word_Some data (i + 3)) as [ls ->]; [lia|]. by eexists.
Qed.

(** ... and one that ends at the signature is read past its end. *)
Example fixed_info_overread : fixed_file_info_version [0xBD; 0x04; 0xEF; 0xFE] = Panic.
Proof. vm_compute. reflexivity. Qed.

(** A version with minor number zero is not recognized in the fixed block. *)
Example fixed_info_rejects_x_0 :
  fixed_file_info_version [0xBD; 0x04; 0xEF; 0xFE; 0; 0; 0; 0; 0; 0; 9; 0; 1; 0; 0; 0] = Done None
  /\ fixed_file_info_version [0xBD; 0x04; 0xEF; 0xFE; 0; 0; 0; 0; 2; 0; 9; 0; 1; 0; 0; 0] = Done (Some {| major := 9; minor := 2; build := 1 |}).
Proof. split; vm_compute; reflexivity. Qed.

(** Separators of a version string. *)
Example version_strings :
  parse_version_string "9.2.250908" = Some {| major := 9; minor := 2; build := 250908 |}
  /\ parse_version_string "9,2,250908,0" = Some {| major := 9; minor := 2; build := 250908 |} /\ parse_version_string "nine" = None.
Proof. repeat split; vm_compute; reflexivity. Qed.
