(* ===== verification/Pool.v ===== *)
(** * Pool: opening, closing and recovering worker sessions

    Models the [WorkerPool] of [rmcp-broker/src/worker_pool.rs].  Sessions are
    shared ([Arc<Mutex<..>>]): the pool lists a handle and a reference, the
    [store] maps references to sessions.  The operating system, the installed
    IDAs and the answers of a freshly started worker are a [World]; a retry
    may find another one, so [recover] runs against a sequence of worlds.
    The environment handed to the child is in [ChildEnv]. *)

From stdpp Require Import base list gmap strings.
From Stdlib Require Import ZArith Lia.
From S2P Require Import Prelude Text Json Errors Handles Protocol Discovery Pump.

Local Open Scope rmcp_scope.

Record Session := {
  s_hello : WorkerHello;
  s_db_path : option string;
  s_meta : option SessionMeta;
  s_health : WorkerHealth;
  s_restart_failures : Z;
}.

Record WorkerPool := {
  sessions : list (string * nat);
  store : gmap nat Session;
  next_ref : nat;
  worker_exe : option string;
  worker_exe_error : option string;
  ida_dir : option string;
  idalib_feature : option bool;
  next_handle : Z;
}.

Inductive StartOutcome :=
  | SpawnFailed (e : string)
  | NoStdin
  | NoStdout
  | Hello (h : WorkerHello)
  | HelloEof
  | HelloError (e : string)
  | HelloTimeout.

Record World := {
  machine : Machine;
  probing : bool;
  exe_override : option string;
  exe_candidates : list string;
  probe_mock : string -> bool;
  probe_idalib : string -> bool;
  path_exists : string -> bool;
  start_worker : string -> option string -> StartOutcome;
  worker_call : string -> Value -> Z -> Result Value;
}.

Definition WorkerPool_new (id : Z) : WorkerPool := {|
  sessions := []; store := ∅; next_ref := 0; worker_exe := None; worker_exe_error := None;
  ida_dir := None; idalib_feature := None; next_handle := id;
|}.

Definition set_exe (e : option string) (err : option string) (p : WorkerPool) : WorkerPool := {|
  sessions := sessions p; store := store p; next_ref := next_ref p; worker_exe := e;
  worker_exe_error := err; ida_dir := ida_dir p; idalib_feature := idalib_feature p;
  next_handle := next_handle p |}.

Definition set_feature (f : bool) (p : WorkerPool) : WorkerPool := {|
  sessions := sessions p; store := store p; next_ref := next_ref p; worker_exe := worker_exe p;
  worker_exe_error := worker_exe_error p; ida_dir := ida_dir p; idalib_feature := Some f;
  next_handle := next_handle p |}.

Definition set_ida_dir (dir : string) (p : WorkerPool) : WorkerPool := {|
  sessions := sessions p; store := store p; next_ref := next_ref p; worker_exe := worker_exe p;
  worker_exe_error := worker_exe_error p; ida_dir := Some dir; idalib_feature := idalib_feature p;
  next_handle := next_handle p |}.

Definition set_sessions (ss : list (string * nat)) (st : gmap nat Session) (p : WorkerPool) : WorkerPool := {|
  sessions := ss; store := st; next_ref := next_ref p; worker_exe := worker_exe p;
  worker_exe_error := worker_exe_error p; ida_dir := ida_dir p; idalib_feature := idalib_feature p;
  next_handle := next_handle p |}.

(** [find]/[position] by handle. *)
Definition position (db : string) (ss : list (string * nat)) : option nat :=
  fst <$> list_find (fun hs => hs.1 = db) ss.
Definition session (db : string) (p : WorkerPool) : option nat :=
  snd ∘ snd <$> list_find (fun hs => hs.1 = db) (sessions p).

Definition list_sessions (p : WorkerPool) : list (string * string) :=
  (fun hs => (hs.1, default "" (s ← store p !! hs.2; s_db_path s))) <$> sessions p.

Definition health_of (db : string) (p : WorkerPool) : Result WorkerHealth :=
  match r ← session db p; store p !! r with
  | Some s => Ok (s_health s)
  | None => Err (UnknownDb db)
  end.

(** ** Finding the worker binary *)

Definition no_worker_msg : string :=
  "no worker-capable exe found (expected reverse-mcp with `worker` subcommand)".

Definition ensure_worker_exe (w : World) (p : WorkerPool) : Result string * WorkerPool :=
  if probing w then (Err (Worker "re-entrant worker probe"), p)
  else match worker_exe p with
  | Some e => (Ok e, p)
  | None =>
      let by_probe :=
        match List.find (probe_mock w) (exe_candidates w) with
        | Some c => (Ok c, set_exe (Some c) (worker_exe_error p) p)
        | None => (Err (Worker no_worker_msg), set_exe (worker_exe p) (Some no_worker_msg) p)
        end in
      match exe_override w with
      | Some e => if is_file (machine w) e then (Ok e, set_exe (Some e) (worker_exe_error p) p)
                  else by_probe
      | None => by_probe
      end
  end.

Definition worker_has_idalib_feature (w : World) (p : WorkerPool) : bool * WorkerPool :=
  match idalib_feature p with
  | Some f => (f, p)
  | None =>
      let detected := match worker_exe p with Some e => probe_idalib w e | None => false end in
      (detected, set_feature detected p)
  end.

(** [diagnose_dead_worker]. *)
Definition diagnose_dead_worker (w : World) (dir : option string) : Error :=
  let m := machine w in
  let libs_word := match os m with Windows => "DLLs" | _ => "libraries" end in
  let hint :=
    match dir with
    | Some d =>
        let missing := filter (fun l => path_exists w (path_join m d l) = false) (runtime_libraries (os m)) in
        match missing with
        | [] => "IDA runtime " +:+ libs_word +:+ " found in " +:+ d
                  +:+ " but the worker still died at startup; verify the install is complete and matches this build"
        | _ => "IDA runtime " +:+ libs_word +:+ " missing from " +:+ d +:+ ": " +:+ join ", " missing
                 +:+ "; set IDADIR or add the IDA install dir to PATH"
        end
    | None => "IDA runtime libraries not found on PATH; set IDADIR or add the IDA install dir to PATH"
    end in
  CapabilityUnavailable "idalib" (hint +:+ " (worker exited before protocol handshake)").

(** ** Choosing the IDA directory and the backend *)

Definition not_ready_error (i : IdaInstallation) : Error :=
  CapabilityUnavailable "idalib"
    ("IDA " +:+ Version_to_string (version i) +:+ " is installed but no verified backend ships for it (verified: "
       +:+ join ", " verified_keys +:+ "); pick another version or upgrade reverse-mcp").

Definition choose_backend (w : World) (p : WorkerPool) (kind ida_version : string)
  : Result (option string * string) * WorkerPool :=
  let '(skip, p1) :=
    if bool_decide (kind = "mock") then (true, p)
    else if bool_decide (kind = "auto") then
      let '(f, p1) := worker_has_idalib_feature w p in (negb f, p1)
    else (false, p) in
  if (skip : bool) then (Ok (None, "mock"), p1)
  else match IdaRequirement_parse ida_version with
  | inl e => (Err e, p1)
  | inr requirement =>
      match resolve_with (machine w) (ida_dir p1) requirement with
      | inl e => (Err e, p1)
      | inr install =>
          if bool_decide (kind = "idalib") && negb (backend_ready install) then
            (Err (not_ready_error install), p1)
          else if bool_decide (kind = "auto") then
            if backend_ready install then
              let '(f, p2) := worker_has_idalib_feature w p1 in
              (Ok (Some (root install), if (f : bool) then "idalib" else "mock"), p2)
            else (Ok (Some (root install), "mock"), p1)
          else (Ok (Some (root install), kind), p1)
      end
  end.

(** ** Opening a database *)

(** Start the worker and read its hello frame. *)
Definition handshake (w : World) (exe : string) (dir : option string) : Result WorkerHello :=
  match start_worker w exe dir with
  | SpawnFailed e => Err (Worker ("spawn worker: " +:+ e))
  | NoStdin => Err (Worker "no worker stdin")
  | NoStdout => Err (Worker "no worker stdout")
  | HelloEof => Err (diagnose_dead_worker w dir)
  | HelloError e => Err (Worker ("worker hello frame: " +:+ e))
  | HelloTimeout =>
      Err (Worker "worker did not send its hello frame within 120s (startup hung); killed")
  | Hello h =>
      if (protocol h =? PROTOCOL_VERSION)%Z then Ok h
      else Err (Worker ("worker protocol " +:+ show_dec (protocol h) +:+ " != broker protocol "
                          +:+ show_dec PROTOCOL_VERSION))
  end.

Definition open_calls (w : World) (kind db_path : string) (db_open_params : Value) : Result unit :=
  let open_budget := call_timeout db_open_params 900000 in
  _ <-? worker_call w "backend.select" (JObj [("kind", JStr kind)]) open_budget;
  _ <-? worker_call w "db.open" (JObj [("path", JStr db_path)]) open_budget;
  Ok tt.

Definition push_session (s : Session) (p : WorkerPool) : string * WorkerPool :=
  let '(h, next) := Handle_new "db" (next_handle p) in
  let name := Handle_to_string h in
  (name, {| sessions := sessions p ++ [(name, next_ref p)];
            store := <[next_ref p := s]> (store p); next_ref := S (next_ref p);
            worker_exe := worker_exe p; worker_exe_error := worker_exe_error p;
            ida_dir := ida_dir p; idalib_feature := idalib_feature p; next_handle := next |}).

Definition spawn_for_with_budget (w : World) (p : WorkerPool) (db_path : string) (max_workers : Z)
    (kind ida_version : string) (db_open_params : Value) : Result string * WorkerPool :=
  if (max_workers <=? Z.of_nat (length (sessions p)))%Z then
    (Err (Worker ("max_workers=" +:+ show_dec max_workers +:+ " reached; close a database first")), p)
  else
    let '(exe, p1) := ensure_worker_exe w p in
    match exe with
    | inl e => (Err e, p1)
    | inr exe =>
        let '(choice, p2) := choose_backend w p1 kind ida_version in
        match choice with
        | inl e => (Err e, p2)
        | inr (dir, kind') =>
            match handshake w exe dir with
            | inl e => (Err e, p2)
            | inr h =>
                match open_calls w kind' db_path db_open_params with
                | inl e => (Err e, p2)
                | inr _ =>
                    let '(name, p3) := push_session {|
                      s_hello := h; s_db_path := Some db_path;
                      s_meta := Some (SessionMeta_new db_path kind' ida_version);
                      s_health := Healthy; s_restart_failures := 0 |} p2 in
                    (Ok name, p3)
                end
            end
        end
    end.

Definition spawn_for (w : World) (p : WorkerPool) (db_path : string) (max_workers : Z)
    (kind ida_version : string) : Result string * WorkerPool :=
  spawn_for_with_budget w p db_path max_workers kind ida_version (JObj []).

(** ** Closing: the slot goes, whatever the worker answers *)

Definition close (db : string) (p : WorkerPool) : Result unit * WorkerPool :=
  match position db (sessions p) with
  | None => (Err (UnknownDb db), p)
  | Some idx => (Ok tt, set_sessions (delete idx (sessions p)) (store p) p)
  end.

(** ** Recovery *)

Definition set_health (h : WorkerHealth) (failures : Z) (s : Session) : Session := {|
  s_hello := s_hello s; s_db_path := s_db_path s; s_meta := s_meta s; s_health := h;
  s_restart_failures := failures |}.

(** The swap after a successful respawn; the two [expect]s may panic. *)
Definition swap_in (db new_handle : string) (p : WorkerPool) : outcome WorkerPool :=
  idx <~ at_ (position new_handle (sessions p));
  fresh <~ at_ (sessions p !! idx);
  let rest := delete idx (sessions p) in
  slot <~ at_ (position db rest);
  Done (set_sessions (<[slot := (db, fresh.2)]> rest) (store p) p).

(** The [loop]: [worlds k] is what attempt [k] finds. *)
Fixpoint recover_loop (worlds : nat -> World) (policy : RestartPolicy) (db : string) (ref : nat)
    (meta : SessionMeta) (fuel k : nat) (p : WorkerPool) : outcome (Result unit * WorkerPool) :=
  match fuel with
  | O => OutOfFuel
  | S fuel' =>
      match spawn_for (worlds k) p (meta_db_path meta) usize_max (meta_backend_kind meta)
              (meta_ida_version meta) with
      | (inr new_handle, p1) => p2 <~ swap_in db new_handle p1; Done (Ok tt, p2)
      | (inl _, p1) =>
          s <~ at_ (store p1 !! ref);
          let failures := ((s_restart_failures s + 1) mod u32_modulus)%Z in
          if (max_restarts policy <? failures)%Z then
            Done (Err (Worker ("worker recovery failed after " +:+ show_dec failures +:+ " attempts")),
                  set_sessions (sessions p1) (<[ref := set_health Dead failures s]> (store p1)) p1)
          else
            recover_loop worlds policy db ref meta fuel' (S k)
              (set_sessions (sessions p1) (<[ref := set_health (s_health s) failures s]> (store p1)) p1)
      end
  end.

Definition recover (worlds : nat -> World) (policy : RestartPolicy) (fuel : nat) (db : string)
    (p : WorkerPool) : outcome (Result unit * WorkerPool) :=
  match session db p with
  | None => Done (Err (UnknownDb db), p)
  | Some ref =>
      s <~ at_ (store p !! ref);
      match s_health s with
      | Healthy => Done (Ok tt, p)
      | Dead => Done (Err (Worker "worker recovery budget exhausted; close and reopen the db"), p)
      | _ =>
          let p1 := set_sessions (sessions p)
            (<[ref := set_health Recovering (s_restart_failures s) s]> (store p)) p in
          match s_meta s with
          | None => Done (Err (Worker "no session metadata; cannot recover"), p1)
          | Some meta => recover_loop worlds policy db ref meta fuel 0 p1
          end
      end
  end.

(** ** Lemmas *)

(** The parts of the pool that looking for a binary or a backend keeps. *)
Definition kept (p p' : WorkerPool) : Prop :=
  sessions p' = sessions p /\ store p' = store p /\ next_ref p' = next_ref p
  /\ next_handle p' = next_handle p /\ ida_dir p' = ida_dir p.

Lemma kept_trans p1 p2 p3 : kept p1 p2 -> kept p2 p3 -> kept p1 p3.
Proof. intros (? & ? & ? & ? & ?) (? & ? & ? & ? & ?). repeat split; congruence. Qed.

Lemma ensure_worker_exe_kept w p : kept p (ensure_worker_exe w p).2.
Proof. unfold ensure_worker_exe. repeat case_match; done. Qed.

Lemma idalib_feature_kept w p : kept p (worker_has_idalib_feature w p).2.
Proof. unfold worker_has_idalib_feature. repeat case_match; done. Qed.

Lemma choose_backend_kept w p kind ver : kept p (choose_backend w p kind ver).2.
Proof.
  unfold choose_backend.
  set (sk := if bool_decide (kind = "mock") then _ else _).
  assert (kept p sk.2) as Hsk.
  { unfold sk. repeat case_bool_decide; try done.
    pose proof (idalib_feature_kept w p). by destruct (worker_has_idalib_feature w p). }
  destruct sk as [skip p1]. simpl in Hsk. destruct skip; [done|].
  destruct (IdaRequirement_parse ver); [done|]. destruct (resolve_with _ _ _); [done|].
  destruct (bool_decide (kind = "idalib") && _); [done|]. case_bool_decide; [|done].
  destruct (backend_ready _); [|done].
  pose proof (idalib_feature_kept w p1) as H1. destruct (worker_has_idalib_feature w p1) as [f p2].
  by eapply kept_trans.
Qed.

Definition db_handle (k : Z) : string := "db" +:+ show_dec k.

Lemma db_handle_inj j k : is_u64 j -> is_u64 k -> db_handle j = db_handle k -> j = k.
Proof.
  intros Hj Hk E. apply (f_equal (strip_prefix "db")) in E. unfold db_handle in E.
  rewrite !strip_prefix_app in E. injection E as E. by apply show_dec_inj.
Qed.

(** The session a successful spawn creates. *)
Definition new_session (s : Session) (db_path ver kind' : string) : Prop :=
  s_db_path s = Some db_path /\ s_meta s = Some (SessionMeta_new db_path kind' ver)
  /\ s_health s = Healthy /\ s_restart_failures s = 0%Z /\ protocol (s_hello s) = PROTOCOL_VERSION.

Lemma spawn_spec w p db_path max_workers kind ver params :
  match spawn_for_with_budget w p db_path max_workers kind ver params with
  | (inl _, p') => kept p p'
  | (inr name, p') =>
      (Z.of_nat (length (sessions p)) < max_workers)%Z
      /\ name = db_handle (next_handle p)
      /\ sessions p' = sessions p ++ [(name, next_ref p)]
      /\ next_ref p' = S (next_ref p)
      /\ next_handle p' = wrapping_add64 (next_handle p) 1
      /\ exists s dir kind', store p' = <[next_ref p := s]> (store p) /\ new_session s db_path ver kind'
           /\ (choose_backend w (ensure_worker_exe w p).2 kind ver).1 = Ok (dir, kind')
  end.
Proof.
  unfold spawn_for_with_budget. destruct (Z.leb_spec max_workers (Z.of_nat (length (sessions p)))); [done|].
  pose proof (ensure_worker_exe_kept w p) as H1. destruct (ensure_worker_exe w p) as [[e|exe] p1]; [done|].
  pose proof (choose_backend_kept w p1 kind ver) as H2. simpl in *.
  destruct (choose_backend w p1 kind ver) as [[e|[dir kind']] p2] eqn:Hc; simpl in *.
  { by eapply kept_trans. }
  pose proof (kept_trans _ _ _ H1 H2) as (E1 & E2 & E3 & E4 & E5).
  destruct (handshake w exe dir) as [e|h] eqn:Hh; [by rewrite <- E1|].
  destruct (open_calls w kind' db_path params) as [e|u]; [by rewrite <- E1|].
  simpl. rewrite E1, E2, E3, E4. split; [done|]. split; [done|]. split; [done|]. split; [done|].
  split; [done|]. eexists _, dir, kind'. split; [done|]. split; [|done].
  unfold new_session. simpl. repeat split.
  unfold handshake in Hh. destruct (start_worker w exe dir); try done.
  destruct (Z.eqb_spec (protocol h0) PROTOCOL_VERSION) as [E|]; [|done]. by injection Hh as <-.
Qed.

(** ** Well-formed pools *)

Record pool_wf (policy : RestartPolicy) (p : WorkerPool) : Prop := {
  wf_nodup : NoDup (sessions p).*1;
  wf_names : forall h, h ∈ (sessions p).*1 -> exists k, (0 <= k < next_handle p)%Z /\ h = db_handle k;
  wf_refs : forall hr, hr ∈ sessions p -> (hr.2 < next_ref p)%nat /\ is_Some (store p !! hr.2);
  wf_refs_nodup : NoDup (sessions p).*2;
  wf_next : is_u64 (next_handle p);
  wf_failures : forall r s, store p !! r = Some s -> s_health s <> Dead ->
    (0 <= s_restart_failures s <= max_restarts policy)%Z;
}.

Lemma wf_kept policy p p' : pool_wf policy p -> kept p p' -> pool_wf policy p'.
Proof.
  intros [] (E1 & E2 & E3 & E4 & _). split; rewrite ?E1, ?E2, ?E3, ?E4; done.
Qed.

Lemma wf_fresh policy p : pool_wf policy p -> db_handle (next_handle p) ∉ (sessions p).*1.
Proof.
  intros H Hin. destruct (wf_names _ _ H _ Hin) as (k & Hk & E).
  pose proof (wf_next _ _ H) as Hn. unfold is_u64 in Hn. apply db_handle_inj in E; unfold is_u64; lia.
Qed.

Lemma wf_spawn policy p p' s name :
  pool_wf policy p -> (0 <= max_restarts policy)%Z -> (next_handle p + 1 < u64_modulus)%Z ->
  name = db_handle (next_handle p) -> sessions p' = sessions p ++ [(name, next_ref p)] ->
  next_ref p' = S (next_ref p) -> next_handle p' = wrapping_add64 (next_handle p) 1 ->
  store p' = <[next_ref p := s]> (store p) -> s_restart_failures s = 0%Z ->
  pool_wf policy p'.
Proof.
  intros H Hmax Hlt -> Es Er Eh Est Hs. pose proof (wf_fresh _ _ H) as Hfresh.
  pose proof (wf_next _ _ H) as Hn. unfold is_u64 in Hn.
  rewrite wrapping_succ in Eh by (unfold is_u64, u64_max; lia).
  split; rewrite ?Es, ?Er, ?Eh, ?Est, ?fmap_app.
  - apply NoDup_app. split; [apply (wf_nodup _ _ H)|]. split; [|apply NoDup_singleton].
    intros x Hx Hx'. apply list_elem_of_singleton in Hx' as ->. done.
  - intros h [Hh|Hh]%elem_of_app.
    + destruct (wf_names _ _ H h Hh) as (k & Hk & E). exists k. split; [lia|done].
    + apply list_elem_of_singleton in Hh as ->. exists (next_handle p). split; [lia|done].
  - intros hr [Hh|Hh]%elem_of_app.
    + destruct (wf_refs _ _ H hr Hh) as [Hlt' Hst]. split; [lia|]. rewrite lookup_insert_ne by lia. done.
    + apply list_elem_of_singleton in Hh as ->. simpl. split; [lia|]. rewrite lookup_insert_eq. done.
  - apply NoDup_app. split; [apply (wf_refs_nodup _ _ H)|]. split; [|apply NoDup_singleton].
    intros x (hr & -> & Hx)%list_elem_of_fmap Hx'. apply list_elem_of_singleton in Hx'. simpl in Hx'.
    destruct (wf_refs _ _ H hr Hx). lia.
  - unfold is_u64. lia.
  - intros r s'. rewrite lookup_insert. destruct (decide (next_ref p = r)); [|apply (wf_failures _ _ H)].
    intros [= <-] _. lia.
Qed.

Lemma position_Some db ss i : position db ss = Some i -> exists r, ss !! i = Some (db, r).
Proof.
  unfold position. destruct (list_find _ ss) as [[j [h r]]|] eqn:E; [|done]. intros [= <-].
  apply list_find_Some in E as (Hj & Hh & _). simpl in *. subst. eauto.
Qed.

Lemma position_elem db ss : db ∈ ss.*1 -> exists i, position db ss = Some i.
Proof.
  intros (hr & -> & Hin)%list_elem_of_fmap. unfold position.
  destruct (list_find (fun hs => hs.1 = hr.1) ss) as [[j x]|] eqn:E; [simpl; eauto|].
  apply list_find_None in E. rewrite Forall_forall in E. by destruct (E hr Hin).
Qed.

Lemma position_last name r ss : name ∉ ss.*1 -> position name (ss ++ [(name, r)]) = Some (length ss).
Proof.
  intros Hn. unfold position. rewrite list_find_app_r.
  - simpl. by rewrite decide_True by done.
  - apply list_find_None, Forall_forall. intros x Hx E. apply Hn. rewrite <- E.
    by apply list_elem_of_fmap_2.
Qed.

Lemma delete_last {A} (l : list A) x : delete (length l) (l ++ [x]) = l.
Proof. induction l as [|y l IH]; [done|]. cbn. f_equal. apply IH. Qed.

(** The swap puts the fresh session into the slot of [db] and nothing else. *)
Lemma swap_in_spec db name r ss p :
  sessions p = ss ++ [(name, r)] -> name ∉ ss.*1 -> db ∈ ss.*1 ->
  exists slot old, ss !! slot = Some (db, old)
    /\ swap_in db name p = Done (set_sessions (<[slot := (db, r)]> ss) (store p) p).
Proof.
  intros Es Hn Hdb. destruct (position_elem db ss Hdb) as [slot Hslot].
  destruct (position_Some db ss slot Hslot) as [old Hold]. exists slot, old. split; [done|].
  unfold swap_in. rewrite Es, position_last by done. cbn [at_ obind].
  rewrite lookup_app_r, Nat.sub_diag by lia. cbn [lookup list_lookup at_ obind].
  rewrite delete_last, Hslot. done.
Qed.

Lemma handles_insert db r old slot (ss : list (string * nat)) :
  ss !! slot = Some (db, old) -> (<[slot := (db, r)]> ss).*1 = ss.*1.
Proof.
  intros Hs. rewrite list_fmap_insert. simpl. apply list_insert_id. by rewrite list_lookup_fmap, Hs.
Qed.

Lemma lookup_nodup_ref policy p slot db old h r :
  pool_wf policy p -> sessions p !! slot = Some (db, old) -> (h, r) ∈ sessions p -> h <> db -> r <> old.
Proof.
  intros H Hs [i Hi]%list_elem_of_lookup Hne ->. apply Hne.
  assert (i = slot) as ->; [|congruence].
  eapply (NoDup_lookup (sessions p).*2); [apply (wf_refs_nodup _ _ H)|..];
    rewrite list_lookup_fmap; [by rewrite Hi|by rewrite Hs].
Qed.

Lemma session_lookup db p ref :
  session db p = Some ref -> exists slot, sessions p !! slot = Some (db, ref).
Proof.
  unfold session. destruct (list_find _ _) as [[i [h r]]|] eqn:E; [|done]. intros [= <-].
  apply list_find_Some in E as (Hi & Hh & _). simpl in *. subst. eauto.
Qed.

Lemma session_of_lookup policy db p slot ref :
  pool_wf policy p -> sessions p !! slot = Some (db, ref) -> session db p = Some ref.
Proof.
  intros H Hs. unfold session.
  destruct (list_find (fun hs => hs.1 = db) (sessions p)) as [[i [h r]]|] eqn:E.
  - apply list_find_Some in E as (Hi & Hh & _). simpl in *. subst h.
    assert (i = slot) as ->; [|congruence].
    eapply (NoDup_lookup (sessions p).*1); [apply (wf_nodup _ _ H)|..];
      rewrite list_lookup_fmap; [by rewrite Hi|by rewrite Hs].
  - apply list_find_None in E. rewrite Forall_forall in E.
    by destruct (E _ (list_elem_of_lookup_2 _ _ _ Hs)).
Qed.

(** Updating the stored session of a slot, not beyond the budget. *)
Lemma wf_store policy p r s s' :
  pool_wf policy p -> store p !! r = Some s ->
  (s_health s' <> Dead -> (0 <= s_restart_failures s' <= max_restarts policy)%Z) ->
  pool_wf policy (set_sessions (sessions p) (<[r := s']> (store p)) p).
Proof.
  intros [] Hs Hf. split; simpl; try done.
  - intros hr Hhr. destruct (wf_refs0 hr Hhr) as [Hlt Hst]. split; [done|].
    rewrite lookup_insert. destruct (decide (r = hr.2)); [eauto|done].
  - intros r' s''. rewrite lookup_insert. destruct (decide (r = r')); [|apply wf_failures0].
    by intros [= <-].
Qed.

Lemma NoDup_insert {A} (l : list A) i x : NoDup l -> x ∉ l -> NoDup (<[i := x]> l).
Proof.
  intros Hnd Hx. apply NoDup_alt. intros a b y Ha Hb.
  apply list_lookup_insert_Some in Ha as [(<- & <- & _)|[Hna Ha]];
    apply list_lookup_insert_Some in Hb as [(<- & E & _)|[Hnb Hb]]; try done.
  - by apply list_elem_of_lookup_2 in Hb.
  - subst y. by apply list_elem_of_lookup_2 in Ha.
  - by eapply NoDup_lookup.
Qed.

(** The answer of a recovery of [db] whose session was [ref]: [p'] differs
    from [p] in the slot of [db] only. *)
Definition recovered (policy : RestartPolicy) (db : string) (p : WorkerPool) (res : Result unit)
    (p' : WorkerPool) : Prop :=
  (sessions p').*1 = (sessions p).*1
  /\ (forall h r, h <> db -> (h, r) ∈ sessions p -> (h, r) ∈ sessions p' /\ store p' !! r = store p !! r)
  /\ pool_wf policy p'
  /\ health_of db p' = Ok (if is_ok res then Healthy else Dead).

Section Recovered.
Context (policy : RestartPolicy) (db : string) (ref slot : nat) (p p1 : WorkerPool).
Context (Hwf : pool_wf policy p) (Hslot : sessions p !! slot = Some (db, ref)).

Lemma other_session h r x :
  h <> db -> (h, r) ∈ sessions p -> (<[ref := x]> (store p)) !! r = store p !! r.
Proof using Hwf Hslot.
  intros Hne Hin. apply lookup_insert_ne. symmetry. by apply (lookup_nodup_ref policy p slot db ref h r).
Qed.

(** The restart budget is used up. *)
Lemma recovered_dead e s n :
  kept p p1 -> store p !! ref = Some s ->
  recovered policy db p (Err e) (set_sessions (sessions p1) (<[ref := set_health Dead n s]> (store p1)) p1).
Proof using Hwf Hslot.
  intros Hk Hs. pose proof (wf_kept _ _ _ Hwf Hk) as H1. destruct Hk as (E1 & E2 & _).
  assert (pool_wf policy (set_sessions (sessions p1) (<[ref := set_health Dead n s]> (store p1)) p1)) as Hwf'
    by (eapply wf_store; [done|by rewrite E2|done]).
  split; [by simpl; rewrite E1|]. split; [|split; [done|]].
  - simpl. rewrite E1, E2. intros h r Hne Hin. split; [done|by eapply other_session].
  - unfold health_of. rewrite (session_of_lookup policy db _ slot ref Hwf') by (simpl; by rewrite E1).
    simpl. by rewrite lookup_insert_eq.
Qed.

(** One more failure is counted and the recovery goes on. *)
Lemma recovered_retry s' res p' :
  kept p p1 -> recovered policy db (set_sessions (sessions p1) (<[ref := s']> (store p1)) p1) res p' ->
  recovered policy db p res p'.
Proof using Hwf Hslot.
  intros (E1 & E2 & _) (Hhs & Hot & Hrest). simpl in Hhs, Hot. rewrite E1, E2 in *.
  split; [done|]. split; [|done]. intros h r Hne Hin. destruct (Hot h r Hne Hin) as [? ->].
  split; [done|]. by eapply other_session.
Qed.

(** The new session [s'], opened under a handle of its own, takes the slot. *)
Lemma wf_swap s' name :
  pool_wf policy p1 -> sessions p1 = sessions p ++ [(name, next_ref p)] -> next_ref p1 = S (next_ref p) ->
  store p1 = <[next_ref p := s']> (store p) ->
  pool_wf policy (set_sessions (<[slot := (db, next_ref p)]> (sessions p)) (store p1) p1).
Proof using Hwf Hslot.
  intros [] Es Er Est. split; simpl; try done.
  - rewrite (handles_insert _ _ _ _ _ Hslot). apply (wf_nodup _ _ Hwf).
  - rewrite (handles_insert _ _ _ _ _ Hslot). intros h Hh. apply wf_names0.
    rewrite Es, fmap_app. apply elem_of_app. by left.
  - intros hr [i Hi]%list_elem_of_lookup. apply list_lookup_insert_Some in Hi as [(_ & <- & _)|[_ Hi]].
    + simpl. rewrite Est, Er, lookup_insert_eq. split; [lia|done].
    + apply wf_refs0. rewrite Es. apply elem_of_app. left. by eapply list_elem_of_lookup_2.
  - rewrite list_fmap_insert. simpl. apply NoDup_insert; [apply (wf_refs_nodup _ _ Hwf)|].
    intros (hr & E & Hhr)%list_elem_of_fmap. destruct (wf_refs _ _ Hwf hr Hhr). lia.
Qed.

Lemma recovered_swap s' name :
  pool_wf policy p1 -> sessions p1 = sessions p ++ [(name, next_ref p)] -> next_ref p1 = S (next_ref p) ->
  store p1 = <[next_ref p := s']> (store p) -> s_health s' = Healthy ->
  recovered policy db p (Ok tt) (set_sessions (<[slot := (db, next_ref p)]> (sessions p)) (store p1) p1).
Proof using Hwf Hslot.
  intros H1 Es Er Est Hh. pose proof (wf_swap s' name H1 Es Er Est) as Hwf'.
  unfold recovered. cbn [sessions store set_sessions is_ok].
  split; [by eapply handles_insert|]. split; [|split; [done|]].
  - intros h r Hne Hin. split.
    + apply list_elem_of_lookup in Hin as [i Hi]. apply (list_elem_of_lookup_2 _ i).
      rewrite list_lookup_insert_ne; [done|]. intros <-. congruence.
    + rewrite Est. apply lookup_insert_ne. destruct (wf_refs _ _ Hwf (h, r) Hin). simpl in *. lia.
  - unfold health_of. rewrite (session_of_lookup policy db _ slot (next_ref p) Hwf').
    + cbn [mbind option_bind store set_sessions]. rewrite Est, lookup_insert_eq. by rewrite Hh.
    + cbn. apply list_lookup_insert_eq. by eapply lookup_lt_Some.
Qed.
End Recovered.

Lemma recover_loop_ok worlds policy db ref meta fuel k p slot s :
  pool_wf policy p -> (0 <= max_restarts policy < u32_modulus - 1)%Z ->
  (next_handle p + 1 < u64_modulus)%Z ->
  sessions p !! slot = Some (db, ref) -> store p !! ref = Some s -> s_health s <> Dead ->
  (max_restarts policy - s_restart_failures s < Z.of_nat fuel)%Z ->
  exists res p', recover_loop worlds policy db ref meta fuel k p = Done (res, p')
    /\ recovered policy db p res p'.
Proof.
  revert k p s. induction fuel as [|fuel IH]; intros k p s H Hmax Hn Hslot Hs Hd Hfuel.
  { destruct (wf_failures _ _ H ref s Hs Hd). lia. }
  cbn [recover_loop]. unfold spawn_for.
  pose proof (spawn_spec (worlds k) p (meta_db_path meta) usize_max (meta_backend_kind meta)
    (meta_ida_version meta) (JObj [])) as Hsp.
  destruct (spawn_for_with_budget _ _ _ _ _ _ _) as [[e|name] p1].
  - pose proof (wf_kept _ _ _ H Hsp) as H1. pose proof Hsp as (E1 & E2 & E3 & E4 & _).
    rewrite E2, Hs, <- E2. cbn [at_ obind]. destruct (wf_failures _ _ H ref s Hs Hd) as [Hf0 Hf1].
    rewrite Z.mod_small by lia.
    destruct (Z.ltb_spec (max_restarts policy) (s_restart_failures s + 1)) as [Hgt|Hle].
    + eexists _, _. split; [done|]. by apply (recovered_dead policy db ref slot p p1).
    + destruct (IH (S k) (set_sessions (sessions p1)
          (<[ref := set_health (s_health s) (s_restart_failures s + 1) s]> (store p1)) p1)
          (set_health (s_health s) (s_restart_failures s + 1) s)) as (res & p' & Hrun & Hrec); simpl; try done.
      * eapply wf_store; [done|by rewrite E2|]. intros _. simpl. lia.
      * by rewrite E4.
      * by rewrite E1.
      * apply lookup_insert_eq.
      * lia.
      * exists res, p'. split; [done|]. by eapply recovered_retry.
  - destruct Hsp as (_ & Hname & Es & Er & Eh & s' & dir & kind' & Est & (_ & _ & Hhealth & Hfail & _) & _).
    pose proof (wf_fresh _ _ H) as Hfresh. rewrite <- Hname in Hfresh.
    assert (db ∈ (sessions p).*1) as Hdb.
    { apply list_elem_of_fmap. exists (db, ref). split; [done|]. by eapply list_elem_of_lookup_2. }
    destruct (swap_in_spec db name (next_ref p) (sessions p) p1 Es Hfresh Hdb) as (slot' & old & Hslot' & ->).
    cbn [obind]. eexists _, _. split; [done|].
    apply (recovered_swap policy db old slot' p p1 H Hslot' s' name); try done.
    apply (wf_spawn policy p p1 s' name); (done || lia).
Qed.

(** C28. Recovery keeps the public handles and terminates: with the stated
    fuel it always returns; the list of handles is unchanged and every other
    session is left alone; and it succeeds with a healthy session in the slot
    of [db], or refuses an unknown handle, or leaves the session dead after
    its budget of consecutive failures. *)
Theorem recover_preserves_handles (worlds : nat -> World) (policy : RestartPolicy) (db : string)
    (p : WorkerPool) :
  pool_wf policy p -> (0 <= max_restarts policy < u32_modulus - 1)%Z ->
  (next_handle p + 1 < u64_modulus)%Z ->
  (forall r s, store p !! r = Some s -> is_Some (s_meta s)) ->
  exists res p', recover worlds policy (S (Z.to_nat (max_restarts policy))) db p = Done (res, p')
    /\ (sessions p').*1 = (sessions p).*1
    /\ (forall h r, h <> db -> (h, r) ∈ sessions p -> (h, r) ∈ sessions p' /\ store p' !! r = store p !! r)
    /\ pool_wf policy p'
    /\ (if bool_decide (db ∈ (sessions p).*1)
        then health_of db p' = Ok (if is_ok res then Healthy else Dead)
        else res = Err (UnknownDb db)).
Proof.
  intros H Hmax Hn Hmeta. unfold recover.
  destruct (session db p) as [ref|] eqn:Hses.
  2: { eexists _, _. split; [done|]. split; [done|]. split; [done|]. split; [done|].
       rewrite bool_decide_false; [done|]. intros [i Hi]%position_elem. unfold session in Hses. unfold position in Hi.
       by destruct (list_find _ _). }
  destruct (session_lookup db p ref Hses) as [slot Hslot].
  assert ((db, ref) ∈ sessions p) as Hin by (by eapply list_elem_of_lookup_2).
  rewrite bool_decide_true by (apply list_elem_of_fmap; by exists (db, ref)).
  destruct (wf_refs _ _ H _ Hin) as [_ [s Hs]]. simpl in Hs. rewrite Hs. cbn [at_ obind].
  assert (s_health s = Healthy \/ s_health s = Dead \/ (s_health s <> Healthy /\ s_health s <> Dead)) as Hcase
    by (destruct (s_health s); auto).
  assert (health_of db p = Ok (s_health s)) as Hhp by (unfold health_of; rewrite Hses; simpl; by rewrite Hs).
  destruct Hcase as [Hh|[Hh|[Hh1 Hh2]]].
  - rewrite Hh. eexists _, _. split; [done|]. do 3 (split; [done|]). by rewrite Hhp, Hh.
  - rewrite Hh. eexists _, _. split; [done|]. do 3 (split; [done|]). by rewrite Hhp, Hh.
  - destruct (Hmeta ref s Hs) as [meta ->].
    destruct (wf_failures _ _ H ref s Hs Hh2) as [Hf0 Hf1].
    destruct (recover_loop_ok worlds policy db ref meta (S (Z.to_nat (max_restarts policy))) 0
      (set_sessions (sessions p) (<[ref := set_health Recovering (s_restart_failures s) s]> (store p)) p)
      slot (set_health Recovering (s_restart_failures s) s)) as (res & p' & Hrun & Hhs & Hot & Hwf & Hres);
      try done.
    + by eapply wf_store.
    + simpl. apply lookup_insert_eq.
    + simpl. lia.
    + exists res, p'. split; [by destruct (s_health s)|]. split; [done|]. split; [|done].
      intros h r Hne Hin'. destruct (Hot h r Hne Hin') as [? ->]. split; [done|]. simpl.
      apply lookup_insert_ne. symmetry. by apply (lookup_nodup_ref policy p slot db ref h r).
Qed.

Definition demo_hello : WorkerHello := {|
  protocol := 1; hello_ida_version := "9.2"; pid := 7; hello_ida_dir := ""; idausr := "" |}.

(** A machine without IDA and a worker that answers every call. *)
Definition demo_world : World := {|
  machine := demo_machine; probing := false; exe_override := None;
  exe_candidates := ["/usr/bin/reverse-mcp"];
  probe_mock := fun _ => true; probe_idalib := fun _ => false; path_exists := fun _ => false;
  start_worker := fun _ _ => Hello demo_hello;
  worker_call := fun _ _ _ => Ok JNull |}.

(** The same machine, out of processes. *)
Definition broken_world : World := {|
  machine := demo_machine; probing := false; exe_override := None;
  exe_candidates := ["/usr/bin/reverse-mcp"];
  probe_mock := fun _ => true; probe_idalib := fun _ => false; path_exists := fun _ => false;
  start_worker := fun _ _ => SpawnFailed "resource temporarily unavailable";
  worker_call := fun _ _ _ => Ok JNull |}.

Definition crashed_pool : WorkerPool :=
  {| sessions := [("db1", 0)];
     store := {[ 0 := {| s_hello := demo_hello; s_db_path := Some "a.i64";
                         s_meta := Some (SessionMeta_new "a.i64" "mock" "");
                         s_health := Crashed; s_restart_failures := 0 |} ]};
     next_ref := 1; worker_exe := None; worker_exe_error := None; ida_dir := None;
     idalib_feature := None; next_handle := 2 |}.

Lemma crashed_pool_wf : pool_wf RestartPolicy_default crashed_pool.
Proof.
  split; simpl.
  - apply NoDup_singleton.
  - intros h Hh. apply list_elem_of_singleton in Hh as ->. exists 1%Z. split; [lia|reflexivity].
  - intros hr Hh. apply list_elem_of_singleton in Hh as ->. simpl. split; [lia|].
    rewrite lookup_singleton_eq. eauto.
  - apply NoDup_singleton.
  - unfold is_u64, u64_modulus. lia.
  - intros r s [<- <-]%lookup_singleton_Some _. simpl. lia.
Qed.

Lemma recover_preserves_handles_witness :
  exists res p', recover (fun k => if (k <? 2)%nat then broken_world else demo_world)
      RestartPolicy_default 4 "db1" crashed_pool = Done (res, p')
    /\ (sessions p').*1 = ["db1"] /\ health_of "db1" p' = Ok Healthy.
Proof.
  destruct (recover_preserves_handles (fun k => if (k <? 2)%nat then broken_world else demo_world)
    RestartPolicy_default "db1" crashed_pool crashed_pool_wf) as (res & p' & Hrun & Hh & _ & _ & Hres).
  - vm_compute. split; [discriminate|reflexivity].
  - reflexivity.
  - intros r s Hs. simpl in Hs. apply lookup_singleton_Some in Hs as [<- <-]. simpl. eauto.
  - exists res, p'. split; [exact Hrun|]. split; [exact Hh|].
    rewrite bool_decide_true in Hres by (left).
    vm_compute in Hrun. injection Hrun as <- <-. exact Hres.
Defined.

(** Opening a database: the worker limit is never exceeded; a failed open
    leaves every session as it was; a successful one appends exactly one
    session, under a handle that was not in use, healthy, speaking the
    broker's protocol and carrying what a recovery needs. *)
Theorem spawn_adds_one_session (policy : RestartPolicy) (w : World) (p : WorkerPool)
    (db_path : string) (max_workers : Z) (kind ver : string) (params : Value) :
  pool_wf policy p -> (0 <= max_restarts policy)%Z -> (next_handle p + 1 < u64_modulus)%Z ->
  match spawn_for_with_budget w p db_path max_workers kind ver params with
  | (inl e, p') => sessions p' = sessions p /\ store p' = store p /\ pool_wf policy p'
  | (inr name, p') =>
      (Z.of_nat (length (sessions p')) <= max_workers)%Z
      /\ name ∉ (sessions p).*1
      /\ (exists r s kind', sessions p' = sessions p ++ [(name, r)] /\ store p' !! r = Some s
            /\ s_health s = Healthy /\ protocol (s_hello s) = PROTOCOL_VERSION
            /\ s_meta s = Some (SessionMeta_new db_path kind' ver))
      /\ (forall r s, store p !! r = Some s -> (r < next_ref p)%nat -> store p' !! r = Some s)
      /\ pool_wf policy p'
  end.
Proof.
  intros H Hmax Hn. pose proof (spawn_spec w p db_path max_workers kind ver params) as Hs.
  destruct (spawn_for_with_budget _ _ _ _ _ _ _) as [[e|name] p'].
  - split; [by apply Hs|]. split; [by apply Hs|]. by eapply wf_kept.
  - destruct Hs as (Hlt & -> & Es & Er & Eh & s & dir & kind' & Est & Hnew & _).
    destruct Hnew as (Hp & Hm & Hh & Hf & Hpr). split; [|split; [by eapply wf_fresh|split; [|split]]].
    + rewrite Es, length_app. simpl. lia.
    + exists (next_ref p), s, kind'. split; [done|]. split; [by rewrite Est, lookup_insert_eq|]. done.
    + intros r s' Hr Hlt'. rewrite Est, lookup_insert_ne by lia. done.
    + by apply (wf_spawn policy p p' s (db_handle (next_handle p))).
Qed.

Lemma spawn_adds_one_session_witness :
  match spawn_for_with_budget demo_world crashed_pool "b.i64" 8 "auto" "latest" JNull with
  | (inl _, _) => False
  | (inr name, p') => (Z.of_nat (length (sessions p')) <= 8)%Z /\ name ∉ ["db1"]
  end.
Proof.
  pose proof (spawn_adds_one_session RestartPolicy_default demo_world crashed_pool "b.i64" 8 "auto"
    "latest" JNull crashed_pool_wf) as H.
  specialize (H ltac:(discriminate) eq_refl).
  destruct (spawn_for_with_budget demo_world crashed_pool "b.i64" 8 "auto" "latest" JNull)
    as [[e|name] p'] eqn:E; [vm_compute in E; discriminate E|].
  destruct H as (H1 & H2 & _). split; [exact H1|exact H2].
Defined.

(** The backend a session runs on is never a silent substitute: asking
    for [mock] needs no IDA; asking for [idalib] either fails or runs it on a
    discovered install with a verified backend; and [auto] runs [idalib]
    exactly when the worker was built with it and the selected install has a
    verified backend, else [mock]. *)
Theorem backend_choice_honest (w : World) (p p' : WorkerPool) (kind ver kind' : string)
    (dir : option string) :
  choose_backend w p kind ver = (Ok (dir, kind'), p') ->
  (kind = "mock" -> dir = None /\ kind' = "mock")
  /\ (kind = "idalib" -> kind' = "idalib"
        /\ exists i, dir = Some (root i) /\ i ∈ discover_all (machine w) (ida_dir p)
             /\ backend i = Ready)
  /\ (kind = "auto" ->
        kind' = "mock" \/ (kind' = "idalib" /\ (worker_has_idalib_feature w p).1 = true
          /\ exists i, dir = Some (root i) /\ i ∈ discover_all (machine w) (ida_dir p)
               /\ backend i = Ready)).
Proof.
  unfold choose_backend. intros H. split; [|split]; intros ->.
  - simpl in H. injection H as <- <- _. done.
  - simpl in H. destruct (IdaRequirement_parse ver) as [e|req]; [discriminate H|].
    destruct (resolve_with (machine w) (ida_dir p) req) as [e|i] eqn:Hr; [discriminate H|].
    destruct (backend_ready i) eqn:Hb; [|discriminate H]. simpl in H. injection H as <- <- _.
    split; [done|]. exists i. split; [done|]. split; [|by apply bool_decide_eq_true in Hb].
    by eapply resolve_in.
  - simpl in H. destruct (worker_has_idalib_feature w p) as [f p1] eqn:Hf.
    pose proof (idalib_feature_kept w p) as (_ & _ & _ & _ & Ed). rewrite Hf in Ed. simpl in Ed.
    destruct f; simpl in H; [|injection H as <- <- _; by left].
    destruct (IdaRequirement_parse ver) as [e|req]; [discriminate H|].
    destruct (resolve_with (machine w) (ida_dir p1) req) as [e|i] eqn:Hr; [discriminate H|].
    destruct (backend_ready i) eqn:Hb; [|injection H as <- <- _; by left].
    destruct (worker_has_idalib_feature w p1) as [f2 p2]. injection H as <- <- _.
    destruct f2; [right|by left]. split; [done|]. split; [done|]. exists i.
    split; [done|]. rewrite <- Ed. split; [by eapply resolve_in|]. by apply bool_decide_eq_true in Hb.
Qed.

Lemma backend_choice_honest_witness :
  exists dir kind' p', choose_backend demo_world (WorkerPool_new 1) "idalib" "9.2" = (Ok (dir, kind'), p')
    /\ kind' = "idalib".
Proof.
  destruct (choose_backend demo_world (WorkerPool_new 1) "idalib" "9.2") as [[e|[dir kind']] p'] eqn:E;
    [vm_compute in E; discriminate E|].
  exists dir, kind', p'. split; [reflexivity|].
  exact (proj1 (proj1 (proj2 (backend_choice_honest _ _ _ _ _ _ _ E)) eq_refl)).
Defined.

(** Closing: an open handle is closed, and only that one goes; after it
    the handle is unknown; an unknown handle changes nothing. *)
Theorem close_removes_handle (policy : RestartPolicy) (db : string) (p : WorkerPool) :
  pool_wf policy p ->
  let '(res, p') := close db p in
  if bool_decide (db ∈ (sessions p).*1)
  then res = Ok tt /\ db ∉ (sessions p').*1 /\ pool_wf policy p'
       /\ (forall h r, (h, r) ∈ sessions p' <-> (h, r) ∈ sessions p /\ h <> db)
  else res = Err (UnknownDb db) /\ p' = p.
Proof.
  intros H. unfold close. destruct (position db (sessions p)) as [i|] eqn:Hp.
  2: { rewrite bool_decide_false; [done|]. intros [i Hi]%position_elem. congruence. }
  destruct (position_Some _ _ _ Hp) as [r Hr].
  assert (db ∈ (sessions p).*1) as Hdb.
  { apply list_elem_of_fmap. exists (db, r). split; [done|]. by eapply list_elem_of_lookup_2. }
  rewrite bool_decide_true by done.
  pose proof (delete_Permutation _ _ _ Hr) as Hperm.
  assert (NoDup ((db, r) :: delete i (sessions p)).*1) as Hnd by (rewrite <- Hperm; apply (wf_nodup _ _ H)).
  assert (NoDup ((db, r) :: delete i (sessions p)).*2) as Hnd2 by (rewrite <- Hperm; apply (wf_refs_nodup _ _ H)).
  simpl in Hnd, Hnd2. apply NoDup_cons in Hnd as [Hn1 Hn2]. apply NoDup_cons in Hnd2 as [_ Hr2].
  split; [done|]. split; [done|]. split.
  - destruct H. split; simpl; try done.
    + intros h Hh. apply wf_names0. rewrite Hperm. by right.
    + intros hr Hh. apply wf_refs0. rewrite Hperm. by right.
  - simpl. intros h r'.
    assert ((h, r') ∈ sessions p <-> (h, r') = (db, r) \/ (h, r') ∈ delete i (sessions p)) as ->
      by (rewrite <- elem_of_cons; by apply elem_of_Permutation_proper).
    split.
    + intros Hin. split; [by right|]. intros ->. apply Hn1, list_elem_of_fmap. by exists (db, r').
    + intros [[[= -> ->]|?] ?]; done.
Qed.

Lemma close_removes_handle_witness :
  let '(res, p') := close "db1" crashed_pool in res = Ok tt /\ sessions p' = [].
Proof.
  pose proof (close_removes_handle RestartPolicy_default "db1" crashed_pool crashed_pool_wf) as H.
  destruct (close "db1" crashed_pool) as [res p'] eqn:E.
  rewrite bool_decide_true in H by left. destruct H as [Hr _]. split; [exact Hr|].
  vm_compute in E. injection E as _ <-. reflexivity.
Defined.
