(* ===== verification/Jobs.v ===== *)
(** * Jobs: background analysis jobs

    Models [rmcp-broker/src/jobs.rs].  The registry is a [gmap] from job id to
    job; [in_flight] are the ids whose spawned task has not stored its outcome
    yet.  Instants are nanoseconds, passed to each operation as [now].  The
    serializer of the parameters is an argument, the iteration order of the
    map an arbitrary permutation.  [start] is the synchronous part of the
    handler, [complete] the end of the task it spawns; their interleaving
    with the other operations is a sequence of [op]s. *)

From stdpp Require Import base list gmap strings.
From Stdlib Require Import ZArith Lia Ascii.
From S2P Require Import Prelude Text Json Errors Handles.

Local Open Scope rmcp_scope.

Inductive JobState :=
  | Running
  | JobDone (v : Value)
  | Failed (m : string)
  | Cancelled.

Record Job := {
  job_db : string;
  method : string;
  summary : string;
  job_state : JobState;
  started : Z;
  finished : option Z;
}.

Definition status_of (j : Job) : string :=
  match job_state j with
  | Running => "running" | JobDone _ => "done" | Failed _ => "failed" | Cancelled => "cancelled"
  end.

Record JobManager := {
  jobs : gmap string Job;
  in_flight : list string;
  max_running : nat;
  result_ttl : Z;
  next_job : Z;
}.

Definition JobManager_new (max : nat) (ttl id : Z) : JobManager :=
  {| jobs := ∅; in_flight := []; max_running := Nat.max max 1; result_ttl := ttl; next_job := id |}.

Definition is_running (j : Job) : bool := bool_decide (status_of j = "running").

Definition running (m : JobManager) : nat :=
  size (filter (fun ij : string * Job => is_running ij.2 = true) (jobs m)).

(** The bounded summary of the serialized parameters; [&s[..200]] panics when
    byte 200 is inside a character.  The appended character is U+2026. *)
Definition ellipsis : string := String "226"%char (String "128"%char (String "166"%char "")).

Definition summary_of (s : string) : outcome string :=
  if (200 <? String.length s)%nat then
    cut <~ at_ (slice_to s 200); Done (cut +:+ ellipsis)
  else Done s.

Definition too_many (r max : nat) : Error :=
  Worker ("too many background jobs running (" +:+ show_dec (Z.of_nat r) +:+ "/" +:+ show_dec (Z.of_nat max)
    +:+ "); collect results with ida_jobs action=result first").

Definition start (to_text : Value -> string) (now : Z) (db meth : string) (params : Value)
    (m : JobManager) : outcome (Result string * JobManager) :=
  let r := running m in
  if (max_running m <=? r)%nat then Done (Err (too_many r (max_running m)), m)
  else
    sm <~ summary_of (to_text params);
    let '(h, next) := Handle_new "job" (next_job m) in
    let id := Handle_to_string h in
    Done (Ok id,
      {| jobs := <[id := {| job_db := db; method := meth; summary := sm; job_state := Running;
                            started := now; finished := None |}]> (jobs m);
         in_flight := in_flight m ++ [id]; max_running := max_running m;
         result_ttl := result_ttl m; next_job := next |}).

Definition set_jobs (js : gmap string Job) (fl : list string) (m : JobManager) : JobManager :=
  {| jobs := js; in_flight := fl; max_running := max_running m; result_ttl := result_ttl m;
     next_job := next_job m |}.

Definition finish (st : JobState) (now : Z) (j : Job) : Job :=
  {| job_db := job_db j; method := method j; summary := summary j; job_state := st;
     started := started j; finished := Some now |}.

(** The state the task stores for the outcome of its call. *)
Definition outcome_state (out : Result Value) : JobState :=
  match out with
  | inr v => JobDone v
  | inl e =>
      match e with
      | Worker m =>
          if contains "timed out" m then
            Failed ("budget exhausted (" +:+ m +:+ "); the agent can restart the same call via ida_jobs action=start with a larger timeout_ms - revision caches make the retry cheap")
          else Failed (to_string e)
      | _ => Failed (to_string e)
      end
  end.

Definition complete (now : Z) (id : string) (out : Result Value) (m : JobManager) : JobManager :=
  set_jobs
    (match jobs m !! id with
     | Some j => <[id := finish (outcome_state out) now j]> (jobs m)
     | None => jobs m
     end)
    (filter (fun x => x <> id) (in_flight m)) m.

(** [Instant::elapsed] saturates at zero; [as_secs]. *)
Definition elapsed (since now : Z) : Z := Z.max 0 (now - since).
Definition elapsed_secs (j : Job) (now : Z) : Value := JNum (elapsed (started j) now / 10 ^ 9).

Definition status (now : Z) (id : string) (m : JobManager) : Result Value :=
  j <-? ok_or_else (jobs m !! id) (UnknownResult id);
  Ok (JObj [("id", JStr id); ("db", JStr (job_db j)); ("method", JStr (method j));
            ("params", JStr (summary j)); ("status", JStr (status_of j));
            ("elapsed_secs", elapsed_secs j now);
            ("note", JStr (if bool_decide (status_of j = "running")
                           then "the agent can keep working; poll again or switch tasks"
                           else if bool_decide (status_of j = "done") then "collect with action=result"
                           else "failed; the error explains the next move"))]).

Definition result (now : Z) (id : string) (m : JobManager) : Result Value :=
  j <-? ok_or_else (jobs m !! id) (UnknownResult id);
  match job_state j with
  | JobDone v => Ok (JObj [("id", JStr id); ("status", JStr "done");
                           ("elapsed_secs", elapsed_secs j now); ("result", v)])
  | Failed msg => Ok (JObj [("id", JStr id); ("status", JStr "failed"); ("error", JStr msg);
                            ("note", JStr "revision caches make a retry with a larger budget cheap")])
  | Cancelled => Err (Worker ("job " +:+ id +:+ " was cancelled"))
  | Running => Ok (JObj [("id", JStr id); ("status", JStr "running");
                         ("elapsed_secs", elapsed_secs j now);
                         ("note", JStr "result not ready; poll status or keep working")])
  end.

(** [sort_by_key] on the pair (not running, reversed start). *)
Definition row_le (a b : Job) : bool :=
  match is_running a, is_running b with
  | true, false => true
  | false, true => false
  | _, _ => (started b <=? started a)%Z
  end.

Fixpoint insert_row (x : Job) (l : list Job) : list Job :=
  match l with
  | [] => [x]
  | y :: l' => if row_le x y then x :: y :: l' else y :: insert_row x l'
  end.

(** [values] is the map's values in the order its iterator yields them. *)
Definition list_jobs (now : Z) (values : list Job) : list Value :=
  (fun j => JObj [("db", JStr (job_db j)); ("method", JStr (method j)); ("status", JStr (status_of j));
                  ("elapsed_secs", elapsed_secs j now); ("summary", JStr (summary j))])
  <$> take 50 (foldr insert_row [] values).

Definition cancel (now : Z) (id : string) (m : JobManager) : Result Value * JobManager :=
  match jobs m !! id with
  | None => (Err (UnknownResult id), m)
  | Some j =>
      match job_state j with
      | Running =>
          (Ok (JObj [("id", JStr id); ("cancelled", JBool true);
                     ("note", JStr "the in-flight worker call cannot be interrupted mid-frame; its result will be discarded when it returns")]),
           set_jobs (<[id := finish Cancelled now j]> (jobs m)) (in_flight m) m)
      | _ => (Ok (JObj [("id", JStr id); ("cancelled", JBool false); ("status", JStr (status_of j))]), m)
      end
  end.

(** A job [sweep] drops: not running, finished at least a TTL ago. *)
Definition is_expired (ttl now : Z) (j : Job) : bool :=
  negb (is_running j)
  && match finished j with Some f => (ttl <=? elapsed f now)%Z | None => false end.

Definition sweep (now : Z) (m : JobManager) : nat * JobManager :=
  let dead := (filter (fun ij => is_expired (result_ttl m) now ij.2 = true) (map_to_list (jobs m))).*1 in
  (length dead, set_jobs (foldr delete (jobs m) dead) (in_flight m) m).

(** ** Sequences of operations *)

Inductive op :=
  | OStart (now : Z) (db meth : string) (params : Value)
  | OComplete (now : Z) (id : string) (out : Result Value)
  | OCancel (now : Z) (id : string)
  | OSweep (now : Z).

(** One operation; a task completes once. *)
Definition step (to_text : Value -> string) (o : op) (m : JobManager) : outcome JobManager :=
  match o with
  | OStart now db meth params => rm <~ start to_text now db meth params m; Done rm.2
  | OComplete now id out => Done (if bool_decide (id ∈ in_flight m) then complete now id out m else m)
  | OCancel now id => Done (cancel now id m).2
  | OSweep now => Done (sweep now m).2
  end.

Fixpoint run (to_text : Value -> string) (ops : list op) (m : JobManager) : outcome JobManager :=
  match ops with
  | [] => Done m
  | o :: os => m' <~ step to_text o m; run to_text os m'
  end.

Definition ascii_text (v : Value) : string := "{}".

Example cancel_is_overwritten :
  match run ascii_text
    [OStart 0 "db1" "deep" JNull; OCancel 5 "job1"; OComplete 9 "job1" (Ok (JBool true))]
    (JobManager_new 4 100 1) with
  | Done m => status_of <$> jobs m !! "job1" = Some "done"
  | _ => False
  end.
Proof. vm_compute. reflexivity. Qed.

(** ** Lemmas *)

Definition job_id (k : Z) : string := "job" +:+ show_dec k.

Lemma job_id_inj j k : is_u64 j -> is_u64 k -> job_id j = job_id k -> j = k.
Proof.
  intros Hj Hk E. apply (f_equal (strip_prefix "job")) in E. unfold job_id in E.
  rewrite !strip_prefix_app in E. injection E as E. by apply show_dec_inj.
Qed.

Lemma is_running_iff j : is_running j = true <-> job_state j = Running.
Proof. unfold is_running, status_of. destruct (job_state j); split; done. Qed.

Definition running_map (js : gmap string Job) : gmap string Job :=
  filter (fun ij : string * Job => is_running ij.2 = true) js.

(** Replacing or removing a job never adds a running one unless it is one. *)
Lemma running_insert_stopped js id j :
  is_running j = false -> (size (running_map (<[id := j]> js)) <= size (running_map js))%nat.
Proof.
  intros Hj. apply map_subseteq_size. unfold running_map.
  apply map_subseteq_spec. intros k x. rewrite !map_lookup_filter_Some. simpl.
  intros [Hk Hx]. split; [|done]. rewrite lookup_insert in Hk.
  destruct (decide (id = k)); [|done]. injection Hk as <-. congruence.
Qed.

Lemma running_subseteq js js' :
  js' ⊆ js -> (size (running_map js') <= size (running_map js))%nat.
Proof.
  intros Hsub. apply map_subseteq_size. unfold running_map.
  apply map_subseteq_spec. intros k x. rewrite !map_lookup_filter_Some. simpl. intros [Hk Hx].
  split; [|done]. by eapply lookup_weaken.
Qed.

Lemma running_insert_le js id j :
  (size (running_map (<[id := j]> js)) <= S (size (running_map js)))%nat.
Proof.
  unfold running_map. destruct (decide (is_running j = true)) as [Hj|Hj].
  - rewrite map_filter_insert_True by done. rewrite map_size_insert. destruct (_ !! id); simpl; lia.
  - apply not_true_is_false in Hj. pose proof (running_insert_stopped js id j Hj) as H.
    unfold running_map in H. lia.
Qed.

Lemma lookup_foldr_delete (js : gmap string Job) (ks : list string) i :
  foldr delete js ks !! i = if decide (i ∈ ks) then None else js !! i.
Proof.
  induction ks as [|k ks IH]; cbn [foldr].
  - destruct (decide (i ∈ [])) as [Hi|]; [inversion Hi|done].
  - destruct (decide (i = k)) as [->|Hne].
    + rewrite lookup_delete_eq. destruct (decide (k ∈ k :: ks)) as [|Hn]; [done|]. destruct Hn. left.
    + rewrite lookup_delete_ne, IH by done.
      destruct (decide (i ∈ ks)) as [Hi|Hi], (decide (i ∈ k :: ks)) as [Hj|Hj]; try done.
      * by destruct Hj; right.
      * apply elem_of_cons in Hj as [|]; done.
Qed.

(** What [sweep] keeps. *)
Lemma sweep_lookup now m i :
  jobs (sweep now m).2 !! i
  = match jobs m !! i with
    | Some j => if is_expired (result_ttl m) now j then None else Some j
    | None => None
    end.
Proof.
  unfold sweep. simpl. rewrite lookup_foldr_delete.
  set (dead := (filter _ (map_to_list (jobs m))).*1).
  assert (i ∈ dead <-> exists j, jobs m !! i = Some j /\ is_expired (result_ttl m) now j = true) as Hd.
  { unfold dead. rewrite list_elem_of_fmap. split.
    - intros ([k j] & -> & [He Hin%elem_of_map_to_list]%list_elem_of_filter). eauto.
    - intros (j & Hj & He). exists (i, j). split; [done|]. apply list_elem_of_filter.
      split; [done|]. by apply elem_of_map_to_list. }
  destruct (jobs m !! i) as [j|] eqn:Hj.
  - destruct (is_expired (result_ttl m) now j) eqn:He.
    + by rewrite decide_True by (apply Hd; eauto).
    + rewrite decide_False; [done|]. rewrite Hd. intros (j' & [= <-] & He'). congruence.
  - by destruct (decide (i ∈ dead)).
Qed.

(** ** The invariant *)

Record jobs_inv (m : JobManager) : Prop := {
  j_cap : (running m <= max_running m)%nat;
  j_task : forall id j, jobs m !! id = Some j -> is_running j = true -> id ∈ in_flight m;
  j_ids : forall id, is_Some (jobs m !! id) \/ id ∈ in_flight m ->
    exists k, (0 <= k < next_job m)%Z /\ id = job_id k;
  j_flight : NoDup (in_flight m);
  j_next : is_u64 (next_job m);
}.

Lemma jobs_inv_new max ttl id : is_u64 id -> jobs_inv (JobManager_new max ttl id).
Proof.
  intros Hid. split; simpl; try done; try (by intros ? ? ?).
  - unfold running. simpl. rewrite map_filter_empty, map_size_empty. lia.
  - intros i [[? ?]|Hi]; [done|inversion Hi].
  - constructor.
Qed.

Lemma start_inv to_text now db meth params m res m' :
  jobs_inv m -> (next_job m + 1 < u64_modulus)%Z ->
  start to_text now db meth params m = Done (res, m') -> jobs_inv m'.
Proof.
  intros H Hn. unfold start. destruct (Nat.leb_spec (max_running m) (running m)); [by intros [= _ <-]|].
  destruct (summary_of (to_text params)) as [sm| |]; [|done..]. cbn [obind Handle_new].
  intros [= _ <-]. pose proof (j_next _ H) as Hk. unfold is_u64 in Hk.
  change (Handle_to_string {| prefix := "job"; n := next_job m |}) with (job_id (next_job m)).
  split; simpl; rewrite ?wrapping_succ by (unfold is_u64, u64_max; lia).
  - unfold running. simpl. pose proof (running_insert_le (jobs m) (job_id (next_job m))
      {| job_db := db; method := meth; summary := sm; job_state := Running; started := now;
         finished := None |}) as Hle. unfold running_map in Hle. unfold running in *. lia.
  - intros i j. rewrite lookup_insert, elem_of_app, list_elem_of_singleton.
    destruct (decide _) as [<-|]; [by right|]. intros Hj Hr. left. by apply (j_task _ H i j).
  - intros i. rewrite elem_of_app, list_elem_of_singleton, lookup_insert.
    destruct (decide (job_id (next_job m) = i)) as [<-|Hne].
    + intros _. exists (next_job m). split; [lia|done].
    + intros [Hi|[Hi|Hi]]; [| |congruence];
        destruct (j_ids _ H i ltac:(auto)) as (k & ? & ->); exists k; (split; [lia|done]).
  - apply NoDup_app. split; [apply (j_flight _ H)|]. split; [|apply NoDup_singleton].
    intros x Hx Hx'. apply list_elem_of_singleton in Hx' as ->.
    destruct (j_ids _ H (job_id (next_job m)) ltac:(auto)) as (k & ? & E).
    apply job_id_inj in E; unfold is_u64; lia.
  - unfold is_u64. lia.
Qed.

Lemma complete_inv now id out m : jobs_inv m -> jobs_inv (complete now id out m).
Proof.
  intros H. unfold complete.
  assert (forall j, is_running (finish (outcome_state out) now j) = false) as Hstop.
  { intros j. apply not_true_iff_false. rewrite is_running_iff. simpl. unfold outcome_state.
    destruct out as [[]|]; try done. by destruct (contains _ _). }
  destruct (jobs m !! id) as [j|] eqn:Hj.
  - split; simpl.
    + unfold running. simpl. pose proof (running_insert_stopped (jobs m) id _ (Hstop j)) as Hle.
      pose proof (j_cap _ H). unfold running, running_map in *. lia.
    + intros i j'. rewrite lookup_insert. destruct (decide (id = i)) as [<-|Hne].
      * intros [= <-]. by rewrite Hstop.
      * intros Hi Hr. apply list_elem_of_filter. split; [done|]. by apply (j_task _ H i j').
    + intros i Hi. apply (j_ids _ H). rewrite lookup_insert, list_elem_of_filter in Hi.
      destruct (decide (id = i)) as [<-|]; [left; by rewrite Hj|]. tauto.
    + apply NoDup_filter, (j_flight _ H).
    + apply (j_next _ H).
  - destruct H. split; simpl; try done.
    + intros i j Hi Hr. apply list_elem_of_filter. split; [congruence|]. by apply (j_task0 i j).
    + intros i Hi. apply j_ids0. rewrite list_elem_of_filter in Hi. tauto.
    + by apply NoDup_filter.
Qed.

Lemma cancel_inv now id m : jobs_inv m -> jobs_inv (cancel now id m).2.
Proof.
  intros H. unfold cancel. destruct (jobs m !! id) as [j|] eqn:Hj; [|done].
  destruct (job_state j); try done. simpl.
  assert (is_running (finish Cancelled now j) = false) as Hstop by done.
  split; simpl.
  - unfold running. simpl. pose proof (running_insert_stopped (jobs m) id _ Hstop) as Hle.
    pose proof (j_cap _ H). unfold running, running_map in *. lia.
  - intros i j'. rewrite lookup_insert. destruct (decide (id = i)) as [<-|Hne].
    + intros [= <-]. done.
    + apply (j_task _ H).
  - intros i Hi. apply (j_ids _ H). rewrite lookup_insert in Hi.
    destruct (decide (id = i)) as [<-|]; [left; by rewrite Hj|]. tauto.
  - apply (j_flight _ H).
  - apply (j_next _ H).
Qed.

Lemma sweep_subseteq now m : jobs (sweep now m).2 ⊆ jobs m.
Proof.
  apply map_subseteq_spec. intros i x. rewrite sweep_lookup. destruct (jobs m !! i) as [j|]; [|done].
  by destruct (is_expired _ _ _).
Qed.

Lemma sweep_inv now m : jobs_inv m -> jobs_inv (sweep now m).2.
Proof.
  intros H. pose proof (sweep_subseteq now m) as Hsub. split.
  - pose proof (running_subseteq _ _ Hsub) as Hle. pose proof (j_cap _ H).
    unfold running, running_map in *. simpl in *. lia.
  - intros i j Hi Hr. apply (j_task _ H i j); [|done]. by eapply lookup_weaken.
  - intros i Hi. apply (j_ids _ H). destruct Hi as [[x Hx]|Hi]; [left|by right].
    exists x. by eapply lookup_weaken.
  - apply (j_flight _ H).
  - apply (j_next _ H).
Qed.

Lemma step_inv to_text o m m' :
  jobs_inv m -> (next_job m + 1 < u64_modulus)%Z -> step to_text o m = Done m' ->
  jobs_inv m' /\ (next_job m <= next_job m' <= next_job m + 1)%Z /\ max_running m' = max_running m
  /\ result_ttl m' = result_ttl m.
Proof.
  intros H Hn. destruct o as [now db meth params|now id out|now id|now]; simpl.
  - destruct (start to_text now db meth params m) as [[res m1]| |] eqn:Hs; [|done..].
    intros [= <-]. split; [by eapply start_inv|]. unfold start in Hs.
    destruct (_ <=? _)%nat; [injection Hs as _ <-; split; [lia|done]|].
    destruct (summary_of _) as [sm| |]; [|done..]. simpl in Hs. injection Hs as _ <-. simpl.
    pose proof (j_next _ H) as Hk. unfold is_u64 in Hk.
    rewrite wrapping_succ by (unfold is_u64, u64_max; lia). split; [lia|done].
  - case_bool_decide; intros [= <-]; [|split; [done|]; split; [lia|done]].
    split; [by apply complete_inv|]. simpl. split; [lia|done].
  - intros [= <-]. split; [by apply cancel_inv|]. unfold cancel.
    destruct (jobs m !! id) as [j|]; [destruct (job_state j)|]; simpl; (split; [lia|done]).
  - intros [= <-]. split; [by apply sweep_inv|]. simpl. split; [lia|done].
Qed.

Lemma run_inv to_text ops m m' :
  jobs_inv m -> (next_job m + Z.of_nat (length ops) < u64_modulus)%Z -> run to_text ops m = Done m' ->
  jobs_inv m' /\ max_running m' = max_running m /\ result_ttl m' = result_ttl m.
Proof.
  revert m. induction ops as [|o ops IH]; intros m H Hn Hrun; simpl in *; [by injection Hrun as <-|].
  destruct (step to_text o m) as [m1| |] eqn:Hs; [|done..]. simpl in Hrun.
  destruct (step_inv to_text o m m1 H ltac:(lia) Hs) as (H1 & Hb & Em & Et).
  destruct (IH m1 H1 ltac:(lia) Hrun) as (? & ? & ?). split; [done|]. split; congruence.
Qed.

(** C35. The registry invariant, after any sequence of starts, completions,
    cancellations and sweeps: at most [max_running] jobs are in state running
    (and at least one may be), each of them has a task that will store its
    outcome, and no two tasks share an id. *)
Theorem jobs_bounded (to_text : Value -> string) (ops : list op) (max : nat) (ttl id : Z)
    (m : JobManager) :
  is_u64 id -> (id + Z.of_nat (length ops) < u64_modulus)%Z ->
  run to_text ops (JobManager_new max ttl id) = Done m ->
  (running m <= Nat.max max 1)%nat
  /\ (forall i j, jobs m !! i = Some j -> job_state j = Running -> i ∈ in_flight m)
  /\ NoDup (in_flight m).
Proof.
  intros Hid Hn Hrun.
  destruct (run_inv to_text ops _ m (jobs_inv_new max ttl id Hid) Hn Hrun) as (H & Em & _).
  cbn [max_running JobManager_new] in Em. split; [rewrite <- Em; apply (j_cap _ H)|]. split; [|apply (j_flight _ H)].
  intros i j Hj Hr. apply (j_task _ H i j Hj). by apply is_running_iff.
Qed.

Definition demo_ops : list op :=
  [OStart 0 "db1" "deep" JNull; OStart 1 "db1" "index" JNull; OCancel 5 "job1";
   OComplete 9 "job1" (Ok (JBool true)); OSweep 200].

Lemma jobs_bounded_witness :
  exists m, run ascii_text demo_ops (JobManager_new 2 100 1) = Done m /\ (running m <= 2)%nat.
Proof.
  destruct (run ascii_text demo_ops (JobManager_new 2 100 1)) as [m| |] eqn:Hrun;
    [|vm_compute in Hrun; discriminate Hrun..].
  exists m. split; [reflexivity|].
  refine (proj1 (jobs_bounded ascii_text demo_ops 2 100 1 m _ _ Hrun)); vm_compute; split; congruence.
Defined.

(** Results are not lost: once the task of a job has stored its outcome,
    the job stays readable exactly as it is through any later operations, as
    long as each sweep comes less than a TTL after the job finished. *)
Theorem job_result_kept (to_text : Value -> string) (ops : list op) (m m' : JobManager)
    (id : string) (j : Job) (f : Z) :
  jobs_inv m -> (next_job m + Z.of_nat (length ops) < u64_modulus)%Z ->
  jobs m !! id = Some j -> id ∉ in_flight m -> finished j = Some f -> (0 < result_ttl m)%Z ->
  Forall (fun o => match o with OSweep now => (now - f < result_ttl m)%Z | _ => True end) ops ->
  run to_text ops m = Done m' ->
  jobs m' !! id = Some j.
Proof.
  revert m. induction ops as [|o ops IH]; intros m H Hn Hj Hfl Hf Httl Hops Hrun.
  { simpl in Hrun. by injection Hrun as <-. }
  simpl in Hrun, Hn. inversion_clear Hops as [|? ? Ho Hops'].
  destruct (step to_text o m) as [m1| |] eqn:Hs; [|done..]. simpl in Hrun.
  destruct (step_inv to_text o m m1 H ltac:(lia) Hs) as (H1 & Hb & _ & Et).
  assert (is_running j = false) as Hstop.
  { apply not_true_iff_false. intros Hr. apply Hfl. by apply (j_task _ H id j). }
  assert (jobs m1 !! id = Some j /\ id ∉ in_flight m1) as [Hj1 Hfl1].
  { destruct o as [now db meth params|now i out|now i|now]; cbn [step] in Hs.
    - destruct (start to_text now db meth params m) as [[res m2]| |] eqn:Hst; [|done..].
      cbn [obind] in Hs. injection Hs as <-. unfold start in Hst.
      destruct (_ <=? _)%nat; [by injection Hst as _ <-|].
      destruct (summary_of _) as [sm| |]; [|done..]. simpl in Hst. injection Hst as _ <-. simpl.
      assert (id <> job_id (next_job m)) as Hne.
      { destruct (j_ids _ H id ltac:(eauto)) as (k & Hk & ->). intros E.
        pose proof (j_next _ H). unfold is_u64 in *. apply job_id_inj in E; unfold is_u64; lia. }
      rewrite lookup_insert_ne by (intros <-; by apply Hne). split; [done|].
      rewrite elem_of_app, list_elem_of_singleton. intros [?|?]; done.
    - case_bool_decide as Hi; injection Hs as <-; [|done]. unfold complete. simpl.
      assert (id <> i) by congruence. split; [|rewrite list_elem_of_filter; tauto].
      destruct (jobs m !! i); [|done]. by rewrite lookup_insert_ne.
    - injection Hs as <-. unfold cancel. destruct (jobs m !! i) as [ji|] eqn:Hi; [|done].
      destruct (job_state ji) eqn:Hst; [|done..]. simpl. rewrite lookup_insert_ne; [done|].
      intros ->. assert (ji = j) as -> by congruence. by rewrite (proj2 (is_running_iff j) Hst) in Hstop.
    - assert (m1 = (sweep now m).2) as -> by congruence. rewrite sweep_lookup, Hj. split; [|done].
      unfold is_expired. rewrite Hstop, Hf. simpl. unfold elapsed.
      destruct (Z.leb_spec (result_ttl m) (Z.max 0 (now - f))); [lia|done]. }
  apply (IH m1); try done; [lia|congruence|]. by rewrite Et.
Qed.

Lemma job_result_kept_witness :
  exists m m' j, run ascii_text [OStart 0 "db1" "deep" JNull; OComplete 9 "job1" (Ok (JBool true))]
      (JobManager_new 2 100 1) = Done m
    /\ run ascii_text [OSweep 50; OStart 60 "db1" "index" JNull] m = Done m'
    /\ jobs m' !! "job1" = Some j /\ job_state j = JobDone (JBool true).
Proof.
  destruct (run ascii_text [OStart 0 "db1" "deep" JNull; OComplete 9 "job1" (Ok (JBool true))]
    (JobManager_new 2 100 1)) as [m| |] eqn:Hrun; [|vm_compute in Hrun; discriminate Hrun..].
  assert (jobs_inv m) as Hinv.
  { refine (proj1 (run_inv _ _ _ _ (jobs_inv_new 2 100 1 _) _ Hrun)); vm_compute; split; congruence. }
  destruct (run ascii_text [OSweep 50; OStart 60 "db1" "index" JNull] m) as [m'| |] eqn:Hrun'.
  2, 3: vm_compute in Hrun; injection Hrun as <-; vm_compute in Hrun'; discriminate Hrun'.
  exists m, m', {| job_db := "db1"; method := "deep"; summary := "{}"; job_state := JobDone (JBool true);
                   started := 0; finished := Some 9%Z |}.
  split; [reflexivity|]. split; [exact Hrun'|]. split; [|reflexivity].
  apply (job_result_kept ascii_text [OSweep 50; OStart 60 "db1" "index" JNull] m m' "job1" _ 9 Hinv);
    try exact Hrun'; vm_compute in Hrun; injection Hrun as <-.
  - reflexivity.
  - reflexivity.
  - apply not_elem_of_nil.
  - reflexivity.
  - reflexivity.
  - repeat constructor.
Defined.

(** Cancelling does not discard the outcome: when the call of a cancelled
    job returns, its task overwrites the state, and the job reads as done with
    the full result, where the documentation and the cancel response promise
    that it is discarded. *)
Theorem cancel_does_not_discard (m : JobManager) (id : string) (j : Job) (t1 t2 now : Z) (v : Value) :
  jobs m !! id = Some j -> job_state j = Running -> id ∈ in_flight m ->
  status_of <$> jobs (cancel t1 id m).2 !! id = Some "cancelled"
  /\ step (fun _ => "") (OComplete t2 id (Ok v)) (cancel t1 id m).2
     = Done (complete t2 id (Ok v) (cancel t1 id m).2)
  /\ exists w, result now id (complete t2 id (Ok v) (cancel t1 id m).2) = Ok w
       /\ index w "status" = JStr "done" /\ index w "result" = v.
Proof.
  intros Hj Hr Hfl. unfold cancel. rewrite Hj, Hr. simpl. rewrite lookup_insert_eq.
  split; [done|]. rewrite bool_decide_true by done. split; [done|].
  unfold result, complete. simpl. rewrite !lookup_insert_eq. simpl.
  eexists. split; [done|]. split; reflexivity.
Qed.

Lemma cancel_does_not_discard_witness :
  exists m, run ascii_text [OStart 0 "db1" "deep" JNull] (JobManager_new 2 100 1) = Done m
    /\ status_of <$> jobs (cancel 5 "job1" m).2 !! "job1" = Some "cancelled".
Proof.
  destruct (run ascii_text [OStart 0 "db1" "deep" JNull] (JobManager_new 2 100 1)) as [m| |] eqn:Hrun;
    [|vm_compute in Hrun; discriminate Hrun..].
  exists m. split; [reflexivity|].
  refine (proj1 (cancel_does_not_discard m "job1" {| job_db := "db1"; method := "deep"; summary := "{}";
    job_state := Running; started := 0; finished := None |} 5 9 10 JNull _ _ _));
    vm_compute in Hrun; injection Hrun as <-.
  - reflexivity.
  - reflexivity.
  - left.
Defined.

(** Start a job and cancel it, [k] times. *)
Fixpoint start_cancel (k : nat) (id : Z) : list op :=
  match k with
  | O => []
  | S k' => OStart 0 "db1" "deep" JNull :: OCancel 0 (job_id id) :: start_cancel k' (id + 1)
  end.

Lemma start_cancel_step m :
  jobs_inv m -> running m = 0%nat -> max_running m = 1%nat -> (next_job m + 1 < u64_modulus)%Z ->
  exists m1 m2, step ascii_text (OStart 0 "db1" "deep" JNull) m = Done m1
    /\ step ascii_text (OCancel 0 (job_id (next_job m))) m1 = Done m2
    /\ in_flight m2 = in_flight m ++ [job_id (next_job m)] /\ running m2 = 0%nat
    /\ max_running m2 = 1%nat /\ next_job m2 = (next_job m + 1)%Z /\ jobs_inv m2.
Proof.
  intros H Hr Hmax Hn. pose proof (j_next _ H) as Hk. unfold is_u64 in Hk.
  destruct (step ascii_text (OStart 0 "db1" "deep" JNull) m) as [m1| |] eqn:Hs.
  2, 3: cbn in Hs; unfold start in Hs; rewrite Hr, Hmax in Hs; discriminate Hs.
  destruct (step_inv _ _ _ _ H Hn Hs) as (H1 & _).
  cbn in Hs. unfold start in Hs. rewrite Hr, Hmax in Hs. cbn in Hs. injection Hs as <-.
  change (Handle_to_string {| prefix := "job"; n := next_job m |}) with (job_id (next_job m)) in *.
  eexists _, _. split; [done|]. split; [done|].
  rewrite wrapping_succ in * by (unfold is_u64, u64_max; lia).
  pose proof (cancel_inv 0 (job_id (next_job m)) _ H1) as H2. revert H2.
  unfold cancel. cbn [jobs]. rewrite lookup_insert_eq. cbn [job_state snd]. intros H2.
  split; [done|]. split; [|done]. unfold running in *. cbn [jobs set_jobs].
  rewrite insert_insert_eq. apply Nat.le_0_r. rewrite <- Hr. by apply running_insert_stopped.
Qed.

Lemma start_cancel_run k m :
  jobs_inv m -> running m = 0%nat -> max_running m = 1%nat ->
  (next_job m + Z.of_nat k < u64_modulus)%Z ->
  exists m', run ascii_text (start_cancel k (next_job m)) m = Done m'
    /\ length (in_flight m') = (length (in_flight m) + k)%nat /\ running m' = 0%nat.
Proof.
  revert m. induction k as [|k IH]; intros m H Hr Hmax Hn.
  { exists m. split; [done|]. split; [lia|done]. }
  destruct (start_cancel_step m H Hr Hmax ltac:(lia)) as (m1 & m2 & Hs1 & Hs2 & Hfl & Hr2 & Hm2 & Hnx & H2).
  cbn [start_cancel run]. rewrite Hs1. cbn [obind]. rewrite Hs2. cbn [obind]. rewrite <- Hnx.
  destruct (IH m2 H2 Hr2 Hm2 ltac:(lia)) as (m' & Hrun & Hlen & Hr'). exists m'.
  split; [done|]. split; [|done]. rewrite Hlen, Hfl, length_app. simpl. lia.
Qed.

(** Tasks are not bounded by [max_running]: with a limit of one job,
    starting and cancelling [k] times leaves [k] tasks in flight, none of
    which counts as running. *)
Theorem cancel_unbounds_tasks (k : nat) (ttl : Z) :
  (1 + Z.of_nat k < u64_modulus)%Z ->
  exists m, run ascii_text (start_cancel k 1) (JobManager_new 1 ttl 1) = Done m
    /\ length (in_flight m) = k /\ running m = 0%nat.
Proof.
  intros Hk. apply (start_cancel_run k (JobManager_new 1 ttl 1)); try done.
  apply jobs_inv_new. by vm_compute.
Qed.

Lemma cancel_unbounds_tasks_witness :
  exists m, run ascii_text (start_cancel 5 1) (JobManager_new 1 100 1) = Done m
    /\ length (in_flight m) = 5%nat.
Proof.
  destruct (cancel_unbounds_tasks 5 100) as (m & Hrun & Hlen & _); [reflexivity|].
  exists m. split; [exact Hrun|exact Hlen].
Defined.

(** The summary cut can panic: a job whose serialized parameters exceed
    200 bytes with byte 200 inside a multi-byte character is never registered,
    the handler panics instead; with a boundary there, or up to 200 bytes, it
    never does. *)
Theorem start_panics_inside_char (to_text : Value -> string) (now : Z) (db meth : string)
    (params : Value) (m : JobManager) :
  (running m < max_running m)%nat ->
  (start to_text now db meth params m = Panic <->
     (200 < String.length (to_text params))%nat /\ is_char_boundary (to_text params) 200 = false).
Proof.
  intros Hr. unfold start. destruct (Nat.leb_spec (max_running m) (running m)); [lia|].
  unfold summary_of, slice_to. destruct (Nat.ltb_spec 200 (String.length (to_text params))) as [Hl|Hl].
  - destruct (is_char_boundary (to_text params) 200); simpl; split; try done. by intros [_ ?].
  - simpl. split; [done|]. lia.
Qed.

(** 199 spaces and a two-byte character. *)
Definition accented : string :=
  String.concat "" (repeat " " 199) +:+ String "195"%char (String "169"%char "").

Lemma start_panics_inside_char_witness :
  start (fun _ => accented) 0 "db1" "deep" JNull (JobManager_new 1 100 1) = Panic.
Proof.
  apply (start_panics_inside_char (fun _ => accented) 0 "db1" "deep" JNull (JobManager_new 1 100 1)).
  - vm_compute. lia.
  - vm_compute. split; [lia|reflexivity].
Defined.
