(* ===== verification/Bfs.v ===== *)
(** * Bfs: layered search over a relation

    The searches over the call graph all expand a frontier level by level and
    remember what they have seen.  This file holds the invariant of such a
    search, over any relation [R] and any list of starting points, and that it
    decides bounded distance. *)

From stdpp Require Import base list gmap relations.
From Stdlib Require Import ZArith Lia.
From S2P Require Import Prelude.

Section Layers.
Context (R : Z -> Z -> Prop) (start : list Z).

(** At most [i] steps from a starting point. *)
Definition within (i : nat) (x : Z) : Prop :=
  exists r k, r ∈ start /\ (k <= i)%nat /\ nsteps R k r x.

Lemma within_le i j x : (i <= j)%nat -> within i x -> within j x.
Proof. intros Hij (r & k & Hr & Hk & Hp). exists r, k. split; [done|]. split; [lia|done]. Qed.

Lemma within_step i x y : within i x -> R x y -> within (S i) y.
Proof. intros (r & k & Hr & Hk & Hp) Hxy. exists r, (S k). split; [done|]. split; [lia|]. by eapply nsteps_r. Qed.

Lemma within_inv i x : within (S i) x -> within i x \/ exists y, within i y /\ R y x.
Proof.
  intros (r & k & Hr & Hk & Hp). destruct (decide (k <= i)%nat); [left; by exists r, k|].
  right. assert (k = S i) as -> by lia. apply nsteps_inv_r in Hp as (y & Hy & HR).
  exists y. split; [|done]. exists r, i. done.
Qed.

(** After [i] rounds: [P] has been expanded, [fr] is to be expanded. *)
Record layers (i : nat) (P : gset Z) (fr : list Z) (seen : gset Z) : Prop := {
  layers_split x : x ∈ seen <-> x ∈ P \/ x ∈ fr;
  layers_closed x y : x ∈ P -> R x y -> y ∈ seen;
  layers_seen x : x ∈ seen <-> within i x;
  layers_expanded j x : (j < i)%nat -> within j x -> x ∈ P;
}.

Lemma layers_start : layers 0 ∅ start (list_to_set start).
Proof using Type.
  split.
  - set_solver.
  - set_solver.
  - intros x. rewrite elem_of_list_to_set. split.
    + intros Hx. exists x, 0%nat. split; [done|]. split; [done|constructor].
    + intros (r & k & Hr & Hk & Hp). assert (k = 0%nat) as -> by lia. by inversion Hp; subst.
  - lia.
Qed.

(** One round: the successors of the frontier are seen, the new ones are next. *)
Lemma layers_round i P fr seen seen' next :
  layers i P fr seen ->
  (forall x, x ∈ seen' <-> x ∈ seen \/ exists y, y ∈ fr /\ R y x) ->
  (forall x, x ∈ next <-> (exists y, y ∈ fr /\ R y x) /\ x ∉ seen) ->
  layers (S i) seen next seen'.
Proof using Type.
  intros [split closed reached expanded] Hs Hn. constructor.
  - intros x. rewrite Hs, Hn. destruct (decide (x ∈ seen)); tauto.
  - intros x y [Hx|Hx]%split HR; rewrite Hs; [left; eauto|right; eauto].
  - intros x. rewrite Hs. split.
    + intros [Hx|(y & Hy & HR)]; [apply reached in Hx; eapply within_le; [|done]; lia|].
      eapply within_step; [|done]. apply reached, split. by right.
    + intros [Hx|(y & Hy & HR)]%within_inv; [left; by apply reached|].
      apply reached, split in Hy as [Hy|Hy]; [left; eauto|right; eauto].
  - intros j x Hj Hx. apply reached. eapply within_le; [|done]. lia.
Qed.

(** A round that finds nothing new has seen everything reachable. *)
Lemma layers_settled i P seen : layers i P [] seen -> forall j x, within j x -> x ∈ seen.
Proof using Type.
  intros [split closed reached _] j. induction j as [|j IH]; intros x Hx.
  - apply reached. eapply within_le; [|done]. lia.
  - apply within_inv in Hx as [Hx|(y & Hy & HR)]; [by apply IH|].
    apply (closed y x); [|done]. apply IH, split in Hy as [Hy|Hy]; [done|]. inversion Hy.
Qed.
End Layers.

(** One starting point. *)
Lemma within_singleton R root i x :
  within R [root] i x <-> exists k, (k <= i)%nat /\ nsteps R k root x.
Proof.
  split.
  - intros (r & k & ->%list_elem_of_singleton & Hk & Hp). eauto.
  - intros (k & Hk & Hp). exists root, k. split; [by apply list_elem_of_singleton|done].
Qed.
