(* ===== verification/Index.v ===== *)
(** * Index: the analysis index and its evidence queries

    Models [rmcp-core/src/analysis_index.rs]: the facts kept per function, the
    predicate language, bounded call reachability and [query].  The
    [BTreeMap] of functions is a [gmap] iterated in address order
    ([btree_values]).  [to_lowercase] (Unicode lowercasing of the standard
    library) is a parameter about which nothing is assumed.  Persistence of
    the index on disk is in [IndexFile]. *)

From stdpp Require Import base list gmap strings sorting relations.
From Stdlib Require Import ZArith Lia.
From S2P Require Import Prelude Text Json Bfs.

Local Open Scope rmcp_scope.

Definition INDEX_SCHEMA_VERSION : Z := 1.

Record FunctionFacts := {
  ff_start : Z;
  ff_end : Z;
  ff_name : string;
  demangled : string;
  ff_size : Z;
  imports : list string;
  ff_strings : list string;
  constants : list Z;
  indirect_calls : Z;
  callees : list Z;
  callers : list Z;
  globals : list Z;
}.

Record IndexedString := { str_ea : Z; text : string; refs : list Z }.

Record AnalysisIndex := {
  schema_version : Z;
  binary_md5 : string;
  idx_revision : Z;
  functions : gmap Z FunctionFacts;
  idx_strings : list IndexedString;
}.

(** [map.iter()] and [map.values()] of a [BTreeMap<u64, _>]: by increasing key. *)
Definition btree_iter {A} (m : gmap Z A) : list (Z * A) := sort_by_key fst (map_to_list m).
Definition btree_values {A} (m : gmap Z A) : list A := snd <$> btree_iter m.

Inductive Predicate :=
  | NameContains (needle : string)
  | Import (name : string)
  | StringContains (needle : string)
  | HasIndirectCalls (min : Z)
  | Constant (v : Z)
  | CalleeMatches (inner : Predicate)
  | CallerMatches (inner : Predicate)
  | All (inner : list Predicate)
  | Any (inner : list Predicate)
  | Not (inner : Predicate)
  | ReachableFrom (root_ea levels : Z).

(** ** Bounded reachability *)

(** [for c in &f.callees]: [None] when the target is met. *)
Fixpoint scan_callees (target : Z) (cs : list Z) (seen : gset Z) (next : list Z)
  : option (gset Z * list Z) :=
  match cs with
  | [] => Some (seen, next)
  | c :: cs' =>
      if bool_decide (c = target) then None
      else if bool_decide (c ∈ seen) then scan_callees target cs' seen next
      else scan_callees target cs' ({[c]} ∪ seen) (next ++ [c])
  end.

(** [for ea in &frontier]. *)
Fixpoint scan_frontier (idx : AnalysisIndex) (target : Z) (fr : list Z) (seen : gset Z) (next : list Z)
  : option (gset Z * list Z) :=
  match fr with
  | [] => Some (seen, next)
  | ea :: fr' =>
      match functions idx !! ea with
      | None => scan_frontier idx target fr' seen next
      | Some f =>
          match scan_callees target (callees f) seen next with
          | None => None
          | Some (seen', next') => scan_frontier idx target fr' seen' next'
          end
      end
  end.

(** [for _ in 0..levels]. *)
Fixpoint reach_levels (idx : AnalysisIndex) (target : Z) (levels : nat) (fr : list Z) (seen : gset Z) : bool :=
  match levels with
  | O => false
  | S levels' =>
      match scan_frontier idx target fr seen [] with
      | None => true
      | Some (seen', next) => reach_levels idx target levels' next seen'
      end
  end.

Definition reachable (idx : AnalysisIndex) (root levels target : Z) : bool :=
  reach_levels idx target (Z.to_nat levels) [root] {[root]}.

(** ** Matching and querying *)

Section Query.
Context (to_lowercase : string -> string).

Definition non_empty (hits : list string) : option (list string) :=
  match hits with [] => None | _ => Some hits end.

(** The loop of [CalleeMatches] and [CallerMatches]: the first related
    function that matches, its address in front of its evidence. *)
Fixpoint first_related (label : string) (m : FunctionFacts -> option (list string))
    (fs : gmap Z FunctionFacts) (eas : list Z) : option (list string) :=
  match eas with
  | [] => None
  | ea :: eas' =>
      match g ← fs !! ea; m g with
      | Some ev => Some ((label +:+ show_0x ea) :: ev)
      | None => first_related label m fs eas'
      end
  end.

Fixpoint matches (p : Predicate) (idx : AnalysisIndex) (f : FunctionFacts) : option (list string) :=
  match p with
  | NameContains needle =>
      let needle := to_lowercase needle in
      if contains needle (to_lowercase (ff_name f)) || contains needle (to_lowercase (demangled f))
      then Some ["name:" +:+ ff_name f] else None
  | Import name =>
      non_empty ((fun i => "import:" +:+ i) <$> filter (fun i => eq_ignore_ascii_case i name = true) (imports f))
  | StringContains needle =>
      let needle := to_lowercase needle in
      non_empty ((fun s => "string:" +:+ s)
        <$> filter (fun s => contains needle (to_lowercase s) = true) (ff_strings f))
  | HasIndirectCalls min =>
      if (min <=? indirect_calls f)%Z then Some ["indirect_calls:" +:+ show_dec (indirect_calls f)] else None
  | Constant v => if bool_decide (v ∈ constants f) then Some ["constant:" +:+ show_0x v] else None
  | CalleeMatches inner => first_related "callee:" (matches inner idx) (functions idx) (callees f)
  | CallerMatches inner => first_related "caller:" (matches inner idx) (functions idx) (callers f)
  | All inner =>
      (fix go ps ev := match ps with
        | [] => Some ev
        | p :: ps' => match matches p idx f with Some e => go ps' (ev ++ e) | None => None end
        end) inner []
  | Any inner =>
      (fix go ps := match ps with
        | [] => None
        | p :: ps' => match matches p idx f with Some e => Some e | None => go ps' end
        end) inner
  | Not inner => match matches inner idx f with None => Some ["not:<predicate>"] | Some _ => None end
  | ReachableFrom root_ea levels =>
      if reachable idx root_ea levels (ff_start f)
      then Some ["reachable_from:" +:+ show_0x root_ea +:+ " within " +:+ show_dec levels +:+ " levels"]
      else None
  end.

Record EvidenceQuery := { q_all : option (list Predicate); q_limit : Z }.
Definition default_limit : Z := 20.

Record EvidenceHit := {
  hit_function : string; hit_start : Z; hit_end : Z; score : nat; matched : list string }.

(** The loop over the predicates: the evidence, [None] when one fails. *)
Fixpoint match_all (ps : list Predicate) (idx : AnalysisIndex) (f : FunctionFacts) (ev : list string)
  : option (list string) :=
  match ps with
  | [] => Some ev
  | p :: ps' => match matches p idx f with Some e => match_all ps' idx f (ev ++ e) | None => None end
  end.

Definition hit_of (ps : list Predicate) (idx : AnalysisIndex) (f : FunctionFacts) : option EvidenceHit :=
  match match_all ps idx f [] with
  | Some (e :: ev) => Some {| hit_function := ff_name f; hit_start := ff_start f; hit_end := ff_end f;
                              score := S (length ev); matched := e :: ev |}
  | _ => None
  end.

(** The loop over the functions, left at the limit. *)
Fixpoint collect (ps : list Predicate) (idx : AnalysisIndex) (limit : nat) (fs : list FunctionFacts)
    (hits : list EvidenceHit) : list EvidenceHit :=
  match fs with
  | [] => hits
  | f :: fs' =>
      let hits' := match hit_of ps idx f with Some h => hits ++ [h] | None => hits end in
      if (limit <=? length hits')%nat then hits' else collect ps idx limit fs' hits'
  end.

Definition query_limit (q : EvidenceQuery) : nat := Z.to_nat (Z.max 1 (Z.min 1000 (q_limit q))).

Definition query (idx : AnalysisIndex) (q : EvidenceQuery) : list EvidenceHit :=
  sort_by_key (fun h => - Z.of_nat (score h))%Z
    (collect (default [] (q_all q)) idx (query_limit q) (btree_values (functions idx)) []).

Definition summary (idx : AnalysisIndex) : Value :=
  JObj [("schema_version", JNum (schema_version idx)); ("binary_md5", JStr (binary_md5 idx));
        ("revision", JNum (idx_revision idx)); ("functions", jnat (size (functions idx)));
        ("strings", jnat (length (idx_strings idx)))].
End Query.

(** ** Reachability is bounded call distance *)

(** [y] is listed as a callee of the indexed function [x]. *)
Definition calls (idx : AnalysisIndex) (x y : Z) : Prop :=
  exists f, functions idx !! x = Some f /\ y ∈ callees f.

Lemma scan_callees_None target cs seen next :
  scan_callees target cs seen next = None <-> target ∈ cs.
Proof.
  revert seen next. induction cs as [|c cs IH]; intros seen next; cbn [scan_callees].
  { split; [done|]. intros H. inversion H. }
  rewrite elem_of_cons. case_bool_decide as Hc; [by subst; tauto|].
  case_bool_decide; rewrite IH; naive_solver.
Qed.

Lemma scan_callees_Some target cs seen next seen' next' :
  scan_callees target cs seen next = Some (seen', next') ->
  (forall x, x ∈ seen' <-> x ∈ seen \/ x ∈ cs)
  /\ (forall x, x ∈ next' <-> x ∈ next \/ (x ∈ cs /\ x ∉ seen)).
Proof.
  revert seen next. induction cs as [|c cs IH]; intros seen next; cbn [scan_callees].
  { intros [= <- <-]. split; intros x; rewrite elem_of_nil; tauto. }
  case_bool_decide as Hc; [done|]. case_bool_decide as Hs; intros [H1 H2]%IH; split; intros x.
  - rewrite H1, elem_of_cons. naive_solver.
  - rewrite H2, elem_of_cons. naive_solver.
  - rewrite H1, elem_of_cons, elem_of_union, elem_of_singleton. tauto.
  - rewrite H2, elem_of_cons, elem_of_app, list_elem_of_singleton, elem_of_union, elem_of_singleton.
    destruct (decide (x = c)); naive_solver.
Qed.

Lemma scan_frontier_None idx target fr seen next :
  scan_frontier idx target fr seen next = None <-> exists x, x ∈ fr /\ calls idx x target.
Proof.
  revert seen next. induction fr as [|ea fr IH]; intros seen next; cbn [scan_frontier].
  { split; [done|]. intros (x & Hx & _). inversion Hx. }
  assert (forall P : Z -> Prop, (exists x, x ∈ ea :: fr /\ P x) <-> P ea \/ exists x, x ∈ fr /\ P x) as Hcons.
  { intros P. setoid_rewrite elem_of_cons. naive_solver. }
  rewrite Hcons. destruct (functions idx !! ea) as [f|] eqn:Hf.
  - assert (calls idx ea target <-> target ∈ callees f) as Hcall.
    { unfold calls. rewrite Hf. naive_solver. }
    rewrite Hcall. destruct (scan_callees target (callees f) seen next) as [[s' n']|] eqn:Hs.
    + rewrite IH. assert (target ∉ callees f) as Hn.
      { intros Hin. apply (scan_callees_None _ _ seen next) in Hin. congruence. }
      tauto.
    + apply scan_callees_None in Hs. tauto.
  - rewrite IH. assert (~ calls idx ea target) as Hn by (intros (f & Hf' & _); congruence). tauto.
Qed.

Lemma scan_frontier_Some idx target fr seen next seen' next' :
  scan_frontier idx target fr seen next = Some (seen', next') ->
  (forall x, x ∈ seen' <-> x ∈ seen \/ exists y, y ∈ fr /\ calls idx y x)
  /\ (forall x, x ∈ next' <-> x ∈ next \/ ((exists y, y ∈ fr /\ calls idx y x) /\ x ∉ seen)).
Proof.
  revert seen next. induction fr as [|ea fr IH]; intros seen next; cbn [scan_frontier].
  { intros [= <- <-]. split; intros x; setoid_rewrite elem_of_nil; naive_solver. }
  assert (forall P : Z -> Prop, (exists x, x ∈ ea :: fr /\ P x) <-> P ea \/ exists x, x ∈ fr /\ P x) as Hcons.
  { intros P. setoid_rewrite elem_of_cons. naive_solver. }
  destruct (functions idx !! ea) as [f|] eqn:Hf.
  - destruct (scan_callees target (callees f) seen next) as [[s1 n1]|] eqn:Hs; [|done].
    apply scan_callees_Some in Hs as [Hs1 Hn1]. intros [H1 H2]%IH.
    assert (forall x, calls idx ea x <-> x ∈ callees f) as Hcall.
    { intros x. unfold calls. rewrite Hf. naive_solver. }
    split; intros x; [rewrite H1|rewrite H2]; rewrite Hcons, Hcall, Hs1, ?Hn1; [tauto|].
    destruct (decide (x ∈ callees f)); tauto.
  - intros [H1 H2]%IH.
    assert (forall x, ~ calls idx ea x) as Hn by (intros x (g & Hg & _); congruence).
    split; intros x; [rewrite H1|rewrite H2]; rewrite Hcons; specialize (Hn x); tauto.
Qed.

Lemma scan_round idx root target i P fr seen seen' next :
  layers (calls idx) [root] i P fr seen -> scan_frontier idx target fr seen [] = Some (seen', next) ->
  layers (calls idx) [root] (S i) seen next seen'.
Proof.
  intros Hl [Hs Hn]%scan_frontier_Some. eapply layers_round; [exact Hl|exact Hs|].
  intros x. rewrite Hn, elem_of_nil. tauto.
Qed.

Lemma reach_levels_spec idx root target levels i P fr seen :
  layers (calls idx) [root] i P fr seen -> (forall x, x ∈ P -> ~ calls idx x target) ->
  reach_levels idx target levels fr seen = true
  <-> exists k, (1 <= k <= i + levels)%nat /\ nsteps (calls idx) k root target.
Proof.
  revert i P fr seen. induction levels as [|levels IH]; intros i P fr seen Hl Hfree; cbn [reach_levels].
  - split; [done|]. intros (k & Hk & Hp). exfalso. destruct k as [|k]; [lia|].
    apply nsteps_inv_r in Hp as (z & Hz & Hc). apply (Hfree z); [|done].
    eapply (layers_expanded _ _ _ _ _ _ Hl k); [lia|]. apply within_singleton. eauto.
  - destruct (scan_frontier idx target fr seen []) as [[seen' next]|] eqn:Hscan.
    + rewrite (IH (S i) seen next seen' (scan_round _ _ _ _ _ _ _ _ _ Hl Hscan)).
      { by setoid_rewrite <- (Nat.add_succ_comm i levels). }
      intros x [Hx|Hx]%(layers_split _ _ _ _ _ _ Hl) Hc; [by eapply Hfree|].
      enough (scan_frontier idx target fr seen [] = None) by congruence.
      apply scan_frontier_None. eauto.
    + split; [intros _|done]. apply scan_frontier_None in Hscan as (x & Hx & Hc).
      assert (within (calls idx) [root] i x) as (k & Hk & Hp)%within_singleton.
      { apply (layers_seen _ _ _ _ _ _ Hl), (layers_split _ _ _ _ _ _ Hl). by right. }
      exists (S k). split; [lia|]. eapply nsteps_r; eauto.
Qed.

Lemma reachable_spec idx root levels target :
  reachable idx root levels target = true
  <-> exists k, (1 <= k)%nat /\ (Z.of_nat k <= levels)%Z /\ nsteps (calls idx) k root target.
Proof.
  unfold reachable.
  assert ({[root]} = list_to_set (C := gset Z) [root]) as -> by set_solver.
  rewrite (reach_levels_spec _ _ _ _ 0 ∅ _ _ (layers_start _ _)) by set_solver.
  split; intros (k & Hk); exists k; intuition lia.
Qed.

(** Bounded reachability is bounded call distance: the breadth-first search
    answers yes exactly when some chain of at least one and at most [levels]
    calls leads from the root to the function, whatever the shape of the call
    graph (cycles, callees that are not indexed). *)
Theorem reachable_correct (idx : AnalysisIndex) (root levels target : Z) :
  reachable idx root levels target = true
  <-> exists k, (1 <= k)%nat /\ (Z.of_nat k <= levels)%Z /\ nsteps (calls idx) k root target.
Proof. apply reachable_spec. Qed.

(** ** The meaning of a predicate *)

Section Meaning.
Context (to_lowercase : string -> string).

Fixpoint holds (p : Predicate) (idx : AnalysisIndex) (f : FunctionFacts) : Prop :=
  match p with
  | NameContains needle =>
      contains (to_lowercase needle) (to_lowercase (ff_name f)) = true
      \/ contains (to_lowercase needle) (to_lowercase (demangled f)) = true
  | Import name => exists i, i ∈ imports f /\ eq_ignore_ascii_case i name = true
  | StringContains needle =>
      exists s, s ∈ ff_strings f /\ contains (to_lowercase needle) (to_lowercase s) = true
  | HasIndirectCalls min => (min <= indirect_calls f)%Z
  | Constant v => v ∈ constants f
  | CalleeMatches q => exists ea g, ea ∈ callees f /\ functions idx !! ea = Some g /\ holds q idx g
  | CallerMatches q => exists ea g, ea ∈ callers f /\ functions idx !! ea = Some g /\ holds q idx g
  | All ps => (fix go ps := match ps with [] => True | p :: ps' => holds p idx f /\ go ps' end) ps
  | Any ps => (fix go ps := match ps with [] => False | p :: ps' => holds p idx f \/ go ps' end) ps
  | Not q => ~ holds q idx f
  | ReachableFrom root levels =>
      exists k, (1 <= k)%nat /\ (Z.of_nat k <= levels)%Z /\ nsteps (calls idx) k root (ff_start f)
  end.

(** Induction over predicates, through the lists of [All] and [Any]. *)
Definition Predicate_nested_ind (Q : Predicate -> Prop)
    (Hname : forall s, Q (NameContains s)) (Himport : forall s, Q (Import s))
    (Hstr : forall s, Q (StringContains s)) (Hind : forall m, Q (HasIndirectCalls m))
    (Hconst : forall v, Q (Constant v)) (Hcallee : forall p, Q p -> Q (CalleeMatches p))
    (Hcaller : forall p, Q p -> Q (CallerMatches p)) (Hall : forall ps, Forall Q ps -> Q (All ps))
    (Hany : forall ps, Forall Q ps -> Q (Any ps)) (Hnot : forall p, Q p -> Q (Not p))
    (Hreach : forall r l, Q (ReachableFrom r l)) : forall p, Q p :=
  fix ind p :=
    let list_ind := fix list_ind ps : Forall Q ps :=
      match ps with [] => Forall_nil_2 Q | p :: ps' => Forall_cons_2 Q p ps' (ind p) (list_ind ps') end in
    match p with
    | NameContains s => Hname s | Import s => Himport s | StringContains s => Hstr s
    | HasIndirectCalls m => Hind m | Constant v => Hconst v
    | CalleeMatches p => Hcallee p (ind p) | CallerMatches p => Hcaller p (ind p)
    | All ps => Hall ps (list_ind ps) | Any ps => Hany ps (list_ind ps)
    | Not p => Hnot p (ind p) | ReachableFrom r l => Hreach r l
    end.

Lemma non_empty_is_Some {A} (g : A -> string) (l : list A) :
  is_Some (non_empty (g <$> l)) <-> exists x, x ∈ l.
Proof.
  destruct l as [|a l]; cbn.
  - split; [by intros [? [=]]|]. intros (x & Hx). inversion Hx.
  - split; [|intros _; by eexists]. intros _. exists a. by left.
Qed.

Lemma first_related_is_Some label m fs eas :
  is_Some (first_related label m fs eas) <-> exists ea g, ea ∈ eas /\ fs !! ea = Some g /\ is_Some (m g).
Proof.
  induction eas as [|ea eas IH]; cbn [first_related].
  { split; [by intros [? [=]]|]. intros (ea & g & Hin & _). inversion Hin. }
  destruct (fs !! ea) as [g|] eqn:Hg; cbn; [destruct (m g) as [ev|] eqn:Hm|].
  - split; [|intros _; by eexists]. intros _. exists ea, g. split; [left|]. by rewrite Hm.
  - rewrite IH. split; intros (x & y & Hx & Hy & Hmy).
    + exists x, y. split; [by right|done].
    + apply elem_of_cons in Hx as [->|Hx]; [|by eauto].
      rewrite Hg in Hy. injection Hy as <-. rewrite Hm in Hmy. by destruct Hmy.
  - rewrite IH. split; intros (x & y & Hx & Hy & Hmy).
    + exists x, y. split; [by right|done].
    + apply elem_of_cons in Hx as [->|Hx]; [congruence|by eauto].
Qed.

Lemma if_is_Some {A} (b : bool) (x : A) : is_Some (if b then Some x else None) <-> b = true.
Proof. destruct b; split; try done; by intros [? [=]]. Qed.

Lemma filter_exists {A} (g : A -> string) (P : A -> bool) (l : list A) :
  is_Some (non_empty (g <$> filter (fun x => P x = true) l)) <-> exists x, x ∈ l /\ P x = true.
Proof.
  rewrite non_empty_is_Some. split; intros (x & Hx); exists x.
  - apply list_elem_of_filter in Hx. tauto.
  - apply list_elem_of_filter. tauto.
Qed.

(** Matching decides the meaning. *)
Lemma matches_iff p idx f : is_Some (matches to_lowercase p idx f) <-> holds p idx f.
Proof.
  revert f. induction p as [s|s|s|m|v|p IH|p IH|ps IH|ps IH|p IH|r l] using Predicate_nested_ind;
    intros f; cbn [matches holds].
  - by rewrite if_is_Some, orb_true_iff.
  - apply (filter_exists _ (fun i => eq_ignore_ascii_case i s)).
  - apply (filter_exists _ (fun x => contains (to_lowercase s) (to_lowercase x))).
  - by rewrite if_is_Some, Z.leb_le.
  - by rewrite if_is_Some, bool_decide_eq_true.
  - rewrite first_related_is_Some. by setoid_rewrite IH.
  - rewrite first_related_is_Some. by setoid_rewrite IH.
  - generalize (@nil string). induction IH as [|p ps Hp _ IHps]; intros ev.
    { split; [done|intros _; by eexists]. }
    specialize (Hp f). destruct (matches to_lowercase p idx f) as [e|].
    + rewrite IHps. split; [|by intros [_ ?]]. intros ?. split; [|done]. by apply Hp.
    + split; [by intros [? [=]]|]. intros [H%Hp _]. by destruct H.
  - induction IH as [|p ps Hp _ IHps].
    { split; [by intros [? [=]]|done]. }
    specialize (Hp f). destruct (matches to_lowercase p idx f) as [e|].
    + split; [|intros _; by eexists]. intros _. left. by apply Hp.
    + rewrite IHps. split; [by right|]. intros [H%Hp|]; [by destruct H|done].
  - specialize (IH f). destruct (matches to_lowercase p idx f) as [e|]; split.
    + by intros [? [=]].
    + intros H. exfalso. by apply H, IH.
    + intros _ H%IH. by destruct H.
    + intros _. by eexists.
  - by rewrite if_is_Some, reachable_spec.
Qed.

(** ** Queries *)

Lemma match_all_is_Some ps idx f ev :
  is_Some (match_all to_lowercase ps idx f ev) <-> Forall (fun p => holds p idx f) ps.
Proof.
  revert ev. induction ps as [|p ps IH]; intros ev; cbn [match_all].
  { split; [constructor|intros _; by eexists]. }
  rewrite Forall_cons, <- matches_iff. destruct (matches to_lowercase p idx f) as [e|].
  - rewrite IH. split; [|tauto]. intros ?. split; [by eexists|done].
  - split; [by intros [? [=]]|]. by intros [[? [=]] _].
Qed.

Lemma match_all_mono ps idx f ev e :
  match_all to_lowercase ps idx f ev = Some e -> (length ev <= length e)%nat.
Proof.
  revert ev. induction ps as [|p ps IH]; intros ev; cbn [match_all]; [by intros [= <-]|].
  destruct (matches to_lowercase p idx f) as [e'|]; [|done]. intros H%IH. rewrite length_app in H. lia.
Qed.

(** A predicate other than [All] and [Any] leaves evidence of its own. *)
Definition concrete (p : Predicate) : bool :=
  match p with All _ | Any _ => false | _ => true end.

Lemma first_related_evidence label m fs eas e :
  first_related label m fs eas = Some e -> (0 < length e)%nat.
Proof.
  induction eas as [|ea eas IH]; cbn [first_related]; [done|].
  destruct (g ← fs !! ea; m g); [intros [= <-]; cbn; lia|done].
Qed.

Lemma concrete_evidence p idx f e :
  concrete p = true -> matches to_lowercase p idx f = Some e -> (0 < length e)%nat.
Proof.
  assert (forall (hits : list string), non_empty hits = Some e -> (0 < length e)%nat) as Hne.
  { intros [|h hits]; [done|]. intros [= <-]. cbn. lia. }
  assert (forall (b : bool) x, (if b then Some [x] else None) = Some e -> (0 < length e)%nat) as Hif.
  { intros [] x; [|done]. intros [= <-]. cbn. lia. }
  destruct p; cbn [concrete matches]; intros Hc; try discriminate Hc;
    eauto using first_related_evidence.
  destruct (matches to_lowercase p idx f); [done|]. intros [= <-]. cbn. lia.
Qed.

Lemma match_all_evidence ps idx f ev e :
  existsb concrete ps = true -> match_all to_lowercase ps idx f ev = Some e -> (0 < length e)%nat.
Proof.
  revert ev. induction ps as [|p ps IH]; intros ev; cbn [match_all existsb]; [done|].
  destruct (matches to_lowercase p idx f) as [e'|] eqn:Hp; [|done].
  intros [Hc|Hc]%orb_true_iff Hm; [|by eapply IH].
  apply concrete_evidence in Hp; [|done]. apply match_all_mono in Hm. rewrite length_app in Hm. lia.
Qed.

Lemma collect_take ps idx limit fs hits :
  (length hits < limit)%nat ->
  collect to_lowercase ps idx limit fs hits = take limit (hits ++ omap (hit_of to_lowercase ps idx) fs).
Proof.
  revert hits. induction fs as [|f fs IH]; intros hits Hl.
  { cbn. rewrite app_nil_r, take_ge by lia. done. }
  cbn [collect omap list_omap].
  destruct (hit_of to_lowercase ps idx f) as [h|].
  - destruct (Nat.leb_spec limit (length (hits ++ [h]))) as [Hle|Hgt].
    + rewrite length_app in Hle. cbn in Hle.
      assert (length (hits ++ [h]) = limit) as Hlim by (rewrite length_app; cbn; lia).
      match goal with |- _ = take _ (_ ++ h :: ?r) =>
        replace (hits ++ h :: r) with ((hits ++ [h]) ++ r) by (by rewrite <- app_assoc) end.
      by rewrite <- Hlim, take_app_length.
    + rewrite IH by done. by rewrite <- app_assoc.
  - rewrite (proj2 (Nat.leb_gt limit (length hits)) Hl). by apply IH.
Qed.

Lemma elem_of_btree_iter {A} (m : gmap Z A) k a : (k, a) ∈ btree_iter m <-> m !! k = Some a.
Proof. unfold btree_iter. rewrite sort_by_key_perm. apply elem_of_map_to_list. Qed.

Lemma elem_of_btree_values {A} (m : gmap Z A) x :
  x ∈ btree_values m <-> exists k, m !! k = Some x.
Proof.
  unfold btree_values, btree_iter. rewrite list_elem_of_fmap. split.
  - intros ([k y] & -> & Hin). rewrite sort_by_key_perm in Hin. exists k. by apply elem_of_map_to_list.
  - intros (k & Hk). exists (k, x). split; [done|]. rewrite sort_by_key_perm. by apply elem_of_map_to_list.
Qed.

Lemma hit_of_Some ps idx f h :
  hit_of to_lowercase ps idx f = Some h ->
  match_all to_lowercase ps idx f [] = Some (matched h) /\ hit_start h = ff_start f
  /\ hit_function h = ff_name f /\ score h = length (matched h) /\ (0 < score h)%nat.
Proof.
  unfold hit_of. destruct (match_all to_lowercase ps idx f []) as [[|e ev]|]; [done| |done].
  intros [= <-]. cbn. repeat (split; [done|]). lia.
Qed.

Lemma hit_of_complete ps idx f :
  existsb concrete ps = true -> Forall (fun p => holds p idx f) ps ->
  is_Some (hit_of to_lowercase ps idx f).
Proof.
  intros Hc [e He]%(match_all_is_Some ps idx f []). unfold hit_of.
  pose proof (match_all_evidence _ _ _ _ _ Hc He) as Hlen. rewrite He. by destruct e; [cbn in Hlen; lia|eexists].
Qed.

Lemma query_take idx q :
  query to_lowercase idx q
  ≡ₚ take (query_limit q) (omap (hit_of to_lowercase (default [] (q_all q)) idx) (btree_values (functions idx))).
Proof.
  unfold query. rewrite sort_by_key_perm, collect_take; [done|]. cbn. unfold query_limit. lia.
Qed.

(** C38. What a query returns: at most [limit] hits (clamped to 1..1000), best
    evidence first, each carrying its non-empty evidence and its count; every
    hit is an indexed function that satisfies all predicates; and when fewer
    than [limit] come back, no function that satisfies them (one of them
    being a concrete predicate) is missing.  When there are more, the first
    [limit] in address order are the ones that are ranked. *)
Theorem query_correct (idx : AnalysisIndex) (q : EvidenceQuery) :
  let ps := default [] (q_all q) in
  let hits := query to_lowercase idx q in
  (length hits <= query_limit q <= 1000)%nat
  /\ StronglySorted (fun a b => (score b <= score a)%nat) hits
  /\ (forall h, h ∈ hits -> score h = length (matched h) /\ (0 < score h)%nat
        /\ exists ea f, functions idx !! ea = Some f /\ hit_start h = ff_start f
             /\ hit_function h = ff_name f /\ Forall (fun p => holds p idx f) ps)
  /\ (existsb concrete ps = true -> (length hits < query_limit q)%nat ->
        forall ea f, functions idx !! ea = Some f -> Forall (fun p => holds p idx f) ps ->
          exists h, h ∈ hits /\ hit_start h = ff_start f)
  /\ hits ≡ₚ take (query_limit q) (omap (hit_of to_lowercase ps idx) (btree_values (functions idx))).
Proof.
  intros ps hits. pose proof (query_take idx q) as Hperm. fold ps hits in Hperm.
  assert (forall h, h ∈ hits -> exists f, f ∈ btree_values (functions idx)
            /\ hit_of to_lowercase ps idx f = Some h) as Hin.
  { intros h. rewrite Hperm. intros (i & [Hi _]%lookup_take_Some)%list_elem_of_lookup.
    apply list_elem_of_lookup_2, list_elem_of_omap in Hi as (f & Hf & Hh). eauto. }
  split; [split; [rewrite Hperm; rewrite length_take; lia|unfold query_limit; lia]|].
  split; [|split; [|split; [|done]]].
  - subst hits. unfold query. eapply StronglySorted_ext; [|apply sort_by_key_sorted].
    unfold key_le. cbn. intros a b _ _ Hab. lia.
  - intros h (f & Hf & Hh)%Hin. apply hit_of_Some in Hh as (Hm & Hs & Hn & Hsc & Hpos).
    split; [done|]. split; [done|]. apply elem_of_btree_values in Hf as (ea & Hea).
    exists ea, f. repeat (split; [done|]). apply (match_all_is_Some _ _ _ []). by eexists.
  - intros Hc Hlt ea f Hea Hall. destruct (hit_of_complete _ _ _ Hc Hall) as [h Hh].
    exists h. split; [|by apply hit_of_Some in Hh as (_ & ? & _)].
    assert (h ∈ omap (hit_of to_lowercase ps idx) (btree_values (functions idx))) as Hho.
    { apply list_elem_of_omap. exists f. split; [|done]. apply elem_of_btree_values. eauto. }
    rewrite Hperm. rewrite Hperm, length_take in Hlt. rewrite take_ge by lia. done.
Qed.
End Meaning.

(** The index of the source's own tests. *)
Definition facts (ea : Z) (nm : string) (im st : list string) (ind : Z) (cs : list Z) : FunctionFacts := {|
  ff_start := ea; ff_end := 0; ff_name := nm; demangled := ""; ff_size := 0; imports := im; ff_strings := st;
  constants := []; indirect_calls := ind; callees := cs; callers := []; globals := [] |}.

Definition fixture_index : AnalysisIndex := {|
  schema_version := INDEX_SCHEMA_VERSION; binary_md5 := "abc"; idx_revision := 3;
  functions := list_to_map
    [(0x401000%Z, facts 0x401000 "crypto_decrypt" ["VirtualAlloc"; "CryptDecrypt"] ["payload"] 2 [0x402000%Z]);
     (0x402000%Z, facts 0x402000 "net_send" ["send"] [] 0 []);
     (0x403000%Z, facts 0x403000 "main" [] [] 0 [0x401000%Z])];
  idx_strings := [] |}.

Example fixture_queries :
  let q ps := hit_function <$> query id fixture_index {| q_all := Some ps; q_limit := default_limit |} in
  q [Import "virtualalloc"; HasIndirectCalls 1] = ["crypto_decrypt"]
  /\ q [StringContains "pay"; ReachableFrom 0x403000 2] = ["crypto_decrypt"]
  /\ q [CalleeMatches (Import "send")] = ["crypto_decrypt"]
  /\ q [Not (Import "CryptDecrypt")] = ["net_send"; "main"]
  /\ q [ReachableFrom 0x403000 1; NameContains "send"] = [].
Proof. vm_compute. done. Qed.
