(* ===== verification/IndexFile.v ===== *)
(** * IndexFile: the analysis index on disk

    Models [save], [load] and [load_from] of
    [rmcp-core/src/analysis_index.rs].  A directory of the cache is a map from
    paths to contents; creating it and writing a file can fail.  The JSON
    codec of an index and the joining of paths are parameters. *)

From stdpp Require Import base list gmap strings.
From Stdlib Require Import ZArith Lia Ascii.
From S2P Require Import Prelude Text Json Errors Protocol Index.

Local Open Scope rmcp_scope.

Record Disk := { disk_files : gmap string string; dir_fault : option string; write_fault : option string }.

Section IndexFile.
Context `{!FrameCodec AnalysisIndex} (join_path : string -> string -> string).
Implicit Types (idx : AnalysisIndex) (d : Disk).

Definition index_name (md5 : string) (revision version : Z) : string :=
  md5 +:+ "-rev" +:+ show_dec revision +:+ "-v" +:+ show_dec version +:+ ".json".

Definition index_path (cache_dir md5 : string) (revision version : Z) : string :=
  join_path (join_path cache_dir "analysis-index") (index_name md5 revision version).

(** The directory is made before the index is serialized; the argument [_md5]
    is not used. *)
Definition save (cache_dir _md5 : string) idx d : (string + string) * Disk :=
  match dir_fault d with
  | Some e => (inl e, d)
  | None =>
      let path := index_path cache_dir (binary_md5 idx) (idx_revision idx) (schema_version idx) in
      match to_vec idx with
      | inl e => (inl e, d)
      | inr data =>
          match write_fault d with
          | Some e => (inl e, d)
          | None => (inr path, {| disk_files := <[path := data]> (disk_files d); dir_fault := dir_fault d; write_fault := write_fault d |})
          end
      end
  end.

Definition load_from (_cache_dir path : string) d : option AnalysisIndex :=
  data ← disk_files d !! path;
  match from_str data with
  | inr idx => if (schema_version idx =? INDEX_SCHEMA_VERSION)%Z then Some idx else None
  | inl _ => None
  end.

Definition load (cache_dir md5 : string) (revision : Z) d : option AnalysisIndex :=
  load_from cache_dir (index_path cache_dir md5 revision INDEX_SCHEMA_VERSION) d.

(** ** The name of a file is its key *)

Definition no_dash (s : string) : bool := all_chars (fun c => negb (Ascii.eqb c "-")) s.

Lemma index_name_inj md5 md5' rev rev' ver ver' :
  no_dash md5 = true -> no_dash md5' = true -> is_u64 rev -> is_u64 rev' -> is_u64 ver -> is_u64 ver' ->
  index_name md5 rev ver = index_name md5' rev' ver' -> md5 = md5' /\ rev = rev' /\ ver = ver'.
Proof using Type.
  intros Hm Hm' Hr Hr' Hv Hv' E. unfold index_name in E. apply (append_span (fun c => negb (Ascii.eqb c "-"))) in E as [-> E]; [|done..].
  split; [done|]. injection E as E. apply show_dec_span in E as [-> E]; [|done..]. split; [done|].
  injection E as E. by apply show_dec_span in E as [-> _].
Qed.

(** [join] keeps plain names apart, and the codec reads what it wrote. *)
Context (join_inj : forall dir a b, join_path dir a = join_path dir b -> a = b).
Context (codec : forall idx data, to_vec idx = inr data -> from_str data = inr idx).

(** What is saved is loaded again under its own key, whatever else happens to
    be on the disk, and nothing else is: a file of another binary or another
    revision is as it was. *)
Lemma index_file_roundtrip cache_dir md5 idx d path d' :
  save cache_dir md5 idx d = (inr path, d') -> no_dash (binary_md5 idx) = true -> is_u64 (idx_revision idx) -> is_u64 (schema_version idx) ->
  load cache_dir (binary_md5 idx) (idx_revision idx) d' =
    (if (schema_version idx =? INDEX_SCHEMA_VERSION)%Z then Some idx else load cache_dir (binary_md5 idx) (idx_revision idx) d)
  /\ forall md5' rev', no_dash md5' = true -> is_u64 rev' -> (md5', rev') <> (binary_md5 idx, idx_revision idx) ->
     load cache_dir md5' rev' d' = load cache_dir md5' rev' d.
Proof using join_inj codec.
  unfold save. destruct (dir_fault d); [done|]. destruct (to_vec idx) as [e|data] eqn:Hd; [done|].
  destruct (write_fault d); [done|]. intros [= <- <-] Hm Hr Hv. unfold load, load_from. cbn.
  assert (is_u64 INDEX_SCHEMA_VERSION) as Hone by done. split.
  - destruct (Z.eqb_spec (schema_version idx) INDEX_SCHEMA_VERSION) as [E|E].
    + rewrite E, lookup_insert_eq. cbn. by rewrite (codec idx data Hd), E.
    + rewrite lookup_insert_ne; [done|]. intros Hp%join_inj. by apply index_name_inj in Hp as (_ & _ & ?).
  - intros md5' rev' Hm' Hr' Hne. rewrite lookup_insert_ne; [done|]. intros Hp%join_inj.
    apply index_name_inj in Hp as (? & ? & _); [congruence|done..].
Qed.

(** A missing, corrupt or outdated file is no index, and an index that is
    loaded has the current format. *)
Lemma load_current cache_dir md5 rev d idx : load cache_dir md5 rev d = Some idx -> schema_version idx = INDEX_SCHEMA_VERSION.
Proof using Type.
  unfold load, load_from. destruct (disk_files d !! _); [|done]. cbn. destruct (from_str _) as [e|i]; [done|].
  destruct (Z.eqb_spec (schema_version i) INDEX_SCHEMA_VERSION); [|done]. by intros [= <-].
Qed.
End IndexFile.

(** The file is trusted by its name: an index of another binary or revision
    in it is returned. *)
Module IndexFileExamples.
#[local] Instance blank_codec : FrameCodec AnalysisIndex := {
  to_vec idx := if bool_decide (functions idx = ∅ /\ idx_strings idx = [] /\ schema_version idx = 1%Z /\ binary_md5 idx = "")
                then inr (show_dec (idx_revision idx)) else inl "not blank";
  from_str s := match parse_u64 s with
                | inr z => inr {| schema_version := 1; binary_md5 := ""; idx_revision := z; functions := ∅; idx_strings := [] |}
                | inl e => inl (ParseIntError_to_string e)
                end;
}.
Definition slash (a b : string) : string := a +:+ "/" +:+ b.
Definition blank (rev : Z) : AnalysisIndex :=
  {| schema_version := 1; binary_md5 := ""; idx_revision := rev; functions := ∅; idx_strings := [] |}.
Definition disk : Disk := {| disk_files := ∅; dir_fault := None; write_fault := None |}.

Example saved_blank : load slash "c" "" 3 (save slash "c" "" (blank 3) disk).2 = Some (blank 3)
  /\ load slash "c" "" 4 (save slash "c" "" (blank 3) disk).2 = None.
Proof. split; vm_compute; reflexivity. Qed.

Example trusted_by_name :
  load slash "c" "abc" 7 {| disk_files := {[ "c/analysis-index/abc-rev7-v1.json" := "3" ]}; dir_fault := None; write_fault := None |}
  = Some (blank 3).
Proof. vm_compute. reflexivity. Qed.
End IndexFileExamples.
