(* ===== verification/Backend.v ===== *)
(** * Backend: the interface of a database backend and the in-memory one

    Models the [IdaBackend] trait of [rmcp-core/src/backend.rs] (every
    mutating operation, and the reads that the modelled clients use) as a type
    class of operations with its laws, and the mock backend of
    [rmcp-ida/src/mock.rs] as an instance, with its snapshots.  An operation
    that can panic returns an [outcome].  The laws are split: plans need
    [EditLaws] only, the worker's caches the whole of [BackendLaws].  The
    backend that drives IDA, another instance of the class, is in [IdaLib]. *)

From stdpp Require Import base list gmap strings.
From Stdlib Require Import ZArith Lia Ascii.
From S2P Require Import Prelude Text Json Errors Index.

Local Open Scope rmcp_scope.

Record FunctionInfo := { ea_start : Z; ea_end : Z; fn_name : string; fn_size : Z }.

Record XrefInfo := { xref_from : Z; xref_to : Z; xref_kind : string }.

Record InsnInfo := { insn_ea : Z; mnemonic : string; operands : string; insn_text : string }.

Record GraphParams := { g_kind : string; g_depth : Z; max_nodes : Z; max_edges : Z }.

Record StringInfo := { str_ea : Z; str_value : string; str_length : Z }.

Record SegmentInfo := { seg_name : string; seg_start : Z; seg_end : Z; seg_perms : string }.

Record Capabilities := {
  cap_decompile : bool; cap_types : bool; cap_imports_exports : bool; cap_patch_bytes : bool; cap_rename : bool;
  cap_comments : bool; cap_bookmarks : bool; cap_plugins : bool; cap_ctree : bool; cap_lvars : bool;
  cap_microcode : bool; cap_switches : bool; cap_fixups : bool; cap_tails : bool; cap_sp_delta : bool;
  cap_file_map : bool }.

Record MutationOutcome := { changed : bool; revision_after : Z; detail : Value }.

(** A mutating call: it may panic; it may fail; it may change the database. *)
Definition mutation (B : Type) : Type := B -> outcome (Result MutationOutcome * B).

(** The reads of the trait that only report; the others are methods of the
    class below.  [usize] arguments are [Z]. *)
Record Reports := {
  db_info : Result Value;
  capabilities : Capabilities;
  functions_page : Z -> Z -> Result (list FunctionInfo);
  segments : Result (list SegmentInfo);
  strings_page : Z -> Z -> Result (list StringInfo);
  xrefs_from : Z -> Result (list XrefInfo);
  search_text : string -> Z -> Result (list Value);
  search_immediate : Z -> Z -> Result (list Value);
  get_comment : Z -> bool -> Result Value;
  types : option string -> Result Value;
  db_metadata : Result Value;
  imports_page : option Z -> Z -> Z -> Result Value;
  fixups : Z -> Z -> Result Value;
  file_map : Z -> bool -> Result Value;
  func_tails : Z -> Result Value;
  func_switch_info : Z -> Result Value;
  func_sp_delta : Z -> Result Value;
  hr_cfunc : Z -> bool -> bool -> Z -> Result Value;
  insn_features : Z -> Result Value;
  demangle_name : string -> Result Value;
  list_plugins : Result Value;
  input_md5 : Result string;
  deep_function_info : Z -> Z -> Result Value;
  type_member_evidence : Z -> Z -> Result Value;
  type_vtable_scan : Z -> Z -> Result Value;
  type_udt_match : list (Z * Z) -> Result Value;
}.

Class IdaBackend (B : Type) := {
  open_db : string -> B -> Result Value * B;
  close_db : B -> Result unit * B;
  save_db : B -> Result unit * B;
  run_plugin : string -> option string -> B -> Result Value * B;
  reports : B -> Reports;
  revision : B -> Z;
  function_at : B -> Z -> Result FunctionInfo;
  get_bytes : B -> Z -> Z -> Result Value;
  xrefs_to : B -> Z -> Result (list XrefInfo);
  disassemble : B -> Z -> option Z -> nat -> Result (list InsnInfo);
  decompile : B -> Z -> Result Value;
  graph : B -> Z -> GraphParams -> Result Value;
  hr_microcode : B -> Z -> Z -> Z -> Result Value;
  build_index : B -> Result (AnalysisIndex * string);
  patch_bytes : Z -> string -> mutation B;
  set_comment : Z -> string -> bool -> mutation B;
  rename : Z -> string -> mutation B;
  set_type : Z -> string -> mutation B;
  func_create : Z -> option Z -> mutation B;
  func_delete : Z -> mutation B;
  func_resize : Z -> option Z -> option Z -> mutation B;
  hr_lvar_rename : Z -> Z -> string -> mutation B;
  deep_apply_prototype : Z -> string -> mutation B;
  type_udt_create : string -> list string -> mutation B;
  analyze_wait : B -> Result Value * B;
  snapshot_create : B -> Result Value * B;
  snapshot_restore : B -> Result Value * B;
}.

(** What the trait documents of a mutation: the revision counter is bumped by
    every mutation, and only by a successful one; the outcome reports it. *)
Definition bumps {B} `{IdaBackend B} (f : mutation B) : Prop :=
  forall b, match f b with
    | Done (inr out, b') =>
        revision b' = wrapping_add64 (revision b) 1 /\ revision_after out = revision b'
    | Done (inl _, b') => b' = b
    | Panic | OutOfFuel => True
    end.

(** Two states of a database that read alike. *)
Record reads_alike {B} `{IdaBackend B} (b b' : B) : Prop := {
  ra_revision : revision b' = revision b;
  ra_index : build_index b' = build_index b;
  ra_xrefs ea : xrefs_to b' ea = xrefs_to b ea;
  ra_decompile ea : decompile b' ea = decompile b ea;
  ra_microcode ea m k : hr_microcode b' ea m k = hr_microcode b ea m k;
  ra_function_at ea : function_at b' ea = function_at b ea;
  ra_bytes ea n : get_bytes b' ea n = get_bytes b ea n;
  ra_disassemble s e n : disassemble b' s e n = disassemble b s e n;
  ra_graph ea p : graph b' ea p = graph b ea p;
  ra_reports : reports b' = reports b;
}.

Lemma reads_alike_trans {B} `{IdaBackend B} (b1 b2 b3 : B) : reads_alike b1 b2 -> reads_alike b2 b3 -> reads_alike b1 b3.
Proof. intros [] []. split; intros; congruence. Qed.

(** What every backend promises of its edits; plans need no more. *)
Class EditLaws (B : Type) `{IdaBackend B} : Prop := {
  patch_bytes_bumps ea hex : bumps (patch_bytes ea hex);
  set_comment_bumps ea c r : bumps (set_comment ea c r);
  rename_bumps ea s : bumps (rename ea s);
  set_type_bumps ea s : bumps (set_type ea s);
  func_create_bumps ea e : bumps (func_create ea e);
  func_delete_bumps ea : bumps (func_delete ea);
  hr_lvar_rename_bumps ea d s : bumps (hr_lvar_rename ea d s);
  deep_apply_prototype_bumps ea s : bumps (deep_apply_prototype ea s);
  type_udt_create_bumps s fs : bumps (type_udt_create s fs);
  build_index_revision b idx md5 : build_index b = Ok (idx, md5) -> idx_revision idx = revision b;
}.

(** The whole contract: a resize is all or nothing, and a snapshot is a read or
    moves the revision on (the mock's is a read, the real one's is not). *)
Class BackendLaws (B : Type) `{IdaBackend B} : Prop := {
  edit_laws :: EditLaws B;
  func_resize_bumps ea s e : bumps (func_resize ea s e);
  snapshot_create_moves b :
    reads_alike b (snapshot_create b).2 \/ revision (snapshot_create b).2 = wrapping_add64 (revision b) 1;
}.

(** ** The mock backend *)

Record SnapshotState := {
  snap_revision : Z;
  snap_names : gmap Z string;
  snap_comments : gmap (Z * bool) string;
  snap_bytes : gmap Z (list Z);
}.

Record MockBackend := {
  open_path : option string;
  mock_revision : Z;
  names : gmap Z string;
  comments : gmap (Z * bool) string;
  bytes : gmap Z (list Z);
  decompile_off : bool;
  extra_xrefs : list (Z * Z * string);
  snapshots : list SnapshotState; (** the top of the stack is the head *)
}.

Definition MockBackend_new : MockBackend := {|
  open_path := None;
  mock_revision := 0;
  names := list_to_map [(0x401000, "main"); (0x401100, "helper"); (0x401200, "decrypt_packet");
                        (0x401300, "dispatch"); (0x401400, "call_via_ptr")]%Z;
  comments := ∅;
  bytes := list_to_map [(0x401000, [0x55; 0x48; 0x89; 0xe5; 0xc3]); (0x401100, [0x55; 0xc3])]%Z;
  decompile_off := false;
  extra_xrefs := [];
  snapshots := [];
|}.

Definition no_db : Error := Worker "no db open".

Definition mock_open (path : string) (b : MockBackend) : Result Value * MockBackend :=
  match open_path b with
  | Some _ => (Err (Worker "a db is already open"), b)
  | None =>
      (Ok (JObj [("path", JStr path); ("arch", JStr "x86_64"); ("bits", JNum 64)]),
       {| open_path := Some path; mock_revision := mock_revision b; names := names b;
          comments := comments b; bytes := bytes b; decompile_off := decompile_off b;
          extra_xrefs := extra_xrefs b; snapshots := snapshots b |})
  end.

Definition mock_close (b : MockBackend) : Result unit * MockBackend :=
  (Ok tt, {| open_path := None; mock_revision := mock_revision b; names := names b;
             comments := comments b; bytes := bytes b; decompile_off := decompile_off b;
             extra_xrefs := extra_xrefs b; snapshots := snapshots b |}).

Definition require_open (b : MockBackend) : Result unit :=
  match open_path b with Some _ => Ok tt | None => Err no_db end.

(** [functions_vec]: in address order; the end wraps at 64 bits. *)
Definition functions_vec (b : MockBackend) : list FunctionInfo :=
  (fun en => {| ea_start := en.1; ea_end := wrapping_add64 en.1 0x40; fn_name := en.2; fn_size := 0x40 |})
  <$> sort_by_key fst (map_to_list (names b)).

Definition mock_function_at (b : MockBackend) (ea : Z) : Result FunctionInfo :=
  _ <-? require_open b;
  ok_or_else (List.find (fun f => (ea_start f <=? ea)%Z && (ea <? ea_end f)%Z) (functions_vec b))
    (Worker ("no function containing " +:+ show_0x ea)).

(** [{:02x}]. *)
Definition hex2 (x : Z) : string :=
  String (digit_char (x / 16)) (String (digit_char (x mod 16)) "").

Definition mock_get_bytes (b : MockBackend) (ea size : Z) : Result Value :=
  _ <-? require_open b;
  let bs := take (Z.to_nat size) (default [] (bytes b !! ea)) in
  Ok (JObj [("ea", JNum ea); ("size", jnat (length bs)); ("hex", JStr (join "" (hex2 <$> bs)))]).

Definition mock_xrefs_to (b : MockBackend) (ea : Z) : Result (list XrefInfo) :=
  _ <-? require_open b;
  let extra := (fun x => {| xref_from := x.1.1; xref_to := x.1.2; xref_kind := x.2 |})
    <$> filter (fun x => x.1.2 = ea) (extra_xrefs b) in
  Ok (extra
      ++ (if (ea =? 0x401100)%Z then [{| xref_from := 0x401020; xref_to := ea; xref_kind := "call" |}] else [])
      ++ (if (ea =? 0x401200)%Z then [{| xref_from := 0x401030; xref_to := ea; xref_kind := "call" |}] else [])).

Definition no_hexrays : Error :=
  CapabilityUnavailable "decompile" "hexrays not available in this backend".

Definition nl : string := String (chr 10) "".

Definition mock_decompile (b : MockBackend) (ea : Z) : Result Value :=
  if decompile_off b then Err no_hexrays
  else
    _ <-? require_open b;
    f <-? mock_function_at b ea;
    Ok (JObj [("function", JStr (fn_name f)); ("ea", JNum (ea_start f));
              ("pseudocode", JStr ("// " +:+ show_0x (ea_start f) +:+ nl +:+ "int " +:+ fn_name f
                 +:+ "(int a, int b) {" +:+ nl +:+ "    return a + b;" +:+ nl +:+ "}"))]).

Definition mock_xrefs_from (b : MockBackend) (ea : Z) : Result (list XrefInfo) :=
  _ <-? require_open b;
  Ok (if (ea =? 0x401000)%Z
      then [{| xref_from := ea; xref_to := 0x401100; xref_kind := "call" |};
            {| xref_from := ea; xref_to := 0x401200; xref_kind := "call" |}]
      else []).

Fixpoint mock_insns (max_insns : nat) (ea end_ : Z) : list InsnInfo :=
  match max_insns with
  | O => []
  | S n =>
      if (ea <? end_)%Z
      then {| insn_ea := ea; mnemonic := "mov"; operands := "eax, ebx"; insn_text := "mov eax, ebx ; " +:+ show_0x ea |}
           :: mock_insns n (wrapping_add64 ea 4) end_
      else []
  end.

Definition mock_disassemble (b : MockBackend) (ea_start : Z) (ea_end : option Z) (max_insns : nat)
  : Result (list InsnInfo) :=
  _ <-? require_open b;
  Ok (mock_insns max_insns ea_start (default (wrapping_add64 ea_start 0x10) ea_end)).

Definition graph_node (f : FunctionInfo) : Value := JObj [("ea", JNum (ea_start f)); ("name", JStr (fn_name f))].

Definition mock_graph (b : MockBackend) (ea : Z) (params : GraphParams) : Result Value :=
  _ <-? require_open b;
  f <-? mock_function_at b ea;
  xs <-? (if (1 <=? g_depth params)%Z then mock_xrefs_from b (ea_start f) else Ok []);
  let called := omap (fun x => ok (mock_function_at b (xref_to x))) xs in
  Ok (JObj [("root", JNum (ea_start f)); ("nodes", JArr (graph_node f :: (graph_node <$> called)));
    ("edges", JArr ((fun c => JObj [("from", JNum (ea_start f)); ("to", JNum (ea_start c))]) <$> called))]).

Definition mock_block (serial type start_ea end_ea n_pred n_succ n_insns : Z) : Value :=
  JObj [("serial", JNum serial); ("type", JNum type); ("start_ea", JNum start_ea); ("end_ea", JNum end_ea);
        ("n_pred", JNum n_pred); ("n_succ", JNum n_succ); ("n_insns", JNum n_insns)].

Definition mock_insn (block opcode ea l_type r_type d_type d_size n_value : Z) (text : string) : Value :=
  JObj [("block", JNum block); ("opcode", JNum opcode); ("ea", JNum ea); ("l_type", JNum l_type);
        ("r_type", JNum r_type); ("d_type", JNum d_type); ("d_size", JNum d_size);
        ("n_value", JNum n_value); ("text", JStr text)].

Definition mock_hr_microcode (b : MockBackend) (ea req_maturity max_insns : Z) : Result Value :=
  _ <-? require_open b;
  if decompile_off b then Err no_hexrays
  else
    f <-? mock_function_at b ea;
    let maturity := if (req_maturity =? 0)%Z then 5%Z else Z.min req_maturity 7 in
    let body_ea := wrapping_add64 (ea_start f) 4 in
    let blocks := [mock_block 0 0 (ea_start f) body_ea 0 1 0; mock_block 1 0 body_ea (ea_end f) 2 2 3;
                   mock_block 2 0 0 0 2 0 0] in
    let insns := [mock_insn 1 4 body_ea 2 0 1 4 0x5A "mov #0x5A, eax.4";
                  mock_insn 1 12 (wrapping_add64 body_ea 2) 1 1 1 4 0 "add eax.4, ebx.4";
                  mock_insn 1 44 (wrapping_add64 body_ea 4) 1 0 7 0 0 "jz 1"] in
    Ok (JObj [("ea", JNum (ea_start f)); ("function", JStr (fn_name f)); ("maturity", JNum maturity);
              ("qty", JNum 3); ("truncated", JBool (max_insns <? Z.of_nat (length insns))%Z);
              ("blocks", JArr blocks); ("insns", JArr (take (Z.to_nat max_insns) insns))]).

(** [strings_of] and [build_index]: the facts of the named functions, and the
    edges of the fixture between those that are there. *)
Definition strings_of (b : MockBackend) (ea : Z) : list string := [].


Definition mock_facts (b : MockBackend) (f : FunctionInfo) : FunctionFacts := {|
  ff_start := ea_start f; ff_end := ea_end f; ff_name := fn_name f; demangled := ""; ff_size := 0;
  imports := []; ff_strings := strings_of b (ea_start f); constants := []; Index.indirect_calls := 0;
  callees := []; callers := []; globals := [] |}.

Definition add_callee (c : Z) (f : FunctionFacts) : FunctionFacts := {|
  ff_start := ff_start f; ff_end := ff_end f; ff_name := ff_name f; demangled := demangled f;
  ff_size := ff_size f; imports := imports f; ff_strings := ff_strings f; constants := constants f;
  Index.indirect_calls := Index.indirect_calls f; callees := callees f ++ [c]; callers := callers f;
  globals := globals f |}.

Definition add_caller (c : Z) (f : FunctionFacts) : FunctionFacts := {|
  ff_start := ff_start f; ff_end := ff_end f; ff_name := ff_name f; demangled := demangled f;
  ff_size := ff_size f; imports := imports f; ff_strings := ff_strings f; constants := constants f;
  Index.indirect_calls := Index.indirect_calls f; callees := callees f; callers := callers f ++ [c];
  globals := globals f |}.

Definition mock_edges : list (Z * Z) :=
  [(0x401000, 0x401100); (0x401000, 0x401200); (0x401000, 0x401300); (0x401000, 0x401400)]%Z.

Definition mock_index_functions (b : MockBackend) : gmap Z FunctionFacts :=
  let fs := foldl (fun m f => <[ea_start f := mock_facts b f]> m) ∅ (functions_vec b) in
  foldl (fun m e => alter (add_caller e.1) e.2 (alter (add_callee e.2) e.1 m)) fs mock_edges.

Definition mock_build_index (b : MockBackend) : Result (AnalysisIndex * string) :=
  Ok ({| schema_version := INDEX_SCHEMA_VERSION; binary_md5 := "mock-md5"; idx_revision := mock_revision b;
         functions := mock_index_functions b; idx_strings := [] |}, "mock-md5").

(** ** Reports of the mock *)

(** [skip(offset).take(limit)]. *)
Definition page {A} (offset limit : Z) (l : list A) : list A :=
  let len := Z.of_nat (length l) in
  take (Z.to_nat (Z.min limit len)) (drop (Z.to_nat (Z.min offset len)) l).

Definition mock_db_info (b : MockBackend) : Result Value :=
  _ <-? require_open b;
  Ok (JObj [("path", jopt JStr (open_path b)); ("arch", JStr "x86_64"); ("bits", JNum 64);
            ("function_count", jnat (size (names b))); ("revision", JNum (mock_revision b))]).

Definition mock_capabilities (b : MockBackend) : Capabilities :=
  let hr := negb (decompile_off b) in {|
  cap_decompile := hr; cap_types := true; cap_imports_exports := true; cap_patch_bytes := true; cap_rename := true;
  cap_comments := true; cap_bookmarks := true; cap_plugins := true; cap_ctree := hr; cap_lvars := hr;
  cap_microcode := hr; cap_switches := true; cap_fixups := true; cap_tails := true; cap_sp_delta := true;
  cap_file_map := true |}.

Definition mock_functions (b : MockBackend) (offset limit : Z) : Result (list FunctionInfo) :=
  _ <-? require_open b; Ok (page offset limit (functions_vec b)).

Definition mock_segments (b : MockBackend) : Result (list SegmentInfo) :=
  _ <-? require_open b;
  Ok [{| seg_name := ".text"; seg_start := 0x401000; seg_end := 0x402000; seg_perms := "r-x" |};
      {| seg_name := ".data"; seg_start := 0x402000; seg_end := 0x403000; seg_perms := "rw-" |}].

Definition mock_all_strings : list StringInfo :=
  [{| str_ea := 0x402010; str_value := "usage: %s <file>"; str_length := 16 |};
   {| str_ea := 0x402030; str_value := "decrypt: bad key"; str_length := 16 |}].
Definition mock_strings (b : MockBackend) (offset limit : Z) : Result (list StringInfo) :=
  _ <-? require_open b; Ok (page offset limit mock_all_strings).

Definition mock_search_text (b : MockBackend) (needle : string) (limit : Z) : Result (list Value) :=
  _ <-? require_open b;
  ss <-? mock_strings b 0 usize_max;
  let row s := if contains needle (str_value s)
               then Some (JObj [("ea", JNum (str_ea s)); ("text", JStr (str_value s))]) else None in
  Ok (push_until row (Z.to_nat (Z.min limit (Z.of_nat (length ss)))) ss []).1.

(** The limit is tested after every name, so a limit of 0 stops after the first. *)
Fixpoint immediate_hits (value limit : Z) (eas : list Z) (out : list Value) : list Value :=
  match eas with
  | [] => out
  | ea :: rest =>
      let out := if (ea =? value)%Z then out ++ [JObj [("ea", JNum ea); ("context", JStr "function start")]] else out in
      if (limit <=? Z.of_nat (length out))%Z then out else immediate_hits value limit rest out
  end.
Definition mock_search_immediate (b : MockBackend) (value limit : Z) : Result (list Value) :=
  _ <-? require_open b; Ok (immediate_hits value limit (ea_start <$> functions_vec b) []).

Definition mock_get_comment (b : MockBackend) (ea : Z) (repeatable : bool) : Result Value :=
  _ <-? require_open b;
  Ok (JObj [("ea", JNum ea); ("repeatable", JBool repeatable);
            ("comment", JStr (default "" (comments b !! (ea, repeatable))))]).

Definition mock_all_types : list (string * string) :=
  [("packet_header", "struct packet_header { uint32_t magic; uint16_t len; }");
   ("status_t", "enum status_t { OK = 0, ERR = 1 }")].
Definition type_value (t : string * string) : Value := JObj [("name", JStr t.1); ("decl", JStr t.2)].
Definition mock_types (b : MockBackend) (name : option string) : Result Value :=
  _ <-? require_open b;
  match name with
  | Some n => t <-? ok_or_else (List.find (fun t => bool_decide (t.1 = n)) mock_all_types)
                      (Worker ("type '" +:+ n +:+ "' not found"));
              Ok (type_value t)
  | None => Ok (JArr (type_value <$> mock_all_types))
  end.

Definition mock_db_metadata (b : MockBackend) : Result Value :=
  _ <-? require_open b;
  Ok (JObj [("md5", JStr "d41d8cd98f00b204e9800998ecf8427e");
            ("sha256", JStr "e3b0c44298fc1c149afbf4c8996fb92427ae41e4649b934ca495991b7852b855");
            ("imagebase", JNum 0x400000); ("entry_count", JNum 1);
            ("entries", JArr [JObj [("ordinal", JNum 0); ("ea", JNum 0x401000); ("name", JStr "main")]]);
            ("tls_callbacks", JNull); ("tls_callbacks_supported", JBool false);
            ("exception_handlers_supported", JBool false)]).

Definition import_row (ea : Z) (name : string) (ordinal : Z) : Value :=
  JObj [("ea", JNum ea); ("name", JStr name); ("ordinal", JNum ordinal)].
Definition mock_imports (b : MockBackend) (module : option Z) (offset limit : Z) : Result Value :=
  _ <-? require_open b;
  let entries := page offset limit [import_row 0x403000 "CreateFileA" 0; import_row 0x403004 "ReadFile" 1] in
  let modules := [JObj [("index", JNum 0); ("name", JStr "KERNEL32.dll"); ("entries", JArr entries)]] in
  let shown := match module with Some i => if (Z.of_nat (length modules) <=? i)%Z then [] else modules | None => modules end in
  Ok (JObj [("modules", JArr shown); ("module_count", JNum 1)]).

Definition fixup_row (ea off : Z) : Value :=
  JObj [("ea", JNum ea); ("kind", JNum 1); ("flags", JNum 0); ("base", JNum 0); ("sel", JNum 0); ("off", JNum off);
        ("displacement", JNum 0)].
Definition mock_fixups (b : MockBackend) (offset limit : Z) : Result Value :=
  _ <-? require_open b;
  let all := [fixup_row 0x402000 0x403000; fixup_row 0x402008 0x403004] in
  Ok (JObj [("total", jnat (length all)); ("fixups", JArr (page offset limit all))]).

Definition checked_sub (a b : Z) : option Z := if (b <=? a)%Z then Some (a - b)%Z else None.
Definition mock_file_map (b : MockBackend) (value : Z) (to_ea : bool) : Result Value :=
  _ <-? require_open b;
  if to_ea then
    match checked_sub value 0x400 with
    | Some v => Ok (JObj [("file_offset", JNum value); ("ea", JNum (wrapping_add64 v 0x400000))])
    | None => Err (Worker ("file offset " +:+ show_0x value +:+ " does not map to an address"))
    end
  else
    match checked_sub value 0x400000 with
    | Some v => Ok (JObj [("ea", JNum value); ("file_offset", JNum (wrapping_add64 v 0x400))])
    | None => Err (Worker ("address " +:+ show_0x value +:+ " does not map into the input file"))
    end.

Definition mock_func_tails (b : MockBackend) (ea : Z) : Result Value :=
  f <-? mock_function_at b ea;
  Ok (JObj [("function", JNum (ea_start f));
            ("chunks", JArr [JObj [("start", JNum (ea_start f)); ("end", JNum (ea_end f)); ("size", JNum (fn_size f))]]);
            ("is_tail_target", JBool false)]).

Definition mock_func_switch_info (b : MockBackend) (ea : Z) : Result Value :=
  _ <-? require_open b;
  if (ea =? 0x401310)%Z then
    Ok (JObj [("ea", JNum ea); ("jump_table", JNum 0x402100); ("ncases", JNum 4); ("elbase", JNum 0x401300);
              ("lowcase", JNum 0); ("regnum", JNum 0)])
  else Err (Worker ("no switch information at " +:+ show_0x ea)).

Definition mock_func_sp_delta (b : MockBackend) (ea : Z) : Result Value :=
  _ <-? mock_function_at b ea; Ok (JObj [("ea", JNum ea); ("sp_delta", JNum (-8))]).

Definition ctree_row (ea op : Z) (text : string) : Value :=
  JObj [("ea", JNum ea); ("op", JNum op); ("is_expr", JBool (negb (op =? 0)%Z)); ("text", JStr text)].
Definition lvar_row (ea : Z) (name : string) : Value :=
  JObj [("defea", JNum ea); ("name", JStr name); ("type_text", JStr "int"); ("width", JNum 4); ("is_arg", JBool true);
        ("is_result", JBool false)].
Definition mock_hr_cfunc (b : MockBackend) (ea : Z) (include_ctree include_lvars : bool) (limit : Z) : Result Value :=
  if decompile_off b then Err no_hexrays
  else
    f <-? mock_function_at b ea;
    let next := wrapping_add64 (ea_start f) 4 in
    let rows := page 0 limit [ctree_row (ea_start f) 0 "int main(int a, int b)"; ctree_row next 0 "return a + b"] in
    Ok (JObj ([("function", JStr (fn_name f)); ("ea", JNum (ea_start f)); ("return_type", JStr "int")]
      ++ (if include_ctree then [("ctree", JArr rows); ("ctree_truncated", JBool false)] else [])
      ++ (if include_lvars then [("lvars", JArr [lvar_row (ea_start f) "a"; lvar_row next "b"]); ("lvars_truncated", JBool false)]
          else []))).

Definition mock_insn_features (b : MockBackend) (ea : Z) : Result Value :=
  _ <-? require_open b; Ok (JObj [("ea", JNum ea); ("features", JNum 0x0500); ("mnemonic", JStr "mov")]).

Definition mock_demangle_name (b : MockBackend) (name : string) : Result Value :=
  _ <-? require_open b;
  let demangled := if starts_with "?" name || starts_with "_Z" name then name +:+ "_demangled" else name in
  Ok (JObj [("name", JStr name); ("demangled", JStr demangled); ("changed", JBool (negb (bool_decide (demangled = name))))]).

Definition mock_list_plugins : Result Value :=
  Ok (JArr [JObj [("name", JStr "sample_audit"); ("source", JStr "reverse-mcp plugins dir")]]).

Definition known_callees (ea : Z) : list Z :=
  (if ea =? 0x401000 then [0x401100; 0x401200; 0x401300; 0x401400] else if ea =? 0x401400 then [0] else [])%Z.
Definition call_row (b : MockBackend) (ea c : Z) : Value :=
  if (c =? 0)%Z then
    JObj [("call_ea", JStr (show_0x ea +:+ "+10")); ("direct", JBool false);
          ("target_name", JStr "(*(void (**)(void))(ptr))()"); ("args", JArr [])]
  else
    JObj [("call_ea", JStr (show_0x ea)); ("direct", JBool true); ("target_ea", JStr (show_0x c));
          ("target_name", JStr (default "" (names b !! c))); ("args", JArr [])].
Definition mock_deep_function_info (b : MockBackend) (ea max_calls : Z) : Result Value :=
  _ <-? require_open b;
  f <-? ok_or_else (List.find (fun f => (ea_start f =? ea)%Z) (functions_vec b)) (Worker ("no function at " +:+ show_0x ea));
  Ok (JObj [("ea", JStr (show_0x ea)); ("name", JStr (fn_name f));
            ("prototype", JObj [("known", JBool true); ("ret_type", JStr "int"); ("arg_types", JArr [JStr "int"; JStr "int"])]);
            ("calls", JArr (call_row b ea <$> page 0 max_calls (known_callees ea)));
            ("calls_truncated", JBool (max_calls <? Z.of_nat (length (known_callees ea)))%Z)]).

Definition member_row (ea : Z) (o : Z * Z * bool) : Value :=
  JObj [("base_text", JStr "obj"); ("is_global", JBool true); ("base_ea", JStr (show_0x ea)); ("offset", JStr (show_0x o.1.1));
        ("access_size", JNum o.1.2); ("is_write", JBool o.2); ("at_ea", JStr (show_0x ea))].
Definition mock_type_member_evidence (b : MockBackend) (ea limit : Z) : Result Value :=
  _ <-? require_open b;
  if bool_decide (is_Some (names b !! ea)) then
    let obs := [(0, 4, false); (8, 8, false); (8, 8, true); (16, 4, false)]%Z in
    Ok (JObj [("ea", JStr (show_0x ea)); ("members", JArr (member_row ea <$> page 0 limit obs));
              ("truncated", JBool (limit <? Z.of_nat (length obs))%Z)])
  else Err (Worker ("no function at " +:+ show_0x ea)).

Definition slot_row (b : MockBackend) (i : nat) (t : Z) : Value :=
  JObj [("slot", jnat i); ("target_ea", JStr (show_0x t)); ("is_code", JBool true); ("name", JStr (default "" (names b !! t)))].
Definition mock_type_vtable_scan (b : MockBackend) (ea max_entries : Z) : Result Value :=
  _ <-? require_open b;
  let targets := [0x401100; 0x401200; 0x401300]%Z in
  Ok (JObj [("ea", JStr (show_0x ea)); ("slots", JArr (imap (slot_row b) (page 0 max_entries targets)));
            ("truncated", JBool (max_entries <? Z.of_nat (length targets))%Z)]).

Definition mock_type_udt_match (b : MockBackend) (shape : list (Z * Z)) : Result Value :=
  _ <-? require_open b;
  let hit := bool_decide (shape = [(0, 4); (8, 8); (16, 4)]%Z) in
  Ok (JObj [("shape", JArr ((fun x => JObj [("offset", JStr (show_0x x.1)); ("size", JNum x.2)]) <$> shape));
            ("match", if hit then JStr "mock_shape_t" else JNull)]).

Definition mock_input_md5 : Result string := Ok "mock-md5".

Definition mock_save (b : MockBackend) : Result unit * MockBackend := (require_open b, b).
Definition mock_run_plugin (plugin : string) (args : option string) (b : MockBackend) : Result Value * MockBackend :=
  (_ <-? require_open b; Ok (JObj [("plugin", JStr plugin); ("args", jopt JStr args); ("ran", JBool true)]), b).

Definition mock_reports (b : MockBackend) : Reports := {|
  db_info := mock_db_info b; capabilities := mock_capabilities b; functions_page := mock_functions b;
  segments := mock_segments b; strings_page := mock_strings b; xrefs_from := mock_xrefs_from b;
  search_text := mock_search_text b; search_immediate := mock_search_immediate b; get_comment := mock_get_comment b;
  types := mock_types b; db_metadata := mock_db_metadata b; imports_page := mock_imports b; fixups := mock_fixups b;
  file_map := mock_file_map b; func_tails := mock_func_tails b; func_switch_info := mock_func_switch_info b;
  func_sp_delta := mock_func_sp_delta b; hr_cfunc := mock_hr_cfunc b; insn_features := mock_insn_features b;
  demangle_name := mock_demangle_name b; list_plugins := mock_list_plugins; input_md5 := mock_input_md5;
  deep_function_info := mock_deep_function_info b; type_member_evidence := mock_type_member_evidence b;
  type_vtable_scan := mock_type_vtable_scan b; type_udt_match := mock_type_udt_match b |}.

(** ** [hex::decode] *)

Definition parse_hex_u8 (s : string) : ParseIntError + Z := from_str_radix 16 255 s.

(** [&s[i..i + 2]] for each even [i]: a slice panics when one of its ends is
    inside a character. *)
Fixpoint decode_pairs (fuel : nat) (s : string) (i : nat) : outcome (string + list Z) :=
  match fuel with
  | O => Done (inr [])
  | S fuel' =>
      if is_char_boundary s i && is_char_boundary s (i + 2) then
        match parse_hex_u8 (String.substring i 2 s) with
        | inl e => Done (inl (ParseIntError_to_string e))
        | inr x =>
            rest <~ decode_pairs fuel' s (i + 2);
            Done (match rest with inl e => inl e | inr xs => inr (x :: xs) end)
        end
      else Panic
  end.

Definition hex_decode (s : string) : outcome (string + list Z) :=
  if Nat.even (String.length s) then decode_pairs (Nat.div2 (String.length s)) s 0
  else Done (inl "odd hex length").

Fixpoint remove_spaces (s : string) : string :=
  match s with
  | EmptyString => EmptyString
  | String c s' => if Ascii.eqb c " " then remove_spaces s' else String c (remove_spaces s')
  end.

(** ** Mutations *)

Definition bump (b : MockBackend) : Z := wrapping_add64 (mock_revision b) 1.

(** The state with new names, comments and bytes and the bumped revision. *)
Definition mutated (ns : gmap Z string) (cs : gmap (Z * bool) string) (bs : gmap Z (list Z))
    (b : MockBackend) : MockBackend := {|
  open_path := open_path b; mock_revision := bump b; names := ns; comments := cs; bytes := bs;
  decompile_off := decompile_off b; extra_xrefs := extra_xrefs b; snapshots := snapshots b |}.

Definition changed_outcome (b : MockBackend) (d : list (string * Value)) : MutationOutcome :=
  {| changed := true; revision_after := bump b; detail := JObj d |}.

Definition mock_patch_bytes (ea : Z) (bytes_hex : string) : mutation MockBackend := fun b =>
  match require_open b with
  | inl e => Done (Err e, b)
  | inr _ =>
      decoded <~ hex_decode (remove_spaces (trim bytes_hex));
      match decoded with
      | inl e => Done (Err (Worker ("bad hex: " +:+ e)), b)
      | inr bs => Done (Ok (changed_outcome b [("ea", JNum ea)]),
                        mutated (names b) (comments b) (<[ea := bs]> (bytes b)) b)
      end
  end.

Definition mock_set_comment (ea : Z) (comment : string) (repeatable : bool) : mutation MockBackend := fun b =>
  match require_open b with
  | inl e => Done (Err e, b)
  | inr _ => Done (Ok (changed_outcome b [("ea", JNum ea)]),
                   mutated (names b) (<[(ea, repeatable) := comment]> (comments b)) (bytes b) b)
  end.

Definition mock_rename (ea : Z) (new_name : string) : mutation MockBackend := fun b =>
  match require_open b with
  | inl e => Done (Err e, b)
  | inr _ =>
      match names b !! ea with
      | None => Done (Err (Worker ("no function at " +:+ show_0x ea)), b)
      | Some old => Done (Ok (changed_outcome b [("ea", JNum ea); ("old", JStr old); ("new", JStr new_name)]),
                          mutated (<[ea := new_name]> (names b)) (comments b) (bytes b) b)
      end
  end.

Definition mock_set_type (ea : Z) (decl : string) : mutation MockBackend := fun b =>
  match require_open b with
  | inl e => Done (Err e, b)
  | inr _ => Done (Ok (changed_outcome b [("ea", JNum ea); ("applied", JStr decl)]),
                   mutated (names b) (comments b) (bytes b) b)
  end.

Definition mock_func_create (start : Z) (end_ : option Z) : mutation MockBackend := fun b =>
  match require_open b with
  | inl e => Done (Err e, b)
  | inr _ =>
      let ns := match names b !! start with
                | Some _ => names b
                | None => <[start := "sub_" +:+ show_hex start]> (names b)
                end in
      Done (Ok (changed_outcome b [("start", JNum start); ("end", jopt JNum end_)]),
            mutated ns (comments b) (bytes b) b)
  end.

Definition mock_func_delete (ea : Z) : mutation MockBackend := fun b =>
  match require_open b with
  | inl e => Done (Err e, b)
  | inr _ =>
      match names b !! ea with
      | None => Done (Err (Worker ("no function at " +:+ show_0x ea)), b)
      | Some _ => Done (Ok (changed_outcome b [("ea", JNum ea)]),
                        mutated (delete ea (names b)) (comments b) (bytes b) b)
      end
  end.

Definition mock_func_resize (ea : Z) (new_start new_end : option Z) : mutation MockBackend := fun b =>
  match require_open b with
  | inl e => Done (Err e, b)
  | inr _ =>
      match new_start, new_end with
      | None, None => Done (Err (Worker "func_resize requires new_start and/or new_end"), b)
      | _, _ => Done (Ok (changed_outcome b [("ea", JNum ea); ("start", jopt JNum new_start);
                                             ("end", jopt JNum new_end)]),
                      mutated (names b) (comments b) (bytes b) b)
      end
  end.

Definition mock_hr_lvar_rename (ea var_defea : Z) (new_name : string) : mutation MockBackend := fun b =>
  if decompile_off b then Done (Err no_hexrays, b)
  else
    match mock_function_at b ea with
    | inl e => Done (Err e, b)
    | inr f =>
        Done (Ok (changed_outcome b [("function", JNum (ea_start f)); ("var_defea", JNum var_defea);
                                     ("new", JStr new_name)]),
              mutated (names b) (comments b) (bytes b) b)
    end.

Definition mock_deep_apply_prototype (ea : Z) (decl : string) : mutation MockBackend := fun b =>
  match require_open b with
  | inl e => Done (Err e, b)
  | inr _ =>
      if bool_decide (names b !! ea = None) then Done (Err (Worker ("no function at " +:+ show_0x ea)), b)
      else if bool_decide (trim decl = "") then Done (Err (Worker "empty prototype declaration"), b)
      else Done (Ok (changed_outcome b [("ea", JNum ea); ("decl", JStr decl)]),
                 mutated (names b) (comments b) (bytes b) b)
  end.

Definition mock_type_udt_create (name : string) (fields : list string) : mutation MockBackend := fun b =>
  match require_open b with
  | inl e => Done (Err e, b)
  | inr _ =>
      if bool_decide (trim name = "") || bool_decide (fields = [])
      then Done (Err (Worker "udt create needs a name and fields"), b)
      else Done (Ok (changed_outcome b [("name", JStr name); ("fields", JArr (JStr <$> fields))]),
                 mutated (names b) (comments b) (bytes b) b)
  end.

Definition mock_analyze_wait (b : MockBackend) : Result Value * MockBackend :=
  (_ <-? require_open b; Ok (JObj [("analyzed", JBool true); ("functions", jnat (size (names b)))]), b).

(** ** Snapshots *)

Definition mock_snapshot_create (b : MockBackend) : Result Value * MockBackend :=
  match require_open b with
  | inl e => (Err e, b)
  | inr _ =>
      let snaps := {| snap_revision := mock_revision b; snap_names := names b;
                      snap_comments := comments b; snap_bytes := bytes b |} :: snapshots b in
      (Ok (JObj [("snapshot", jnat (length snaps)); ("revision", JNum (mock_revision b));
                 ("rollback", JBool true)]),
       {| open_path := open_path b; mock_revision := mock_revision b; names := names b;
          comments := comments b; bytes := bytes b; decompile_off := decompile_off b;
          extra_xrefs := extra_xrefs b; snapshots := snaps |})
  end.

Definition mock_snapshot_restore (b : MockBackend) : Result Value * MockBackend :=
  match require_open b with
  | inl e => (Err e, b)
  | inr _ =>
      match snapshots b with
      | [] => (Ok (JObj [("restored", JBool false); ("reason", JStr "no snapshot taken")]), b)
      | snap :: rest =>
          let after := wrapping_add64 (snap_revision snap) 1 in
          (Ok (JObj [("restored", JBool true); ("restored_to_revision", JNum (snap_revision snap));
                     ("revision_after", JNum after)]),
           {| open_path := open_path b; mock_revision := after; names := snap_names snap;
              comments := snap_comments snap; bytes := snap_bytes snap;
              decompile_off := decompile_off b; extra_xrefs := extra_xrefs b; snapshots := rest |})
      end
  end.

#[global] Instance MockBackend_backend : IdaBackend MockBackend := {|
  open_db := mock_open;
  close_db := mock_close;
  save_db := mock_save;
  run_plugin := mock_run_plugin;
  reports := mock_reports;
  revision := mock_revision;
  function_at := mock_function_at;
  get_bytes := mock_get_bytes;
  xrefs_to := mock_xrefs_to;
  disassemble := mock_disassemble;
  decompile := mock_decompile;
  graph := mock_graph;
  hr_microcode := mock_hr_microcode;
  build_index := mock_build_index;
  patch_bytes := mock_patch_bytes;
  set_comment := mock_set_comment;
  rename := mock_rename;
  set_type := mock_set_type;
  func_create := mock_func_create;
  func_delete := mock_func_delete;
  func_resize := mock_func_resize;
  hr_lvar_rename := mock_hr_lvar_rename;
  deep_apply_prototype := mock_deep_apply_prototype;
  type_udt_create := mock_type_udt_create;
  analyze_wait := mock_analyze_wait;
  snapshot_create := mock_snapshot_create;
  snapshot_restore := mock_snapshot_restore;
|}.

(** The mock keeps the interface's promise. *)
#[global] Instance MockBackend_edits : EditLaws MockBackend.
Proof.
  split; intros *; try (intros b; cbn).
  - unfold mock_patch_bytes. destruct (require_open b); [done|].
    destruct (hex_decode _) as [[e|bs]| |]; done.
  - unfold mock_set_comment. by destruct (require_open b).
  - unfold mock_rename. destruct (require_open b); [done|]. by destruct (names b !! ea).
  - unfold mock_set_type. by destruct (require_open b).
  - unfold mock_func_create. by destruct (require_open b).
  - unfold mock_func_delete. destruct (require_open b); [done|]. by destruct (names b !! ea).
  - unfold mock_hr_lvar_rename. destruct (decompile_off b); [done|]. by destruct (mock_function_at b ea).
  - unfold mock_deep_apply_prototype. destruct (require_open b); [done|]. by repeat case_bool_decide.
  - unfold mock_type_udt_create. destruct (require_open b); [done|]. by destruct (_ || _).
  - by intros [= <- _].
Qed.

#[global] Instance MockBackend_laws : BackendLaws MockBackend.
Proof.
  split; [apply _| |].
  - intros ea s e b. cbn. unfold mock_func_resize. destruct (require_open b); [done|]. by destruct s, e.
  - intros b. left. cbn. unfold mock_snapshot_create. destruct (require_open b); done.
Qed.
