(* ===== verification/Mutations.v ===== *)
(** * Mutations: revision-guarded changes, plans and the audit trail

    Models [rmcp-worker/src/plan.rs] (parsing a plan, previewing it, applying
    it, the whole-plan revision guard, the audit trail) and the mutating arms
    of [dispatch] in [rmcp-worker/src/dispatch.rs], over any backend that
    implements [IdaBackend]; theorems that need the backend to behave assume
    [BackendLaws], which the mock discharges.  The worker state keeps the
    backend and the audit trail; the analysis index and the workflow cache of
    the source play no part here. *)

From stdpp Require Import base list gmap strings.
From Stdlib Require Import ZArith Lia Ascii.
From S2P Require Import Prelude Text Json Errors Backend.

Local Open Scope rmcp_scope.

Inductive PlannedOpKind :=
  | Rename (new_name : string)
  | Comment (comment : string) (repeatable : bool)
  | PatchBytes (bytes_hex : string)
  | FuncCreate (end_ : option Z)
  | FuncDelete
  | SetType (decl : string).

Record PlannedOp := { op_kind : PlannedOpKind; op_ea : Z }.

Definition describe (op : PlannedOp) : string :=
  match op_kind op with
  | Rename new_name => "rename -> " +:+ new_name
  | Comment comment _ => "comment -> " +:+ comment
  | PatchBytes h => "patch bytes -> " +:+ h
  | FuncCreate _ => "create function"
  | FuncDelete => "delete function"
  | SetType decl => "set type -> " +:+ decl
  end.

Definition kind_name (op : PlannedOp) : string :=
  match op_kind op with
  | Rename _ => "rename"
  | Comment _ _ => "comment"
  | PatchBytes _ => "patch_bytes"
  | FuncCreate _ => "func.create"
  | FuncDelete => "func.delete"
  | SetType _ => "set_type"
  end.

(** ** Parsing *)

Definition parse_ea (s0 : string) : Result Z :=
  let s := trim s0 in
  let bad e := Worker ("bad ea '" +:+ s +:+ "': " +:+ ParseIntError_to_string e) in
  match (match strip_prefix "0x" s with Some h => Some h | None => strip_prefix "0X" s end) with
  | Some hex => match parse_hex_u64 hex with inl e => Err (bad e) | inr x => Ok x end
  | None => match parse_u64 s with inl e => Err (bad e) | inr x => Ok x end
  end.

Definition op_err (i : nat) (m : string) : Error := Worker ("op " +:+ show_dec (Z.of_nat i) +:+ ": " +:+ m).

(** [op.get(key).and_then(as_str)]. *)
Definition str_field (op : Value) (key : string) : option string := v ← get key op; as_str v.

(** [map_err(|e| Error::Worker(format!("op {i}: {e}")))]. *)
Definition in_op {A} (i : nat) (r : Result A) : Result A :=
  match r with inl e => Err (op_err i (to_string e)) | inr a => Ok a end.

Definition parse_end (i : nat) (op : Value) : Result (option Z) :=
  match get "end" op with
  | None | Some JNull => Ok None
  | Some (JStr s) => e <-? in_op i (parse_ea s); Ok (Some e)
  | Some v => e <-? ok_or_else (as_u64 v) (op_err i "bad 'end'"); Ok (Some e)
  end.

Definition parse_kind (i : nat) (op : Value) (kind : string) : Result PlannedOpKind :=
  if bool_decide (kind = "rename") then
    s <-? ok_or_else (str_field op "name") (op_err i "rename requires 'name'"); Ok (Rename s)
  else if bool_decide (kind = "comment") then
    s <-? ok_or_else (str_field op "comment") (op_err i "comment requires 'comment'");
    Ok (Comment s (default false (v ← get "repeatable" op; as_bool v)))
  else if bool_decide (kind = "patch_bytes") then
    s <-? ok_or_else (str_field op "hex") (op_err i "patch_bytes requires 'hex'"); Ok (PatchBytes s)
  else if bool_decide (kind = "func.create") then
    e <-? parse_end i op; Ok (FuncCreate e)
  else if bool_decide (kind = "func.delete") then Ok FuncDelete
  else if bool_decide (kind = "set_type") then
    s <-? ok_or_else (str_field op "decl") (op_err i "set_type requires 'decl'"); Ok (SetType s)
  else Err (op_err i ("unknown kind '" +:+ kind
         +:+ "' (supported: rename, comment, patch_bytes, func.create, func.delete, set_type)")).

Definition parse_operation (i : nat) (op : Value) : Result PlannedOp :=
  ea <-? ok_or_else (str_field op "ea") (op_err i "missing 'ea'");
  ea <-? in_op i (parse_ea ea);
  kind <-? ok_or_else (str_field op "kind") (op_err i "missing 'kind'");
  kind <-? parse_kind i op kind;
  Ok {| op_kind := kind; op_ea := ea |}.

Fixpoint parse_from (i : nat) (ops : list Value) : Result (list PlannedOp) :=
  match ops with
  | [] => Ok []
  | op :: ops' => p <-? parse_operation i op; ps <-? parse_from (S i) ops'; Ok (p :: ps)
  end.

Definition parse_operations (ops : list Value) : Result (list PlannedOp) := parse_from 0 ops.

(** ** Preview, guard, audit *)

Section Plan.
Context {B : Type} `{!IdaBackend B}.

Definition target_ok (b : B) (op : PlannedOp) : bool :=
  is_ok (function_at b (op_ea op))
  || match get_bytes b (op_ea op) 1 with
     | inr v => negb (bool_decide (default "" (as_str (index v "hex")) = ""))
     | inl _ => false
     end.

Definition is_patch (op : PlannedOp) : bool :=
  match op_kind op with PatchBytes _ => true | _ => false end.

Definition plan (b : B) (ops : list PlannedOp) : Result Value :=
  let rows := imap (fun i op =>
    JObj [("index", jnat i); ("kind", JStr (kind_name op)); ("ea", JStr (show_0x (op_ea op)));
          ("detail", JStr (describe op)); ("target_resolves", JBool (target_ok b op))]) ops in
  let reversible := forallb (fun op => negb (is_patch op)) ops in
  Ok (JObj [("operations", jnat (length ops)); ("reversible", JBool reversible);
            ("requires_idb_snapshot", JBool (negb reversible)); ("rows", JArr rows);
            ("hint", JStr (if reversible
               then "all ops are name/comment-level and rollback-able via snapshot before apply"
               else "patch ops write bytes; take a snapshot (ida_mutation action=snapshot) first"))]).

Definition check_plan_revision (b : B) (expected : option Z) : Result unit :=
  match expected with
  | None => Ok tt
  | Some e => if (e =? revision b)%Z then Ok tt else Err (RevisionConflict e (revision b))
  end.

Definition run_op (op : PlannedOp) : mutation B :=
  match op_kind op with
  | Rename new_name => rename (op_ea op) new_name
  | Comment comment repeatable => set_comment (op_ea op) comment repeatable
  | PatchBytes h => patch_bytes (op_ea op) h
  | FuncCreate e => func_create (op_ea op) e
  | FuncDelete => func_delete (op_ea op)
  | SetType decl => set_type (op_ea op) decl
  end.

Definition audit_entry (seq : nat) (kind : string) (ea : Z) (out : MutationOutcome) : Value :=
  JObj [("seq", jnat seq); ("kind", JStr kind); ("ea", JStr (show_0x ea));
        ("revision_after", JNum (revision_after out)); ("detail", detail out)].

Definition record_audit (audit : list Value) (kind : string) (ea : Z) (out : MutationOutcome)
  : list Value := audit ++ [audit_entry (length audit) kind ea out].

Definition audit_tail (audit : list Value) (limit : nat) : Value :=
  JObj [("total", jnat (length audit)); ("entries", JArr (drop (length audit - limit) audit))].

(** ** Applying a plan: [i] operations done, [results] their rows *)

Fixpoint apply_from (i : nat) (ops : list PlannedOp) (results : list Value) (b : B)
    (audit : list Value) : outcome (Result Value * B * list Value) :=
  match ops with
  | [] =>
      Done (Ok (JObj [("applied", jnat i); ("revision_after", JNum (revision b));
                      ("results", JArr results); ("partial", JBool false)]), b, audit)
  | op :: ops' =>
      rb <~ run_op op b;
      match rb with
      | (inr out, b') =>
          apply_from (S i) ops' (results ++ [JObj [("index", jnat i); ("ok", JBool true)]]) b'
            (record_audit audit (kind_name op) (op_ea op) out)
      | (inl e, b') =>
          Done (Ok (JObj [("applied", jnat i); ("failed_at", jnat i); ("failed_op", JStr (kind_name op));
                          ("error", JStr (to_string e)); ("error_code", JStr (code e));
                          ("results", JArr results); ("partial", JBool true)]), b', audit)
      end
  end.

Definition apply (ops : list PlannedOp) (b : B) (audit : list Value)
  : outcome (Result Value * B * list Value) := apply_from 0 ops [] b audit.

(** ** The worker's handlers *)

Record WorkerState := { backend : option B; audit : list Value }.

Definition need_backend (st : WorkerState) : Result B := ok_or_else (backend st) no_db.

Definition ea_param (params : Value) (key : string) : Result Z :=
  match get key params with
  | Some (JStr s) => parse_ea s
  | Some v => ok_or_else (as_u64 v) (Worker ("bad ea value for '" +:+ key +:+ "'"))
  | None => Err (Worker ("missing '" +:+ key +:+ "'"))
  end.

Definition opt_ea_param (params : Value) (key : string) : Result (option Z) :=
  match get key params with
  | None | Some JNull => Ok None
  | Some _ => e <-? ea_param params key; Ok (Some e)
  end.

Definition check_revision (params : Value) (b : B) : Result unit :=
  match get "expected_revision" params with
  | None | Some JNull => Ok tt
  | Some v =>
      expected <-? ok_or_else (as_u64 v) (Worker "expected_revision must be an integer");
      if (expected =? revision b)%Z then Ok tt else Err (RevisionConflict expected (revision b))
  end.

Definition outcome_value (out : MutationOutcome) : Value :=
  JObj [("changed", JBool (changed out)); ("revision_after", JNum (revision_after out));
        ("detail", detail out)].

(** The common end of a mutating arm: the call, the audit, the answer. *)
Definition commit (kind : string) (ea : Z) (call : mutation B) (b : B) (st : WorkerState)
  : outcome (Result Value * WorkerState) :=
  rb <~ call b;
  match rb with
  | (inl e, b') => Done (Err e, {| backend := Some b'; audit := audit st |})
  | (inr out, b') => Done (Ok (outcome_value out),
      {| backend := Some b'; audit := record_audit (audit st) kind ea out |})
  end.

(** Run a handler's checks; an error leaves the state alone. *)
Definition checked {A} (r : Result A) (st : WorkerState)
    (k : A -> outcome (Result Value * WorkerState)) : outcome (Result Value * WorkerState) :=
  match r with inl e => Done (Err e, st) | inr a => k a end.

Definition missing (params : Value) (key msg : string) : Result string :=
  ok_or_else (str_field params key) (Worker msg).

Definition do_patch_bytes (params : Value) (st : WorkerState) :=
  checked (ea <-? ea_param params "ea"; b <-? need_backend st; _ <-? check_revision params b;
           h <-? missing params "hex" "missing hex"; Ok (ea, b, h)) st
    (fun '(ea, b, h) => commit "patch_bytes" ea (patch_bytes ea h) b st).

Definition do_set_comment (params : Value) (st : WorkerState) :=
  checked (ea <-? ea_param params "ea"; b <-? need_backend st; _ <-? check_revision params b;
           c <-? missing params "comment" "missing comment"; Ok (ea, b, c)) st
    (fun '(ea, b, c) =>
       commit "comment" ea (set_comment ea c (default false (v ← get "repeatable" params; as_bool v))) b st).

Definition do_rename (params : Value) (st : WorkerState) :=
  checked (ea <-? ea_param params "ea"; b <-? need_backend st; _ <-? check_revision params b;
           s <-? missing params "name" "missing name"; Ok (ea, b, s)) st
    (fun '(ea, b, s) => commit "rename" ea (rename ea s) b st).

Definition do_set_type (params : Value) (st : WorkerState) :=
  checked (ea <-? ea_param params "ea"; b <-? need_backend st; _ <-? check_revision params b;
           s <-? missing params "decl" "missing decl"; Ok (ea, b, s)) st
    (fun '(ea, b, s) => commit "set_type" ea (set_type ea s) b st).

Definition do_func_create (params : Value) (st : WorkerState) :=
  checked (ea <-? ea_param params "start"; e <-? opt_ea_param params "end";
           b <-? need_backend st; _ <-? check_revision params b; Ok (ea, b, e)) st
    (fun '(ea, b, e) => commit "func.create" ea (func_create ea e) b st).

Definition do_func_delete (params : Value) (st : WorkerState) :=
  checked (ea <-? ea_param params "ea"; b <-? need_backend st; _ <-? check_revision params b;
           Ok (ea, b)) st
    (fun '(ea, b) => commit "func.delete" ea (func_delete ea) b st).

Definition do_func_resize (params : Value) (st : WorkerState) :=
  checked (ea <-? ea_param params "ea"; s <-? opt_ea_param params "new_start";
           e <-? opt_ea_param params "new_end";
           b <-? need_backend st; _ <-? check_revision params b; Ok (ea, b, s, e)) st
    (fun '(ea, b, s, e) => commit "func.resize" ea (func_resize ea s e) b st).

Definition do_lvar_rename (params : Value) (st : WorkerState) :=
  checked (ea <-? ea_param params "ea"; d <-? ea_param params "var_defea";
           s <-? missing params "name" "missing name";
           b <-? need_backend st; _ <-? check_revision params b; Ok (ea, d, s, b)) st
    (fun '(ea, d, s, b) => commit "hr.lvar_rename" ea (hr_lvar_rename ea d s) b st).

Definition do_deep_retype (params : Value) (st : WorkerState) :=
  checked (ea <-? ea_param params "ea"; s <-? missing params "decl" "missing decl";
           b <-? need_backend st; _ <-? check_revision params b; Ok (ea, s, b)) st
    (fun '(ea, s, b) => commit "deep.retype" ea (deep_apply_prototype ea s) b st).

(** [types::apply_struct], which its arm does not follow with an audit. *)
Definition apply_struct (name : string) (fields : list string) (b : B) (st : WorkerState)
  : outcome (Result Value * WorkerState) :=
  if bool_decide (trim name = "") || bool_decide (fields = []) then
    Done (Err (Worker "apply_struct needs a non-empty name and at least one field"), st)
  else
    rb <~ type_udt_create name fields b;
    let st' := {| backend := Some rb.2; audit := audit st |} in
    Done (match rb.1 with
          | inl e => Err e
          | inr out => Ok (JObj [("applied", JBool (changed out));
              ("revision_after", JNum (revision_after out)); ("detail", detail out)])
          end, st').

Definition do_types_apply (params : Value) (st : WorkerState) :=
  checked (name <-? missing params "name" "missing name";
           vs <-? ok_or_else (v ← get "fields" params; as_array v) (Worker "missing fields array");
           b <-? need_backend st; _ <-? check_revision params b; Ok (name, omap as_str vs, b)) st
    (fun '(name, fields, b) => apply_struct name fields b st).

(** The checks of [plan.mutations] and [plan.apply]. *)
Definition plan_checks (params : Value) (st : WorkerState) : Result (B * list PlannedOp) :=
  ops <-? ok_or_else (v ← get "operations" params; as_array v) (Worker "missing 'operations' array");
  ops <-? parse_operations ops;
  b <-? need_backend st;
  _ <-? check_plan_revision b (v ← get "expected_revision" params; as_u64 v);
  Ok (b, ops).

Definition do_plan_mutations (params : Value) (st : WorkerState) :=
  checked (bo <-? plan_checks params st; plan bo.1 bo.2) st (fun v => Done (Ok v, st)).

Definition do_plan_apply (params : Value) (st : WorkerState) :=
  checked (plan_checks params st) st
    (fun '(b, ops) =>
       r <~ apply ops b (audit st);
       let '(v, b', audit') := r in Done (v, {| backend := Some b'; audit := audit' |})).

Definition do_mutation_audit (params : Value) (st : WorkerState) :=
  let limit := default 100%Z (v ← get "limit" params; as_u64 v) in
  Done (Ok (audit_tail (audit st) (Z.to_nat limit)) : Result Value, st).

Definition do_snapshot_create (st : WorkerState) :=
  checked (need_backend st) st
    (fun b => let '(v, b') := snapshot_create b in Done (v, {| backend := Some b'; audit := audit st |})).

Definition do_snapshot_restore (st : WorkerState) :=
  checked (need_backend st) st
    (fun b => let '(v, b') := snapshot_restore b in Done (v, {| backend := Some b'; audit := audit st |})).

(** The arms of [dispatch] modelled here. *)
Definition dispatch (method : string) (params : Value) (st : WorkerState)
  : option (outcome (Result Value * WorkerState)) :=
  if bool_decide (method = "patch_bytes") then Some (do_patch_bytes params st)
  else if bool_decide (method = "set_comment") then Some (do_set_comment params st)
  else if bool_decide (method = "rename") then Some (do_rename params st)
  else if bool_decide (method = "set_type") then Some (do_set_type params st)
  else if bool_decide (method = "func.create") then Some (do_func_create params st)
  else if bool_decide (method = "func.delete") then Some (do_func_delete params st)
  else if bool_decide (method = "func.resize") then Some (do_func_resize params st)
  else if bool_decide (method = "hr.lvar_rename") then Some (do_lvar_rename params st)
  else if bool_decide (method = "deep.retype") then Some (do_deep_retype params st)
  else if bool_decide (method = "types.apply") then Some (do_types_apply params st)
  else if bool_decide (method = "plan.mutations") then Some (do_plan_mutations params st)
  else if bool_decide (method = "plan.apply") then Some (do_plan_apply params st)
  else if bool_decide (method = "mutation.audit") then Some (do_mutation_audit params st)
  else if bool_decide (method = "snapshot.create") then Some (do_snapshot_create st)
  else if bool_decide (method = "snapshot.restore") then Some (do_snapshot_restore st)
  else None.
End Plan.
Arguments WorkerState B : clear implicits.

(** ** Addresses *)

(** Round trip: both notations of an address, hexadecimal as the program
    prints it and decimal, parse back to it, for every 64-bit address. *)
Theorem parse_ea_show (n : Z) :
  is_u64 n -> parse_ea (show_0x n) = Ok n /\ parse_ea (show_dec n) = Ok n.
Proof.
  intros Hn. assert (0 <= n)%Z as H0 by (unfold is_u64 in Hn; lia). split.
  - unfold parse_ea, show_0x, show_hex.
    rewrite trim_graphic by (rewrite all_chars_app, show_graphic by lia; reflexivity).
    rewrite strip_prefix_app. unfold parse_hex_u64. by rewrite parse_show by (done || lia).
  - unfold parse_ea, show_dec. rewrite trim_show by lia.
    assert (forall x, strip_prefix (String "0" (String x "")) (show_radix 10 n) = None
      \/ is_ascii_digit x = true) as Hno.
    { intros x. destruct (strip_prefix _ _) as [r|] eqn:E; [|by left]. right.
      apply strip_prefix_Some in E. pose proof (show_dec_digits n H0) as Hd. unfold show_dec in Hd.
      rewrite E, !append_cons in Hd. cbn [all_chars] in Hd.
      apply andb_true_iff in Hd as [_ Hd]. by apply andb_true_iff in Hd as [Hx _]. }
    destruct (Hno "x"%char) as [->|Hx]; [|discriminate Hx].
    destruct (Hno "X"%char) as [->|Hx]; [|discriminate Hx].
    unfold parse_u64. by rewrite parse_show by (done || lia).
Qed.

Lemma parse_ea_show_witness : parse_ea "0x401000" = Ok 4198400%Z.
Proof. apply (parse_ea_show 4198400). vm_compute. split; congruence. Defined.

(** ** Lemmas: running operations *)

(** The audit trail numbers its entries. *)
Definition audit_wf (audit : list Value) : Prop :=
  forall i e, audit !! i = Some e -> index e "seq" = jnat i.

Lemma audit_wf_record audit kind ea out :
  audit_wf audit -> audit_wf (record_audit audit kind ea out).
Proof.
  intros H i e Hi. unfold record_audit in Hi.
  apply lookup_app_Some in Hi as [Hi|[Hge Hi]]; [by apply H|].
  apply list_lookup_singleton_Some in Hi as [Hi <-].
  change (jnat (length audit) = jnat i). f_equal. lia.
Qed.

Section Laws.
Context {B : Type} `{!IdaBackend B} `{!EditLaws B}.

Lemma run_op_bumps op : bumps (run_op op).
Proof.
  unfold run_op. destruct (op_kind op); [apply rename_bumps|apply set_comment_bumps|
    apply patch_bytes_bumps|apply func_create_bumps|apply func_delete_bumps|apply set_type_bumps].
Qed.

(** [k] operations succeed in a row from [b]. *)
Inductive ran : list PlannedOp -> B -> B -> Prop :=
  | ran_nil b : ran [] b b
  | ran_cons op ops b b1 b2 out :
      run_op op b = Done (Ok out, b1) -> ran ops b1 b2 -> ran (op :: ops) b b2.

Lemma ran_revision ops b b' :
  ran ops b b' -> is_u64 (revision b) ->
  revision b' = ((revision b + Z.of_nat (length ops)) mod u64_modulus)%Z /\ is_u64 (revision b').
Proof.
  induction 1 as [b|op ops b b1 b2 out Hop _ IH]; intros Hb.
  - simpl. rewrite Z.add_0_r, Z.mod_small by exact Hb. done.
  - pose proof (run_op_bumps op b) as Hl. rewrite Hop in Hl. destruct Hl as [Hr _].
    destruct IH as [IH ?]; [rewrite Hr; apply wrapping_add64_u64|]. split; [|done].
    rewrite IH, Hr. unfold wrapping_add64. simpl length. rewrite Zplus_mod_idemp_l. f_equal. lia.
Qed.

Lemma apply_from_spec i ops results b audit r b' audit' :
  apply_from i ops results b audit = Done (r, b', audit') ->
  exists k v entries, (k <= length ops)%nat
    /\ ran (take k ops) b b' /\ audit' = audit ++ entries /\ length entries = k
    /\ (audit_wf audit -> audit_wf audit')
    /\ r = Ok v /\ index v "applied" = jnat (i + k)
    /\ index v "partial" = JBool (k <? length ops)%nat
    /\ ((k < length ops)%nat -> index v "failed_at" = jnat (i + k)
          /\ exists op e, ops !! k = Some op /\ run_op op b' = Done (Err e, b')
               /\ index v "error_code" = JStr (code e)).
Proof.
  revert i results b audit. induction ops as [|op ops IH]; intros i results b audit; cbn [apply_from].
  - intros [= <- <- <-]. eexists 0%nat, _, []. rewrite app_nil_r. split; [done|]. split; [constructor|].
    split; [done|]. split; [done|]. split; [done|]. split; [done|]. rewrite Nat.add_0_r.
    split; [done|]. split; [done|]. simpl. lia.
  - destruct (run_op op b) as [[[e|out] b1]| |] eqn:Hop; cbn [obind]; try done.
    + pose proof (run_op_bumps op b) as Hl. rewrite Hop in Hl. subst b1.
      intros [= <- <- <-]. eexists 0%nat, _, []. rewrite app_nil_r. split; [simpl; lia|].
      split; [constructor|]. do 4 (split; [done|]). rewrite Nat.add_0_r. split; [done|].
      split; [done|]. intros _. split; [done|]. exists op, e. done.
    + intros Hrun. apply IH in Hrun
        as (k & v & entries & Hk & Hran & Ha & Hlen & Hwf & Hr & Happ & Hpart & Hfail).
      exists (S k), v, (audit_entry (length audit) (kind_name op) (op_ea op) out :: entries).
      split; [simpl; lia|]. split; [simpl; by econstructor|].
      split; [rewrite Ha; unfold record_audit; by rewrite <- app_assoc|].
      split; [simpl; by rewrite Hlen|].
      split; [intros Hw; by apply Hwf, audit_wf_record|]. split; [done|].
      split; [by rewrite Nat.add_succ_r|]. split; [done|].
      intros Hlt. rewrite Nat.add_succ_r. apply Hfail. simpl in Hlt. lia.
Qed.
End Laws.

(** A worker with the mock database open. *)
Definition open_mock : MockBackend := (mock_open "a.i64" MockBackend_new).2.
Definition mock_state : WorkerState MockBackend := {| backend := Some open_mock; audit := [] |}.
Definition two_renames : list PlannedOp :=
  [{| op_kind := Rename "start"; op_ea := 0x401000 |};
   {| op_kind := Rename "nowhere"; op_ea := 0x500000 |};
   {| op_kind := FuncDelete; op_ea := 0x401100 |}].

(** C12. A plan is applied in order up to its first failure: exactly the [k]
    operations before it ran, each on the state the previous one left; the
    revision advanced by [k] and the audit trail grew by [k] numbered
    entries; the answer reports [k], whether operations are missing, and the
    position and error code of the one that failed, which changed nothing. *)
Theorem plan_apply_prefix {B : Type} `{!IdaBackend B} `{!EditLaws B} (ops : list PlannedOp)
    (b b' : B) (audit audit' : list Value) (r : Result Value) :
  is_u64 (revision b) -> audit_wf audit -> apply ops b audit = Done (r, b', audit') ->
  exists k v, (k <= length ops)%nat /\ ran (take k ops) b b'
    /\ revision b' = ((revision b + Z.of_nat k) mod u64_modulus)%Z
    /\ (exists entries, audit' = audit ++ entries /\ length entries = k) /\ audit_wf audit'
    /\ r = Ok v /\ index v "applied" = jnat k /\ index v "partial" = JBool (k <? length ops)%nat
    /\ ((k < length ops)%nat -> index v "failed_at" = jnat k
          /\ exists op e, ops !! k = Some op /\ run_op op b' = Done (Err e, b')
               /\ index v "error_code" = JStr (code e)).
Proof.
  intros Hb Hwf Hrun.
  destruct (apply_from_spec _ _ _ _ _ _ _ _ Hrun)
    as (k & v & entries & Hk & Hran & Ha & Hlen & Hwf' & Hr & Happ & Hpart & Hfail).
  exists k, v. destruct (ran_revision _ _ _ Hran Hb) as [Hrev _].
  rewrite length_take, Nat.min_l in Hrev by done.
  do 3 (split; [done|]). split; [by exists entries|]. split; [by apply Hwf'|]. done.
Qed.

Lemma plan_apply_prefix_witness :
  exists r b' audit', apply two_renames open_mock [] = Done (r, b', audit')
    /\ exists k, revision b' = ((revision open_mock + Z.of_nat k) mod u64_modulus)%Z
         /\ length audit' = k.
Proof.
  destruct (apply two_renames open_mock []) as [[[r b'] audit']| |] eqn:Hrun;
    [|vm_compute in Hrun; discriminate Hrun..].
  exists r, b', audit'. split; [reflexivity|].
  destruct (plan_apply_prefix two_renames open_mock b' [] audit' r) as (k & v & _ & _ & Hrev & (en & Ha & Hl) & _).
  - vm_compute. split; congruence.
  - intros i e Hi. discriminate Hi.
  - exact Hrun.
  - exists k. split; [exact Hrev|]. rewrite Ha. exact Hl.
Defined.

(** ** The revision guard *)

Definition guarded_methods : list string :=
  ["patch_bytes"; "set_comment"; "rename"; "set_type"; "func.create"; "func.delete"; "func.resize";
   "hr.lvar_rename"; "deep.retype"; "types.apply"; "plan.mutations"; "plan.apply"].

(** The same request with another expected revision, or none. *)
Definition same_request (params params' : Value) : Prop :=
  forall key, key <> "expected_revision" -> get key params' = get key params.

Section SameRequest.
Context (params params' : Value) (Hs : same_request params params').

Lemma ea_param_same key : key <> "expected_revision" -> ea_param params' key = ea_param params key.
Proof. intros Hk. unfold ea_param. by rewrite Hs. Qed.

Lemma opt_ea_param_same key : key <> "expected_revision" -> opt_ea_param params' key = opt_ea_param params key.
Proof. intros Hk. unfold opt_ea_param. by rewrite Hs, ea_param_same. Qed.

Lemma missing_same key msg : key <> "expected_revision" -> missing params' key msg = missing params key msg.
Proof. intros Hk. unfold missing, str_field. by rewrite Hs. Qed.
End SameRequest.

(** The outcome of a guarded request: a conflict, or an error that was found
    before the revision was looked at and that any expected revision would meet. *)
Definition refused {B : Type} `{!IdaBackend B} (method : string) (params : Value) (st : WorkerState B) (conflict : Error) : Prop :=
  exists err, dispatch method params st = Some (Done (Err err, st))
    /\ (err = conflict \/ forall params', same_request params params' -> dispatch method params' st = Some (Done (Err err, st))).

(** Closes a goal [refused] whose handler has met an error: with the guard's
    conflict, or earlier. *)
Ltac refuse :=
  eexists; split; [reflexivity|];
  first [left; reflexivity
        | right; intros params' Hs; cbv [dispatch]; rewrite ?bool_decide_false, ?bool_decide_true by done;
          unfold do_patch_bytes, do_set_comment, do_rename, do_set_type, do_func_create, do_func_delete, do_func_resize,
            do_lvar_rename, do_deep_retype, do_types_apply, do_plan_mutations, do_plan_apply, plan_checks;
          rewrite ?(ea_param_same _ _ Hs), ?(opt_ea_param_same _ _ Hs), ?(missing_same _ _ Hs), ?(Hs "fields"), ?(Hs "operations") by done;
          repeat (match goal with E : ?r = _ |- context [?r] => rewrite E end; cbn [bindR checked Ok]); reflexivity].

(** C24. A stale request changes nothing: whenever one of the twelve guarded
    methods ([guarded_methods]: the nine single mutations of code, names,
    comments, types and functions that carry the guard, [types.apply],
    [plan.apply] and its preview [plan.mutations]) carries an
    [expected_revision] that is an unsigned integer and not the database's
    current revision, the worker state, database and audit trail, is
    untouched, and the answer is the revision conflict, or an error in the
    other arguments that is found before the revision is looked at and that
    the request would get with any expected revision. *)
Theorem stale_revision_rejected {B : Type} `{!IdaBackend B} (method : string) (params : Value)
    (st : WorkerState B) (b : B) (e : Z) :
  method ∈ guarded_methods -> backend st = Some b ->
  get "expected_revision" params = Some (JNum e) -> is_u64 e -> e <> revision b ->
  exists err, dispatch method params st = Some (Done (Err err, st))
    /\ (err = RevisionConflict e (revision b)
        \/ forall params', same_request params params' -> dispatch method params' st = Some (Done (Err err, st))).
Proof.
  intros Hm Hb Hg He Hne. change (refused method params st (RevisionConflict e (revision b))).
  assert (as_u64 (JNum e) = Some e) as Hu by (cbn; by rewrite bool_decide_true).
  assert (check_revision params b = Err (RevisionConflict e (revision b))) as Hc.
  { unfold check_revision. rewrite Hg, Hu. cbn. by destruct (Z.eqb_spec e (revision b)). }
  assert (check_plan_revision b (v ← get "expected_revision" params; as_u64 v) = Err (RevisionConflict e (revision b))) as Hp.
  { rewrite Hg. cbn [mbind option_bind]. rewrite Hu. cbn. by destruct (Z.eqb_spec e (revision b)). }
  assert (need_backend st = Ok b) as Hn by (unfold need_backend; by rewrite Hb).
  unfold guarded_methods in Hm.
  repeat (apply elem_of_cons in Hm as [->|Hm]); [..|inversion Hm];
    unfold refused; cbv [dispatch]; rewrite ?bool_decide_false, ?bool_decide_true by done;
    unfold do_patch_bytes, do_set_comment, do_rename, do_set_type, do_func_create, do_func_delete, do_func_resize,
      do_lvar_rename, do_deep_retype, do_types_apply, do_plan_mutations, do_plan_apply, plan_checks.
  all: repeat (first [rewrite Hc | rewrite Hp | rewrite Hn | match goal with
    | |- context [bindR ?r _] => lazymatch r with Ok _ => fail | inr _ => fail | bindR _ _ => fail | _ => destruct r eqn:? end end];
    cbn [bindR checked Ok]; try refuse).
Qed.

Lemma stale_revision_rejected_witness :
  dispatch "rename" (JObj [("ea", JStr "0x401000"); ("name", JStr "start"); ("expected_revision", JNum 7)]) mock_state
  = Some (Done (Err (RevisionConflict 7 0), mock_state)).
Proof.
  destruct (stale_revision_rejected "rename" (JObj [("ea", JStr "0x401000"); ("name", JStr "start");
    ("expected_revision", JNum 7)]) mock_state open_mock 7) as (err & E & [->|H]).
  - right. right. left.
  - reflexivity.
  - reflexivity.
  - vm_compute. split; congruence.
  - vm_compute. discriminate.
  - exact E.
  - exfalso. specialize (H (JObj [("ea", JStr "0x401000"); ("name", JStr "start"); ("expected_revision", JNum 0)])).
    assert (same_request (JObj [("ea", JStr "0x401000"); ("name", JStr "start"); ("expected_revision", JNum 7)])
      (JObj [("ea", JStr "0x401000"); ("name", JStr "start"); ("expected_revision", JNum 0)])) as Hs.
    { intros key Hk. cbn [get assoc]. repeat (case_bool_decide; [done|]). done. }
    specialize (H Hs). vm_compute in H. discriminate H.
Defined.

(** Rolling back changes the database and its revision, and leaves no entry in
    the audit trail. *)
Example restore_unaudited :
  exists st1 st2 st3 v1 v2 v3,
    dispatch "snapshot.create" (JObj []) mock_state = Some (Done (Ok v1, st1))
    /\ dispatch "rename" (JObj [("ea", JStr "0x401000"); ("name", JStr "start")]) st1 = Some (Done (Ok v2, st2))
    /\ dispatch "patch_bytes" (JObj [("ea", JStr "0x401000"); ("hex", JStr "90")]) st2 = Some (Done (Ok v3, st3))
    /\ exists v4 st4, dispatch "snapshot.restore" (JObj []) st3 = Some (Done (Ok v4, st4))
         /\ audit st4 = audit st3 /\ (revision <$> backend st3) = Some 2%Z /\ (revision <$> backend st4) = Some 1%Z.
Proof.
  eexists _, _, _, _, _, _. split; [vm_compute; reflexivity|]. split; [vm_compute; reflexivity|]. split; [vm_compute; reflexivity|].
  eexists _, _. split; [vm_compute; reflexivity|]. split; [reflexivity|]. split; reflexivity.
Qed.

(** [snapshot.restore] rolls the database back whatever revision the request
    expects; it reads no parameter. *)
Example restore_ignores_revision :
  exists st, dispatch "snapshot.create" (JObj []) mock_state = Some (Done st)
    /\ dispatch "snapshot.restore" (JObj [("expected_revision", JNum 999)]) st.2 = dispatch "snapshot.restore" (JObj []) st.2
    /\ exists v st', dispatch "snapshot.restore" (JObj [("expected_revision", JNum 999)]) st.2 = Some (Done (Ok v, st')).
Proof. eexists. split; [vm_compute; reflexivity|]. split; [reflexivity|]. eexists _, _. vm_compute. reflexivity. Qed.

(** The whole-plan guard is skipped when the expected revision is not an
    unsigned integer: a plan that carries it as a string runs exactly as if it
    carried none, where the guard of the single mutations rejects the same
    request. *)
Theorem plan_guard_skips_malformed {B : Type} `{!IdaBackend B} (s : string)
    (kvs : list (string * Value)) (st : WorkerState B) (b : B) :
  get "expected_revision" (JObj kvs) = None ->
  do_plan_apply (JObj (("expected_revision", JStr s) :: kvs)) st = do_plan_apply (JObj kvs) st
  /\ check_revision (JObj (("expected_revision", JStr s) :: kvs)) b
     = Err (Worker "expected_revision must be an integer").
Proof.
  intros Hn. split; [|reflexivity]. unfold do_plan_apply, plan_checks.
  assert (get "operations" (JObj (("expected_revision", JStr s) :: kvs)) = get "operations" (JObj kvs)) as ->
    by reflexivity.
  assert (get "expected_revision" (JObj (("expected_revision", JStr s) :: kvs)) = Some (JStr s)) as ->
    by reflexivity.
  by rewrite Hn.
Qed.

Lemma plan_guard_skips_malformed_witness :
  let ops := ("operations", JArr [JObj [("ea", JStr "0x401000"); ("kind", JStr "rename"); ("name", JStr "x")]]) in
  do_plan_apply (JObj [("expected_revision", JStr "999"); ops]) mock_state
  = do_plan_apply (JObj [ops]) mock_state.
Proof.
  exact (proj1 (plan_guard_skips_malformed "999" [("operations",
    JArr [JObj [("ea", JStr "0x401000"); ("kind", JStr "rename"); ("name", JStr "x")]])]
    mock_state open_mock eq_refl)).
Defined.

(** ** Every mutation is audited *)

(** The database moved by as many revisions as entries were added. *)
Definition audited {B} `{!IdaBackend B} (b : B) (st st' : WorkerState B) : Prop :=
  exists b' entries, backend st' = Some b' /\ audit st' = audit st ++ entries
    /\ revision b' = ((revision b + Z.of_nat (length entries)) mod u64_modulus)%Z
    /\ (audit_wf (audit st) -> audit_wf (audit st')).

Lemma audited_same {B} `{!IdaBackend B} (b : B) (st : WorkerState B) :
  backend st = Some b -> is_u64 (revision b) -> audited b st st.
Proof.
  intros Hb Hr. exists b, []. rewrite app_nil_r. simpl. rewrite Z.add_0_r, Z.mod_small by exact Hr. done.
Qed.

Lemma commit_audited {B} `{!IdaBackend B} kind ea (call : mutation B) b (st st' : WorkerState B) res :
  bumps call -> is_u64 (revision b) ->
  commit kind ea call b st = Done (res, st') -> audited b st st'.
Proof.
  intros Hbump Hr. unfold commit. specialize (Hbump b).
  destruct (call b) as [[[e|out] b']| |]; cbn [obind]; [| |done..]; intros [= _ <-].
  - subst b'. exists b, []. simpl. rewrite app_nil_r, Z.add_0_r, Z.mod_small by exact Hr. done.
  - destruct Hbump as [Hb' _]. eexists b', [_]. split; [done|]. split; [reflexivity|].
    split; [done|]. apply audit_wf_record.
Qed.

Lemma checked_audited {B A} `{!IdaBackend B} (r : Result A) b (st st' : WorkerState B) res k :
  backend st = Some b -> is_u64 (revision b) ->
  (forall a, r = inr a -> k a = Done (res, st') -> audited b st st') ->
  checked r st k = Done (res, st') -> audited b st st'.
Proof.
  intros Hb Hr Hk. destruct r as [e|a]; cbn [checked]; [|by apply Hk].
  intros [= _ <-]. by apply audited_same.
Qed.

Definition audited_methods : list string :=
  ["patch_bytes"; "set_comment"; "rename"; "set_type"; "func.create"; "func.delete"; "func.resize";
   "hr.lvar_rename"; "deep.retype"; "plan.mutations"; "plan.apply"; "mutation.audit"].

(** C25. The audited requests are audited exactly: through a request of one of
    the twelve methods of [audited_methods] (patch_bytes, set_comment, rename,
    set_type, func.create, func.delete, func.resize, hr.lvar_rename,
    deep.retype, plan.apply, and the reads plan.mutations and
    mutation.audit), the audit trail only grows, keeps its numbering, and
    grows by exactly as many entries as the database's revision advances.
    (Not so types.apply, snapshot.create and snapshot.restore, and deob.apply
    for the snapshot it takes: they move the revision without an entry.) *)
Theorem mutations_audited {B : Type} `{!IdaBackend B} `{!BackendLaws B} (method : string)
    (params : Value) (st st' : WorkerState B) (b : B) (res : Result Value) :
  method ∈ audited_methods -> backend st = Some b -> is_u64 (revision b) ->
  dispatch method params st = Some (Done (res, st')) ->
  exists b' entries, backend st' = Some b' /\ audit st' = audit st ++ entries
    /\ revision b' = ((revision b + Z.of_nat (length entries)) mod u64_modulus)%Z
    /\ (audit_wf (audit st) -> audit_wf (audit st')).
Proof.
  intros Hm Hb Hr Hrun. change (audited b st st'). unfold audited_methods in Hm.
  assert (need_backend st = Ok b) as Hn by (unfold need_backend; by rewrite Hb).
  repeat (apply elem_of_cons in Hm as [->|Hm]); [..|inversion Hm];
    cbv [dispatch] in Hrun; rewrite ?bool_decide_false, ?bool_decide_true in Hrun by done;
    apply (inj Some) in Hrun;
    unfold do_patch_bytes, do_set_comment, do_rename, do_set_type,
      do_func_create, do_func_delete, do_func_resize, do_lvar_rename, do_deep_retype in Hrun;
    rewrite ?Hn in Hrun.
  1-9: eapply checked_audited; [exact Hb|exact Hr| |exact Hrun];
    intros a Ha Hc;
    repeat match type of Ha with
      | bindR ?r _ = _ => destruct r; cbn [bindR Ok] in Ha; [discriminate Ha|]
      end; injection Ha as <-; eapply commit_audited; [|exact Hr|exact Hc].
  1: apply patch_bytes_bumps.
  1: apply set_comment_bumps.
  1: apply rename_bumps.
  1: apply set_type_bumps.
  1: apply func_create_bumps.
  1: apply func_delete_bumps.
  1: apply func_resize_bumps.
  1: apply hr_lvar_rename_bumps.
  1: apply deep_apply_prototype_bumps.
  - unfold do_plan_mutations in Hrun. eapply checked_audited; [exact Hb|exact Hr| |exact Hrun].
    intros a _ [= _ <-]. by apply audited_same.
  - unfold do_plan_apply in Hrun. eapply checked_audited; [exact Hb|exact Hr| |exact Hrun].
    intros [b0 ops] Ha Hc.
    assert (b0 = b) as ->.
    { unfold plan_checks in Ha. rewrite Hn in Ha.
      destruct (ok_or_else _ _) as [|ops0]; cbn [bindR Ok] in Ha; [discriminate Ha|].
      destruct (parse_operations ops0); cbn [bindR Ok] in Ha; [discriminate Ha|].
      destruct (check_plan_revision b _); cbn [bindR Ok] in Ha; [discriminate Ha|]. by injection Ha. }
    destruct (apply ops b (audit st)) as [[[v b'] audit']| |] eqn:Happ; cbn [obind] in Hc; [|done..].
    injection Hc as _ <-.
    destruct (apply_from_spec _ _ _ _ _ _ _ _ Happ) as (k & v' & en & Hk & Hran & Ha' & Hlen & Hwf & _).
    exists b', en. split; [done|]. split; [done|]. split; [|done].
    destruct (ran_revision _ _ _ Hran Hr) as [-> _]. by rewrite length_take, Nat.min_l, Hlen.
  - unfold do_mutation_audit in Hrun. injection Hrun as _ <-. by apply audited_same.
Qed.

Lemma mutations_audited_witness :
  exists res st', dispatch "rename" (JObj [("ea", JStr "0x401000"); ("name", JStr "start")]) mock_state
      = Some (Done (res, st'))
    /\ exists b' entries, backend st' = Some b' /\ audit st' = entries.
Proof.
  destruct (dispatch "rename" (JObj [("ea", JStr "0x401000"); ("name", JStr "start")]) mock_state)
    as [[[res st']| |]|] eqn:Hrun; [|vm_compute in Hrun; discriminate Hrun..].
  exists res, st'. split; [reflexivity|].
  destruct (mutations_audited "rename" (JObj [("ea", JStr "0x401000"); ("name", JStr "start")])
              mock_state st' open_mock res) as (b' & en & Hb & Ha & _).
  - right. right. left.
  - reflexivity.
  - vm_compute. split; congruence.
  - exact Hrun.
  - exists b', en. split; [exact Hb|exact Ha].
Defined.

(** One mutation escapes the audit: a successful [types.apply] advances
    the revision of the database and leaves the audit trail as it was, where
    the trail is documented to record every mutation. *)
Theorem types_apply_unaudited {B : Type} `{!IdaBackend B} `{!EditLaws B} (params v : Value)
    (st st' : WorkerState B) (b : B) :
  backend st = Some b -> dispatch "types.apply" params st = Some (Done (Ok v, st')) ->
  exists b', backend st' = Some b' /\ revision b' = wrapping_add64 (revision b) 1
    /\ audit st' = audit st.
Proof.
  intros Hb Hrun. assert (need_backend st = Ok b) as Hn by (unfold need_backend; by rewrite Hb).
  cbv [dispatch] in Hrun. rewrite !bool_decide_false, bool_decide_true in Hrun by done.
  apply (inj Some) in Hrun. unfold do_types_apply in Hrun.
  destruct (missing params _ _) as [|name]; cbn [bindR checked] in Hrun; [done|].
  destruct (ok_or_else _ _) as [|vs]; cbn [bindR checked] in Hrun; [done|].
  rewrite Hn in Hrun. cbn [bindR Ok] in Hrun.
  destruct (check_revision params b); cbn [bindR checked Ok] in Hrun; [done|].
  unfold apply_struct in Hrun. destruct (_ || _); [done|].
  pose proof (type_udt_create_bumps name (omap as_str vs) b) as Hbump.
  destruct (type_udt_create name (omap as_str vs) b) as [[[e|out] b']| |]; cbn [obind fst snd] in Hrun;
    [done| |done..].
  injection Hrun as _ <-. exists b'. destruct Hbump. done.
Qed.

Lemma types_apply_unaudited_witness :
  exists v st', dispatch "types.apply" (JObj [("name", JStr "pkt"); ("fields", JArr [JStr "int a"])]) mock_state
      = Some (Done (Ok v, st'))
    /\ exists b', backend st' = Some b' /\ revision b' = 1%Z /\ audit st' = [].
Proof.
  destruct (dispatch "types.apply" (JObj [("name", JStr "pkt"); ("fields", JArr [JStr "int a"])]) mock_state)
    as [[[[e|v] st']| |]|] eqn:Hrun; [vm_compute in Hrun; discriminate Hrun| |vm_compute in Hrun; discriminate Hrun..].
  exists v, st'. split; [reflexivity|].
  destruct (types_apply_unaudited (JObj [("name", JStr "pkt"); ("fields", JArr [JStr "int a"])]) v
    mock_state st' open_mock eq_refl Hrun) as (b' & Hb & Hr & Ha).
  exists b'. split; [exact Hb|]. split; [exact Hr|exact Ha].
Defined.

(** ** Snapshots of the mock *)

(** A mutation of the mock keeps its snapshots and leaves it open. *)
Lemma mock_run_keeps op (b b' : MockBackend) res :
  run_op op b = Done (res, b') -> snapshots b' = snapshots b /\ open_path b' = open_path b.
Proof.
  destruct op as [[] ea]; cbn; unfold mock_rename, mock_set_comment, mock_patch_bytes, mock_func_create,
    mock_func_delete, mock_set_type; destruct (require_open b); try (by intros [= _ <-]).
  - destruct (names b !! ea); by intros [= _ <-].
  - destruct (hex_decode _) as [[e|bs]| |]; cbn [obind]; try done; by intros [= _ <-].
  - destruct (names b !! ea); by intros [= _ <-].
Qed.

Lemma mock_ran_keeps ops (b b' : MockBackend) :
  ran ops b b' -> snapshots b' = snapshots b /\ open_path b' = open_path b.
Proof.
  induction 1 as [|op ops b b1 b2 out Hop _ [IH1 IH2]]; [done|].
  destruct (mock_run_keeps _ _ _ _ Hop). split; congruence.
Qed.

(** Rolling back restores the content and not a fresh revision: after a
    snapshot and any number of successful operations, restoring brings back
    the names, comments and bytes of the snapshot, at the snapshot's revision
    plus one.  So after a single operation the rolled-back database carries
    the very revision that operation reported, and the guard accepts a plan
    made before the rollback, which the bump is documented to prevent. *)
Theorem restore_reuses_revision (b : MockBackend) (ops : list PlannedOp) (b2 : MockBackend) (path : string) :
  open_path b = Some path -> is_u64 (mock_revision b) ->
  ran ops (mock_snapshot_create b).2 b2 ->
  let b3 := (mock_snapshot_restore b2).2 in
  names b3 = names b /\ comments b3 = comments b /\ bytes b3 = bytes b /\ snapshots b3 = snapshots b
  /\ revision b3 = wrapping_add64 (revision b) 1
  /\ (length ops = 1%nat -> revision b3 = revision b2 /\ check_plan_revision b3 (Some (revision b2)) = Ok tt).
Proof.
  intros Hopen Hr Hran. pose proof (mock_ran_keeps _ _ _ Hran) as [Hs Ho].
  destruct (ran_revision _ _ _ Hran) as [Hrev _].
  { unfold mock_snapshot_create, require_open. by rewrite Hopen. }
  unfold mock_snapshot_create, require_open in *. rewrite Hopen in *. cbn in *.
  unfold mock_snapshot_restore, require_open. rewrite Ho, Hs. cbn.
  do 5 (split; [done|]). intros Hl. rewrite Hl in Hrev. unfold wrapping_add64.
  change (Z.of_nat 1) with 1%Z in Hrev. rewrite Hrev. split; [done|]. by rewrite Z.eqb_refl.
Qed.

Lemma restore_reuses_revision_witness :
  exists b2, ran [{| op_kind := Rename "start"; op_ea := 0x401000 |}] (mock_snapshot_create open_mock).2 b2
    /\ names b2 !! 0x401000%Z = Some "start"
    /\ names (mock_snapshot_restore b2).2 !! 0x401000%Z = Some "main"
    /\ revision (mock_snapshot_restore b2).2 = revision b2.
Proof.
  destruct (run_op {| op_kind := Rename "start"; op_ea := 0x401000 |} (mock_snapshot_create open_mock).2)
    as [[[e|out] b2]| |] eqn:Hop; [vm_compute in Hop; discriminate Hop| |vm_compute in Hop; discriminate Hop..].
  assert (ran [{| op_kind := Rename "start"; op_ea := 0x401000 |}] (mock_snapshot_create open_mock).2 b2) as Hran.
  { econstructor; [exact Hop|constructor]. }
  exists b2. split; [exact Hran|].
  destruct (restore_reuses_revision open_mock _ b2 "a.i64" eq_refl ltac:(vm_compute; split; congruence) Hran)
    as (Hn & _ & _ & _ & _ & Hrev).
  split; [vm_compute in Hop; injection Hop as _ <-; reflexivity|].
  split; [rewrite Hn; reflexivity|exact (proj1 (Hrev eq_refl))].
Defined.
