(* ===== verification/IdaLib.v ===== *)
(** * IdaLib: the backend that drives IDA

    Models [rmcp-ida/src/idalib_backend.rs]: every operation of the
    [IdaBackend] trait as the code performs it on the IDA library.  The
    library itself (the calls of the vendored [idalib] crates, which end in
    IDA's C++ code) is the class [Ida] over an abstract state [K]: the library
    with its open database and the files it and the backend touch.  The
    lists IDA hands out through cursors ([first_xref_to] and [next_to], the
    function and segment iterators) are given as the list the cursor walks.
    Addresses are [Z]; additions wrap at 64 bits, as in the release build. *)

From stdpp Require Import base list gmap strings.
From Stdlib Require Import ZArith Lia Ascii.
From S2P Require Import Prelude Text Json Errors Index Backend Mutations.

Local Open Scope rmcp_scope.
Local Open Scope Z_scope.

(** ** What IDA shows *)

Record Func := { f_start : Z; f_end : Z; f_name : option string }.
Record Op := { op_addr : option Z; op_value : option Z; op_type : string }.
(** [operand_count] is the length; [operand(i)] may be missing. *)
Record Insn := { i_len : Z; i_is_call : bool; i_is_indirect_jump : bool; i_ops : list (option Op) }.
Inductive CodeRef := FarCall | NearCall | FarJump | NearJump | Flow | OtherCode.
Inductive XRefType := CodeXref (c : CodeRef) | DataXref.
Record XRef := { x_from : Z; x_to : Z; x_type : XRefType }.
Record Seg := { s_name : option string; s_start : Z; s_end : Z; s_len : Z; s_read : bool; s_write : bool; s_exec : bool }.
Record Block := { b_start : Z; b_end : Z; b_succs : list nat }.
Record Meta := { procname : string; is_64bit : bool; is_32bit_exactly : bool; min_address : Z; max_address : Z }.
Record Entry := { e_ordinal : Z; e_ea : Z; e_name : string }.
Record ImportEntry := { im_ea : Z; im_name : string; im_ord : Z }.
Record FixupInfo := { fx_ea : Z; fx_kind : Z; fx_flags : Z; fx_base : Z; fx_sel : Z; fx_off : Z; fx_displacement : Z }.
Record SwitchInfo := {
  jump_ea : Z; sw_flags : Z; jumps : Z; sw_values : Z; defjump : Z; elbase : Z; ncases : Z; jcases : Z; lowcase : Z;
  regnum : Z; jtable_element_size : Z; vtable_element_size : Z; startea : Z }.
Record CallRow := { call_ea : Z; target_ea : Z; direct : bool; target_name : string; call_args : list string }.
Record Prototype := { ret_type : string; arg_types : list string; proto_truncated : bool; known : bool }.
Record MemberRow := { base_text : string; is_global : bool; base_ea : Z; m_offset : Z; access_size : Z; is_write : bool; at_ea : Z }.
Record MicrocodeDump := { mc_maturity : Z; mc_qty : Z; mc_truncated : bool; mc_blocks : Value; mc_insns : Value }.
(** A decompiled function; a [Z] is the limit of a listing, whose second part
    says whether it was cut. *)
Record CFunc := {
  pseudocode : string; cf_return_type : string;
  ctree_rows : Z -> list Value * bool; lvar_rows : Z -> list Value * bool;
  func_prototype : Z -> Prototype; call_rows : Z -> list CallRow * bool;
  member_rows : Z -> list MemberRow * bool; prototype_text : string }.

Class Ida (K : Type) := {
  (** reading *)
  ida_meta : K -> Meta;
  ida_functions : K -> list Func;
  function_count : K -> Z;
  ida_function_at : K -> Z -> option Func;
  ida_segments : K -> list Seg;
  segment_count : K -> Z;
  ida_entries : K -> list Entry;
  ida_strings : K -> list (Z * string);
  ida_xrefs_to : K -> Z -> list XRef;
  ida_xrefs_from : K -> Z -> list XRef;
  insn_at : K -> Z -> option Insn;
  ida_bytes : K -> Z -> Z -> list Z;
  original_byte : K -> Z -> Z;
  disasm_line : K -> Z -> string;
  get_name : K -> Z -> string;
  flow_chart : K -> Func -> option (list Block);
  find_imm : K -> Z -> list Z;
  ida_comment : K -> Z -> bool -> option string;
  decompiler_available : K -> bool;
  ida_decompile : K -> Func -> string + CFunc;
  input_file_md5 : K -> option (list Z);
  input_file_sha256 : K -> option (list Z);
  imagebase : K -> Z;
  import_module_qty : K -> nat;
  import_module_name : K -> nat -> option string;
  enum_imports : K -> nat -> list ImportEntry;
  ida_fixups : K -> Z -> list FixupInfo;
  ea_of_file_offset : K -> Z -> option Z;
  file_offset_of : K -> Z -> option Z;
  func_chunks : K -> Func -> list (Z * Z);
  is_tail_chunk : K -> Z -> bool;
  switch_info : K -> Z -> option SwitchInfo;
  ida_sp_delta : K -> Func -> Z -> Z;
  gen_microcode_dump : K -> Z -> Z -> Z -> string + MicrocodeDump;
  insn_feature : K -> Z -> Z;
  insn_mnemonic : K -> Z -> string;
  ida_demangle : K -> string -> option string;
  vtable_slots : K -> Z -> Z -> list Value;
  udt_match_shape : K -> list (Z * Z) -> option string;
  (** the database and its files *)
  open_database : string -> bool -> K -> (string + unit) * K;
  close_database : bool -> K -> K;
  save_database : K -> bool * K;
  copy_file : string -> string -> K -> (string + unit) * K;
  auto_wait : K -> K;
  (** editing *)
  ida_patch : Z -> list Z -> K -> bool * K;
  ida_set_comment : Z -> string -> bool -> K -> (string + unit) * K;
  set_name : Z -> string -> K -> bool * K;
  add_func : Z -> K -> bool * K;
  add_func_range : Z -> Z -> K -> bool * K;
  del_func : Z -> K -> bool * K;
  set_func_start : Z -> Z -> K -> Z * K;
  set_func_end : Z -> Z -> K -> bool * K;
  lvar_rename : Func -> Z -> string -> K -> bool * K;
  apply_prototype : Func -> string -> K -> bool * K;
  udt_create : string -> list string -> K -> option Z * K;
  create_insn : Z -> K -> Z * K;
  load_plugin : string -> K -> string + unit;
  plugin_run : string -> Z -> K -> bool * K;
  (** the environment *)
  ida_env : string -> option string;
  path_separator : ascii -> bool;
}.

(** [idb] holds the flag of [save_on_close]; [ida] is the library. *)
Record IdaLibBackend (K : Type) := {
  idb : option bool;
  db_path : option string;
  lib_revision : Z;
  snapshot_file : option string;
  snapshot_seq : Z;
  ida : K;
}.
Arguments idb {K} _.
Arguments db_path {K} _.
Arguments lib_revision {K} _.
Arguments snapshot_file {K} _.
Arguments snapshot_seq {K} _.
Arguments ida {K} _.
Arguments Build_IdaLibBackend {K} _ _ _ _ _ _.

Definition IdaLibBackend_new {K} (k : K) : IdaLibBackend K :=
  {| idb := None; db_path := None; lib_revision := 0; snapshot_file := None; snapshot_seq := 0; ida := k |}.

(** A report as a JSON object with some fields set again. *)
Definition set_field (key : string) (v : Value) (o : Value) : Value :=
  match o with JObj kvs => JObj (set_assoc key v kvs) | _ => o end.

Definition err {A} (e : string) : Result A := Err (Worker ("idalib: " +:+ e)).

Definition no_function {A} (ea : Z) : Result A := Err (Worker ("no function containing " +:+ show_0x ea)).

Definition no_decompiler : Error := CapabilityUnavailable "decompile" "hexrays decompiler not available".

Definition perms_string (s : Seg) : string :=
  (if s_read s then "r" else "-") +:+ (if s_write s then "w" else "-") +:+ (if s_exec s then "x" else "-").

Definition xref_kind_of (x : XRef) : string :=
  match x_type x with
  | CodeXref (FarCall | NearCall) => "call"
  | CodeXref (FarJump | NearJump) => "jump"
  | CodeXref Flow => "flow"
  | CodeXref OtherCode => "code"
  | DataXref => "data"
  end.

Definition xref_info (x : XRef) : XrefInfo := {| xref_from := x_from x; xref_to := x_to x; xref_kind := xref_kind_of x |}.

Definition func_info (f : Func) : FunctionInfo := {|
  ea_start := f_start f; ea_end := f_end f; fn_name := default "" (f_name f); fn_size := saturating_sub (f_end f) (f_start f) |}.

Definition is_code (x : XRef) : bool := match x_type x with CodeXref _ => true | DataXref => false end.

(** [split_whitespace().next().unwrap_or("")]. *)
Fixpoint until_space (fuel : nat) (s : string) : string :=
  match fuel, s with
  | S fuel', String c s' => match strip_any ws_strings s with Some _ => "" | None => String c (until_space fuel' s') end
  | _, _ => ""
  end.
Definition mnemonic_of (text : string) : string := let t := trim_start text in until_space (String.length t) t.

Definition operand_text (op : option Op) : string := match op with Some o => op_type o | None => "" end.

Definition hex_text (bs : list Z) : string := join "" (hex2 <$> bs).

(** [extension]: what follows the last dot of the last component, unless the
    dot is its first character. *)
Fixpoint last_component (sep : ascii -> bool) (s : string) (cur : string) : string :=
  match s with
  | EmptyString => cur
  | String c s' => if sep c then last_component sep s' (if all_chars sep s' then cur else "") else last_component sep s' (cur +:+ String c "")
  end.
Fixpoint after_last_dot (s : string) : option string :=
  match s with
  | EmptyString => None
  | String c s' => match after_last_dot s' with Some e => Some e | None => if Ascii.eqb c "." then Some s' else None end
  end.
Definition extension (sep : ascii -> bool) (p : string) : option string :=
  match last_component sep p "" with
  | String c rest => if bool_decide (String c rest = "..") then None else after_last_dot rest
  | EmptyString => None
  end.

Section IdaLib.
Context {K : Type} `{!Ida K}.
Implicit Types b : IdaLibBackend K.

Definition require_idb b : Result unit := match idb b with Some _ => Ok tt | None => Err no_db end.

(** The library moved on; the database edited: the revision is bumped. *)
Definition with_ida (k : K) b : IdaLibBackend K := {|
  idb := idb b; db_path := db_path b; lib_revision := lib_revision b; snapshot_file := snapshot_file b;
  snapshot_seq := snapshot_seq b; ida := k |}.
Definition bumped (k : K) b : IdaLibBackend K := {|
  idb := idb b; db_path := db_path b; lib_revision := wrapping_add64 (lib_revision b) 1; snapshot_file := snapshot_file b;
  snapshot_seq := snapshot_seq b; ida := k |}.

Definition saved_file (path : string) : string :=
  match extension path_separator path with
  | Some e => if eq_ignore_ascii_case e "i64" then path else path +:+ ".i64"
  | None => path +:+ ".i64"
  end.
Definition saved_db_file b : Result string :=
  match db_path b with Some p => Ok (saved_file p) | None => Err no_db end.
Definition snapshot_path (db_file : string) (seq : Z) : string := db_file +:+ ".rmbak-" +:+ show_dec seq.

(** ** Reports *)

Definition exec_segments (k : K) : list Seg := filter (fun s => s_exec s = true) (ida_segments k).

Definition bits_of (m : Meta) : Z := if is_64bit m then 64 else if is_32bit_exactly m then 32 else 16.

Definition lib_db_info b : Result Value :=
  _ <-? require_idb b;
  let k := ida b in
  let entrypoints := e_ea <$> take 64 (ida_entries k) in
  let segs := (fun s => JObj [("name", JStr (default "" (s_name s))); ("start", JNum (s_start s)); ("end", JNum (s_end s));
                              ("size", JNum (s_len s))]) <$> take 64 (exec_segments k) in
  let count := function_count k in
  Ok (JObj [("path", jopt JStr (db_path b)); ("processor", JStr (procname (ida_meta k))); ("bits", JNum (bits_of (ida_meta k)));
            ("min_ea", JNum (min_address (ida_meta k))); ("max_ea", JNum (max_address (ida_meta k)));
            ("function_count", JNum count); ("entrypoints", JArr (JNum <$> entrypoints));
            ("entrypoint_count", jnat (length entrypoints)); ("executable_segments", JArr segs);
            ("segment_count", JNum (segment_count k)); ("decompiler", JBool (decompiler_available k));
            ("analysis", JStr (if 0 <? count then "functions_present"
                               else if bool_decide (segs = []) then "zero_functions_no_executable_segments"
                               else "zero_functions_with_executable_code"));
            ("revision", JNum (lib_revision b))]).

Definition lib_capabilities b : Capabilities :=
  let hr := match idb b with Some _ => decompiler_available (ida b) | None => false end in {|
  cap_decompile := hr; cap_types := false; cap_imports_exports := true; cap_patch_bytes := true; cap_rename := true;
  cap_comments := true; cap_bookmarks := true; cap_plugins := true; cap_ctree := hr; cap_lvars := hr; cap_microcode := hr;
  cap_switches := true; cap_fixups := true; cap_tails := true; cap_sp_delta := true; cap_file_map := true |}.

Definition lib_functions b (offset limit : Z) : Result (list FunctionInfo) :=
  _ <-? require_idb b; Ok (func_info <$> page offset limit (ida_functions (ida b))).

Definition at_function b (ea : Z) : Result Func :=
  match ida_function_at (ida b) ea with Some f => Ok f | None => no_function ea end.

Definition lib_function_at b (ea : Z) : Result FunctionInfo :=
  _ <-? require_idb b; f <-? at_function b ea; Ok (func_info f).

Definition lib_segments b : Result (list SegmentInfo) :=
  _ <-? require_idb b;
  Ok ((fun s => {| seg_name := default "" (s_name s); seg_start := s_start s; seg_end := s_end s; seg_perms := perms_string s |})
      <$> ida_segments (ida b)).

Definition lib_strings b (offset limit : Z) : Result (list StringInfo) :=
  _ <-? require_idb b;
  Ok ((fun s => {| Backend.str_ea := s.1; str_value := s.2; str_length := Z.of_nat (String.length s.2) |})
      <$> page offset limit (ida_strings (ida b))).

Definition lib_xrefs_to b (ea : Z) : Result (list XrefInfo) :=
  _ <-? require_idb b; Ok (xref_info <$> ida_xrefs_to (ida b) ea).
Definition lib_xrefs_from b (ea : Z) : Result (list XrefInfo) :=
  _ <-? require_idb b; Ok (xref_info <$> ida_xrefs_from (ida b) ea).

(** A row is pushed before the limit is tested, so a limit of 0 returns one. *)
Definition lib_search_text b (needle : string) (limit : Z) : Result (list Value) :=
  _ <-? require_idb b;
  let all := ida_strings (ida b) in
  let row s := if contains needle s.2 then Some (JObj [("ea", JNum s.1); ("text", JStr s.2)]) else None in
  Ok (push_until row (Z.to_nat (Z.min limit (Z.of_nat (length all)))) all []).1.

Definition lib_search_immediate b (value limit : Z) : Result (list Value) :=
  _ <-? require_idb b;
  let hits := find_imm (ida b) value in
  let row ea := Some (JObj [("ea", JNum ea); ("context", JStr "immediate")]) in
  Ok (if value <? u32_modulus then (push_until row (Z.to_nat (Z.min limit (Z.of_nat (length hits)))) hits []).1 else []).

Definition lib_get_bytes b (ea size : Z) : Result Value :=
  _ <-? require_idb b;
  let bs := ida_bytes (ida b) ea size in
  Ok (JObj [("ea", JNum ea); ("size", jnat (length bs)); ("hex", JStr (hex_text bs))]).

Definition lib_get_comment b (ea : Z) (repeatable : bool) : Result Value :=
  _ <-? require_idb b;
  Ok (JObj [("ea", JNum ea); ("repeatable", JBool repeatable); ("comment", JStr (default "" (ida_comment (ida b) ea repeatable)))]).

Definition lib_types b (name : option string) : Result Value :=
  _ <-? require_idb b; Err (CapabilityUnavailable "types" "local type listing not exposed via idalib bridge yet").

Definition lib_db_metadata b : Result Value :=
  _ <-? require_idb b;
  let k := ida b in
  let rows := (fun e => JObj [("ordinal", JNum (e_ordinal e)); ("ea", JNum (e_ea e)); ("name", JStr (e_name e))]) <$> ida_entries k in
  Ok (JObj [("md5", jopt JStr (hex_text <$> input_file_md5 k)); ("sha256", jopt JStr (hex_text <$> input_file_sha256 k));
            ("imagebase", JNum (imagebase k)); ("entry_count", jnat (length rows)); ("entries", JArr rows);
            ("tls_callbacks", JNull); ("tls_callbacks_supported", JBool false); ("exception_handlers_supported", JBool false);
            ("processor", JStr (procname (ida_meta k))); ("bits", JNum (bits_of (ida_meta k)))]).

Definition lib_imports b (module : option Z) (offset limit : Z) : Result Value :=
  _ <-? require_idb b;
  let k := ida b in
  let entries idx := (fun e => import_row (im_ea e) (im_name e) (im_ord e)) <$> page offset limit (enum_imports k idx) in
  let modules := (fun idx => JObj [("index", jnat idx); ("name", JStr (default "" (import_module_name k idx)));
                                   ("entries", JArr (entries idx))])
    <$> List.filter (fun idx => match module with Some want => Z.of_nat idx =? want | None => true end) (seq 0 (import_module_qty k)) in
  Ok (JObj [("modules", JArr modules); ("module_count", jnat (import_module_qty k))]).

(** [offset.saturating_add(limit)] fixups are fetched, so [total] is at most that. *)
Definition lib_fixups b (offset limit : Z) : Result Value :=
  _ <-? require_idb b;
  let all := ida_fixups (ida b) (Z.min usize_max (offset + limit)) in
  let row f := JObj [("ea", JNum (fx_ea f)); ("kind", JNum (fx_kind f)); ("flags", JNum (fx_flags f)); ("base", JNum (fx_base f));
                     ("sel", JNum (fx_sel f)); ("off", JNum (fx_off f)); ("displacement", JNum (fx_displacement f))] in
  Ok (JObj [("total", jnat (length all)); ("fixups", JArr (row <$> page offset limit all))]).

(** [value as i64]. *)
Definition as_i64 (v : Z) : Z := if v <? 2 ^ 63 then v else v - u64_modulus.

Definition lib_file_map b (value : Z) (to_ea : bool) : Result Value :=
  _ <-? require_idb b;
  if to_ea then
    match ea_of_file_offset (ida b) (as_i64 value) with
    | Some ea => Ok (JObj [("file_offset", JNum value); ("ea", JNum ea)])
    | None => Err (Worker ("file offset " +:+ show_0x value +:+ " does not map to an address"))
    end
  else
    match file_offset_of (ida b) value with
    | Some off => Ok (JObj [("ea", JNum value); ("file_offset", JNum off)])
    | None => Err (Worker ("address " +:+ show_0x value +:+ " does not map into the input file"))
    end.

(** [function_ptr]: the function at the start address, again. *)
Definition function_ptr b (ea : Z) : Result Func := at_function b ea.

Definition lib_func_tails b (ea : Z) : Result Value :=
  _ <-? require_idb b;
  f <-? at_function b ea;
  fptr <-? function_ptr b (f_start f);
  let row c := JObj [("start", JNum c.1); ("end", JNum c.2); ("size", JNum (wrapping_sub64 c.2 c.1))] in
  Ok (JObj [("function", JNum (f_start f)); ("chunks", JArr (row <$> func_chunks (ida b) fptr));
            ("is_tail_target", JBool (is_tail_chunk (ida b) ea))]).

Definition lib_func_switch_info b (ea : Z) : Result Value :=
  _ <-? require_idb b;
  match switch_info (ida b) ea with
  | Some s => Ok (JObj [("ea", JNum (jump_ea s)); ("flags", JNum (sw_flags s)); ("jump_table", JNum (jumps s));
      ("value_table", JNum (sw_values s)); ("default_jump", JNum (defjump s)); ("elbase", JNum (elbase s));
      ("ncases", JNum (ncases s)); ("jcases", JNum (jcases s)); ("lowcase", JNum (lowcase s)); ("regnum", JNum (regnum s));
      ("jtable_element_size", JNum (jtable_element_size s)); ("vtable_element_size", JNum (vtable_element_size s));
      ("start_ea", JNum (startea s))])
  | None => Err (Worker ("no switch information at " +:+ show_0x ea))
  end.

Definition lib_func_sp_delta b (ea : Z) : Result Value :=
  _ <-? require_idb b;
  f <-? at_function b ea;
  fptr <-? function_ptr b (f_start f);
  Ok (JObj [("ea", JNum ea); ("sp_delta", JNum (ida_sp_delta (ida b) fptr ea))]).

(** The prelude of the Hex-Rays operations: an open database, the
    decompiler, the function. *)
Definition hexrays_function b (ea : Z) : Result Func :=
  _ <-? require_idb b;
  if decompiler_available (ida b) then at_function b ea else Err no_decompiler.

Definition decompiled b (ea : Z) : Result (Func * CFunc) :=
  f <-? hexrays_function b ea;
  match ida_decompile (ida b) f with inr cf => Ok (f, cf) | inl e => err e end.

Definition lib_decompile b (ea : Z) : Result Value :=
  fc <-? decompiled b ea;
  Ok (JObj [("function", JStr (default "" (f_name fc.1))); ("ea", JNum (f_start fc.1)); ("pseudocode", JStr (pseudocode fc.2))]).

Definition lib_hr_cfunc b (ea : Z) (include_ctree include_lvars : bool) (limit : Z) : Result Value :=
  fc <-? decompiled b ea;
  let '(f, cf) := fc in
  let out := JObj [("function", JStr (default "" (f_name f))); ("ea", JNum (f_start f)); ("return_type", JStr (cf_return_type cf))] in
  let out := if include_ctree
             then set_field "ctree_truncated" (JBool (ctree_rows cf limit).2) (set_field "ctree" (JArr (ctree_rows cf limit).1) out)
             else out in
  Ok (if include_lvars
      then set_field "lvars_truncated" (JBool (lvar_rows cf limit).2) (set_field "lvars" (JArr (lvar_rows cf limit).1) out)
      else out).

Definition lib_hr_microcode b (ea req_maturity max_insns : Z) : Result Value :=
  f <-? hexrays_function b ea;
  match gen_microcode_dump (ida b) ea req_maturity max_insns with
  | inl e => Err (Worker ("microcode generation failed: " +:+ e))
  | inr d => Ok (JObj [("ea", JNum (f_start f)); ("function", JStr (default "" (f_name f))); ("maturity", JNum (mc_maturity d));
      ("qty", JNum (mc_qty d)); ("truncated", JBool (mc_truncated d)); ("blocks", mc_blocks d); ("insns", mc_insns d)])
  end.

Definition lib_insn_features b (ea : Z) : Result Value :=
  _ <-? require_idb b;
  Ok (JObj [("ea", JNum ea); ("features", JNum (insn_feature (ida b) ea)); ("mnemonic", JStr (insn_mnemonic (ida b) ea))]).

Definition lib_demangle_name b (name : string) : Result Value :=
  _ <-? require_idb b;
  Ok (match ida_demangle (ida b) name with
      | Some d => JObj [("name", JStr name); ("demangled", JStr d); ("changed", JBool true)]
      | None => JObj [("name", JStr name); ("demangled", JStr name); ("changed", JBool false)]
      end).

Definition lib_list_plugins : Result Value :=
  Ok (JObj [("plugins_dir", JStr (default "" (ida_env "IDAUSR"))); ("note", JStr "enumerate via filesystem")]).

Definition lib_input_md5 b : Result string :=
  md <-? lib_db_metadata b; Ok (default "" (as_str (index md "md5"))).

Definition deep_call_row (c : CallRow) : Value :=
  let v := JObj [("call_ea", JStr (show_0x (call_ea c))); ("direct", JBool (direct c)); ("target_name", JStr (target_name c));
                 ("args", JArr (JStr <$> call_args c))] in
  if direct c then set_field "target_ea" (JStr (show_0x (target_ea c))) v else v.

Definition lib_deep_function_info b (ea max_calls : Z) : Result Value :=
  fc <-? decompiled b ea;
  let '(f, cf) := fc in
  let proto := func_prototype cf 16 in
  Ok (JObj [("ea", JNum (f_start f)); ("name", JStr (default "" (f_name f)));
            ("prototype", JObj [("known", JBool (known proto)); ("ret_type", JStr (ret_type proto));
                                ("arg_types", JArr (JStr <$> arg_types proto)); ("truncated", JBool (proto_truncated proto))]);
            ("calls", JArr (deep_call_row <$> (call_rows cf max_calls).1)); ("calls_truncated", JBool (call_rows cf max_calls).2)]).

Definition lib_member_row (m : MemberRow) : Value :=
  JObj [("base_text", JStr (base_text m)); ("is_global", JBool (is_global m)); ("base_ea", JStr (show_0x (base_ea m)));
        ("offset", JStr (show_0x (m_offset m))); ("access_size", JNum (access_size m)); ("is_write", JBool (is_write m));
        ("at_ea", JStr (show_0x (at_ea m)))].

Definition lib_type_member_evidence b (ea limit : Z) : Result Value :=
  fc <-? decompiled b ea;
  let '(f, cf) := fc in
  Ok (JObj [("ea", JNum (f_start f)); ("members", JArr (lib_member_row <$> (member_rows cf limit).1));
            ("truncated", JBool (member_rows cf limit).2)]).

Definition lib_type_vtable_scan b (ea max_entries : Z) : Result Value :=
  _ <-? require_idb b;
  Ok (JObj [("ea", JStr (show_0x ea)); ("slots", JArr (vtable_slots (ida b) ea max_entries)); ("truncated", JBool false)]).

(** Not guarded by an open database. *)
Definition lib_type_udt_match b (shape : list (Z * Z)) : Result Value :=
  Ok (JObj [("shape", JArr ((fun x => JObj [("offset", JStr (show_0x x.1)); ("size", JNum x.2)]) <$> shape));
            ("match", jopt JStr (udt_match_shape (ida b) shape))]).

Definition lib_reports b : Reports := {|
  db_info := lib_db_info b; capabilities := lib_capabilities b; functions_page := lib_functions b;
  segments := lib_segments b; strings_page := lib_strings b; xrefs_from := lib_xrefs_from b;
  search_text := lib_search_text b; search_immediate := lib_search_immediate b; get_comment := lib_get_comment b;
  types := lib_types b; db_metadata := lib_db_metadata b; imports_page := lib_imports b; fixups := lib_fixups b;
  file_map := lib_file_map b; func_tails := lib_func_tails b; func_switch_info := lib_func_switch_info b;
  func_sp_delta := lib_func_sp_delta b; hr_cfunc := lib_hr_cfunc b; insn_features := lib_insn_features b;
  demangle_name := lib_demangle_name b; list_plugins := lib_list_plugins; input_md5 := lib_input_md5 b;
  deep_function_info := lib_deep_function_info b; type_member_evidence := lib_type_member_evidence b;
  type_vtable_scan := lib_type_vtable_scan b; type_udt_match := lib_type_udt_match b |}.

(** ** Disassembly *)

(** The byte [0x0d] is taken for WebAssembly's [br_if] on every processor. *)
Definition insn_info (k : K) (ea : Z) (insn : Insn) : InsnInfo :=
  let raw := ida_bytes k ea 2 in
  let br_if := bool_decide (head raw = Some 0x0d) in
  let text := if br_if then "br_if " +:+ show_dec (default 0 (raw !! 1%nat)) else disasm_line k ea in
  {| insn_ea := ea; mnemonic := mnemonic_of text;
     operands := if br_if then "" else join ", " (operand_text <$> i_ops insn); insn_text := text |}.

(** An instruction of length zero is the last one. *)
Fixpoint disasm_loop (k : K) (left : nat) (ea max_ea : Z) : list InsnInfo :=
  match left with
  | O => []
  | S left' =>
      if ea <? max_ea then
        match insn_at k ea with
        | None => []
        | Some insn =>
            insn_info k ea insn
            :: (if i_len insn =? 0 then [] else disasm_loop k left' (wrapping_add64 ea (i_len insn)) max_ea)
        end
      else []
  end.

Definition lib_disassemble b (ea_start : Z) (ea_end : option Z) (max_insns : nat) : Result (list InsnInfo) :=
  _ <-? require_idb b; Ok (disasm_loop (ida b) max_insns ea_start (default u64_max ea_end)).

(** ** Graphs *)

(** [nodes], [edges] (with the call site of a call edge), [seen_nodes],
    [seen_edges] and [truncated]. *)
Record Graph := {
  g_nodes : list (Z * string);
  g_edges : list (Z * Z * option Z);
  g_seen_nodes : gset Z;
  g_seen_edges : gset (Z * Z);
  g_truncated : bool;
}.

Section Graph.
Context (k : K) (params : GraphParams).
Implicit Types g : Graph.

Definition nodes_full g : bool := max_nodes params <=? Z.of_nat (length (g_nodes g)).
Definition edges_full g : bool := max_edges params <=? Z.of_nat (length (g_edges g)).

(** A node that does not fit is marked as seen all the same. *)
Definition add_node (ea : Z) (name : string) g : Graph :=
  if bool_decide (ea ∈ g_seen_nodes g) then g
  else {| g_nodes := if nodes_full g then g_nodes g else g_nodes g ++ [(ea, name)]; g_edges := g_edges g;
          g_seen_nodes := {[ea]} ∪ g_seen_nodes g; g_seen_edges := g_seen_edges g; g_truncated := g_truncated g |}.

Definition truncate g : Graph := {|
  g_nodes := g_nodes g; g_edges := g_edges g; g_seen_nodes := g_seen_nodes g; g_seen_edges := g_seen_edges g;
  g_truncated := true |}.

Definition mark_edge (from to : Z) g : Graph := {|
  g_nodes := g_nodes g; g_edges := g_edges g; g_seen_nodes := g_seen_nodes g;
  g_seen_edges := {[(from, to)]} ∪ g_seen_edges g; g_truncated := g_truncated g |}.

Definition push_edge (from to : Z) (callsite : option Z) g : Graph := {|
  g_nodes := g_nodes g; g_edges := g_edges g ++ [(from, to, callsite)]; g_seen_nodes := g_seen_nodes g;
  g_seen_edges := g_seen_edges g; g_truncated := g_truncated g |}.

Definition add_cfg_edge (from to : Z) g : Graph :=
  if bool_decide ((from, to) ∈ g_seen_edges g) then g else push_edge from to None (mark_edge from to g).

Fixpoint cfg_nodes (blocks : list Block) g : Graph :=
  match blocks with
  | [] => g
  | blk :: rest =>
      if nodes_full g then truncate g else cfg_nodes rest (add_node (b_start blk) ("bb_" +:+ show_hex (b_start blk)) g)
  end.

(** The successors, or else the next block in the list that starts behind. *)
Definition block_targets (blocks : list Block) (blk : Block) : list Z :=
  let succs := omap (fun id => b_start <$> blocks !! id) (b_succs blk) in
  if bool_decide (succs = [])
  then from_option (fun n => [b_start n]) [] (List.find (fun n => b_end blk <=? b_start n) blocks)
  else succs.

Fixpoint cfg_edges (all blocks : list Block) g : Graph :=
  match blocks with
  | [] => g
  | blk :: rest =>
      if edges_full g then truncate g
      else cfg_edges all rest (foldl (fun g to => add_cfg_edge (b_start blk) to g) g (block_targets all blk))
  end.

(** The targets of a call: the addresses of its operands, then the code
    cross-references from it. *)
Definition call_targets (ea : Z) (insn : Insn) : list Z :=
  if i_is_call insn then
    omap (fun o => o ≫= op_addr) (i_ops insn) ++ (x_to <$> List.filter is_code (ida_xrefs_from k ea))
  else [].

Fixpoint walk_calls (fuel : nat) (cur end_ : Z) : outcome (list Z) :=
  match fuel with
  | O => OutOfFuel
  | S fuel' =>
      if cur <? end_ then
        match insn_at k cur with
        | None => Done []
        | Some insn =>
            rest <~ walk_calls fuel' (wrapping_add64 cur (i_len insn)) end_;
            Done (call_targets cur insn ++ rest)
        end
      else Done []
  end.

(** Every instruction takes at least one byte, when it takes any. *)
Definition callees_of (f : Func) : outcome (list Z) := walk_calls (S (Z.to_nat (f_end f - f_start f))) (f_start f) (f_end f).

Definition callee_node (to : Z) : Z * string :=
  match ida_function_at k to with Some c => (f_start c, default "" (f_name c)) | None => (to, "") end.

(** [more]: another level follows. *)
Fixpoint add_calls (more : bool) (f_ea : Z) (callees : list Z) g (next : list Z) : Graph * list Z :=
  match callees with
  | [] => (g, next)
  | to :: rest =>
      if edges_full g then (truncate g, next)
      else
        let '(c, name) := callee_node to in
        if bool_decide ((f_ea, c) ∈ g_seen_edges g) then add_calls more f_ea rest g next
        else
          let g := mark_edge f_ea c g in
          if nodes_full g then (truncate g, next)
          else add_calls more f_ea rest (push_edge f_ea c (Some to) (add_node c name g)) (if more then next ++ [c] else next)
  end.

Definition expand (more : bool) (f_ea : Z) (f : Func) g (next : list Z) : outcome (Graph * list Z) :=
  if bool_decide (g_kind params = "cfg") then
    Done (match flow_chart k f with None => g | Some blocks => cfg_edges blocks blocks (cfg_nodes blocks g) end, next)
  else callees <~ callees_of f; Done (add_calls more f_ea callees g next).

Definition skips (f : Func) : bool := bool_decide (g_kind params = "cfg") && bool_decide (flow_chart k f = None).

(** One level of the frontier; the limits are tested after each function. *)
Fixpoint level (more : bool) (frontier : list Z) g (next : list Z) : outcome (Graph * list Z) :=
  match frontier with
  | [] => Done (g, next)
  | f_ea :: rest =>
      match ida_function_at k f_ea with
      | None => level more rest g next
      | Some f =>
          gn <~ expand more f_ea f g next;
          let '(g, next) := gn in
          if skips f then level more rest g next
          else if edges_full g || nodes_full g then Done (truncate g, next) else level more rest g next
      end
  end.

Fixpoint bfs (depth : nat) (frontier : list Z) g : outcome Graph :=
  match depth with
  | O => Done g
  | S depth' =>
      if bool_decide (frontier = []) then Done g
      else
        gn <~ level (bool_decide (depth' <> 0%nat)) frontier g [];
        let '(g, next) := gn in
        if g_truncated g then Done g else bfs depth' next g
  end.

Definition graph_run (root : Func) : outcome Graph :=
  bfs (Z.to_nat (g_depth params)) [f_start root]
    (add_node (f_start root) (default "" (f_name root))
       {| g_nodes := []; g_edges := []; g_seen_nodes := ∅; g_seen_edges := ∅; g_truncated := false |}).

Definition edge_value (e : Z * Z * option Z) : Value :=
  JObj ([("from", JNum e.1.1); ("to", JNum e.1.2)] ++ match e.2 with Some s => [("callsite", JNum s)] | None => [] end).

Definition graph_value (root : Func) g : Value :=
  let out := JObj [("kind", JStr (g_kind params)); ("root", JNum (f_start root));
                   ("nodes", JArr ((fun n => JObj [("ea", JNum n.1); ("name", JStr n.2)]) <$> g_nodes g));
                   ("edges", JArr (edge_value <$> g_edges g))] in
  if g_truncated g then set_field "truncated" (JBool true) out else out.
End Graph.

(** [OutOfFuel]: the walk over some function does not end. *)
Definition lib_graph_run b (ea : Z) (params : GraphParams) : outcome (Result Value) :=
  match (_ <-? require_idb b; at_function b ea) with
  | inl e => Done (Err e)
  | inr root => g <~ graph_run (ida b) params root; Done (Ok (graph_value params root g))
  end.

(** ** The analysis index *)

Section Facts.
Context (k : K).
Implicit Types fa : FunctionFacts.

Definition new_facts (f : Func) : FunctionFacts := {|
  ff_start := f_start f; ff_end := f_end f; ff_name := get_name k (f_start f); demangled := "";
  ff_size := saturating_sub (f_end f) (f_start f); imports := []; ff_strings := []; constants := []; indirect_calls := 0;
  callees := []; callers := []; globals := [] |}.

Definition add_import (s : string) fa : FunctionFacts := {|
  ff_start := ff_start fa; ff_end := ff_end fa; ff_name := ff_name fa; demangled := demangled fa; ff_size := ff_size fa;
  imports := imports fa ++ [s]; ff_strings := ff_strings fa; constants := constants fa; indirect_calls := indirect_calls fa;
  callees := callees fa; callers := callers fa; globals := globals fa |}.
Definition add_string (s : string) fa : FunctionFacts := {|
  ff_start := ff_start fa; ff_end := ff_end fa; ff_name := ff_name fa; demangled := demangled fa; ff_size := ff_size fa;
  imports := imports fa; ff_strings := ff_strings fa ++ [s]; constants := constants fa; indirect_calls := indirect_calls fa;
  callees := callees fa; callers := callers fa; globals := globals fa |}.
Definition add_constant (v : Z) fa : FunctionFacts := {|
  ff_start := ff_start fa; ff_end := ff_end fa; ff_name := ff_name fa; demangled := demangled fa; ff_size := ff_size fa;
  imports := imports fa; ff_strings := ff_strings fa; constants := constants fa ++ [v]; indirect_calls := indirect_calls fa;
  callees := callees fa; callers := callers fa; globals := globals fa |}.
Definition add_indirect fa : FunctionFacts := {|
  ff_start := ff_start fa; ff_end := ff_end fa; ff_name := ff_name fa; demangled := demangled fa; ff_size := ff_size fa;
  imports := imports fa; ff_strings := ff_strings fa; constants := constants fa; indirect_calls := indirect_calls fa + 1;
  callees := callees fa; callers := callers fa; globals := globals fa |}.
Definition add_global (v : Z) fa : FunctionFacts := {|
  ff_start := ff_start fa; ff_end := ff_end fa; ff_name := ff_name fa; demangled := demangled fa; ff_size := ff_size fa;
  imports := imports fa; ff_strings := ff_strings fa; constants := constants fa; indirect_calls := indirect_calls fa;
  callees := callees fa; callers := callers fa; globals := globals fa ++ [v] |}.

(** [trim_start_matches("j_").trim_start_matches("__imp_")]. *)
Definition import_of (name : string) : string := trim_start_matches "__imp_" (trim_start_matches "j_" name).

(** The first operand of a call with an address or a value decides. *)
Fixpoint call_operand (ops : list (option Op)) fa : FunctionFacts :=
  match ops with
  | [] => fa
  | None :: rest => call_operand rest fa
  | Some op :: rest =>
      match op_addr op with
      | Some target =>
          match ida_function_at k target with
          | None => fa
          | Some tf =>
              let tname := get_name k (f_start tf) in
              let fa := add_callee (f_start tf) fa in
              if starts_with "j_" tname || starts_with "__imp_" tname then add_import (import_of tname) fa else fa
          end
      | None =>
          match op_value op with
          | Some v => if 0x10000 <=? v then add_constant v fa else fa
          | None => call_operand rest fa
          end
      end
  end.

Definition data_operand (o : option Op) fa : FunctionFacts :=
  match o with
  | None => fa
  | Some op =>
      let fa := match op_value op with
                | Some v => if (0x10000 <=? v) && negb (bool_decide (last (constants fa) = Some v)) then add_constant v fa else fa
                | None => fa
                end in
      match op_addr op with Some t => add_global t fa | None => fa end
  end.

(** A reference to a string is a string of the function, any other target
    (the next instruction too) is a global. *)
Definition xref_fact (strings : list (Z * string)) fa (x : XRef) : FunctionFacts :=
  match List.find (fun s => s.1 =? x_to x) strings with
  | Some (_, text) => if bool_decide (text ∈ ff_strings fa) then fa else add_string text fa
  | None => add_global (x_to x) fa
  end.

Definition insn_facts (strings : list (Z * string)) (ea : Z) (insn : Insn) fa : FunctionFacts :=
  let fa := if i_is_call insn then call_operand (i_ops insn) fa
            else if i_is_indirect_jump insn then add_indirect fa
            else foldl (fun fa o => data_operand o fa) fa (i_ops insn) in
  foldl (xref_fact strings) fa (ida_xrefs_from k ea).

Fixpoint walk_facts (strings : list (Z * string)) (steps : nat) (ea end_ : Z) fa : FunctionFacts :=
  match steps with
  | O => fa
  | S steps' =>
      if ea <? end_ then
        match insn_at k ea with
        | None => fa
        | Some insn => walk_facts strings steps' (wrapping_add64 ea (i_len insn)) end_ (insn_facts strings ea insn fa)
        end
      else fa
  end.

Definition INDEX_STEPS : nat := Z.to_nat 200000.

Definition tidy fa : FunctionFacts := {|
  ff_start := ff_start fa; ff_end := ff_end fa; ff_name := ff_name fa; demangled := demangled fa; ff_size := ff_size fa;
  imports := dedup (sort_by String.leb (imports fa)); ff_strings := ff_strings fa;
  constants := dedup (sort_by_key id (constants fa)); indirect_calls := indirect_calls fa; callees := callees fa;
  callers := callers fa; globals := dedup (sort_by_key id (globals fa)) |}.

Definition function_facts (strings : list (Z * string)) (f : Func) : FunctionFacts :=
  tidy (walk_facts strings INDEX_STEPS (f_start f) (f_end f) (new_facts f)).

(** The functions that list a string among their globals. *)
Definition string_refs (fs : gmap Z FunctionFacts) (sea : Z) : list Z :=
  fst <$> List.filter (fun ef => bool_decide (sea ∈ globals ef.2)) (btree_iter fs).

Definition indexed_strings (fs : gmap Z FunctionFacts) (strings : list (Z * string)) : list IndexedString :=
  omap (fun s => if bool_decide (string_refs fs s.1 = []) then None
                 else Some {| Index.str_ea := s.1; text := s.2; refs := string_refs fs s.1 |}) strings.

Definition call_edges (fs : gmap Z FunctionFacts) : list (Z * Z) :=
  ef ← btree_iter fs; pair ef.1 <$> callees ef.2.

Definition indexed_functions : gmap Z FunctionFacts :=
  foldl (fun m f => <[f_start f := function_facts (ida_strings k) f]> m) ∅ (ida_functions k).
End Facts.

Definition lib_build_index b : Result (AnalysisIndex * string) :=
  md5 <-? lib_input_md5 b;
  _ <-? require_idb b;
  let k := ida b in
  let fs := indexed_functions k in
  Ok ({| schema_version := INDEX_SCHEMA_VERSION; binary_md5 := md5; idx_revision := lib_revision b;
         functions := foldl (fun m e => alter (add_caller e.1) e.2 m) fs (call_edges fs);
         idx_strings := indexed_strings fs (ida_strings k) |}, md5).

(** ** Edits *)

(** [let revision_after = self.bump(); Ok(MutationOutcome { changed: true, .. })]. *)
Definition edited b (k : K) (d : Value) : outcome (Result MutationOutcome * IdaLibBackend K) :=
  Done (Ok {| changed := true; revision_after := wrapping_add64 (lib_revision b) 1; detail := d |}, bumped k b).

Definition refused b (k : K) (e : Error) : outcome (Result MutationOutcome * IdaLibBackend K) := Done (Err e, with_ida k b).

(** The guard of an edit. *)
Definition guarded {A} b (r : Result A) (f : A -> outcome (Result MutationOutcome * IdaLibBackend K))
    : outcome (Result MutationOutcome * IdaLibBackend K) :=
  match r with inl e => Done (Err e, b) | inr a => f a end.

Definition lib_patch_bytes (ea : Z) (bytes_hex : string) : mutation (IdaLibBackend K) := fun b =>
  guarded b (require_idb b) (fun _ =>
    decoded <~ hex_decode (remove_spaces (trim bytes_hex));
    match decoded with
    | inl e => Done (Err (Worker ("bad hex: " +:+ e)), b)
    | inr [] => Done (Err (Worker "empty patch"), b)
    | inr bs =>
        let original := imap (fun i _ => Z.land (original_byte (ida b) (wrapping_add64 ea (Z.of_nat i))) 0xFF) bs in
        let '(ok, k) := ida_patch ea bs (ida b) in
        if ok then edited b k (JObj [("ea", JStr (show_0x ea)); ("size", jnat (length bs)); ("original", JStr (hex_text original));
                                     ("patched", JStr (hex_text bs))])
        else refused b k (Worker ("patch failed at " +:+ show_0x ea))
    end).

Definition lib_set_comment (ea : Z) (comment : string) (repeatable : bool) : mutation (IdaLibBackend K) := fun b =>
  guarded b (require_idb b) (fun _ =>
    match ida_set_comment ea comment repeatable (ida b) with
    | (inr _, k) => edited b k (JObj [("ea", JNum ea)])
    | (inl e, k) => refused b k (Worker ("idalib: " +:+ e))
    end).

(** [CString::new]: the position of the first zero byte. *)
Fixpoint nul_position (s : string) (i : Z) : option Z :=
  match s with EmptyString => None | String c s' => if ord c =? 0 then Some i else nul_position s' (i + 1) end.

Definition lib_rename (ea : Z) (new_name : string) : mutation (IdaLibBackend K) := fun b =>
  guarded b (require_idb b) (fun _ =>
    match nul_position new_name 0 with
    | Some i => Done (Err (Worker ("bad name: nul byte found in provided data at position: " +:+ show_dec i)), b)
    | None =>
        let '(ok, k) := set_name ea new_name (ida b) in
        if ok then edited b k (JObj [("ea", JNum ea); ("new", JStr new_name)])
        else refused b k (Worker ("rename failed at " +:+ show_0x ea +:+ " (name invalid or in use)"))
    end).

Definition lib_set_type (ea : Z) (type_decl : string) : mutation (IdaLibBackend K) := fun b =>
  guarded b (require_idb b) (fun _ =>
    Done (Err (CapabilityUnavailable "types" "type application not exposed via idalib bridge yet"), b)).

Definition lib_func_create (start : Z) (end_ : option Z) : mutation (IdaLibBackend K) := fun b =>
  guarded b (require_idb b) (fun _ =>
    let '(ok, k) := match end_ with Some e => add_func_range start e (ida b) | None => add_func start (ida b) end in
    if ok then edited b k (JObj [("start", JNum start); ("end", jopt JNum end_)])
    else refused b k (Worker ("function creation failed at " +:+ show_0x start))).

Definition lib_func_delete (ea : Z) : mutation (IdaLibBackend K) := fun b =>
  guarded b (require_idb b) (fun _ =>
    let '(ok, k) := del_func ea (ida b) in
    if ok then edited b k (JObj [("ea", JNum ea)])
    else refused b k (Worker ("function deletion failed at " +:+ show_0x ea))).

(** A moved start is not taken back when the end cannot be moved. *)
Definition lib_func_resize (ea : Z) (new_start new_end : option Z) : mutation (IdaLibBackend K) := fun b =>
  guarded b (require_idb b) (fun _ =>
    let '(d, k) := match new_start with
                   | Some ns => let '(code, k) := set_func_start ea ns (ida b) in ([("start_move_code", JNum code)], k)
                   | None => ([], ida b)
                   end in
    match new_end with
    | Some ne =>
        let '(ok, k) := set_func_end ea ne k in
        if ok then edited b k (JObj (("ea", JNum ea) :: d ++ [("end", JNum ne)]))
        else refused b k (Worker ("set_func_end failed at " +:+ show_0x ea +:+ " -> " +:+ show_0x ne))
    | None =>
        if bool_decide (new_start = None) then Done (Err (Worker "func_resize requires new_start and/or new_end"), b)
        else edited b k (JObj (("ea", JNum ea) :: d))
    end).

Definition lib_hr_lvar_rename (ea var_defea : Z) (new_name : string) : mutation (IdaLibBackend K) := fun b =>
  guarded b (decompiled b ea) (fun fc =>
    let '(ok, k) := lvar_rename fc.1 var_defea new_name (ida b) in
    if ok then edited b k (JObj [("function", JNum (f_start fc.1)); ("name", JStr (default "" (f_name fc.1)));
                                 ("var_defea", JNum var_defea); ("new", JStr new_name)])
    else refused b k (Worker ("lvar rename failed: no lvar defined at " +:+ show_0x var_defea))).

Definition lib_deep_apply_prototype (ea : Z) (decl : string) : mutation (IdaLibBackend K) := fun b =>
  guarded b (decompiled b ea) (fun fc =>
    let '(ok, k) := apply_prototype fc.1 decl (ida b) in
    if ok then edited b k (JObj [("ea", JNum (f_start fc.1)); ("name", JStr (default "" (f_name fc.1))); ("decl", JStr decl);
                                 ("before", JStr (prototype_text fc.2))])
    else refused b k (Worker ("prototype apply failed for " +:+ show_0x (f_start fc.1) +:+ ": bad declaration or rejected type"))).

(** Not guarded by an open database. *)
Definition lib_type_udt_create (name : string) (fields : list string) : mutation (IdaLibBackend K) := fun b =>
  let '(ord, k) := udt_create name fields (ida b) in
  match ord with
  | None => refused b k (Worker ("udt create failed for '" +:+ name +:+ "': bad member declaration or TIL write rejected"))
  | Some o => edited b k (JObj [("name", JStr name); ("ordinal", JNum o); ("fields", JArr (JStr <$> fields))])
  end.

(** ** Opening, saving, snapshots *)

Definition lib_open (path : string) b : Result Value * IdaLibBackend K :=
  match idb b with
  | Some _ => (Err (Worker "a db is already open"), b)
  | None =>
      match open_database path true (ida b) with
      | (inl e, k) => (err e, with_ida k b)
      | (inr _, k) =>
          let b' := {| idb := Some true; db_path := Some path; lib_revision := lib_revision b; snapshot_file := snapshot_file b;
                       snapshot_seq := snapshot_seq b; ida := auto_wait k |} in
          (lib_db_info b', b')
      end
  end.

(** Dropping the handle closes the database, saving it as its flag says. *)
Definition drop_idb b : K := match idb b with Some save => close_database save (ida b) | None => ida b end.

(** The snapshot of the closed database is kept. *)
Definition lib_close b : Result unit * IdaLibBackend K :=
  (Ok tt, {| idb := None; db_path := None; lib_revision := lib_revision b; snapshot_file := snapshot_file b;
             snapshot_seq := snapshot_seq b; ida := drop_idb b |}).

Definition lib_save b : Result unit * IdaLibBackend K :=
  match require_idb b with
  | inl e => (Err e, b)
  | inr _ =>
      let '(ok, k) := save_database (ida b) in
      (if ok then Ok tt else Err (Worker "idalib: save_database failed"), with_ida k b)
  end.

Definition lib_snapshot_create b : Result Value * IdaLibBackend K :=
  match lib_save b with
  | (inl e, b1) => (Err e, b1)
  | (inr _, b1) =>
      match saved_db_file b1 with
      | inl e => (Err e, b1)
      | inr db_file =>
          let seq := wrapping_add64 (snapshot_seq b1) 1 in
          let backup := snapshot_path db_file seq in
          match copy_file db_file backup (ida b1) with
          | (inl e, k) => (Err (Worker ("snapshot copy failed: " +:+ e)), with_ida k b1)
          | (inr _, k) =>
              let after := wrapping_add64 (lib_revision b1) 1 in
              (Ok (JObj [("snapshot", JBool true); ("revision_after", JNum after); ("rollback", JBool true)]),
               {| idb := idb b1; db_path := db_path b1; lib_revision := after; snapshot_file := Some backup;
                  snapshot_seq := seq; ida := k |})
          end
      end
  end.

(** The backend without its database, in the library state [k]. *)
Definition without_idb (k : K) b : IdaLibBackend K := {|
  idb := None; db_path := db_path b; lib_revision := lib_revision b; snapshot_file := snapshot_file b;
  snapshot_seq := snapshot_seq b; ida := k |}.

Definition lib_snapshot_restore b : Result Value * IdaLibBackend K :=
  match snapshot_file b with
  | None => (Ok (JObj [("restored", JBool false); ("reason", JStr "no snapshot taken"); ("rollback", JBool false)]), b)
  | Some backup =>
      match db_path b with
      | None => (Err no_db, b)
      | Some path =>
          let k0 := match idb b with Some _ => close_database false (ida b) | None => ida b end in
          match copy_file backup (saved_file path) k0 with
          | (inl e, k) => (Err (Worker ("snapshot restore failed: " +:+ e)), without_idb k b)
          | (inr _, k1) =>
              match open_database path false k1 with
              | (inl e, k) => (err e, without_idb k b)
              | (inr _, k2) =>
                  let after := wrapping_add64 (lib_revision b) 1 in
                  (Ok (JObj [("restored", JBool true); ("file", JStr backup); ("revision_after", JNum after); ("rollback", JBool true)]),
                   {| idb := Some true; db_path := db_path b; lib_revision := after; snapshot_file := snapshot_file b;
                      snapshot_seq := snapshot_seq b; ida := auto_wait k2 |})
              end
          end
      end
  end.

(** ** Waiting for the analysis *)

Definition MAX_RECOVERED : Z := 2000.
Definition SWEEP_STEP : Z := 4.

Definition seed_entry (ka : K * Z) (ea : Z) : K * Z :=
  let '(k, added) := ka in
  match ida_function_at k ea with
  | Some _ => (k, added)
  | None =>
      let k := (create_insn ea k).2 in
      match ida_function_at k ea with
      | Some _ => (k, added)
      | None => let '(ok, k) := add_func ea k in (k, if ok then added + 1 else added)
      end
  end.

Definition sweep_at (ea : Z) (ka : K * Z) : K * Z :=
  let '(k, added) := ka in
  match ida_function_at k ea with
  | Some _ => (k, added)
  | None =>
      let '(len, k) := create_insn ea k in
      if 0 <? len then let '(ok, k) := add_func ea k in (k, if ok then added + 1 else added) else (k, added)
  end.

(** [while off < size && added < MAX_RECOVERED]; the offset wraps. *)
Fixpoint sweep (fuel : nat) (start size off : Z) (ka : K * Z) : outcome (K * Z) :=
  match fuel with
  | O => OutOfFuel
  | S fuel' =>
      if (off <? size) && (ka.2 <? MAX_RECOVERED)
      then sweep fuel' start size (wrapping_add64 off SWEEP_STEP) (sweep_at (wrapping_add64 start off) ka)
      else Done ka
  end.

Definition sweep_steps (size : Z) : nat := S (Z.to_nat ((size + 3) / 4)).

Fixpoint sweep_segments (segs : list (Z * Z)) (ka : K * Z) : outcome (K * Z) :=
  match segs with
  | [] => Done ka
  | (start, end_) :: rest =>
      let size := wrapping_sub64 end_ start in
      ka <~ sweep (sweep_steps size) start size 0 ka;
      if MAX_RECOVERED <=? ka.2 then Done ka else sweep_segments rest ka
  end.

(** [added] counts on from the entry points to the sweep. *)
Definition recover (k : K) : outcome (K * list Value) :=
  let entrypoints := e_ea <$> take 16 (ida_entries k) in
  let '(k1, added) := foldl seed_entry (k, 0) entrypoints in
  let via := if bool_decide (entrypoints = []) then []
             else [JObj [("step", JStr "entrypoints"); ("seeds", jnat (length entrypoints)); ("added", JNum added)]] in
  let segs := (fun s => (s_start s, s_end s)) <$> take 16 (exec_segments k1) in
  ka <~ sweep_segments segs (k1, added);
  let '(k2, added) := ka in
  Done (if 0 <? added
        then (auto_wait k2, via ++ [JObj [("step", JStr "executable_segment_sweep"); ("added", JNum added)]])
        else (k2, via)).

Definition analyzed_value (count : Z) (via : list Value) : Value :=
  if count =? 0 then
    JObj [("analyzed", JBool true); ("functions", JNum 0); ("functions_recovered", JBool false);
          ("reason", JStr "auto-analysis and generic recovery produced no functions; executable bytes are not decodable as instructions by this processor");
          ("recovered_via", JArr via)]
  else
    JObj [("analyzed", JBool true); ("functions", JNum count); ("functions_recovered", JBool (negb (bool_decide (via = []))));
          ("recovered_via", JArr via)].

Definition lib_analyze_wait_run b : outcome (Result Value * IdaLibBackend K) :=
  match require_idb b with
  | inl e => Done (Err e, b)
  | inr _ =>
      let k := auto_wait (ida b) in
      kv <~ (if function_count k =? 0 then recover k else Done (k, []));
      Done (Ok (analyzed_value (function_count kv.1) kv.2), with_ida kv.1 b)
  end.

Definition lib_run_plugin (plugin : string) (args : option string) b : Result Value * IdaLibBackend K :=
  match require_idb b with
  | inl e => (Err e, b)
  | inr _ =>
      match load_plugin plugin (ida b) with
      | inl e => (err e, b)
      | inr _ =>
          let arg := default 0 (a ← args; Text.ok (parse_u64 a)) in
          let '(ran, k) := plugin_run plugin arg (ida b) in
          (Ok (JObj [("plugin", JStr plugin); ("args", jopt JStr args); ("ran", JBool ran)]), with_ida k b)
      end
  end.

(** The walk of a graph ends on a sound database ([graph_total]); the trait
    has no value for one that does not. *)
Definition lib_graph b (ea : Z) (params : GraphParams) : Result Value :=
  match lib_graph_run b ea params with Done r => r | _ => Err (Worker "graph does not terminate") end.

(** The sweep ends on every database ([analyze_wait_total]). *)
Definition lib_analyze_wait b : Result Value * IdaLibBackend K :=
  match lib_analyze_wait_run b with Done r => r | _ => (Err no_db, b) end.

#[global] Instance IdaLib_backend : IdaBackend (IdaLibBackend K) := {|
  open_db := lib_open;
  close_db := lib_close;
  save_db := lib_save;
  run_plugin := lib_run_plugin;
  reports := lib_reports;
  revision := lib_revision;
  function_at := lib_function_at;
  get_bytes := lib_get_bytes;
  xrefs_to := lib_xrefs_to;
  disassemble := lib_disassemble;
  decompile := lib_decompile;
  graph := lib_graph;
  hr_microcode := lib_hr_microcode;
  build_index := lib_build_index;
  patch_bytes := lib_patch_bytes;
  set_comment := lib_set_comment;
  rename := lib_rename;
  set_type := lib_set_type;
  func_create := lib_func_create;
  func_delete := lib_func_delete;
  func_resize := lib_func_resize;
  hr_lvar_rename := lib_hr_lvar_rename;
  deep_apply_prototype := lib_deep_apply_prototype;
  type_udt_create := lib_type_udt_create;
  analyze_wait := lib_analyze_wait;
  snapshot_create := lib_snapshot_create;
  snapshot_restore := lib_snapshot_restore;
|}.

(** ** The contract of edits *)

(** What IDA documents of its editing calls: one that is refused changes nothing. *)
Class IdaHonest : Prop := {
  patch_refused ea bs k k' : ida_patch ea bs k = (false, k') -> k' = k;
  comment_refused ea c r e k k' : ida_set_comment ea c r k = (inl e, k') -> k' = k;
  name_refused ea s k k' : set_name ea s k = (false, k') -> k' = k;
  add_refused ea k k' : add_func ea k = (false, k') -> k' = k;
  range_refused s e k k' : add_func_range s e k = (false, k') -> k' = k;
  del_refused ea k k' : del_func ea k = (false, k') -> k' = k;
  lvar_refused f d s k k' : lvar_rename f d s k = (false, k') -> k' = k;
  prototype_refused f s k k' : apply_prototype f s k = (false, k') -> k' = k;
  udt_refused s fs k k' : udt_create s fs k = (None, k') -> k' = k;
}.

Lemma with_ida_id b : with_ida (ida b) b = b.
Proof. by destruct b. Qed.

(** An editing call under its guard bumps when it succeeds and is nothing when it fails. *)
Definition bumps_at b (r : outcome (Result MutationOutcome * IdaLibBackend K)) : Prop :=
  match r with
  | Done (inr out, b') => lib_revision b' = wrapping_add64 (lib_revision b) 1 /\ revision_after out = lib_revision b'
  | Done (inl _, b') => b' = b
  | Panic | OutOfFuel => True
  end.

Lemma guarded_bumps {A} b (r : Result A) f : (forall a, r = inr a -> bumps_at b (f a)) -> bumps_at b (guarded b r f).
Proof. destruct r; [done|]. intros H. by apply H. Qed.

Lemma edited_bumps b k d : bumps_at b (edited b k d).
Proof. done. Qed.

Lemma refused_bumps b k e : k = ida b -> bumps_at b (refused b k e).
Proof. intros ->. apply with_ida_id. Qed.

Context (honest : IdaHonest).

#[global] Instance IdaLib_edits : EditLaws (IdaLibBackend K).
Proof using honest.
  split; intros *; [intros b; apply (guarded_bumps b) || idtac..|].
  - intros _ _. destruct (hex_decode _) as [[e|[|x bs]]| |]; cbn [obind]; [done..| |done|done].
    destruct (ida_patch ea (x :: bs) (ida b)) as [[|] k] eqn:E; [apply edited_bumps|]. by eapply refused_bumps, patch_refused.
  - intros _ _. destruct (ida_set_comment _ _ _ _) as [[e|[]] k] eqn:E; [|apply edited_bumps]. by eapply refused_bumps, comment_refused.
  - intros _ _. destruct (nul_position _ _); [done|].
    destruct (set_name _ _ _) as [[|] k] eqn:E; [apply edited_bumps|]. by eapply refused_bumps, name_refused.
  - done.
  - intros _ _. destruct e as [e|].
    + destruct (add_func_range _ _ _) as [[|] k] eqn:E; [apply edited_bumps|]. by eapply refused_bumps, range_refused.
    + destruct (add_func _ _) as [[|] k] eqn:E; [apply edited_bumps|]. by eapply refused_bumps, add_refused.
  - intros _ _. destruct (del_func _ _) as [[|] k] eqn:E; [apply edited_bumps|]. by eapply refused_bumps, del_refused.
  - intros fc _. destruct (lvar_rename _ _ _ _) as [[|] k] eqn:E; [apply edited_bumps|]. by eapply refused_bumps, lvar_refused.
  - intros fc _. destruct (apply_prototype _ _ _) as [[|] k] eqn:E; [apply edited_bumps|]. by eapply refused_bumps, prototype_refused.
  - change (bumps_at b (lib_type_udt_create s fs b)). unfold lib_type_udt_create.
    destruct (udt_create _ _ _) as [[o|] k] eqn:E; [apply edited_bumps|]. by eapply refused_bumps, udt_refused.
  - cbn. unfold lib_build_index. destruct (lib_input_md5 b); [done|]. destruct (require_idb b); [done|]. by intros [= <- _].
Qed.

(** What the worker relies on besides: writing a file changes nothing that is
    read of the database, and a resize that fails at its end did not move its
    start.  The second is IDA's only as long as no resize moves both ends:
    the code does not take a moved start back. *)
Class IdaQuiet : Prop := {
  save_quiet b : reads_alike b (with_ida (save_database (ida b)).2 b);
  copy_quiet from to b : reads_alike b (with_ida (copy_file from to (ida b)).2 b);
  end_refused ea e k k' : set_func_end ea e k = (false, k') -> k' = k;
  both_refused ea s e k k' : set_func_end ea e (set_func_start ea s k).2 = (false, k') -> k' = k;
}.

Context (quiet : IdaQuiet).

Lemma lib_resize_bumps ea s e : bumps (func_resize (B := IdaLibBackend K) ea s e).
Proof using quiet.
  intros b. apply (guarded_bumps b). intros _ _. destruct s as [s|].
  - pose proof (fun e k' => both_refused ea s e (ida b) k') as Hboth.
    destruct (set_func_start ea s (ida b)) as [code k1]. cbn [snd] in Hboth. destruct e as [e|]; [|apply edited_bumps].
    specialize (Hboth e). destruct (set_func_end ea e k1) as [[|] k2]; [apply edited_bumps|]. by apply refused_bumps, Hboth.
  - destruct e as [e|]; [|done].
    destruct (set_func_end ea e (ida b)) as [[|] k2] eqn:E; [apply edited_bumps|]. by eapply refused_bumps, end_refused.
Qed.

(** Taking a snapshot bumps the revision, unless it fails on the way. *)
Lemma lib_snapshot_moves b :
  reads_alike b (lib_snapshot_create b).2
  \/ lib_revision (lib_snapshot_create b).2 = wrapping_add64 (lib_revision b) 1.
Proof using quiet.
  unfold lib_snapshot_create, lib_save. destruct (require_idb b); [by left|].
  pose proof (save_quiet b) as Hsave. destruct (save_database (ida b)) as [[|] k1]; cbn [snd] in Hsave; [|by left].
  destruct (saved_db_file _) as [e|file]; [by left|].
  pose proof (copy_quiet file (snapshot_path file (wrapping_add64 (snapshot_seq (with_ida k1 b)) 1)) (with_ida k1 b)) as Hcopy.
  destruct (copy_file _ _ _) as [[e|[]] k2]; [|by right]. left. by eapply reads_alike_trans.
Qed.

(** With that, the real backend keeps the whole contract of [Backend], and the
    worker's theorems hold of it. *)
#[global] Instance IdaLib_laws : BackendLaws (IdaLibBackend K).
Proof using honest quiet.
  split; [apply IdaLib_edits|apply lib_resize_bumps|apply lib_snapshot_moves].
Qed.
End IdaLib.
