(* ===== verification/IdaToy.v ===== *)
(** * IdaToy: a small IDA

    A concrete instance of [Ida] with four functions and a file system, on
    which the operations of [IdaLib] run and the laws asked of IDA hold.  The
    functions can be renamed; the other edits are refused or do nothing. *)

From stdpp Require Import base list gmap strings.
From Stdlib Require Import ZArith Lia Ascii.
From S2P Require Import Prelude Text Json Errors Index Backend Mutations IdaLib.

Local Open Scope rmcp_scope.
Local Open Scope Z_scope.

(** The names of the open database, its file, and the stored names by file. *)
Record Toy := { toy_names : gmap Z string; toy_home : string; toy_disk : gmap string (gmap Z string) }.

Definition toy_ranges : list (Z * Z) := [(0x1000, 0x1008); (0x2000, 0x2004); (0x3000, 0x3004); (0x4000, 0x4004)].
Definition toy_default : gmap Z string := list_to_map [(0x1000, "main"); (0x2000, "helper"); (0x3000, "leaf"); (0x4000, "j_puts")].
Definition toy_new : Toy := {| toy_names := toy_default; toy_home := ""; toy_disk := ∅ |}.

Definition toy_func (t : Toy) (r : Z * Z) : Func := {| f_start := r.1; f_end := r.2; f_name := toy_names t !! r.1 |}.
Definition toy_at (t : Toy) (ea : Z) : option Func :=
  toy_func t <$> List.find (fun r => (r.1 <=? ea) && (ea <? r.2)) toy_ranges.

Definition toy_op (a v : option Z) : option Op := Some {| op_addr := a; op_value := v; op_type := "Near" |}.
Definition toy_call (to : Z) : Insn := {| i_len := 4; i_is_call := true; i_is_indirect_jump := false; i_ops := [toy_op (Some to) None] |}.

(** main calls helper and leaf, helper calls leaf and itself is four bytes,
    leaf loads a constant, j_puts reads the string. *)
Definition toy_insn (ea : Z) : option Insn :=
  if ea =? 0x1000 then Some (toy_call 0x2000)
  else if ea =? 0x1004 then Some (toy_call 0x3000)
  else if ea =? 0x2000 then Some (toy_call 0x4000)
  else if ea =? 0x3000 then Some {| i_len := 4; i_is_call := false; i_is_indirect_jump := false; i_ops := [toy_op None (Some 0x12345)] |}
  else if ea =? 0x4000 then Some {| i_len := 4; i_is_call := false; i_is_indirect_jump := false; i_ops := [] |}
  else None.

(** The first block of main returns early or goes on to the second, the second
    returns. *)
Definition toy_chart : list Block := [
  {| b_start := 0x1000; b_end := 0x1002; b_succs := [1%nat; 2%nat] |}; {| b_start := 0x1002; b_end := 0x1004; b_succs := [] |};
  {| b_start := 0x1004; b_end := 0x1008; b_succs := [] |}].

Definition toy_sep (c : ascii) : bool := Ascii.eqb c "/".
Definition toy_saved (path : string) : string :=
  match extension toy_sep path with
  | Some e => if eq_ignore_ascii_case e "i64" then path else path +:+ ".i64"
  | None => path +:+ ".i64"
  end.

Definition toy_save (t : Toy) : Toy :=
  {| toy_names := toy_names t; toy_home := toy_home t; toy_disk := <[toy_home t := toy_names t]> (toy_disk t) |}.
Definition toy_open (path : string) (t : Toy) : Toy :=
  {| toy_names := default toy_default (toy_disk t !! toy_saved path); toy_home := toy_saved path; toy_disk := toy_disk t |}.
Definition toy_copy (from to : string) (t : Toy) : (string + unit) * Toy :=
  match toy_disk t !! from with
  | Some d => (inr tt, {| toy_names := toy_names t; toy_home := toy_home t; toy_disk := <[to := d]> (toy_disk t) |})
  | None => (inl "file not found", t)
  end.
Definition toy_rename (ea : Z) (s : string) (t : Toy) : bool * Toy :=
  match toy_names t !! ea with
  | Some _ => (true, {| toy_names := <[ea := s]> (toy_names t); toy_home := toy_home t; toy_disk := toy_disk t |})
  | None => (false, t)
  end.

#[global] Instance toy_ida : Ida Toy := {|
  ida_meta t := {| procname := "metapc"; is_64bit := true; is_32bit_exactly := false; min_address := 0x1000; max_address := 0x6000 |};
  ida_functions t := toy_func t <$> toy_ranges;
  function_count t := 4;
  ida_function_at := toy_at;
  ida_segments t := [{| s_name := Some ".text"; s_start := 0x1000; s_end := 0x5000; s_len := 0x4000; s_read := true; s_write := false; s_exec := true |}];
  segment_count t := 1;
  ida_entries t := [{| e_ordinal := 0; e_ea := 0x1000; e_name := "main" |}];
  ida_strings t := [(0x5000, "hello")];
  ida_xrefs_to t ea := [];
  ida_xrefs_from t ea := if ea =? 0x4000 then [{| x_from := ea; x_to := 0x5000; x_type := DataXref |}] else [];
  insn_at t := toy_insn;
  ida_bytes t ea n := [];
  original_byte t ea := 0;
  disasm_line t ea := "nop";
  get_name t ea := default "" (toy_names t !! ea);
  flow_chart t f := if f_start f =? 0x1000 then Some toy_chart else None;
  find_imm t v := [];
  ida_comment t ea r := None;
  decompiler_available t := false;
  ida_decompile t f := inl "no decompiler";
  input_file_md5 t := Some [0xd4; 0x1d];
  input_file_sha256 t := None;
  imagebase t := 0x1000;
  import_module_qty t := 0%nat;
  import_module_name t i := None;
  enum_imports t i := [];
  ida_fixups t n := [];
  ea_of_file_offset t o := None;
  file_offset_of t ea := None;
  func_chunks t f := [(f_start f, f_end f)];
  is_tail_chunk t ea := false;
  switch_info t ea := None;
  ida_sp_delta t f ea := 0;
  gen_microcode_dump t ea m n := inl "none";
  insn_feature t ea := 0;
  insn_mnemonic t ea := "";
  ida_demangle t s := None;
  vtable_slots t ea n := [];
  udt_match_shape t sh := None;
  open_database path a t := (inr tt, toy_open path t);
  close_database save t := if save then toy_save t else t;
  save_database t := (true, toy_save t);
  copy_file := toy_copy;
  auto_wait t := t;
  ida_patch ea bs t := (false, t);
  ida_set_comment ea c r t := (inl "refused", t);
  set_name := toy_rename;
  add_func ea t := (false, t);
  add_func_range s e t := (false, t);
  del_func ea t := (false, t);
  set_func_start ea s t := (0, t);
  set_func_end ea e t := (false, t);
  lvar_rename f d s t := (false, t);
  apply_prototype f s t := (false, t);
  udt_create s fs t := (None, t);
  create_insn ea t := (0, t);
  load_plugin p t := inr tt;
  plugin_run p a t := (true, t);
  ida_env v := None;
  path_separator := toy_sep;
|}.

#[global] Instance toy_honest : IdaHonest (K := Toy).
Proof.
  split; cbn; intros; simplify_eq; try done. unfold toy_rename in *. case_match; by simplify_eq.
Qed.

(** What is read of the toy is in its names. *)
Lemma toy_reads b t : toy_names t = toy_names (ida b) -> reads_alike b (with_ida t b).
Proof.
  destruct b as [h p r f q [names home disk]], t as [names' home' disk']. cbn. intros ->.
  split; try done. intros s e n. cbn [disassemble IdaLib_backend]. unfold lib_disassemble. cbn. destruct h; [|done].
  cbn. f_equal. revert s. induction n as [|n IH]; intros s; cbn [disasm_loop]; [done|].
  destruct (s <? _)%Z; [|done]. cbn. destruct (toy_insn s) as [insn|]; [|done]. destruct (i_len insn =? 0)%Z; [done|]. by rewrite IH.
Qed.

(** Saving and copying touch the files only. *)
#[global] Instance toy_quiet : IdaQuiet (K := Toy).
Proof.
  split; [| |cbn; intros; by simplify_eq..]; [intros b; by apply toy_reads|].
  intros from to b. apply toy_reads. cbn. unfold toy_copy. by destruct (toy_disk (ida b) !! from).
Qed.

(** The toy with a database open, as the worker starts. *)
Definition toy_start : IdaLibBackend Toy := (lib_open "a.bin" (IdaLibBackend_new toy_new)).2.

Example toy_opens : (Text.ok (lib_open "a.bin" (IdaLibBackend_new toy_new)).1 ≫= get "function_count") = Some (JNum 4).
Proof. vm_compute. reflexivity. Qed.
