(* ===== verification/IdaSnap.v ===== *)
(** * IdaSnap: snapshots of a real database

    The snapshot of [idalib_backend.rs] is a copy of the saved database file;
    restoring it drops the open database, copies the file back and opens it
    again.  Given what saving, copying, closing and opening do to files
    ([FilesOk]), a snapshot is a real restore point: whatever was edited,
    saved, analysed or run in between, and however often restoring failed or
    succeeded, as long as nothing has written to the snapshot's file a
    restore that succeeds opens the snapshot's content again, at a revision
    that was not used since.  The snapshot outlives its database, however,
    and is then restored over another one. *)

From stdpp Require Import base list gmap strings.
From Stdlib Require Import ZArith Lia Ascii.
From S2P Require Import Prelude Text Json Errors Index Backend Mutations IdaLib IdaToy.

Local Open Scope rmcp_scope.
Local Open Scope Z_scope.

Section Snap.
Context {K : Type} `{!Ida K}.
Implicit Types b : IdaLibBackend K.

(** One operation of the trait on an open database, other than taking another
    snapshot or closing it. *)
Inductive lib_step b : IdaLibBackend K -> Prop :=
  | step_patch ea hex r b' : lib_patch_bytes ea hex b = Done (r, b') -> lib_step b b'
  | step_comment ea c rep r b' : lib_set_comment ea c rep b = Done (r, b') -> lib_step b b'
  | step_rename ea s r b' : lib_rename ea s b = Done (r, b') -> lib_step b b'
  | step_type ea s r b' : lib_set_type ea s b = Done (r, b') -> lib_step b b'
  | step_create s e r b' : lib_func_create s e b = Done (r, b') -> lib_step b b'
  | step_delete ea r b' : lib_func_delete ea b = Done (r, b') -> lib_step b b'
  | step_resize ea s e r b' : lib_func_resize ea s e b = Done (r, b') -> lib_step b b'
  | step_lvar ea d s r b' : lib_hr_lvar_rename ea d s b = Done (r, b') -> lib_step b b'
  | step_prototype ea s r b' : lib_deep_apply_prototype ea s b = Done (r, b') -> lib_step b b'
  | step_udt s fs r b' : lib_type_udt_create s fs b = Done (r, b') -> lib_step b b'
  | step_analyze r b' : lib_analyze_wait_run b = Done (r, b') -> lib_step b b'
  | step_plugin p a : lib_step b (lib_run_plugin p a b).2
  | step_save : lib_step b (lib_save b).2
  | step_restore : lib_step b (lib_snapshot_restore b).2.

(** ** What the operations leave alone *)

(** The handle, the path and the snapshot stay; the revision is the old one or
    the next. *)
Record moves b b' : Prop := {
  mv_path : db_path b' = db_path b;
  mv_file : snapshot_file b' = snapshot_file b;
  mv_revision : lib_revision b' = lib_revision b \/ lib_revision b' = wrapping_add64 (lib_revision b) 1;
}.

Lemma moves_refl b : moves b b.
Proof. split; try done. by left. Qed.

Lemma moves_edited b k d r b' : edited b k d = Done (r, b') -> moves b b'.
Proof. intros [= _ <-]. split; try done. by right. Qed.

Lemma moves_refused b k e r b' : refused b k e = Done (r, b') -> moves b b'.
Proof. intros [= _ <-]. split; try done. by left. Qed.

Lemma moves_guarded {A} b (c : Result A) f r b' :
  (forall a, f a = Done (r, b') -> moves b b') -> guarded b c f = Done (r, b') -> moves b b'.
Proof. intros Hf. destruct c; cbn [guarded]; [intros [= _ <-]; apply moves_refl|apply Hf]. Qed.

(** One editing call and its two answers. *)
Lemma moves_call b (ck : bool * K) (dk : K -> Value) (ek : K -> Error) r b' :
  (let '(ok, k) := ck in if ok then edited b k (dk k) else refused b k (ek k)) = Done (r, b') -> moves b b'.
Proof. destruct ck as [[|] k]; [apply moves_edited|apply moves_refused]. Qed.

Lemma moves_run_plugin p a b : moves b (lib_run_plugin p a b).2.
Proof.
  unfold lib_run_plugin. destruct (require_idb b); [apply moves_refl|]. destruct (load_plugin p (ida b)); [apply moves_refl|].
  destruct (plugin_run _ _ _) as [ran k]. split; try done. by left.
Qed.

Lemma moves_analyze b r b' : lib_analyze_wait_run b = Done (r, b') -> moves b b' /\ lib_revision b' = lib_revision b.
Proof.
  unfold lib_analyze_wait_run. destruct (require_idb b); [intros [= _ <-]; by split; [apply moves_refl|]|].
  destruct (function_count _ =? 0).
  - destruct (recover _) as [[k' via]| |]; cbn [obind]; [|done..]. intros [= _ <-]. split; [|done]. split; try done. by left.
  - intros [= _ <-]. split; [|done]. split; try done. by left.
Qed.

Lemma moves_save b : moves b (lib_save b).2.
Proof. unfold lib_save. destruct (require_idb b); [apply moves_refl|]. destruct (save_database _). split; try done. by left. Qed.

Lemma moves_restore b : moves b (lib_snapshot_restore b).2.
Proof.
  unfold lib_snapshot_restore. destruct (snapshot_file b) eqn:Es; [|apply moves_refl]. destruct (db_path b) eqn:Ep; [|apply moves_refl].
  destruct (copy_file _ _ _) as [[|] ?]; [split; cbn; try done; by left|].
  destruct (open_database _ _ _) as [[|] ?]; split; cbn; try done; [by left|by right].
Qed.

(** A resize whose second half is refused fails with the start moved, and
    without a new revision. *)
Lemma resize_half_done ea ns ne code k1 k2 b :
  idb b <> None -> set_func_start ea ns (ida b) = (code, k1) -> set_func_end ea ne k1 = (false, k2) ->
  exists e, lib_func_resize ea (Some ns) (Some ne) b = Done (Err e, with_ida k2 b).
Proof.
  intros Ho Hs He. unfold lib_func_resize, require_idb. destruct (idb b); [|done]. cbn [guarded]. rewrite Hs, He. by eexists.
Qed.

Lemma step_moves b b' : lib_step b b' -> moves b b'.
Proof.
  intros [ea hex r b1 H|ea c rep r b1 H|ea s r b1 H|ea s r b1 H|s e r b1 H|ea r b1 H|ea s e r b1 H|ea d s r b1 H|ea s r b1 H
         |s fs r b1 H|r b1 H|p a| |]; revert H || apply moves_run_plugin || apply moves_save || apply moves_restore.
  - apply moves_guarded. intros _. destruct (hex_decode _) as [[e|[|x bs]]| |]; cbn [obind];
      [intros [= _ <-]; apply moves_refl..| |done|done]. by eapply (moves_call b (ida_patch ea (x :: bs) (ida b)) (fun _ => _) (fun _ => _)).
  - apply moves_guarded. intros _. destruct (ida_set_comment ea c rep (ida b)) as [[e|[]] k]; [apply moves_refused|apply moves_edited].
  - apply moves_guarded. intros _. destruct (nul_position s 0); [intros [= _ <-]; apply moves_refl|].
    by eapply (moves_call b (set_name ea s (ida b)) (fun _ => _) (fun _ => _)).
  - apply moves_guarded. intros _ [= _ <-]. apply moves_refl.
  - apply moves_guarded. intros _. destruct e as [e|].
    + by eapply (moves_call b (add_func_range s e (ida b)) (fun _ => _) (fun _ => _)).
    + by eapply (moves_call b (add_func s (ida b)) (fun _ => _) (fun _ => _)).
  - apply moves_guarded. intros _. by eapply (moves_call b (del_func ea (ida b)) (fun _ => _) (fun _ => _)).
  - apply moves_guarded. intros _. destruct (match s with Some _ => _ | None => _ end) as [d k]. destruct e as [ne|].
    + destruct (set_func_end ea ne k) as [[|] k2]; [apply moves_edited|apply moves_refused].
    + case_bool_decide; [intros [= _ <-]; apply moves_refl|apply moves_edited].
  - apply moves_guarded. intros fc. by eapply (moves_call b (lvar_rename fc.1 d s (ida b)) (fun _ => _) (fun _ => _)).
  - apply moves_guarded. intros fc. by eapply (moves_call b (apply_prototype fc.1 s (ida b)) (fun _ => _) (fun _ => _)).
  - unfold lib_type_udt_create. destruct (udt_create s fs (ida b)) as [[o|] k]; [apply moves_edited|apply moves_refused].
  - by intros [? _]%moves_analyze.
Qed.

Lemma steps_kept b b' : rtc lib_step b b' -> db_path b' = db_path b /\ snapshot_file b' = snapshot_file b.
Proof. induction 1 as [b|b b1 b2 [M1 M2 _]%step_moves _ [IH1 IH2]]; [done|]. split; congruence. Qed.

Lemma steps_revision n b b' : nsteps lib_step n b b' -> is_u64 (lib_revision b) ->
  exists j, (j <= n)%nat /\ lib_revision b' = (lib_revision b + Z.of_nat j) mod u64_modulus.
Proof.
  intros Hn Hu. assert (exists j, (j <= n)%nat /\ lib_revision b' mod u64_modulus = (lib_revision b + Z.of_nat j) mod u64_modulus /\ is_u64 (lib_revision b'))
    as (j & Hj & E & Hu'); [|exists j; split; [done|]; by rewrite <- E, Z.mod_small].
  induction Hn as [b|n b b1 b2 H1 _ IH]; [exists 0%nat; by rewrite Z.add_0_r|].
  destruct (mv_revision _ _ (step_moves _ _ H1)) as [E|E]; rewrite E in IH.
  - destruct (IH Hu) as (j & ? & ?). exists j. split; [lia|done].
  - destruct IH as (j & ? & Ej & ?); [apply wrapping_add64_u64|]. exists (S j). split; [lia|]. split; [|done].
    rewrite Ej. unfold wrapping_add64. rewrite Zplus_mod_idemp_l. f_equal. lia.
Qed.
End Snap.

(** ** How IDA keeps its files *)

Section Files.
Context {K : Type} `{!Ida K} {D F : Type}.
(** The content of the open database, the file it is kept in, the files on
    disk, and the stored form of a content. *)
Context (content : K -> D) (home : K -> string) (file : K -> string -> option F) (stored : D -> F).
Implicit Types b : IdaLibBackend K.

(** A save that succeeds has stored the database in its file and leaves it as
    it is; a copy that succeeds has copied; closing a database without saving
    writes to no snapshot file; and opening a stored database without
    analysis gives the content stored. *)
Record FilesOk : Prop := {
  fo_saved k k' : save_database k = (true, k') -> content k' = content k /\ file k' (home k) = Some (stored (content k));
  fo_copied from to k k' : copy_file from to k = (inr tt, k') -> file k' to = file k from;
  fo_close db seq k : file (close_database false k) (snapshot_path db seq) = file k (snapshot_path db seq);
  fo_opened path k k' d : open_database path false k = (inr tt, k') -> file k (saved_file path) = Some (stored d) ->
    content k' = d;
}.
Context (files : FilesOk).

(** The snapshot [backup] of the database at [path] holds [d]. *)
Record guards (path backup : string) (d : D) b : Prop := {
  gu_path : db_path b = Some path;
  gu_file : snapshot_file b = Some backup;
  gu_name : exists db seq, backup = snapshot_path db seq;
  gu_stored : file (ida b) backup = Some (stored d);
}.

(** A restore that succeeds has opened the content of the snapshot. *)
Lemma restore_spec path backup d b :
  guards path backup d b ->
  match lib_snapshot_restore b with
  | (inr v, b') => (exists k, content k = d /\ ida b' = auto_wait k)
      /\ idb b' = Some true /\ db_path b' = Some path /\ lib_revision b' = wrapping_add64 (lib_revision b) 1
      /\ v @@ "restored" = JBool true /\ v @@ "revision_after" = JNum (lib_revision b')
  | (inl _, b') => idb b' = None /\ db_path b' = Some path /\ snapshot_file b' = Some backup /\ lib_revision b' = lib_revision b
  end.
Proof using files.
  intros [G1 G2 (db & seq & G3) G4]. unfold lib_snapshot_restore. rewrite G2, G1.
  set (k0 := match idb b with Some _ => _ | None => _ end).
  assert (file k0 backup = Some (stored d)) as H0 by (subst k0 backup; destruct (idb b); [by rewrite (fo_close files)|done]).
  destruct (copy_file backup (saved_file path) k0) as [[e|[]] k1] eqn:Ec; [done|]. apply (fo_copied files) in Ec.
  destruct (open_database path false k1) as [[e|[]] k2] eqn:Eo; [done|].
  split; [|done]. exists k2. split; [|done]. eapply (fo_opened files); [exact Eo|]. congruence.
Qed.

Lemma create_guards path b v b' :
  db_path b = Some path -> home (ida b) = saved_file path -> lib_snapshot_create b = (inr v, b') ->
  exists backup, guards path backup (content (ida b)) b' /\ lib_revision b' = wrapping_add64 (lib_revision b) 1.
Proof using files.
  intros Hp Hh. unfold lib_snapshot_create, lib_save, require_idb. destruct (idb b) as [s|]; [|done].
  destruct (save_database (ida b)) as [[|] k] eqn:Es; [|done].
  apply (fo_saved files) in Es as [Hc Hf]. unfold saved_db_file, with_ida.
  cbn [db_path ida snapshot_seq lib_revision idb snapshot_file Ok]. rewrite Hp. cbn [Ok]. set (backup := snapshot_path _ _).
  destruct (copy_file (saved_file path) backup k) as [[e|[]] k1] eqn:Ec; [done|]. intros [= _ <-]. exists backup. split; [|done].
  apply (fo_copied files) in Ec. split; cbn; try done; [by eexists _, _|]. rewrite Ec, <- Hh, Hf. done.
Qed.

(** C15. A snapshot of a real database is a restore point.  After a snapshot of
    a database kept in the file that [saved_db_file] names, and through any
    sequence of [n] edits, saves, analyses, plugin runs and restores, failed
    ones too, in which nothing has written to the snapshot's file: a restore
    that succeeds has opened exactly the content the database had at the
    snapshot and then lets the analysis that is still queued run on it
    ([auto_wait]); it is at a revision beyond every one reported since (until
    the counter wraps).  One that fails leaves no database open, and the path
    and the snapshot known, so that it can be tried again. *)
Theorem snapshot_restores (n : nat) (path : string) (b b1 b2 : IdaLibBackend K) (v : Value) :
  db_path b = Some path -> home (ida b) = saved_file path -> is_u64 (lib_revision b) ->
  lib_snapshot_create b = (Ok v, b1) -> nsteps lib_step n b1 b2 ->
  (forall backup, snapshot_file b1 = Some backup -> file (ida b2) backup = file (ida b1) backup) ->
  let b3 := (lib_snapshot_restore b2).2 in
  match (lib_snapshot_restore b2).1 with
  | inr v' => (exists k, content k = content (ida b) /\ ida b3 = auto_wait k)
      /\ idb b3 = Some true /\ db_path b3 = Some path /\ v' @@ "restored" = JBool true
      /\ exists j, (j <= n)%nat /\ lib_revision b2 = (lib_revision b + 1 + Z.of_nat j) mod u64_modulus
           /\ lib_revision b3 = (lib_revision b + 2 + Z.of_nat j) mod u64_modulus
  | inl _ => idb b3 = None /\ db_path b3 = Some path /\ snapshot_file b3 = snapshot_file b1 /\ lib_revision b3 = lib_revision b2
  end.
Proof using files.
  intros Hp Hh Hu Hc Hn Hk. destruct (create_guards path b v b1 Hp Hh Hc) as (backup & [G1 G2 G3 G4] & Hr1).
  destruct (steps_kept _ _ (rtc_nsteps_2 _ _ _ Hn)) as [K1 K2].
  assert (guards path backup (content (ida b)) b2) as Hg2 by (split; [congruence|congruence|done|by rewrite (Hk _ G2)]).
  destruct (steps_revision n b1 b2 Hn) as (j & Hj & Hr2); [rewrite Hr1; apply wrapping_add64_u64|].
  pose proof (restore_spec _ _ _ b2 Hg2) as Hspec. cbv zeta.
  destruct (lib_snapshot_restore b2) as [[e|v'] b3]; cbn [fst snd] in *.
  - destruct Hspec as (H1 & H2 & H3 & H4). by rewrite H3, G2.
  - destruct Hspec as (H1 & H2 & H3 & H4 & H5 & _). do 4 (split; [done|]).
    exists j. split; [done|]. rewrite H4, Hr2, Hr1. unfold wrapping_add64. rewrite !Zplus_mod_idemp_l. split; f_equal; lia.
Qed.

(** Closing does not forget the snapshot: after another database is opened,
    a restore replaces that database by the snapshot of the first. *)
Lemma closed_snapshot_overwrites other db seq d b :
  let b1 := (lib_open other (lib_close b).2).2 in
  snapshot_file b = Some (snapshot_path db seq) -> db_path b1 = Some other ->
  file (ida b1) (snapshot_path db seq) = Some (stored d) ->
  match lib_snapshot_restore b1 with
  | (inr _, b') => (exists k, content k = d /\ ida b' = auto_wait k) /\ db_path b' = Some other
  | (inl _, _) => True
  end.
Proof using files.
  cbv zeta. intros Hs Ho Hf. set (b1 := (lib_open _ _).2) in *.
  assert (snapshot_file b1 = Some (snapshot_path db seq)) as Hs1.
  { subst b1. unfold lib_open in *. cbn [lib_close snd idb ida] in *. by destruct (open_database _ _ _) as [[|]]. }
  pose proof (restore_spec other _ d b1 (Build_guards _ _ _ _ Ho Hs1 ltac:(by eexists _, _) Hf)) as Hr.
  destruct (lib_snapshot_restore b1) as [[|v] b5]; [done|]. by destruct Hr as (? & _ & ? & _).
Qed.
End Files.

(** ** The small IDA *)

Module SnapWitness.

Definition toy_content (t : Toy) : gmap Z string := toy_names t.
Definition toy_file (t : Toy) (f : string) : option (gmap Z string) := toy_disk t !! f.

Lemma toy_files : FilesOk toy_content toy_home toy_file id.
Proof.
  split; unfold toy_file, toy_content; cbn.
  - intros k k' [= <-]. cbn. by rewrite lookup_insert_eq.
  - intros from to k k'. unfold toy_copy. case_match eqn:E; [|done]. intros [= <-]. cbn. by rewrite lookup_insert_eq.
  - done.
  - intros path k k' d [= <-] E. cbn. change (toy_saved path) with (saved_file (K:=Toy) path). by rewrite E.
Qed.

Definition snapped : IdaLibBackend Toy := Eval vm_compute in (lib_snapshot_create toy_start).2.
Definition renamed : IdaLibBackend Toy := Eval vm_compute in
  match lib_rename 0x1000 "start" snapped with Done (_, b) => b | _ => snapped end.

Example rename_shows : toy_content (ida renamed) !! 0x1000 = Some "start" /\ toy_content (ida toy_start) !! 0x1000 = Some "main".
Proof. split; reflexivity. Qed.

Lemma snapshot_restores_witness :
  exists v, (lib_snapshot_restore renamed).1 = Ok v
    /\ (exists k, toy_content k = toy_content (ida toy_start) /\ ida (lib_snapshot_restore renamed).2 = auto_wait k)
    /\ toy_content (ida (lib_snapshot_restore renamed).2) !! 0x1000 = Some "main"
    /\ lib_revision (lib_snapshot_restore renamed).2 = 3.
Proof.
  destruct (lib_snapshot_create toy_start) as [[e|v1] b1] eqn:Hc; [vm_compute in Hc; discriminate Hc|].
  assert (b1 = snapped) as -> by (vm_compute in Hc; injection Hc as _ <-; reflexivity).
  pose proof (snapshot_restores toy_content toy_home toy_file id toy_files 1 "a.bin" toy_start snapped renamed v1) as H.
  destruct (lib_snapshot_restore renamed) as [[e|v] b3] eqn:Hr; [vm_compute in Hr; discriminate Hr|].
  exists v. split; [reflexivity|]. cbn [fst snd] in H |- *. destruct H as (H1 & _).
  - reflexivity.
  - reflexivity.
  - vm_compute. split; congruence.
  - exact Hc.
  - apply nsteps_once. eapply (step_rename _ 0x1000 "start"). vm_compute. reflexivity.
  - intros backup [= <-]. reflexivity.
  - split; [exact H1|]. vm_compute in Hr. injection Hr as _ <-. split; reflexivity.
Defined.

(** The snapshot of the first database ends up in the second one. *)
Definition second : IdaLibBackend Toy := Eval vm_compute in (lib_open "b.bin" (lib_close renamed).2).2.
Example stale_snapshot :
  let second := (match lib_rename 0x1000 "other" second with Done (_, b) => (lib_save b).2 | _ => second end) in
  toy_disk (ida second) !! "b.bin.i64" <> toy_disk (ida second) !! "a.bin.i64.rmbak-1"
  /\ let b := (lib_snapshot_restore second).2 in
     db_path b = Some "b.bin" /\ toy_disk (ida b) !! "b.bin.i64" = toy_disk (ida b) !! "a.bin.i64.rmbak-1".
Proof. vm_compute. split; [discriminate|done]. Qed.

(** Taking a snapshot bumps the revision, so it is not the read that the
    mock's is, and a plan made before it is stale. *)
Example snapshot_bumps : lib_revision toy_start = 0 /\ lib_revision snapped = 1.
Proof. done. Qed.
End SnapWitness.
