(* ===== verification/IdaGraph.v ===== *)
(** * IdaGraph: the call graph of a real database

    The breadth-first walk of [graph] in [idalib_backend.rs] for the kind
    [calls].  On a database whose instructions take at least one byte it
    ends, within the budgets, and lists exactly the calls that are reached;
    an instruction of length zero makes the walk over its function run
    forever. *)

From stdpp Require Import base list gmap strings.
From Stdlib Require Import ZArith Lia Ascii.
From S2P Require Import Prelude Text Json Errors Index Backend Mutations IdaLib IdaToy.

Local Open Scope rmcp_scope.
Local Open Scope Z_scope.

Section Calls.
Context {K : Type} `{!Ida K} (k : K).

(** What IDA documents of decoding and of functions. *)
Record decodes : Prop := {
  insn_fits ea i : 0 <= ea -> insn_at k ea = Some i -> 0 < i_len i /\ ea + i_len i < u64_modulus;
  func_starts ea f : ida_function_at k ea = Some f -> 0 <= f_start f;
}.

(** ** The calls of a function *)

(** The instructions of a range, one behind the other. *)
Inductive head (end_ : Z) : Z -> Z -> Insn -> Prop :=
  | head_here ea i : ea < end_ -> insn_at k ea = Some i -> head end_ ea ea i
  | head_later cur i ea j : cur < end_ -> insn_at k cur = Some i -> head end_ (wrapping_add64 cur (i_len i)) ea j -> head end_ cur ea j.

(** An instruction of [f] calls the address [to]. *)
Definition targets (f : Func) (to : Z) : Prop :=
  exists ea i, head (f_end f) (f_start f) ea i /\ to ∈ call_targets k ea i.

Lemma walk_calls_spec fuel cur end_ l :
  walk_calls k fuel cur end_ = Done l -> forall to, to ∈ l <-> exists ea i, head end_ cur ea i /\ to ∈ call_targets k ea i.
Proof.
  revert cur l. induction fuel as [|fuel IH]; intros cur l; cbn [walk_calls]; [done|].
  destruct (Z.ltb_spec cur end_) as [Hlt|Hge]; [|intros [= <-] to; split; [by intros ?%elem_of_nil|]].
  - destruct (insn_at k cur) as [i|] eqn:Hi; [|intros [= <-] to; split; [by intros ?%elem_of_nil|]].
    + destruct (walk_calls k fuel _ end_) as [rest| |] eqn:Hr; cbn [obind]; [|done..]. intros [= <-] to.
      rewrite elem_of_app, (IH _ _ Hr). split.
      * intros [H|(ea & j & Hh & Ht)]; [exists cur, i; by split; [apply head_here|]|exists ea, j; by split; [eapply head_later|]].
      * intros (ea & j & Hh & Ht). inversion Hh; subst; simplify_eq; [by left|right; by exists ea, j].
    + intros (ea & j & Hh & _). inversion Hh; congruence.
  - intros (ea & j & Hh & _). inversion Hh; lia.
Qed.

Lemma walk_calls_total fuel cur end_ :
  decodes -> 0 <= cur -> (Z.to_nat (end_ - cur) < fuel)%nat -> exists l, walk_calls k fuel cur end_ = Done l.
Proof.
  intros Hd. revert cur. induction fuel as [|fuel IH]; intros cur Hc Hf; [lia|]. cbn [walk_calls].
  destruct (Z.ltb_spec cur end_) as [Hlt|Hge]; [|by eexists]. destruct (insn_at k cur) as [i|] eqn:Hi; [|by eexists].
  destruct (insn_fits Hd cur i Hc Hi) as [H1 H2].
  destruct (IH (wrapping_add64 cur (i_len i))) as [l ->]; [|unfold wrapping_add64; rewrite Z.mod_small by lia; lia|by eexists].
  unfold wrapping_add64. apply Z.mod_pos_bound. done.
Qed.

(** The walk that [disassemble] guards against: on an instruction of length
    zero it never ends. *)
Lemma zero_length_diverges cur end_ i fuel :
  is_u64 cur -> cur < end_ -> insn_at k cur = Some i -> i_len i = 0 -> walk_calls k fuel cur end_ = OutOfFuel.
Proof.
  intros Hu Hlt Hi Hz. induction fuel as [|fuel IH]; [done|]. cbn [walk_calls]. destruct (Z.ltb_spec cur end_); [|lia].
  rewrite Hi, Hz. unfold wrapping_add64. rewrite Z.add_0_r, Z.mod_small by exact Hu. by rewrite IH.
Qed.

Definition callee_of (to : Z) : Z := (callee_node k to).1.

(** The function at [x] calls the one at [c]. *)
Definition calls (x c : Z) : Prop := exists f to, ida_function_at k x = Some f /\ targets f to /\ callee_of to = c.

Context (params : GraphParams) (root : Z).
Implicit Types g : Graph.

Abbreviation nodes_of g := (g_nodes g).*1.
Abbreviation edges_of g := (g_edges g).*1.
Abbreviation add_node := (add_node params).
Abbreviation nodes_full := (nodes_full params).
Abbreviation edges_full := (edges_full params).

(** ** Bounds *)

Record well g : Prop := {
  w_nodes : Z.of_nat (length (g_nodes g)) <= Z.max 0 (max_nodes params);
  w_edges : Z.of_nat (length (g_edges g)) <= Z.max 0 (max_edges params);
  w_distinct : NoDup (nodes_of g);
  w_once : NoDup (edges_of g);
  w_seen x : x ∈ nodes_of g -> x ∈ g_seen_nodes g;
  w_fits x : nodes_full g = false -> x ∈ g_seen_nodes g -> x ∈ nodes_of g;
  w_marked e : e ∈ edges_of g -> e ∈ g_seen_edges g;
  w_listed e : g_truncated g = false -> e ∈ g_seen_edges g -> e ∈ edges_of g;
}.

Lemma well_truncate g : well g -> well (truncate g).
Proof. by intros []. Qed.

Lemma well_add_node x s g : well g -> well (add_node x s g).
Proof.
  intros W. unfold IdaLib.add_node. case_bool_decide as Hs; [done|].
  destruct (nodes_full g) eqn:Hf; destruct W as [W1 W2 W3 W4 W5 W6 W7 W8].
  - split; cbn; try done; [set_solver|]. intros y Hy. exfalso. unfold IdaLib.nodes_full in *. cbn in Hy. congruence.
  - assert (x ∉ nodes_of g) as Hx by (intros H%W5; done). unfold IdaLib.nodes_full in Hf. apply Z.leb_gt in Hf.
    split; cbn; rewrite ?fmap_app, ?length_app; cbn; try done; [lia| | |].
    + apply NoDup_app. split; [done|]. split; [|apply NoDup_singleton]. intros y Hy ->%list_elem_of_singleton. done.
    + intros y [Hy|Hy]%elem_of_app; [set_solver|apply list_elem_of_singleton in Hy as ->; set_solver].
    + intros y Hy [->%elem_of_singleton|Hin]%elem_of_union; [apply elem_of_app; right; by left|].
      apply elem_of_app. left. apply W6; [|done]. unfold IdaLib.nodes_full. apply Z.leb_gt. lia.
Qed.

Lemma add_node_in x s g : well g -> nodes_full g = false -> x ∈ nodes_of (add_node x s g).
Proof.
  intros W Hf. unfold IdaLib.add_node. case_bool_decide as Hs; [by apply (w_fits _ W)|]. rewrite Hf. cbn. rewrite fmap_app. apply elem_of_app. right. by left.
Qed.

Lemma add_node_grows x s g y : y ∈ nodes_of g -> y ∈ nodes_of (add_node x s g).
Proof.
  unfold IdaLib.add_node. case_bool_decide; [done|]. cbn. destruct (nodes_full g); [done|]. rewrite fmap_app. intros. apply elem_of_app. by left.
Qed.

Lemma add_node_only x s g y : y ∈ nodes_of (add_node x s g) -> y ∈ nodes_of g \/ y = x.
Proof.
  unfold IdaLib.add_node. case_bool_decide; [by left|]. cbn. destruct (nodes_full g); [by left|]. rewrite fmap_app.
  intros [?|?%list_elem_of_singleton]%elem_of_app; [by left|by right].
Qed.

Lemma add_node_edges x s g : g_edges (add_node x s g) = g_edges g /\ g_seen_edges (add_node x s g) = g_seen_edges g
  /\ g_truncated (add_node x s g) = g_truncated g.
Proof. unfold IdaLib.add_node. by case_bool_decide. Qed.

(** A new edge to a new node. *)
Lemma well_push x c s to g :
  well g -> edges_full g = false -> nodes_full g = false -> (x, c) ∉ g_seen_edges g ->
  well (push_edge x c (Some to) (add_node c s (mark_edge x c g))).
Proof.
  intros W He Hn Hs.
  unfold IdaLib.edges_full in He. apply Z.leb_gt in He.
  pose proof (well_add_node c s g W) as [A1 A2 A3 A4 A5 A6 A7 A8]. destruct (add_node_edges c s g) as (E1 & E2 & E3).
  assert (add_node c s (mark_edge x c g) = mark_edge x c (add_node c s g)) as ->.
  { unfold IdaLib.add_node, mark_edge, IdaLib.nodes_full. cbn. by case_bool_decide. }
  assert ((x, c) ∉ edges_of g) as Hx by (intros H%(w_marked _ W); done).
  split; cbn; rewrite ?E1, ?E2, ?E3, ?fmap_app, ?length_app; cbn; try done; try lia.
  - apply NoDup_app. split; [apply W|]. split; [|apply NoDup_singleton].
    intros e He' ->%list_elem_of_singleton. done.
  - intros e [H|H%list_elem_of_singleton]%elem_of_app; [|subst; set_solver]. apply (w_marked _ W) in H. set_solver.
  - intros e Ht [->%elem_of_singleton|Hin]%elem_of_union; apply elem_of_app; [right; by left|left]. apply (w_listed _ W); done.
Qed.

(** ** One function *)

(** What the calls of [x] add: edges to the callees among [tos], each new one
    followed at the next level. *)
Record adds (more : bool) (x : Z) (tos : list Z) g (next : list Z) g' (next' : list Z) : Prop := {
  ad_well : well g';
  ad_nodes y : y ∈ nodes_of g -> y ∈ nodes_of g';
  ad_node y : y ∈ nodes_of g' -> y ∈ nodes_of g \/ exists z, (z, y) ∈ edges_of g';
  ad_edges e : e ∈ g_edges g -> e ∈ g_edges g';
  ad_edge e : e ∈ g_edges g' -> e ∈ g_edges g \/ exists to, to ∈ tos /\ e = (x, callee_of to, Some to)
    /\ callee_of to ∈ nodes_of g' /\ (more = true -> callee_of to ∈ next');
  ad_kept y : y ∈ next -> y ∈ next';
  ad_next y : y ∈ next' -> y ∈ next \/ exists to, to ∈ tos /\ y = callee_of to /\ y ∈ nodes_of g';
  ad_cut : g_truncated g = true -> g_truncated g' = true;
  ad_all to : g_truncated g' = false -> to ∈ tos -> (x, callee_of to) ∈ edges_of g';
}.

Lemma adds_nil more x g next : well g -> adds more x [] g next g next.
Proof. intros W. split; try done; try (intros; by left). by intros to _ ?%elem_of_nil. Qed.

Lemma adds_cut more x tos g g1 next :
  well g -> nodes_of g1 = nodes_of g -> g_edges g1 = g_edges g -> well g1 -> g_truncated g1 = true -> adds more x tos g next g1 next.
Proof.
  intros W Hn He W1 Ht. split; try done; rewrite ?Hn, ?He; try done; try (intros; by left).
  intros to Hf. congruence.
Qed.

Lemma well_cut_marked x c g : well g -> nodes_full g = true -> well (truncate (mark_edge x c g)).
Proof.
  intros [W1 W2 W3 W4 W5 W6 W7 W8] Hf. split; cbn; try done. intros e H%W7. set_solver.
Qed.

Lemma add_calls_spec more x tos g next :
  well g -> x ∈ nodes_of g ->
  adds more x tos g next (add_calls k params more x tos g next).1 (add_calls k params more x tos g next).2.
Proof.
  revert g next. induction tos as [|to tos IH]; intros g next W Hx; cbn [add_calls]; [by apply adds_nil|].
  destruct (edges_full g) eqn:He; [by apply adds_cut; try apply well_truncate|].
  assert (callee_of to = (callee_node k to).1) as Hc by done. destruct (callee_node k to) as [c s]. cbn [fst] in Hc. subst c.
  case_bool_decide as Hs.
  - destruct (IH g next W Hx) as [A1 A2 A3 A4 A5 A6 A7 A8 A9]. split; try done.
    + intros e [?|(to' & ? & ?)]%A5; [by left|right; exists to'; split; [by right|done]].
    + intros y [?|(to' & ? & ?)]%A7; [by left|right; exists to'; split; [by right|done]].
    + intros to' Ht [->|Hin]%elem_of_cons; [|by apply A9].
      destruct (g_truncated g) eqn:Hg; [by rewrite A8 in Ht|]. apply (w_listed _ W) in Hs; [|done].
      apply list_elem_of_fmap in Hs as (e & -> & Hin). apply list_elem_of_fmap. exists e. split; [done|by apply A4].
  - change (nodes_full (mark_edge x (callee_of to) g)) with (nodes_full g). destruct (nodes_full g) eqn:Hf.
    { apply adds_cut; try done. by apply well_cut_marked. }
    set (g1 := push_edge _ _ _ _). assert (well g1) as W1 by (by apply well_push).
    assert (g_edges g1 = g_edges g ++ [(x, callee_of to, Some to)]) as E1.
    { subst g1. cbn. by destruct (add_node_edges (callee_of to) s (mark_edge x (callee_of to) g)) as (-> & _). }
    assert (nodes_of g1 = nodes_of (add_node (callee_of to) s g)) as N1.
    { subst g1. unfold IdaLib.add_node, IdaLib.nodes_full. cbn. by case_bool_decide. }
    assert (g_truncated g1 = g_truncated g) as T1.
    { subst g1. cbn. by destruct (add_node_edges (callee_of to) s (mark_edge x (callee_of to) g)) as (_ & _ & ->). }
    set (next1 := if more then _ else _).
    destruct (IH g1 next1 W1) as [A1 A2 A3 A4 A5 A6 A7 A8 A9]; [rewrite N1; by apply add_node_grows|].
    rewrite N1, E1, T1 in *.
    assert ((x, callee_of to, Some to) ∈ g_edges (add_calls k params more x tos g1 next1).1) as Hnew.
    { apply A4, elem_of_app. right. by left. }
    assert (callee_of to ∈ nodes_of (add_calls k params more x tos g1 next1).1) as Hnode by (by apply A2, add_node_in).
    split; try done.
    + intros y Hy. by apply A2, add_node_grows.
    + intros y [[Hy|Hy]%add_node_only|Hy]%A3; [by left|right|by right]. subst y. exists x. apply list_elem_of_fmap. by exists (x, callee_of to, Some to).
    + intros e He'. apply A4, elem_of_app. by left.
    + intros e [[Hin|Hin%list_elem_of_singleton]%elem_of_app|(to' & Ht & Hr)]%A5; [by left| |right; exists to'; split; [by right|done]].
      right. exists to. split; [by left|]. split; [done|]. split; [done|]. intros ->. apply A6. apply elem_of_app. right. by left.
    + intros y Hy. apply A6. subst next1. destruct more; [apply elem_of_app; by left|done].
    + intros y [Hy|(to' & ? & ?)]%A7; [|right; exists to'; split; [by right|done]]. subst next1.
      destruct more; [|by left]. apply elem_of_app in Hy as [Hy|Hy%list_elem_of_singleton]; [by left|]. right. exists to. subst y. split; [by left|done].
    + intros to' Ht [->|Hin]%elem_of_cons; [|by apply A9]. apply list_elem_of_fmap. by exists (x, callee_of to, Some to).
Qed.

(** ** One level *)

Definition expanded g (x : Z) : Prop := forall c, calls x c -> (x, c) ∈ edges_of g.

(** An edge is a call, with its site, of a function reached in at most [i]
    steps; both of its ends are nodes. *)
Definition edge_sound (i : nat) g (e : Z * Z * option Z) : Prop :=
  (exists f to, ida_function_at k e.1.1 = Some f /\ targets f to /\ callee_of to = e.1.2 /\ e.2 = Some to)
  /\ (exists n, (n <= i)%nat /\ nsteps calls n root e.1.1) /\ e.1.1 ∈ nodes_of g /\ e.1.2 ∈ nodes_of g.

(** In level [i], with [rest] to do and [next] found for the next one. *)
Record inv (i : nat) (more : bool) (rest next : list Z) g : Prop := {
  iv_well : well g;
  iv_root : root ∈ nodes_of g;
  iv_rest x : x ∈ rest -> nsteps calls i root x /\ x ∈ nodes_of g;
  iv_next x : x ∈ next -> nsteps calls (S i) root x /\ x ∈ nodes_of g;
  iv_edge e : e ∈ g_edges g -> edge_sound i g e;
  iv_node y : y ∈ nodes_of g -> y = root \/ exists z, (z, y) ∈ edges_of g;
  iv_past x n : g_truncated g = false -> (n < i)%nat -> nsteps calls n root x -> expanded g x;
  iv_now x : g_truncated g = false -> nsteps calls i root x -> x ∈ rest \/ expanded g x;
  iv_targets z c : g_truncated g = false -> more = true -> (z, c) ∈ edges_of g -> c ∈ rest \/ c ∈ next \/ expanded g c;
}.

Lemma inv_truncate i more rest next g : inv i more rest next g -> inv i more [] next (truncate g).
Proof. intros []. split; try done; [by apply well_truncate|]. by intros x ?%elem_of_nil. Qed.

Lemma inv_none i more x rest next g :
  ida_function_at k x = None -> inv i more (x :: rest) next g -> inv i more rest next g.
Proof.
  intros Hn [I1 I2 I3 I4 I5 I6 I7 I8 I9]. assert (expanded g x) as Hx by (intros c (f & to & Hf & _); congruence).
  split; try done.
  - intros y Hy. apply I3. by right.
  - intros y Ht Hy. destruct (I8 y Ht Hy) as [[->|?]%elem_of_cons|]; [by right|by left|by right].
  - intros z c Ht Hm Hz. destruct (I9 z c Ht Hm Hz) as [[->|?]%elem_of_cons|[|]]; [by right; right|by left|by right; left|by right; right].
Qed.

Lemma adds_expanded more x tos g next g' next' y :
  adds more x tos g next g' next' -> expanded g y -> expanded g' y.
Proof.
  intros A Hy c Hc. apply Hy in Hc. apply list_elem_of_fmap in Hc as (e & -> & He). apply list_elem_of_fmap. exists e. split; [done|by apply (ad_edges _ _ _ _ _ _ _ A)].
Qed.

Lemma inv_adds i more x f tos rest next g g' next' :
  ida_function_at k x = Some f -> (forall to, to ∈ tos <-> targets f to) ->
  inv i more (x :: rest) next g -> adds more x tos g next g' next' -> inv i more rest next' g'.
Proof.
  intros Hf Htos [I1 I2 I3 I4 I5 I6 I7 I8 I9] A. destruct (I3 x) as [Hx Hxn]; [by left|].
  pose proof (ad_nodes _ _ _ _ _ _ _ A) as Hgrow. pose proof (ad_edges _ _ _ _ _ _ _ A) as Hedges.
  assert (g_truncated g' = false -> g_truncated g = false) as Hback.
  { intros Ht. destruct (g_truncated g) eqn:E; [|done]. apply (ad_cut _ _ _ _ _ _ _ A) in E. congruence. }
  assert (g_truncated g' = false -> expanded g' x) as Hexp.
  { intros Ht c (f' & to & Hf' & Hto & <-). assert (f' = f) as -> by congruence. apply (ad_all _ _ _ _ _ _ _ A); [done|by apply Htos]. }
  assert (forall to, to ∈ tos -> nsteps calls (S i) root (callee_of to)) as Hstep.
  { intros to Hto%Htos. eapply nsteps_r; [exact Hx|]. by exists f, to. }
  split.
  - apply A.
  - by apply Hgrow.
  - intros y Hy. destruct (I3 y) as [? ?]; [by right|]. split; [done|by apply Hgrow].
  - intros y [Hy|(to & Hto & -> & Hn)]%(ad_next _ _ _ _ _ _ _ A); [|by split; [apply Hstep|]].
    destruct (I4 y Hy). split; [done|by apply Hgrow].
  - intros e [He|(to & Hto & -> & Hn & _)]%(ad_edge _ _ _ _ _ _ _ A).
    + destruct (I5 e He) as (H1 & H2 & H3 & H4). split; [done|]. split; [done|]. split; by apply Hgrow.
    + split; [exists f, to; cbn; split; [done|]; split; [by apply Htos|done]|]. split; [by exists i|]. split; [by apply Hgrow|done].
  - intros y [[->|(z & Hz)]%I6|Hz]%(ad_node _ _ _ _ _ _ _ A); [by left| |by right].
    right. exists z. apply list_elem_of_fmap in Hz as (e & Ee & He). apply list_elem_of_fmap. exists e. split; [done|by apply Hedges].
  - intros y n Ht Hn Hy. eapply adds_expanded; [exact A|]. by eapply I7; [apply Hback| |].
  - intros y Ht Hy. destruct (I8 y (Hback Ht) Hy) as [[->|?]%elem_of_cons|]; [right; by apply Hexp|by left|right; by eapply adds_expanded].
  - intros z c Ht Hm Hz. apply list_elem_of_fmap in Hz as ([[z' c'] s] & [= <- <-] & He).
    apply (ad_edge _ _ _ _ _ _ _ A) in He as [He|(to & Hto & [= _ -> _] & _ & Hmore)]; [|right; left; by apply Hmore].
    destruct (I9 z c (Hback Ht) Hm) as [[->|?]%elem_of_cons|[Hc|Hc]].
    + apply list_elem_of_fmap. by exists (z, c, s).
    + right. right. by apply Hexp.
    + by left.
    + right. left. by apply (ad_kept _ _ _ _ _ _ _ A).
    + right. right. by eapply adds_expanded.
Qed.

Context (Hkind : g_kind params <> "cfg") (Hdec : decodes).

Lemma callees_of_spec f x : ida_function_at k x = Some f -> exists tos, callees_of k f = Done tos /\ forall to, to ∈ tos <-> targets f to.
Proof using Hdec.
  intros Hf. pose proof (func_starts Hdec x f Hf) as Hs. unfold callees_of.
  destruct (walk_calls_total (S (Z.to_nat (f_end f - f_start f))) (f_start f) (f_end f) Hdec Hs) as [tos Ht]; [lia|].
  exists tos. split; [done|]. by apply (walk_calls_spec _ _ _ _ Ht).
Qed.

Lemma level_spec i more rest next g :
  inv i more rest next g -> exists g' next', level k params more rest g next = Done (g', next') /\ inv i more [] next' g'.
Proof using Hkind Hdec.
  revert next g. induction rest as [|x rest IH]; intros next g Hi; cbn [level]; [by exists g, next|].
  destruct (ida_function_at k x) as [f|] eqn:Hf; [|apply IH; by eapply inv_none].
  unfold expand, skips. rewrite !bool_decide_false by done. cbn [andb].
  destruct (callees_of_spec f x Hf) as (tos & -> & Htos). cbn [obind].
  pose proof (add_calls_spec more x tos g next (iv_well _ _ _ _ _ Hi)) as A.
  destruct (add_calls k params more x tos g next) as [g1 next1]. cbn [fst snd] in A.
  assert (inv i more rest next1 g1) as Hi1 by (eapply inv_adds; [exact Hf|exact Htos|exact Hi|apply A, (iv_rest _ _ _ _ _ Hi); by left]).
  destruct (_ || _); [|by apply IH]. exists (truncate g1), next1. split; [done|by eapply inv_truncate].
Qed.

(** ** The walk *)

(** The graph after [n] levels. *)
Record final (n : nat) g : Prop := {
  fi_well : well g;
  fi_edge e : e ∈ g_edges g -> edge_sound (pred n) g e;
  fi_node y : y ∈ nodes_of g -> y = root \/ exists z, (z, y) ∈ edges_of g;
  fi_root : root ∈ nodes_of g;
  fi_none : n = 0%nat -> g_edges g = [];
  fi_past x j : g_truncated g = false -> (j < n)%nat -> nsteps calls j root x -> expanded g x;
}.

Lemma inv_next i g next : inv i true [] next g -> g_truncated g = false -> inv (S i) true next [] g.
Proof using Type.
  intros [I1 I2 I3 I4 I5 I6 I7 I8 I9] Ht. split; try done.
  - by intros x ?%elem_of_nil.
  - intros e He. destruct (I5 e He) as (H1 & (n & Hn & Hx) & H2). split; [done|]. split; [exists n; split; [lia|done]|done].
  - intros x n _ Hn Hx. destruct (decide (n = i)) as [->|]; [|apply (I7 x n); [done|lia|done]].
    by destruct (I8 x Ht Hx) as [?%elem_of_nil|].
  - intros x _ (y & Hy & Hc)%nsteps_inv_r. destruct (I8 y Ht Hy) as [?%elem_of_nil|Hexp]; [done|].
    destruct (I9 y x Ht eq_refl (Hexp x Hc)) as [?%elem_of_nil|[|]]; [done|by left|by right].
  - intros z c _ _ Hz. destruct (I9 z c Ht eq_refl Hz) as [?%elem_of_nil|[|]]; [done|by left|by right; right].
Qed.

Lemma inv_weaken i rest next g : inv i true rest next g -> inv i false rest next g.
Proof using Type. intros []. by split. Qed.

Lemma inv_final i n more next g : inv i more [] next g -> (i < n)%nat -> (g_truncated g = false -> n = S i) -> final n g.
Proof using Type.
  intros [I1 I2 I3 I4 I5 I6 I7 I8 I9] Hn Ht. split; try done; [| lia|].
  - intros e He. destruct (I5 e He) as (H1 & (m & Hm & Hx) & H2). split; [done|]. split; [exists m; split; [lia|done]|done].
  - intros x j Hf Hj Hx. specialize (Ht Hf). destruct (decide (j = i)) as [->|]; [|apply (I7 x j); [done|lia|done]].
    by destruct (I8 x Hf Hx) as [?%elem_of_nil|].
Qed.

(** What holds before level [i]: the edges come from the levels before. *)
Record before (i : nat) (frontier : list Z) g : Prop := {
  be_inv : inv i true frontier [] g;
  be_edge e : e ∈ g_edges g -> edge_sound (pred i) g e;
  be_none : i = 0%nat -> g_edges g = [];
}.

Lemma sound_le i j g e : (i <= j)%nat -> edge_sound i g e -> edge_sound j g e.
Proof using Type. intros Hij (H1 & (n & Hn & Hx) & H2). split; [done|]. split; [exists n; split; [lia|done]|done]. Qed.

(** Nothing is left to follow: everything reached is expanded. *)
Lemma before_closed i n g : before i [] g -> (i <= n)%nat -> final n g.
Proof using Type.
  intros [[I1 I2 I3 I4 I5 I6 I7 I8 I9] Hs H0] Hn.
  assert (g_truncated g = false -> forall j x, (i <= j)%nat -> nsteps calls j root x -> expanded g x) as Hlate.
  { intros Ht j. induction j as [|j IH]; intros x Hj Hx.
    - destruct (I8 x Ht) as [?%elem_of_nil|]; [|done|done]. by assert (i = 0%nat) as -> by lia.
    - destruct (decide (i = S j)) as [->|]; [by destruct (I8 x Ht Hx) as [?%elem_of_nil|]|].
      apply nsteps_inv_r in Hx as (y & Hy & Hc). apply IH in Hy; [|lia]. destruct (I9 y x Ht eq_refl (Hy x Hc)) as [?%elem_of_nil|[?%elem_of_nil|]]; done. }
  split; try done.
  - intros e He. apply (sound_le (pred i)); [lia|by apply Hs].
  - intros ->. apply H0. lia.
  - intros x j Ht Hj Hx. destruct (decide (j < i)%nat); [by apply (I7 x j)|by apply (Hlate Ht j x); [lia|]].
Qed.

(** All levels are done. *)
Lemma before_done i frontier g : before i frontier g -> final i g.
Proof using Type. intros [[] Hs H0]. by split. Qed.

Lemma bfs_spec depth i frontier g :
  before i frontier g -> exists g', bfs k params depth frontier g = Done g' /\ final (i + depth) g'.
Proof using Hkind Hdec.
  revert i frontier g. induction depth as [|depth IH]; intros i frontier g Hb; cbn [bfs].
  { exists g. split; [done|]. rewrite Nat.add_0_r. by eapply before_done. }
  case_bool_decide as Hf; [subst; exists g; split; [done|by eapply before_closed; [exact Hb|lia]]|].
  set (more := bool_decide (depth <> 0%nat)).
  assert (inv i more frontier [] g) as Hi by (subst more; destruct Hb; case_bool_decide; [done|by apply inv_weaken]).
  destruct (level_spec i more frontier [] g Hi) as (g1 & next & -> & Hi1). cbn [obind].
  destruct (g_truncated g1) eqn:Ht.
  { exists g1. split; [done|]. eapply inv_final; [exact Hi1|lia|congruence]. }
  subst more. case_bool_decide as Hd.
  - destruct (IH (S i) next g1) as (g' & Hrun & Hfin); [|exists g'; split; [done|by rewrite Nat.add_succ_r]].
    split; [by apply inv_next| |done]. intros e He. by apply (iv_edge _ _ _ _ _ Hi1).
  - assert (depth = 0%nat) as -> by lia. exists g1. split; [done|]. eapply inv_final; [exact Hi1|lia|intros; lia].
Qed.
End Calls.

Section Exact.
Context {K : Type} `{!Ida K}.

Definition start_graph (params : GraphParams) (root : Func) : Graph :=
  add_node params (f_start root) (default "" (f_name root))
    {| g_nodes := []; g_edges := []; g_seen_nodes := ∅; g_seen_edges := ∅; g_truncated := false |}.

Lemma start_before (k : K) params (root : Func) :
  0 < max_nodes params -> before k params (f_start root) 0 [f_start root] (start_graph params root).
Proof.
  intros Hm. assert (IdaLib.nodes_full params {| g_nodes := []; g_edges := []; g_seen_nodes := ∅; g_seen_edges := ∅; g_truncated := false |} = false) as Hf.
  { apply Z.leb_gt. cbn. lia. }
  unfold start_graph, add_node. rewrite bool_decide_false by set_solver. rewrite Hf.
  split; [split| |]; cbn; try done; try lia; try (by intros ? ?%elem_of_nil).
  - split; cbn; try done; try lia; try set_solver.
    + apply NoDup_singleton.
    + constructor.
  - by left.
  - intros x ->%list_elem_of_singleton. split; [constructor|by left].
  - intros y ->%list_elem_of_singleton. by left.
  - intros x _ Hx. left. inversion Hx; subst. by left.
  - by intros z c _ _ ?%elem_of_nil.
Qed.

End Exact.

(** ** The small IDA *)

Module GraphWitness.
Lemma toy_decodes (t : Toy) : decodes t.
Proof.
  split.
  - intros ea i _ Hi. cbn in Hi. unfold toy_insn in Hi. repeat case_match; simplify_eq; cbn; split; try lia;
      match goal with H : (ea =? _) = true |- _ => apply Z.eqb_eq in H; subst; unfold u64_modulus; lia end.
  - intros ea f. change (toy_at t ea = Some f -> 0 <= f_start f). unfold toy_at. destruct (List.find _ toy_ranges) as [r|] eqn:E; cbn; [|done]. intros [= <-]. cbn.
    apply List.find_some in E as [Hin _]. cbn in Hin. by repeat destruct Hin as [<-|Hin]; cbn.
Qed.

Definition two_deep : GraphParams := {| g_kind := "calls"; g_depth := 2; max_nodes := 10; max_edges := 10 |}.
Definition toy_main : Func := toy_func (ida toy_start) (0x1000, 0x1008).

Example toy_graph : (Text.ok (lib_graph toy_start 0x1004 two_deep) ≫= get "edges")
  = Some (JArr [JObj [("from", JNum 0x1000); ("to", JNum 0x2000); ("callsite", JNum 0x2000)];
                JObj [("from", JNum 0x1000); ("to", JNum 0x3000); ("callsite", JNum 0x3000)];
                JObj [("from", JNum 0x2000); ("to", JNum 0x4000); ("callsite", JNum 0x4000)]]).
Proof. vm_compute. reflexivity. Qed.

End GraphWitness.
