(* ===== verification/IdaCfg.v ===== *)
(** * IdaCfg: the basic-block graph of a real database

    The walk of [graph] in [idalib_backend.rs] for the kind [cfg]: the flow
    chart of the function, its blocks as nodes behind the function itself,
    and an edge for every successor, or, for a block without one, to the next
    block of the chart that starts behind it. *)

From stdpp Require Import base list gmap strings.
From Stdlib Require Import ZArith Lia Ascii.
From S2P Require Import Prelude Text Json Errors Index Backend Mutations IdaLib IdaToy IdaGraph.

Local Open Scope rmcp_scope.
Local Open Scope Z_scope.

Section Cfg.
Context (params : GraphParams).
Implicit Types (g : Graph) (blk : Block) (blocks : list Block).

Abbreviation nodes_of g := (g_nodes g).*1.
Abbreviation edges_of g := (g_edges g).*1.

(** ** Nodes *)

Record noded blocks g g' : Prop := {
  nd_well : well params g';
  nd_edges : g_edges g' = g_edges g;
  nd_seen : g_seen_edges g' = g_seen_edges g;
  nd_kept y : y ∈ nodes_of g -> y ∈ nodes_of g';
  nd_node y : y ∈ nodes_of g' -> y ∈ nodes_of g \/ y ∈ b_start <$> blocks;
  nd_all y : g_truncated g' = false -> y ∈ b_start <$> blocks -> y ∈ nodes_of g';
}.

Lemma cfg_nodes_spec blocks g : well params g -> noded blocks g (cfg_nodes params blocks g).
Proof.
  revert g. induction blocks as [|blk blocks IH]; intros g W; cbn [cfg_nodes].
  { split; try done; [by left|by intros y _ ?%elem_of_nil]. }
  destruct (nodes_full params g) eqn:Hf.
  { split; try done; [by apply well_truncate|by left]. }
  set (g1 := add_node params _ _ g). destruct (IH g1) as [A1 A2 A3 A4 A5 A6]; [by apply well_add_node|].
  destruct (add_node_edges params (b_start blk) ("bb_" +:+ show_hex (b_start blk)) g) as (E1 & E2 & _).
  split; [done|by rewrite A2|by rewrite A3| | |].
  - intros y Hy. by apply A4, add_node_grows.
  - intros y [[Hy| ->]%add_node_only|Hy]%A5; [by left|right; by left|right; by right].
  - intros y Ht [->|Hy]%elem_of_cons; [by apply A4, add_node_in|by apply A6].
Qed.

(** ** Edges *)

(** The edges listed are those seen, each once. *)
Definition listed g : Prop := NoDup (edges_of g) /\ forall e, e ∈ edges_of g <-> e ∈ g_seen_edges g.

Record edged (from : Z) (ts : list Z) g g' : Prop := {
  ed_listed : listed g';
  ed_nodes : g_nodes g' = g_nodes g;
  ed_cut : g_truncated g' = g_truncated g;
  ed_kept e : e ∈ g_edges g -> e ∈ g_edges g';
  ed_edge e : e ∈ g_edges g' -> e ∈ g_edges g \/ exists t, t ∈ ts /\ e = (from, t, None);
  ed_all t : t ∈ ts -> (from, t) ∈ edges_of g';
  ed_count : (length (g_edges g') <= length (g_edges g) + length ts)%nat;
}.

Lemma elem_of_edges e g : e ∈ g_edges g -> e.1 ∈ edges_of g.
Proof. intros H. apply list_elem_of_fmap. by exists e. Qed.

Lemma add_cfg_edges_spec from ts g :
  listed g -> edged from ts g (foldl (fun g to => add_cfg_edge from to g) g ts).
Proof.
  revert g. induction ts as [|t ts IH]; intros g Hl; cbn [foldl].
  { split; try done; [by left|by intros t ?%elem_of_nil|lia]. }
  unfold add_cfg_edge at 2. case_bool_decide as Hs.
  - destruct (IH g Hl) as [A1 A2 A3 A4 A5 A6 A7]. split; try done; [| |cbn; lia].
    + intros e [?|(t' & ? & ?)]%A5; [by left|right; exists t'; split; [by right|done]].
    + intros t' [->|Ht]%elem_of_cons; [|by apply A6]. apply Hl in Hs. apply list_elem_of_fmap in Hs as (e & -> & He).
      by apply elem_of_edges, A4.
  - set (g1 := push_edge _ _ _ _). assert (listed g1) as Hl1.
    { destruct Hl as [Hn He]. split; cbn; rewrite ?fmap_app; cbn.
      - apply NoDup_app. split; [done|]. split; [|apply NoDup_singleton]. intros e H%He ->%list_elem_of_singleton. done.
      - intros e. rewrite elem_of_app, list_elem_of_singleton, He, elem_of_union, elem_of_singleton. tauto. }
    destruct (IH g1 Hl1) as [A1 A2 A3 A4 A5 A6 A7]. split; try done.
    + intros e He. apply A4, elem_of_app. by left.
    + intros e [[?| ->%list_elem_of_singleton]%elem_of_app|(t' & ? & ?)]%A5;
        [by left|right; exists t; split; [by left|done]|right; exists t'; split; [by right|done]].
    + intros t' [->|Ht]%elem_of_cons; [|by apply A6]. apply (elem_of_edges (from, t, None)), A4, elem_of_app. right. by left.
    + cbn in A7 |- *. rewrite length_app in A7. cbn in A7. lia.
Qed.

(** What the blocks in [todo] of the chart [all] add; [D] bounds the targets
    of one block, which are listed together. *)
Record linked (all todo : list Block) (D : nat) g g' : Prop := {
  lk_listed : listed g';
  lk_nodes : g_nodes g' = g_nodes g;
  lk_kept e : e ∈ g_edges g -> e ∈ g_edges g';
  lk_edge e : e ∈ g_edges g' -> e ∈ g_edges g \/ exists blk t, blk ∈ todo /\ t ∈ block_targets all blk /\ e = (b_start blk, t, None);
  lk_cut : g_truncated g = true -> g_truncated g' = true;
  lk_all blk t : g_truncated g' = false -> blk ∈ todo -> t ∈ block_targets all blk -> (b_start blk, t) ∈ edges_of g';
  lk_count : Z.of_nat (length (g_edges g)) <= Z.max 0 (max_edges params) + Z.of_nat D ->
    Z.of_nat (length (g_edges g')) <= Z.max 0 (max_edges params) + Z.of_nat D;
}.

Lemma cfg_edges_spec all todo D g :
  Forall (fun blk => (length (block_targets all blk) <= D)%nat) todo -> listed g -> linked all todo D g (cfg_edges params all todo g).
Proof.
  intros HD. revert g. induction HD as [|blk todo Hb HD IH]; intros g Hl; cbn [cfg_edges].
  { split; try done; [by left|by intros blk t _ ?%elem_of_nil]. }
  destruct (edges_full params g) eqn:Hf.
  { split; try done. by left. }
  pose proof (add_cfg_edges_spec (b_start blk) (block_targets all blk) g Hl) as [E1 E2 E3 E4 E5 E6 E7].
  set (g1 := foldl _ g _) in *. destruct (IH g1 E1) as [A1 A2 A3 A4 A5 A6 A7].
  split; [done|by rewrite A2| | | | |].
  - intros e He. by apply A3, E4.
  - intros e [[?|(t & Ht & ->)]%E5|(blk' & t & ? & ? & ?)]%A4;
      [by left|right; exists blk, t; split; [by left|done]|right; exists blk', t; split; [by right|done]].
  - intros Ht. apply A5. by rewrite E3.
  - intros blk' t Ht [->|Hin]%elem_of_cons Htt; [|by apply A6]. apply E6 in Htt. apply list_elem_of_fmap in Htt as (e & -> & He).
    by apply elem_of_edges, A3.
  - intros _. apply A7. unfold edges_full in Hf. apply Z.leb_gt in Hf. lia.
Qed.
End Cfg.

Section ExactCfg.
Context {K : Type} `{!Ida K}.

(** The one level of the walk, and the test behind it. *)
Definition cfg_graph (params : GraphParams) (root : Func) (blocks : list Block) : Graph :=
  let g := cfg_edges params blocks blocks (cfg_nodes params blocks (start_graph params root)) in
  if edges_full params g || nodes_full params g then truncate g else g.

Lemma cfg_run (k : K) params root blocks :
  ida_function_at k (f_start root) = Some root -> g_kind params = "cfg" -> 0 < g_depth params ->
  flow_chart k root = Some blocks -> graph_run k params root = Done (cfg_graph params root blocks).
Proof.
  intros Hr Hk Hd Hc. unfold graph_run. fold (start_graph params root). destruct (Z.to_nat (g_depth params)) as [|n] eqn:Hn; [lia|].
  cbn [bfs]. rewrite bool_decide_false by done. cbn [level]. rewrite Hr. unfold expand, skips.
  rewrite (bool_decide_true (g_kind params = "cfg")) by done. rewrite Hc. cbn [obind andb].
  rewrite (bool_decide_false (Some blocks = None)) by done. unfold cfg_graph.
  destruct (_ || _); cbn [obind]; [done|]. destruct (g_truncated _); [done|]. by destruct n.
Qed.

(** The basic-block graph of a real database is exact.  It lists the
    function and its blocks, each once and as many as are allowed; every edge
    leads from a block to one of its targets, none is listed twice; the edges
    of one block are listed together, so that they exceed the budget by less
    than one block has; and unless the graph is marked as cut, all blocks and
    all edges are there. *)
Theorem cfg_graph_exact (b : IdaLibBackend K) (ea : Z) (params : GraphParams) (root : Func) (blocks : list Block) (D : nat) :
  idb b <> None -> ida_function_at (ida b) ea = Some root -> ida_function_at (ida b) (f_start root) = Some root ->
  g_kind params = "cfg" -> 0 < g_depth params -> 0 < max_nodes params -> 0 <= max_edges params ->
  flow_chart (ida b) root = Some blocks ->
  Forall (fun blk => (length (block_targets blocks blk) <= D)%nat) blocks ->
  exists g, lib_graph b ea params = Ok (graph_value params root g)
    /\ Z.of_nat (length (g_nodes g)) <= max_nodes params /\ Z.of_nat (length (g_edges g)) <= max_edges params + Z.of_nat D
    /\ NoDup (g_nodes g).*1 /\ NoDup (g_edges g).*1
    /\ f_start root ∈ (g_nodes g).*1 /\ (forall y, y ∈ (g_nodes g).*1 -> y = f_start root \/ y ∈ b_start <$> blocks)
    /\ (forall e, e ∈ g_edges g -> exists blk t, blk ∈ blocks /\ t ∈ block_targets blocks blk /\ e = (b_start blk, t, None))
    /\ (g_truncated g = false ->
          Z.of_nat (length (g_edges g)) < max_edges params
          /\ (forall blk, blk ∈ blocks -> b_start blk ∈ (g_nodes g).*1
                /\ forall t, t ∈ block_targets blocks blk -> (b_start blk, t) ∈ (g_edges g).*1)).
Proof.
  intros Ho Ha Hr Hk Hd Hm He Hc HD. exists (cfg_graph params root blocks). split.
  { unfold lib_graph, lib_graph_run, require_idb, at_function. destruct (idb b); [|done]. cbn [bindR Ok]. rewrite Ha. cbn [bindR Ok].
    by rewrite (cfg_run _ params root blocks). }
  pose proof (be_inv _ _ _ _ _ _ (start_before (ida b) params root Hm)) as Hi.
  assert (g_edges (start_graph params root) = [] /\ g_seen_edges (start_graph params root) = ∅) as [Es Ess].
  { unfold start_graph. destruct (add_node_edges params (f_start root) (default "" (f_name root))
      {| g_nodes := []; g_edges := []; g_seen_nodes := ∅; g_seen_edges := ∅; g_truncated := false |}) as (-> & -> & _). done. }
  assert (forall y, y ∈ (g_nodes (start_graph params root)).*1 -> y = f_start root) as Honly.
  { intros y [->|(z & Hz)]%(iv_node _ _ _ _ _ _ _ _ Hi); [done|]. rewrite Es in Hz. by apply elem_of_nil in Hz. }
  destruct (cfg_nodes_spec params blocks _ (iv_well _ _ _ _ _ _ _ _ Hi)) as [[W1 _ W3 _ _ _ _ _] N2 N3 N4 N5 N6].
  set (g1 := cfg_nodes params blocks _) in *. rewrite Es in N2. rewrite Ess in N3.
  assert (listed g1) as Hl. { split; rewrite N2; [constructor|]. intros e. rewrite N3. set_solver. }
  destruct (cfg_edges_spec params blocks blocks D g1 HD Hl) as [[L1 _] L2 L3 L4 L5 L6 L7].
  rewrite N2 in L7. cbn [length] in L7. unfold cfg_graph. fold g1. set (g2 := cfg_edges _ _ _ _) in *.
  set (g3 := if edges_full params g2 || nodes_full params g2 then truncate g2 else g2).
  assert (g_nodes g3 = g_nodes g2 /\ g_edges g3 = g_edges g2) as [-> ->] by (subst g3; by destruct (_ || _)).
  rewrite L2. split; [lia|]. split; [lia|]. split; [done|]. split; [done|].
  split; [apply N4, (iv_root _ _ _ _ _ _ _ _ Hi)|]. split; [intros y [->%Honly|Hy]%N5; [by left|by right]|]. split.
  - intros e [H|H]%L4; [|done]. rewrite N2 in H. by apply elem_of_nil in H.
  - subst g3. destruct (edges_full params g2) eqn:Hf; cbn [orb]; [done|]. destruct (nodes_full params g2); [done|]. intros Ht.
    apply Z.leb_gt in Hf. split; [done|]. intros blk Hb. split; [|intros t Htt; by apply L6].
    apply N6; [|apply list_elem_of_fmap; by exists blk]. destruct (g_truncated g1) eqn:Hg1; [|done]. by rewrite L5 in Ht.
Qed.
End ExactCfg.

(** ** The small IDA *)

Module CfgWitness.
Definition chart : GraphParams := {| g_kind := "cfg"; g_depth := 1; max_nodes := 10; max_edges := 10 |}.

(** The block at 0x1002 returns; the edge to the block behind it is none of
    the program's. *)
Example toy_cfg : (Text.ok (lib_graph toy_start 0x1004 chart) ≫= get "edges")
  = Some (JArr [JObj [("from", JNum 0x1000); ("to", JNum 0x1002)]; JObj [("from", JNum 0x1000); ("to", JNum 0x1004)];
                JObj [("from", JNum 0x1002); ("to", JNum 0x1004)]]).
Proof. vm_compute. reflexivity. Qed.

Lemma cfg_graph_exact_witness :
  exists g, lib_graph toy_start 0x1004 chart = Ok (graph_value chart GraphWitness.toy_main g)
    /\ (forall y, y ∈ (g_nodes g).*1 -> y = 0x1000 \/ y ∈ b_start <$> toy_chart).
Proof.
  destruct (cfg_graph_exact toy_start 0x1004 chart GraphWitness.toy_main toy_chart 2) as (g & Hg & _ & _ & _ & _ & _ & H & _).
  - vm_compute. discriminate.
  - vm_compute. reflexivity.
  - vm_compute. reflexivity.
  - reflexivity.
  - done.
  - done.
  - done.
  - reflexivity.
  - repeat constructor.
  - exists g. split; [exact Hg|exact H].
Defined.
End CfgWitness.
