(* ===== verification/IdaIndex.v ===== *)
(** * IdaIndex: what the index of a real database holds

    The one pass of [build_index] in [idalib_backend.rs] over the instructions
    of each function, against a definition of every field by itself; the
    callers and the string references built from it; and the recovery of
    functions by [analyze_wait], which ends and is bounded. *)

From stdpp Require Import base list gmap strings.
From Stdlib Require Import ZArith Lia Ascii.
From S2P Require Import Prelude Text Json Errors Index Backend Mutations IdaLib IdaToy IdaSnap.

Local Open Scope rmcp_scope.
Local Open Scope Z_scope.

Section Index.
Context {K : Type} `{!Ida K} (k : K).
Implicit Types fa : FunctionFacts.

(** ** Field by field *)

(** The instructions walked: at most [steps], up to one that does not decode. *)
Fixpoint walked (steps : nat) (ea end_ : Z) : list (Z * Insn) :=
  match steps with
  | O => []
  | S steps' =>
      if ea <? end_ then
        match insn_at k ea with
        | None => []
        | Some insn => (ea, insn) :: walked steps' (wrapping_add64 ea (i_len insn)) end_
        end
      else []
  end.

(** The operand of a call that decides: the first with an address or a value. *)
Fixpoint deciding (ops : list (option Op)) : option (Z + Z) :=
  match ops with
  | [] => None
  | None :: rest => deciding rest
  | Some op :: rest =>
      match op_addr op, op_value op with
      | Some a, _ => Some (inl a)
      | None, Some v => Some (inr v)
      | None, None => deciding rest
      end
  end.

(** The function a call instruction goes to. *)
Definition called (i : Insn) : option Func :=
  if i_is_call i then match deciding (i_ops i) with Some (inl a) => ida_function_at k a | _ => None end else None.

Definition imported (i : Insn) : option string :=
  f ← called i;
  let name := get_name k (f_start f) in
  if starts_with "j_" name || starts_with "__imp_" name then Some (import_of name) else None.

Definition jumps_indirectly (i : Insn) : bool := negb (i_is_call i) && i_is_indirect_jump i.

Definition plain (i : Insn) : bool := negb (i_is_call i) && negb (i_is_indirect_jump i).

(** A constant of 16 bits or less does not count. *)
Definition uses_constant (i : Insn) (v : Z) : Prop :=
  0x10000 <= v /\ ((i_is_call i = true /\ deciding (i_ops i) = Some (inr v))
                   \/ (plain i = true /\ exists op, Some op ∈ i_ops i /\ op_value op = Some v)).

Definition string_at (strings : list (Z * string)) (ea : Z) : option string := snd <$> List.find (fun s => s.1 =? ea) strings.

Definition uses_global (strings : list (Z * string)) (ei : Z * Insn) (t : Z) : Prop :=
  (plain ei.2 = true /\ exists op, Some op ∈ i_ops ei.2 /\ op_addr op = Some t)
  \/ (exists x, x ∈ ida_xrefs_from k ei.1 /\ x_to x = t /\ string_at strings t = None).

Definition uses_string (strings : list (Z * string)) (ei : Z * Insn) (s : string) : Prop :=
  exists x, x ∈ ida_xrefs_from k ei.1 /\ string_at strings (x_to x) = Some s.

Lemma walk_facts_fold strings steps ea end_ fa :
  walk_facts k strings steps ea end_ fa = foldl (fun fa ei => insn_facts k strings ei.1 ei.2 fa) fa (walked steps ea end_).
Proof.
  revert ea fa. induction steps as [|steps IH]; intros ea fa; cbn [walk_facts walked]; [done|].
  destruct (ea <? end_); [|done]. destruct (insn_at k ea); [|done]. apply IH.
Qed.

(** ** One instruction *)

(** What an instruction adds to the facts. *)
Record adds_facts (strings : list (Z * string)) (ei : Z * Insn) fa fa' : Prop := {
  af_callees : callees fa' = callees fa ++ option_list (f_start <$> called ei.2);
  af_imports : imports fa' = imports fa ++ option_list (imported ei.2);
  af_indirect : indirect_calls fa' = indirect_calls fa + (if jumps_indirectly ei.2 then 1 else 0);
  af_constants v : v ∈ constants fa' <-> v ∈ constants fa \/ uses_constant ei.2 v;
  af_globals t : t ∈ globals fa' <-> t ∈ globals fa \/ uses_global strings ei t;
  af_strings s : s ∈ ff_strings fa' <-> s ∈ ff_strings fa \/ uses_string strings ei s;
  af_same : ff_start fa' = ff_start fa /\ ff_end fa' = ff_end fa /\ ff_name fa' = ff_name fa /\ ff_size fa' = ff_size fa
    /\ callers fa' = callers fa;
}.

(** The part of the operands of a call. *)
Lemma call_operand_spec ops fa :
  let fa' := call_operand k ops fa in
  let f := match deciding ops with Some (inl a) => ida_function_at k a | _ => None end in
  callees fa' = callees fa ++ option_list (f_start <$> f)
  /\ imports fa' = imports fa ++ option_list (g ← f; let name := get_name k (f_start g) in
       if starts_with "j_" name || starts_with "__imp_" name then Some (import_of name) else None)
  /\ (forall v, v ∈ constants fa' <-> v ∈ constants fa \/ (0x10000 <= v /\ deciding ops = Some (inr v)))
  /\ indirect_calls fa' = indirect_calls fa /\ globals fa' = globals fa /\ ff_strings fa' = ff_strings fa
  /\ ff_start fa' = ff_start fa /\ ff_end fa' = ff_end fa /\ ff_name fa' = ff_name fa /\ ff_size fa' = ff_size fa
  /\ callers fa' = callers fa.
Proof.
  cbv zeta. induction ops as [|[op|] ops IH]; cbn [call_operand deciding];
    [rewrite !app_nil_r; split; [done|]; split; [done|]; split; [naive_solver|done]| |apply IH].
  destruct (op_addr op) as [a|].
  - destruct (ida_function_at k a) as [tf|]; cbn [option_list fmap option_fmap option_map mbind option_bind];
      [|rewrite !app_nil_r; split; [done|]; split; [done|]; split; [naive_solver|done]].
    destruct (_ || _); cbn; rewrite ?app_nil_r; (split; [done|]; split; [done|]; split; [naive_solver|done]).
  - destruct (op_value op) as [v|]; [|apply IH]. cbn. rewrite !app_nil_r.
    destruct (Z.leb_spec 0x10000 v); cbn; (split; [done|]; split; [done|]; split; [|done]); intros v'.
    + rewrite elem_of_app, list_elem_of_singleton. split; [intros [?| ->]; [by left|by right]|intros [?|[_ [= ->]]]; [by left|by right]].
    + split; [by left|]. intros [?|[? [= ->]]]; [done|lia].
Qed.

(** The operands of another instruction. *)
Definition keeps_calls fa fa' : Prop :=
  callees fa' = callees fa /\ imports fa' = imports fa /\ indirect_calls fa' = indirect_calls fa /\ ff_start fa' = ff_start fa
  /\ ff_end fa' = ff_end fa /\ ff_name fa' = ff_name fa /\ ff_size fa' = ff_size fa /\ callers fa' = callers fa.

Lemma data_operand_spec o fa :
  keeps_calls fa (data_operand o fa) /\ ff_strings (data_operand o fa) = ff_strings fa
  /\ (forall v, v ∈ constants (data_operand o fa) <-> v ∈ constants fa \/ (0x10000 <= v /\ exists op, o = Some op /\ op_value op = Some v))
  /\ (forall t, t ∈ globals (data_operand o fa) <-> t ∈ globals fa \/ exists op, o = Some op /\ op_addr op = Some t).
Proof.
  unfold data_operand. destruct o as [op|]; [|split; [done|]; split; [done|]; split; naive_solver].
  set (fa1 := match op_value op with Some v => _ | None => _ end).
  assert (keeps_calls fa fa1 /\ ff_strings fa1 = ff_strings fa /\ globals fa1 = globals fa
    /\ (forall v, v ∈ constants fa1 <-> v ∈ constants fa \/ (0x10000 <= v /\ op_value op = Some v))) as (H1 & H2 & H3 & H4).
  { subst fa1. destruct (op_value op) as [v|]; [|split; [done|]; split; [done|]; split; [done|]; naive_solver].
    destruct (Z.leb_spec 0x10000 v) as [Hv|Hv]; cbn [andb];
      [|split; [done|]; split; [done|]; split; [done|]; intros v'; split; [by left|intros [?|[? [= ->]]]; [done|lia]]].
    case_bool_decide as Hl; cbn [negb]; (split; [done|]; split; [done|]; split; [done|]); intros v'.
    - split; [by left|]. intros [?|[_ [= <-]]]; [done|]. apply last_Some in Hl as [l ->]. apply elem_of_app. right. by left.
    - cbn. rewrite elem_of_app, list_elem_of_singleton. split; [intros [?| ->]; [by left|by right]|intros [?|[_ [= ->]]]; [by left|by right]]. }
  destruct (op_addr op) as [t|] eqn:Ha.
  - split; [exact H1|]. split; [exact H2|]. split.
    + intros v. cbn. rewrite H4. naive_solver.
    + intros t'. cbn. rewrite H3, elem_of_app, list_elem_of_singleton. naive_solver.
  - split; [exact H1|]. split; [exact H2|]. split; [intros v; rewrite H4; naive_solver|]. rewrite H3. naive_solver.
Qed.

Lemma data_operands_spec ops fa :
  let fa' := foldl (fun fa o => data_operand o fa) fa ops in
  keeps_calls fa fa' /\ ff_strings fa' = ff_strings fa
  /\ (forall v, v ∈ constants fa' <-> v ∈ constants fa \/ (0x10000 <= v /\ exists op, Some op ∈ ops /\ op_value op = Some v))
  /\ (forall t, t ∈ globals fa' <-> t ∈ globals fa \/ exists op, Some op ∈ ops /\ op_addr op = Some t).
Proof.
  cbv zeta. revert fa. induction ops as [|o ops IH]; intros fa; cbn [foldl].
  { split; [done|]. split; [done|]. split; intros v; (split; [by left|]); intros [?|H]; [done| |done|].
    - destruct H as (_ & op & ?%elem_of_nil & _). done.
    - destruct H as (op & ?%elem_of_nil & _). done. }
  destruct (data_operand_spec o fa) as (A1 & A2 & A3 & A4). destruct (IH (data_operand o fa)) as (B1 & B2 & B3 & B4).
  split; [unfold keeps_calls in *; intuition congruence|]. split; [congruence|]. split; intros v.
  - rewrite B3, A3. setoid_rewrite elem_of_cons. naive_solver.
  - rewrite B4, A4. setoid_rewrite elem_of_cons. naive_solver.
Qed.

(** The cross-references. *)
Lemma xref_facts_spec strings xs fa :
  let fa' := foldl (xref_fact strings) fa xs in
  keeps_calls fa fa' /\ constants fa' = constants fa
  /\ (forall t, t ∈ globals fa' <-> t ∈ globals fa \/ exists x, x ∈ xs /\ x_to x = t /\ string_at strings t = None)
  /\ (forall s, s ∈ ff_strings fa' <-> s ∈ ff_strings fa \/ exists x, x ∈ xs /\ string_at strings (x_to x) = Some s).
Proof.
  cbv zeta. revert fa. induction xs as [|x xs IH]; intros fa; cbn [foldl].
  { split; [done|]. split; [done|]. split; intros v; (split; [by left|]); intros [?|(x & ?%elem_of_nil & _)]; done. }
  destruct (IH (xref_fact strings fa x)) as (B1 & B2 & B3 & B4).
  assert (keeps_calls fa (xref_fact strings fa x) /\ constants (xref_fact strings fa x) = constants fa
    /\ (forall t, t ∈ globals (xref_fact strings fa x) <-> t ∈ globals fa \/ (x_to x = t /\ string_at strings t = None))
    /\ (forall s, s ∈ ff_strings (xref_fact strings fa x) <-> s ∈ ff_strings fa \/ string_at strings (x_to x) = Some s)) as (A1 & A2 & A3 & A4).
  { unfold xref_fact, string_at. destruct (List.find (fun s => s.1 =? x_to x) strings) as [[sea text]|] eqn:Hf.
    - case_bool_decide; (split; [done|]; split; [done|]; split; [intros t; split; [by left|]; intros [?|[<- E]]; [done|by rewrite Hf in E]|]); intros s; cbn.
      + naive_solver.
      + rewrite elem_of_app, list_elem_of_singleton. naive_solver.
    - split; [done|]. split; [done|]. split; [|naive_solver]. intros t. cbn. rewrite elem_of_app, list_elem_of_singleton.
      split; [intros [?| ->]; [by left|right; by rewrite Hf]|intros [?|[<- _]]; [by left|by right]]. }
  split; [unfold keeps_calls in *; intuition congruence|]. split; [congruence|]. split; intros v.
  - rewrite B3, A3. setoid_rewrite elem_of_cons. naive_solver.
  - rewrite B4, A4. setoid_rewrite elem_of_cons. naive_solver.
Qed.

Lemma insn_facts_spec strings ea insn fa : adds_facts strings (ea, insn) fa (insn_facts k strings ea insn fa).
Proof.
  unfold insn_facts.
  set (fa1 := if i_is_call insn then _ else _). destruct (xref_facts_spec strings (ida_xrefs_from k ea) fa1) as ((C1 & C2 & C3 & C4 & C5 & C6 & C7 & C8) & X2 & X3 & X4).
  assert (callees fa1 = callees fa ++ option_list (f_start <$> called insn) /\ imports fa1 = imports fa ++ option_list (imported insn)
    /\ indirect_calls fa1 = indirect_calls fa + (if jumps_indirectly insn then 1 else 0)
    /\ (forall v, v ∈ constants fa1 <-> v ∈ constants fa \/ uses_constant insn v)
    /\ (forall t, t ∈ globals fa1 <-> t ∈ globals fa \/ (plain insn = true /\ exists op, Some op ∈ i_ops insn /\ op_addr op = Some t))
    /\ ff_strings fa1 = ff_strings fa /\ ff_start fa1 = ff_start fa /\ ff_end fa1 = ff_end fa /\ ff_name fa1 = ff_name fa
    /\ ff_size fa1 = ff_size fa /\ callers fa1 = callers fa) as (P1 & P2 & P3 & P4 & P5 & P6 & P7).
  { subst fa1. unfold called, imported, jumps_indirectly, uses_constant, plain, called. destruct (i_is_call insn); cbn [negb andb].
    - destruct (call_operand_spec (i_ops insn) fa) as (H1 & H2 & H3 & H4 & H5 & H6 & H7). rewrite Z.add_0_r, H5, H6.
      split; [exact H1|]. split; [exact H2|]. split; [exact H4|]. split; [intros v; rewrite H3; naive_solver|]. split; [naive_solver|]. done.
    - destruct (i_is_indirect_jump insn); cbn [negb andb].
      + cbn. rewrite !app_nil_r. split; [done|]. split; [done|]. split; [done|]. split; [naive_solver|]. split; [naive_solver|done].
      + destruct (data_operands_spec (i_ops insn) fa) as ((H1 & H2 & H3 & H4 & H5 & H6 & H7 & H8) & K1 & K2 & K3).
        cbn. rewrite !app_nil_r, Z.add_0_r. split; [done|]. split; [done|]. split; [done|]. split; [intros v; rewrite K2; naive_solver|].
        split; [intros t; rewrite K3; naive_solver|]. done. }
  split.
  - cbn [snd]. congruence.
  - cbn [snd]. congruence.
  - cbn [snd]. congruence.
  - intros v. rewrite X2. apply P4.
  - intros t. rewrite X3, P5. unfold uses_global. cbn [fst snd]. tauto.
  - intros s. rewrite X4, P6. done.
  - destruct P7 as (? & ? & ? & ? & ?). by rewrite C4, C5, C6, C7, C8.
Qed.

(** ** A function *)

Definition instructions (f : Func) : list (Z * Insn) := walked INDEX_STEPS (f_start f) (f_end f).

(** The facts of a function are those of its instructions, field by field. *)
Record facts_exact (strings : list (Z * string)) (f : Func) fa : Prop := {
  fe_start : ff_start fa = f_start f;
  fe_end : ff_end fa = f_end f;
  fe_name : ff_name fa = get_name k (f_start f);
  fe_callees : callees fa = omap (fun ei => f_start <$> called ei.2) (instructions f);
  fe_imports s : s ∈ imports fa <-> exists ei, ei ∈ instructions f /\ imported ei.2 = Some s;
  fe_indirect : indirect_calls fa = Z.of_nat (length (filter (fun ei => jumps_indirectly ei.2 = true) (instructions f)));
  fe_constants v : v ∈ constants fa <-> exists ei, ei ∈ instructions f /\ uses_constant ei.2 v;
  fe_globals t : t ∈ globals fa <-> exists ei, ei ∈ instructions f /\ uses_global strings ei t;
  fe_strings s : s ∈ ff_strings fa <-> exists ei, ei ∈ instructions f /\ uses_string strings ei s;
}.

Lemma facts_fold strings l fa :
  let fa' := foldl (fun fa ei => insn_facts k strings ei.1 ei.2 fa) fa l in
  callees fa' = callees fa ++ omap (fun ei => f_start <$> called ei.2) l
  /\ imports fa' = imports fa ++ omap (fun ei => imported ei.2) l
  /\ indirect_calls fa' = indirect_calls fa + Z.of_nat (length (filter (fun ei => jumps_indirectly ei.2 = true) l))
  /\ (forall v, v ∈ constants fa' <-> v ∈ constants fa \/ exists ei, ei ∈ l /\ uses_constant ei.2 v)
  /\ (forall t, t ∈ globals fa' <-> t ∈ globals fa \/ exists ei, ei ∈ l /\ uses_global strings ei t)
  /\ (forall s, s ∈ ff_strings fa' <-> s ∈ ff_strings fa \/ exists ei, ei ∈ l /\ uses_string strings ei s)
  /\ ff_start fa' = ff_start fa /\ ff_end fa' = ff_end fa /\ ff_name fa' = ff_name fa /\ callers fa' = callers fa.
Proof.
  cbv zeta. revert fa. induction l as [|[ea i] l IH]; intros fa; cbn [foldl].
  { cbn. rewrite !app_nil_r, Z.add_0_r. do 3 (split; [done|]).
    do 3 (split; [intros v; split; [by left|]; intros [?|(ei & ?%elem_of_nil & _)]; done|]). done. }
  destruct (insn_facts_spec strings ea i fa) as [A1 A2 A3 A4 A5 A6 A7]. cbn [fst snd] in *.
  destruct (IH (insn_facts k strings ea i fa)) as (B1 & B2 & B3 & B4 & B5 & B6 & B7 & B8 & B9 & B10).
  split; [rewrite B1, A1, <- app_assoc; f_equal; cbn; by destruct (called i)|].
  split; [rewrite B2, A2, <- app_assoc; f_equal; cbn; by destruct (imported i)|].
  split; [rewrite B3, A3, filter_cons; cbn [snd]; destruct (jumps_indirectly i); cbn [length]; case_decide; cbn [length]; try done; lia|].
  split; [intros v; rewrite B4, A4; setoid_rewrite elem_of_cons; naive_solver|].
  split; [intros v; rewrite B5, A5; setoid_rewrite elem_of_cons; naive_solver|].
  split; [intros v; rewrite B6, A6; setoid_rewrite elem_of_cons; naive_solver|].
  destruct A7 as (? & ? & ? & _ & ?). split_and!; congruence.
Qed.

Lemma function_facts_exact strings f : facts_exact strings f (function_facts k strings f) /\ callers (function_facts k strings f) = [].
Proof.
  unfold function_facts. rewrite walk_facts_fold. fold (instructions f).
  destruct (facts_fold strings (instructions f) (new_facts k f)) as (H1 & H2 & H3 & H4 & H5 & H6 & H7 & H8 & H9 & H10).
  set (fa := foldl _ _ _) in *. split; [|exact H10].
  assert (forall (P : Prop) (x : Z), x ∈ [] \/ P <-> P) as Hnil by (intros P x; split; [by intros [?%elem_of_nil|]|by right]).
  split; cbn [tidy ff_start ff_end ff_name callees imports indirect_calls constants globals ff_strings]; try done.
  - intros s. rewrite elem_of_dedup, sort_by_perm, H2. cbn [imports new_facts app]. apply list_elem_of_omap.
  - intros v. rewrite elem_of_dedup, sort_by_key_perm, H4. apply Hnil.
  - intros t. rewrite elem_of_dedup, sort_by_key_perm, H5. apply Hnil.
  - intros s. rewrite H6. cbn. split; [by intros [?%elem_of_nil|]|by right].
Qed.

(** ** Callers *)

Definition with_callers (l : list Z) fa : FunctionFacts := {|
  ff_start := ff_start fa; ff_end := ff_end fa; ff_name := ff_name fa; demangled := demangled fa; ff_size := ff_size fa;
  imports := imports fa; ff_strings := ff_strings fa; constants := constants fa; indirect_calls := indirect_calls fa;
  callees := callees fa; callers := callers fa ++ l; globals := globals fa |}.

Lemma callers_fold (es : list (Z * Z)) (m : gmap Z FunctionFacts) c :
  foldl (fun m e => alter (add_caller e.1) e.2 m) m es !! c = with_callers (fst <$> filter (fun e => e.2 = c) es) <$> m !! c.
Proof.
  revert m. induction es as [|[x c'] es IH]; intros m; cbn [foldl].
  { cbn. destruct (m !! c) as [fa|]; [|done]. cbn. f_equal. destruct fa. unfold with_callers. cbn. by rewrite app_nil_r. }
  rewrite IH, filter_cons. cbn [fst snd]. case_decide as Hc.
  - subst c'. rewrite lookup_alter_eq. destruct (m !! c) as [fa|]; [|done]. cbn. f_equal. unfold with_callers, add_caller. cbn. by rewrite <- app_assoc.
  - by rewrite lookup_alter_ne.
Qed.

Lemma exact_with_callers strings f l fa : facts_exact strings f fa -> facts_exact strings f (with_callers l fa).
Proof. by intros []. Qed.

Lemma indexed_functions_lookup (fs : list Func) (m : gmap Z FunctionFacts) strings ea :
  NoDup (f_start <$> fs) ->
  foldl (fun m f => <[f_start f := function_facts k strings f]> m) m fs !! ea
  = match List.find (fun f => f_start f =? ea) fs with Some f => Some (function_facts k strings f) | None => m !! ea end.
Proof.
  revert m. induction fs as [|f fs IH]; intros m; cbn [foldl List.find fmap list_fmap]; [done|].
  intros [Hn Hd]%NoDup_cons. rewrite IH by done. destruct (Z.eqb_spec (f_start f) ea) as [<-|Hne].
  - destruct (List.find _ fs) as [g|] eqn:Hf; [|by rewrite lookup_insert_eq]. exfalso. apply List.find_some in Hf as [Hin Heq%Z.eqb_eq].
    apply Hn. rewrite <- Heq. apply list_elem_of_fmap_2. by apply list_elem_of_In.
  - destruct (List.find _ fs); [done|]. by rewrite lookup_insert_ne.
Qed.
End Index.

Section Exact.
Context {K : Type} `{!Ida K}.
Implicit Types b : IdaLibBackend K.

Lemma indexed_lookup (k : K) ea fa :
  NoDup (f_start <$> ida_functions k) ->
  indexed_functions k !! ea = Some fa <-> exists f, f ∈ ida_functions k /\ f_start f = ea /\ fa = function_facts k (ida_strings k) f.
Proof.
  intros Hd. unfold indexed_functions. rewrite indexed_functions_lookup by done. rewrite lookup_empty. split.
  - destruct (List.find _ _) as [f|] eqn:Hf; [|done]. intros [= <-]. apply List.find_some in Hf as [Hin Heq%Z.eqb_eq].
    exists f. split; [by apply list_elem_of_In|done].
  - intros (f & Hin & <- & ->). destruct (List.find _ _) as [g|] eqn:Hf.
    + apply List.find_some in Hf as [Hg%list_elem_of_In Heq%Z.eqb_eq].
      apply list_elem_of_lookup in Hin as [i Hi]. apply list_elem_of_lookup in Hg as [j Hj].
      assert (i = j) as ->; [|congruence].
      eapply (NoDup_lookup (f_start <$> ida_functions k) i j (f_start f)); [done|rewrite list_lookup_fmap, Hi; done|rewrite list_lookup_fmap, Hj; cbn; by rewrite Heq].
    + apply list_elem_of_In, (List.find_none _ _ Hf) in Hin. cbn in Hin. by rewrite Z.eqb_refl in Hin.
Qed.

Lemma elem_of_call_edges (fs : gmap Z FunctionFacts) x c :
  (x, c) ∈ call_edges fs <-> exists fx, fs !! x = Some fx /\ c ∈ callees fx.
Proof using Type.
  unfold call_edges. rewrite list_elem_of_bind. split.
  - intros ([y fy] & Hin & Hy). apply elem_of_btree_iter in Hy. cbn in Hin. apply list_elem_of_fmap in Hin as (c' & [= -> ->] & Hc). by exists fy.
  - intros (fx & Hx & Hc). exists (x, fx). split; [|by apply elem_of_btree_iter]. cbn. apply list_elem_of_fmap. by exists c.
Qed.

Lemma elem_of_string_refs (fs : gmap Z FunctionFacts) sea x :
  x ∈ string_refs fs sea <-> exists fx, fs !! x = Some fx /\ sea ∈ globals fx.
Proof using Type.
  unfold string_refs. rewrite list_elem_of_fmap. split.
  - intros ([y fy] & -> & Hin). apply list_elem_of_In, List.filter_In in Hin as [Hin Hg]. apply list_elem_of_In, elem_of_btree_iter in Hin.
    apply bool_decide_eq_true in Hg. by exists fy.
  - intros (fx & Hx & Hg). exists (x, fx). split; [done|]. apply list_elem_of_In, List.filter_In.
    split; [by apply list_elem_of_In, elem_of_btree_iter|by apply bool_decide_eq_true].
Qed.

(** The functions once the callers are filled in. *)
Definition linked (fs : gmap Z FunctionFacts) : gmap Z FunctionFacts :=
  foldl (fun m e => alter (add_caller e.1) e.2 m) fs (call_edges fs).

Lemma linked_lookup fs ea fa :
  linked fs !! ea = Some fa
  <-> exists fb, fs !! ea = Some fb /\ fa = with_callers (fst <$> filter (fun e => e.2 = ea) (call_edges fs)) fb.
Proof using Type.
  unfold linked. rewrite callers_fold. destruct (fs !! ea) as [fb|]; cbn; [|split; [done|by intros (? & ? & _)]].
  split; [intros [= <-]; by exists fb|intros (? & [= <-] & ->); done].
Qed.

Lemma linked_globals fs sea x :
  (exists fx, linked fs !! x = Some fx /\ sea ∈ globals fx) <-> x ∈ string_refs fs sea.
Proof using Type.
  rewrite elem_of_string_refs. split; [intros (fx & (fb & Hb & ->)%linked_lookup & Hg); by exists fb|].
  intros (fx & Hx & Hg). eexists. split; [apply linked_lookup; by eexists|done].
Qed.

Lemma linked_callers fs c fb x :
  fs !! c = Some fb -> callers fb = [] ->
  x ∈ callers (with_callers (fst <$> filter (fun e => e.2 = c) (call_edges fs)) fb)
  <-> exists fx, linked fs !! x = Some fx /\ c ∈ callees fx.
Proof using Type.
  intros Hb Hc. cbn [with_callers callers]. rewrite Hc. cbn [app]. rewrite list_elem_of_fmap. split.
  - intros ([x' c'] & -> & [Hf Hx]%list_elem_of_filter). cbn in Hf. subst c'. apply elem_of_call_edges in Hx as (fx & Hx & Hcx).
    cbn. eexists. split; [apply linked_lookup; by eexists|done].
  - intros (fx & (fy & Hy & ->)%linked_lookup & Hcx). exists (x, c). split; [done|]. apply list_elem_of_filter. split; [done|].
    apply elem_of_call_edges. by exists fy.
Qed.

Lemma elem_of_indexed_strings fs strings e :
  e ∈ indexed_strings fs strings
  <-> (Index.str_ea e, text e) ∈ strings /\ refs e = string_refs fs (Index.str_ea e) /\ refs e <> [].
Proof using Type.
  unfold indexed_strings. rewrite list_elem_of_omap. split.
  - intros ([sea t] & Hin & Hsome). cbn in Hsome. case_bool_decide; [done|]. by injection Hsome as <-.
  - destruct e as [sea t rs]. cbn. intros (Hin & -> & Hr). exists (sea, t). split; [done|]. cbn. by rewrite bool_decide_false.
Qed.

End Exact.

(** ** Recovering functions *)

Section Recovery.
Context {K : Type} `{!Ida K}.

Lemma sweep_at_added ea (ka : K * Z) : ka.2 <= (sweep_at ea ka).2 <= ka.2 + 1.
Proof.
  destruct ka as [k n]. unfold sweep_at. destruct (ida_function_at k ea); cbn; [lia|]. destruct (create_insn ea k) as [len k1].
  destruct (0 <? len); cbn; [|lia]. destruct (add_func ea k1) as [[|] k2]; cbn; lia.
Qed.

(** A segment smaller than the address space is swept to its end. *)
Lemma sweep_total fuel start size off (ka : K * Z) :
  0 <= off -> size <= u64_modulus - SWEEP_STEP -> (Z.to_nat ((size - off + 3) / 4) < fuel)%nat -> ka.2 <= MAX_RECOVERED ->
  exists ka', sweep fuel start size off ka = Done ka' /\ ka.2 <= ka'.2 <= MAX_RECOVERED.
Proof.
  revert off ka. induction fuel as [|fuel IH]; intros off ka Hoff Hs Hf Hn; [lia|]. cbn [sweep].
  destruct (Z.ltb_spec off size) as [Hlt|]; cbn [andb]; [|exists ka; split; [done|lia]].
  destruct (Z.ltb_spec ka.2 MAX_RECOVERED) as [Hmax|]; [|exists ka; split; [done|lia]].
  pose proof (sweep_at_added (wrapping_add64 start off) ka) as Ha. unfold SWEEP_STEP in *.
  assert (wrapping_add64 off 4 = off + 4) as -> by (unfold wrapping_add64; rewrite Z.mod_small by lia; done).
  destruct (IH (off + 4) (sweep_at (wrapping_add64 start off) ka)) as (ka' & -> & H); [lia|done| |lia|exists ka'; split; [done|lia]].
  replace (size - off + 3) with (size - (off + 4) + 3 + 1 * 4) in Hf by lia. rewrite Z.div_add in Hf by lia.
  assert (0 <= (size - (off + 4) + 3) / 4) by (apply Z.div_pos; lia). lia.
Qed.

Lemma sweep_segments_total segs (ka : K * Z) :
  Forall (fun se => wrapping_sub64 se.2 se.1 <= u64_modulus - SWEEP_STEP) segs -> ka.2 <= MAX_RECOVERED ->
  exists ka', sweep_segments segs ka = Done ka' /\ ka.2 <= ka'.2 <= MAX_RECOVERED.
Proof.
  revert ka. induction segs as [|[s e] segs IH]; intros ka Hsegs Hn; cbn [sweep_segments]; [exists ka; split; [done|lia]|].
  apply Forall_cons in Hsegs as [Hse Hsegs]. cbn in Hse.
  destruct (sweep_total (sweep_steps (wrapping_sub64 e s)) s (wrapping_sub64 e s) 0 ka) as (ka1 & -> & H1);
    [lia|done|unfold sweep_steps; rewrite Z.sub_0_r; lia|done|]. cbn [obind].
  destruct (MAX_RECOVERED <=? ka1.2); [exists ka1; split; [done|lia]|].
  destruct (IH ka1) as (ka' & Hk & H2); [done|lia|]. exists ka'. split; [exact Hk|lia].
Qed.

Lemma seeds_added eas (ka : K * Z) : ka.2 <= (foldl seed_entry ka eas).2 <= ka.2 + Z.of_nat (length eas).
Proof.
  revert ka. induction eas as [|ea eas IH]; intros [k n]; cbn [foldl length]; [lia|].
  assert (n <= (seed_entry (k, n) ea).2 <= n + 1) as H.
  { unfold seed_entry. destruct (ida_function_at k ea); cbn; [lia|]. destruct (ida_function_at (create_insn ea k).2 ea); cbn; [lia|].
    destruct (add_func ea (create_insn ea k).2) as [[|] k2]; cbn; lia. }
  specialize (IH (seed_entry (k, n) ea)). cbn [snd]. lia.
Qed.

(** Waiting for the analysis always ends, adds at most two thousand
    functions, and does not touch the revision although it edits. *)
Lemma analyze_wait_total (b : IdaLibBackend K) :
  (forall k, Forall (fun s => wrapping_sub64 (s_end s) (s_start s) <= u64_modulus - SWEEP_STEP) (ida_segments k)) ->
  exists r b', lib_analyze_wait_run b = Done (r, b') /\ lib_analyze_wait b = (r, b') /\ lib_revision b' = lib_revision b.
Proof.
  intros Hsegs. assert (exists r b', lib_analyze_wait_run b = Done (r, b')) as (r & b' & E).
  { unfold lib_analyze_wait_run. destruct (require_idb b); [by eexists _, _|]. destruct (function_count _ =? 0); [|by eexists _, _].
    unfold recover. set (k := auto_wait (ida b)). set (eas := e_ea <$> take 16 (ida_entries k)).
    pose proof (seeds_added eas (k, 0)) as Ha. destruct (foldl seed_entry (k, 0) eas) as [k1 n]. cbn [snd] in Ha.
    assert (Z.of_nat (length eas) <= 16) as Hl by (subst eas; rewrite length_fmap, length_take; lia).
    set (segs := (fun s => (s_start s, s_end s)) <$> take 16 (exec_segments k1)).
    destruct (sweep_segments_total segs (k1, n)) as ([k2 n2] & -> & _); [|unfold MAX_RECOVERED; cbn; lia|cbn; by eexists _, _].
    subst segs. apply Forall_fmap, Forall_take. apply Forall_forall. intros s [_ Hs]%list_elem_of_filter. by apply (proj1 (Forall_forall _ _) (Hsegs k1)). }
  exists r, b'. split; [done|]. split; [unfold lib_analyze_wait; by rewrite E|]. by apply moves_analyze in E as [_ ?].
Qed.
End Recovery.

(** ** The small IDA *)

Module IndexWitness.
Definition toy_index : AnalysisIndex := Eval vm_compute in
  match lib_build_index toy_start with
  | inr im => im.1
  | inl _ => {| schema_version := 0; binary_md5 := ""; idx_revision := 0; functions := ∅; idx_strings := [] |}
  end.


(** The string that j_puts refers to is one of its strings, and still the
    index of strings is empty: the reference is not among the globals, from
    which the references of a string are taken. *)
Example referenced_string_lost :
  (ff_strings <$> functions toy_index !! 0x4000) = Some ["hello"] /\ idx_strings toy_index = [].
Proof. vm_compute. done. Qed.

(** The thunk's name without its prefix is the import. *)
Example import_thunk : (imports <$> functions toy_index !! 0x2000) = Some ["puts"] /\ (callers <$> functions toy_index !! 0x3000) = Some [0x1000].
Proof. vm_compute. done. Qed.
End IndexWitness.
