(* ===== verification/Transforms.v ===== *)
(** * Transforms: deobfuscation by proposed, validated and reversible patches

    Models [rmcp-worker/src/transforms.rs]: finding the sites of a transform
    in a function's disassembly, the plan that overwrites them with NOPs
    ([propose]), the check of a plan against the live database ([validate]),
    and its application behind a revision guard and a snapshot
    ([transform_apply], the source's [apply]), over any backend.  The
    theorems: what a proposal contains, what a validated plan satisfies, and
    that an application can be rolled back. *)

From stdpp Require Import base list gmap strings.
From Stdlib Require Import ZArith Lia Ascii.
From S2P Require Import Prelude Text Json Errors Index Backend Mutations.

Local Open Scope rmcp_scope.

Definition MAX_SITES : nat := 16.
Definition NOP : string := "90".

Inductive TransformKind := T1OpaqueBranch | T2JunkRemoval | T3IndirectMaterialize | T4Unflatten.

#[global] Instance TransformKind_eq_dec : EqDecision TransformKind.
Proof. solve_decision. Defined.

Definition TransformKind_parse (s : string) : Result TransformKind :=
  if bool_decide (s = "T1_opaque_branch") then Ok T1OpaqueBranch
  else if bool_decide (s = "T2_junk_removal") then Ok T2JunkRemoval
  else if bool_decide (s = "T3_indirect_materialize") then Ok T3IndirectMaterialize
  else if bool_decide (s = "T4_unflatten") then Ok T4Unflatten
  else Err (Worker ("unknown transform kind '" +:+ s
    +:+ "' (T1_opaque_branch|T2_junk_removal|T3_indirect_materialize|T4_unflatten)")).

Definition TransformKind_name (k : TransformKind) : string :=
  match k with
  | T1OpaqueBranch => "T1_opaque_branch"
  | T2JunkRemoval => "T2_junk_removal"
  | T3IndirectMaterialize => "T3_indirect_materialize"
  | T4Unflatten => "T4_unflatten"
  end.

Record Site := { site_ea : Z; site_len : nat; site_evidence : Value }.

(** ** Finding sites *)

Definition insn_len (text : string) : nat := Nat.max 1 (word_count text).

(** [operands.split(',').map(trim)]. *)
Definition operand_parts (ops : string) : list string := trim <$> split_on "," ops.

Definition is_cond_jump (insn : InsnInfo) : bool :=
  bool_decide (to_ascii_lowercase (mnemonic insn) ∈ ["jz"; "jnz"; "je"; "jne"]).

(** The body of the loop of [opaque_sites]. *)
Definition opaque_site (insn : InsnInfo) (next : option InsnInfo) : option Site :=
  let m := to_ascii_lowercase (mnemonic insn) in
  let self_cmp := bool_decide (m ∈ ["cmp"; "test"])
    && match operand_parts (operands insn) with
       | [x; y] => eq_ignore_ascii_case x y && negb (bool_decide (x = "?"))
       | _ => false
       end in
  match next with
  | Some jump =>
      if self_cmp && is_cond_jump jump
      then Some {| site_ea := insn_ea insn;
                   site_len := Nat.min 16 (insn_len (insn_text insn)
                                           + Nat.max 1 (String.length (insn_text jump)));
                   site_evidence := JObj [("pattern", JStr (m +:+ "_reg_reg")); ("text", JStr (insn_text insn))] |}
      else None
  | None => None
  end.

Fixpoint opaque_scan (insns : list InsnInfo) (sites : list Site) : list Site :=
  match insns with
  | [] => sites
  | insn :: rest =>
      match opaque_site insn (head rest) with
      | Some s => let sites' := sites ++ [s] in
                  if (MAX_SITES <=? length sites')%nat then sites' else opaque_scan rest sites'
      | None => opaque_scan rest sites
      end
  end.

Definition is_mem (s : string) : bool := bool_decide (s = "Displ") || bool_decide (s = "Phrase").
Definition is_reg_operand (s : string) : bool := bool_decide (s = "Reg").

Definition pair_is_roundtrip (a b : InsnInfo) : bool :=
  eq_ignore_ascii_case (mnemonic a) "mov" && eq_ignore_ascii_case (mnemonic b) "mov"
  && match operand_parts (operands a), operand_parts (operands b) with
     | [a0; a1], [b0; b1] =>
         (is_mem a0 && is_reg_operand a1 && is_reg_operand b0 && is_mem b1)
         || (is_reg_operand a0 && is_mem a1 && is_reg_operand b0 && is_mem b1)
     | _, _ => false
     end.

Definition junk_site (a b : InsnInfo) : Site := {|
  site_ea := insn_ea a;
  site_len := Nat.min 16 (insn_len (insn_text a) + insn_len (insn_text b));
  site_evidence := JObj [("pattern", JStr "store_load_roundtrip"); ("site", JStr (insn_text a));
                         ("follower", JStr (insn_text b))] |}.

Fixpoint junk_scan (insns : list InsnInfo) (sites : list Site) : list Site :=
  match insns with
  | [] | [_] => sites
  | a :: ((b :: rest') as rest) =>
      if pair_is_roundtrip a b
      then let sites' := sites ++ [junk_site a b] in
           if (MAX_SITES <=? length sites')%nat then sites' else junk_scan rest' sites'
      else junk_scan rest sites
  end.

Definition REGISTERS : list string :=
  ["eax"; "ebx"; "ecx"; "edx"; "esi"; "edi"; "ebp"; "esp"; "rax"; "rbx"; "rcx"; "rdx"; "rsi"; "rdi"; "rbp"; "rsp"].
Definition is_reg (ops : string) : bool := bool_decide (ops ∈ REGISTERS).

Definition parse_imm (s : string) : option Z :=
  let t := trim_start_matches "0X" (trim_start_matches "0x" (trim s)) in
  if bool_decide (t = "") then None
  else match parse_hex_u64 t with inr v => Some v | inl _ => ok (parse_u64 (trim s)) end.

(** The constant a [mov] into [reg] loads. *)
Definition mov_imm (reg : string) (prev : InsnInfo) : option Z :=
  if eq_ignore_ascii_case (mnemonic prev) "mov" then
    match operand_parts (operands prev) with
    | [x; y] => if eq_ignore_ascii_case x reg then parse_imm y else None
    | _ => None
    end
  else None.

(** The body of the loop of [indirect_sites]; [before] are the instructions
    in front of [insn], nearest first. *)
Definition indirect_site (before : list InsnInfo) (insn : InsnInfo) : option Site :=
  let ops := to_ascii_lowercase (trim (operands insn)) in
  if bool_decide (to_ascii_lowercase (mnemonic insn) = "jmp") && is_reg ops then
    match elements (list_to_set (omap (mov_imm ops) (take 6 before)) : gset Z) with
    | [v] => Some {| site_ea := insn_ea insn; site_len := Nat.min 16 (insn_len (insn_text insn));
                     site_evidence := JObj [("pattern", JStr "jmp_reg_const"); ("reg", JStr ops);
                                            ("target", JStr (show_0x v))] |}
    | _ => None
    end
  else None.

Fixpoint indirect_scan (before insns : list InsnInfo) (sites : list Site) : list Site :=
  match insns with
  | [] => sites
  | insn :: rest =>
      match indirect_site before insn with
      | Some s => let sites' := sites ++ [s] in
                  if (MAX_SITES <=? length sites')%nat then sites' else indirect_scan (insn :: before) rest sites'
      | None => indirect_scan (insn :: before) rest sites
      end
  end.

(** The error of [transforms::parse_ea] shows the text before trimming. *)
Definition transform_parse_ea (s : string) : Result Z :=
  let t := trim s in
  let bad e := Worker ("bad ea '" +:+ s +:+ "': " +:+ ParseIntError_to_string e) in
  match (match strip_prefix "0x" t with Some h => Some h | None => strip_prefix "0X" t end) with
  | Some hex => match parse_hex_u64 hex with inl e => Err (bad e) | inr x => Ok x end
  | None => match parse_u64 t with inl e => Err (bad e) | inr x => Ok x end
  end.

(** ** Evidence *)

(** FNV-1a over the bytes. *)
Definition fnv_step (h : Z) (c : ascii) : Z := (Z.lxor h (ord c) * 0x100000001b3) mod u64_modulus.
Fixpoint fnv (h : Z) (s : string) : Z :=
  match s with EmptyString => h | String c s' => fnv (fnv_step h c) s' end.

(** [format!("{h:016x}")]. *)
Definition show_016x (h : Z) : string :=
  let s := show_hex h in repeat_str "0" (16 - String.length s) +:+ s.

Definition decompile_summary (v : option Value) : Value :=
  match v with
  | Some d =>
      let code := as_str (d @@ "pseudocode") in
      JObj [("pseudocode_len", jopt (fun s => jnat (String.length s)) code);
            ("lines", jopt (fun s => jnat (line_count s)) code);
            ("sha_prefix", jopt (fun s => JStr (show_016x (fnv 0xcbf29ce484222325 s))) code)]
  | None => JObj [("unavailable", JBool true)]
  end.

Section Transforms.
Context {B : Type} `{!IdaBackend B}.

Definition opaque_sites (b : B) (target end_ : Z) : Result (list Site) :=
  insns <-? disassemble b target (Some end_) 2000; Ok (opaque_scan insns []).
Definition junk_sites (b : B) (target end_ : Z) : Result (list Site) :=
  insns <-? disassemble b target (Some end_) 2000; Ok (junk_scan insns []).
Definition indirect_sites (b : B) (target end_ : Z) : Result (list Site) :=
  insns <-? disassemble b target (Some end_) 2000; Ok (indirect_scan [] insns []).

Definition find_sites (b : B) (target end_ : Z) (kind : TransformKind) : Result (list Site) :=
  match kind with
  | T1OpaqueBranch => opaque_sites b target end_
  | T2JunkRemoval => junk_sites b target end_
  | T3IndirectMaterialize => indirect_sites b target end_
  | T4Unflatten => Ok []
  end.

Definition site_operation (s : Site) : Value :=
  JObj [("kind", JStr "patch_bytes"); ("ea", JStr (show_0x (site_ea s)));
        ("hex", JStr (repeat_str NOP (site_len s)))].

Definition propose (b : B) (idx : AnalysisIndex) (target : Z) (kind : TransformKind) : Result Value :=
  f <-? ok_or_else (functions idx !! target) (Worker ("no function at " +:+ show_0x target));
  match kind with
  | T4Unflatten =>
      Ok (JObj [("transform_id", JStr ("t4-unflatten-" +:+ show_hex target));
        ("kind", JStr (TransformKind_name kind)); ("target", JStr (show_0x target));
        ("proposable", JBool false); ("reason", JStr "requires_microcode");
        ("note", JStr "dispatcher elimination needs the microcode transform stack; no plan emitted")])
  | _ =>
      sites <-? find_sites b target (ff_end f) kind;
      let chosen := take MAX_SITES sites in
      Ok (JObj [("transform_id", JStr (to_ascii_lowercase (TransformKind_name kind) +:+ "-" +:+ show_hex target
                  +:+ "-" +:+ show_dec (Z.of_nat (length sites))));
        ("kind", JStr (TransformKind_name kind)); ("target", JStr (show_0x target));
        ("function", JStr (ff_name f));
        ("proposable", JBool (negb (bool_decide (chosen = []))));
        ("truncated", JBool (MAX_SITES <? length sites)%nat);
        ("risk", JStr "low"); ("reversible", JBool true); ("requires_microcode", JBool false);
        ("evidence", JArr ((fun s => JObj [("ea", JStr (show_0x (site_ea s))); ("len", jnat (site_len s));
                                           ("evidence", site_evidence s)]) <$> chosen));
        ("operations", JArr (site_operation <$> chosen));
        ("note", JStr "patch-level transform; validate re-checks bytes/xrefs at apply time")])
  end.

(** ** Validation *)

(** The non-flow references into the [n] bytes at [ea]. *)
Fixpoint inbound (b : B) (ea : Z) (a n : nat) : Result (list Value) :=
  match n with
  | O => Ok []
  | S n' =>
      xs <-? xrefs_to b (wrapping_add64 ea (Z.of_nat a));
      let hits := (fun x => JObj [("from", JStr (show_0x (xref_from x))); ("kind", JStr (xref_kind x))])
        <$> filter (fun x => xref_kind x <> "flow") xs in
      rest <-? inbound b ea (S a) n';
      Ok (hits ++ rest)
  end.

Definition op_hex_len (op : Value) : nat := Nat.div2 (String.length (default "" (as_str (op @@ "hex")))).

(** One operation of a plan: the rejection it earns, if any. *)
Definition check_site (b : B) (f : FunctionInfo) (i : nat) (op : Value) : Result (option Value) :=
  match as_str (op @@ "ea") with
  | None => Ok (Some (JObj [("index", jnat i); ("reason", JStr "malformed_op")]))
  | Some ea_s =>
      ea <-? transform_parse_ea ea_s;
      let len := op_hex_len op in
      let stop := wrapping_add64 ea (Z.of_nat len) in
      if (ea <? ea_start f)%Z || (ea_end f <? stop)%Z then
        Ok (Some (JObj [("index", jnat i); ("ea", JStr ea_s); ("reason", JStr "outside_target_function");
          ("detail", JStr ("site [" +:+ show_0x ea +:+ "," +:+ show_0x stop +:+ ") not inside ["
                           +:+ show_0x (ea_start f) +:+ "," +:+ show_0x (ea_end f) +:+ ")"))]))
      else
        hits <-? inbound b ea 0 len;
        match hits with
        | _ :: _ =>
            Ok (Some (JObj [("index", jnat i); ("ea", JStr ea_s); ("reason", JStr "inbound_xrefs");
              ("detail", JStr "site bytes are referenced; NOPs would corrupt callers"); ("xrefs", JArr hits)]))
        | [] =>
            raw <-? get_bytes b ea (Z.of_nat len);
            Ok (if bool_decide (default "" (as_str (raw @@ "hex")) = "")
                then Some (JObj [("index", jnat i); ("ea", JStr ea_s); ("reason", JStr "bytes_unreadable")])
                else None)
        end
  end.

Fixpoint check_sites (b : B) (f : FunctionInfo) (i : nat) (ops : list Value) : Result (list Value) :=
  match ops with
  | [] => Ok []
  | op :: ops' =>
      r <-? check_site b f i op;
      rs <-? check_sites b f (S i) ops';
      Ok (match r with Some v => v :: rs | None => rs end)
  end.

Definition plan_operations (plan : Value) : list Value := default [] (as_array (plan @@ "operations")).

Definition validate (b : B) (plan : Value) : Result Value :=
  let kind := default "" (as_str (plan @@ "kind")) in
  target <-? transform_parse_ea (default "0" (as_str (plan @@ "target")));
  match function_at b target with
  | inl e =>
      Ok (JObj [("valid", JBool false); ("kind", JStr kind);
        ("rejections", JArr [JObj [("reason", JStr "target_function_gone"); ("detail", JStr (to_string e))]])])
  | inr f =>
      let ops := plan_operations plan in
      rejections <-? check_sites b f 0 ops;
      Ok (JObj [("valid", JBool (bool_decide (rejections = []))); ("kind", JStr kind);
        ("operations", jnat (length ops)); ("rejections", JArr rejections)])
  end.

(** ** Application *)

Definition cfg_params : GraphParams := {| g_kind := "cfg"; g_depth := 1; max_nodes := 400; max_edges := 800 |}.

(** [.ok().and_then(|g| g[key].as_array().map(len))]. *)
Definition count_of (g : Result Value) (key : string) : Value :=
  jopt (fun a => jnat (length a)) (v ← ok g; as_array (v @@ key)).

Definition transform_apply (plan : Value) (expected : option Z) (st : WorkerState B)
  : outcome (Result Value * WorkerState B) :=
  let ops_json := plan_operations plan in
  if bool_decide (ops_json = []) then Done (Err (Worker "plan has no operations"), st)
  else
    match transform_parse_ea (default "0" (as_str (plan @@ "target"))) with
    | inl e => Done (Err e, st)
    | inr target =>
        b <~ at_ (backend st);
        match check_plan_revision b expected with
        | inl e => Done (Err e, st)
        | inr _ =>
            let '(snap, b1) := snapshot_create b in
            let st1 := {| backend := Some b1; audit := audit st |} in
            match snap with
            | inl e => Done (Err e, st1)
            | inr snapshot =>
                match parse_operations ops_json with
                | inl e => Done (Err e, st1)
                | inr ops =>
                    r <~ apply ops b1 (audit st);
                    let '(applied, b2, audit2) := r in
                    Done (applied <-? applied;
                          Ok (JObj [("transform_id", plan @@ "transform_id");
                            ("kind", JStr (default "unknown" (as_str (plan @@ "kind"))));
                            ("target", plan @@ "target"); ("applied", applied);
                            ("before", decompile_summary (ok (decompile b1 target)));
                            ("after", decompile_summary (ok (decompile b2 target)));
                            ("cfg_after", JObj [("nodes", count_of (graph b2 target cfg_params) "nodes");
                                                ("edges", count_of (graph b2 target cfg_params) "edges")]);
                            ("snapshot", snapshot);
                            ("rollback", JStr "ida_deobfuscate action=rollback (or ida_mutation action=rollback)")]),
                          {| backend := Some b2; audit := audit2 |})
                end
            end
        end
    end.

(** ** The arms of [dispatch] *)

Definition plan_param (params : Value) : Result Value := ok_or_else (get "plan" params) (Worker "missing 'plan'").

Definition do_deob_validate (params : Value) (st : WorkerState B) : Result Value :=
  plan <-? plan_param params; b <-? need_backend st; validate b plan.

Definition do_deob_apply (params : Value) (st : WorkerState B) : outcome (Result Value * WorkerState B) :=
  match plan_param params with
  | inl e => Done (Err e, st)
  | inr plan => transform_apply plan (v ← get "expected_revision" params; as_u64 v) st
  end.
End Transforms.

(** ** What the scans find *)

(** A site of a disassembly: it begins at one of the instructions and covers
    1 to 16 bytes. *)
Definition site_of (insns : list InsnInfo) (s : Site) : Prop :=
  (exists i, i ∈ insns /\ site_ea s = insn_ea i) /\ (1 <= site_len s <= 16)%nat.

Definition sites_of (insns : list InsnInfo) (sites : list Site) : Prop :=
  Forall (site_of insns) sites /\ (length sites <= MAX_SITES)%nat.

Lemma insn_len_pos text : (1 <= insn_len text)%nat.
Proof. unfold insn_len. lia. Qed.

Lemma opaque_site_of insns insn next s : insn ∈ insns -> opaque_site insn next = Some s -> site_of insns s.
Proof.
  intros Hin. unfold opaque_site. destruct next as [jump|]; [|done].
  destruct (_ && is_cond_jump jump); [|done]. intros <-%(inj Some). split; [by exists insn|].
  cbn [site_len]. pose proof (insn_len_pos (insn_text insn)). lia.
Qed.

Lemma junk_site_of insns a b : a ∈ insns -> site_of insns (junk_site a b).
Proof.
  intros Hin. split; [by exists a|]. cbn [site_len junk_site]. pose proof (insn_len_pos (insn_text a)). lia.
Qed.

Lemma indirect_site_of insns before insn s :
  insn ∈ insns -> indirect_site before insn = Some s -> site_of insns s.
Proof.
  intros Hin. unfold indirect_site. destruct (_ && _); [|done].
  destruct (elements _) as [|v [|]]; try done. intros <-%(inj Some). split; [by exists insn|].
  cbn [site_len]. pose proof (insn_len_pos (insn_text insn)). lia.
Qed.

(** Recording a site: the scan stops at the limit or goes on below it. *)
Lemma record_site insns sites s :
  sites_of insns sites -> (length sites < MAX_SITES)%nat -> site_of insns s ->
  sites_of insns (sites ++ [s])
  /\ ((MAX_SITES <=? length (sites ++ [s]))%nat = false -> (length (sites ++ [s]) < MAX_SITES)%nat).
Proof.
  intros [Hf _] Hlt Hs. unfold sites_of. rewrite length_app. cbn [length]. split; [split; [|lia]|].
  - apply Forall_app. split; [done|]. by apply Forall_singleton.
  - intros ?%Nat.leb_gt. lia.
Qed.

Lemma opaque_scan_sites all insns sites :
  insns ⊆ all -> sites_of all sites -> (length sites < MAX_SITES)%nat -> sites_of all (opaque_scan insns sites).
Proof.
  revert sites. induction insns as [|insn rest IH]; intros sites Hsub Hs Hlt; [done|]. cbn [opaque_scan].
  destruct (opaque_site insn (head rest)) as [s|] eqn:Hsite; [|apply IH; set_solver].
  assert (site_of all s) as Hof by (eapply opaque_site_of; [|done]; set_solver).
  destruct (record_site all sites s Hs Hlt Hof) as [Hs' Hlt'].
  destruct (MAX_SITES <=? _)%nat; [done|]. apply IH; [set_solver|done|by apply Hlt'].
Qed.

Lemma indirect_scan_sites all before insns sites :
  insns ⊆ all -> sites_of all sites -> (length sites < MAX_SITES)%nat ->
  sites_of all (indirect_scan before insns sites).
Proof.
  revert before sites. induction insns as [|insn rest IH]; intros before sites Hsub Hs Hlt; [done|].
  cbn [indirect_scan].
  destruct (indirect_site before insn) as [s|] eqn:Hsite; [|apply IH; set_solver].
  assert (site_of all s) as Hof by (eapply indirect_site_of; [|done]; set_solver).
  destruct (record_site all sites s Hs Hlt Hof) as [Hs' Hlt'].
  destruct (MAX_SITES <=? _)%nat; [done|]. apply IH; [set_solver|done|by apply Hlt'].
Qed.

Lemma junk_scan_cons a b rest sites :
  junk_scan (a :: b :: rest) sites
  = if pair_is_roundtrip a b
    then if (MAX_SITES <=? length (sites ++ [junk_site a b]))%nat then sites ++ [junk_site a b]
         else junk_scan rest (sites ++ [junk_site a b])
    else junk_scan (b :: rest) sites.
Proof. reflexivity. Qed.

Lemma junk_scan_sites all insns sites :
  insns ⊆ all -> sites_of all sites -> (length sites < MAX_SITES)%nat -> sites_of all (junk_scan insns sites).
Proof.
  remember (length insns) as n eqn:Hn. revert insns sites Hn.
  induction (lt_wf n) as [n _ IH]. intros [|a [|b rest]] sites -> Hsub Hs Hlt; [done..|].
  rewrite junk_scan_cons. destruct (pair_is_roundtrip a b).
  - assert (site_of all (junk_site a b)) as Hof by (apply junk_site_of; set_solver).
    destruct (record_site all sites _ Hs Hlt Hof) as [Hs' Hlt'].
    destruct (MAX_SITES <=? _)%nat; [done|].
    eapply IH; [|done|set_solver|done|by apply Hlt']. cbn. lia.
  - eapply IH; [|done|set_solver|done|done]. cbn. lia.
Qed.

Section Proposals.
Context {B : Type} `{!IdaBackend B}.

Lemma find_sites_of (b : B) target end_ kind sites :
  find_sites b target end_ kind = Ok sites ->
  kind = T4Unflatten \/ exists insns, disassemble b target (Some end_) 2000 = Ok insns /\ sites_of insns sites.
Proof.
  assert (forall insns, sites_of insns []) as Hnil by (split; [constructor|unfold MAX_SITES; cbn; lia]).
  assert (length (@nil Site) < MAX_SITES)%nat as Hlt by (unfold MAX_SITES; cbn; lia).
  destruct kind; cbn [find_sites]; unfold opaque_sites, junk_sites, indirect_sites; [..|by left];
    destruct (disassemble b target (Some end_) 2000) as [e|insns]; try discriminate;
    intros [= <-]; right; exists insns; (split; [done|]).
  - by apply opaque_scan_sites.
  - by apply junk_scan_sites.
  - by apply indirect_scan_sites.
Qed.
End Proposals.

(** The planned operation of a site. *)
Definition nop_patch (s : Site) : PlannedOp :=
  {| op_kind := PatchBytes (repeat_str NOP (site_len s)); op_ea := site_ea s |}.

Lemma parse_site_operations i sites :
  Forall (fun s => is_u64 (site_ea s)) sites -> parse_from i (site_operation <$> sites) = Ok (nop_patch <$> sites).
Proof.
  revert i. induction sites as [|s sites IH]; intros i; [done|]. intros [Hs Hall]%Forall_cons.
  cbn [fmap list_fmap parse_from].
  assert (parse_operation i (site_operation s) = Ok (nop_patch s)) as ->.
  { unfold parse_operation. change (str_field (site_operation s) "ea") with (Some (show_0x (site_ea s))).
    cbn [ok_or_else bindR Ok]. destruct (parse_ea_show (site_ea s) Hs) as [-> _]. reflexivity. }
  cbn [bindR Ok]. by rewrite IH.
Qed.

(** What a proposal contains: at most 16 operations, which are accepted by
    the plan parser and mean exactly this: each writes NOPs, 1 to 16 of them,
    at the address of an instruction of the target function.  A kind that
    needs the microcode stack proposes no operation. *)
Theorem propose_only_nops {B : Type} `{!IdaBackend B} (b : B) (idx : AnalysisIndex) (target : Z)
    (kind : TransformKind) (plan : Value) :
  (forall s e n insns, disassemble b s e n = Ok insns -> Forall (fun i => is_u64 (insn_ea i)) insns) ->
  propose b idx target kind = Ok plan ->
  exists f ops, functions idx !! target = Some f
    /\ parse_operations (plan_operations plan) = Ok ops
    /\ (length ops <= 16)%nat
    /\ plan @@ "proposable" = JBool (negb (bool_decide (ops = [])))
    /\ (kind = T4Unflatten -> ops = [])
    /\ forall op, op ∈ ops -> exists n insns i, (1 <= n <= 16)%nat
         /\ op_kind op = PatchBytes (repeat_str "90" n)
         /\ disassemble b target (Some (ff_end f)) 2000 = Ok insns /\ i ∈ insns /\ op_ea op = insn_ea i.
Proof.
  intros Hu64. unfold propose. destruct (functions idx !! target) as [f|] eqn:Hf; [|done].
  cbn [ok_or_else bindR Ok]. intros Hp. exists f.
  destruct (decide (kind = T4Unflatten)) as [->|Hk].
  { injection Hp as <-. exists []. repeat (split; [done || (cbn; lia)|]). intros op Hop. by apply not_elem_of_nil in Hop. }
  destruct (find_sites b target (ff_end f) kind) as [e|sites] eqn:Hs; [by destruct kind|].
  pose proof Hs as [?|(insns & Hd & Hall & Hlen)]%find_sites_of; [done|].
  exists (nop_patch <$> sites). split; [done|].
  assert (plan_operations plan = site_operation <$> take MAX_SITES sites
    /\ plan @@ "proposable" = JBool (negb (bool_decide (take MAX_SITES sites = [])))) as [-> ->]
    by (destruct kind; [by injection Hp as <-..|done]).
  rewrite (take_ge sites) by done.
  split; [|split; [by rewrite length_fmap|split; [|split; [done|]]]].
  - apply parse_site_operations. eapply Forall_impl; [exact Hall|]. intros s [(i & Hi & ->) _].
    specialize (Hu64 _ _ _ _ Hd). rewrite Forall_forall in Hu64. by apply Hu64.
  - by destruct sites.
  - intros op (s & -> & Hin)%list_elem_of_fmap. rewrite Forall_forall in Hall.
    destruct (Hall s Hin) as [(i & Hi & Hea) Hl]. by exists (site_len s), insns, i.
Qed.

(** A function with a store/load round trip. *)
Definition junk_insns : list InsnInfo :=
  [{| insn_ea := 0x401000; mnemonic := "mov"; operands := "Displ, Reg"; insn_text := "mov [rbp-8], eax" |};
   {| insn_ea := 0x401003; mnemonic := "mov"; operands := "Reg, Displ"; insn_text := "mov eax, [rbp-8]" |};
   {| insn_ea := 0x401006; mnemonic := "ret"; operands := ""; insn_text := "ret" |}].

Definition junk_backend : IdaBackend MockBackend := {|
  open_db := mock_open; close_db := mock_close; save_db := mock_save; run_plugin := mock_run_plugin; reports := mock_reports;
  revision := mock_revision; function_at := mock_function_at;
  get_bytes := mock_get_bytes; xrefs_to := mock_xrefs_to;
  disassemble := fun _ _ _ n => Ok (take n junk_insns);
  decompile := mock_decompile; graph := mock_graph; hr_microcode := mock_hr_microcode;
  build_index := mock_build_index; patch_bytes := mock_patch_bytes; set_comment := mock_set_comment;
  rename := mock_rename; set_type := mock_set_type; func_create := mock_func_create;
  func_delete := mock_func_delete; func_resize := mock_func_resize; hr_lvar_rename := mock_hr_lvar_rename;
  deep_apply_prototype := mock_deep_apply_prototype; type_udt_create := mock_type_udt_create;
  analyze_wait := mock_analyze_wait; snapshot_create := mock_snapshot_create;
  snapshot_restore := mock_snapshot_restore |}.

Definition mock_index : AnalysisIndex :=
  match mock_build_index open_mock with inr (idx, _) => idx | inl _ => fixture_index end.

(** Six NOPs over the two instructions. *)
Lemma propose_only_nops_witness :
  exists plan ops, @propose MockBackend junk_backend open_mock mock_index 0x401000 T2JunkRemoval = Ok plan
    /\ parse_operations (plan_operations plan) = Ok ops /\ length ops = 1%nat
    /\ forall op, op ∈ ops -> exists n, (1 <= n <= 16)%nat /\ op_kind op = PatchBytes (repeat_str "90" n).
Proof.
  destruct (@propose MockBackend junk_backend open_mock mock_index 0x401000 T2JunkRemoval) as [e|plan] eqn:Hp;
    [vm_compute in Hp; discriminate Hp|].
  destruct (@propose_only_nops MockBackend junk_backend open_mock mock_index 0x401000 T2JunkRemoval plan)
    as (f & ops & _ & Hops & _ & _ & _ & Hall); [|exact Hp|].
  - intros s e n insns [= <-]. apply Forall_take. by repeat constructor.
  - exists plan, ops. split; [reflexivity|]. split; [exact Hops|]. split.
    + vm_compute in Hp. injection Hp as <-. vm_compute in Hops. injection Hops as <-. reflexivity.
    + intros op Hop. destruct (Hall op Hop) as (n & _ & _ & Hn & Hk & _). exists n. split; assumption.
Defined.

(** ** Validated plans *)

Section Validation.
Context {B : Type} `{!IdaBackend B} (b : B).

(** An operation that may be applied: it has an address, it stays inside the
    function, nothing but the fall-through of its own code refers to the
    bytes it overwrites, and these can be read. *)
Definition site_safe (f : FunctionInfo) (op : Value) : Prop :=
  exists ea_s ea, as_str (op @@ "ea") = Some ea_s /\ transform_parse_ea ea_s = Ok ea
    /\ (ea_start f <= ea)%Z /\ (wrapping_add64 ea (Z.of_nat (op_hex_len op)) <= ea_end f)%Z
    /\ (forall a, (a < op_hex_len op)%nat -> exists xs, xrefs_to b (wrapping_add64 ea (Z.of_nat a)) = Ok xs
          /\ Forall (fun x => xref_kind x = "flow") xs)
    /\ exists raw, get_bytes b ea (Z.of_nat (op_hex_len op)) = Ok raw
          /\ default "" (as_str (raw @@ "hex")) <> "".

Lemma filter_flow_nil (xs : list XrefInfo) :
  filter (fun x => xref_kind x <> "flow") xs = [] <-> Forall (fun x => xref_kind x = "flow") xs.
Proof.
  induction xs as [|x xs IH]; [done|]. rewrite filter_cons, Forall_cons. case_decide as Hx.
  - split; [done|by intros [? _]].
  - rewrite IH. split; [|by intros [_ ?]]. intros H. split; [|done]. by destruct (decide (xref_kind x = "flow")).
Qed.

Lemma inbound_nil ea a n :
  inbound b ea a n = Ok [] <->
  forall k, (a <= k < a + n)%nat -> exists xs, xrefs_to b (wrapping_add64 ea (Z.of_nat k)) = Ok xs
    /\ Forall (fun x => xref_kind x = "flow") xs.
Proof.
  revert a. induction n as [|n IH]; intros a; cbn [inbound]; [split; [lia|done]|]. split.
  - destruct (xrefs_to b _) as [e|xs] eqn:Hx; [done|]. cbn [bindR Ok].
    destruct (inbound b ea (S a) n) as [e|rest] eqn:Hrest; [done|]. cbn [bindR Ok].
    intros [= [Hh%fmap_nil_inv ->]%app_nil] k Hk.
    destruct (decide (k = a)) as [->|Hne]; [exists xs; by rewrite <- filter_flow_nil|].
    apply (proj1 (IH (S a)) Hrest). lia.
  - intros Hall. destruct (Hall a) as (xs & -> & Hxs%filter_flow_nil); [lia|]. cbn [bindR Ok].
    rewrite (proj2 (IH (S a))) by (intros; apply Hall; lia). cbn [bindR Ok]. by rewrite Hxs.
Qed.

Lemma check_site_None f i op : check_site b f i op = Ok None <-> site_safe f op.
Proof.
  unfold check_site, site_safe. destruct (as_str (op @@ "ea")) as [ea_s|];
    [|split; [done|by intros (? & ? & ? & _)]].
  destruct (transform_parse_ea ea_s) as [e|ea] eqn:Hea; cbn [bindR Ok];
    [split; [done|intros (? & ? & [= <-] & E & _); by rewrite Hea in E]|].
  set (stop := wrapping_add64 ea (Z.of_nat (op_hex_len op))).
  destruct (_ || _) eqn:Hout.
  { split; [done|]. intros (? & ? & [= <-] & E & Hlo & Hhi & _). rewrite Hea in E. injection E as <-.
    apply orb_true_iff in Hout as [?%Z.ltb_lt|?%Z.ltb_lt]; subst stop; lia. }
  apply orb_false_iff in Hout as [Hlo%Z.ltb_ge Hhi%Z.ltb_ge]. split.
  - destruct (inbound b ea 0 (op_hex_len op)) as [e|[|h hs]] eqn:Hin; [done| |done]. cbn [bindR Ok].
    destruct (get_bytes b ea _) as [e|raw] eqn:Hraw; [done|]. cbn [bindR Ok]. case_bool_decide as Hhex; [done|].
    intros _. exists ea_s, ea. repeat (split; [done|]).
    split; [intros a Ha; apply (proj1 (inbound_nil ea 0 _) Hin); lia|by exists raw].
  - intros (? & ? & [= <-] & E & _ & _ & Hin & raw & Hraw & Hhex). rewrite Hea in E. injection E as <-.
    rewrite (proj2 (inbound_nil ea 0 _)) by (intros k Hk; apply Hin; lia). cbn [bindR Ok].
    rewrite Hraw. cbn [bindR Ok]. by rewrite bool_decide_false.
Qed.

Lemma check_sites_nil f i ops : check_sites b f i ops = Ok [] <-> Forall (site_safe f) ops.
Proof.
  revert i. induction ops as [|op ops IH]; intros i; cbn [check_sites]; [done|]. rewrite Forall_cons.
  rewrite <- (check_site_None f i op), <- (IH (S i)).
  destruct (check_site b f i op) as [e|[v|]]; cbn [bindR Ok]; [by split; [|intros [? _]]|..];
    destruct (check_sites b f (S i) ops) as [e|rs]; cbn [bindR Ok]; naive_solver.
Qed.

(** Validation is exact: a plan is found valid if and only if its target
    is still in a function and every operation stays inside it, overwrites
    no byte that anything jumps to or refers to, and finds readable bytes. *)
Theorem validate_exact (plan : Value) :
  (exists v, validate b plan = Ok v /\ v @@ "valid" = JBool true) <->
  exists target f, transform_parse_ea (default "0" (as_str (plan @@ "target"))) = Ok target
    /\ function_at b target = Ok f /\ Forall (site_safe f) (plan_operations plan).
Proof.
  unfold validate. destruct (transform_parse_ea _) as [e|target]; cbn [bindR Ok];
    [split; [by intros (? & ? & _)|by intros (? & ? & ? & _)]|].
  destruct (function_at b target) as [e|f] eqn:Hf.
  { split; [by intros (v & [= <-] & ?)|intros (? & ? & [= <-] & E & _); by rewrite Hf in E]. }
  split.
  - intros (v & Hv & Hvalid). exists target, f. split; [done|]. split; [done|].
    destruct (check_sites b f 0 (plan_operations plan)) as [e|rs] eqn:Hc; [done|].
    cbn [bindR Ok] in Hv. injection Hv as <-.
    change (JBool (bool_decide (rs = [])) = JBool true) in Hvalid.
    apply (check_sites_nil f 0). rewrite Hc. f_equal. injection Hvalid as Hb. by apply bool_decide_eq_true in Hb.
  - intros (? & f' & [= <-] & Hf' & Hall). rewrite Hf in Hf'. injection Hf' as <-.
    apply (check_sites_nil _ 0) in Hall. rewrite Hall. cbn [bindR Ok]. eexists. split; [reflexivity|].
    reflexivity.
Qed.
End Validation.

(** ** Rolling back *)

(** Mutations of the mock leave its snapshots alone. *)
Definition keeps_snapshots (b b' : MockBackend) : Prop :=
  snapshots b' = snapshots b /\ open_path b' = open_path b.

Lemma run_op_keeps op (b b' : MockBackend) r : run_op op b = Done (r, b') -> keeps_snapshots b b'.
Proof.
  assert (keeps_snapshots b b) as Hrefl by done.
  unfold run_op. destruct (op_kind op); cbn.
  - unfold mock_rename. destruct (require_open b); [by intros [= _ <-]|].
    destruct (names b !! op_ea op); by intros [= _ <-].
  - unfold mock_set_comment. destruct (require_open b); by intros [= _ <-].
  - unfold mock_patch_bytes. destruct (require_open b); [by intros [= _ <-]|].
    destruct (hex_decode _) as [[e|bs]| |]; by intros [= _ <-].
  - unfold mock_func_create. destruct (require_open b); by intros [= _ <-].
  - unfold mock_func_delete. destruct (require_open b); [by intros [= _ <-]|].
    destruct (names b !! op_ea op); by intros [= _ <-].
  - unfold mock_set_type. destruct (require_open b); by intros [= _ <-].
Qed.

Lemma apply_from_keeps i ops results (b b' : MockBackend) au v au' :
  apply_from i ops results b au = Done (v, b', au') -> keeps_snapshots b b'.
Proof.
  revert i results b au. induction ops as [|op ops IH]; intros i results b au; cbn [apply_from];
    [by intros [= _ <- _]|].
  destruct (run_op op b) as [[[e|out] b1]| |] eqn:Hop; cbn [obind]; try discriminate;
    apply run_op_keeps in Hop as [Hs Ho].
  - by intros [= _ <- _].
  - intros [Hs' Ho']%IH. split; congruence.
Qed.

Definition snapshot_of (b : MockBackend) : SnapshotState :=
  {| snap_revision := mock_revision b; snap_names := names b; snap_comments := comments b; snap_bytes := bytes b |}.

Lemma snapshot_taken (b : MockBackend) path : open_path b = Some path ->
  exists v b1, snapshot_create b = (Ok v, b1) /\ open_path b1 = Some path
    /\ snapshots b1 = snapshot_of b :: snapshots b.
Proof.
  intros Hopen. cbn [snapshot_create MockBackend_backend]. unfold mock_snapshot_create, require_open.
  rewrite Hopen. eexists _, _. split; [reflexivity|]. by split.
Qed.

Lemma restore_undoes (b b1 b2 : MockBackend) path :
  open_path b1 = Some path -> snapshots b1 = snapshot_of b :: snapshots b -> keeps_snapshots b1 b2 ->
  exists r b3, snapshot_restore b2 = (Ok r, b3) /\ r @@ "restored" = JBool true
    /\ names b3 = names b /\ comments b3 = comments b /\ bytes b3 = bytes b /\ snapshots b3 = snapshots b.
Proof.
  intros Hopen Hs1 [Hs Ho]. cbn [snapshot_restore MockBackend_backend]. unfold mock_snapshot_restore, require_open.
  rewrite Ho, Hopen, Hs, Hs1. eexists _, _. split; [reflexivity|]. done.
Qed.

(** C13. On the mock backend an application is guarded and reversible.  A request
    to apply a transform to an open mock database is either refused with the
    worker's state untouched, or it was made at the current revision if it
    gave an [expected_revision] that is an unsigned integer, and a snapshot
    was taken first: whatever became of it (complete, stopped half-way, or a
    plan that does not parse), one rollback restores the names, the comments,
    the bytes and the stack of snapshots there were before.  (The real
    backend remembers only its last snapshot, so there the stack does not
    come back.) *)
Theorem transform_reversible (params : Value) (st st' : WorkerState MockBackend) (b : MockBackend)
    (path : string) (res : Result Value) :
  backend st = Some b -> open_path b = Some path -> do_deob_apply params st = Done (res, st') ->
  (st' = st /\ exists e, res = Err e)
  \/ ((forall e, (v ← get "expected_revision" params; as_u64 v) = Some e -> e = revision b)
      /\ exists b' r b'', backend st' = Some b' /\ snapshot_restore b' = (Ok r, b'')
           /\ r @@ "restored" = JBool true
           /\ names b'' = names b /\ comments b'' = comments b /\ bytes b'' = bytes b
           /\ snapshots b'' = snapshots b).
Proof.
  intros Hb Hopen. unfold do_deob_apply. destruct (plan_param params) as [e|plan]; [intros [= <- <-]; eauto|].
  unfold transform_apply. case_bool_decide; [intros [= <- <-]; eauto|].
  destruct (transform_parse_ea _) as [e|target]; [intros [= <- <-]; eauto|]. rewrite Hb. cbn [at_ obind].
  destruct (check_plan_revision b _) as [e|u] eqn:Hrev; [intros [= <- <-]; eauto|].
  destruct (snapshot_taken b path Hopen) as (v & b1 & -> & Ho1 & Hs1). intros Hrun. right. split.
  { intros e He. rewrite He in Hrev. cbn in Hrev. by destruct (Z.eqb_spec e (mock_revision b)). }
  assert (exists b2, backend st' = Some b2 /\ keeps_snapshots b1 b2) as (b2 & Hb2 & Hk).
  { destruct (parse_operations _) as [e|ops]; [injection Hrun as _ <-; by exists b1|].
    destruct (apply ops b1 (audit st)) as [[[applied b2] au2]| |] eqn:Happ; [|discriminate Hrun..].
    cbn [obind] in Hrun. injection Hrun as _ <-. exists b2. split; [done|]. by eapply apply_from_keeps. }
  destruct (restore_undoes b b1 b2 path Ho1 Hs1 Hk) as (r & b3 & Hr). by exists b2, r, b3.
Qed.

Definition nop_main : Value := JObj [("plan", JObj [("kind", JStr "T2_junk_removal"); ("target", JStr "0x401000");
  ("operations", JArr [JObj [("kind", JStr "patch_bytes"); ("ea", JStr "0x401000"); ("hex", JStr "9090")]])])].

(** Two bytes of [main] are overwritten, and come back. *)
Lemma transform_reversible_witness :
  exists res st' b' b'' r, do_deob_apply nop_main mock_state = Done (Ok res, st') /\ backend st' = Some b'
    /\ bytes b' !! 0x401000%Z = Some [0x90; 0x90]%Z
    /\ snapshot_restore b' = (Ok r, b'') /\ bytes b'' = bytes open_mock.
Proof.
  destruct (do_deob_apply nop_main mock_state) as [[[e|res] st']| |] eqn:Hrun;
    [vm_compute in Hrun; discriminate Hrun| |vm_compute in Hrun; discriminate Hrun..].
  destruct (transform_reversible nop_main mock_state st' open_mock "a.i64" (Ok res) eq_refl eq_refl Hrun)
    as [[_ [e He]]|(_ & b' & r & b'' & Hb' & Hr & _ & _ & _ & Hbytes & _)]; [discriminate He|].
  exists res, st', b', b'', r. split; [reflexivity|]. split; [exact Hb'|]. split; [|split; [exact Hr|exact Hbytes]].
  vm_compute in Hrun. injection Hrun as _ <-. injection Hb' as <-. reflexivity.
Defined.
