(* ===== verification/Workflow.v ===== *)
(** * Workflow: composite analyses over the index, and their cache

    Models [rmcp-worker/src/workflow.rs]: the revision-keyed result cache, the
    noise filter, and the six workflows (function context, call neighbourhood,
    reference context, import usage, subsystem context, call path), over any
    backend.  Parameters: [to_lowercase] of the standard library, and
    [to_text], the JSON serializer of cache keys.  A request is the parsed
    [WorkflowRequest]; its decoding from JSON is in [Requests].  The
    loops [for _ in 0..depth] are recursions on [depth]. *)

From stdpp Require Import base list gmap strings sorting relations.
From Stdlib Require Import ZArith Lia.
From S2P Require Import Prelude Text Json Errors Bfs Index Backend.

Local Open Scope rmcp_scope.

Record Budgets := { depth : Z; max_functions : Z; detail_level : string; include_noise : bool }.
Definition Budgets_default : Budgets :=
  {| depth := 2; max_functions := 10; detail_level := "summary"; include_noise := false |}.

Record WorkflowRequest := {
  workflow : string;
  req_ea : option Z;
  target_ea : option Z;
  req_name : option string;
  roots : list Z;
  budgets : Budgets;
}.

(** ** The cache *)

Abbreviation cache_index := (string * string * Z)%type (only parsing).

Record WorkflowCache := { cached : gmap cache_index Value; hits : Z; misses : Z }.
Definition WorkflowCache_default : WorkflowCache := {| cached := ∅; hits := 0; misses := 0 |}.

Definition cache_get (k : cache_index) (c : WorkflowCache) : option Value * WorkflowCache :=
  match cached c !! k with
  | Some v => (Some v, {| cached := cached c; hits := wrapping_add64 (hits c) 1; misses := misses c |})
  | None => (None, {| cached := cached c; hits := hits c; misses := wrapping_add64 (misses c) 1 |})
  end.

Definition cache_put (k : cache_index) (v : Value) (c : WorkflowCache) : WorkflowCache :=
  {| cached := <[k := v]> (cached c); hits := hits c; misses := misses c |}.

Definition invalidate_all (c : WorkflowCache) : WorkflowCache :=
  {| cached := ∅; hits := hits c; misses := misses c |}.

(** The request as [serde_json::to_value] shows it: the budgets are
    flattened, so removing a key [budgets] removes nothing. *)
Definition request_value (r : WorkflowRequest) : Value :=
  JObj [("workflow", JStr (workflow r)); ("ea", jopt JNum (req_ea r)); ("target_ea", jopt JNum (target_ea r));
        ("name", jopt JStr (req_name r)); ("roots", JArr (JNum <$> roots r));
        ("depth", JNum (depth (budgets r))); ("max_functions", JNum (max_functions (budgets r)));
        ("detail", JStr (detail_level (budgets r))); ("include_noise", JBool (include_noise (budgets r)))].

Definition cache_key (to_text : Value -> option string) (r : WorkflowRequest) (revision : Z) : cache_index :=
  (workflow r, default "" (to_text (request_value r)), revision).

(** ** Call paths *)

(** [for c in &f.callees]. *)
Definition add_parents (cur : Z) (cs : list Z) (s : gmap Z Z * list Z) : gmap Z Z * list Z :=
  foldl (fun s c => match s.1 !! c with
                    | Some _ => s
                    | None => (<[c := cur]> s.1, s.2 ++ [c])
                    end) s cs.

(** [for cur in &frontier]: the parents, the next frontier, [found]. *)
Fixpoint trace_frontier (idx : AnalysisIndex) (to : Z) (fr : list Z) (s : gmap Z Z * list Z)
  : gmap Z Z * list Z * bool :=
  match fr with
  | [] => (s, false)
  | cur :: fr' =>
      if bool_decide (cur = to) then (s, true)
      else match functions idx !! cur with
           | None => trace_frontier idx to fr' s
           | Some f => trace_frontier idx to fr' (add_parents cur (callees f) s)
           end
  end.

(** [for _ in 0..depth]: the parents. *)
Fixpoint trace_levels (idx : AnalysisIndex) (to : Z) (n : nat) (fr : list Z) (parents : gmap Z Z) : gmap Z Z :=
  match n with
  | O => parents
  | S n' =>
      let '(parents', next, found) := trace_frontier idx to fr (parents, []) in
      if (found : bool) then parents' else trace_levels idx to n' next parents'
  end.

(** [while cur != from { cur = parents[&cur]; path.push(cur); }], the path
    already reversed. *)
Fixpoint walk_back (parents : gmap Z Z) (from : Z) (fuel : nat) (cur : Z) (path : list Z) : outcome (list Z) :=
  if bool_decide (cur = from) then Done path
  else match fuel with
       | O => OutOfFuel
       | S fuel' => p <~ at_ (parents !! cur); walk_back parents from fuel' p (p :: path)
       end.

(** The path, [None] when there is none. *)
Definition call_path (idx : AnalysisIndex) (from to depth : Z) : outcome (option (list Z)) :=
  let parents := trace_levels idx to (Z.to_nat depth) [from] {[from := from]} in
  match parents !! to with
  | None => Done None
  | Some _ => p <~ walk_back parents from (Z.to_nat depth) to [to]; Done (Some p)
  end.

(** ** The bounded walk shared by [call_neighborhood] and [subsystem_context] *)

Record walk := { visited : gset Z; next_up : list Z; call_edges : list (Z * Z) }.

(** [for c in callees]. *)
Fixpoint visit_callees (maxf : nat) (cur : Z) (cs : list Z) (w : walk) : walk :=
  match cs with
  | [] => w
  | c :: cs' =>
      if (maxf <=? size (visited w))%nat then w
      else visit_callees maxf cur cs'
        {| visited := {[c]} ∪ visited w;
           next_up := if bool_decide (c ∈ visited w) then next_up w else next_up w ++ [c];
           call_edges := call_edges w ++ [(cur, c)] |}
  end.

Section Workflows.
Context (to_lowercase : string -> string).

Definition noise_prefixes : list string :=
  ["j_"; "?__"; "__scrt"; "__acrt"; "_guard"; "__report_gsfailure"; "__crt"; "__std_"].
Definition noise_names : list string := ["memset"; "memcpy"; "memmove"; "memcmp"; "strcpy"; "strlen"].

Definition is_noise (name : string) : bool :=
  let n := to_lowercase name in
  existsb (fun p => starts_with p n) noise_prefixes || bool_decide (n ∈ noise_names).

Definition find_by_name (idx : AnalysisIndex) (name : string) : option Z :=
  let needle := to_lowercase name in
  ff_start <$> List.find (fun f => bool_decide (to_lowercase (ff_name f) = needle)
                                   || bool_decide (to_lowercase (demangled f) = needle))
                 (btree_values (functions idx)).

Definition function_name (idx : AnalysisIndex) (ea : Z) : string :=
  match functions idx !! ea with Some f => ff_name f | None => "sub_" +:+ show_hex ea end.

(** [filter_noise]: what is kept of a list of addresses. *)
Definition quiet (idx : AnalysisIndex) (noise : bool) (ea : Z) : bool :=
  noise || match functions idx !! ea with Some f => negb (is_noise (ff_name f)) | None => true end.

Definition filter_noise (idx : AnalysisIndex) (noise : bool) (eas : list Z) : list Z :=
  filter (fun ea => quiet idx noise ea = true) eas.

Definition resolve_ea (idx : AnalysisIndex) (r : WorkflowRequest) : option Z :=
  match req_ea r with Some ea => Some ea | None => n ← req_name r; find_by_name idx n end.

Definition trace_call_path (idx : AnalysisIndex) (r : WorkflowRequest) : outcome (Result Value) :=
  match resolve_ea idx r, match target_ea r with Some t => Some t | None => head (roots r) end with
  | None, _ => Done (Err (Worker "trace_call_path requires 'ea' (source)"))
  | _, None => Done (Err (Worker "trace_call_path requires 'target_ea' (destination)"))
  | Some from, Some to =>
      p <~ call_path idx from to (depth (budgets r));
      Done (Ok (JObj [("from", JStr (show_0x from)); ("to", JStr (show_0x to));
        ("path", JArr ((fun ea => JObj [("ea", JStr (show_0x ea)); ("name", JStr (function_name idx ea))])
                         <$> default [] p));
        ("found", JBool (bool_decide (p <> None)))]))
  end.

(** [for cur in &frontier] of [call_neighborhood]: stops at the limit. *)
Fixpoint near_frontier (idx : AnalysisIndex) (noise : bool) (maxf : nat) (fr : list Z) (w : walk) : walk :=
  match fr with
  | [] => w
  | cur :: fr' =>
      match functions idx !! cur with
      | None => near_frontier idx noise maxf fr' w
      | Some f =>
          let w' := visit_callees maxf cur (filter_noise idx noise (callees f)) w in
          if (maxf <=? size (visited w'))%nat then w' else near_frontier idx noise maxf fr' w'
      end
  end.

Fixpoint near_levels (idx : AnalysisIndex) (noise : bool) (maxf n : nat) (fr : list Z) (w : walk) : walk :=
  match n with
  | O => w
  | S n' =>
      let w' := near_frontier idx noise maxf fr {| visited := visited w; next_up := []; call_edges := call_edges w |} in
      if (maxf <=? size (visited w'))%nat then w' else near_levels idx noise maxf n' (next_up w') w'
  end.

(** [for cur in &frontier] of [subsystem_context]: goes on past the limit. *)
Fixpoint sub_frontier (idx : AnalysisIndex) (noise : bool) (maxf : nat) (fr : list Z) (w : walk) : walk :=
  match fr with
  | [] => w
  | cur :: fr' =>
      match functions idx !! cur with
      | None => sub_frontier idx noise maxf fr' w
      | Some f => sub_frontier idx noise maxf fr' (visit_callees maxf cur (filter_noise idx noise (callees f)) w)
      end
  end.

Fixpoint sub_levels (idx : AnalysisIndex) (noise : bool) (maxf n : nat) (fr : list Z) (w : walk) : walk :=
  match n with
  | O => w
  | S n' =>
      let w' := sub_frontier idx noise maxf fr {| visited := visited w; next_up := []; call_edges := call_edges w |} in
      sub_levels idx noise maxf n' (next_up w') w'
  end.

(** [BTreeSet] iteration: increasing. *)
Definition btree_set (s : gset Z) : list Z := sort_by_key id (elements s).

Definition neighborhood (idx : AnalysisIndex) (r : WorkflowRequest) (maxf : nat) (ea : Z) : walk :=
  near_levels idx (include_noise (budgets r)) maxf (Z.to_nat (depth (budgets r))) [ea]
    {| visited := {[ea]}; next_up := []; call_edges := [] |}.

Definition function_row (idx : AnalysisIndex) (ea : Z) : Value :=
  let f := functions idx !! ea in
  JObj [("ea", JStr (show_0x ea)); ("name", JStr (default "" (ff_name <$> f)));
        ("strings", JArr (JStr <$> default [] (ff_strings <$> f)));
        ("imports", JArr (JStr <$> default [] (imports <$> f)))].

Definition call_neighborhood (idx : AnalysisIndex) (r : WorkflowRequest) (maxf : nat) : Result Value :=
  ea <-? ok_or_else (resolve_ea idx r) (Worker "call_neighborhood requires 'ea' or 'name'");
  match functions idx !! ea with
  | None => Err (Worker ("no function at " +:+ show_0x ea))
  | Some _ =>
      let w := neighborhood idx r maxf ea in
      Ok (JObj [("root", JStr (show_0x ea)); ("depth", JNum (depth (budgets r)));
        ("functions", JArr (function_row idx <$> btree_set (visited w)));
        ("edges", JArr ((fun e => JObj [("from", JStr (show_0x e.1)); ("to", JStr (show_0x e.2));
            ("to_name", JStr (function_name idx e.2))]) <$> call_edges w));
        ("truncated", JBool (maxf <=? size (visited w))%nat)])
  end.

Fixpoint import_sites (name : string) (maxf : nat) (fs : list FunctionFacts) (sites : list Value) : list Value :=
  match fs with
  | [] => sites
  | f :: fs' =>
      if existsb (fun i => eq_ignore_ascii_case i name || contains (to_lowercase name) (to_lowercase i)) (imports f)
      then
        let sites' := sites ++ [JObj [("function", JObj [("ea", JStr (show_0x (ff_start f))); ("name", JStr (ff_name f))]);
                                      ("callers", JArr (JStr ∘ show_0x <$> callers f))]] in
        if (maxf <=? length sites')%nat then sites' else import_sites name maxf fs' sites'
      else import_sites name maxf fs' sites
  end.

Definition import_usage (idx : AnalysisIndex) (r : WorkflowRequest) (maxf : nat) : Result Value :=
  name <-? ok_or_else (req_name r) (Worker "import_usage requires 'name'");
  let sites := import_sites name maxf (btree_values (functions idx)) [] in
  Ok (JObj [("import", JStr name); ("sites", JArr sites); ("truncated", JBool (maxf <=? length sites)%nat)]).

Section Backend.
Context {B : Type} `{!IdaBackend B} (backend : B).

Definition function_context (idx : AnalysisIndex) (r : WorkflowRequest) (detail_full : bool) : Result Value :=
  ea <-? ok_or_else (resolve_ea idx r) (Worker "function_context requires 'ea' or 'name'");
  f <-? ok_or_else (functions idx !! ea) (Worker ("no function at " +:+ show_0x ea));
  let dec := if detail_full
             then match decompile backend ea with inr v => v | inl _ => JObj [("unavailable", JBool true)] end
             else JNull in
  let named := fun c => JObj [("ea", JStr (show_0x c)); ("name", JStr (function_name idx c))] in
  xs <-? xrefs_to backend ea;
  Ok (JObj [("ea", JStr (show_0x ea)); ("name", JStr (ff_name f));
    ("prototype_hint", JObj [("imports_called", JArr (JStr <$> imports f));
                             ("indirect_calls", JNum (indirect_calls f))]);
    ("strings", JArr (JStr <$> ff_strings f)); ("constants", JArr (JStr ∘ show_0x <$> constants f));
    ("callers", JArr (named <$> callers f)); ("callees", JArr (named <$> callees f));
    ("xrefs_to", JArr ((fun x => JObj [("from", JStr (show_0x (xref_from x))); ("kind", JStr (xref_kind x))])
                         <$> take 50 xs));
    ("decompile", dec); ("detail", JStr (detail_level (budgets r)))]).

(** [idx.functions.range(..=from).next_back()]. *)
Definition last_at_most (idx : AnalysisIndex) (from : Z) : option (Z * FunctionFacts) :=
  last (filter (fun kv => (kv.1 <= from)%Z) (btree_iter (functions idx))).

(** The first [n] characters of the pseudocode. *)
Definition snippet (n : nat) (ea : Z) : option string :=
  match decompile backend ea with
  | inr d => take_chars n <$> as_str (d @@ "pseudocode")
  | inl _ => None
  end.

Fixpoint references (idx : AnalysisIndex) (lvl : string) (maxf : nat) (xs : list XrefInfo) (seen : gset Z)
    (items : list Value) : list Value :=
  match xs with
  | [] => items
  | x :: xs' =>
      match last_at_most idx (xref_from x) with
      | None => references idx lvl maxf xs' seen items
      | Some (f_ea, f) =>
          let seen' := {[f_ea]} ∪ seen in
          if bool_decide (f_ea ∈ seen) || (maxf <? size seen')%nat then references idx lvl maxf xs' seen' items
          else references idx lvl maxf xs' seen'
            (items ++ [JObj [("xref_from", JStr (show_0x (xref_from x))); ("kind", JStr (xref_kind x));
               ("function", JObj [("ea", JStr (show_0x f_ea)); ("name", JStr (ff_name f))]);
               ("callers", JArr (JStr ∘ show_0x <$> callers f));
               ("snippet", if bool_decide (lvl = "summary") then JNull else jopt JStr (snippet 400 f_ea))]])
      end
  end.

Definition reference_context (idx : AnalysisIndex) (r : WorkflowRequest) (maxf : nat) : Result Value :=
  ea <-? ok_or_else (req_ea r) (Worker "reference_context requires 'ea'");
  xs <-? xrefs_to backend ea;
  let items := references idx (detail_level (budgets r)) maxf (take 100 xs) ∅ [] in
  Ok (JObj [("target", JStr (show_0x ea)); ("references", JArr items);
            ("truncated", JBool (maxf <=? length items)%nat)]).

Definition subsystem (idx : AnalysisIndex) (r : WorkflowRequest) (maxf : nat) (rs : list Z) : walk :=
  sub_levels idx (include_noise (budgets r)) maxf (Z.to_nat (depth (budgets r))) rs
    {| visited := list_to_set rs; next_up := []; call_edges := [] |}.

Definition subsystem_row (idx : AnalysisIndex) (lvl : string) (ea : Z) : option Value :=
  f ← functions idx !! ea;
  Some (JObj [("ea", JStr (show_0x ea)); ("name", JStr (ff_name f)); ("strings", JArr (JStr <$> ff_strings f));
    ("imports", JArr (JStr <$> imports f)); ("constants", JArr (JStr ∘ show_0x <$> constants f));
    ("pseudocode_snippet", if bool_decide (lvl = "normal") || bool_decide (lvl = "full")
                           then jopt JStr (snippet 600 ea) else JNull)]).

Definition subsystem_context (idx : AnalysisIndex) (r : WorkflowRequest) (maxf : nat) : Result Value :=
  rs <-? match roots r, req_ea r with
         | _ :: _, _ => Ok (roots r)
         | [], Some ea => Ok [ea]
         | [], None => Err (Worker "subsystem_context requires 'roots' (array of EAs) or 'ea'")
         end;
  match List.find (fun ea => bool_decide (functions idx !! ea = None)) rs with
  | Some ea => Err (Worker ("no function at " +:+ show_0x ea))
  | None =>
      let w := subsystem idx r maxf rs in
      Ok (JObj [("roots", JArr (JStr ∘ show_0x <$> rs));
        ("functions", JArr (omap (subsystem_row idx (detail_level (budgets r))) (take maxf (btree_set (visited w)))));
        ("edges", JArr ((fun e => JObj [("from", JStr (show_0x e.1)); ("to", JStr (show_0x e.2))]) <$> call_edges w));
        ("truncated", JBool (maxf <? size (visited w))%nat)])
  end.

Definition clamp_functions (r : WorkflowRequest) : nat :=
  Z.to_nat (Z.max 1 (Z.min 50 (max_functions (budgets r)))).

Definition unknown_workflow (w : string) : Error :=
  Worker ("unknown workflow '" +:+ w +:+ "' (function_context|call_neighborhood|"
    +:+ "reference_context|import_usage|subsystem_context|trace_call_path)").

Definition run_workflow (idx : AnalysisIndex) (r : WorkflowRequest) : outcome (Result Value) :=
  let maxf := clamp_functions r in
  let called := fun w => bool_decide (workflow r = w) in
  if called "function_context" then
    Done (function_context idx r (bool_decide (detail_level (budgets r) = "full")))
  else if called "call_neighborhood" then Done (call_neighborhood idx r maxf)
  else if called "reference_context" then Done (reference_context idx r maxf)
  else if called "import_usage" then Done (import_usage idx r maxf)
  else if called "subsystem_context" then Done (subsystem_context idx r maxf)
  else if called "trace_call_path" then trace_call_path idx r
  else Done (Err (unknown_workflow (workflow r))).
End Backend.
End Workflows.

(** ** Call paths are shortest paths *)

(** Consecutive elements are related. *)
Fixpoint linked (R : Z -> Z -> Prop) (l : list Z) : Prop :=
  match l with
  | x :: ((y :: _) as l') => R x y /\ linked R l'
  | _ => True
  end.

(** [x] is [k] parents below [from]. *)
Inductive lineage (R : Z -> Z -> Prop) (parents : gmap Z Z) (from : Z) : nat -> Z -> Prop :=
  | lineage_root : lineage R parents from 0 from
  | lineage_step k x p : x <> from -> parents !! x = Some p -> R p x ->
      lineage R parents from k p -> lineage R parents from (S k) x.

Lemma lineage_mono R parents parents' from k x :
  parents ⊆ parents' -> lineage R parents from k x -> lineage R parents' from k x.
Proof.
  intros Hsub. induction 1 as [|k x p Hne Hp HR _ IH]; [constructor|].
  econstructor; [done| |done|done]. by eapply lookup_weaken.
Qed.

Lemma lineage_nsteps R parents from k x : lineage R parents from k x -> nsteps R k from x.
Proof. induction 1; [constructor|]. by eapply nsteps_r. Qed.

Lemma walk_back_spec R parents from k x fuel rest :
  lineage R parents from k x -> (k <= fuel)%nat -> linked R (x :: rest) ->
  exists l, walk_back parents from fuel x (x :: rest) = Done (l ++ x :: rest) /\ length l = k
    /\ head (l ++ x :: rest) = Some from /\ linked R (l ++ x :: rest).
Proof.
  intros Hlin. revert fuel rest. induction Hlin as [|k x p Hne Hp HR _ IH]; intros fuel rest Hf Hl.
  - exists []. destruct fuel; cbn [walk_back]; rewrite bool_decide_true by done; done.
  - destruct fuel as [|fuel]; [lia|]. cbn [walk_back]. rewrite bool_decide_false by done.
    rewrite Hp. cbn [at_ obind].
    destruct (IH fuel (x :: rest)) as (l & Hw & Hlen & Hh & Hlk); [lia|by split|].
    exists (l ++ [p]). rewrite <- app_assoc, length_app. cbn. split; [done|]. split; [lia|done].
Qed.

(** What a scan does to the parents and the next frontier, when it adds the
    nodes of [new] and their parents satisfy [Q]. *)
Definition extended (new : Z -> Prop) (Q : Z -> Z -> Prop) (s s' : gmap Z Z * list Z) : Prop :=
  s.1 ⊆ s'.1
  /\ (forall x, x ∈ dom s'.1 <-> x ∈ dom s.1 \/ new x)
  /\ (forall x, x ∈ s'.2 <-> x ∈ s.2 \/ (new x /\ x ∉ dom s.1))
  /\ (forall x p, s'.1 !! x = Some p -> s.1 !! x = Some p \/ Q p x).

Lemma extended_refl Q s : extended (fun _ => False) Q s s.
Proof. split; [done|]. split; [tauto|]. split; [tauto|]. tauto. Qed.

Lemma extended_trans (n1 n2 : Z -> Prop) Q s1 s2 s3 :
  extended n1 Q s1 s2 -> extended n2 Q s2 s3 -> extended (fun x => n1 x \/ n2 x) Q s1 s3.
Proof.
  intros (A1 & B1 & C1 & D1) (A2 & B2 & C2 & D2). split; [by etrans|]. split.
  { intros x. rewrite B2, B1. tauto. }
  split.
  - intros x. rewrite C2, C1, B1. destruct (decide (x ∈ dom s1.1)); [tauto|].
    destruct (decide (x ∈ dom s2.1)) as [Hd|Hd]; rewrite B1 in Hd; tauto.
  - intros x p [H|H]%D2; [|by right]. apply D1 in H. tauto.
Qed.

Lemma extended_iff (n1 n2 : Z -> Prop) (Q1 Q2 : Z -> Z -> Prop) s s' :
  (forall x, n1 x <-> n2 x) -> (forall p x, Q1 p x -> Q2 p x) -> extended n1 Q1 s s' -> extended n2 Q2 s s'.
Proof.
  intros Hn HQ (A & B & C & D). split; [done|]. split; [intros x; by rewrite B, Hn|].
  split; [intros x; by rewrite C, Hn|]. intros x p [H|H]%D; [by left|]. right. by apply HQ.
Qed.

Lemma add_parents_extended cur cs s :
  extended (fun x => x ∈ cs) (fun p x => p = cur /\ x ∈ cs) s (add_parents cur cs s).
Proof.
  revert s. induction cs as [|c cs IH]; intros [ps next]; cbn [add_parents foldl].
  { eapply extended_iff; [..|apply (extended_refl (fun _ _ => False))]; [|done].
    intros x. by rewrite elem_of_nil. }
  eapply (extended_iff (fun x => x = c \/ x ∈ cs) _ (fun p x => p = cur /\ (x = c \/ x ∈ cs)));
    [intros x; by rewrite elem_of_cons|intros p x; by rewrite elem_of_cons|].
  eapply extended_trans; [|eapply (extended_iff _ _ _ _ _ _ (fun _ => iff_refl _)); [|apply IH]];
    [|cbn; tauto].
  cbn. destruct (ps !! c) as [q|] eqn:Hc.
  - split; [done|]. cbn. split; [|split; [|tauto]]; intros x.
    + split; [tauto|]. intros [?| ->]; [done|]. by apply elem_of_dom_2 in Hc.
    + split; [tauto|]. intros [?|[-> Hn]]; [done|]. apply not_elem_of_dom in Hn. congruence.
  - split; [by apply insert_subseteq|]. cbn. split; [|split].
    + intros x. rewrite dom_insert, elem_of_union, elem_of_singleton. tauto.
    + intros x. rewrite elem_of_app, list_elem_of_singleton. split; [|tauto].
      intros [?| ->]; [by left|]. right. split; [done|]. by apply not_elem_of_dom.
    + intros x p. destruct (decide (x = c)) as [->|Hne].
      * rewrite lookup_insert_eq. intros [= <-]. tauto.
      * rewrite lookup_insert_ne by done. tauto.
Qed.

Lemma trace_frontier_spec idx to fr s s' found :
  trace_frontier idx to fr s = (s', found) ->
  if found then to ∈ fr /\ exists n, (forall x, n x -> exists y, y ∈ fr /\ calls idx y x)
                  /\ extended n (fun p x => p ∈ fr /\ calls idx p x) s s'
  else extended (fun x => exists y, y ∈ fr /\ calls idx y x) (fun p x => p ∈ fr /\ calls idx p x) s s'.
Proof.
  revert s. induction fr as [|cur fr IH]; intros s; cbn [trace_frontier].
  { intros [= <- <-]. eapply extended_iff; [..|apply (extended_refl (fun _ _ => False))]; [|done].
    intros x. setoid_rewrite elem_of_nil. naive_solver. }
  case_bool_decide as Hc.
  { intros [= <- <-]. split; [subst; left|]. exists (fun _ => False). split; [done|].
    eapply extended_iff; [..|apply (extended_refl (fun _ _ => False))]; done. }
  set (s1 := match functions idx !! cur with
             | Some f => add_parents cur (callees f) s | None => s end).
  intros Hrun. assert (trace_frontier idx to fr s1 = (s', found)) as Hrun'.
  { unfold s1. by destruct (functions idx !! cur). }
  assert (extended (calls idx cur) (fun p x => p ∈ cur :: fr /\ calls idx p x) s s1) as Hext.
  { unfold s1. destruct (functions idx !! cur) as [f|] eqn:Hf.
    - eapply extended_iff; [| |apply add_parents_extended].
      + intros x. unfold calls. rewrite Hf. naive_solver.
      + intros p x [-> Hx]. split; [left|]. exists f. done.
    - eapply extended_iff; [..|apply (extended_refl (fun _ _ => False))]; [|done].
      intros x. split; [done|]. intros (f & Hf' & _). congruence. }
  apply IH in Hrun'. destruct found.
  - destruct Hrun' as (Hto & n & Hn & He). split; [by right|].
    exists (fun x => calls idx cur x \/ n x). split.
    + intros x [Hx|(y & Hy & Hx)%Hn]; [exists cur; split; [left|done]|exists y; split; [by right|done]].
    + eapply extended_trans; [exact Hext|]. eapply extended_iff; [done| |exact He].
      intros p x [Hp Hx]. split; [by right|done].
  - eapply extended_iff; [| |eapply extended_trans; [exact Hext|]].
    3: { eapply extended_iff; [done| |exact Hrun']. intros p x [Hp Hx]. split; [by right|done]. }
    + intros x. setoid_rewrite elem_of_cons. naive_solver.
    + done.
Qed.

(** Every node of the search tree lies at its distance from [from]. *)
Definition shortest (idx : AnalysisIndex) (from : Z) (i : nat) (parents : gmap Z Z) : Prop :=
  forall x, x ∈ dom parents -> exists k, (k <= i)%nat /\ lineage (calls idx) parents from k x
    /\ forall j, nsteps (calls idx) j from x -> (k <= j)%nat.

Lemma shortest_extended idx from i P fr ps next n s' :
  layers (calls idx) [from] i P fr (dom ps) -> shortest idx from i ps ->
  (forall x, n x -> exists y, y ∈ fr /\ calls idx y x) ->
  extended n (fun p x => p ∈ fr /\ calls idx p x) (ps, next) s' -> shortest idx from (S i) s'.1.
Proof.
  intros Hl Hs Hn (Hsub & Hdom & _ & Hnew) x Hx. cbn in *.
  destruct (decide (x ∈ dom ps)) as [Hin|Hout].
  { destruct (Hs x Hin) as (k & Hk & Hlin & Hmin). exists k. split; [lia|]. split; [|done].
    by eapply lineage_mono. }
  apply elem_of_dom in Hx as [p Hp]. pose proof Hp as [Hold|[Hpf Hc]]%Hnew.
  { exfalso. apply Hout. by eapply elem_of_dom_2. }
  assert (p ∈ dom ps) as Hpd by (apply (layers_split _ _ _ _ _ _ Hl); by right).
  destruct (Hs p Hpd) as (k & Hk & Hlin & _). exists (S k). split; [lia|]. split.
  - apply (lineage_step _ _ _ _ _ p); [|done|done|by eapply lineage_mono].
    intros ->. apply Hout, (layers_seen _ _ _ _ _ _ Hl), within_singleton.
    exists 0%nat. split; [lia|constructor].
  - intros j Hj. destruct (decide (j <= i)%nat); [|lia]. exfalso.
    apply Hout, (layers_seen _ _ _ _ _ _ Hl), within_singleton. eauto.
Qed.

Lemma trace_levels_spec idx from to n i P fr ps :
  layers (calls idx) [from] i P fr (dom ps) -> shortest idx from i ps ->
  let ps' := trace_levels idx to n fr ps in
  shortest idx from (i + n) ps' /\ (to ∈ dom ps' <-> within (calls idx) [from] (i + n) to).
Proof.
  revert i P fr ps. induction n as [|n IH]; intros i P fr ps Hl Hs; cbn [trace_levels].
  { rewrite Nat.add_0_r. split; [done|]. apply (layers_seen _ _ _ _ _ _ Hl). }
  destruct (trace_frontier idx to fr (ps, [])) as [[ps' next] found] eqn:Hf.
  apply trace_frontier_spec in Hf. destruct found.
  - destruct Hf as (Hto & new & Hn & He). split.
    + pose proof (shortest_extended _ _ _ _ _ _ _ _ _ Hl Hs Hn He) as H.
      intros x Hx. destruct (H x Hx) as (k & Hk & ?). exists k. split; [lia|done].
    + assert (to ∈ dom ps) as Hd by (apply (layers_split _ _ _ _ _ _ Hl); by right).
      split; intros _; [|apply He; by left].
      eapply within_le; [|apply (layers_seen _ _ _ _ _ _ Hl); exact Hd]. lia.
  - rewrite <- Nat.add_succ_comm. apply (IH (S i) (dom ps)).
    + destruct Hf as (_ & Hd & Hn & _). cbn in *. eapply layers_round; [exact Hl|exact Hd|].
      intros x. rewrite Hn, elem_of_nil. tauto.
    + by apply (shortest_extended _ _ _ _ _ _ _ _ _ Hl Hs (fun x H => H) Hf).
Qed.

Lemma call_path_spec idx from to d :
  (exists l, call_path idx from to d = Done (Some l) /\ head l = Some from /\ last l = Some to
     /\ linked (calls idx) l /\ (length l <= S (Z.to_nat d))%nat
     /\ forall k, nsteps (calls idx) k from to -> (length l <= S k)%nat)
  \/ (call_path idx from to d = Done None
      /\ forall k, (k <= Z.to_nat d)%nat -> ~ nsteps (calls idx) k from to).
Proof.
  unfold call_path. set (ps := trace_levels _ _ _ _ _).
  assert (shortest idx from (Z.to_nat d) ps
          /\ (to ∈ dom ps <-> within (calls idx) [from] (Z.to_nat d) to)) as [Hs Hto].
  { apply (trace_levels_spec idx from to (Z.to_nat d) 0 ∅).
    - rewrite dom_singleton_L. assert ({[from]} = list_to_set (C := gset Z) [from]) as -> by set_solver.
      apply layers_start.
    - intros x. rewrite dom_singleton_L. intros ->%elem_of_singleton. exists 0%nat.
      split; [lia|]. split; [constructor|lia]. }
  destruct (ps !! to) as [p|] eqn:Hp.
  - left. destruct (Hs to) as (k & Hk & Hlin & Hmin); [by eapply elem_of_dom_2|].
    destruct (walk_back_spec _ _ _ _ _ _ [] Hlin Hk I) as (l & Hw & Hlen & Hh & Hlk).
    rewrite Hw. cbn [obind]. exists (l ++ [to]). split; [done|]. split; [done|].
    rewrite last_snoc, length_app. cbn. split; [done|]. split; [done|].
    split; [lia|]. intros j Hj%Hmin. lia.
  - right. split; [done|]. intros k Hk Hn. apply not_elem_of_dom in Hp. apply Hp, Hto, within_singleton. eauto.
Qed.

(** The addresses of the functions of a reported path. *)
Definition path_row (idx : AnalysisIndex) (ea : Z) : Value :=
  JObj [("ea", JStr (show_0x ea)); ("name", JStr (function_name idx ea))].

(** A traced call path is a shortest one: for a source and a destination,
    the workflow never panics and its reconstruction loop ends; it reports a
    path exactly when one of at most [depth] calls exists, and the path it
    reports starts at the source, ends at the destination, follows call edges
    and is as short as any. *)
Theorem trace_call_path_shortest (to_lowercase : string -> string) (idx : AnalysisIndex) (r : WorkflowRequest)
    (from to : Z) :
  resolve_ea to_lowercase idx r = Some from ->
  target_ea r = Some to ->
  let near := exists k, (k <= Z.to_nat (depth (budgets r)))%nat /\ nsteps (calls idx) k from to in
  exists v l, trace_call_path to_lowercase idx r = Done (Ok v)
    /\ v @@ "path" = JArr (path_row idx <$> l)
    /\ ((v @@ "found" = JBool true /\ near /\ head l = Some from /\ last l = Some to /\ linked (calls idx) l
         /\ forall k, nsteps (calls idx) k from to -> (length l <= S k)%nat)
        \/ (v @@ "found" = JBool false /\ ~ near /\ l = [])).
Proof.
  intros Hfrom Hto near. unfold trace_call_path. rewrite Hfrom, Hto.
  destruct (call_path_spec idx from to (depth (budgets r))) as
    [(l & -> & Hh & Hla & Hlk & Hlen & Hmin)|[-> Hno]]; cbn [obind].
  - eexists _, l. split; [reflexivity|]. split; [done|]. left.
    split; [done|]. split; [|done].
    assert (forall l x y, head l = Some x -> last l = Some y -> linked (calls idx) l ->
      nsteps (calls idx) (length l - 1) x y) as Hpath.
    { clear. intros l. induction l as [|a [|b l] IH]; intros x y Hx Hy Hlk; [done| |].
      - cbn in *. assert (x = y) as -> by congruence. constructor.
      - injection Hx as <-. destruct Hlk as [Hab Hlk]. cbn. econstructor; [exact Hab|].
        rewrite <- (Nat.sub_0_r (length l)). apply (IH b y); [done|exact Hy|exact Hlk]. }
    exists (length l - 1)%nat. split; [lia|]. by apply Hpath.
  - eexists _, []. split; [reflexivity|]. split; [done|]. right. split; [done|]. split; [|done].
    intros (k & Hk & Hn). by eapply Hno.
Qed.

Definition chain_index : AnalysisIndex := {|
  schema_version := 1; binary_md5 := ""; idx_revision := 0;
  functions := list_to_map
    [(0x1000%Z, facts 0x1000 "main" [] [] 0 [0x2000%Z; 0x4000%Z]); (0x2000%Z, facts 0x2000 "mid" [] [] 0 [0x3000%Z]);
     (0x3000%Z, facts 0x3000 "sink" [] [] 0 [0x1000%Z]); (0x4000%Z, facts 0x4000 "j_memset" [] [] 0 [])];
  idx_strings := [] |}.

Definition trace_request : WorkflowRequest := {|
  workflow := "trace_call_path"; req_ea := Some 0x1000%Z; target_ea := Some 0x3000%Z; req_name := None;
  roots := []; budgets := Budgets_default |}.

Lemma trace_call_path_shortest_witness :
  exists v l, trace_call_path id chain_index trace_request = Done (Ok v)
    /\ v @@ "found" = JBool true /\ head l = Some 0x1000%Z /\ last l = Some 0x3000%Z /\ (length l <= 3)%nat.
Proof.
  destruct (trace_call_path_shortest id chain_index trace_request 0x1000 0x3000 eq_refl eq_refl)
    as (v & l & Hrun & _ & [(Hf & _ & Hh & Hla & _ & Hmin)|(Hf & _)]).
  - exists v, l. repeat (split; [assumption|]). apply (Hmin 2%nat).
    econstructor; [|econstructor; [|constructor]].
    + eexists. split; [reflexivity|]. left.
    + eexists. split; [reflexivity|]. left.
  - exfalso. vm_compute in Hrun. injection Hrun as <-. vm_compute in Hf. discriminate Hf.
Defined.

(** ** The bounded walks *)

(** A call that the noise filter keeps. *)
Definition quiet_call (to_lowercase : string -> string) (idx : AnalysisIndex) (noise : bool) (x y : Z) : Prop :=
  calls idx x y /\ quiet to_lowercase idx noise y = true.

(** [w'] continues [w] along the calls [e]: within the limit, complete when
    the limit was not reached. *)
Record continues (maxf : nat) (e : Z -> Z -> Prop) (w w' : walk) : Prop := {
  cont_grow : visited w ⊆ visited w';
  cont_new x : x ∈ visited w' -> x ∈ visited w \/ exists y, e y x;
  cont_size : (size (visited w') <= Nat.max maxf (size (visited w)))%nat;
  cont_edges x y : (x, y) ∈ call_edges w' -> (x, y) ∈ call_edges w \/ (e x y /\ y ∈ visited w');
  cont_all : (size (visited w') < maxf)%nat ->
    (forall x, x ∈ visited w' <-> x ∈ visited w \/ exists y, e y x)
    /\ (forall x, x ∈ next_up w' <-> x ∈ next_up w \/ ((exists y, e y x) /\ x ∉ visited w));
}.

Lemma continues_refl maxf e w : (forall x y, ~ e x y) -> continues maxf e w w.
Proof.
  intros He. assert (forall x, ~ exists y, e y x) as Hn by (intros x (y & Hy); by eapply He).
  split; try done; [by left|lia|by left|]. intros _. split; intros x; specialize (Hn x); tauto.
Qed.

Lemma continues_trans maxf (e1 e2 e : Z -> Z -> Prop) w1 w2 w3 :
  (forall x y, e x y <-> e1 x y \/ e2 x y) ->
  continues maxf e1 w1 w2 -> continues maxf e2 w2 w3 -> continues maxf e w1 w3.
Proof.
  intros He [G1 N1 S1 E1 A1] [G2 N2 S2 E2 A2].
  assert (forall x, (exists y, e y x) <-> (exists y, e1 y x) \/ exists y, e2 y x) as Hex.
  { intros x. setoid_rewrite He. naive_solver. }
  split.
  - by etrans.
  - intros x [Hx|Hx]%N2; [apply N1 in Hx|]; rewrite Hex; tauto.
  - lia.
  - intros x y [Hx|[Hx Hy]]%E2; [apply E1 in Hx as [Hx|[Hx Hy]]; [by left|]|]; right; rewrite He; split; eauto.
  - intros Hlt. pose proof (subseteq_size _ _ G2). destruct A1 as [A1 B1]; [lia|]. destruct A2 as [A2 B2]; [lia|].
    split; intros x; rewrite Hex; [rewrite A2, A1; tauto|].
    rewrite B2, B1, A1. destruct (decide (x ∈ visited w2)) as [Hd|Hd]; rewrite A1 in Hd; tauto.
Qed.

(** The limit of a walk that breaks off is reached. *)
Lemma continues_stop maxf (e e' : Z -> Z -> Prop) w w' :
  (maxf <= size (visited w'))%nat -> (forall x y, e x y -> e' x y) ->
  continues maxf e w w' -> continues maxf e' w w'.
Proof.
  intros Hs He [G N S E A]. split; [done| |done| |lia].
  - intros x [Hx|(y & Hy)]%N; eauto.
  - intros x y [Hx|[Hx Hy]]%E; eauto.
Qed.

Lemma continues_iff maxf (e e' : Z -> Z -> Prop) w w' :
  (forall x y, e x y <-> e' x y) -> continues maxf e w w' -> continues maxf e' w w'.
Proof.
  intros He Hc. eapply (continues_trans maxf e (fun _ _ => False)); [intros x y; rewrite He; tauto|exact Hc|].
  apply continues_refl. tauto.
Qed.

Lemma visit_callees_continues maxf cur cs w :
  continues maxf (fun x y => x = cur /\ y ∈ cs) w (visit_callees maxf cur cs w).
Proof.
  revert w. induction cs as [|c cs IH]; intros w; cbn [visit_callees].
  { apply continues_refl. intros x y [_ Hy]. inversion Hy. }
  destruct (Nat.leb_spec maxf (size (visited w))) as [Hle|Hlt].
  { eapply continues_stop; [done| |apply (continues_refl _ (fun _ _ => False)); tauto]. done. }
  eapply (continues_trans maxf (fun x y => x = cur /\ y = c)); [| |apply IH].
  { intros x y. rewrite elem_of_cons. tauto. }
  split; cbn.
  - set_solver.
  - intros x. rewrite elem_of_union, elem_of_singleton. intros [->|?]; [right; eauto|by left].
  - destruct (decide (c ∈ visited w)) as [Hin|Hout].
    + rewrite subseteq_union_1_L by set_solver. lia.
    + rewrite size_union by set_solver. rewrite size_singleton. lia.
  - intros x y. rewrite elem_of_app, list_elem_of_singleton. intros [?|[= -> ->]]; [by left|].
    right. split; [done|]. set_solver.
  - intros _. split; intros x.
    + rewrite elem_of_union, elem_of_singleton. naive_solver.
    + case_bool_decide as Hc; [|rewrite elem_of_app, list_elem_of_singleton]; naive_solver.
Qed.

Section Walks.
Context (to_lowercase : string -> string) (idx : AnalysisIndex) (noise : bool) (maxf : nat).

Abbreviation qcall := (quiet_call to_lowercase idx noise).

Lemma visit_function_continues cur f w :
  functions idx !! cur = Some f ->
  continues maxf (fun x y => x = cur /\ qcall x y) w
    (visit_callees maxf cur (filter_noise to_lowercase idx noise (callees f)) w).
Proof.
  intros Hf. eapply continues_iff; [|apply visit_callees_continues]. intros x y. cbn.
  unfold filter_noise, quiet_call, calls. rewrite list_elem_of_filter. split.
  - intros (-> & Hq & Hy). rewrite Hf. eauto.
  - intros (-> & (f' & Hf' & Hy) & Hq). rewrite Hf in Hf'. injection Hf' as <-. done.
Qed.

Lemma qcall_cons cur fr :
  forall x y, (x ∈ cur :: fr /\ qcall x y) <-> (x = cur /\ qcall x y) \/ (x ∈ fr /\ qcall x y).
Proof. intros x y. rewrite elem_of_cons. tauto. Qed.

Lemma qcall_unindexed cur fr : functions idx !! cur = None ->
  forall x y, (x ∈ fr /\ qcall x y) <-> (x ∈ cur :: fr /\ qcall x y).
Proof.
  intros Hf x y. rewrite elem_of_cons. split; [tauto|]. intros [[->|Hx] Hc]; [|done].
  destruct Hc as [(f & Hf' & _) _]. congruence.
Qed.

Lemma near_frontier_continues fr w :
  continues maxf (fun x y => x ∈ fr /\ qcall x y) w (near_frontier to_lowercase idx noise maxf fr w).
Proof.
  revert w. induction fr as [|cur fr IH]; intros w; cbn [near_frontier].
  { apply continues_refl. intros x y [Hx _]. inversion Hx. }
  destruct (functions idx !! cur) as [f|] eqn:Hf.
  - pose proof (visit_function_continues cur f w Hf) as Hv.
    destruct (Nat.leb_spec maxf (size (visited (visit_callees maxf cur
      (filter_noise to_lowercase idx noise (callees f)) w)))) as [Hle|Hlt].
    + eapply continues_stop; [exact Hle| |exact Hv]. intros x y [-> Hc]. split; [left|done].
    + eapply continues_trans; [apply qcall_cons|exact Hv|apply IH].
  - eapply continues_iff; [by apply qcall_unindexed|apply IH].
Qed.

Lemma sub_frontier_continues fr w :
  continues maxf (fun x y => x ∈ fr /\ qcall x y) w (sub_frontier to_lowercase idx noise maxf fr w).
Proof.
  revert w. induction fr as [|cur fr IH]; intros w; cbn [sub_frontier].
  { apply continues_refl. intros x y [Hx _]. inversion Hx. }
  destruct (functions idx !! cur) as [f|] eqn:Hf.
  - eapply continues_trans; [apply qcall_cons|by apply visit_function_continues|apply IH].
  - eapply continues_iff; [by apply qcall_unindexed|apply IH].
Qed.

(** What a walk from [start] reports after [n] more levels. *)
Definition walked (start : list Z) (n : nat) (w w' : walk) : Prop :=
  visited w ⊆ visited w'
  /\ (forall x, x ∈ visited w' -> within qcall start n x)
  /\ (size (visited w') <= Nat.max maxf (size (visited w)))%nat
  /\ ((size (visited w') < maxf)%nat -> forall x, within qcall start n x -> x ∈ visited w')
  /\ (forall x y, (x, y) ∈ call_edges w' ->
        (x, y) ∈ call_edges w \/ (qcall x y /\ x ∈ visited w' /\ y ∈ visited w')).

Lemma walked_round start i P fr w w0 w1 :
  layers qcall start i P fr (visited w) ->
  visited w0 = visited w -> next_up w0 = [] -> call_edges w0 = call_edges w ->
  continues maxf (fun x y => x ∈ fr /\ qcall x y) w0 w1 ->
  walked start (S i) w w1
  /\ ((size (visited w1) < maxf)%nat -> layers qcall start (S i) (visited w) (next_up w1) (visited w1)).
Proof.
  intros Hl Hv Hn He [G N S E A]. rewrite Hv in *. rewrite Hn in *. rewrite He in *.
  assert ((size (visited w1) < maxf)%nat -> layers qcall start (Datatypes.S i) (visited w) (next_up w1) (visited w1)) as Hnext.
  { intros Hlt. destruct (A Hlt) as [A1 A2]. eapply layers_round; [exact Hl|exact A1|].
    intros x. rewrite A2, elem_of_nil. tauto. }
  split; [|exact Hnext]. split; [done|]. split; [|split; [done|split]].
  - intros x [Hx|(y & Hy & Hc)]%N.
    + eapply within_le; [|by apply (layers_seen _ _ _ _ _ _ Hl)]. lia.
    + eapply within_step; [|exact Hc]. apply (layers_seen _ _ _ _ _ _ Hl), (layers_split _ _ _ _ _ _ Hl). by right.
  - intros Hlt x Hx. by apply (layers_seen _ _ _ _ _ _ (Hnext Hlt)).
  - intros x y [Hx|[[Hx Hc] Hy]]%E; [by left|]. right. split; [done|]. split; [|done].
    apply G, (layers_split _ _ _ _ _ _ Hl). by right.
Qed.

Lemma walked_trans start i n w w1 w2 :
  (i <= n)%nat -> walked start i w w1 -> walked start n w1 w2 -> walked start n w w2.
Proof.
  intros Hin (G1 & N1 & S1 & A1 & E1) (G2 & N2 & S2 & A2 & E2). split; [by etrans|]. split; [done|].
  split; [lia|]. split; [done|]. intros x y [Hx|Hx]%E2; [|by right].
  apply E1 in Hx as [Hx|(Hc & Hx & Hy)]; [by left|]. right. eauto.
Qed.

Lemma walked_stop start i n w w1 :
  (i <= n)%nat -> (maxf <= size (visited w1))%nat -> walked start i w w1 -> walked start n w w1.
Proof.
  intros Hin Hs (G & N & S & A & E). split; [done|]. split; [|split; [done|split; [lia|done]]].
  intros x Hx%N. by eapply within_le.
Qed.

Lemma walked_here start i P fr w : layers qcall start i P fr (visited w) -> walked start i w w.
Proof.
  intros Hl. split; [done|]. split; [intros x; apply (layers_seen _ _ _ _ _ _ Hl)|]. split; [lia|].
  split; [intros _ x; apply (layers_seen _ _ _ _ _ _ Hl)|]. by left.
Qed.

Lemma near_levels_walked start n i P fr w :
  layers qcall start i P fr (visited w) ->
  walked start (i + n) w (near_levels to_lowercase idx noise maxf n fr w).
Proof.
  revert i P fr w. induction n as [|n IH]; intros i P fr w Hl; cbn [near_levels].
  { rewrite Nat.add_0_r. by eapply walked_here. }
  set (w0 := {| visited := visited w; next_up := []; call_edges := call_edges w |}).
  destruct (walked_round start i P fr w w0 (near_frontier to_lowercase idx noise maxf fr w0)) as [Hw Hnext];
    [done..|apply near_frontier_continues|].
  destruct (Nat.leb_spec maxf (size (visited (near_frontier to_lowercase idx noise maxf fr w0)))) as [Hle|Hlt].
  - eapply walked_stop; [|done|exact Hw]. lia.
  - rewrite <- Nat.add_succ_comm. eapply walked_trans; [|exact Hw|]; [lia|]. eapply IH. by apply Hnext.
Qed.

(** Past its limit the walk of a subsystem never finds anything new. *)
Lemma visit_callees_full cur cs w :
  (maxf <= size (visited w))%nat -> visit_callees maxf cur cs w = w.
Proof. intros H. destruct cs; [done|]. cbn [visit_callees]. by rewrite (proj2 (Nat.leb_le _ _) H). Qed.

Lemma sub_frontier_full fr w :
  (maxf <= size (visited w))%nat -> sub_frontier to_lowercase idx noise maxf fr w = w.
Proof.
  induction fr as [|cur fr IH]; intros H; cbn [sub_frontier]; [done|].
  destruct (functions idx !! cur); [rewrite visit_callees_full by done|]; by apply IH.
Qed.

Lemma sub_levels_full n fr w :
  (maxf <= size (visited w))%nat ->
  visited (sub_levels to_lowercase idx noise maxf n fr w) = visited w
  /\ call_edges (sub_levels to_lowercase idx noise maxf n fr w) = call_edges w.
Proof.
  revert fr w. induction n as [|n IH]; intros fr w H; cbn [sub_levels]; [done|].
  rewrite sub_frontier_full by done. apply (IH [] {| visited := visited w; next_up := []; call_edges := call_edges w |} H).
Qed.

Lemma sub_levels_walked start n i P fr w :
  layers qcall start i P fr (visited w) ->
  walked start (i + n) w (sub_levels to_lowercase idx noise maxf n fr w).
Proof.
  revert i P fr w. induction n as [|n IH]; intros i P fr w Hl; cbn [sub_levels].
  { rewrite Nat.add_0_r. by eapply walked_here. }
  set (w0 := {| visited := visited w; next_up := []; call_edges := call_edges w |}).
  set (w1 := sub_frontier to_lowercase idx noise maxf fr w0).
  destruct (walked_round start i P fr w w0 w1) as [Hw Hnext]; [done..|apply sub_frontier_continues|].
  destruct (Nat.leb_spec maxf (size (visited w1))) as [Hle|Hlt].
  - destruct (sub_levels_full n (next_up w1) w1 Hle) as [Hv He].
    assert (walked start (i + S n) w w1) as (A & B & C & D & E) by (eapply walked_stop; [|done|exact Hw]; lia).
    unfold walked. rewrite Hv, He. done.
  - rewrite <- Nat.add_succ_comm. eapply walked_trans; [|exact Hw|]; [lia|]. eapply IH. by apply Hnext.
Qed.
End Walks.

(** The call neighbourhood is sound, bounded, and complete unless it says
    otherwise: it lists the root and at most [max_functions] functions, each
    within [depth] calls of the root that the noise filter keeps; the edges it
    lists are such calls between listed functions; and when it does not report
    truncation it lists every function within that distance. *)
Theorem call_neighborhood_bounded (to_lowercase : string -> string) (idx : AnalysisIndex) (r : WorkflowRequest)
    (ea : Z) (f : FunctionFacts) :
  resolve_ea to_lowercase idx r = Some ea -> functions idx !! ea = Some f ->
  let maxf := clamp_functions r in
  let R := quiet_call to_lowercase idx (include_noise (budgets r)) in
  let near x := exists k, (k <= Z.to_nat (depth (budgets r)))%nat /\ nsteps R k ea x in
  exists v, call_neighborhood to_lowercase idx r maxf = Ok v
    /\ let w := neighborhood to_lowercase idx r maxf ea in
       v @@ "functions" = JArr (function_row idx <$> btree_set (visited w))
       /\ ea ∈ visited w /\ (size (visited w) <= maxf <= 50)%nat
       /\ (forall x, x ∈ visited w -> near x)
       /\ (forall x y, (x, y) ∈ call_edges w -> R x y /\ x ∈ visited w /\ y ∈ visited w)
       /\ (v @@ "truncated" = JBool false -> forall x, near x -> x ∈ visited w).
Proof.
  intros Hea Hf maxf R near. unfold call_neighborhood. rewrite Hea. cbn [ok_or_else bindR Ok]. rewrite Hf.
  eexists. split; [reflexivity|]. set (w := neighborhood to_lowercase idx r maxf ea). cbn zeta.
  assert (walked to_lowercase idx (include_noise (budgets r)) maxf [ea] (Z.to_nat (depth (budgets r)))
    {| visited := {[ea]}; next_up := []; call_edges := [] |} w) as (G & N & S & A & E).
  { apply (near_levels_walked _ _ _ _ [ea] _ 0 ∅ [ea]). cbn.
    assert ({[ea]} = list_to_set (C := gset Z) [ea]) as -> by set_solver. apply layers_start. }
  cbn in G, S, E. rewrite size_singleton in S.
  assert (1 <= maxf <= 50)%nat as Hmax by (subst maxf; unfold clamp_functions; lia).
  assert (forall x, within R [ea] (Z.to_nat (depth (budgets r))) x <-> near x) as Hnear.
  { intros x. apply within_singleton. }
  split; [reflexivity|]. split; [set_solver|]. split; [lia|]. split; [intros x Hx; by apply Hnear, N|]. split.
  - intros x y [Hx|Hx]%E; [inversion Hx|done].
  - jread. intros [= Ht] x Hx. apply A; [by apply Nat.leb_gt in Ht|by apply Hnear].
Qed.

Definition near_request : WorkflowRequest := {|
  workflow := "call_neighborhood"; req_ea := Some 0x1000%Z; target_ea := None; req_name := None;
  roots := []; budgets := Budgets_default |}.

Lemma call_neighborhood_bounded_witness :
  exists v, call_neighborhood id chain_index near_request 10 = Ok v
    /\ 0x3000%Z ∈ visited (neighborhood id chain_index near_request 10 0x1000).
Proof.
  destruct (functions chain_index !! 0x1000%Z) as [f|] eqn:Hf; [|vm_compute in Hf; discriminate Hf].
  destruct (call_neighborhood_bounded id chain_index near_request 0x1000 f eq_refl Hf)
    as (v & Hv & _ & _ & _ & _ & _ & Hall).
  exists v. split; [exact Hv|]. apply Hall.
  - vm_compute in Hv. injection Hv as <-. reflexivity.
  - exists 2%nat. split; [vm_compute; lia|].
    econstructor; [|econstructor; [|constructor]].
    + split; [eexists; split; [reflexivity|left]|reflexivity].
    + split; [eexists; split; [reflexivity|left]|reflexivity].
Defined.

Lemma elem_of_find_None {A} (P : A -> bool) (l : list A) x :
  List.find P l = None -> x ∈ l -> P x = false.
Proof. intros H Hx. apply (List.find_none P l H). by apply list_elem_of_In. Qed.

(** A subsystem that was cut is not reported as truncated: the walk stops
    when it has [max_functions] functions and the report asks for more than
    that, so whenever the distinct roots fit the limit the answer says
    [truncated: false], whatever was left out. *)
Theorem subsystem_truncation_unreported (to_lowercase : string -> string) {B : Type} `{!IdaBackend B} (b : B)
    (idx : AnalysisIndex) (r : WorkflowRequest) (maxf : nat) (v : Value) :
  subsystem_context to_lowercase b idx r maxf = Ok v ->
  (size (list_to_set (roots r) : gset Z) <= maxf)%nat -> (1 <= maxf)%nat ->
  v @@ "truncated" = JBool false.
Proof.
  unfold subsystem_context. intros Hv Hroots Hmax.
  assert (exists rs, match roots r, req_ea r with
         | _ :: _, _ => Ok (roots r) | [], Some ea => Ok [ea]
         | [], None => Err (Worker "subsystem_context requires 'roots' (array of EAs) or 'ea'") end = Ok rs
       /\ (size (list_to_set rs : gset Z) <= maxf)%nat) as (rs & Hrs & Hsize).
  { destruct (roots r) as [|a l] eqn:Hr; [|by eexists]. destruct (req_ea r) as [ea|]; [|done].
    exists [ea]. split; [done|]. cbn. rewrite (right_id_L ∅ (∪)), size_singleton. done. }
  rewrite Hrs in Hv. cbn [bindR Ok] in Hv.
  destruct (List.find _ rs); [done|]. injection Hv as <-.
  transitivity (JBool (maxf <? size (visited (subsystem to_lowercase idx r maxf rs)))%nat); [reflexivity|].
  f_equal. apply Nat.ltb_ge.
  destruct (sub_levels_walked to_lowercase idx (include_noise (budgets r)) maxf rs (Z.to_nat (depth (budgets r)))
    0 ∅ rs {| visited := list_to_set rs; next_up := []; call_edges := [] |} (layers_start _ _))
    as (_ & _ & Hle & _). unfold subsystem. cbn in Hle |- *. lia.
Qed.

Definition subsystem_request : WorkflowRequest := {|
  workflow := "subsystem_context"; req_ea := Some 0x1000%Z; target_ea := None; req_name := None;
  roots := []; budgets := {| depth := 2; max_functions := 2; detail_level := "summary"; include_noise := true |} |}.

(** Two of four reachable functions are listed. *)
Lemma subsystem_truncation_unreported_witness :
  exists v rows, subsystem_context id MockBackend_new chain_index subsystem_request 2 = Ok v
    /\ v @@ "functions" = JArr rows /\ length rows = 2%nat /\ v @@ "truncated" = JBool false.
Proof.
  destruct (subsystem_context id MockBackend_new chain_index subsystem_request 2) as [e|v] eqn:Hv;
    [vm_compute in Hv; discriminate Hv|].
  assert (v @@ "truncated" = JBool false) as Ht.
  { apply (subsystem_truncation_unreported id MockBackend_new chain_index subsystem_request 2 v Hv);
      vm_compute; lia. }
  vm_compute in Hv. injection Hv as <-. eexists _, _. split; [reflexivity|].
  split; [reflexivity|]. split; [reflexivity|exact Ht].
Defined.

(** ** Cache keys *)

#[local] Instance JNum_inj : Inj (=) (=) JNum.
Proof. by intros a b [= ->]. Qed.

(** Cached results are not confused: with a serializer that is injective, two
    requests at two revisions share a cache key only if they are the same
    request at the same revision. *)
Lemma cache_key_inj (to_text : Value -> option string) (r1 r2 : WorkflowRequest) (rev1 rev2 : Z) :
  (forall v1 v2 s, to_text v1 = Some s -> to_text v2 = Some s -> v1 = v2) ->
  is_Some (to_text (request_value r1)) -> is_Some (to_text (request_value r2)) ->
  cache_key to_text r1 rev1 = cache_key to_text r2 rev2 -> r1 = r2 /\ rev1 = rev2.
Proof.
  intros Hinj [s1 H1] [s2 H2]. unfold cache_key. rewrite H1, H2. cbn. intros [= _ -> ->].
  pose proof (Hinj _ _ _ H1 H2) as Heq. unfold request_value in Heq. split; [|done].
  destruct r1 as [? e1 t1 n1 rs1 []], r2 as [? e2 t2 n2 rs2 []]; cbn in Heq.
  injection Heq as -> He Ht Hn Hr -> -> -> ->.
  assert (rs1 = rs2) as -> by (revert Hr; apply (inj (fmap JNum))).
  destruct e1, e2, t1, t2, n1, n2; cbn in He, Ht, Hn; try discriminate; by repeat match goal with
    | H : _ = _ |- _ => injection H as -> end.
Qed.
