(* ===== verification/Requests.v ===== *)
(** * Requests: what a worker accepts as a query and as a workflow request

    The decoders of [Predicate] and [EvidenceQuery]
    ([rmcp-core/src/analysis_index.rs]) and of [WorkflowRequest] and [Budgets]
    ([rmcp-worker/src/workflow.rs]): the attributes of the declarations and
    the functions [de_ea], [de_opt_ea], [de_ea_list] they name.  A derived
    decoder reads the entries of a map in their order and stops at the first
    bad one; the wording of its own errors is the parameter [describe]. *)

From stdpp Require Import base list strings.
From Stdlib Require Import ZArith Lia Ascii.
From S2P Require Import Prelude Text Json Errors Index Workflow.

Local Open Scope rmcp_scope.

Inductive DeError :=
  | Custom (m : string)
  | MissingField (field : string)
  | Mismatch (expected : string) (v : Value)
  | UnknownVariant (name : string).

Definition De (A : Type) : Type := (DeError + A)%type.

Definition bindD {A B} (r : De A) (k : A -> De B) : De B := match r with inl e => inl e | inr a => k a end.
Notation "x <-$ r ; k" := (bindD r (fun x => k)) (at level 60, r at level 59, k at level 60, right associativity) : rmcp_scope.

Fixpoint seqD {A} (rs : list (De A)) : De (list A) :=
  match rs with
  | [] => inr []
  | r :: rs' => a <-$ r; l <-$ seqD rs'; inr (a :: l)
  end.

(** ** The scalars of serde *)

Definition de_string (v : Value) : De string := match v with JStr s => inr s | _ => inl (Mismatch "a string" v) end.
Definition de_bool (v : Value) : De bool := match v with JBool b => inr b | _ => inl (Mismatch "a boolean" v) end.
Definition de_uint (max : Z) (v : Value) : De Z :=
  match v with
  | JNum n => if bool_decide (0 <= n <= max)%Z then inr n else inl (Mismatch "an unsigned integer" v)
  | _ => inl (Mismatch "an unsigned integer" v)
  end.
Definition de_u32 : Value -> De Z := de_uint (u32_modulus - 1).
Definition de_u64 : Value -> De Z := de_uint u64_max.
Definition de_option {A} (de : Value -> De A) (v : Value) : De (option A) :=
  match v with JNull => inr None | _ => a <-$ de v; inr (Some a) end.
Definition de_vec {A} (de : Value -> De A) (v : Value) : De (list A) :=
  match v with JArr vs => seqD (de <$> vs) | _ => inl (Mismatch "a sequence" v) end.

(** A derived [visit_map]: the entries in order, each known one decoded. *)
Fixpoint visit (fields : list (string * (Value -> De unit))) (kvs : list (string * Value)) : De unit :=
  match kvs with
  | [] => inr tt
  | (k, v) :: rest =>
      _ <-$ match List.find (fun f => bool_decide (f.1 = k)) fields with Some f => f.2 v | None => inr tt end;
      visit fields rest
  end.
Definition decodes_as {A} (de : Value -> De A) (v : Value) : De unit := _ <-$ de v; inr tt.

(** A field after the visit: decoded, or missing. *)
Definition field {A} (kvs : list (string * Value)) (k : string) (de : Value -> De A) (missing : De A) : De A :=
  match assoc k kvs with Some v => de v | None => missing end.

(** ** Addresses *)

Definition de_ea (v : Value) : De Z :=
  match v with
  | JNum _ | JFloat _ => match as_u64 v with Some n => inr n | None => inl (Custom "bad ea") end
  | JStr s0 =>
      let s := trim s0 in
      let parsed :=
        match (match strip_prefix "0x" s with Some h => Some h | None => strip_prefix "0X" s end) with
        | Some hex => parse_hex_u64 hex
        | None => parse_u64 s
        end in
      match parsed with inl e => inl (Custom (ParseIntError_to_string e)) | inr n => inr n end
  | _ => inl (Custom "bad ea value")
  end.

Definition de_opt_ea (v : Value) : De (option Z) :=
  match v with JNull => inr None | _ => a <-$ de_ea v; inr (Some a) end.

Definition de_ea_list (v : Value) : De (list Z) :=
  match v with JArr vs => seqD (de_ea <$> vs) | _ => inl (Mismatch "a sequence" v) end.

(** ** Workflow requests *)

Definition default_depth : Z := 2.
Definition default_max_functions : Z := 10.

Definition Budgets_de (kvs : list (string * Value)) : De Budgets :=
  _ <-$ visit [("depth", decodes_as de_u32); ("max_functions", decodes_as de_u32); ("detail", decodes_as de_string);
               ("include_noise", decodes_as de_bool)] kvs;
  d <-$ field kvs "depth" de_u32 (inr default_depth);
  m <-$ field kvs "max_functions" de_u32 (inr default_max_functions);
  t <-$ field kvs "detail" de_string (inr "");
  n <-$ field kvs "include_noise" de_bool (inr false);
  inr {| depth := d; max_functions := m; detail_level := t; include_noise := n |}.

Definition own_fields : list (string * (Value -> De unit)) :=
  [("workflow", decodes_as de_string); ("ea", decodes_as de_opt_ea); ("target_ea", decodes_as de_opt_ea);
   ("name", decodes_as (de_option de_string)); ("roots", decodes_as de_ea_list)].

(** The entries the flattened budgets are read from. *)
Definition collected (kvs : list (string * Value)) : list (string * Value) := filter (fun kv => kv.1 ∉ own_fields.*1) kvs.

Definition WorkflowRequest_de (v : Value) : De WorkflowRequest :=
  match v with
  | JObj kvs =>
      _ <-$ visit own_fields kvs;
      w <-$ field kvs "workflow" de_string (inl (MissingField "workflow"));
      e <-$ field kvs "ea" de_opt_ea (inr None);
      t <-$ field kvs "target_ea" de_opt_ea (inr None);
      n <-$ field kvs "name" (de_option de_string) (inr None);
      r <-$ field kvs "roots" de_ea_list (inr []);
      b <-$ Budgets_de (collected kvs);
      inr {| workflow := w; req_ea := e; target_ea := t; req_name := n; roots := r; budgets := b |}
  | _ => inl (Mismatch "struct WorkflowRequest" v)
  end.

(** ** Predicates and queries *)

Definition de_min (v : Value) : De Z :=
  match v with
  | JObj kvs => _ <-$ visit [("min", decodes_as de_u32)] kvs; field kvs "min" de_u32 (inl (MissingField "min"))
  | JArr [a] => de_u32 a
  | _ => inl (Mismatch "struct variant Predicate::HasIndirectCalls" v)
  end.

Definition de_reach (v : Value) : De (Z * Z) :=
  match v with
  | JObj kvs =>
      _ <-$ visit [("root_ea", decodes_as de_u64); ("levels", decodes_as de_u32)] kvs;
      r <-$ field kvs "root_ea" de_u64 (inl (MissingField "root_ea"));
      l <-$ field kvs "levels" de_u32 (inl (MissingField "levels"));
      inr (r, l)
  | JArr [a; b] => r <-$ de_u64 a; l <-$ de_u32 b; inr (r, l)
  | _ => inl (Mismatch "struct variant Predicate::ReachableFrom" v)
  end.

(** Externally tagged: an object with one key, the variant in snake case. *)
Fixpoint Predicate_de (v : Value) : De Predicate :=
  let inner_list (x : Value) : De (list Predicate) :=
    match x with
    | JArr vs => seqD ((fix go (l : list Value) := match l with [] => [] | y :: l' => Predicate_de y :: go l' end) vs)
    | _ => inl (Mismatch "a sequence" x)
    end in
  match v with
  | JObj [(k, x)] =>
      if bool_decide (k = "name_contains") then s <-$ de_string x; inr (NameContains s)
      else if bool_decide (k = "import") then s <-$ de_string x; inr (Import s)
      else if bool_decide (k = "string_contains") then s <-$ de_string x; inr (StringContains s)
      else if bool_decide (k = "has_indirect_calls") then n <-$ de_min x; inr (HasIndirectCalls n)
      else if bool_decide (k = "constant") then n <-$ de_u64 x; inr (Constant n)
      else if bool_decide (k = "callee_matches") then p <-$ Predicate_de x; inr (CalleeMatches p)
      else if bool_decide (k = "caller_matches") then p <-$ Predicate_de x; inr (CallerMatches p)
      else if bool_decide (k = "all") then ps <-$ inner_list x; inr (All ps)
      else if bool_decide (k = "any") then ps <-$ inner_list x; inr (Any ps)
      else if bool_decide (k = "not") then p <-$ Predicate_de x; inr (Not p)
      else if bool_decide (k = "reachable_from") then rl <-$ de_reach x; inr (ReachableFrom rl.1 rl.2)
      else inl (UnknownVariant k)
  | JObj _ => inl (Mismatch "map with a single key" v)
  | JStr k => inl (if bool_decide (k ∈ ["name_contains"; "import"; "string_contains"; "has_indirect_calls"; "constant";
        "callee_matches"; "caller_matches"; "all"; "any"; "not"; "reachable_from"])
      then Mismatch "a variant with content" v else UnknownVariant k)
  | _ => inl (Mismatch "string or map" v)
  end.

Definition EvidenceQuery_de (v : Value) : De EvidenceQuery :=
  let preds := de_option (de_vec Predicate_de) in
  match v with
  | JObj kvs =>
      _ <-$ visit [("all", decodes_as preds); ("limit", decodes_as de_u64)] kvs;
      a <-$ field kvs "all" preds (inr None);
      l <-$ field kvs "limit" de_u64 (inr default_limit);
      inr {| q_all := a; q_limit := l |}
  | JArr [x] => a <-$ preds x; inr {| q_all := a; q_limit := default_limit |}
  | JArr [x; y] => a <-$ preds x; l <-$ de_u64 y; inr {| q_all := a; q_limit := l |}
  | _ => inl (Mismatch "struct EvidenceQuery" v)
  end.

(** The two decoders as the worker calls them. *)
Definition described {A} (describe : DeError -> string) (r : De A) : string + A :=
  match r with inl (Custom m) => inl m | inl e => inl (describe e) | inr a => inr a end.
Definition parse_query (describe : DeError -> string) (v : Value) : string + EvidenceQuery := described describe (EvidenceQuery_de v).
Definition parse_request (describe : DeError -> string) (v : Value) : string + WorkflowRequest := described describe (WorkflowRequest_de v).

(** ** What is accepted *)

Definition request_ok (r : WorkflowRequest) : Prop :=
  (forall n, req_ea r = Some n \/ target_ea r = Some n \/ n ∈ roots r -> is_u64 n)
  /\ is_u32 (depth (budgets r)) /\ is_u32 (max_functions (budgets r)).

Lemma de_ea_num n : is_u64 n -> de_ea (JNum n) = inr n.
Proof. intros Hn. cbn [de_ea as_u64]. by rewrite bool_decide_eq_true_2. Qed.

Lemma de_u32_num n : is_u32 n -> de_u32 (JNum n) = inr n.
Proof. intros Hn. unfold is_u32 in Hn. unfold de_u32, de_uint. by rewrite bool_decide_eq_true_2 by lia. Qed.

Lemma de_u64_num n : is_u64 n -> de_u64 (JNum n) = inr n.
Proof. intros Hn. unfold is_u64 in Hn. unfold de_u64, de_uint. by rewrite bool_decide_eq_true_2 by (unfold u64_max; lia). Qed.

(** An address as the program prints it is read as that address. *)
Lemma de_ea_shown n : is_u64 n -> de_ea (JStr (show_0x n)) = inr n.
Proof.
  intros Hn. pose proof Hn as [H0 _]. cbn [de_ea].
  rewrite trim_graphic by (unfold show_0x, show_hex; rewrite all_chars_app, show_graphic; [reflexivity|lia..]).
  unfold show_0x. rewrite strip_prefix_app. unfold parse_hex_u64, show_hex. by rewrite (parse_show 16 n) by (lia || exact Hn).
Qed.

Lemma de_opt_ea_jopt o : (forall n, o = Some n -> is_u64 n) -> de_opt_ea (jopt JNum o) = inr o.
Proof. destruct o as [n|]; [|done]. intros Hn. unfold jopt, de_opt_ea. by rewrite de_ea_num by auto. Qed.

Lemma de_name_jopt o : de_option de_string (jopt JStr o) = inr o.
Proof. by destruct o. Qed.

Lemma seqD_fmap {A} (de : Value -> De A) (en : A -> Value) l :
  Forall (fun a => de (en a) = inr a) l -> seqD (de <$> (en <$> l)) = inr l.
Proof. induction 1 as [|a l Ha _ IH]; [done|]. cbn [fmap list_fmap seqD]. rewrite Ha. cbn [bindD]. fold (fmap (M:=list) en). by rewrite IH. Qed.

Lemma de_ea_list_nums l : Forall is_u64 l -> de_ea_list (JArr (JNum <$> l)) = inr l.
Proof. intros Hl. apply (seqD_fmap de_ea JNum). eapply Forall_impl; [exact Hl|]. intros n. apply de_ea_num. Qed.

Lemma request_decoded r : request_ok r -> WorkflowRequest_de (request_value r) = inr r.
Proof.
  destruct r as [w e t n rs [d m lvl noise]]. intros (Ha & Hd & Hm). cbn [req_ea target_ea roots budgets depth max_functions] in Ha, Hd, Hm.
  pose proof (de_opt_ea_jopt e (fun k H => Ha k (or_introl H))) as E1. pose proof (de_opt_ea_jopt t (fun k H => Ha k (or_intror (or_introl H)))) as E2.
  pose proof (de_ea_list_nums rs (proj2 (Forall_forall _ _) (fun k H => Ha k (or_intror (or_intror H))))) as E3. pose proof (de_name_jopt n) as E4.
  pose proof (de_u32_num d Hd) as E5. pose proof (de_u32_num m Hm) as E6. clear Ha Hd Hm.
  unfold request_value. cbn [workflow req_ea target_ea req_name roots budgets depth max_functions detail_level include_noise].
  revert E1 E2 E3 E4 E5 E6.
  generalize (jopt JNum e) (jopt JNum t) (JArr (JNum <$> rs)) (jopt JStr n) (JNum d) (JNum m). intros ve vt vr vn vd vm E1 E2 E3 E4 E5 E6.
  cbv -[de_opt_ea de_ea_list de_option de_string de_u32]. rewrite !E1, !E2, !E4, !E3. cbv -[de_u32]. by rewrite !E5, !E6.
Qed.

(** The wire form of a predicate.  The root of [reachable_from] is a number; the
    tool's documentation writes it as a string, which the decoder refuses
    ([root_as_text_refused]). *)
Fixpoint predicate_value (p : Predicate) : Value :=
  match p with
  | NameContains s => JObj [("name_contains", JStr s)]
  | Import s => JObj [("import", JStr s)]
  | StringContains s => JObj [("string_contains", JStr s)]
  | HasIndirectCalls n => JObj [("has_indirect_calls", JObj [("min", JNum n)])]
  | Constant n => JObj [("constant", JNum n)]
  | CalleeMatches q => JObj [("callee_matches", predicate_value q)]
  | CallerMatches q => JObj [("caller_matches", predicate_value q)]
  | All ps => JObj [("all", JArr (predicate_value <$> ps))]
  | Any ps => JObj [("any", JArr (predicate_value <$> ps))]
  | Not q => JObj [("not", predicate_value q)]
  | ReachableFrom r l => JObj [("reachable_from", JObj [("root_ea", JNum r); ("levels", JNum l)])]
  end.

(** Every number of a predicate is in the range of its field. *)
Fixpoint predicate_ok (p : Predicate) : Prop :=
  match p with
  | HasIndirectCalls n => is_u32 n
  | Constant n => is_u64 n
  | ReachableFrom r l => is_u64 r /\ is_u32 l
  | CalleeMatches q | CallerMatches q | Not q => predicate_ok q
  | All ps | Any ps => (fix go l := match l with [] => True | q :: l' => predicate_ok q /\ go l' end) ps
  | _ => True
  end.

Lemma de_min_obj n : is_u32 n -> de_min (JObj [("min", JNum n)]) = inr n.
Proof. intros H%de_u32_num. cbv -[de_u32]. by rewrite !H. Qed.

Lemma de_reach_obj r l : is_u64 r -> is_u32 l -> de_reach (JObj [("root_ea", JNum r); ("levels", JNum l)]) = inr (r, l).
Proof. intros H1%de_u64_num H2%de_u32_num. cbv -[de_u64 de_u32]. by rewrite !H1, !H2. Qed.

(** The decoder of an object whose key is one of the names. *)
Ltac variant := cbn [predicate_value Predicate_de]; rewrite ?bool_decide_false by discriminate; rewrite bool_decide_true by reflexivity.

Lemma predicate_decoded p : predicate_ok p -> Predicate_de (predicate_value p) = inr p.
Proof.
  assert (forall ps, Forall (fun q => predicate_ok q -> Predicate_de (predicate_value q) = inr q) ps ->
    ((fix go l := match l with [] => True | q :: l' => predicate_ok q /\ go l' end) ps) ->
    seqD ((fix go (l : list Value) := match l with [] => [] | y :: l' => Predicate_de y :: go l' end) (predicate_value <$> ps)) = inr ps) as Hps.
  { induction 1 as [|q ps Hq _ IH]; [done|]. intros [H1 H2]. cbn [fmap list_fmap seqD]. rewrite (Hq H1). cbn [bindD].
    fold (fmap (M:=list) predicate_value). by rewrite (IH H2). }
  induction p as [s|s|s|n|n|p IH|p IH|ps IH|ps IH|p IH|r l] using Predicate_nested_ind; intros Hp; variant; try done.
  - by rewrite de_min_obj.
  - by rewrite de_u64_num.
  - by rewrite IH.
  - by rewrite IH.
  - by rewrite Hps.
  - by rewrite Hps.
  - by rewrite IH.
  - destruct Hp. by rewrite de_reach_obj.
Qed.

Lemma bindD_inr {A B} (r : De A) (k : A -> De B) b : bindD r k = inr b <-> exists a, r = inr a /\ k a = inr b.
Proof. destruct r as [e|a]; cbn; split; [done|by intros (? & [=] & _)|eauto|by intros (? & [= <-] & ?)]. Qed.

(** [decoded H]: take a decoder that succeeded apart. *)
Ltac decoded H := repeat (let x := fresh "x" in let E := fresh "E" in apply bindD_inr in H as (x & E & H)).

Lemma seqD_inr {A} (rs : list (De A)) l : seqD rs = inr l <-> rs = inr <$> l.
Proof.
  revert l. induction rs as [|r rs IH]; intros l; cbn [seqD].
  - destruct l; split; try done; by intros [=].
  - rewrite bindD_inr. setoid_rewrite bindD_inr. setoid_rewrite IH. split.
    + by intros (a & -> & l' & -> & [= <-]).
    + destruct l as [|a l]; [done|]. intros [= -> ->]. exists a. split; [done|]. by exists l.
Qed.

Lemma de_u32_inr v n : de_u32 v = inr n -> is_u32 n.
Proof. destruct v; try done. unfold de_u32, de_uint, is_u32. case_bool_decide; [|done]. intros [= <-]. lia. Qed.

Lemma de_u64_inr v n : de_u64 v = inr n -> is_u64 n.
Proof. destruct v; try done. unfold de_u64, de_uint, is_u64, u64_max. case_bool_decide; [|done]. intros [= <-]. lia. Qed.

Lemma parsed_u64 radix s z : (2 <= radix)%Z -> from_str_radix radix u64_max s = inr z -> is_u64 z.
Proof. intros Hr H%from_str_radix_range; [|done..]. unfold is_u64. unfold u64_max in H. lia. Qed.

Lemma de_ea_inr v n : de_ea v = inr n -> is_u64 n.
Proof.
  destruct v as [| |m| |s0| |]; try done.
  - cbn [de_ea as_u64]. case_bool_decide; [|done]. by intros [= <-].
  - cbn [de_ea]. destruct (match strip_prefix "0x" _ with Some _ => _ | None => _ end) as [hex|];
      [destruct (parse_hex_u64 hex) eqn:E|destruct (parse_u64 (trim s0)) eqn:E]; try done; intros [= <-]; (eapply parsed_u64; [|exact E]; lia).
Qed.

Lemma de_opt_ea_inr v o n : de_opt_ea v = inr o -> o = Some n -> is_u64 n.
Proof.
  intros H ->. assert (exists a, de_ea v = inr a /\ inr (Some a) = (inr (Some n) : De (option Z))) as (a & Ha & [= ->]); [|by eapply de_ea_inr].
  apply bindD_inr. by destruct v.
Qed.

Lemma de_ea_list_inr v l : de_ea_list v = inr l -> Forall is_u64 l.
Proof.
  destruct v as [| | | | |vs|]; try done. cbn [de_ea_list]. rewrite seqD_inr. revert l.
  induction vs as [|v vs IH]; intros [|n l] H; try done. injection H as Hv Hvs. constructor; [by eapply de_ea_inr|by apply IH].
Qed.

Lemma field_inr {A} (P : A -> Prop) kvs k (de : Value -> De A) missing a :
  field kvs k de missing = inr a -> (forall v, de v = inr a -> P a) -> (missing = inr a -> P a) -> P a.
Proof. unfold field. destruct (assoc k kvs) as [v|]; eauto. Qed.

Lemma Budgets_de_ok kvs b : Budgets_de kvs = inr b -> is_u32 (depth b) /\ is_u32 (max_functions b).
Proof.
  unfold Budgets_de. intros H. decoded H. injection H as <-. cbn [depth max_functions].
  split; eapply (field_inr is_u32); eauto using de_u32_inr; by intros [= <-].
Qed.

Lemma opt_field_inr kvs k o n : field kvs k de_opt_ea (inr None) = inr o -> o = Some n -> is_u64 n.
Proof. unfold field. destruct (assoc k kvs) as [v|]; [apply de_opt_ea_inr|by intros [= <-]]. Qed.

Lemma request_in_range v r : WorkflowRequest_de v = inr r -> request_ok r.
Proof.
  destruct v as [| | | | | |kvs]; try done. cbn [WorkflowRequest_de]. intros H. decoded H. injection H as <-.
  split; [|by eapply Budgets_de_ok]. cbn [req_ea target_ea roots]. intros n [->|[->|Hn]].
  - eapply (opt_field_inr _ _ (Some n)); [eassumption|reflexivity].
  - eapply (opt_field_inr _ _ (Some n)); [eassumption|reflexivity].
  - apply (field_inr (Forall is_u64)) in E4; [by rewrite Forall_forall in E4; apply E4|intros v; apply de_ea_list_inr|by intros [= <-]].
Qed.

Lemma de_min_inr v n : de_min v = inr n -> is_u32 n.
Proof.
  destruct v as [| | | | |[|a [|]]|kvs]; try done; cbn [de_min]; [apply de_u32_inr|]. intros H. decoded H.
  unfold field in H. destruct (assoc "min" kvs); [by eapply de_u32_inr|done].
Qed.

Lemma de_reach_inr v r l : de_reach v = inr (r, l) -> is_u64 r /\ is_u32 l.
Proof.
  destruct v as [| | | | |[|a [|b [|]]]|kvs]; try done; cbn [de_reach]; intros H; decoded H; injection H as -> ->.
  - split; [by eapply de_u64_inr|by eapply de_u32_inr].
  - unfold field in *. destruct (assoc "root_ea" kvs), (assoc "levels" kvs); try done. split; [by eapply de_u64_inr|by eapply de_u32_inr].
Qed.

(** Every predicate that is accepted is in range: by the form of the result. *)
Lemma predicates_in_range vs ps :
  Forall (fun q => forall v, Predicate_de v = inr q -> predicate_ok q) ps ->
  seqD ((fix go (l : list Value) := match l with [] => [] | y :: l' => Predicate_de y :: go l' end) vs) = inr ps ->
  (fix go l := match l with [] => True | q :: l' => predicate_ok q /\ go l' end) ps.
Proof.
  intros Hps. revert vs. induction Hps as [|q ps Hq _ IH]; intros vs; [done|]. destruct vs as [|v vs]; [done|].
  cbn [seqD]. intros H. decoded H. injection H as -> ->. split; [by eapply Hq|by eapply IH].
Qed.

Lemma predicate_in_range v p : Predicate_de v = inr p -> predicate_ok p.
Proof.
  revert v. induction p as [s|s|s|n|n|p IH|p IH|ps IH|ps IH|p IH|r l] using Predicate_nested_ind; intros v Hv; try exact I;
    (destruct v as [| | | | | |[|[k x] [|]]]; try done; cbn [Predicate_de] in Hv;
     repeat (case_bool_decide; [decoded Hv; try discriminate Hv|]); try discriminate Hv; injection Hv; intros; subst).
  - by eapply de_min_inr.
  - by eapply de_u64_inr.
  - by eapply IH.
  - by eapply IH.
  - destruct x as [| | | | |vs|]; try done. by eapply predicates_in_range.
  - destruct x as [| | | | |vs|]; try done. by eapply predicates_in_range.
  - by eapply IH.
  - destruct x0 as [r l]. by eapply de_reach_inr.
Qed.

Definition query_ok (q : EvidenceQuery) : Prop := Forall predicate_ok (default [] (q_all q)) /\ is_u64 (q_limit q).
Definition query_value (q : EvidenceQuery) : Value :=
  JObj [("all", jopt (fun ps => JArr (predicate_value <$> ps)) (q_all q)); ("limit", JNum (q_limit q))].

Abbreviation de_preds := (de_option (de_vec Predicate_de)).

Lemma de_preds_value o :
  Forall predicate_ok (default [] o) -> de_preds (jopt (fun ps => JArr (predicate_value <$> ps)) o) = inr o.
Proof.
  destruct o as [ps|]; [|done]. cbn [default id jopt de_option de_vec]. intros Hps. rewrite seqD_fmap; [done|].
  eapply Forall_impl; [exact Hps|]. apply predicate_decoded.
Qed.

Lemma de_preds_inr v o : de_preds v = inr o -> Forall predicate_ok (default [] o).
Proof.
  intros H. destruct v as [| | | | |vs|]; try done; [by injection H as <-|]. cbn [de_option de_vec] in H. decoded H. injection H as <-.
  cbn [default id]. apply seqD_inr in E. revert x E. induction vs as [|v vs IH]; intros [|q ps] H; try done. injection H as Hv Hvs.
  constructor; [by eapply predicate_in_range|by apply IH].
Qed.

Lemma query_decoded q : query_ok q -> EvidenceQuery_de (query_value q) = inr q.
Proof.
  destruct q as [o n]. intros [Ho Hn]. cbn [q_all q_limit] in *. pose proof (de_preds_value o Ho) as E1. pose proof (de_u64_num n Hn) as E2.
  unfold query_value. cbn [q_all q_limit]. revert E1 E2. generalize (jopt (fun ps => JArr (predicate_value <$> ps)) o) (JNum n).
  intros vo vn E1 E2. revert E1. unfold EvidenceQuery_de. generalize de_preds. intros dp E1.
  cbv -[de_u64]. by rewrite !E1, !E2.
Qed.

Lemma query_in_range v q : EvidenceQuery_de v = inr q -> query_ok q.
Proof.
  assert (is_u64 default_limit) as Hd by (unfold default_limit, is_u64, u64_modulus; lia).
  destruct v as [| | | | |[|x [|y [|]]]|kvs]; try done; cbn [EvidenceQuery_de]; intros H; decoded H; injection H as <-; split; cbn [q_all q_limit];
    eauto using de_preds_inr, de_u64_inr.
  - apply (field_inr (fun o => Forall predicate_ok (default [] o))) in E0; [done|intros v; apply de_preds_inr|by intros [= <-]].
  - apply (field_inr is_u64) in E1; [done|intros v; apply de_u64_inr|by intros [= <-]].
Qed.

(** ** The spellings of a request

    An address may be a number, a hexadecimal or a decimal text; what may be
    missing may be left out or, where the field is an option, be null; the
    entries come in any order, beside entries the decoder does not know. *)

Definition spells_ea (n : Z) (v : Value) : Prop := v = JNum n \/ v = JStr (show_0x n) \/ v = JStr (show_dec n).
Definition spells_opt {A} (spells : A -> Value -> Prop) (o : option A) (a : option Value) : Prop :=
  match o with Some x => exists v, a = Some v /\ spells x v | None => a = None \/ a = Some JNull end.
Definition spells_or {A} (spells : A -> Value -> Prop) (dflt : A) (x : A) (a : option Value) : Prop :=
  match a with Some v => spells x v | None => x = dflt end.

Definition spells_list {A} (spells : A -> Value -> Prop) (l : list A) (v : Value) : Prop :=
  exists vs, v = JArr vs /\ Forall2 spells l vs.

Record spells_request (kvs : list (string * Value)) (r : WorkflowRequest) : Prop := {
  sr_keys : NoDup kvs.*1;
  sr_workflow : assoc "workflow" kvs = Some (JStr (workflow r));
  sr_ea : spells_opt spells_ea (req_ea r) (assoc "ea" kvs);
  sr_target : spells_opt spells_ea (target_ea r) (assoc "target_ea" kvs);
  sr_name : spells_opt (fun s v => v = JStr s) (req_name r) (assoc "name" kvs);
  sr_roots : spells_or (spells_list spells_ea) [] (roots r) (assoc "roots" kvs);
  sr_depth : spells_or (fun n v => v = JNum n) default_depth (depth (budgets r)) (assoc "depth" kvs);
  sr_max : spells_or (fun n v => v = JNum n) default_max_functions (max_functions (budgets r)) (assoc "max_functions" kvs);
  sr_detail : spells_or (fun s v => v = JStr s) "" (detail_level (budgets r)) (assoc "detail" kvs);
  sr_noise : spells_or (fun b v => v = JBool b) false (include_noise (budgets r)) (assoc "include_noise" kvs);
}.

Record spells_query (kvs : list (string * Value)) (q : EvidenceQuery) : Prop := {
  sq_keys : NoDup kvs.*1;
  sq_all : spells_opt (spells_list (fun p v => v = predicate_value p)) (q_all q) (assoc "all" kvs);
  sq_limit : spells_or (fun n v => v = JNum n) default_limit (q_limit q) (assoc "limit" kvs);
}.

(** A field of the object is read as [x], or missing and defaulted to it. *)
Definition reads {A} (de : Value -> De A) (missing : De A) (a : option Value) (x : A) : Prop :=
  match a with Some v => de v = inr x | None => missing = inr x end.

Lemma field_reads {A} kvs k (de : Value -> De A) missing x :
  reads de missing (assoc k kvs) x -> field kvs k de missing = inr x.
Proof. unfold field, reads. by destruct (assoc k kvs). Qed.

(** The visit of an object whose known fields can all be read. *)
Definition readable (fields : list (string * (Value -> De unit))) (kvs : list (string * Value)) : Prop :=
  Forall (fun f => forall v, assoc f.1 kvs = Some v -> f.2 v = inr tt) fields.

Lemma reads_field {A} kvs k (de : Value -> De A) missing x :
  reads de missing (assoc k kvs) x -> forall v, assoc k kvs = Some v -> decodes_as de v = inr tt.
Proof. intros H v Hv. rewrite Hv in H. unfold decodes_as. cbn in H. by rewrite H. Qed.

Lemma assoc_elem k v kvs : NoDup kvs.*1 -> (k, v) ∈ kvs -> assoc k kvs = Some v.
Proof.
  induction kvs as [|[k' v'] kvs IH]; [by intros _ ?%elem_of_nil|]. cbn [fmap list_fmap fst assoc]. intros [Hk Hn]%NoDup_cons [[= -> ->]|H]%elem_of_cons.
  - by rewrite bool_decide_true.
  - rewrite bool_decide_false; [by apply IH|]. intros ->. apply Hk. by apply (list_elem_of_fmap_2 fst) in H.
Qed.

Lemma visit_reads fields kvs : NoDup kvs.*1 -> readable fields kvs -> visit fields kvs = inr tt.
Proof.
  intros Hn Hr. assert (forall k v, (k, v) ∈ kvs -> forall f, f ∈ fields -> f.1 = k -> f.2 v = inr tt) as H.
  { intros k v Hkv f Hf <-. unfold readable in Hr. rewrite Forall_forall in Hr. apply (Hr f Hf). by apply assoc_elem. }
  clear Hn Hr. induction kvs as [|[k v] kvs IH]; [done|]. cbn [visit].
  assert (match List.find (fun f => bool_decide (f.1 = k)) fields with Some f => f.2 v | None => inr tt end = inr tt) as ->.
  { destruct (List.find _ fields) as [f|] eqn:E; [|done]. apply List.find_some in E as [Hf Hk%bool_decide_eq_true].
    apply (H k v); [left|by apply list_elem_of_In|done]. }
  cbn [bindD]. apply IH. intros k' v' Hkv. apply H. by right.
Qed.

Lemma assoc_collected k kvs : k ∉ own_fields.*1 -> assoc k (collected kvs) = assoc k kvs.
Proof.
  intros Hk. induction kvs as [|[k' v'] kvs IH]; [done|]. unfold collected in *. rewrite filter_cons. cbn [assoc].
  case_decide as Hd; cbn [assoc fst] in *; [by rewrite IH|]. rewrite bool_decide_false; [done|]. intros <-. by apply Hk.
Qed.

Lemma collected_keys kvs : NoDup kvs.*1 -> NoDup (collected kvs).*1.
Proof.
  unfold collected. induction kvs as [|[k v] kvs IH]; [done|]. cbn [fmap list_fmap fst]. intros [Hk Hn]%NoDup_cons. rewrite filter_cons.
  case_decide; [|by apply IH]. cbn [fmap list_fmap fst]. apply NoDup_cons. split; [|by apply IH].
  intros ([k' v'] & -> & [_ Hin]%list_elem_of_filter)%list_elem_of_fmap. apply Hk. by apply (list_elem_of_fmap_2 fst) in Hin.
Qed.

(** *** The fields *)

Lemma decimal_no_x n r c : (0 <= n)%Z -> show_dec n <> "0" +:+ String c r \/ (c <> "x"%char /\ c <> "X"%char).
Proof.
  intros Hn. destruct (show_radix_digits 10 n Hn ltac:(lia)) as [Hd _]. unfold show_dec.
  destruct (decide (c = "x"%char \/ c = "X"%char)) as [Hc|Hc]; [left|right; tauto].
  intros E. rewrite E in Hd. rewrite all_chars_app in Hd. apply andb_true_iff in Hd as [_ Hd]. cbn [all_chars] in Hd.
  apply andb_true_iff in Hd as [Hd _]. destruct Hc as [-> | ->]; vm_compute in Hd; discriminate Hd.
Qed.

Lemma de_ea_spelled n v : is_u64 n -> spells_ea n v -> de_ea v = inr n.
Proof.
  intros Hn [->|[->| ->]]; [by apply de_ea_num|by apply de_ea_shown|]. pose proof Hn as [H0 _]. cbn [de_ea]. unfold show_dec at 1 2 3.
  rewrite trim_show by lia.
  assert (forall c, c = "x"%char \/ c = "X"%char -> strip_prefix (String "0" (String c "")) (show_radix 10 n) = None) as Hs.
  { intros c Hc. destruct (strip_prefix _ _) as [r|] eqn:E; [|done]. apply strip_prefix_Some in E.
    destruct (decimal_no_x n r c H0) as [Hx|[]]; [by destruct Hx|by destruct Hc]. }
  rewrite (Hs "x"%char), (Hs "X"%char) by auto. unfold parse_u64. by rewrite parse_show by (lia || done).
Qed.

Lemma reads_opt_ea o a : (forall n, o = Some n -> is_u64 n) -> spells_opt spells_ea o a -> reads de_opt_ea (inr None) a o.
Proof.
  intros Hn. destruct o as [n|]; cbn [spells_opt]; [|by intros [-> | ->]]. intros (v & -> & Hv). cbn [reads].
  pose proof (de_ea_spelled n v (Hn n eq_refl) Hv) as E. unfold de_opt_ea. rewrite E. by destruct v.
Qed.

Lemma reads_name o a : spells_opt (fun s v => v = JStr s) o a -> reads (de_option de_string) (inr None) a o.
Proof. destruct o as [s|]; cbn [spells_opt]; [by intros (v & -> & ->)|by intros [-> | ->]]. Qed.

Lemma reads_roots l a : Forall is_u64 l -> spells_or (spells_list spells_ea) [] l a -> reads de_ea_list (inr []) a l.
Proof.
  intros Hl. destruct a as [v|]; cbn [spells_or reads]; [|by intros ->]. intros (vs & -> & H). cbn [de_ea_list]. rewrite seqD_inr.
  induction H as [|n v l vs Hv _ IH]; [done|]. apply Forall_cons in Hl as [Hn Hl]. cbn [fmap list_fmap]. by rewrite (de_ea_spelled n v), IH.
Qed.

Lemma reads_scalar {A} (de : Value -> De A) (en : A -> Value) dflt x a :
  de (en x) = inr x -> spells_or (fun x v => v = en x) dflt x a -> reads de (inr dflt) a x.
Proof. intros Hx. destruct a as [v|]; cbn [spells_or reads]; by intros ->. Qed.

Lemma request_spelled kvs r : request_ok r -> spells_request kvs r -> WorkflowRequest_de (JObj kvs) = inr r.
Proof.
  intros (Ha & Hd & Hm) [K S1 S2 S3 S4 S5 S6 S7 S8 S9]. destruct r as [w e t n rs [d m lvl noise]].
  cbn [workflow req_ea target_ea req_name roots budgets depth max_functions detail_level include_noise] in *.
  assert (reads de_string (inl (MissingField "workflow")) (assoc "workflow" kvs) w) as R1 by (by rewrite S1).
  apply reads_opt_ea in S2 as R2; [|intros k ->; apply Ha; by left]. apply reads_opt_ea in S3 as R3; [|intros k ->; apply Ha; by right; left].
  apply reads_name in S4 as R4. apply reads_roots in S5 as R5; [|apply Forall_forall; intros k Hk; apply Ha; by right; right].
  apply (reads_scalar de_u32 JNum) in S6 as R6; [|by apply de_u32_num]. apply (reads_scalar de_u32 JNum) in S7 as R7; [|by apply de_u32_num].
  apply (reads_scalar de_string JStr) in S8 as R8; [|done]. apply (reads_scalar de_bool JBool) in S9 as R9; [|done].
  rewrite <- assoc_collected in R6, R7, R8, R9 by (apply (bool_decide_unpack _); vm_compute; exact Logic.I).
  cbn [WorkflowRequest_de]. rewrite visit_reads; [|done|].
  2:{ unfold own_fields. repeat apply Forall_cons_2; [..|apply Forall_nil_2]; cbn [fst snd]; eapply reads_field; eassumption. }
  cbn [bindD]. rewrite !(field_reads _ _ _ _ _ R1), !(field_reads _ _ _ _ _ R2), !(field_reads _ _ _ _ _ R3),
    !(field_reads _ _ _ _ _ R4), !(field_reads _ _ _ _ _ R5). cbn [bindD]. unfold Budgets_de. rewrite visit_reads.
  - cbn [bindD]. by rewrite !(field_reads _ _ _ _ _ R6), !(field_reads _ _ _ _ _ R7), !(field_reads _ _ _ _ _ R8), !(field_reads _ _ _ _ _ R9).
  - by apply collected_keys.
  - repeat apply Forall_cons_2; [..|apply Forall_nil_2]; cbn [fst snd]; eapply reads_field; eassumption.
Qed.

Lemma query_spelled kvs q : query_ok q -> spells_query kvs q -> EvidenceQuery_de (JObj kvs) = inr q.
Proof.
  destruct q as [o l]. intros [Ho Hl] [K S1 S2]. cbn [q_all q_limit] in *.
  assert (reads de_preds (inr None) (assoc "all" kvs) o) as R1.
  { destruct o as [ps|]; cbn [spells_opt default] in *; [|by destruct S1 as [-> | ->]]. destruct S1 as (v & -> & vs & -> & H).
    assert (vs = predicate_value <$> ps) as -> by (clear -H; induction H as [|p v ps vs -> _ IH]; [done|]; by rewrite IH).
    exact (de_preds_value (Some ps) Ho). }
  apply (reads_scalar de_u64 JNum) in S2 as R2; [|by apply de_u64_num]. cbn [EvidenceQuery_de]. rewrite visit_reads; [|done|].
  - cbn [bindD]. by rewrite (field_reads _ _ _ _ _ R1), (field_reads _ _ _ _ _ R2).
  - repeat apply Forall_cons_2; [..|apply Forall_nil_2]; cbn [fst snd]; eapply reads_field; eassumption.
Qed.

Section Wire.
Context (describe : DeError -> string).

(** C34. The worker understands every request of the protocol however it is
    spelled: each workflow request whose numbers are in range is read as
    itself from every object that spells it, with its entries in any order
    and beside unknown ones, each address as a number or as the text of its
    hexadecimal (0x) or decimal form, and each entry at its default left out
    (or null for an optional one); and likewise each evidence query, its
    predicates nested to any depth in their wire form, where every address is
    a number. *)
Theorem spellings_read :
  (forall kvs r, request_ok r -> spells_request kvs r -> parse_request describe (JObj kvs) = inr r)
  /\ (forall kvs q, query_ok q -> spells_query kvs q -> parse_query describe (JObj kvs) = inr q).
Proof.
  unfold parse_request, parse_query, described. split.
  - intros kvs r Hr Hs. by rewrite (request_spelled kvs r).
  - intros kvs q Hq Hs. by rewrite (query_spelled kvs q).
Qed.
End Wire.

(** [reachable_from] with its root as text, the way the tool's description
    shows it, is refused whatever the text. *)
Lemma root_as_text_refused s l :
  Predicate_de (JObj [("reachable_from", JObj [("root_ea", JStr s); ("levels", JNum l)])])
  = inl (Mismatch "an unsigned integer" (JStr s)).
Proof. reflexivity. Qed.

Definition brief (e : DeError) : string := "bad".
Definition asked : WorkflowRequest := {|
  workflow := "reference_context"; req_ea := Some 0x401000%Z; target_ea := None; req_name := None; roots := [0x402000%Z; 16%Z];
  budgets := {| depth := 3; max_functions := 10; detail_level := ""; include_noise := true |} |}.
Definition asked_fields : list (string * Value) :=
  [("depth", JNum 3); ("ea", JStr "0x401000"); ("note", JNull); ("workflow", JStr "reference_context"); ("name", JNull);
   ("roots", JArr [JNum 0x402000; JStr "16"]); ("include_noise", JBool true)].
Definition asked_query : EvidenceQuery := {|
  q_all := Some [Any [Import "VirtualAlloc"; CalleeMatches (HasIndirectCalls 2)]; Not (Constant 0x10001)]; q_limit := default_limit |}.

Lemma spellings_read_witness :
  parse_request brief (JObj asked_fields) = inr asked
  /\ parse_query brief (JObj [("all", JArr (predicate_value <$> default [] (q_all asked_query)))]) = inr asked_query.
Proof.
  destruct (spellings_read brief) as [Hr Hq]. split; [apply Hr|apply Hq].
  - split; [|split; split; vm_compute; congruence]. intros n [[= <-]|[[=]|Hn]]; [split; vm_compute; congruence|].
    cbn [asked roots] in Hn. repeat (apply elem_of_cons in Hn as [->|Hn]; [split; vm_compute; congruence|]). by apply elem_of_nil in Hn.
  - split; try reflexivity.
    + apply (bool_decide_unpack _). vm_compute. exact Logic.I.
    + eexists. split; [reflexivity|]. right. left. reflexivity.
    + left. reflexivity.
    + right. reflexivity.
    + eexists. split; [reflexivity|]. constructor; [by left|]. constructor; [by right; right|]. constructor.
  - split; [|split; vm_compute; congruence]. repeat constructor; vm_compute; congruence.
  - split; [|..].
    + apply (bool_decide_unpack _). vm_compute. exact Logic.I.
    + eexists. split; [reflexivity|]. eexists. split; [reflexivity|]. repeat constructor.
    + reflexivity.
Defined.

(** A request read from an object without [detail] has the empty level, not
    the "summary" of [Budgets::default]. *)
Lemma omitted_detail w :
  WorkflowRequest_de (JObj [("workflow", JStr w)]) =
    inr {| workflow := w; req_ea := None; target_ea := None; req_name := None; roots := [];
           budgets := {| depth := 2; max_functions := 10; detail_level := ""; include_noise := false |} |}
  /\ detail_level Budgets_default = "summary".
Proof. split; reflexivity. Qed.

(** Two requests with the same key in the cache are the same request. *)
Lemma cache_key_injective to_text r r' rev rev' :
  (forall v v' t, to_text v = Some t -> to_text v' = Some t -> v = v') -> is_Some (to_text (request_value r)) ->
  is_Some (to_text (request_value r')) -> request_ok r -> request_ok r' ->
  cache_key to_text r rev = cache_key to_text r' rev' -> r = r' /\ rev = rev'.
Proof.
  intros Hinj [t Ht] [t' Ht'] Hr Hr'. unfold cache_key. rewrite Ht, Ht'. cbn [default id]. intros [= _ <- <-]. split; [|done].
  pose proof (request_decoded r Hr) as E. rewrite (Hinj _ _ t Ht Ht'), request_decoded in E by done. congruence.
Qed.
