(* ===== verification/Worker.v ===== *)
(** * Worker: one worker process, its index and its caches

    Models the rest of the worker's state ([rmcp-worker/src/state.rs]): the
    analysis index and the workflow cache beside the backend and the audit
    trail of [Mutations], the handlers of [rmcp-worker/src/dispatch.rs] that
    use them, and [handle], which answers a request and drops the cache after
    a successful mutation.  Parameters: the decoders of a query and of a
    workflow request (those of the program are in [Requests]), the JSON
    serializer of cache keys, [to_lowercase].
    Saving the index to disk ([index.build] ignores its outcome) is left out;
    the other reading handlers are in [Analyses]. *)

From stdpp Require Import base list gmap strings sorting relations.
From Stdlib Require Import ZArith Lia Ascii.
From S2P Require Import Prelude Text Json Errors Protocol Bfs Index Backend Mutations Transforms Workflow.

Local Open Scope rmcp_scope.

(** The names under which the cached analyses other than the workflows are kept. *)
Definition analysis_caches : list string := ["deep_function"; "deep_dataflow"; "value_propagate"; "intel_crypto"].

Definition MUTATING_METHODS : list string :=
  ["patch_bytes"; "set_comment"; "rename"; "set_type"; "func.create"; "func.delete"; "func.resize";
   "hr.lvar_rename"; "deep.retype"; "types.apply"; "deob.apply"; "plan.apply"; "snapshot.restore"; "analyze_wait"].

(** [format!("{ea:#x}|{req_maturity}|{max_insns}")]. *)
Definition microcode_key (ea maturity max_insns : Z) : string :=
  show_0x ea +:+ "|" +:+ show_dec maturity +:+ "|" +:+ show_dec max_insns.

(** [params.get(key).and_then(as_u64).unwrap_or(d).clamp(lo, hi)]. *)
Definition clamped (params : Value) (key : string) (d lo hi : Z) : Z :=
  Z.max lo (Z.min hi (default d (v ← get key params; as_u64 v))).

Definition hit_value (h : EvidenceHit) : Value :=
  JObj [("function", JStr (hit_function h)); ("ea_start", JNum (hit_start h)); ("ea_end", JNum (hit_end h));
        ("score", jnat (score h)); ("matched", JArr (JStr <$> matched h))].

Definition query_answer (md5 : string) (hs : list EvidenceHit) : Value :=
  JObj [("count", jnat (length hs)); ("md5", JStr md5); ("hits", JArr (hit_value <$> hs))].

Definition cache_answer (was_cached : bool) (c : WorkflowCache) (v : Value) : Value :=
  JObj [("cached", JBool was_cached); ("cache_hits", JNum (hits c)); ("result", v)].

Section Worker.
Context {B : Type} `{!IdaBackend B}.
Context (to_lowercase : string -> string) (to_text : Value -> option string).
Context (parse_query : Value -> string + EvidenceQuery) (parse_request : Value -> string + WorkflowRequest).

Record Process := {
  ws : WorkerState B;
  closed : bool;
  w_index : option (AnalysisIndex * string);
  w_cache : WorkflowCache;
}.

Definition Process_new : Process :=
  {| ws := {| backend := None; audit := [] |}; closed := false; w_index := None; w_cache := WorkflowCache_default |}.

Definition set_ws (s : WorkerState B) (w : Process) : Process :=
  {| ws := s; closed := closed w; w_index := w_index w; w_cache := w_cache w |}.
Definition set_index (i : AnalysisIndex * string) (w : Process) : Process :=
  {| ws := ws w; closed := closed w; w_index := Some i; w_cache := w_cache w |}.
Definition set_cache (c : WorkflowCache) (w : Process) : Process :=
  {| ws := ws w; closed := closed w; w_index := w_index w; w_cache := c |}.

(** "Rebuild on demand": the index of the current revision. *)
Definition fresh_index (b : B) (w : Process) : Result (AnalysisIndex * string) * Process :=
  let rebuild :=
    match build_index b with inl e => (Err e, w) | inr im => (Ok im, set_index im w) end in
  match w_index w with
  | Some im => if (idx_revision im.1 =? revision b)%Z then (Ok im, w) else rebuild
  | None => rebuild
  end.

Definition do_db_open (params : Value) (w : Process) : Result Value * Process :=
  match (p <-? ok_or_else (v ← get "path" params; as_str v) (Worker "missing path");
         b <-? need_backend (ws w); Ok (p, b)) with
  | inl e => (Err e, w)
  | inr (p, b) => let '(r, b') := open_db p b in (r, set_ws {| backend := Some b'; audit := audit (ws w) |} w)
  end.

Definition do_db_close (w : Process) : Result Value * Process :=
  match need_backend (ws w) with
  | inl e => (Err e, w)
  | inr b => let '(r, b') := close_db b in
      (_ <-? r; Ok (JObj [("closed", JBool true)]), set_ws {| backend := Some b'; audit := audit (ws w) |} w)
  end.

Definition do_analyze_wait (w : Process) : Result Value * Process :=
  match need_backend (ws w) with
  | inl e => (Err e, w)
  | inr b => let '(r, b') := analyze_wait b in (r, set_ws {| backend := Some b'; audit := audit (ws w) |} w)
  end.

Definition do_index_build (w : Process) : Result Value * Process :=
  match (b <-? need_backend (ws w); build_index b) with
  | inl e => (Err e, w)
  | inr im => (Ok (summary im.1), set_index im w)
  end.

Definition do_index_query (params : Value) (w : Process) : Result Value * Process :=
  match parse_query (default (JObj []) (get "query" params)) with
  | inl e => (Err (Worker ("bad query: " +:+ e)), w)
  | inr q =>
      match need_backend (ws w) with
      | inl e => (Err e, w)
      | inr b =>
          let '(r, w') := fresh_index b w in
          (im <-? r; Ok (query_answer im.2 (query to_lowercase im.1 q)), w')
      end
  end.

Definition do_index_status (w : Process) : Result Value :=
  match w_index w with
  | None => Ok (JObj [("built", JBool false)])
  | Some (idx, md5) =>
      b <-? need_backend (ws w);
      Ok (JObj [("schema_version", JNum (schema_version idx)); ("binary_md5", JStr (binary_md5 idx));
        ("revision", JNum (idx_revision idx)); ("functions", jnat (size (functions idx)));
        ("strings", jnat (length (idx_strings idx))); ("md5", JStr md5);
        ("current", JBool (idx_revision idx =? revision b)%Z)])
  end.

(** A lookup that, on a miss, computes and stores. *)
Definition through_cache (k : string * string * Z) (compute : outcome (Result Value)) (w : Process)
  : outcome (Result Value * Process) :=
  let '(hit, c) := cache_get k (w_cache w) in
  match hit with
  | Some v => Done (Ok (cache_answer true c v), set_cache c w)
  | None =>
      r <~ compute;
      match r with
      | inl e => Done (Err e, set_cache c w)
      | inr v => Done (Ok (cache_answer false c v), set_cache (cache_put k v c) w)
      end
  end.

Definition do_workflow_run (params : Value) (w : Process) : outcome (Result Value * Process) :=
  match parse_request (default params (get "workflow_req" params)) with
  | inl e => Done (Err (Worker ("bad workflow request: " +:+ e)), w)
  | inr req =>
      match need_backend (ws w) with
      | inl e => Done (Err e, w)
      | inr b =>
          let '(r, w') := fresh_index b w in
          match r with
          | inl e => Done (Err e, w')
          | inr (idx, _) =>
              through_cache (cache_key to_text req (revision b)) (run_workflow to_lowercase b idx req) w'
          end
      end
  end.

Definition do_hr_microcode (params : Value) (w : Process) : outcome (Result Value * Process) :=
  match (ea <-? ea_param params "ea"; b <-? need_backend (ws w); Ok (ea, b)) with
  | inl e => Done (Err e, w)
  | inr (ea, b) =>
      let m := clamped params "maturity" 0 0 7 in
      let k := clamped params "max_insns" 2000 1 20000 in
      through_cache ("hr_microcode", microcode_key ea m k, revision b) (Done (hr_microcode b ea m k)) w
  end.

Definition do_deob_propose (params : Value) (w : Process) : Result Value * Process :=
  match (target <-? match ea_param params "target" with inr ea => Ok ea | inl _ => ea_param params "ea" end;
         kind_s <-? ok_or_else (v ← get "kind" params; as_str v) (Worker "missing 'kind'");
         kind <-? TransformKind_parse kind_s;
         b <-? need_backend (ws w); Ok (target, kind, b)) with
  | inl e => (Err e, w)
  | inr (target, kind, b) =>
      let '(r, w') := fresh_index b w in
      (im <-? r; propose b im.1 target kind, w')
  end.

(** The modelled arms of [dispatch] over the whole state. *)
Definition worker_dispatch (method : string) (params : Value) (w : Process)
  : option (outcome (Result Value * Process)) :=
  if bool_decide (method = "shutdown") then
    Some (Done (Ok (JObj [("bye", JBool true)]),
                {| ws := ws w; closed := true; w_index := w_index w; w_cache := w_cache w |}))
  else if bool_decide (method = "db.open") then Some (Done (do_db_open params w))
  else if bool_decide (method = "db.close") then Some (Done (do_db_close w))
  else if bool_decide (method = "revision") then
    Some (Done (b <-? need_backend (ws w); Ok (JObj [("revision", JNum (revision b))]), w))
  else if bool_decide (method = "analyze_wait") then Some (Done (do_analyze_wait w))
  else if bool_decide (method = "index.build") then Some (Done (do_index_build w))
  else if bool_decide (method = "index.query") then Some (Done (do_index_query params w))
  else if bool_decide (method = "index.status") then Some (Done (do_index_status w, w))
  else if bool_decide (method = "workflow.run") then Some (do_workflow_run params w)
  else if bool_decide (method = "hr.microcode") then Some (do_hr_microcode params w)
  else if bool_decide (method = "deob.propose") then Some (Done (do_deob_propose params w))
  else if bool_decide (method = "deob.validate") then Some (Done (do_deob_validate params (ws w), w))
  else if bool_decide (method = "deob.apply") then
    Some (rs <~ do_deob_apply params (ws w); Done (rs.1, set_ws rs.2 w))
  else
    o ← dispatch method params (ws w);
    Some (rs <~ o;
          let w' := set_ws rs.2 w in
          Done (rs.1, if is_ok rs.1 && bool_decide (method ∈ ["deep.retype"; "types.apply"])
                      then set_cache (invalidate_all (w_cache w')) w' else w')).

(** [handle] after the dispatch: the response, and the cache dropped after a
    successful mutation. *)
Definition respond (req : WorkerRequest) (rw : Result Value * Process) : WorkerResponse * Process :=
  let resp := match rw.1 with
              | inr v => WorkerResponse_ok (req_id req) v
              | inl e => WorkerResponse_err (req_id req) e
              end in
  (resp, if bool_decide (resp_error resp = None) && bool_decide (req_method req ∈ MUTATING_METHODS)
         then set_cache (invalidate_all (w_cache rw.2)) rw.2 else rw.2).

Definition handle (req : WorkerRequest) (w : Process) : option (outcome (WorkerResponse * Process)) :=
  o ← worker_dispatch (req_method req) (req_params req) w; Some (rw <~ o; Done (respond req rw)).

(** Requests answered one after the other. *)
Inductive served : list WorkerRequest -> Process -> Process -> Prop :=
  | served_nil w : served [] w w
  | served_cons req reqs w w1 w2 resp :
      handle req w = Some (Done (resp, w1)) -> served reqs w1 w2 -> served (req :: reqs) w w2.
End Worker.
Arguments Process B : clear implicits.

(** ** Cache keys of microcode requests *)

Lemma show_no_bar radix n :
  (2 <= radix <= 16)%Z -> (0 <= n)%Z -> all_chars (fun x => negb (Ascii.eqb "|" x)) (show_radix radix n) = true.
Proof.
  intros Hr Hn. eapply all_chars_impl; [|apply (show_radix_digits radix n Hn Hr)].
  intros c Hc. apply negb_true_iff. destruct (Ascii.eqb_spec "|" c) as [<-|]; [|done].
  exfalso. revert Hc. by unfold to_digit.
Qed.

Lemma show_radix_inj radix n m :
  (2 <= radix <= 16)%Z -> is_u64 n -> is_u64 m -> show_radix radix n = show_radix radix m -> n = m.
Proof.
  intros Hr Hn Hm H. apply (f_equal (from_str_radix radix u64_max)) in H.
  rewrite !parse_show in H by done. congruence.
Qed.

Lemma microcode_key_inj ea m k ea' m' k' :
  is_u64 ea -> is_u64 m -> is_u64 k -> is_u64 ea' -> is_u64 m' -> is_u64 k' ->
  microcode_key ea m k = microcode_key ea' m' k' -> ea = ea' /\ m = m' /\ k = k'.
Proof.
  assert (forall e a c, is_u64 e -> is_u64 a -> is_u64 c ->
    split_on "|" (microcode_key e a c) = [show_0x e; show_dec a; show_dec c]) as Hsplit.
  { intros e a c He Ha Hc. unfold microcode_key, show_0x, show_hex, show_dec.
    assert (forall x, "|" +:+ x = String "|" x) as Hbar by done. rewrite !Hbar. unfold is_u64 in *.
    rewrite !split_on_app, split_on_none by
      (rewrite ?all_chars_app, ?show_no_bar by lia; reflexivity). done. }
  intros He Hm Hk He' Hm' Hk' Heq. apply (f_equal (split_on "|")) in Heq.
  rewrite !Hsplit in Heq by done. 
  assert (show_0x ea = show_0x ea') as E1 by congruence.
  assert (show_dec m = show_dec m' /\ show_dec k = show_dec k') as [E2 E3] by (split; congruence).
  unfold show_0x in E1. split; [|split].
  - apply (show_radix_inj 16); [lia|done|done|]. apply (f_equal (strip_prefix "0x")) in E1.
    rewrite !strip_prefix_app in E1. exact (inj Some _ _ E1).
  - by apply show_dec_inj.
  - by apply show_dec_inj.
Qed.

(** ** Workflows read the database *)

Section Alike.
Context {B : Type} `{!IdaBackend B} (to_lowercase : string -> string).

Lemma references_alike (b b' : B) idx lvl maxf xs seen items :
  reads_alike b b' -> references b' idx lvl maxf xs seen items = references b idx lvl maxf xs seen items.
Proof.
  intros Ha. pose proof (ra_decompile _ _ Ha) as Hdec. revert seen items. induction xs as [|x xs IH]; intros seen items; [done|].
  cbn [references]. destruct (last_at_most idx (xref_from x)) as [[f_ea f]|]; [|done].
  unfold snippet. rewrite Hdec. by rewrite !IH.
Qed.

Lemma subsystem_rows_alike (b b' : B) idx lvl (eas : list Z) :
  (forall ea, decompile b' ea = decompile b ea) ->
  omap (subsystem_row b' idx lvl) eas = omap (subsystem_row b idx lvl) eas.
Proof.
  intros Hdec. induction eas as [|ea eas IH]; [done|]. cbn.
  assert (subsystem_row b' idx lvl ea = subsystem_row b idx lvl ea) as ->
    by (unfold subsystem_row, snippet; by rewrite Hdec).
  by destruct (subsystem_row b idx lvl ea); rewrite IH.
Qed.

Lemma run_workflow_alike (b b' : B) idx r :
  reads_alike b b' -> run_workflow to_lowercase b' idx r = run_workflow to_lowercase b idx r.
Proof.
  intros Ha. pose proof (ra_xrefs _ _ Ha) as Hx. pose proof (ra_decompile _ _ Ha) as Hdec. unfold run_workflow.
  assert (forall full, function_context to_lowercase b' idx r full = function_context to_lowercase b idx r full) as ->.
  { intros full. unfold function_context. destruct (ok_or_else _ _); [done|]. cbn [bindR].
    destruct (ok_or_else _ _); [done|]. cbn [bindR]. by rewrite Hx, Hdec. }
  assert (forall maxf, reference_context b' idx r maxf = reference_context b idx r maxf) as ->.
  { intros maxf. unfold reference_context. destruct (ok_or_else _ _); [done|]. cbn [bindR]. rewrite Hx.
    destruct (xrefs_to b _); [done|]. cbn [bindR]. by rewrite (references_alike b b'). }
  assert (forall maxf, subsystem_context to_lowercase b' idx r maxf = subsystem_context to_lowercase b idx r maxf) as ->.
  { intros maxf. unfold subsystem_context. destruct (match roots r with [] => _ | _ => _ end) as [|rs]; [done|].
    cbn [bindR]. destruct (List.find _ rs); [done|]. by rewrite (subsystem_rows_alike b b'). }
  done.
Qed.
End Alike.

(** Decide the comparisons of literal names. *)
Ltac compare_names :=
  repeat match goal with
    | |- context [bool_decide (?a = ?b)] =>
        first [rewrite (bool_decide_false (a = b)) by done | rewrite (bool_decide_true (a = b)) by done]
    end.

(** ** What a request does to the database *)

(** The most operations one request performs. *)
Definition ops_of (params : Value) : nat :=
  S (length (default [] (v ← get "operations" params; as_array v))
     + length (plan_operations (default JNull (get "plan" params)))).

Section Effects.
Context {B : Type} `{!IdaBackend B} `{!BackendLaws B}.

Lemma reads_alike_refl (b : B) : reads_alike b b.
Proof. done. Qed.

(** At most [k] revisions further; with none, the database reads as before. *)
Definition moved (k : nat) (b b' : B) : Prop :=
  exists j, (j <= k)%nat /\ revision b' = ((revision b + Z.of_nat j) mod u64_modulus)%Z
    /\ (j = 0%nat -> reads_alike b b').

Lemma moved_none k (b b' : B) : is_u64 (revision b) -> reads_alike b b' -> moved k b b'.
Proof.
  intros Hr Ha. exists 0%nat. split; [lia|]. split; [|done]. rewrite Z.add_0_r, Z.mod_small by exact Hr. apply Ha.
Qed.

(** [st'] follows [st]: the database moved by at most [k]. *)
Definition effect (k : nat) (b : B) (st' : WorkerState B) : Prop :=
  exists b', backend st' = Some b' /\ is_u64 (revision b') /\ moved k b b'.

Lemma effect_none k b st : backend st = Some b -> is_u64 (revision b) -> effect k b st.
Proof. intros Hb Hr. exists b. split; [done|]. split; [done|]. by apply moved_none. Qed.

Lemma moved_once k (b b' : B) : (1 <= k)%nat -> revision b' = wrapping_add64 (revision b) 1 -> moved k b b'.
Proof. intros Hk Hr. exists 1%nat. split; [done|]. split; [done|lia]. Qed.

Lemma effect_bumps k (call : mutation B) b st res b' :
  (1 <= k)%nat -> bumps call -> is_u64 (revision b) -> call b = Done (res, b') -> backend st = Some b' -> effect k b st.
Proof.
  intros Hk Hbump Hr Hcall Hb. specialize (Hbump b). rewrite Hcall in Hbump. exists b'. split; [done|].
  destruct res as [e|out]; [subst b'; split; [done|by apply moved_none]|].
  destruct Hbump as [Hrev _]. split; [rewrite Hrev; apply wrapping_add64_u64|by apply moved_once].
Qed.

Lemma commit_effect k kind ea (call : mutation B) b st st' res :
  (1 <= k)%nat -> bumps call -> is_u64 (revision b) ->
  commit kind ea call b st = Done (res, st') -> effect k b st'.
Proof.
  intros Hk Hbump Hr. unfold commit. destruct (call b) as [[r b']| |] eqn:Hcall; cbn [obind]; [|done..].
  intros Hst. eapply effect_bumps; [exact Hk|exact Hbump|exact Hr|exact Hcall|]. destruct r; by injection Hst as _ <-.
Qed.

Lemma checked_effect {A} k (r : Result A) b (st st' : WorkerState B) res f :
  backend st = Some b -> is_u64 (revision b) ->
  (forall a, r = inr a -> f a = Done (res, st') -> effect k b st') ->
  checked r st f = Done (res, st') -> effect k b st'.
Proof.
  intros Hb Hr Hk. destruct r as [e|a]; cbn [checked]; [|by apply Hk].
  intros [= <- <-]. by apply effect_none.
Qed.

Lemma apply_struct_effect k name fields b st st' res :
  (1 <= k)%nat -> backend st = Some b -> is_u64 (revision b) ->
  apply_struct name fields b st = Done (res, st') -> effect k b st'.
Proof.
  intros Hk Hb Hr. unfold apply_struct. destruct (_ || _).
  { intros [= <- <-]. by apply effect_none. }
  destruct (type_udt_create name fields b) as [[r b']| |] eqn:Hcall; cbn [obind fst snd]; [|done..].
  intros Hst. eapply effect_bumps; [exact Hk|apply type_udt_create_bumps|exact Hr|exact Hcall|]. by injection Hst as _ <-.
Qed.

(** A snapshot, and then [j] edits. *)
Lemma snapshot_effect b : is_u64 (revision b) -> is_u64 (revision (snapshot_create b).2) /\ moved 1 b (snapshot_create b).2.
Proof.
  intros Hr. destruct (snapshot_create_moves b) as [Ha|Hrev].
  - split; [by rewrite (ra_revision _ _ Ha)|by apply moved_none].
  - split; [rewrite Hrev; apply wrapping_add64_u64|by apply moved_once].
Qed.

Lemma moved_trans k1 k2 (b1 b2 b3 : B) : moved k1 b1 b2 -> moved k2 b2 b3 -> moved (k1 + k2) b1 b3.
Proof.
  intros (i & Hi & Hri & Hai) (j & Hj & Hrj & Haj). exists (i + j)%nat. split; [lia|]. split.
  - rewrite Hrj, Hri, Zplus_mod_idemp_l. f_equal. lia.
  - intros Hz. eapply reads_alike_trans; [apply Hai|apply Haj]; lia.
Qed.

Lemma moved_le k k' (b b' : B) : (k <= k')%nat -> moved k b b' -> moved k' b b'.
Proof. intros Hk (j & Hj & H). exists j. split; [lia|done]. Qed.

Lemma parse_from_length i ops ps : parse_from i ops = Ok ps -> length ps = length ops.
Proof.
  revert i ps. induction ops as [|op ops IH]; intros i ps; cbn [parse_from]; [by intros [= <-]|].
  destruct (parse_operation i op) as [|p]; cbn [bindR]; [done|].
  destruct (parse_from (S i) ops) as [|ps'] eqn:Hp; cbn [bindR]; [done|].
  intros [= <-]. cbn. by rewrite (IH _ _ Hp).
Qed.

Lemma plan_apply_effect params b st st' res :
  backend st = Some b -> is_u64 (revision b) ->
  do_plan_apply params st = Done (res, st') -> effect (ops_of params) b st'.
Proof.
  intros Hb Hr. unfold do_plan_apply. apply checked_effect; [done..|]. intros [b0 ops] Hchk.
  unfold plan_checks in Hchk. assert (need_backend st = Ok b) as Hn by (unfold need_backend; by rewrite Hb).
  rewrite Hn in Hchk. unfold ops_of.
  destruct (v ← get "operations" params; as_array v) as [vs|]; cbn [ok_or_else bindR Ok] in Hchk; [|done].
  destruct (parse_operations vs) as [|ps] eqn:Hp; cbn [bindR] in Hchk; [done|].
  destruct (check_plan_revision b _); cbn [bindR] in Hchk; [done|]. injection Hchk as <- <-.
  apply parse_from_length in Hp. cbn [default].
  destruct (apply ps b (audit st)) as [[[v b'] au']| |] eqn:Happ; cbn [obind]; [|done..].
  intros [= <- <-]. destruct (apply_from_spec _ _ _ _ _ _ _ _ Happ)
    as (k & v' & en & Hk & Hran & _ & _ & _ & -> & _).
  destruct (ran_revision _ _ _ Hran Hr) as [Hrev Hu]. rewrite length_take, Nat.min_l in Hrev by done.
  exists b'. split; [done|]. split; [done|].
  exists k. split; [cbn; lia|]. split; [done|]. intros ->. cbn in Hran. inversion Hran; subst. apply reads_alike_refl.
Qed.

Lemma deob_apply_effect params b st st' res :
  backend st = Some b -> is_u64 (revision b) ->
  do_deob_apply params st = Done (res, st') -> effect (ops_of params) b st'.
Proof.
  intros Hb Hr. unfold do_deob_apply, plan_param, ops_of.
  destruct (get "plan" params) as [plan|]; cbn [ok_or_else Ok default];
    [|intros [= <- <-]; by apply effect_none].
  unfold transform_apply. case_bool_decide; [intros [= <- <-]; by apply effect_none|].
  destruct (transform_parse_ea _); [intros [= <- <-]; by apply effect_none|]. rewrite Hb. cbn [at_ obind].
  destruct (check_plan_revision b _); [intros [= <- <-]; by apply effect_none|].
  destruct (snapshot_effect b Hr) as [Hr1 Hm1]. destruct (snapshot_create b) as [snap b1]. cbn [snd] in Hr1, Hm1.
  assert (forall k, effect (S k) b {| backend := Some b1; audit := audit st |}) as Hsnap.
  { intros k. exists b1. split; [done|]. split; [done|]. by eapply moved_le; [|exact Hm1]; lia. }
  destruct snap as [e|snapshot]; [intros [= <- <-]; apply Hsnap|].
  destruct (parse_operations _) as [e|ps] eqn:Hp; [intros [= <- <-]; apply Hsnap|].
  apply parse_from_length in Hp.
  destruct (apply ps b1 (audit st)) as [[[v b'] au']| |] eqn:Happ; cbn [obind]; [|done..].
  destruct (apply_from_spec _ _ _ _ _ _ _ _ Happ) as (k & v' & en & Hk & Hran & _ & _ & _ & -> & _).
  intros [= <- <-]. destruct (ran_revision _ _ _ Hran Hr1) as [Hrev Hu].
  rewrite length_take, Nat.min_l in Hrev by done.
  exists b'. split; [done|]. split; [done|]. eapply (moved_le (1 + k)); [cbn [id]; unfold id; lia|]. eapply moved_trans; [exact Hm1|].
  exists k. split; [done|]. split; [done|]. intros ->. cbn in Hran. by inversion Hran; subst.
Qed.

Definition session_mutations : list string :=
  ["patch_bytes"; "set_comment"; "rename"; "set_type"; "func.create"; "func.delete"; "func.resize";
   "hr.lvar_rename"; "deep.retype"; "types.apply"; "plan.mutations"; "plan.apply"; "mutation.audit";
   "snapshot.create"].

Lemma dispatch_effect method params b st st' res :
  method ∈ session_mutations -> backend st = Some b -> is_u64 (revision b) ->
  dispatch method params st = Some (Done (res, st')) ->
  effect (ops_of params) b st'.
Proof.
  intros Hm Hb Hr Hrun. unfold session_mutations in Hm.
  assert (1 <= ops_of params)%nat as H1 by (unfold ops_of; lia).
  assert (need_backend st = Ok b) as Hn by (unfold need_backend; by rewrite Hb).
  repeat (apply elem_of_cons in Hm as [->|Hm]); [..|inversion Hm];
    cbv [dispatch] in Hrun; rewrite ?bool_decide_false, ?bool_decide_true in Hrun by done;
    apply (inj Some) in Hrun.
  12: { eapply plan_apply_effect; [exact Hb|exact Hr|exact Hrun]. }
  1-10: unfold do_patch_bytes, do_set_comment, do_rename, do_set_type, do_func_create, do_func_delete,
      do_func_resize, do_lvar_rename, do_deep_retype, do_types_apply in Hrun; rewrite ?Hn in Hrun;
    eapply checked_effect; [exact Hb|exact Hr| |exact Hrun]; intros a Ha Hc;
    repeat match type of Ha with
      | bindR ?r _ = _ => destruct r; cbn [bindR Ok] in Ha; [discriminate Ha|]
      end; injection Ha as <-.
  10: by eapply apply_struct_effect.
  1-9: eapply commit_effect; [exact H1| |exact Hr|exact Hc].
  1: apply patch_bytes_bumps.
  1: apply set_comment_bumps.
  1: apply rename_bumps.
  1: apply set_type_bumps.
  1: apply func_create_bumps.
  1: apply func_delete_bumps.
  1: apply func_resize_bumps.
  1: apply hr_lvar_rename_bumps.
  1: apply deep_apply_prototype_bumps.
  - assert (st' = st) as ->; [|by apply effect_none].
    unfold do_plan_mutations in Hrun. destruct (bo <-? plan_checks params st; plan bo.1 bo.2); cbn [checked] in Hrun; by injection Hrun.
  - unfold do_mutation_audit in Hrun. injection Hrun as _ <-. by apply effect_none.
  - unfold do_snapshot_create in Hrun. rewrite Hn in Hrun. cbn [checked Ok] in Hrun.
    destruct (snapshot_effect b Hr) as [Hr1 Hm1]. destruct (snapshot_create b) as [v b'].
    injection Hrun as _ <-. exists b'. split; [done|]. split; [done|]. by eapply moved_le.
Qed.
End Effects.

(** ** Coherence of the index and of the cache *)

Lemma ea_param_u64 params key ea : ea_param params key = Ok ea -> is_u64 ea.
Proof.
  assert (forall s, parse_ea s = Ok ea -> is_u64 ea) as Hparse.
  { intros s. unfold parse_ea, parse_hex_u64, parse_u64.
    destruct (match strip_prefix "0x" (trim s) with Some h => Some h | None => strip_prefix "0X" (trim s) end) as [h|].
    - destruct (from_str_radix 16 u64_max h) eqn:Hp; [done|]. intros [= <-].
      eapply from_str_radix_range in Hp; [|lia|done]. unfold is_u64. unfold u64_max in Hp. lia.
    - destruct (from_str_radix 10 u64_max (trim s)) eqn:Hp; [done|]. intros [= <-].
      eapply from_str_radix_range in Hp; [|lia|done]. unfold is_u64. unfold u64_max in Hp. lia. }
  assert (forall v, as_u64 v = Some ea -> is_u64 ea) as Hnum.
  { intros v. destruct v; cbn; try done. case_bool_decide; [by intros [= <-]|done]. }
  unfold ea_param. destruct (get key params) as [v|]; [|done].
  assert (ok_or_else (as_u64 v) (Worker ("bad ea value for '" +:+ key +:+ "'")) = Ok ea -> is_u64 ea) as Hok.
  { destruct (as_u64 v) as [z|] eqn:Hz; cbn; [|done]. intros [= ->]. by eapply Hnum. }
  destruct v; eauto.
Qed.

Lemma clamped_range params key d lo hi : (lo <= hi)%Z -> (lo <= clamped params key d lo hi <= hi)%Z.
Proof. unfold clamped. lia. Qed.

Section Coherence.
Context {B : Type} `{!IdaBackend B} `{!BackendLaws B}.
Context (to_lowercase : string -> string) (to_text : Value -> option string).
Context (parse_query : Value -> string + EvidenceQuery) (parse_request : Value -> string + WorkflowRequest).

(** What a cached value of the other analyses should be. *)
Context (analysis_fresh : B -> string -> string -> Value -> Prop).
Context (analysis_alike : forall b b' name body v,
  reads_alike b b' -> analysis_fresh b name body v -> analysis_fresh b' name body v).

(** A cached value is what the database answers now. *)
Definition entry_fresh (b : B) (name body : string) (v : Value) : Prop :=
  if bool_decide (name = "hr_microcode") then
    exists ea m k, is_u64 ea /\ is_u64 m /\ is_u64 k /\ body = microcode_key ea m k
      /\ hr_microcode b ea m k = Ok v
  else if bool_decide (name ∈ analysis_caches) then analysis_fresh b name body v
  else
    exists idx md5 r, build_index b = Ok (idx, md5) /\ workflow r = name
      /\ body = default "" (to_text (request_value r)) /\ run_workflow to_lowercase b idx r = Done (Ok v).

(** What was true at revision [rev], at most [n] revisions ago. *)
Definition stamped (n : nat) (b : B) (rev : Z) (P : Prop) : Prop :=
  exists d, (d <= n)%nat /\ revision b = ((rev + Z.of_nat d) mod u64_modulus)%Z /\ is_u64 rev /\ (d = 0%nat -> P).

Record coherent (n : nat) (w : Process B) (b : B) : Prop := {
  co_backend : backend (ws w) = Some b;
  co_revision : is_u64 (revision b);
  co_index idx md5 : w_index w = Some (idx, md5) -> stamped n b (idx_revision idx) (build_index b = Ok (idx, md5));
  co_cache name body rev v : cached (w_cache w) !! (name, body, rev) = Some v ->
    stamped n b rev (entry_fresh b name body v);
}.

(** A stamp of the current revision is true: fewer than 2^64 revisions passed. *)
Lemma stamped_now n b rev (P : Prop) : (Z.of_nat n < u64_modulus)%Z -> stamped n b rev P -> rev = revision b -> P.
Proof using Type.
  intros Hn (d & Hd & Hrev & Hu & HP) Heq. apply HP. rewrite <- Heq in Hrev. unfold is_u64 in Hu.
  destruct (decide (rev + Z.of_nat d < u64_modulus)%Z).
  - rewrite Z.mod_small in Hrev; lia.
  - replace (rev + Z.of_nat d)%Z with ((rev + Z.of_nat d - u64_modulus) + 1 * u64_modulus)%Z in Hrev by lia.
    rewrite Z.mod_add, Z.mod_small in Hrev; lia.
Qed.

Lemma stamped_here n b (P : Prop) : is_u64 (revision b) -> P -> stamped n b (revision b) P.
Proof using Type. intros Hr HP. exists 0%nat. rewrite Z.add_0_r, Z.mod_small by exact Hr. split; [lia|done]. Qed.

Lemma stamped_moved n k b b' rev (P P' : Prop) :
  moved k b b' -> (reads_alike b b' -> P -> P') -> stamped n b rev P -> stamped (n + k) b' rev P'.
Proof using Type.
  intros (j & Hj & Hrev & Hsame) Himp (d & Hd & Hrd & Hu & HP). exists (d + j)%nat. split; [lia|]. split; [|split; [done|]].
  - rewrite Hrev, Hrd, Zplus_mod_idemp_l. f_equal. lia.
  - intros Hz. apply Himp; [apply Hsame; lia|apply HP; lia].
Qed.

Lemma entry_fresh_alike b b' name body v :
  reads_alike b b' -> entry_fresh b name body v -> entry_fresh b' name body v.
Proof.
  intros Ha. pose proof (ra_index _ _ Ha) as Hi. pose proof (ra_microcode _ _ Ha) as Hm. unfold entry_fresh. case_bool_decide; [|case_bool_decide; [by apply analysis_alike|]].
  - intros (ea & m & k & H1 & H2 & H3 & H4 & H5). exists ea, m, k. by rewrite Hm.
  - intros (idx & md5 & r & H1 & H2 & H3 & H4). exists idx, md5, r. rewrite Hi.
    rewrite (run_workflow_alike to_lowercase b b') by done. done.
Qed.

Lemma coherent_le n n' w b : (n <= n')%nat -> coherent n w b -> coherent n' w b.
Proof.
  intros Hle [H1 H2 H3 H4]. split; [done|done| |].
  - intros idx md5 (d & Hd & Hrest)%H3. exists d. split; [lia|done].
  - intros name body rev v (d & Hd & Hrest)%H4. exists d. split; [lia|done].
Qed.

(** Only the index and the hit counters of a process may differ. *)
Lemma coherent_same n w w' b :
  ws w' = ws w -> w_index w' = w_index w -> cached (w_cache w') = cached (w_cache w) ->
  coherent n w b -> coherent n w' b.
Proof. intros Hw Hi Hc [H1 H2 H3 H4]. split; rewrite ?Hw, ?Hi, ?Hc; done. Qed.

Lemma coherent_set_index n w b idx md5 :
  coherent n w b -> build_index b = Ok (idx, md5) -> coherent n (set_index (idx, md5) w) b.
Proof.
  intros [H1 H2 H3 H4] Hb. pose proof (build_index_revision b idx md5 Hb) as Hrev.
  split; [done|done| |done]. cbn. intros idx' md5' [= <- <-]. rewrite Hrev. by apply stamped_here.
Qed.

Lemma fresh_index_spec n w b r w' :
  coherent n w b -> (Z.of_nat n < u64_modulus)%Z -> fresh_index b w = (r, w') ->
  r = build_index b /\ coherent n w' b /\ ws w' = ws w.
Proof.
  intros Hco Hn. unfold fresh_index.
  assert (match build_index b with inl e => (Err e, w) | inr im => (Ok im, set_index im w) end = (r, w') ->
    r = build_index b /\ coherent n w' b /\ ws w' = ws w) as Hre.
  { destruct (build_index b) as [e|[idx md5]] eqn:Hb; intros [= <- <-]; [done|].
    split; [done|]. split; [by apply coherent_set_index|done]. }
  destruct (w_index w) as [[idx md5]|] eqn:Hi; [|done]. cbn [fst].
  destruct (Z.eqb_spec (idx_revision idx) (revision b)) as [Heq|]; [|done].
  intros [= <- <-]. split; [|done]. by rewrite (stamped_now _ _ _ _ Hn (co_index _ _ _ Hco idx md5 Hi)).
Qed.

Lemma through_cache_spec n w b name body compute res w' :
  coherent n w b -> (Z.of_nat n < u64_modulus)%Z ->
  (forall v, compute = Done (Ok v) -> entry_fresh b name body v) ->
  through_cache (name, body, revision b) compute w = Done (res, w') ->
  coherent n w' b
  /\ match res with
     | inr a => exists v, a @@ "result" = v /\ entry_fresh b name body v
     | inl e => compute = Done (Err e)
     end.
Proof.
  intros Hco Hn Hcomp. unfold through_cache, cache_get.
  destruct (cached (w_cache w) !! (name, body, revision b)) as [v|] eqn:Hhit.
  - intros [= <- <-]. split; [by eapply coherent_same; [..|exact Hco]|].
    exists v. split; [done|]. by eapply stamped_now; [exact Hn|eapply co_cache|].
  - destruct compute as [[e|v]| |]; cbn [obind]; [| |done..].
    + intros [= <- <-]. split; [by eapply coherent_same; [..|exact Hco]|done].
    + intros [= <- <-]. specialize (Hcomp v eq_refl). split; [|by exists v].
      destruct Hco as [H1 H2 H3 H4]. split; [done|done|done|]. cbn. intros nm bd rv x.
      destruct (decide ((name, body, revision b) = (nm, bd, rv))) as [[= <- <- <-]|Hne].
      * rewrite lookup_insert_eq. intros [= <-]. by apply stamped_here.
      * rewrite lookup_insert_ne by done. apply H4.
Qed.

Lemma hr_microcode_spec n w b params res w' :
  coherent n w b -> (Z.of_nat n < u64_modulus)%Z -> do_hr_microcode params w = Done (res, w') ->
  coherent n w' b
  /\ forall ea, ea_param params "ea" = Ok ea ->
       match hr_microcode b ea (clamped params "maturity" 0 0 7) (clamped params "max_insns" 2000 1 20000) with
       | inr v => exists a, res = Ok a /\ a @@ "result" = v
       | inl e => res = Err e
       end.
Proof.
  intros Hco Hn. unfold do_hr_microcode. pose proof (co_backend _ _ _ Hco) as Hb.
  assert (need_backend (ws w) = Ok b) as -> by (unfold need_backend; by rewrite Hb).
  destruct (ea_param params "ea") as [e|ea] eqn:Hea; cbn [bindR Ok].
  { intros [= <- <-]. done. }
  set (m := clamped params "maturity" 0 0 7). set (k := clamped params "max_insns" 2000 1 20000).
  assert (is_u64 m /\ is_u64 k) as [Hm Hk].
  { pose proof (clamped_range params "maturity" 0 0 7 ltac:(lia)).
    pose proof (clamped_range params "max_insns" 2000 1 20000 ltac:(lia)).
    split; (split; [lia|]); (eapply Z.le_lt_trans; [|by instantiate (1 := 20001%Z)]); lia. }
  pose proof (ea_param_u64 _ _ _ Hea) as Hu.
  intros Hrun. eapply through_cache_spec in Hrun; [|exact Hco|exact Hn|].
  2: { intros v [= Hv]. unfold entry_fresh. rewrite bool_decide_true by done. by exists ea, m, k. }
  destruct Hrun as [Hco' Hres]. split; [done|]. intros ea' [= <-].
  destruct res as [e|a].
  - injection Hres as ->. done.
  - destruct Hres as (v & Hv & Hf). unfold entry_fresh in Hf. rewrite bool_decide_true in Hf by done.
    destruct Hf as (ea' & m' & k' & H1 & H2 & H3 & Hkey & Hmc).
    destruct (microcode_key_inj ea m k ea' m' k') as (-> & -> & ->); [done..|]. rewrite Hmc. by exists a.
Qed.

(** Only the six workflows produce a result, and none is called like another
    cache. *)
Lemma run_workflow_name (b : B) idx r v :
  run_workflow to_lowercase b idx r = Done (Ok v) -> workflow r ∉ "hr_microcode" :: analysis_caches.
Proof using Type.
  intros Hrun Hin. unfold run_workflow in Hrun.
  repeat (apply elem_of_cons in Hin as [Hin|Hin]; [rewrite Hin in Hrun; done|]). by apply elem_of_nil in Hin.
Qed.

Lemma workflow_run_spec n w b params res w' :
  coherent n w b -> (Z.of_nat n < u64_modulus)%Z ->
  do_workflow_run to_lowercase to_text parse_request params w = Done (res, w') ->
  coherent n w' b
  /\ forall r a, parse_request (default params (get "workflow_req" params)) = inr r ->
       workflow r ∉ "hr_microcode" :: analysis_caches -> res = Ok a ->
       exists idx md5 r', build_index b = Ok (idx, md5) /\ workflow r' = workflow r
         /\ default "" (to_text (request_value r')) = default "" (to_text (request_value r))
         /\ run_workflow to_lowercase b idx r' = Done (Ok (a @@ "result")).
Proof.
  intros Hco Hn. unfold do_workflow_run. pose proof (co_backend _ _ _ Hco) as Hb.
  assert (need_backend (ws w) = Ok b) as -> by (unfold need_backend; by rewrite Hb).
  destruct (parse_request _) as [e|r] eqn:Hp; [by intros [= <- <-]|].
  change (@Ok B b) with (@inr Error B b). cbv beta iota.
  destruct (fresh_index b w) as [ri w1] eqn:Hfresh. pose proof (fresh_index_spec _ _ _ _ _ Hco Hn Hfresh) as (-> & Hco1 & _).
  cbv beta iota. destruct (build_index b) as [e|[idx md5]] eqn:Hbuild.
  { intros [= <- <-]. split; [done|]. by intros r' a _ _. }
  intros Hrun. eapply through_cache_spec in Hrun; [|exact Hco1|exact Hn|].
  2: { intros v Hv. unfold entry_fresh. apply run_workflow_name in Hv as Hn'. apply not_elem_of_cons in Hn' as [H1 H2].
       rewrite !bool_decide_false by done. by exists idx, md5, r. }
  destruct Hrun as [Hco' Hres]. split; [done|]. intros r' a [= <-] Hname ->.
  destruct Hres as (v & -> & Hf). unfold entry_fresh in Hf. apply not_elem_of_cons in Hname as [H1 H2].
  rewrite !bool_decide_false in Hf by done. destruct Hf as (idx' & md5' & r' & Hb' & Hw & Ht & Hr). exists idx', md5', r'.
  split; [congruence|]. done.
Qed.

Lemma index_query_spec n w b params res w' :
  coherent n w b -> (Z.of_nat n < u64_modulus)%Z ->
  do_index_query to_lowercase parse_query params w = (res, w') ->
  coherent n w' b
  /\ forall q, parse_query (default (JObj []) (get "query" params)) = inr q ->
       res = (im <-? build_index b; Ok (query_answer im.2 (query to_lowercase im.1 q))).
Proof.
  intros Hco Hn. unfold do_index_query. pose proof (co_backend _ _ _ Hco) as Hb.
  assert (need_backend (ws w) = Ok b) as -> by (unfold need_backend; by rewrite Hb).
  destruct (parse_query _) as [e|q]; [by intros [= <- <-]|].
  change (@Ok B b) with (@inr Error B b). cbv beta iota.
  destruct (fresh_index b w) as [ri w1] eqn:Hfresh. intros [= <- <-].
  pose proof (fresh_index_spec _ _ _ _ _ Hco Hn Hfresh) as (-> & Hco1 & _).
  split; [done|]. by intros q' [= <-].
Qed.

(** ** Sessions *)

Definition session_methods : list string :=
  session_mutations ++
  ["deob.apply"] ++
  ["shutdown"; "revision"; "index.build"; "index.query"; "index.status"; "workflow.run"; "hr.microcode";
   "deob.propose"; "deob.validate"].

Abbreviation wdispatch := (worker_dispatch to_lowercase to_text parse_query parse_request).
Abbreviation whandle := (handle to_lowercase to_text parse_query parse_request).

Lemma mutation_dispatch method params (w : Process B) :
  method ∈ session_mutations ->
  wdispatch method params w =
    (o ← dispatch method params (ws w);
     Some (rs <~ o;
           let w' := set_ws rs.2 w in
           Done (rs.1, if is_ok rs.1 && bool_decide (method ∈ ["deep.retype"; "types.apply"])
                       then set_cache (invalidate_all (w_cache w')) w' else w'))).
Proof.
  intros Hm. unfold session_mutations in Hm. unfold worker_dispatch.
  repeat (apply elem_of_cons in Hm as [->|Hm]); [..|inversion Hm];
    by rewrite !bool_decide_false by done.
Qed.

(** After a request that moved the database; a cache is kept or emptied. *)
Lemma coherent_moved n k w b b' st' c :
  coherent n w b -> backend st' = Some b' -> is_u64 (revision b') -> moved k b b' -> cached c ⊆ cached (w_cache w) ->
  coherent (n + k) (set_cache c (set_ws st' w)) b'.
Proof.
  intros [H1 H2 H3 H4] Hb' Hr' Hm Hc. split; [done|done| |]; cbn.
  - intros idx md5 Hi%H3. eapply stamped_moved; [exact Hm| |exact Hi]. intros Ha. by rewrite (ra_index _ _ Ha).
  - intros name body rev v Hv. eapply stamped_moved; [exact Hm| |eapply H4, lookup_weaken; [exact Hv|exact Hc]].
    intros Ha. by apply entry_fresh_alike.
Qed.

Lemma mutation_step n w b req resp w' :
  coherent n w b -> req_method req ∈ session_mutations ->
  whandle req w = Some (Done (resp, w')) ->
  exists b', coherent (n + ops_of (req_params req)) w' b'.
Proof.
  intros Hco Hm. unfold handle. rewrite mutation_dispatch by done.
  destruct (dispatch (req_method req) (req_params req) (ws w)) as [[[res st']| |]|] eqn:Hd; cbn; [|done..].
  destruct (dispatch_effect _ _ _ _ _ _ Hm (co_backend _ _ _ Hco) (co_revision _ _ _ Hco) Hd) as (b' & Hb' & Hr' & Hmoved).
  intros [= _ <-]. exists b'.
  assert (forall c, cached c ⊆ cached (w_cache w) -> coherent (n + ops_of (req_params req)) (set_cache c (set_ws st' w)) b') as Hdone
    by (intros c Hc; by eapply coherent_moved).
  assert (cached (invalidate_all (w_cache w)) ⊆ cached (w_cache w)) as Hinv by apply map_empty_subseteq.
  destruct res, (bool_decide (req_method req ∈ ["deep.retype"; "types.apply"])),
    (bool_decide (req_method req ∈ MUTATING_METHODS)); cbn;
    first [by apply (Hdone (invalidate_all (w_cache w))) | by apply (Hdone (w_cache w))].
Qed.

Lemma deob_step n w b req resp w' :
  coherent n w b -> req_method req = "deob.apply" ->
  whandle req w = Some (Done (resp, w')) ->
  exists b', coherent (n + ops_of (req_params req)) w' b'.
Proof.
  intros Hco Hm. unfold handle, respond. rewrite Hm. unfold worker_dispatch.
  compare_names. cbn [mbind option_bind].
  destruct (do_deob_apply (req_params req) (ws w)) as [[res st']| |] eqn:Hd; cbn; [|done..].
  destruct (deob_apply_effect _ _ _ _ _ (co_backend _ _ _ Hco) (co_revision _ _ _ Hco) Hd) as (b' & Hb' & Hr' & Hmoved).
  intros [= _ <-]. exists b'. destruct res as [e|v].
  - by apply (coherent_moved n _ w b b' st' (w_cache w)).
  - apply (coherent_moved n _ w b b' st' (invalidate_all (w_cache w))); try done. apply map_empty_subseteq.
Qed.

(** The reads: they change neither the database nor what is cached of it. *)
Lemma read_dispatch n w b method params res w' :
  coherent n w b -> (Z.of_nat n < u64_modulus)%Z ->
  method ∈ ["shutdown"; "revision"; "index.build"; "index.query"; "index.status"; "workflow.run"; "hr.microcode";
            "deob.propose"; "deob.validate"] ->
  wdispatch method params w = Some (Done (res, w')) -> coherent n w' b.
Proof.
  intros Hco Hn Hm. pose proof (co_backend _ _ _ Hco) as Hb.
  assert (need_backend (ws w) = Ok b) as Hnb by (unfold need_backend; by rewrite Hb).
  repeat (apply elem_of_cons in Hm as [->|Hm]); [..|inversion Hm]; unfold worker_dispatch;
    rewrite ?bool_decide_false, ?bool_decide_true by done; intros Hrun; apply (inj Some) in Hrun.
  - injection Hrun as _ <-. by eapply coherent_same; [..|exact Hco].
  - by injection Hrun as _ <-.
  - injection Hrun as Hrun. unfold do_index_build in Hrun. rewrite Hnb in Hrun. cbn [bindR Ok] in Hrun.
    destruct (build_index b) as [e|[idx md5]] eqn:Hbuild; injection Hrun as _ <-; [done|].
    by apply coherent_set_index.
  - injection Hrun as Hrun. by eapply index_query_spec in Hrun as [? _].
  - by injection Hrun as _ <-.
  - by eapply workflow_run_spec in Hrun as [? _].
  - by eapply hr_microcode_spec in Hrun as [? _].
  - injection Hrun as Hrun. unfold do_deob_propose in Hrun. destruct (bindR _ _) as [e|[[target kind] b0]] eqn:Hargs;
      [by injection Hrun as _ <-|].
    assert (b0 = b) as ->.
    { destruct (match ea_param params "target" with inr ea => Ok ea | inl _ => _ end); [done|].
      cbn [bindR Ok] in Hargs. destruct (ok_or_else _ _); [done|]. cbn [bindR Ok] in Hargs.
      destruct (TransformKind_parse _); [done|]. cbn [bindR Ok] in Hargs. rewrite Hnb in Hargs. by injection Hargs. }
    destruct (fresh_index b w) as [r w1] eqn:Hfresh. injection Hrun as _ <-.
    by apply (fresh_index_spec _ _ _ _ _ Hco Hn) in Hfresh as (_ & ? & _).
  - by injection Hrun as _ <-.
Qed.

Lemma handle_step n w b req resp w' :
  coherent n w b -> (Z.of_nat n < u64_modulus)%Z -> req_method req ∈ session_methods ->
  whandle req w = Some (Done (resp, w')) ->
  exists b', coherent (n + ops_of (req_params req)) w' b'.
Proof.
  intros Hco Hn Hm Hrun. unfold session_methods in Hm. apply elem_of_app in Hm as [Hm|Hm].
  { by eapply mutation_step. }
  apply elem_of_app in Hm as [Hm%list_elem_of_singleton|Hm]; [by eapply deob_step|].
  exists b. eapply coherent_le; [|]; [apply Nat.le_add_r|].
  unfold handle, respond in Hrun. destruct (wdispatch (req_method req) (req_params req) w) as [[[res w1]| |]|] eqn:Hd;
    cbn in Hrun; [|done..].
  eapply read_dispatch in Hd; [|exact Hco|done|done].
  assert (bool_decide (req_method req ∈ MUTATING_METHODS) = false) as Hread.
  { repeat (apply elem_of_cons in Hm as [->|Hm]); [reflexivity..|inversion Hm]. }
  rewrite Hread, andb_false_r in Hrun. by injection Hrun as _ <-.
Qed.

Definition total_ops (reqs : list WorkerRequest) : nat := sum_list ((fun q => ops_of (req_params q)) <$> reqs).

(** A worker that has just opened its database. *)
Definition opened (b : B) : Process B :=
  {| ws := {| backend := Some b; audit := [] |}; closed := false; w_index := None; w_cache := WorkflowCache_default |}.

Lemma opened_coherent b : is_u64 (revision b) -> coherent 0 (opened b) b.
Proof. intros Hr. split; [done|done|done|]. intros name body rev v. cbn. by rewrite lookup_empty. Qed.

End Coherence.

(** ** The mock worker *)

(** The names an index of the mock shows are the database's. *)
Lemma add_edges_name es (m : gmap Z FunctionFacts) ea :
  ff_name <$> foldl (fun m e => alter (add_caller e.1) e.2 (alter (add_callee e.2) e.1 m)) m es !! ea
  = ff_name <$> m !! ea.
Proof.
  revert m. induction es as [|[x y] es IH]; intros m; [done|]. cbn [foldl]. rewrite IH. cbn.
  assert (forall (h : FunctionFacts -> FunctionFacts) k (m' : gmap Z FunctionFacts),
    (forall f, ff_name (h f) = ff_name f) -> ff_name <$> alter h k m' !! ea = ff_name <$> m' !! ea) as Halter.
  { intros h k m' Hh. destruct (decide (k = ea)) as [->|Hne]; [|by rewrite lookup_alter_ne].
    rewrite lookup_alter_eq. destruct (m' !! ea) as [f|]; cbn; [by rewrite Hh|done]. }
  by rewrite !Halter.
Qed.

Lemma insert_facts_name b l (m : gmap Z FunctionFacts) ea :
  NoDup l.*1 ->
  ff_name <$> foldl (fun m f => <[ea_start f := mock_facts b f]> m) m
    ((fun en => {| ea_start := en.1; ea_end := wrapping_add64 en.1 0x40; fn_name := en.2; fn_size := 0x40 |}) <$> l) !! ea
  = match (list_to_map l : gmap Z string) !! ea with Some s => Some s | None => ff_name <$> m !! ea end.
Proof.
  revert m. induction l as [|[k s] l IH]; intros m Hnd; [done|]. cbn in Hnd. apply NoDup_cons in Hnd as [Hk Hnd].
  cbn [fmap list_fmap foldl]. rewrite IH by done. cbn [list_to_map foldr fst snd ea_start mock_facts uncurry].
  destruct (decide (k = ea)) as [->|Hne].
  - rewrite lookup_insert_eq. rewrite not_elem_of_list_to_map_1 by done. by rewrite lookup_insert_eq.
  - by rewrite !lookup_insert_ne by done.
Qed.

Lemma mock_index_name b idx md5 ea :
  mock_build_index b = Ok (idx, md5) -> ff_name <$> functions idx !! ea = names b !! ea.
Proof.
  unfold mock_build_index. intros [= <- _]. cbn [functions]. unfold mock_index_functions.
  rewrite add_edges_name. unfold functions_vec.
  rewrite insert_facts_name.
  - rewrite (list_to_map_proper _ (map_to_list (names b))), list_to_map_to_list.
    + by destruct (names b !! ea).
    + rewrite sort_by_key_perm. apply NoDup_fst_map_to_list.
    + apply sort_by_key_perm.
  - rewrite sort_by_key_perm. apply NoDup_fst_map_to_list.
Qed.

(** ** Rollbacks *)

Section Stale.
Context (to_lowercase : string -> string) (to_text : Value -> option string).
Context (parse_query : Value -> string + EvidenceQuery) (parse_request : Value -> string + WorkflowRequest).

Abbreviation mdispatch := (worker_dispatch (B := MockBackend) to_lowercase to_text parse_query parse_request).
Abbreviation mserved := (served (B := MockBackend) to_lowercase to_text parse_query parse_request).

Definition ask (method : string) (params : Value) : WorkerRequest :=
  {| req_id := 1; req_method := method; req_params := params |}.

Lemma served_ok method params v reqs w w1 w2 :
  mdispatch method params w = Some (Done (Ok v, w1)) ->
  mserved reqs (if bool_decide (method ∈ MUTATING_METHODS) then set_cache (invalidate_all (w_cache w1)) w1 else w1) w2 ->
  mserved (ask method params :: reqs) w w2.
Proof.
  intros Hd Hs. eapply served_cons; [|exact Hs]. unfold handle. cbn [ask req_method req_params]. by rewrite Hd.
Qed.

Ltac run_arm := unfold worker_dispatch, dispatch; compare_names.

Lemma snapshot_arm b w path : backend (ws w) = Some b -> open_path b = Some path ->
  exists v, mdispatch "snapshot.create" (JObj []) w
    = Some (Done (Ok v, set_ws {| backend := Some (mock_snapshot_create b).2; audit := audit (ws w) |} w)).
Proof.
  intros Hb Hopen. run_arm. unfold do_snapshot_create, need_backend. rewrite Hb. cbn.
  unfold mock_snapshot_create, require_open. rewrite Hopen. by eexists.
Qed.

Lemma rename_arm b w path old new ea :
  backend (ws w) = Some b -> open_path b = Some path -> is_u64 ea -> names b !! ea = Some old ->
  exists v au, mdispatch "rename" (JObj [("ea", JStr (show_0x ea)); ("name", JStr new)]) w
    = Some (Done (Ok v, set_ws {| backend := Some (mutated (<[ea := new]> (names b)) (comments b) (bytes b) b);
                                  audit := au |} w)).
Proof.
  intros Hb Hopen Hea Hold. run_arm. unfold do_rename, need_backend. rewrite Hb.
  assert (ea_param (JObj [("ea", JStr (show_0x ea)); ("name", JStr new)]) "ea" = Ok ea) as ->.
  { unfold ea_param. cbn. by destruct (parse_ea_show ea Hea). }
  cbn. unfold checked, check_revision, missing, commit. cbn. compare_names. cbn.
  unfold mock_rename, require_open.
  rewrite Hopen, Hold. by eexists _, _.
Qed.

Lemma fresh_index_current (b : MockBackend) w im :
  w_index w = Some im -> idx_revision im.1 = revision b -> fresh_index b w = (Ok im, w).
Proof. intros Hi Hr. unfold fresh_index. by rewrite Hi, Hr, Z.eqb_refl. Qed.

Lemma build_arm b w : backend (ws w) = Some b ->
  exists v im, mdispatch "index.build" (JObj []) w = Some (Done (Ok v, set_index im w)) /\ mock_build_index b = Ok im.
Proof.
  intros Hb. run_arm. unfold do_index_build, need_backend. rewrite Hb. by eexists _, _.
Qed.

Lemma restore_arm b w path : backend (ws w) = Some b -> open_path b = Some path ->
  exists v, mdispatch "snapshot.restore" (JObj []) w
    = Some (Done (Ok v, set_ws {| backend := Some (mock_snapshot_restore b).2; audit := audit (ws w) |} w)).
Proof.
  intros Hb Hopen. run_arm. unfold do_snapshot_restore, need_backend. rewrite Hb. cbn.
  unfold mock_snapshot_restore, require_open. rewrite Hopen. destruct (snapshots b); by eexists.
Qed.

(** After a rollback the index can be stale: take a snapshot, rename a
    function, build the index and restore.  The database has its old name
    back, but at the revision the index was built for, so the worker takes
    the index for current and keeps answering queries with the new name,
    where a rebuilt index would have the old one. *)
Theorem restored_index_is_stale (b : MockBackend) (path old new : string) (ea : Z) :
  open_path b = Some path -> is_u64 ea -> names b !! ea = Some old ->
  exists w b' im, mserved
      [ask "snapshot.create" (JObj []);
       ask "rename" (JObj [("ea", JStr (show_0x ea)); ("name", JStr new)]);
       ask "index.build" (JObj []); ask "snapshot.restore" (JObj [])] (opened b) w
    /\ backend (ws w) = Some b' /\ names b' = names b
    /\ fresh_index b' w = (Ok im, w) /\ ff_name <$> functions im.1 !! ea = Some new
    /\ forall im', build_index b' = Ok im' -> ff_name <$> functions im'.1 !! ea = Some old.
Proof.
  intros Hopen Hea Hold.
  set (b1 := (mock_snapshot_create b).2).
  assert (open_path b1 = Some path /\ names b1 = names b /\ mock_revision b1 = mock_revision b
    /\ exists s rest, snapshots b1 = s :: rest /\ snap_names s = names b /\ snap_revision s = mock_revision b)
    as (Ho1 & Hn1 & Hr1 & snap & rest & Hs1 & Hsn & Hsr).
  { subst b1. unfold mock_snapshot_create, require_open. rewrite Hopen. cbn. do 3 (split; [done|]). by eexists _, _. }
  destruct (snapshot_arm b (opened b) path eq_refl Hopen) as [v1 H1]. fold b1 in H1.
  set (b2 := mutated (<[ea := new]> (names b1)) (comments b1) (bytes b1) b1).
  destruct (rename_arm b1 (set_ws {| backend := Some b1; audit := [] |} (opened b)) path old new ea)
    as (v2 & au & H2); [done|done|done|by rewrite Hn1|]. fold b2 in H2.
  match type of H2 with _ = Some (Done (_, ?x)) => set (w2 := set_cache (invalidate_all (w_cache x)) x) end.
  destruct (build_arm b2 w2 eq_refl) as (v3 & im & H3 & Hbuild).
  destruct (restore_arm b2 (set_index im w2) path eq_refl Ho1) as (v4 & H4).
  set (b3 := (mock_snapshot_restore b2).2) in *.
  assert (names b3 = names b /\ mock_revision b3 = mock_revision b2) as [Hn3 Hr3].
  { subst b3. unfold mock_snapshot_restore, require_open. cbn. rewrite Ho1, Hs1. cbn. split; [done|].
    rewrite Hsr. unfold bump. by rewrite Hr1. }
  eexists _, b3, im. split; [|split; [|split; [exact Hn3|split; [|split]]]].
  - eapply served_ok; [exact H1|]. eapply served_ok; [exact H2|]. eapply served_ok; [exact H3|].
    eapply served_ok; [exact H4|]. apply served_nil.
  - done.
  - apply fresh_index_current; [reflexivity|]. change (revision b3) with (mock_revision b3). rewrite Hr3.
    by injection Hbuild as <-.
  - destruct im as [idx md5]. cbn. rewrite (mock_index_name _ _ _ _ Hbuild). cbn. by rewrite lookup_insert_eq.
  - intros [idx' md5'] Hb'. cbn. rewrite (mock_index_name _ _ _ _ Hb'). by rewrite Hn3.
Qed.
End Stale.

(** ** A session on the mock *)

Definition no_criteria (v : Value) : string + EvidenceQuery := inr {| q_all := Some []; q_limit := 3 |}.
Definition any_request (v : Value) : string + WorkflowRequest := inr near_request.
Definition no_text (v : Value) : option string := None.

Definition rename_main : WorkerRequest :=
  ask "rename" (JObj [("ea", JStr (show_0x 0x401000)); ("name", JStr "entry")]).
Abbreviation sserved := (served (B := MockBackend) id no_text no_criteria any_request).

Lemma restored_index_is_stale_witness :
  exists w b' im, sserved
      [ask "snapshot.create" (JObj []); rename_main; ask "index.build" (JObj []); ask "snapshot.restore" (JObj [])]
      (opened open_mock) w
    /\ backend (ws w) = Some b' /\ names b' = names open_mock
    /\ fresh_index b' w = (Ok im, w) /\ ff_name <$> functions im.1 !! 0x401000%Z = Some "entry"
    /\ forall im', build_index b' = Ok im' -> ff_name <$> functions im'.1 !! 0x401000%Z = Some "main".
Proof.
  apply (restored_index_is_stale id no_text no_criteria any_request open_mock "a.i64" "main" "entry" 0x401000);
    by vm_compute.
Defined.
