(* ===== verification/Deep.v ===== *)
(** * Deep: recursive analysis of a function and its callees

    Models [rmcp-worker/src/deep.rs]: [deep_function], which collects the
    dossiers of a function and its direct callees under budgets and can be
    resumed, and [trace_dataflow].  [BTreeSet<u64>] is [gset Z] iterated in
    order, [BTreeMap] as in [Index].  The backend's [deep_function_info] is a
    parameter of the section; the clock is the answer of each poll of the
    deadline. *)

From stdpp Require Import base list gmap strings sorting relations.
From Stdlib Require Import ZArith Lia Ascii.
From S2P Require Import Prelude Text Json Errors Index.

Local Open Scope Z_scope.
Local Open Scope rmcp_scope.

Record DeepBudgets := {
  b_depth : Z; b_max_functions : nat; b_max_iterations : nat; b_max_calls : Z;
  time_left : nat -> bool }.

Definition DeepBudgets_default : DeepBudgets :=
  {| b_depth := 3; b_max_functions := 20; b_max_iterations := 5; b_max_calls := 24; time_left := fun _ => true |}.

Definition clamp (lo hi x : Z) : Z := Z.max lo (Z.min hi x).

(** [budgets_from]: [clock ms] polls a deadline [ms] milliseconds away. *)
Definition budgets_from (clock : Z -> nat -> bool) (params : Value) : DeepBudgets :=
  let g k := v ← get k params; as_u64 v in
  {| b_depth := clamp 1 8 (default 3 (g "depth"));
     b_max_functions := Z.to_nat (clamp 1 100 (default 20 (g "max_functions")));
     b_max_iterations := Z.to_nat (clamp 1 20 (default 5 (g "max_iterations")));
     b_max_calls := clamp 1 200 (default 24 (g "max_calls"));
     time_left := match g "timeout_ms" with Some ms => clock (clamp 1000 1800000 ms) | None => fun _ => true end |}.

Record FunctionDossier := {
  d_ea : Z; d_name : string; d_prototype : string; d_callees : list (Z * Z); d_indirect : list Z }.
Record TypeChange := { tc_ea : Z; tc_name : string; tc_iteration : nat; tc_from : string; tc_to : string }.

Definition deep_parse_ea (s : string) : Z :=
  default 0 (ok (parse_hex_u64 (trim_start_matches "0x" (trim s)))).

Record CallSites := { direct : list (Z * Z); indirect : list Z }.
Definition pending_callees (c : CallSites) : list Z := snd <$> direct c.

Definition array_or_empty (v : Value) : list Value := default [] (as_array v).
Definition str_or_empty (v : Value) : string := default "" (as_str v).

Definition extract_call_sites (info : Value) : CallSites :=
  foldl (fun out c =>
    let call_ea := deep_parse_ea (str_or_empty (c @@ "call_ea")) in
    if default false (as_bool (c @@ "direct"))
    then {| direct := direct out ++ [(call_ea, deep_parse_ea (str_or_empty (c @@ "target_ea")))];
            indirect := indirect out |}
    else {| direct := direct out; indirect := indirect out ++ [call_ea] |})
    {| direct := []; indirect := [] |} (array_or_empty (info @@ "calls")).

Definition render_prototype (info : Value) : string :=
  let p := info @@ "prototype" in
  if default false (as_bool (p @@ "known"))
  then str_or_empty (p @@ "ret_type") +:+ ("(" +:+ (join ", " (omap as_str (array_or_empty (p @@ "arg_types"))) +:+ ")"))
  else "".

Definition function_name (idx : AnalysisIndex) (ea : Z) : string :=
  match functions idx !! ea with Some f => ff_name f | None => "sub_" +:+ show_hex ea end.

Definition has_function (idx : AnalysisIndex) (ea : Z) : bool := bool_decide (is_Some (functions idx !! ea)).

(** A set in increasing order. *)
Definition btree_elements (s : gset Z) : list Z := sort_by_key (fun x => x) (elements s).

(** ** The walk *)

(** The frontier keeps its last element, the next to be popped, in front;
    [dw_log] lists the decompilations of this run. *)
Record dwalk := {
  dw_visited : gset Z; dw_dossiers : gmap Z FunctionDossier; dw_frontier : list (Z * Z); dw_hit : bool;
  dw_log : list Z }.

Section Deep.
Context (deep_function_info : Z -> Z -> Result Value) (idx : AnalysisIndex) (budgets : DeepBudgets).

Definition dossier_of (ea : Z) (info : Value) : FunctionDossier :=
  let c := extract_call_sites info in
  {| d_ea := ea; d_name := function_name idx ea; d_prototype := render_prototype info;
     d_callees := direct c; d_indirect := indirect c |}.

(** What one turn of the loop does. *)
Inductive turn := Stop (w : dwalk) | Next (w : dwalk) | Failed (e : Error).

Definition walk_turn (w : dwalk) : turn :=
  match dw_frontier w with
  | [] => Stop w
  | (ea, depth) :: rest =>
      let skip := {| dw_visited := dw_visited w; dw_dossiers := dw_dossiers w; dw_frontier := rest;
                     dw_hit := dw_hit w; dw_log := dw_log w |} in
      if bool_decide (is_Some (dw_dossiers w !! ea)) || negb (has_function idx ea) then Next skip
      else if bool_decide (ea ∈ dw_visited w) then Next skip
      else
        let visited := {[ea]} ∪ dw_visited w in
        if (b_max_functions budgets <? size visited)%nat || (b_depth budgets <=? depth)
           || negb (time_left budgets (length (dw_log w)))
        then Stop {| dw_visited := dw_visited w; dw_dossiers := dw_dossiers w; dw_frontier := (ea, depth) :: rest;
                     dw_hit := true; dw_log := dw_log w |}
        else
          match deep_function_info ea (b_max_calls budgets) with
          | inl e => Failed e
          | inr info =>
              let dossiers := <[ea := dossier_of ea info]> (dw_dossiers w) in
              let fresh := filter (fun c => has_function idx c = true /\ dossiers !! c = None)
                             (pending_callees (extract_call_sites info)) in
              Next {| dw_visited := visited; dw_dossiers := dossiers;
                      dw_frontier := reverse ((fun c => (c, depth + 1)) <$> fresh) ++ rest;
                      dw_hit := dw_hit w; dw_log := dw_log w ++ [ea] |}
          end
  end.

Fixpoint walk (fuel : nat) (w : dwalk) : outcome (Result dwalk) :=
  match fuel with
  | O => OutOfFuel
  | S fuel' =>
      match walk_turn w with
      | Stop w' => Done (Ok w')
      | Failed e => Done (Err e)
      | Next w' => walk fuel' w'
      end
  end.

(** ** Propagation *)

Definition callers_map (ds : gmap Z FunctionDossier) : gmap Z (list Z) :=
  foldl (fun m d => foldl (fun m c => <[c.2 := default [] (m !! c.2) ++ [d_ea d]]> m) m (d_callees d)) ∅ (btree_values ds).

Definition set_prototype (p : string) (d : FunctionDossier) : FunctionDossier :=
  {| d_ea := d_ea d; d_name := d_name d; d_prototype := p; d_callees := d_callees d; d_indirect := d_indirect d |}.

Record prop_state := {
  p_dossiers : gmap Z FunctionDossier; p_changes : list TypeChange; p_changed : gset Z; p_calls : list Z }.

Definition recheck (iteration : nat) (ea : Z) (s : prop_state) : prop_state :=
  match p_dossiers s !! ea with
  | None => s
  | Some d =>
      if existsb (fun c => bool_decide (c.2 ∈ p_changed s)) (d_callees d)
      then
        match deep_function_info ea (b_max_calls budgets) with
        | inl _ => {| p_dossiers := p_dossiers s; p_changes := p_changes s; p_changed := p_changed s;
                      p_calls := p_calls s ++ [ea] |}
        | inr info =>
            let proto := render_prototype info in
            if bool_decide (proto = d_prototype d)
            then {| p_dossiers := p_dossiers s; p_changes := p_changes s; p_changed := p_changed s;
                    p_calls := p_calls s ++ [ea] |}
            else {| p_dossiers := <[ea := set_prototype proto d]> (p_dossiers s);
                    p_changes := p_changes s ++ [{| tc_ea := ea; tc_name := d_name d; tc_iteration := iteration;
                                                    tc_from := d_prototype d; tc_to := proto |}];
                    p_changed := {[ea]} ∪ p_changed s; p_calls := p_calls s ++ [ea] |}
        end
      else s
  end.

Record propagation := {
  pr_dossiers : gmap Z FunctionDossier; pr_changes : list TypeChange; pr_trace : list (nat * nat);
  pr_converged : bool; pr_calls : list Z }.

Fixpoint iterate (callers : gmap Z (list Z)) (n iteration : nat) (dirty : gset Z) (r : propagation) : propagation :=
  match n with
  | O => r
  | S n' =>
      let s := foldl (fun s ea => recheck iteration ea s)
                 {| p_dossiers := pr_dossiers r; p_changes := pr_changes r; p_changed := ∅; p_calls := pr_calls r |}
                 (btree_elements dirty) in
      let next := list_to_set (concat ((fun ea => default [] (callers !! ea)) <$> btree_elements (p_changed s))) in
      let stop := bool_decide (p_changed s = ∅) || bool_decide (next = (∅ : gset Z)) in
      let r := {| pr_dossiers := p_dossiers s; pr_changes := p_changes s;
                  pr_trace := pr_trace r ++ [(iteration, size (p_changed s))]; pr_converged := stop;
                  pr_calls := p_calls s |} in
      if stop then r else iterate callers n' (S iteration) next r
  end.

Definition propagate (w : dwalk) : propagation :=
  iterate (callers_map (dw_dossiers w)) (b_max_iterations budgets) 1 (dw_visited w)
    {| pr_dossiers := dw_dossiers w; pr_changes := []; pr_trace := []; pr_converged := false; pr_calls := [] |}.

(** ** The answer *)

Definition jhex (z : Z) : Value := JStr (show_0x z).

Definition dossier_json (d : FunctionDossier) : Value :=
  JObj [("ea", jhex (d_ea d)); ("name", JStr (d_name d)); ("prototype", JStr (d_prototype d));
        ("direct_calls", JArr ((fun c => JObj [("call_ea", jhex c.1); ("target_ea", jhex c.2)]) <$> d_callees d));
        ("indirect_calls", JArr (jhex <$> d_indirect d))].

Fixpoint insert_by_ea (v : Value) (l : list Value) : list Value :=
  match l with
  | [] => [v]
  | y :: l' => if String.leb (str_or_empty (v @@ "ea")) (str_or_empty (y @@ "ea")) then v :: y :: l'
               else y :: insert_by_ea v l'
  end.
(** [dedup_by]: an element like the one kept before it is dropped. *)
Fixpoint dedup_by_ea (last : option string) (l : list Value) : list Value :=
  match l with
  | [] => []
  | v :: l' =>
      let ea := str_or_empty (v @@ "ea") in
      if bool_decide (last = Some ea) then dedup_by_ea last l' else v :: dedup_by_ea (Some ea) l'
  end.

Definition skipped_json (visited : gset Z) (ds : gmap Z FunctionDossier) (hit : bool) : list Value :=
  let rows := concat ((fun d => omap (fun c : Z * Z =>
      if negb (bool_decide (c.2 ∈ visited)) && has_function idx c.2
      then Some (JObj [("ea", jhex c.2); ("name", JStr (function_name idx c.2));
                       ("reason", JStr (if hit then "budget" else "not reached"))])
      else None) (d_callees d)) <$> btree_values ds) in
  dedup_by_ea None (foldr insert_by_ea [] rows).

Definition change_json (c : TypeChange) : Value :=
  JObj [("function", JObj [("ea", jhex (tc_ea c)); ("name", JStr (tc_name c))]); ("iteration", jnat (tc_iteration c));
        ("from", JStr (tc_from c)); ("to", JStr (tc_to c))].

(** The token lists the frontier from its first element to the next to be popped. *)
Definition resume_token (root : Z) (ds : gmap Z FunctionDossier) (frontier : list (Z * Z)) : Value :=
  JObj [("root", jhex root);
        ("pending", JArr ((fun p => JObj [("ea", jhex p.1); ("depth", JNum p.2)]) <$> reverse frontier));
        ("dossiers", JArr (dossier_json <$> btree_values ds))].

Definition finish (root : Z) (w : dwalk) (r : propagation) : Value :=
  JObj [("root", jhex root);
        ("functions", JArr (dossier_json <$> btree_values (pr_dossiers r)));
        ("skipped", JArr (skipped_json (dw_visited w) (pr_dossiers r) (dw_hit w)));
        ("type_changes", JArr (change_json <$> pr_changes r));
        ("type_change_count", jnat (length (pr_changes r)));
        ("convergence", JObj [("converged", JBool (pr_converged r)); ("iterations", jnat (length (pr_trace r)));
           ("trace", JArr ((fun t => JObj [("iteration", jnat t.1); ("type_changes", jnat t.2)]) <$> pr_trace r));
           ("note", if pr_converged r then JNull else JStr "budget exhausted before convergence")]);
        ("budgets", JObj [("depth", JNum (b_depth budgets)); ("max_functions", jnat (b_max_functions budgets));
           ("max_iterations", jnat (b_max_iterations budgets)); ("max_calls", JNum (b_max_calls budgets))]);
        ("budget_hit", JBool (dw_hit w));
        ("visited_count", jnat (size (dw_visited w)));
        ("resume", if dw_hit w then resume_token root (pr_dossiers r) (dw_frontier w) else JNull);
        ("resume_hint", JStr (if dw_hit w
           then "pass this object back as resume_from to continue; already-visited functions are not decompiled again"
           else ""))].

(** ** Resuming *)

Definition restore_call (c : Value) : option (Z * Z) :=
  t ← as_str (c @@ "target_ea"); e ← as_str (c @@ "call_ea"); Some (deep_parse_ea t, deep_parse_ea e).

Definition restore_dossier (d : Value) : option FunctionDossier :=
  let ea := deep_parse_ea (str_or_empty (d @@ "ea")) in
  if ea =? 0 then None
  else Some {| d_ea := ea; d_name := str_or_empty (d @@ "name"); d_prototype := str_or_empty (d @@ "prototype");
               d_callees := omap restore_call (array_or_empty (d @@ "callees"));
               d_indirect := deep_parse_ea <$> omap as_str (array_or_empty (d @@ "indirect_calls")) |}.

Definition restore_pending (p : Value) : option (Z * Z) :=
  e ← as_str (p @@ "ea"); depth ← as_u64 (p @@ "depth"); Some (deep_parse_ea e, depth mod u32_modulus).

Definition start_walk (root : Z) (resume : option Value) : Result dwalk :=
  match resume with
  | None => Ok {| dw_visited := ∅; dw_dossiers := ∅; dw_frontier := [(root, 0)]; dw_hit := false; dw_log := [] |}
  | Some token =>
      match as_array (token @@ "dossiers") with
      | None => Err (Worker "bad resume token: missing dossiers")
      | Some dlist =>
          let restored := omap restore_dossier dlist in
          Ok {| dw_visited := list_to_set (d_ea <$> restored);
                dw_dossiers := foldl (fun m d => <[d_ea d := d]> m) ∅ restored;
                dw_frontier := match as_array (token @@ "pending") with
                               | Some ps => reverse (omap restore_pending ps)
                               | None => [(root, 0)]
                               end;
                dw_hit := false; dw_log := [] |}
      end
  end.

Definition deep_function (fuel : nat) (root : Z) (resume : option Value) : outcome (Result Value) :=
  if has_function idx root
  then match start_walk root resume with
       | inl e => Done (Err e)
       | inr w0 =>
           match walk fuel w0 with
           | Done (inr w) => Done (Ok (finish root w (propagate w)))
           | Done (inl e) => Done (Err e)
           | Panic => Panic
           | OutOfFuel => OutOfFuel
           end
       end
  else Done (Err (Worker ("no function at " +:+ show_0x root))).

(** ** Data-flow evidence *)

Record flow := { fl_evidence : list Value; fl_visited : gset Z; fl_truncated : bool }.

Definition evidence_row (cur : Z) (call : Value) : Value :=
  let direct := default false (as_bool (call @@ "direct")) in
  JObj [("at", JStr (str_or_empty (call @@ "call_ea")));
        ("function", JObj [("ea", jhex cur); ("name", JStr (function_name idx cur))]);
        ("target", JStr (str_or_empty (call @@ "target_name")));
        ("direct", JBool direct);
        ("confidence", JStr (if direct then "confirmed" else "heuristic"));
        ("args", JArr ((fun a => JStr (str_or_empty a)) <$> take 8 (array_or_empty (call @@ "args"))))].

Fixpoint scan_calls (direction : string) (cur : Z) (cs : list Value) (f : flow) : flow :=
  match cs with
  | [] => f
  | call :: cs' =>
      if bool_decide (direction = "backward") && negb (default false (as_bool (call @@ "direct")))
      then scan_calls direction cur cs' f
      else
        let ev := fl_evidence f ++ [evidence_row cur call] in
        if b_max_calls budgets <=? Z.of_nat (length ev)
        then {| fl_evidence := ev; fl_visited := fl_visited f; fl_truncated := true |}
        else scan_calls direction cur cs' {| fl_evidence := ev; fl_visited := fl_visited f; fl_truncated := fl_truncated f |}
  end.

Definition neighbours (direction : string) (cur : Z) : list Z :=
  match functions idx !! cur with
  | None => []
  | Some f =>
      if bool_decide (direction = "forward") then callees f
      else if bool_decide (direction = "both") then callees f ++ callers f
      else callers f
  end.

(** One level: the frontier in order, the next one accumulated. *)
Fixpoint scan_level (direction : string) (fr : list Z) (next : list Z) (f : flow) : flow * list Z :=
  match fr with
  | [] => (f, next)
  | cur :: fr' =>
      if bool_decide (cur ∈ fl_visited f) then scan_level direction fr' next f
      else
        let f := {| fl_evidence := fl_evidence f; fl_visited := {[cur]} ∪ fl_visited f; fl_truncated := fl_truncated f |} in
        if (b_max_functions budgets <? size (fl_visited f))%nat
        then ({| fl_evidence := fl_evidence f; fl_visited := fl_visited f; fl_truncated := true |}, next)
        else
          match deep_function_info cur (b_max_calls budgets) with
          | inl _ => scan_level direction fr' next f
          | inr info =>
              let f := scan_calls direction cur (array_or_empty (info @@ "calls")) f in
              if fl_truncated f then (f, next)
              else scan_level direction fr' (next ++ neighbours direction cur) f
          end
  end.

Fixpoint scan_levels (direction : string) (depth : nat) (fr : list Z) (f : flow) : flow :=
  match depth with
  | O => f
  | S d =>
      let '(f, next) := scan_level direction fr [] f in
      if fl_truncated f then f else scan_levels direction d next f
  end.

Definition confidence_count (c : string) (ev : list Value) : nat :=
  length (filter (fun e => as_str (e @@ "confidence") = Some c) ev).

Definition trace_dataflow (target : Z) (direction : string) : Result Value :=
  if has_function idx target
  then
    let f := scan_levels direction (Z.to_nat (b_depth budgets)) [target]
               {| fl_evidence := []; fl_visited := ∅; fl_truncated := false |} in
    Ok (JObj [("target", jhex target); ("direction", JStr direction); ("evidence", JArr (fl_evidence f));
              ("confirmed", jnat (confidence_count "confirmed" (fl_evidence f)));
              ("heuristic", jnat (confidence_count "heuristic" (fl_evidence f)));
              ("truncated", JBool (fl_truncated f));
              ("visited", JArr (jhex <$> btree_elements (fl_visited f)))])
  else Err (Worker ("no function at " +:+ show_0x target)).

(** ** The walk visits what the root reaches *)

(** A direct call between functions of the index, as the backend reports it. *)
Definition calls_to (x y : Z) : Prop :=
  has_function idx y = true /\
  exists info, deep_function_info x (b_max_calls budgets) = inr info /\ y ∈ pending_callees (extract_call_sites info).

Record walk_inv (root : Z) (w : dwalk) : Prop := {
  wi_log : NoDup (dw_log w);
  wi_visited : dw_visited w = list_to_set (dw_log w);
  wi_dossiers : forall x, is_Some (dw_dossiers w !! x) <-> x ∈ dw_log w;
  wi_budget : (length (dw_log w) <= b_max_functions budgets)%nat;
  wi_reach : forall x, x ∈ dw_log w \/ x ∈ (dw_frontier w).*1 -> rtc calls_to root x;
  wi_closed : forall x y, x ∈ dw_log w -> calls_to x y -> y ∈ dw_log w \/ y ∈ (dw_frontier w).*1;
  wi_root : root ∈ dw_log w \/ root ∈ (dw_frontier w).*1;
  wi_content : forall x d, dw_dossiers w !! x = Some d ->
    exists info, deep_function_info x (b_max_calls budgets) = inr info /\ d = dossier_of x info;
}.

Lemma walk_turn_skip root w ea depth rest :
  walk_inv root w -> dw_frontier w = (ea, depth) :: rest -> ea ∈ dw_log w \/ ~ rtc calls_to root ea ->
  walk_inv root {| dw_visited := dw_visited w; dw_dossiers := dw_dossiers w; dw_frontier := rest;
                   dw_hit := dw_hit w; dw_log := dw_log w |}.
Proof using Type.
  intros [H1 H2 H3 H4 H5 H6 H7 H8] Ef Hea. rewrite Ef in *. simpl in *.
  destruct Hea as [Hea | Hea]; [| destruct Hea; apply H5; right; left].
  constructor; simpl; try assumption.
  - intros x [Hx | Hx]; apply H5; [by left | right; by right].
  - intros x y Hx Hy. destruct (H6 x y Hx Hy) as [? | [-> | ?]%elem_of_cons]; tauto.
  - destruct H7 as [? | [-> | ?]%elem_of_cons]; tauto.
Qed.

Lemma reach_has_function root x : has_function idx root = true -> rtc calls_to root x -> has_function idx x = true.
Proof using Type. intros Hr H. apply rtc_inv_r in H as [-> | (y & _ & Hy & _)]; assumption. Qed.

(** A function is visited: its dossier is kept and its callees are followed. *)
Lemma walk_turn_visit root w ea depth rest info :
  walk_inv root w -> dw_frontier w = (ea, depth) :: rest -> ea ∉ dw_log w -> (length (dw_log w) < b_max_functions budgets)%nat ->
  deep_function_info ea (b_max_calls budgets) = inr info ->
  let dossiers := <[ea := dossier_of ea info]> (dw_dossiers w) in
  let fresh := filter (fun c => has_function idx c = true /\ dossiers !! c = None) (pending_callees (extract_call_sites info)) in
  has_function idx ea = true ->
  walk_inv root {| dw_visited := {[ea]} ∪ dw_visited w; dw_dossiers := dossiers;
                   dw_frontier := reverse ((fun c => (c, depth + 1)) <$> fresh) ++ rest;
                   dw_hit := dw_hit w; dw_log := dw_log w ++ [ea] |}.
Proof using Type.
  intros I Ef Hnew Hb Ei dossiers fresh Hea. pose proof I as [H1 H2 H3 H4 H5 H6 H7 H8].
  assert (forall y, calls_to ea y -> y ∈ pending_callees (extract_call_sites info)) as Hc.
  { intros y (_ & info' & E & Hy). congruence. }
  assert (forall y, y ∈ fresh -> calls_to ea y) as Hf.
  { intros y [[Hy _] Hin]%list_elem_of_filter. split; [exact Hy | eauto]. }
  assert (forall x, is_Some (dossiers !! x) <-> x ∈ dw_log w ++ [ea]) as Hdom.
  { intros x. unfold dossiers. rewrite lookup_insert_is_Some, H3, elem_of_app, list_elem_of_singleton.
    destruct (decide (ea = x)); naive_solver. }
  assert (forall x, x ∈ (reverse ((fun c => (c, depth + 1)) <$> fresh) ++ rest).*1 <-> x ∈ fresh \/ x ∈ rest.*1) as Hfr.
  { intros x. rewrite fmap_app, elem_of_app, fmap_reverse, elem_of_reverse, <- list_fmap_compose. simpl. by rewrite list_fmap_id. }
  constructor; simpl.
  - apply NoDup_app. split_and!; [exact H1 | set_solver | apply NoDup_singleton].
  - rewrite H2, list_to_set_app_L. set_solver.
  - exact Hdom.
  - rewrite length_app. simpl. lia.
  - intros x. rewrite Hfr, elem_of_app, list_elem_of_singleton.
    assert (rtc calls_to root ea) as Re by (apply H5; right; rewrite Ef; left).
    intros [[Hx | ->] | [Hx | Hx]].
    + apply H5. by left.
    + exact Re.
    + eapply rtc_r; [exact Re | by apply Hf].
    + apply H5. right. rewrite Ef. by right.
  - intros x y Hx Hxy. rewrite Hfr, elem_of_app, list_elem_of_singleton.
    apply elem_of_app in Hx as [Hx | ->%list_elem_of_singleton].
    + destruct (H6 x y Hx Hxy) as [? | Hy]; [tauto |]. rewrite Ef in Hy. apply elem_of_cons in Hy as [-> | ?]; tauto.
    + destruct (decide (y ∈ dw_log w ++ [ea])) as [Hy | Hy]; [rewrite elem_of_app, list_elem_of_singleton in Hy; tauto |].
      right. left. apply list_elem_of_filter. split; [split; [apply Hxy |] | by apply Hc].
      destruct (dossiers !! y) eqn:E; [| reflexivity]. destruct Hy. apply Hdom. by exists f.
  - rewrite Hfr, elem_of_app, list_elem_of_singleton. destruct H7 as [? | Hy]; [tauto |].
    rewrite Ef in Hy. apply elem_of_cons in Hy as [-> | ?]; tauto.
  - intros x d. unfold dossiers. intros [[<- <-] | [_ Hx]]%lookup_insert_Some; eauto.
Qed.

Lemma walk_turn_inv root w :
  has_function idx root = true -> walk_inv root w ->
  match walk_turn w with
  | Next w' => walk_inv root w'
  | Stop w' => walk_inv root w' /\ (dw_frontier w' = [] \/ dw_hit w' = true)
  | Failed _ => True
  end.
Proof using Type.
  intros Hr I. unfold walk_turn. destruct (dw_frontier w) as [| [ea depth] rest] eqn:Ef; [tauto |].
  pose proof I as [H1 H2 H3 H4 H5 H6 H7 H8].
  assert (has_function idx ea = true) as Hea.
  { apply (reach_has_function root); [exact Hr |]. apply H5. right. rewrite Ef. left. }
  destruct (bool_decide_reflect (is_Some (dw_dossiers w !! ea))) as [Hd | Hd]; simpl.
  { apply (walk_turn_skip root w ea depth); try assumption. left. by apply H3. }
  rewrite Hea. simpl.
  assert (ea ∉ dw_log w) as Hnew by (by rewrite <- H3).
  rewrite bool_decide_false by (rewrite H2, elem_of_list_to_set; exact Hnew).
  assert (size ({[ea]} ∪ dw_visited w) = S (length (dw_log w))) as Hs.
  { rewrite size_union by (rewrite H2; set_solver). rewrite size_singleton, H2, size_list_to_set by exact H1. reflexivity. }
  destruct (_ || _) eqn:Hb.
  { split; [| by right]. constructor; cbn [dw_visited dw_dossiers dw_frontier dw_log]; rewrite <- ?Ef; assumption. }
  apply orb_false_iff in Hb as [[Hb _]%orb_false_iff _]. apply Nat.ltb_ge in Hb. rewrite Hs in Hb.
  destruct (deep_function_info ea (b_max_calls budgets)) as [e | info] eqn:Ei; [exact Logic.I |].
  by apply (walk_turn_visit root w ea depth rest info).
Qed.

Lemma walk_start_inv root w0 : has_function idx root = true -> start_walk root None = inr w0 -> walk_inv root w0.
Proof using Type.
  intros _ E. apply (inj inr) in E. subst w0. constructor; simpl.
  - constructor.
  - reflexivity.
  - intros x. rewrite lookup_empty, elem_of_nil. split; [by intros [? [=]] | done].
  - lia.
  - intros x [Hx | Hx]; [by apply elem_of_nil in Hx | apply list_elem_of_singleton in Hx as ->; constructor].
  - intros x y Hx. by apply elem_of_nil in Hx.
  - right. left.
  - intros x d Hx. by rewrite lookup_empty in Hx.
Qed.

Lemma walk_inv_done root fuel w w' :
  has_function idx root = true -> walk_inv root w -> walk fuel w = Done (inr w') ->
  walk_inv root w' /\ (dw_frontier w' = [] \/ dw_hit w' = true).
Proof using Type.
  intros Hr. revert w. induction fuel as [| fuel IH]; intros w I E; simpl in E; [discriminate |].
  pose proof (walk_turn_inv root w Hr I) as T. destruct (walk_turn w); [| eauto | discriminate].
  injection E as ->. exact T.
Qed.

(** Every turn shortens the frontier or pays for a function. *)
Lemma walk_turn_progress w w' :
  walk_turn w = Next w' ->
  dw_log w' = dw_log w /\ (length (dw_frontier w') < length (dw_frontier w))%nat \/
  length (dw_log w') = S (length (dw_log w)).
Proof using Type.
  unfold walk_turn. destruct (dw_frontier w) as [| [ea depth] rest]; [discriminate |]. intros E.
  repeat match type of E with
  | context [if ?b then _ else _] => destruct b
  | context [match ?r with inl _ => _ | inr _ => _ end] => destruct r
  end; try discriminate; injection E as <-; simpl; try (left; split; [reflexivity | lia]).
  right. rewrite length_app. simpl. lia.
Qed.

Lemma log_bound root w :
  has_function idx root = true -> walk_inv root w -> (length (dw_log w) <= size (functions idx))%nat.
Proof using Type.
  intros Hr [H1 H2 _ _ H5 _ _ _]. rewrite <- (size_list_to_set (C := gset Z)) by exact H1. rewrite <- size_dom.
  apply subseteq_size. intros x Hx. apply elem_of_list_to_set in Hx.
  apply elem_of_dom. pose proof (reach_has_function root x Hr (H5 x (or_introl Hx))) as Hf.
  unfold has_function in Hf. by apply bool_decide_eq_true in Hf.
Qed.

Lemma walk_terminates root w :
  has_function idx root = true -> walk_inv root w -> exists fuel r, walk fuel w = Done r.
Proof using Type.
  intros Hr. remember (size (functions idx) - length (dw_log w))%nat as n eqn:En. revert w En.
  induction n as [n IHn] using lt_wf_ind. intros w En I.
  remember (length (dw_frontier w)) as k eqn:Ek. revert w En I Ek.
  induction k as [k IHk] using lt_wf_ind. intros w En I Ek.
  pose proof (walk_turn_inv root w Hr I) as T.
  destruct (walk_turn w) as [w1 | w1 | e] eqn:Et; [exists 1%nat; simpl; rewrite Et; eauto | | exists 1%nat; simpl; rewrite Et; eauto].
  enough (exists fuel r, walk fuel w1 = Done r) as (fuel & r & Hf) by (exists (S fuel), r; simpl; by rewrite Et).
  destruct (walk_turn_progress _ _ Et) as [[El Lt] | El].
  - rewrite <- El in En. apply (IHk (length (dw_frontier w1))); [lia | exact En | exact T | reflexivity].
  - pose proof (log_bound root w1 Hr T). eapply IHn; [| reflexivity | exact T]. lia.
Qed.

(** C19. The walk of [deep_function] terminates whatever the backend reports, and
    when it succeeds: no function is decompiled twice and at most
    [max_functions] are; the dossiers are those of the functions decompiled,
    as the backend described them; each of them is reached from the root by
    direct calls inside the index; and unless a budget was hit, every function
    so reached has its dossier. *)
Theorem deep_walk_exact root :
  has_function idx root = true ->
  exists w0, start_walk root None = inr w0 /\
    (exists fuel r, walk fuel w0 = Done r) /\
    forall fuel w, walk fuel w0 = Done (inr w) ->
      NoDup (dw_log w) /\ (length (dw_log w) <= b_max_functions budgets)%nat /\
      (forall x, x ∈ dw_log w <-> is_Some (dw_dossiers w !! x)) /\
      (forall x d, dw_dossiers w !! x = Some d ->
         rtc calls_to root x /\
         exists info, deep_function_info x (b_max_calls budgets) = inr info /\ d = dossier_of x info) /\
      (dw_hit w = false -> forall x, rtc calls_to root x -> is_Some (dw_dossiers w !! x)).
Proof using Type.
  intros Hr. eexists. split; [reflexivity |].
  pose proof (walk_start_inv root _ Hr eq_refl) as I0. split; [exact (walk_terminates root _ Hr I0) |].
  intros fuel w E. destruct (walk_inv_done root _ _ _ Hr I0 E) as [[H1 H2 H3 H4 H5 H6 H7 H8] Hend].
  split_and!; [exact H1 | exact H4 | intros x; by rewrite H3 | |].
  - intros x d Hx. split; [| eauto]. apply H5. left. apply H3. eauto.
  - intros Hh x Hx. destruct Hend as [Ef | ?]; [| congruence]. rewrite Ef in *. simpl in *.
    apply H3. revert x Hx. apply (rtc_ind_r (fun z => z ∈ dw_log w)).
    + destruct H7 as [? | ?%elem_of_nil]; tauto.
    + intros x y _ Hxy IH. destruct (H6 x y IH Hxy) as [? | ?%elem_of_nil]; tauto.
Qed.

(** ** Propagation is inert *)

Lemma recheck_nothing iteration l s :
  p_changed s = ∅ -> foldl (fun s ea => recheck iteration ea s) s l = s.
Proof using Type.
  intros E. induction l as [| ea l IH]; simpl; [reflexivity |]. replace (recheck iteration ea s) with s; [exact IH |].
  unfold recheck. destruct (p_dossiers s !! ea) as [d |]; [| reflexivity].
  replace (existsb _ _) with false; [reflexivity |]. symmetry. apply not_true_is_false.
  intros (c & _ & Hc%bool_decide_eq_true)%existsb_exists. rewrite E in Hc. set_solver.
Qed.

(** The convergence loop never rechecks a function: a recheck is guarded by
    a callee that changed in the same iteration, and no iteration starts with
    one.  So whatever the walk collected, the loop asks the backend nothing,
    reports no type change, leaves the dossiers as they are and declares
    convergence after one iteration. *)
Theorem propagation_inert w :
  b_max_iterations budgets <> 0%nat ->
  propagate w = {| pr_dossiers := dw_dossiers w; pr_changes := []; pr_trace := [(1%nat, 0%nat)]; pr_converged := true;
                   pr_calls := [] |}.
Proof using Type.
  intros Hn. unfold propagate. destruct (b_max_iterations budgets) as [| n]; [congruence |]. cbn [iterate].
  rewrite recheck_nothing by reflexivity. cbn [p_changed p_dossiers p_changes p_calls pr_dossiers pr_changes pr_calls pr_trace].
  rewrite bool_decide_true by reflexivity. reflexivity.
Qed.
End Deep.

(** ** Resuming from a token *)

Lemma strip_0x_hex n : is_u64 n -> strip_any ["0x"] (show_hex n) = None.
Proof.
  intros Hn. destruct (show_radix_digits 16 n) as [D _]; [unfold is_u64 in Hn; lia | lia |]. fold (show_hex n) in D.
  destruct (show_hex n) as [| a [| b s]]; [reflexivity | |]; cbn [strip_any strip_prefix].
  - by destruct (Ascii.eqb "0" a).
  - cbn [all_chars] in D. apply andb_true_iff in D as [_ [Db _]%andb_true_iff].
    destruct (Ascii.eqb "0" a); [| reflexivity]. destruct (Ascii.eqb_spec "x" b) as [<- |]; [| reflexivity].
    vm_compute in Db. discriminate.
Qed.

Lemma strip_once p h k : strip_any [p] h = None -> strip_all_fuel (S (S k)) [p] (p +:+ h) = h.
Proof.
  intros H. assert (strip_any [p] (p +:+ h) = Some h) as E by (cbn [strip_any]; by rewrite strip_prefix_app).
  change (match strip_any [p] (p +:+ h) with Some r => strip_all_fuel (S k) [p] r | None => p +:+ h end = h).
  rewrite E. change (match strip_any [p] h with Some r => strip_all_fuel k [p] r | None => h end = h). by rewrite H.
Qed.

Lemma deep_parse_show n : is_u64 n -> deep_parse_ea (show_0x n) = n.
Proof.
  intros Hn. unfold deep_parse_ea, show_0x, trim_start_matches.
  assert (all_chars is_graphic ("0x" +:+ show_hex n) = true) as G.
  { rewrite all_chars_app. unfold show_hex. rewrite (show_graphic 16 n) by (unfold is_u64 in Hn; lia). reflexivity. }
  rewrite trim_graphic by exact G. change (String.length ("0x" +:+ show_hex n)) with (S (S (String.length (show_hex n)))).
  rewrite strip_once by exact (strip_0x_hex n Hn).
  unfold parse_hex_u64, show_hex. rewrite parse_show by (lia || exact Hn). reflexivity.
Qed.

(** Dossiers as the walk builds them: kept under their address, with addresses in range. *)
Definition addressed (ds : gmap Z FunctionDossier) : Prop :=
  forall k d, ds !! k = Some d -> d_ea d = k /\ is_u64 k /\ k <> 0 /\ Forall is_u64 (d_indirect d).

Definition without_callees (d : FunctionDossier) : FunctionDossier :=
  {| d_ea := d_ea d; d_name := d_name d; d_prototype := d_prototype d; d_callees := []; d_indirect := d_indirect d |}.

Lemma restore_dossier_json d :
  is_u64 (d_ea d) -> d_ea d <> 0 -> Forall is_u64 (d_indirect d) ->
  restore_dossier (dossier_json d) = Some (without_callees d).
Proof.
  intros Hu Hz Hi. unfold restore_dossier.
  change (str_or_empty (dossier_json d @@ "ea")) with (show_0x (d_ea d)).
  change (str_or_empty (dossier_json d @@ "name")) with (d_name d).
  change (str_or_empty (dossier_json d @@ "prototype")) with (d_prototype d).
  change (array_or_empty (dossier_json d @@ "callees")) with (@nil Value).
  change (array_or_empty (dossier_json d @@ "indirect_calls")) with (jhex <$> d_indirect d).
  rewrite deep_parse_show by exact Hu. rewrite (proj2 (Z.eqb_neq _ _) Hz). unfold without_callees. do 2 f_equal.
  induction Hi as [| z l Hz' _ IH]; [reflexivity |]. simpl. rewrite deep_parse_show by exact Hz'. f_equal. exact IH.
Qed.

Lemma restore_pending_json ea depth :
  is_u64 ea -> is_u32 depth -> restore_pending (JObj [("ea", jhex ea); ("depth", JNum depth)]) = Some (ea, depth).
Proof.
  intros He Hd. unfold restore_pending.
  change (Some (deep_parse_ea (show_0x ea)) ≫= (fun e => as_u64 (JNum depth) ≫= fun d => Some (e, d mod u32_modulus)) = Some (ea, depth)).
  unfold as_u64. rewrite bool_decide_true by (unfold is_u32, is_u64, u32_modulus, u64_modulus in *; lia). simpl.
  by rewrite deep_parse_show, Z.mod_small.
Qed.

Lemma insert_dossiers_lookup (l : list FunctionDossier) (m : gmap Z FunctionDossier) x d :
  NoDup (d_ea <$> l) ->
  foldl (fun m d => <[d_ea d := d]> m) m l !! x = Some d <->
    (d ∈ l /\ d_ea d = x) \/ (x ∉ d_ea <$> l /\ m !! x = Some d).
Proof.
  revert m. induction l as [| e l IH]; intros m ND; simpl.
  { split; [intros H; right; split; [apply not_elem_of_nil | exact H] | intros [[H _] | [_ H]]; [by apply elem_of_nil in H | exact H]]. }
  apply NoDup_cons in ND as [Hn ND]. rewrite (IH _ ND), elem_of_cons, not_elem_of_cons, lookup_insert_Some.
  assert (d ∈ l -> d_ea d ∈ d_ea <$> l) by apply list_elem_of_fmap_2. split; [naive_solver |].
  intros [[[-> | Hd] <-] | [[Hx Hl] Hm]]; [right; split; [exact Hn |]; by left | by left; split | right].
  split; [exact Hl |]. right. split; [congruence | exact Hm].
Qed.

Lemma btree_values_nodup ds : addressed ds -> NoDup (d_ea <$> btree_values ds).
Proof.
  intros A. unfold btree_values, btree_iter. rewrite <- list_fmap_compose.
  assert (NoDup (fst <$> sort_by_key fst (map_to_list ds))) as ND.
  { rewrite sort_by_key_perm. apply NoDup_fst_map_to_list. }
  replace ((d_ea ∘ snd) <$> sort_by_key fst (map_to_list ds)) with (fst <$> sort_by_key fst (map_to_list ds)); [exact ND |].
  apply list_fmap_ext. intros i [k d] Hi. apply list_elem_of_lookup_2 in Hi. rewrite sort_by_key_perm in Hi.
  apply elem_of_map_to_list in Hi. simpl. symmetry. apply (A k d Hi).
Qed.

(** A resume token carries the walk over but not the call graph: feeding the
    token of a stopped run back restores the visited set, the pending frontier
    in its order, and every dossier with its name, prototype and indirect
    calls, while the direct calls of every restored dossier are lost (the token
    names them [direct_calls], the reader looks for [callees]). *)
Theorem resume_restores root ds fr :
  addressed ds -> Forall (fun p => is_u64 p.1 /\ is_u32 p.2) fr ->
  exists w, start_walk root (Some (resume_token root ds fr)) = inr w /\
    dw_frontier w = fr /\ (forall x, x ∈ dw_visited w <-> is_Some (ds !! x)) /\
    (forall x, dw_dossiers w !! x = without_callees <$> ds !! x).
Proof.
  intros A F. unfold start_walk. set (token := resume_token root ds fr).
  change (as_array (token @@ "dossiers")) with (Some (dossier_json <$> btree_values ds)).
  change (as_array (token @@ "pending"))
    with (Some ((fun p : Z * Z => JObj [("ea", jhex p.1); ("depth", JNum p.2)]) <$> reverse fr)). cbn match.
  assert (omap restore_dossier (dossier_json <$> btree_values ds) = without_callees <$> btree_values ds) as ->.
  { assert (Forall (fun d => is_u64 (d_ea d) /\ d_ea d <> 0 /\ Forall is_u64 (d_indirect d)) (btree_values ds)) as H.
    { apply Forall_forall. intros d (k & Hk)%elem_of_btree_values. destruct (A k d Hk) as (-> & ? & ? & ?). done. }
    induction H as [| d l (H1 & H2 & H3) _ IH]; [reflexivity |]. simpl. rewrite restore_dossier_json by assumption. f_equal. exact IH. }
  assert (d_ea <$> (without_callees <$> btree_values ds) = d_ea <$> btree_values ds) as Eea.
  { rewrite <- list_fmap_compose. reflexivity. }
  eexists. split; [reflexivity |]. cbn [dw_frontier dw_visited dw_dossiers]. split_and!.
  - rewrite <- (reverse_involutive fr) at 2. f_equal. assert (Forall (fun p => is_u64 p.1 /\ is_u32 p.2) (reverse fr)) as H by by rewrite reverse_Permutation.
    induction H as [| [ea depth] l [H1 H2] _ IH]; [reflexivity |]. simpl in H1, H2. rewrite fmap_cons.
    cbn [omap list_omap]. rewrite restore_pending_json by assumption. f_equal. exact IH.
  - intros x. rewrite Eea, elem_of_list_to_set, list_elem_of_fmap. split.
    + intros (d & -> & (k & Hk)%elem_of_btree_values). destruct (A k d Hk) as [-> _]. eauto.
    + intros [d Hd]. exists d. split; [symmetry; apply (A x d Hd) |]. apply elem_of_btree_values. eauto.
  - intros x. apply option_eq. intros d. rewrite insert_dossiers_lookup by (rewrite Eea; by apply btree_values_nodup).
    rewrite lookup_empty, list_elem_of_fmap, fmap_Some. split.
    + intros [[(e & -> & (k & Hk)%elem_of_btree_values) <-] | [_ [=]]]. destruct (A k e Hk) as [E _]. simpl. rewrite E. eauto.
    + intros (e & He & ->). left. split; [| apply (A x e He)]. exists e. split; [reflexivity |]. apply elem_of_btree_values. eauto.
Qed.

(** ** Bounds of a data-flow trace *)

Section DataFlow.
Context (deep_function_info : Z -> Z -> Result Value) (idx : AnalysisIndex) (budgets : DeepBudgets).
Hypothesis some_calls : 1 <= b_max_calls budgets.

Definition row_ok (direction : string) (e : Value) : Prop :=
  as_str (e @@ "confidence") = Some "confirmed" \/
  (as_str (e @@ "confidence") = Some "heuristic" /\ direction <> "backward").

Record flow_ok (direction : string) (f : flow) : Prop := {
  fo_rows : Forall (row_ok direction) (fl_evidence f);
  fo_length : Z.of_nat (length (fl_evidence f)) <= b_max_calls budgets;
  fo_room : fl_truncated f = false -> Z.of_nat (length (fl_evidence f)) < b_max_calls budgets;
  fo_visited : (size (fl_visited f) <= S (b_max_functions budgets))%nat;
}.

Lemma evidence_row_ok direction cur call :
  bool_decide (direction = "backward") && negb (default false (as_bool (call @@ "direct"))) = false ->
  row_ok direction (evidence_row idx cur call).
Proof using Type.
  intros H. unfold row_ok.
  change (as_str (evidence_row idx cur call @@ "confidence"))
    with (Some (if default false (as_bool (call @@ "direct")) then "confirmed" else "heuristic")).
  destruct (default false _); [by left | right]. split; [reflexivity |].
  apply andb_false_iff in H as [H | H]; [by apply bool_decide_eq_false in H | discriminate].
Qed.

Lemma scan_calls_ok direction cur cs f :
  flow_ok direction f -> fl_truncated f = false -> flow_ok direction (scan_calls idx budgets direction cur cs f).
Proof using Type.
  revert f. induction cs as [| call cs IH]; intros f [H1 H2 H3 H4] Ht; simpl; [by constructor |].
  destruct (bool_decide _ && _) eqn:Eb; [apply IH; [by constructor | exact Ht] |].
  pose proof (evidence_row_ok direction cur call Eb) as Hrow.
  assert (Forall (row_ok direction) (fl_evidence f ++ [evidence_row idx cur call])) as Hrows.
  { apply Forall_app. split; [exact H1 | by constructor]. }
  specialize (H3 Ht). destruct (Z.leb_spec (b_max_calls budgets) (Z.of_nat (length (fl_evidence f ++ [evidence_row idx cur call])))) as [L | L];
    rewrite length_app in L; simpl in L.
  - constructor; simpl; [exact Hrows | rewrite length_app; simpl; lia | discriminate | exact H4].
  - apply IH; [| exact Ht]. constructor; simpl; [exact Hrows | | | exact H4]; rewrite length_app; simpl; lia.
Qed.

Lemma scan_calls_visited direction cur cs f : fl_visited (scan_calls idx budgets direction cur cs f) = fl_visited f.
Proof using Type.
  revert f. induction cs as [| call cs IH]; intros f; simpl; [reflexivity |].
  destruct (bool_decide _ && _); [apply IH |]. destruct (_ <=? _); [reflexivity |]. by rewrite IH.
Qed.

Lemma scan_level_ok direction fr next f :
  flow_ok direction f -> fl_truncated f = false -> (size (fl_visited f) <= b_max_functions budgets)%nat ->
  let f' := (scan_level deep_function_info idx budgets direction fr next f).1 in
  flow_ok direction f' /\ (fl_truncated f' = false -> (size (fl_visited f') <= b_max_functions budgets)%nat).
Proof using some_calls.
  revert next f. induction fr as [| cur fr IH]; intros next f F Ht Hs; simpl; [by split |].
  destruct (bool_decide_reflect (cur ∈ fl_visited f)) as [Hin | Hin]; [by apply IH |].
  assert (size ({[cur]} ∪ fl_visited f) = S (size (fl_visited f))) as Hu.
  { rewrite size_union by set_solver. by rewrite size_singleton. }
  destruct F as [H1 H2 H3 H4].
  destruct (Nat.ltb_spec (b_max_functions budgets) (size ({[cur]} ∪ fl_visited f))) as [L | L].
  { simpl. split; [| discriminate]. constructor; simpl; try assumption; [discriminate | lia]. }
  set (f1 := {| fl_visited := {[cur]} ∪ fl_visited f |}).
  assert (flow_ok direction f1) as F1 by (constructor; simpl; try assumption; lia).
  destruct (deep_function_info cur (b_max_calls budgets)) as [e | info]; [by apply IH |].
  pose proof (scan_calls_ok direction cur (array_or_empty (info @@ "calls")) f1 F1 Ht) as F2.
  pose proof (scan_calls_visited direction cur (array_or_empty (info @@ "calls")) f1) as V2.
  destruct (fl_truncated (scan_calls _ _ _ _ _ _)) eqn:T2; simpl; [split; [exact F2 | congruence] |].
  apply IH; [exact F2 | exact T2 |]. rewrite V2. exact L.
Qed.

Lemma scan_levels_ok direction depth fr f :
  flow_ok direction f -> fl_truncated f = false -> (size (fl_visited f) <= b_max_functions budgets)%nat ->
  flow_ok direction (scan_levels deep_function_info idx budgets direction depth fr f).
Proof using some_calls.
  revert fr f. induction depth as [| d IH]; intros fr f F Ht Hs; simpl; [exact F |].
  destruct (scan_level_ok direction fr [] f F Ht Hs) as [F1 S1].
  destruct (scan_level _ _ _ direction fr [] f) as [f1 next]. simpl in *.
  destruct (fl_truncated f1) eqn:T; [exact F1 | apply IH; auto].
Qed.

Lemma confidence_split direction ev :
  Forall (row_ok direction) ev ->
  (confidence_count "confirmed" ev + confidence_count "heuristic" ev = length ev)%nat /\
  (direction = "backward" -> confidence_count "heuristic" ev = 0%nat).
Proof using Type.
  unfold confidence_count. induction 1 as [| e ev H _ [IH1 IH2]]; [done |]. rewrite !filter_cons. simpl length.
  destruct H as [E | [E N]]; rewrite !E.
  - rewrite decide_True, decide_False by done. simpl. split; [lia | exact IH2].
  - rewrite decide_False, decide_True by done. simpl. split; [lia | congruence].
Qed.

(** A data-flow trace respects its budgets: it holds at most [max_calls]
    rows and visits at most one function more than [max_functions]; every row
    is counted as confirmed or as heuristic, and a backward trace has no
    heuristic row. *)
Theorem dataflow_trace_bounds target direction out :
  trace_dataflow deep_function_info idx budgets target direction = inr out ->
  exists ev vs c h,
    out @@ "evidence" = JArr ev /\ out @@ "visited" = JArr vs /\ out @@ "confirmed" = jnat c /\ out @@ "heuristic" = jnat h /\
    Z.of_nat (length ev) <= b_max_calls budgets /\ (length vs <= S (b_max_functions budgets))%nat /\
    (c + h = length ev)%nat /\ (direction = "backward" -> h = 0%nat).
Proof using some_calls.
  unfold trace_dataflow. destruct (has_function idx target); [| discriminate]. intros E. apply (inj inr) in E. subst out.
  set (f := scan_levels _ _ _ _ _ _ _).
  assert (flow_ok direction f) as [H1 H2 _ H4].
  { apply scan_levels_ok; [| reflexivity | apply Nat.le_0_l].
    constructor; simpl; [constructor | lia | lia | apply Nat.le_0_l]. }
  destruct (confidence_split direction _ H1) as [C1 C2].
  eexists (fl_evidence f), _, _, _. split_and!; try reflexivity; [exact H2 | | exact C1 | exact C2].
  rewrite length_fmap. unfold btree_elements. rewrite length_sort_by_key. exact H4.
Qed.
End DataFlow.

(** ** Examples *)

Definition call_to (site target : Z) : Value :=
  JObj [("call_ea", jhex site); ("target_ea", jhex target); ("direct", JBool true); ("target_name", JStr "f")].
(** [0x10] calls [0x20] and [0x30], which calls [0x10] back. *)
Definition sample_info (ea max_calls : Z) : Result Value :=
  Ok (JObj [("calls", JArr (if ea =? 16 then [call_to 17 32; call_to 18 48]
                            else if ea =? 48 then [call_to 49 16; JObj [("call_ea", jhex 50)]] else []));
            ("prototype", JObj [("known", JBool true); ("ret_type", JStr "int"); ("arg_types", JArr [JStr "int"])])]).
Definition sample_index : AnalysisIndex := {|
  schema_version := 1; binary_md5 := ""; idx_revision := 0; idx_strings := [];
  functions := list_to_map ((fun ea => (ea, facts ea "f" [] [] 0 [])) <$> [16; 32; 48]) |}.

Lemma deep_walk_exact_witness :
  has_function sample_index 16 = true /\
  exists w, walk sample_info sample_index DeepBudgets_default 10
      {| dw_visited := ∅; dw_dossiers := ∅; dw_frontier := [(16, 0)]; dw_hit := false; dw_log := [] |} = Done (inr w) /\
    dw_log w = [16; 48; 32] /\ NoDup (dw_log w).
Proof.
  split; [reflexivity |].
  destruct (deep_walk_exact sample_info sample_index DeepBudgets_default 16 eq_refl) as (w0 & E0 & _ & H).
  apply (inj inr) in E0. subst w0.
  destruct (walk sample_info sample_index DeepBudgets_default 10 _) as [[e | w] | |] eqn:E; try (vm_compute in E; discriminate).
  exists w. split; [reflexivity |]. split; [| exact (proj1 (H 10%nat w E))].
  assert (match walk sample_info sample_index DeepBudgets_default 10
      {| dw_visited := ∅; dw_dossiers := ∅; dw_frontier := [(16, 0)]; dw_hit := false; dw_log := [] |} with
    | Done (inr w) => dw_log w = [16; 48; 32] | _ => False end) as L by (vm_compute; reflexivity).
  rewrite E in L. exact L.
Defined.

Lemma propagation_inert_witness :
  b_max_iterations DeepBudgets_default <> 0%nat /\
  pr_changes (propagate sample_info DeepBudgets_default
    {| dw_visited := {[16]}; dw_dossiers := ∅; dw_frontier := []; dw_hit := false; dw_log := [16] |}) = [].
Proof. split; [discriminate |]. rewrite propagation_inert by discriminate. reflexivity. Defined.

Definition sample_dossiers : gmap Z FunctionDossier :=
  {[16 := {| d_ea := 16; d_name := "main"; d_prototype := "int()"; d_callees := [(17, 32)]; d_indirect := [18] |}]}.

Lemma resume_restores_witness :
  exists w, start_walk 16 (Some (resume_token 16 sample_dossiers [(48, 1); (32, 1)])) = inr w /\
    dw_frontier w = [(48, 1); (32, 1)] /\ d_callees <$> dw_dossiers w !! 16 = Some [].
Proof.
  destruct (resume_restores 16 sample_dossiers [(48, 1); (32, 1)]) as (w & E & F & _ & D).
  - unfold sample_dossiers. intros k d [<- <-]%lookup_singleton_Some. simpl. unfold is_u64, u64_modulus. split_and!; [reflexivity | lia | lia | lia |].
    constructor; [lia | constructor].
  - constructor; [| constructor; [| constructor]]; unfold is_u64, is_u32, u64_modulus, u32_modulus; simpl; lia.
  - exists w. split; [exact E |]. split; [exact F |]. rewrite D. reflexivity.
Defined.

Lemma dataflow_trace_bounds_witness :
  exists out ev, trace_dataflow sample_info sample_index DeepBudgets_default 16 "backward" = inr out /\
    out @@ "evidence" = JArr ev /\ Z.of_nat (length ev) <= 24.
Proof.
  destruct (trace_dataflow sample_info sample_index DeepBudgets_default 16 "backward") as [e | out] eqn:E; [vm_compute in E; discriminate |].
  destruct (dataflow_trace_bounds sample_info sample_index DeepBudgets_default ltac:(simpl; lia) 16 "backward" out E)
    as (ev & vs & c & h & H1 & _ & _ & _ & H2 & _).
  exists out, ev. split; [reflexivity |]. split; [exact H1 | exact H2].
Defined.
