(* ===== verification/ValueAn.v ===== *)
(** * ValueAn: constant arguments of call sites

    Models [rmcp-worker/src/valuean.rs]: the constants passed at the call
    sites of a function and of its callees, merged per argument position, and
    the proposals for indirect calls.  The backend's [deep_function_info] and
    [type_vtable_scan] and the Unicode property [char::is_alphanumeric] (on
    the bytes of one character) are parameters of the section. *)

From stdpp Require Import base list gmap strings sorting relations.
From Stdlib Require Import ZArith Lia Ascii.
From S2P Require Import Prelude Text Json Errors Index Deep.

Local Open Scope Z_scope.
Local Open Scope rmcp_scope.

Record ValueRow := { vr_ea : Z; vr_function : string; vr_kind : string; vr_values : list Z; vr_at : list Z }.

Definition row_confidence (r : ValueRow) : string :=
  match length (vr_values r) with
  | O => "unknown"
  | 1%nat => "confirmed"
  | n => if (n <=? 4)%nat then "set" else "heuristic"
  end.

Definition row_json (r : ValueRow) : Value :=
  JObj [("kind", JStr (vr_kind r)); ("function", JStr (vr_function r)); ("ea", JStr (show_0x (vr_ea r)));
        ("values", JArr (JStr ∘ show_0x <$> vr_values r)); ("at", JArr (JStr ∘ show_0x <$> vr_at r));
        ("confidence", JStr (row_confidence r))].

(** ** Parsing *)

Definition parse_hex_or_dec (s : string) : option Z :=
  let t := trim s in
  match (match strip_prefix "0x" t with Some h => Some h | None => strip_prefix "0X" t end) with
  | Some hex => v ← ok (parse_hex_u64 hex); if bool_decide (hex = "") then None else Some v
  | None =>
      if negb (bool_decide (t = "")) && all_chars is_ascii_digit t then ok (parse_u64 t) else None
  end.

(** The index keeps addresses of globals, not names: no name resolves. *)
Definition lookup_global (idx : AnalysisIndex) (name : string) : option Z := None.

(** [t.find(['+', '-'])] with what is before, the sign and what is after. *)
Fixpoint split_sign (s : string) : option (string * ascii * string) :=
  match s with
  | EmptyString => None
  | String c s' =>
      if bool_decide (c = "+"%char) || bool_decide (c = "-"%char) then Some ("", c, s')
      else match split_sign s' with Some (a, sign, b) => Some (String c a, sign, b) | None => None end
  end.

Definition parse_const_expr (text : string) (idx : AnalysisIndex) : option Z :=
  let t := trim text in
  match parse_hex_or_dec t with
  | Some v => Some v
  | None =>
      match split_sign t with
      | Some (name, sign, off_text) =>
          if bool_decide (name = "") then None
          else
            let off := default 0 (parse_hex_or_dec off_text) in
            base ← lookup_global idx (trim name);
            Some (if bool_decide (sign = "-"%char) then wrapping_sub64 base off else wrapping_add64 base off)
      | None => None
      end
  end.

(** The bytes that continue a character. *)
Fixpoint span_cont (s : string) : string * string :=
  match s with
  | String c s' => if (128 <=? ord c) && (ord c <? 192) then let '(a, b) := span_cont s' in (String c a, b) else ("", s)
  | EmptyString => ("", "")
  end.

Section ValueAnalysis.
Context (deep_function_info : Z -> Z -> Result Value) (type_vtable_scan : Z -> Z -> Result Value).
Context (is_alphanumeric : string -> bool).
Context (idx : AnalysisIndex) (budgets : DeepBudgets).

Definition ident_char (c : string) : bool := is_alphanumeric c || bool_decide (c = "_") || bool_decide (c = "@").

(** The text before the first character outside an identifier; [None] when there is none. *)
Fixpoint ident_prefix (fuel : nat) (s acc : string) : option string :=
  match fuel, s with
  | S f, String c s' =>
      let '(k, rest) := span_cont s' in
      if ident_char (String c k) then ident_prefix f rest (acc +:+ String c k) else Some acc
  | _, _ => None
  end.

Definition base_object (rendered : string) : option string :=
  let inner := trim rendered in
  let rest := strip_all_fuel (String.length inner) ["(*"; "(&"] inner in
  name ← ident_prefix (String.length rest) rest "";
  if bool_decide (name = "") || bool_decide (is_Some (ok (parse_u64 name))) then None else Some name.

Fixpoint slot_proposals (base : string) (n : nat) (slots : list Value) (acc : list Value) : list Value :=
  match slots with
  | [] => acc
  | slot :: rest =>
      let target := deep_parse_ea (str_or_empty (slot @@ "target_ea")) in
      if negb (default false (as_bool (slot @@ "is_code"))) || (target =? 0) then slot_proposals base (S n) rest acc
      else
        let acc := acc ++ [JObj [("target_ea", JStr (show_0x target)); ("name", JStr (str_or_empty (slot @@ "name")));
                                 ("via", JStr (base +:+ ("+" +:+ show_dec (Z.of_nat n)))); ("confidence", JStr "set")]] in
        if (4 <=? length acc)%nat then acc else slot_proposals base (S n) rest acc
  end.

Definition proposals (rendered : string) : list Value :=
  match base_object rendered with
  | Some base =>
      match lookup_global idx base with
      | Some base_ea => slot_proposals base 0 (array_or_empty (default JNull (ok (type_vtable_scan base_ea 8)) @@ "slots")) []
      | None => []
      end
  | None => []
  end.

Definition indirect_proposal (ea : Z) (fname : string) (call_ea : Z) (call : Value) : Value :=
  let rendered := str_or_empty (call @@ "target_name") in
  let ps := proposals rendered in
  JObj [("function", JStr fname); ("ea", JStr (show_0x ea)); ("call_ea", JStr (show_0x call_ea)); ("rendered", JStr rendered);
        ("proposals", JArr ps);
        ("note", if bool_decide (ps = []) then JStr "no resolvable target; evidence kept for the agent" else JNull)].

(** ** Collection *)

Abbreviation Rows := (gmap (Z * string) ValueRow).
Record vstate := { v_merged : Rows; v_indirect : list Value; v_truncated : bool }.

Definition add_value (ea : Z) (fname kind : string) (v call_ea : Z) (m : Rows) : Rows :=
  let row := default {| vr_ea := ea; vr_function := fname; vr_kind := kind; vr_values := []; vr_at := [] |} (m !! (ea, kind)) in
  <[(ea, kind) :=
     {| vr_ea := vr_ea row; vr_function := vr_function row; vr_kind := vr_kind row;
        vr_values := if bool_decide (v ∈ vr_values row) then vr_values row else sort_by_key id (vr_values row ++ [v]);
        vr_at := if bool_decide (call_ea ∈ vr_at row) then vr_at row else vr_at row ++ [call_ea] |}]> m.

Definition arg_kind (n : nat) : string := "arg" +:+ show_dec (Z.of_nat n).

(** The constants among the arguments of a call, with their positions. *)
Definition const_args (call : Value) : list (nat * Z) :=
  omap (fun na => text ← as_str na.2; v ← parse_const_expr text idx; Some (na.1, v)) (imap pair (array_or_empty (call @@ "args"))).

(** The address of a call site: what is before a [+]. *)
Definition site_of (call : Value) : option Z :=
  text ← as_str (call @@ "call_ea");
  let call_ea := deep_parse_ea (hd "" (split_on "+" text)) in
  if call_ea =? 0 then None else Some call_ea.

Definition collect_call (ea : Z) (fname : string) (max_calls : Z) (s : vstate) (call : Value) : vstate :=
  match site_of call with
  | None => s
  | Some call_ea =>
      let merged := foldl (fun m nv => add_value ea fname (arg_kind nv.1) nv.2 call_ea m) (v_merged s) (const_args call) in
      if default false (as_bool (call @@ "direct"))
      then {| v_merged := merged; v_indirect := v_indirect s; v_truncated := v_truncated s |}
      else if max_calls <=? Z.of_nat (length (v_indirect s))
      then {| v_merged := merged; v_indirect := v_indirect s; v_truncated := true |}
      else {| v_merged := merged; v_indirect := v_indirect s ++ [indirect_proposal ea fname call_ea call]; v_truncated := v_truncated s |}
  end.

Definition calls_of (info : Value) : list Value := take (Z.to_nat (b_max_calls budgets)) (array_or_empty (info @@ "calls")).

Definition collect_function_values (ea : Z) (s : vstate) : Result vstate :=
  info <-? deep_function_info ea (b_max_calls budgets);
  Ok (foldl (collect_call ea (function_name idx ea) (b_max_calls budgets)) s (calls_of info)).

(** ** The extension over callees *)

(** One frontier: the visited set, the next frontier, the state. *)
Fixpoint visit_level (fr next : list Z) (visited : gset Z) (s : vstate) : Result (list Z * gset Z * vstate) :=
  let stop := {| v_merged := v_merged s; v_indirect := v_indirect s; v_truncated := true |} in
  match fr with
  | [] => Ok (next, visited, s)
  | callee :: rest =>
      if (b_max_functions budgets <=? size visited)%nat then Ok (next, visited, stop)
      else if bool_decide (callee ∈ visited) then visit_level rest next visited s
      else
        let visited := {[callee]} ∪ visited in
        match functions idx !! callee with
        | None => visit_level rest next visited s
        | Some f =>
            if b_max_calls budgets <=? Z.of_nat (size (v_merged s) + length (v_indirect s)) then Ok (next, visited, stop)
            else
              s <-? collect_function_values callee s;
              visit_level rest (next ++ callees f) visited s
        end
  end.

(** [while depth_used < budgets.depth.max(1) && !frontier.is_empty()]: [n] turns are left. *)
Fixpoint visit_levels (n : nat) (depth_used : nat) (fr : list Z) (visited : gset Z) (s : vstate) : Result (nat * gset Z * vstate) :=
  match n, fr with
  | O, _ | _, [] => Ok (depth_used, visited, s)
  | S n', _ =>
      if negb (time_left budgets (depth_used - 1))
      then Ok (depth_used, visited, {| v_merged := v_merged s; v_indirect := v_indirect s; v_truncated := true |})
      else
        r <-? visit_level fr [] visited s;
        visit_levels n' (S depth_used) r.1.1 r.1.2 r.2
  end.

Definition levels : nat := Z.to_nat (Z.max 1 (b_depth budgets) - 1).

Definition analyze (root : Z) : Result (nat * gset Z * vstate) :=
  s <-? collect_function_values root {| v_merged := ∅; v_indirect := []; v_truncated := false |};
  visit_levels levels 1 (match functions idx !! root with Some f => callees f | None => [] end) {[root]} s.

(** ** The report *)

Definition key_leb (x y : Z * string) : bool := (x.1 <? y.1) || ((x.1 =? y.1) && String.leb x.2 y.2).
(** [merged.into_values()]: by address and kind. *)
Definition merged_values (m : Rows) : list ValueRow := snd <$> sort_by (fun x y => key_leb x.1 y.1) (map_to_list m).
Definition row_leb (x y : ValueRow) : bool :=
  bool_decide (vr_function x <> vr_function y) && String.leb (vr_function x) (vr_function y)
  || bool_decide (vr_function x = vr_function y) && String.leb (vr_kind x) (vr_kind y).

Definition value_analysis (root : Z) : Result Value :=
  if has_function idx root then
    r <-? analyze root;
    let '(depth_used, _, s) := r in
    let max := Z.to_nat (b_max_calls budgets) in
    let targets := sort_by row_leb (merged_values (v_merged s)) in
    let truncated := v_truncated s || (max <? length targets)%nat || (max <? length (v_indirect s))%nat in
    Ok (JObj [("ea", JStr (show_0x root)); ("function", JStr (function_name idx root)); ("depth_used", jnat depth_used);
              ("truncated", JBool truncated); ("targets", JArr (row_json <$> take max targets));
              ("indirect", JArr (take max (v_indirect s)))])
  else Err (Worker ("no function at " +:+ show_0x root)).
End ValueAnalysis.

(** ** Evidence *)

(** A constant [v] passed in position [kind] at the call site [site] of [ea]. *)
Abbreviation Ev := (Z * string * Z * Z)%type.

Definition add_ev (idx : AnalysisIndex) (m : gmap (Z * string) ValueRow) (e : Ev) : gmap (Z * string) ValueRow :=
  let '(ea, kind, v, site) := e in add_value ea (function_name idx ea) kind v site m.

Definition merge (idx : AnalysisIndex) (evs : list Ev) : gmap (Z * string) ValueRow := foldl (add_ev idx) ∅ evs.

(** A row is what its evidence says. *)
Record row_exact (idx : AnalysisIndex) (evs : list Ev) (ea : Z) (kind : string) (r : ValueRow) : Prop := {
  rx_key : vr_ea r = ea /\ vr_kind r = kind /\ vr_function r = function_name idx ea;
  rx_sorted : StronglySorted Z.lt (vr_values r);
  rx_sites : NoDup (vr_at r);
  rx_values v : v ∈ vr_values r <-> exists site, (ea, kind, v, site) ∈ evs;
  rx_at site : site ∈ vr_at r <-> exists v, (ea, kind, v, site) ∈ evs;
}.

Lemma sorted_nodup_lt (l : list Z) : StronglySorted (key_le id) l -> NoDup l -> StronglySorted Z.lt l.
Proof.
  induction 1 as [| x l Hs IH Hx]; intros Hn; [constructor |]. apply NoDup_cons in Hn as [Hn1 Hn2].
  constructor; [by apply IH |]. rewrite Forall_forall in *. intros y Hy. specialize (Hx y Hy).
  unfold key_le, id in Hx. assert (x <> y) by congruence. lia.
Qed.

Lemma sorted_insert_lt v l :
  StronglySorted Z.lt l -> v ∉ l -> StronglySorted Z.lt (sort_by_key id (l ++ [v])).
Proof.
  intros Hs Hv. apply sorted_nodup_lt; [apply (sort_by_key_sorted id) |].
  rewrite sort_by_key_perm. apply NoDup_app. split_and!; [by apply StronglySorted_lt_NoDup | | apply NoDup_singleton].
  intros x Hx ->%list_elem_of_singleton. done.
Qed.

Lemma add_ev_exact idx evs e m :
  (forall ea kind, match m !! (ea, kind) with
     | Some r => row_exact idx evs ea kind r
     | None => forall v site, (ea, kind, v, site) ∉ evs end) ->
  forall ea kind, match add_ev idx m e !! (ea, kind) with
     | Some r => row_exact idx (evs ++ [e]) ea kind r
     | None => forall v site, (ea, kind, v, site) ∉ evs ++ [e] end.
Proof.
  intros Hm ea kind. destruct e as [[[ea' kind'] v'] site']. cbn [add_ev]. unfold add_value.
  specialize (Hm ea kind). destruct (decide ((ea', kind') = (ea, kind))) as [E | Hne].
  - injection E as -> ->. rewrite lookup_insert_eq.
    set (row := default _ _).
    assert (Hr : row_exact idx evs ea kind row).
    { unfold row. destruct (m !! (ea, kind)) as [r |]; cbn [default id]; [exact Hm |].
      constructor; cbn [vr_ea vr_kind vr_function vr_values vr_at]; [done | constructor | constructor | |];
        intros x; (split; [intros Hx; inversion Hx | intros [y Hy]; by apply Hm in Hy]). }
    destruct Hr as [H1 H2 H3 H4 H5]. constructor; cbn [vr_ea vr_kind vr_function vr_values vr_at].
    + exact H1.
    + case_bool_decide; [exact H2 | by apply sorted_insert_lt].
    + case_bool_decide; [exact H3 |]. apply NoDup_app. split_and!; [exact H3 | | apply NoDup_singleton].
      intros x Hx ->%list_elem_of_singleton. done.
    + intros v. setoid_rewrite elem_of_app. setoid_rewrite list_elem_of_singleton.
      assert (v ∈ (if bool_decide (v' ∈ vr_values row) then vr_values row else sort_by_key id (vr_values row ++ [v'])) <->
              v ∈ vr_values row \/ v = v') as ->.
      { case_bool_decide; [split; [by left | intros [? | ->]; assumption] |].
        rewrite sort_by_key_perm, elem_of_app, list_elem_of_singleton. done. }
      rewrite H4. split; [intros [[s Hs] | ->]; eauto | intros [s [Hs | [= -> _]]]; eauto].
    + intros s. setoid_rewrite elem_of_app. setoid_rewrite list_elem_of_singleton.
      assert (s ∈ (if bool_decide (site' ∈ vr_at row) then vr_at row else vr_at row ++ [site']) <->
              s ∈ vr_at row \/ s = site') as ->.
      { case_bool_decide; [split; [by left | intros [? | ->]; assumption] |].
        rewrite elem_of_app, list_elem_of_singleton. done. }
      rewrite H5. split; [intros [[v Hv] | ->]; eauto | intros [v [Hv | [= _ ->]]]; eauto].
  - rewrite lookup_insert_ne by congruence.
    assert (Hin : forall v s, (ea, kind, v, s) ∈ evs ++ [(ea', kind', v', site')] <-> (ea, kind, v, s) ∈ evs).
    { intros v s. rewrite elem_of_app, list_elem_of_singleton. split; [intros [? | E]; [assumption | congruence] | by left]. }
    destruct (m !! (ea, kind)) as [r |]; [| intros v s; rewrite Hin; apply Hm].
    destruct Hm as [H1 H2 H3 H4 H5]. constructor; [exact H1 | exact H2 | exact H3 | |].
    + intros v. rewrite H4. by setoid_rewrite Hin.
    + intros s. rewrite H5. by setoid_rewrite Hin.
Qed.

Lemma merge_exact idx evs ea kind :
  match merge idx evs !! (ea, kind) with
  | Some r => row_exact idx evs ea kind r
  | None => forall v site, (ea, kind, v, site) ∉ evs
  end.
Proof.
  revert ea kind. induction evs as [| e evs IH] using rev_ind.
  - intros ea kind. cbn. rewrite lookup_empty. intros v s. apply not_elem_of_nil.
  - unfold merge. rewrite foldl_app. cbn [foldl]. apply add_ev_exact, IH.
Qed.

Section Exact.
Context (deep_function_info : Z -> Z -> Result Value) (type_vtable_scan : Z -> Z -> Result Value).
Context (is_alphanumeric : string -> bool).
Context (idx : AnalysisIndex) (budgets : DeepBudgets).
Abbreviation collect := (collect_call type_vtable_scan is_alphanumeric idx).
Abbreviation collect_function := (collect_function_values deep_function_info type_vtable_scan is_alphanumeric idx budgets).

Definition call_evidence (ea : Z) (call : Value) : list Ev :=
  match site_of call with
  | Some site => (fun nv => (ea, arg_kind nv.1, nv.2, site)) <$> const_args idx call
  | None => []
  end.

(** The constants at the call sites of a function, as the backend describes it. *)
Definition evidence_of (ea : Z) : list Ev :=
  match deep_function_info ea (b_max_calls budgets) with
  | inr info => calls_of budgets info ≫= call_evidence ea
  | inl _ => []
  end.

Lemma collect_call_merged ea max s call :
  v_merged (collect ea (function_name idx ea) max s call) = foldl (add_ev idx) (v_merged s) (call_evidence ea call).
Proof using Type.
  unfold collect_call, call_evidence. destruct (site_of call) as [site |]; [| reflexivity].
  rewrite foldl_fmap. destruct (default false _); [| destruct (_ <=? _)]; reflexivity.
Qed.

Lemma collect_calls_merged ea max calls s :
  v_merged (foldl (collect ea (function_name idx ea) max) s calls) = foldl (add_ev idx) (v_merged s) (calls ≫= call_evidence ea).
Proof using Type.
  revert s. induction calls as [| c calls IH]; intros s; [reflexivity |]. cbn [foldl mbind list_bind].
  rewrite IH, collect_call_merged, foldl_app. reflexivity.
Qed.

Lemma collect_function_merged ea evs s s' :
  v_merged s = merge idx evs -> collect_function ea s = inr s' -> v_merged s' = merge idx (evs ++ evidence_of ea).
Proof using Type.
  intros Hs E. unfold collect_function_values in E. unfold evidence_of.
  destruct (deep_function_info ea (b_max_calls budgets)) as [e | info]; [discriminate |]. injection E as <-.
  rewrite collect_calls_merged, Hs. unfold merge. by rewrite foldl_app.
Qed.

Definition calls (x y : Z) : Prop := exists f, functions idx !! x = Some f /\ y ∈ callees f.

Record vinv (root : Z) (L : list Z) (visited : gset Z) (s : vstate) : Prop := {
  vi_merged : v_merged s = merge idx (L ≫= evidence_of);
  vi_nodup : NoDup L;
  vi_root : root ∈ L;
  vi_visited x : x ∈ L -> x ∈ visited;
  vi_reach x : x ∈ L -> rtc calls root x;
  vi_size : (size visited <= b_max_functions budgets `max` 1)%nat;
}.

Lemma vinv_stop root L visited s :
  vinv root L visited s -> vinv root L visited {| v_merged := v_merged s; v_indirect := v_indirect s; v_truncated := true |}.
Proof using Type. intros [H1 H2 H3 H4 H5 H6]. by constructor. Qed.

Lemma vinv_visit root L visited s x :
  vinv root L visited s -> (size visited < b_max_functions budgets)%nat -> x ∉ visited -> vinv root L ({[x]} ∪ visited) s.
Proof using Type.
  intros [H1 H2 H3 H4 H5 H6] Hsz Hx. constructor; try assumption; [intros y Hy; apply elem_of_union_r; auto |].
  rewrite size_union by by apply disjoint_singleton_l. rewrite size_singleton. lia.
Qed.

Lemma vinv_collect root L visited s s' x :
  vinv root L visited s -> x ∉ L -> x ∈ visited -> rtc calls root x -> collect_function x s = inr s' ->
  vinv root (L ++ [x]) visited s'.
Proof using Type.
  intros [H1 H2 H3 H4 H5 H6] HL Hv Hr E. constructor.
  - rewrite bind_app. cbn [mbind list_bind]. rewrite app_nil_r. by apply (collect_function_merged x _ s s').
  - apply NoDup_app. split_and!; [done | | apply NoDup_singleton]. intros y Hy ->%list_elem_of_singleton. done.
  - apply elem_of_app. by left.
  - intros y. rewrite elem_of_app, list_elem_of_singleton. intros [? | ->]; auto.
  - intros y. rewrite elem_of_app, list_elem_of_singleton. intros [? | ->]; auto.
  - exact H6.
Qed.

Abbreviation level := (visit_level deep_function_info type_vtable_scan is_alphanumeric idx budgets).

Lemma visit_level_inv root fr next visited s L next' visited' s' :
  vinv root L visited s -> Forall (rtc calls root) fr -> Forall (rtc calls root) next ->
  level fr next visited s = inr (next', visited', s') ->
  exists L', vinv root L' visited' s' /\ Forall (rtc calls root) next'.
Proof using Type.
  revert next visited s L. induction fr as [| x fr IH]; intros next visited s L I Hf Hn E; cbn [visit_level] in E.
  { injection E as <- <- <-. eauto. }
  apply Forall_cons in Hf as [Hx Hf].
  destruct (Nat.leb_spec (b_max_functions budgets) (size visited)); [injection E as <- <- <-; eauto using vinv_stop |].
  case_bool_decide as Hv; [by eapply IH in E |].
  pose proof (vinv_visit _ _ _ _ _ I H Hv) as I'.
  destruct (functions idx !! x) as [f |] eqn:Ef; [| by eapply IH in E].
  destruct (_ <=? _); [injection E as <- <- <-; eauto using vinv_stop |].
  destruct (collect_function x s) as [e | s1] eqn:Ec; [discriminate |]. cbn [bindR] in E.
  eapply IH in E; [exact E | | exact Hf |].
  - eapply vinv_collect; [exact I' | | by apply elem_of_union_l, elem_of_singleton | exact Hx | exact Ec]. intros HL. by apply (vi_visited _ _ _ _ I) in HL.
  - apply Forall_app. split; [exact Hn |]. apply Forall_forall. intros y Hy. eapply rtc_r; [exact Hx |]. exists f. by split.
Qed.

Lemma visit_levels_inv root n d fr visited s L d' visited' s' :
  vinv root L visited s -> Forall (rtc calls root) fr ->
  visit_levels deep_function_info type_vtable_scan is_alphanumeric idx budgets n d fr visited s = inr (d', visited', s') ->
  exists L', vinv root L' visited' s'.
Proof using Type.
  revert d fr visited s L. induction n as [| n IH]; intros d fr visited s L I Hf E; cbn [visit_levels] in E.
  { injection E as <- <- <-. eauto. }
  destruct fr as [| x fr]; [injection E as <- <- <-; eauto |].
  destruct (negb _); [injection E as <- <- <-; eauto using vinv_stop |].
  destruct (level (x :: fr) [] visited s) as [e | [[next v1] s1]] eqn:El; [discriminate |]. cbn [bindR fst snd] in E.
  apply (visit_level_inv root _ _ _ _ L) in El as (L' & I' & Hn); [| exact I | exact Hf | constructor].
  by eapply IH in E.
Qed.

Lemma analyze_inv root d visited s :
  analyze deep_function_info type_vtable_scan is_alphanumeric idx budgets root = inr (d, visited, s) ->
  exists L, vinv root L visited s.
Proof using Type.
  intros E. unfold analyze in E. destruct (collect_function root _) as [e | s0] eqn:E0; [discriminate |]. cbn [bindR] in E.
  apply (visit_levels_inv root _ _ _ _ _ [root]) in E; [exact E | |].
  - constructor.
    + apply (collect_function_merged root []) in E0; [| reflexivity]. rewrite E0. cbn. by rewrite app_nil_r.
    + apply NoDup_singleton.
    + left.
    + intros x ->%list_elem_of_singleton. by apply elem_of_singleton.
    + intros x ->%list_elem_of_singleton. constructor.
    + rewrite size_singleton. lia.
  - apply Forall_forall. intros y Hy. destruct (functions idx !! root) as [f |] eqn:Ef; [| inversion Hy].
    apply rtc_once. by exists f.
Qed.

(** Value rows are exact: when the analysis answers, there is a list of
    functions without repetition, of at most [max_functions] (at least the
    root), all reached from the root by calls, such that the rows are exactly
    one per function and argument position with a constant at some call
    site; its values are those constants in increasing order without
    repetition and its sites the call sites, without repetition, they were
    passed at.  The report is the first [max_calls] of the rows. *)
Theorem value_rows_exact root v :
  value_analysis deep_function_info type_vtable_scan is_alphanumeric idx budgets root = inr v ->
  exists L rows, NoDup L /\ root ∈ L /\ (length L <= b_max_functions budgets `max` 1)%nat /\
    (forall x, x ∈ L -> rtc calls root x) /\
    v @@ "targets" = JArr (row_json <$> take (Z.to_nat (b_max_calls budgets)) rows) /\
    NoDup ((fun r => (vr_ea r, vr_kind r)) <$> rows) /\
    (forall r, r ∈ rows -> row_exact idx (L ≫= evidence_of) (vr_ea r) (vr_kind r) r) /\
    (forall ea kind c site, (ea, kind, c, site) ∈ L ≫= evidence_of ->
       exists r, r ∈ rows /\ vr_ea r = ea /\ vr_kind r = kind /\ c ∈ vr_values r /\ site ∈ vr_at r).
Proof using Type.
  intros E. unfold value_analysis in E. destruct (has_function idx root); [| discriminate].
  destruct (analyze _ _ _ _ _ root) as [e | [[d visited] s]] eqn:Ea; [discriminate |]. cbn [bindR] in E. injection E as <-.
  apply analyze_inv in Ea as [L [H1 H2 H3 H4 H5 H6]].
  set (rows := sort_by row_leb (merged_values (v_merged s))).
  assert (Hrows : rows ≡ₚ snd <$> map_to_list (v_merged s)).
  { unfold rows, merged_values. rewrite sort_by_perm. by rewrite sort_by_perm. }
  assert (Hin : forall r, r ∈ rows <-> exists k, v_merged s !! k = Some r).
  { intros r. rewrite Hrows, list_elem_of_fmap. split.
    - intros ([k r'] & -> & Hk). exists k. by apply elem_of_map_to_list.
    - intros [k Hk]. exists (k, r). split; [done |]. by apply elem_of_map_to_list. }
  assert (Hex : forall ea kind r, v_merged s !! (ea, kind) = Some r -> row_exact idx (L ≫= evidence_of) ea kind r).
  { intros ea kind r Hr. pose proof (merge_exact idx (L ≫= evidence_of) ea kind) as M. rewrite <- H1, Hr in M. exact M. }
  exists L, rows. split_and!; try assumption.
  - etransitivity; [| exact H6]. rewrite <- (size_list_to_set (C := gset Z) L) by exact H2.
    apply subseteq_size. intros x Hx%elem_of_list_to_set. auto.
  - reflexivity.
  - rewrite Hrows, <- list_fmap_compose.
    assert (((fun r => (vr_ea r, vr_kind r)) ∘ snd <$> map_to_list (v_merged s)) = fst <$> map_to_list (v_merged s)) as ->.
    { apply list_fmap_ext. intros ? [[ea kind] r] Hk%list_elem_of_lookup_2%elem_of_map_to_list.
      apply Hex in Hk as [(<- & <- & _) _ _ _ _]. reflexivity. }
    apply NoDup_fst_map_to_list.
  - intros r [[ea kind] Hk]%Hin. apply Hex in Hk. by destruct (rx_key _ _ _ _ _ Hk) as (-> & -> & _).
  - intros ea kind c site Hev. pose proof (merge_exact idx (L ≫= evidence_of) ea kind) as M. rewrite <- H1 in M.
    destruct (v_merged s !! (ea, kind)) as [r |] eqn:Hr; [| by apply M in Hev]. destruct M as [(Hea & Hkind & _) _ _ Hv Ha].
    exists r. split_and!; [apply Hin; eauto | exact Hea | exact Hkind | apply Hv; eauto | apply Ha; eauto].
Qed.

(** No name of a global resolves, so an indirect call never has a proposal. *)
Lemma proposals_inert rendered : proposals type_vtable_scan is_alphanumeric idx rendered = [].
Proof using Type. unfold proposals. by destruct (base_object is_alphanumeric rendered). Qed.
End Exact.

(** A function that calls twice with constants. *)
Definition const_call (site : string) (a : string) : Value :=
  JObj [("call_ea", JStr site); ("direct", JBool true); ("args", JArr [JStr a; JStr "buf"])].
Definition const_info (ea max : Z) : Result Value :=
  if ea =? 0x1000 then Ok (JObj [("calls", JArr [const_call "0x1010" "0x20"; const_call "0x1020" "16"; const_call "0x1030" "0x20"])])
  else Err (Worker "no function").
Definition const_index : AnalysisIndex :=
  {| schema_version := 1; binary_md5 := ""; idx_revision := 0; idx_strings := [];
     functions := {[0x1000 := {| ff_start := 0x1000; ff_end := 0x1040; ff_name := "main"; demangled := ""; ff_size := 0x40; imports := [];
       ff_strings := []; constants := []; indirect_calls := 0; callees := []; callers := []; globals := [] |}]} |}.

Lemma value_rows_exact_witness :
  exists v rows, value_analysis const_info (fun _ _ => Ok JNull) (fun _ => true) const_index DeepBudgets_default 0x1000 = inr v /\
    v @@ "targets" = JArr (row_json <$> take 24 rows) /\
    exists r, r ∈ rows /\ vr_kind r = "arg0" /\ 16 ∈ vr_values r /\ 0x1020 ∈ vr_at r.
Proof.
  assert (exists v, value_analysis const_info (fun _ _ => Ok JNull) (fun _ => true) const_index DeepBudgets_default 0x1000 = inr v) as [v E]
    by (eexists; vm_compute; reflexivity).
  destruct (value_rows_exact const_info (fun _ _ => Ok JNull) (fun _ => true) const_index DeepBudgets_default 0x1000 v E)
    as (L & rows & _ & Hroot & _ & _ & Ht & _ & _ & Hc).
  exists v, rows. split; [exact E |]. split; [exact Ht |].
  destruct (Hc 0x1000 "arg0" 16 0x1020) as (r & Hr & _ & Hk & Hv & Ha); [| exists r; by split_and!].
  apply list_elem_of_bind. exists 0x1000. split; [| exact Hroot].
  vm_compute. right. left.
Defined.
