(* ===== verification/Float.v ===== *)
(** * Float: IEEE-754 doubles

    The [f64] arithmetic of scores and similarities, exactly: a double is a
    [spec_float] of the Standard Library with 53 bits of precision, its
    operations round to nearest even.  Literals are given by their mantissa
    and exponent. *)

From stdpp Require Import base list strings.
From Stdlib Require Import ZArith Lia SpecFloat.
From S2P Require Import Prelude Text.

Local Open Scope Z_scope.

Definition f64 : Type := spec_float.

Definition fadd : f64 -> f64 -> f64 := SFadd 53 1024.
Definition fsub : f64 -> f64 -> f64 := SFsub 53 1024.
Definition fmul : f64 -> f64 -> f64 := SFmul 53 1024.
Definition fdiv : f64 -> f64 -> f64 := SFdiv 53 1024.
Definition fltb : f64 -> f64 -> bool := SFltb.
Definition fleb : f64 -> f64 -> bool := SFleb.

(** [n as f64]. *)
Definition f_of_Z (n : Z) : f64 := binary_normalize 53 1024 n 0 false.
Definition f_of_nat (n : nat) : f64 := f_of_Z (Z.of_nat n).

(** The double of mantissa [m] and exponent [e]. *)
Definition lit (m : positive) (e : Z) : f64 := S754_finite false m e.

Definition f0 : f64 := S754_zero false.
Definition f1 : f64 := lit 4503599627370496 (-52).
Definition f0_2 : f64 := lit 7205759403792794 (-55).
Definition f0_25 : f64 := lit 4503599627370496 (-54).
Definition f0_3 : f64 := lit 5404319552844595 (-54).
Definition f0_6 : f64 := lit 5404319552844595 (-53).
Definition f0_999 : f64 := lit 8998192055486251 (-53).

(** [f64::from_bits]. *)
Definition f_of_bits (bits : Z) : f64 :=
  let sign := Z.testbit bits 63 in
  let ex := Z.land (Z.shiftr bits 52) 0x7ff in
  let frac := Z.land bits (2 ^ 52 - 1) in
  if ex =? 0x7ff then (if frac =? 0 then S754_infinity sign else S754_nan)
  else if ex =? 0 then match frac with Z.pos m => S754_finite sign m (-1074) | _ => S754_zero sign end
  else match frac + 2 ^ 52 with Z.pos m => S754_finite sign m (ex - 1075) | _ => S754_zero sign end.

(** [x.total_cmp(&y)] on numbers of one sign. *)
Definition ftotal_le (x y : f64) : bool := match SFcompare x y with Some Gt => false | _ => true end.

(** [x.min(y)] of numbers. *)
Definition fmin (x y : f64) : f64 := if fltb y x then y else x.

(** [x.clamp(lo, hi)] for a number [x]. *)
Definition fclamp (lo hi x : f64) : f64 := if fltb x lo then lo else if fltb hi x then hi else x.

(** [format!("{x:.2}")] of a number in [0, 2^53): the exact value in
    hundredths, rounded to nearest, ties to even. *)
Definition hundredths (x : f64) : Z :=
  match x with
  | S754_finite false m e =>
      if 0 <=? e then Z.pos m * 2 ^ e * 100
      else
        let d := 2 ^ (- e) in
        let q := Z.pos m * 100 / d in
        let r := Z.pos m * 100 mod d in
        if (d <? 2 * r) || ((d =? 2 * r) && Z.odd q) then q + 1 else q
  | _ => 0
  end.
Definition show_f2 (x : f64) : string :=
  let h := hundredths x in
  show_dec (h / 100) +:+ ("." +:+ (show_dec (h / 10 mod 10) +:+ show_dec (h mod 10))).

(** [x.round()]: to the nearest integer, halves away from zero. *)
Definition fround (x : f64) : f64 :=
  match x with
  | S754_finite s m e =>
      if 0 <=? e then x
      else
        let d := 2 ^ (- e) in
        let q := f_of_Z ((2 * Z.pos m + d) / (2 * d)) in
        if s then SFopp q else q
  | _ => x
  end.

(** [x.to_bits()]. *)
Definition f_to_bits (x : f64) : Z :=
  let sign (s : bool) := if s then 2 ^ 63 else 0 in
  match x with
  | S754_zero s => sign s
  | S754_infinity s => sign s + 0x7ff * 2 ^ 52
  | S754_nan => 0x7ff8000000000000
  | S754_finite s m e => sign s + (if Z.pos m <? 2 ^ 52 then Z.pos m else (e + 1075) * 2 ^ 52 + (Z.pos m - 2 ^ 52))
  end.

(** ** Order *)

Lemma SFcompare_antisym x y : SFcompare y x = CompOpp <$> SFcompare x y.
Proof.
  destruct x as [[] | [] | | [] m e], y as [[] | [] | | [] m' e']; cbn [SFcompare]; try reflexivity;
    rewrite (Z.compare_antisym e e'); destruct (Z.compare e e'); cbn; try reflexivity;
    (change (Pos.compare_cont Eq m' m) with (Pos.compare m' m) || idtac);
    try (rewrite (Pos.compare_antisym m m'); unfold Pos.compare; destruct (Pos.compare_cont Eq m m'); reflexivity).
Qed.

Definition is_number (x : f64) : Prop := x <> S754_nan.

Lemma fltb_false x y : is_number x -> is_number y -> fltb x y = false -> fleb y x = true.
Proof.
  unfold is_number, fltb, fleb, SFltb, SFleb. intros Hx Hy. rewrite (SFcompare_antisym x y).
  destruct (SFcompare x y) as [[] |] eqn:E; try done. exfalso. destruct x, y; done.
Qed.

Lemma fltb_fleb x y : fltb x y = true -> fleb x y = true.
Proof. unfold fltb, fleb, SFltb, SFleb. by destruct (SFcompare x y) as [[] |]. Qed.

Lemma fleb_refl x : is_number x -> fleb x x = true.
Proof.
  unfold is_number, fleb, SFleb. destruct x as [[] | [] | | [] m e]; cbn [SFcompare]; try done;
    rewrite Z.compare_refl; change (Pos.compare_cont Eq m m) with (Pos.compare m m); by rewrite Pos.compare_refl.
Qed.

#[export] Instance fleb_trans : Transitive (fun x y => fleb x y = true).
Proof.
  intros x y z. unfold fleb, SFleb.
  destruct x as [[] | [] | | [] m1 e1], y as [[] | [] | | [] m2 e2], z as [[] | [] | | [] m3 e3];
    cbn [SFcompare]; try done;
    change (Pos.compare_cont Eq m1 m2) with (Pos.compare m1 m2); change (Pos.compare_cont Eq m2 m3) with (Pos.compare m2 m3);
    change (Pos.compare_cont Eq m1 m3) with (Pos.compare m1 m3);
    destruct (Z.compare_spec e1 e2), (Z.compare_spec e2 e3), (Z.compare_spec e1 e3); try lia; try done;
    destruct (Pos.compare_spec m1 m2), (Pos.compare_spec m2 m3), (Pos.compare_spec m1 m3); simpl; try lia; done.
Qed.

Example f_of_bits_examples :
  f_of_bits 0x3ff0000000000000 = f1 /\ f_of_bits 0x3fc999999999999a = f0_2 /\ f_of_bits 0 = f0.
Proof. split_and!; reflexivity. Qed.

Example show_f2_sum : show_f2 (fadd (fadd f0_6 f0_2) f0_2) = "1.00" /\ show_f2 (fadd f0_2 f0_2) = "0.40".
Proof. split; reflexivity. Qed.
