(* ===== verification/TypeRec.v ===== *)
(** * TypeRec: recovery of structure layouts

    Models [rmcp-worker/src/types.rs]: the member accesses of a set of
    functions aggregated into fields per base object, with candidate widths,
    types and confidences, and the judgement of a vtable.  ([apply_struct] is
    in [Mutations].)  The backend's reports [type_member_evidence],
    [type_udt_match] and [type_vtable_scan] are parameters of the section. *)

From stdpp Require Import base list gmap strings sorting.
From Stdlib Require Import ZArith Lia Ascii.
From S2P Require Import Prelude Text Json Errors Index Float Deep.

Local Open Scope Z_scope.
Local Open Scope rmcp_scope.

Record FieldProposal := {
  reads : nat; writes : nat; widths : list Z; observers : nat; pointer_candidate : bool }.

(** ** Width, confidence and type of a field *)

Definition width_counts (ws : list Z) : gmap Z nat :=
  foldl (fun m w => if 0 <? w then <[w := S (default O (m !! w))]> m else m) ∅ ws.

(** [max_by_key] on the pair of count and width: the last of the largest. *)
Definition no_heavier (x y : Z * nat) : bool := (x.2 <? y.2)%nat || ((x.2 =? y.2)%nat && (x.1 <=? y.1)).
Definition heaviest (l : list (Z * nat)) : option (Z * nat) :=
  foldl (fun best x => match best with Some y => if no_heavier y x then Some x else Some y | None => Some x end) None l.

Definition width (p : FieldProposal) : Z :=
  match heaviest (btree_iter (width_counts (widths p))) with Some (w, _) => w | None => 0 end.

Definition c045 : f64 := f_of_bits 0x3fdccccccccccccd.
Definition c025 : f64 := f_of_bits 0x3fd0000000000000.
Definition c018 : f64 := f_of_bits 0x3fc70a3d70a3d70a.
Definition c012 : f64 := f_of_bits 0x3fbeb851eb851eb8.
Definition c005 : f64 := f_of_bits 0x3fa999999999999a.
Definition c099 : f64 := f_of_bits 0x3fefae147ae147ae.

Definition field_confidence (p : FieldProposal) : f64 :=
  let sites := f_of_nat (reads p + writes p) in
  let site_score := fmul (fmin (fdiv sites (f_of_Z 8)) f1) c045 in
  let fn_score := fmul (fmin (fdiv (f_of_nat (observers p)) (f_of_Z 3)) f1) c025 in
  let write_score := if (0 <? writes p)%nat then c018 else f0 in
  let width_score := if 0 <? width p then c012 else f0 in
  fclamp c005 c099 (fadd (fadd (fadd site_score fn_score) write_score) width_score).

Definition candidate_type (p : FieldProposal) (w : Z) : string :=
  if pointer_candidate p then "pointer"
  else if w =? 1 then "u8" else if w =? 2 then "u16" else if w =? 4 then "u32" else if w =? 8 then "u64" else "unknown".

(** ** Observations *)

Definition types_parse_hex (s : string) : Z := default 0 (ok (parse_hex_u64 (trim_start_matches "0x" (trim s)))).

(** One member access as [recover_structure] reads it: the field, base
    object and offset, and the access. *)
Record Observation := { ob_field : string * Z; ob_width : Z; ob_write : bool }.

Definition observe (m : Value) : Observation :=
  let key := if default false (as_bool (m @@ "is_global")) then "g:" +:+ str_or_empty (m @@ "base_ea")
             else "e:" +:+ str_or_empty (m @@ "base_text") in
  {| ob_field := (key, types_parse_hex (str_or_empty (m @@ "offset")));
     ob_width := default 0 (as_u64 (m @@ "access_size")) mod u32_modulus;
     ob_write := default false (as_bool (m @@ "is_write")) |}.

Abbreviation Fields := (gmap (string * Z) FieldProposal).

Definition new_field (o : Observation) : FieldProposal :=
  {| reads := 0; writes := 0; widths := []; observers := 0;
     pointer_candidate := (ob_width o =? 8) && negb (ob_write o) |}.

Definition add_observation (fields : Fields) (o : Observation) : Fields :=
  let e := default (new_field o) (fields !! ob_field o) in
  <[ob_field o := {| reads := if ob_write o then reads e else S (reads e);
                     writes := if ob_write o then S (writes e) else writes e;
                     widths := widths e ++ [ob_width o]; observers := observers e;
                     pointer_candidate := (ob_width o =? 8) || pointer_candidate e |}]> fields.

Definition count_observer (fields : Fields) (k : string * Z) : Fields :=
  match fields !! k with
  | None => fields
  | Some e => <[k := {| reads := reads e; writes := writes e; widths := widths e; observers := S (observers e);
                        pointer_candidate := pointer_candidate e |}]> fields
  end.

Definition observe_function (fields : Fields) (obs : list Observation) : Fields :=
  let this_fn : gset (string * Z) := list_to_set (ob_field <$> obs) in
  foldl count_observer (foldl add_observation fields obs) (elements this_fn).

(** ** Grouping by base object *)

Definition field_leb (x y : (string * Z) * FieldProposal) : bool :=
  if String.eqb x.1.1 y.1.1 then x.1.2 <=? y.1.2 else String.leb x.1.1 y.1.1.
Definition fields_iter (fields : Fields) : list ((string * Z) * FieldProposal) := sort_by field_leb (map_to_list fields).

Definition group_step (g : gmap string (list (Z * FieldProposal))) (x : (string * Z) * FieldProposal) :=
  <[x.1.1 := default [] (g !! x.1.1) ++ [(x.1.2, x.2)]]> g.
Definition group_leb (x y : string * list (Z * FieldProposal)) : bool := String.leb x.1 y.1.
Definition groups (fields : Fields) : list (string * list (Z * FieldProposal)) :=
  prod_map id (sort_by_key fst) <$> sort_by group_leb (map_to_list (foldl group_step ∅ (fields_iter fields))).

(** ** The report *)

Definition field_row (x : Z * FieldProposal) : Value :=
  let w := width x.2 in
  JObj [("offset", JStr (show_0x x.1)); ("read", jnat (reads x.2)); ("write", jnat (writes x.2));
        ("candidate_width", JNum w); ("candidate_type", JStr (candidate_type x.2 w));
        ("confidence", JStr (show_f2 (field_confidence x.2))); ("functions_observing", jnat (observers x.2))].

Definition shape_of (fs : list (Z * FieldProposal)) : list (Z * Z) :=
  (fun x => (x.1, if width x.2 =? 0 then 4 else width x.2)) <$> fs.
Definition shape_row (x : Z * Z) : Value := JObj [("offset", JStr (show_0x x.1)); ("size", JNum x.2)].

Definition base_json (key : string) : Value :=
  match strip_prefix "g:" key with
  | Some rest => JObj [("kind", JStr "global"); ("ea", JStr rest)]
  | None => JObj [("kind", JStr "expression"); ("ea", JStr (trim_start_matches "e:" key))]
  end.

Section TypeRecovery.
Context (type_member_evidence : Z -> Z -> Result Value) (type_udt_match : list (Z * Z) -> Result Value).
Context (type_vtable_scan : Z -> Z -> Result Value).

Definition proposal_json (g : string * list (Z * FieldProposal)) : Value :=
  let shape := shape_of g.2 in
  JObj [("base", base_json g.1); ("fields", JArr (field_row <$> g.2)); ("proposed_shape", JArr (shape_row <$> shape));
        ("existing_type_match", jopt JStr (m ← ok (type_udt_match shape); as_str (m @@ "match")))].

(** The functions the backend reports on, with their reports. *)
Definition evidence_of (limit : Z) (eas : list Z) : list (Z * Value) :=
  omap (fun ea => info ← ok (type_member_evidence ea limit); Some (ea, info)) eas.
Definition members_of (info : Value) : list Value := array_or_empty (info @@ "members").

Definition function_row (idx : AnalysisIndex) (x : Z * Value) : Value :=
  JObj [("function", JObj [("ea", JStr (show_0x x.1)); ("name", JStr (function_name idx x.1))]);
        ("observations", jnat (length (members_of x.2)))].

Definition recover_structure (idx : AnalysisIndex) (function_eas : list Z) (max_members_per_fn : Z) : Result Value :=
  if bool_decide (function_eas = []) then Err (Worker "recover_structure requires functions")
  else
    let infos := evidence_of max_members_per_fn function_eas in
    let fields := foldl (fun fs x => observe_function fs (observe <$> members_of x.2)) ∅ infos in
    Ok (JObj [("functions", JArr (function_row idx <$> infos)); ("proposals", JArr (proposal_json <$> groups fields));
              ("truncated", JBool (existsb (fun x => default false (as_bool (x.2 @@ "truncated"))) infos));
              ("note", JStr "preview only; apply via ida_types task=create_struct (explicit mutation)")]).

Definition recover_vtable (ea max_entries : Z) : Result Value :=
  scan <-? type_vtable_scan ea max_entries;
  let slots := array_or_empty (scan @@ "slots") in
  let code_slots := length (filter (fun s => default false (as_bool (s @@ "is_code")) = true) slots) in
  Ok (JObj [("ea", JStr (show_0x ea)); ("plausible_vtable", JBool (2 <=? code_slots)%nat);
            ("code_slots", jnat code_slots); ("slots", JArr slots);
            ("virtual_calls_note", JStr "slot order maps to the class's method order; verify constructors before trusting")]).
End TypeRecovery.

(** ** The fields are the observations counted *)

(** What a field should say, from the accesses of each function. *)
Definition at_field (k : string * Z) (o : Observation) : Prop := ob_field o = k.
#[export] Instance at_field_dec k o : Decision (at_field k o) := decide (ob_field o = k).

Definition summary (mine : list Observation) (n : nat) : FieldProposal :=
  {| reads := length (filter (fun o => ob_write o = false) mine); writes := length (filter (fun o => ob_write o = true) mine);
     widths := ob_width <$> mine; observers := n; pointer_candidate := existsb (fun o => ob_width o =? 8) mine |}.
Definition summarized (k : string * Z) (all : list Observation) (n : nat) : option FieldProposal :=
  match filter (at_field k) all with [] => None | mine => Some (summary mine n) end.
Definition observing (k : string * Z) (obss : list (list Observation)) : nat :=
  length (filter (fun obs => k ∈ ob_field <$> obs) obss).

Lemma summary_snoc mine o n :
  summary (mine ++ [o]) n =
  let e := summary mine n in
  {| reads := if ob_write o then reads e else S (reads e); writes := if ob_write o then S (writes e) else writes e;
     widths := widths e ++ [ob_width o]; observers := observers e;
     pointer_candidate := (ob_width o =? 8) || pointer_candidate e |}.
Proof.
  unfold summary. cbn [reads writes widths observers pointer_candidate].
  rewrite !filter_app, !length_app, fmap_app, existsb_app, !filter_cons, !filter_nil. cbn [existsb fmap list_fmap].
  rewrite orb_false_r, (orb_comm (ob_width o =? 8)).
  destruct (ob_write o); repeat case_decide; try done; cbn [length]; by rewrite Nat.add_0_r, Nat.add_1_r.
Qed.

Lemma add_observation_spec fields all n o :
  (forall k, fields !! k = summarized k all (n k)) -> (forall k, filter (at_field k) all = [] -> n k = O) ->
  forall k, add_observation fields o !! k = summarized k (all ++ [o]) (n k).
Proof.
  intros Hf Hn k. unfold add_observation, summarized. rewrite filter_app, filter_cons, filter_nil.
  case_decide as Hk; cbv [at_field] in Hk.
  - rewrite Hk, lookup_insert_eq, Hf. unfold summarized. destruct (filter (at_field k) all) as [|x mine] eqn:E.
    + cbn [app default]. f_equal. rewrite (Hn _ E). unfold summary, new_field. rewrite !filter_cons, !filter_nil.
      cbn [default reads writes widths observers pointer_candidate existsb].
      destruct (ob_write o), (ob_width o =? 8); repeat case_decide; done.
    + cbn [default from_option id app]. f_equal. symmetry. exact (summary_snoc (x :: mine) o (n k)).
  - rewrite lookup_insert_ne by done. rewrite app_nil_r. apply Hf.
Qed.

Lemma filter_empty_app k all o : filter (at_field k) (all ++ [o]) = [] -> filter (at_field k) all = [].
Proof. rewrite filter_app. by intros [? _]%app_eq_nil. Qed.

Lemma add_observations_spec obs fields all n :
  (forall k, fields !! k = summarized k all (n k)) -> (forall k, filter (at_field k) all = [] -> n k = O) ->
  forall k, foldl add_observation fields obs !! k = summarized k (all ++ obs) (n k).
Proof.
  revert fields all. induction obs as [|o obs IH]; intros fields all Hf Hn k; cbn [foldl].
  { by rewrite app_nil_r. }
  rewrite cons_middle, app_assoc. apply IH.
  - by apply add_observation_spec.
  - intros k' Hk'. eapply Hn, filter_empty_app, Hk'.
Qed.

Definition count_one (e : FieldProposal) : FieldProposal :=
  {| reads := reads e; writes := writes e; widths := widths e; observers := S (observers e);
     pointer_candidate := pointer_candidate e |}.

Lemma count_observers_spec ks fields k :
  NoDup ks -> foldl count_observer fields ks !! k = if decide (k ∈ ks) then count_one <$> fields !! k else fields !! k.
Proof.
  revert fields. induction ks as [|k' ks IH]; intros fields; cbn [foldl]; intros Hnd.
  { by rewrite decide_False by apply not_elem_of_nil. }
  apply NoDup_cons in Hnd as [Hk' Hnd]. rewrite (IH _ Hnd). unfold count_observer.
  destruct (decide (k = k')) as [->|Hne].
  - rewrite decide_False by done. rewrite decide_True by constructor.
    destruct (fields !! k') eqn:E; [by rewrite lookup_insert_eq | by rewrite E].
  - destruct (fields !! k') eqn:E; [rewrite lookup_insert_ne by done|];
      (destruct (decide (k ∈ ks)); [rewrite decide_True by (by constructor) | rewrite decide_False by (by intros [?|?]%elem_of_cons)]; done).
Qed.

Lemma elem_of_fields k obs : k ∈ ob_field <$> obs <-> filter (at_field k) obs <> [].
Proof.
  rewrite list_elem_of_fmap. split.
  - intros (o & -> & Ho) E. apply (not_elem_of_nil o). rewrite <- E. by apply list_elem_of_filter.
  - destruct (filter (at_field k) obs) as [|o mine] eqn:E; [done|]. intros _.
    assert (o ∈ filter (at_field k) obs) as [Hk Ho]%list_elem_of_filter by (rewrite E; constructor). by exists o.
Qed.

Lemma observe_function_spec fields obss obs :
  (forall k, fields !! k = summarized k (concat obss) (observing k obss)) ->
  forall k, observe_function fields obs !! k = summarized k (concat (obss ++ [obs])) (observing k (obss ++ [obs])).
Proof.
  intros Hf k. unfold observe_function. rewrite count_observers_spec by apply NoDup_elements.
  rewrite (add_observations_spec obs fields (concat obss) (fun k => observing k obss) Hf).
  2:{ intros k' Hk'. unfold observing. rewrite filter_none; [done|]. intros l Hl Hin.
      apply elem_of_fields in Hin. apply Hin. clear Hin Hf. induction obss as [|l' obss IH]; [by apply elem_of_nil in Hl|].
      cbn [concat] in Hk'. rewrite filter_app in Hk'. apply app_eq_nil in Hk' as [H1 H2].
      apply elem_of_cons in Hl as [->|Hl]; [done|]. apply IH; done. }
  rewrite concat_app. cbn [concat]. rewrite app_nil_r. unfold observing. rewrite filter_app, length_app, filter_cons, filter_nil.
  unfold summarized. rewrite filter_app.
  destruct (decide (k ∈ ob_field <$> obs)) as [Hin|Hout].
  - rewrite decide_True by (by apply elem_of_elements, elem_of_list_to_set). cbn [length].
    destruct (filter (at_field k) (concat obss) ++ filter (at_field k) obs) as [|o mine]; [done|].
    cbn [fmap option_fmap option_map]. f_equal. unfold count_one, summary. f_equal; cbn; lia.
  - rewrite decide_False by (by rewrite elem_of_elements, elem_of_list_to_set). cbn [length]. by rewrite Nat.add_0_r.
Qed.

(** ** Grouping loses and repeats nothing *)

Lemma group_fold l g key :
  default [] (foldl group_step g l !! key) =
  default [] (g !! key) ++ ((fun x => (x.1.2, x.2)) <$> filter (fun x => x.1.1 = key) l).
Proof.
  revert g. induction l as [|[[k o] p] l IH]; intros g; cbn [foldl]; [by rewrite app_nil_r|].
  rewrite IH. unfold group_step. cbn [fst snd]. rewrite filter_cons. cbn [fst].
  destruct (decide (k = key)) as [->|Hne].
  - rewrite lookup_insert_eq. cbn [default from_option id fmap list_fmap fst snd]. by rewrite <- app_assoc.
  - by rewrite lookup_insert_ne by done.
Qed.

Lemma group_nonempty l g :
  (forall key fs, g !! key = Some fs -> fs <> []) -> forall key fs, foldl group_step g l !! key = Some fs -> fs <> [].
Proof.
  revert g. induction l as [|x l IH]; intros g Hg; [done|]. cbn [foldl]. apply IH. intros key fs. unfold group_step.
  destruct (decide (x.1.1 = key)) as [->|Hne]; [rewrite lookup_insert_eq; intros [= <-]|rewrite lookup_insert_ne by done; apply Hg].
  by destruct (default [] (g !! key)).
Qed.

Lemma elem_of_field_groups fields key fs :
  (key, fs) ∈ groups fields <->
  exists l, foldl group_step ∅ (fields_iter fields) !! key = Some l /\ fs = sort_by_key fst l.
Proof.
  unfold groups. rewrite list_elem_of_fmap. split.
  - intros ([k l] & [= -> ->] & Hin). rewrite sort_by_perm in Hin. exists l. split; [by apply elem_of_map_to_list|done].
  - intros (l & Hl & ->). exists (key, l). split; [done|]. rewrite sort_by_perm. by apply elem_of_map_to_list.
Qed.

Lemma group_of fields key fs :
  (key, fs) ∈ groups fields ->
  fs <> [] /\ fs = sort_by_key fst ((fun x => (x.1.2, x.2)) <$> filter (fun x => x.1.1 = key) (fields_iter fields)).
Proof.
  intros (l & Hl & ->)%elem_of_field_groups. pose proof (group_fold (fields_iter fields) ∅ key) as E.
  rewrite Hl, lookup_empty in E. cbn in E. subst l. split; [|done].
  intros E. apply (group_nonempty (fields_iter fields) ∅ (fun _ _ H => ltac:(by rewrite lookup_empty in H)) key _ Hl).
  apply length_zero_iff_nil. rewrite <- (length_sort_by_key fst), E. done.
Qed.

Lemma groups_exact fields key o p :
  (exists fs, (key, fs) ∈ groups fields /\ (o, p) ∈ fs) <-> fields !! (key, o) = Some p.
Proof.
  split.
  - intros (fs & Hg & Hin). apply group_of in Hg as [_ ->]. rewrite sort_by_key_perm in Hin.
    apply list_elem_of_fmap in Hin as ([[k o'] p'] & [= -> ->] & Hin). apply list_elem_of_filter in Hin as [<- Hin].
    unfold fields_iter in Hin. rewrite sort_by_perm in Hin. by apply elem_of_map_to_list in Hin.
  - intros Hp. assert ((o, p) ∈ (fun x : (string * Z) * FieldProposal => (x.1.2, x.2)) <$> filter (fun x => x.1.1 = key) (fields_iter fields)) as Hin.
    { apply list_elem_of_fmap. exists (key, o, p). split; [done|]. apply list_elem_of_filter. split; [done|].
      unfold fields_iter. rewrite sort_by_perm. by apply elem_of_map_to_list. }
    pose proof (group_fold (fields_iter fields) ∅ key) as E. rewrite lookup_empty in E. cbn in E.
    destruct (foldl group_step ∅ (fields_iter fields) !! key) as [l|] eqn:El; cbn in E; [|rewrite <- E in Hin; by apply elem_of_nil in Hin].
    exists (sort_by_key fst l). split; [apply elem_of_field_groups; by exists l|]. rewrite sort_by_key_perm. by rewrite E.
Qed.

Lemma group_keys_sorted fields :
  NoDup (fst <$> groups fields) /\ Sorted (fun x y => String.leb x y = true) (fst <$> groups fields).
Proof.
  unfold groups. rewrite <- list_fmap_compose. set (g := foldl _ _ _).
  assert (fst ∘ prod_map id (sort_by_key fst) <$> sort_by group_leb (map_to_list g) = fst <$> sort_by group_leb (map_to_list g)) as ->
    by (apply list_fmap_ext; by intros i [k l]).
  split.
  - rewrite sort_by_perm. apply NoDup_fst_map_to_list.
  - assert (Sorted (fun a b => group_leb a b = true) (sort_by group_leb (map_to_list g))) as Hs.
    { apply sort_by_sorted. intros x y. apply leb_total. }
    induction Hs as [|x l Hs IH Hd]; cbn; constructor; [done|]. destruct Hd; cbn; by constructor.
Qed.

Lemma group_offsets_sorted fields key fs :
  (key, fs) ∈ groups fields -> StronglySorted (fun x y => x.1 < y.1) fs.
Proof.
  intros [_ ->]%group_of. apply sort_by_key_strict. rewrite <- list_fmap_compose.
  assert (NoDup (fst <$> fields_iter fields)) as Hnd.
  { unfold fields_iter. rewrite sort_by_perm. apply NoDup_fst_map_to_list. }
  induction (fields_iter fields) as [|[[k o] p] l IH]; [constructor|]. cbn [fmap list_fmap fst] in Hnd.
  apply NoDup_cons in Hnd as [Hk Hnd]. rewrite filter_cons. case_decide as Hd; [|by apply IH].
  cbn [fst] in Hd. subst k. cbn [fmap list_fmap]. apply NoDup_cons. split; [|by apply IH].
  intros Hin. apply Hk. apply list_elem_of_fmap in Hin as ([[k' o'] p'] & Ho & Hin). cbn in Ho. subst o'.
  apply list_elem_of_filter in Hin as [Hk' Hin]. cbn in Hk'. subst k'. apply list_elem_of_fmap. by exists (key, o, p').
Qed.

(** ** The candidate width is the modal one *)

Definition occurrences (w : Z) (ws : list Z) : nat := length (filter (fun x => x = w) ws).

(** The most frequent known width, the larger one of a tie; 0 when none is known. *)
Definition modal (ws : list Z) (w : Z) : Prop :=
  (w = 0 /\ Forall (fun x => x <= 0) ws) \/
  (0 < w /\ w ∈ ws /\ forall w', w' ∈ ws -> 0 < w' ->
     (occurrences w' ws < occurrences w ws)%nat \/ occurrences w' ws = occurrences w ws /\ w' <= w).

Lemma width_counts_snoc ws w :
  width_counts (ws ++ [w]) = if 0 <? w then <[w := S (default O (width_counts ws !! w))]> (width_counts ws) else width_counts ws.
Proof. unfold width_counts. by rewrite foldl_snoc. Qed.

Lemma width_counts_lookup ws w n :
  width_counts ws !! w = Some n <-> 0 < w /\ w ∈ ws /\ n = occurrences w ws.
Proof.
  unfold occurrences. revert n. induction ws as [|x ws IH] using rev_ind; intros n.
  { unfold width_counts. cbn. rewrite lookup_empty. split; [done|]. intros (_ & H & _). by apply elem_of_nil in H. }
  rewrite width_counts_snoc, elem_of_app, filter_app, length_app, filter_cons, filter_nil, list_elem_of_singleton.
  destruct (decide (x = w)) as [->|Hne]; cbn [length].
  - destruct (Z.ltb_spec 0 w).
    + rewrite lookup_insert_eq. destruct (width_counts ws !! w) as [m|] eqn:E.
      * destruct (IH m) as [(_ & _ & ->) _]; [done|]. cbn [default from_option id]. split; [intros [= <-]; split_and!; [done|by right|lia] | intros (_ & _ & ->); f_equal; lia].
      * cbn [default]. assert (length (filter (fun y => y = w) ws) = O) as ->.
        { destruct (decide (w ∈ ws)) as [Hin|Hout].
          - destruct (IH (length (filter (fun y => y = w) ws))) as [_ IH']. by discriminate IH'.
          - rewrite filter_none; [done|]. by intros y Hy ->. }
        split; [intros [= <-]; split_and!; [done|by right|done] | intros (_ & _ & ->); done].
    + split; [intros (? & _)%IH; lia | intros (? & _); lia].
  - rewrite Nat.add_0_r. assert ((w ∈ ws \/ w = x) <-> w ∈ ws) as -> by (split; [by intros [?| ->]|by left]).
    destruct (0 <? x); [rewrite lookup_insert_ne by done|]; apply IH.
Qed.

Lemma heaviest_spec l :
  match heaviest l with None => l = [] | Some x => x ∈ l /\ forall y, y ∈ l -> no_heavier y x = true end.
Proof.
  unfold heaviest. induction l as [|x l IH] using rev_ind; [done|]. rewrite foldl_snoc.
  destruct (foldl _ None l) as [y|].
  - destruct IH as [Hin Hmax]. destruct (no_heavier y x) eqn:E; (split; [apply elem_of_app; (by left) || (right; constructor) |]).
    + intros z [Hz| ->%list_elem_of_singleton]%elem_of_app; [|unfold no_heavier in *; rewrite Nat.ltb_irrefl, Nat.eqb_refl; cbn; apply Z.leb_refl].
      specialize (Hmax z Hz). unfold no_heavier in *. destruct (Nat.ltb_spec z.2 x.2); [done|]. cbn.
      destruct (Nat.ltb_spec z.2 y.2), (Nat.ltb_spec y.2 x.2), (Nat.eqb_spec z.2 y.2), (Nat.eqb_spec y.2 x.2), (Nat.eqb_spec z.2 x.2); cbn in *; try done; try lia.
    + intros z [Hz| ->%list_elem_of_singleton]%elem_of_app; [by apply Hmax|].
      unfold no_heavier in *. destruct (Nat.ltb_spec y.2 x.2); [done|]. cbn in E.
      destruct (Nat.ltb_spec x.2 y.2); [done|]. destruct (Nat.eqb_spec y.2 x.2), (Nat.eqb_spec x.2 y.2); cbn in *; try lia.
  - subst l. split; [constructor|]. intros z ->%list_elem_of_singleton. unfold no_heavier. rewrite Nat.ltb_irrefl, Nat.eqb_refl. apply Z.leb_refl.
Qed.

Lemma width_modal p : modal (widths p) (width p).
Proof.
  unfold width, modal. pose proof (heaviest_spec (btree_iter (width_counts (widths p)))) as H.
  destruct (heaviest _) as [[w n]|].
  - destruct H as [Hin Hmax]. apply elem_of_btree_iter, width_counts_lookup in Hin as (Hw & Hin & ->). right.
    split_and!; [done|done|]. intros w' Hw' Hpos.
    assert ((w', occurrences w' (widths p)) ∈ btree_iter (width_counts (widths p))) as Hin' by (by apply elem_of_btree_iter, width_counts_lookup).
    specialize (Hmax _ Hin'). unfold no_heavier in Hmax. cbn [fst snd] in Hmax.
    destruct (Nat.ltb_spec (occurrences w' (widths p)) (occurrences w (widths p))); [by left|right].
    cbn in Hmax. apply andb_true_iff in Hmax as [H1%Nat.eqb_eq H2%Z.leb_le]. done.
  - left. split; [done|]. apply Forall_forall. intros w Hw. destruct (decide (0 < w)) as [Hpos|]; [|lia].
    exfalso. assert ((w, occurrences w (widths p)) ∈ btree_iter (width_counts (widths p))) as Hin by (by apply elem_of_btree_iter, width_counts_lookup).
    rewrite H in Hin. by apply elem_of_nil in Hin.
Qed.

Lemma summary_pointer mine n w :
  candidate_type (summary mine n) w = "pointer" <-> 8 ∈ widths (summary mine n).
Proof.
  unfold candidate_type, summary. cbn [pointer_candidate widths]. rewrite list_elem_of_fmap.
  destruct (existsb (fun o => ob_width o =? 8) mine) eqn:E.
  - split; [intros _|done]. apply existsb_exists in E as (o & Hin & Hw%Z.eqb_eq). exists o. split; [done|]. by apply list_elem_of_In.
  - split; [repeat case_match; discriminate|]. intros (o & Hw & Hin). exfalso.
    assert (existsb (fun o => ob_width o =? 8) mine = true); [|congruence].
    apply existsb_exists. exists o. split; [by apply list_elem_of_In|]. apply Z.eqb_eq. by symmetry.
Qed.

(** ** Recovery *)

Section Recovery.
Context (type_member_evidence : Z -> Z -> Result Value) (type_udt_match : list (Z * Z) -> Result Value).

Lemma structure_fields obss k :
  foldl observe_function ∅ obss !! k = summarized k (concat obss) (observing k obss).
Proof using Type.
  revert k. induction obss as [|obs obss IH] using rev_ind; intros k; [by cbn [foldl]; rewrite lookup_empty|].
  rewrite foldl_snoc. by apply observe_function_spec.
Qed.

(** Recovered structures are the evidence, counted: for every non-empty
    list of functions the proposals are one per base object, in order and
    without repetition, with its fields by increasing offset; a field is
    proposed exactly when some access of the evidence is at it, with the
    numbers of reads and writes, of the listed functions that made them, all
    the widths seen and, as candidate, the most frequent known one; and it is
    called a pointer exactly when some access is 8 bytes wide. *)
Theorem structure_exact idx eas limit :
  eas <> [] ->
  let infos := evidence_of type_member_evidence limit eas in
  let obss := (fun x => observe <$> members_of x.2) <$> infos in
  exists gs,
    recover_structure type_member_evidence type_udt_match idx eas limit =
      Ok (JObj [("functions", JArr (function_row idx <$> infos)); ("proposals", JArr (proposal_json type_udt_match <$> gs));
                ("truncated", JBool (existsb (fun x => default false (as_bool (x.2 @@ "truncated"))) infos));
                ("note", JStr "preview only; apply via ida_types task=create_struct (explicit mutation)")]) /\
    NoDup (fst <$> gs) /\ Sorted (fun x y => String.leb x y = true) (fst <$> gs) /\
    Forall (fun g => g.2 <> [] /\ StronglySorted (fun x y => x.1 < y.1) g.2) gs /\
    (forall key o p, (exists fs, (key, fs) ∈ gs /\ (o, p) ∈ fs) <->
       summarized (key, o) (concat obss) (observing (key, o) obss) = Some p) /\
    (forall g x, g ∈ gs -> x ∈ g.2 -> modal (widths x.2) (width x.2) /\
       (candidate_type x.2 (width x.2) = "pointer" <-> 8 ∈ widths x.2)).
Proof using Type.
  intros Hne infos obss. unfold recover_structure. rewrite bool_decide_eq_false_2 by done. fold infos.
  assert (foldl (fun fs x => observe_function fs (observe <$> members_of x.2)) ∅ infos = foldl observe_function ∅ obss) as ->
    by (unfold obss; by rewrite foldl_fmap).
  eexists. split; [reflexivity|]. destruct (group_keys_sorted (foldl observe_function ∅ obss)) as [H1 H2].
  split_and!; [done|done| | |].
  - apply Forall_forall. intros [key fs] Hg. split; [by apply group_of in Hg as [? _]|]. by eapply group_offsets_sorted.
  - intros key o p. rewrite groups_exact. by rewrite structure_fields.
  - intros [key fs] [o p] Hg Hx. split; [apply width_modal|].
    assert (summarized (key, o) (concat obss) (observing (key, o) obss) = Some p) as Hs.
    { rewrite <- structure_fields. apply groups_exact. by exists fs. }
    unfold summarized in Hs. destruct (filter _ _) as [|ob mine]; [done|]. injection Hs as <-.
    apply summary_pointer.
Qed.
End Recovery.

(** [u64] is documented as a candidate type but never proposed. *)
Lemma u64_never_proposed mine n : candidate_type (summary mine n) (width (summary mine n)) <> "u64".
Proof.
  intros E. destruct (decide (width (summary mine n) = 8)) as [Hw|Hw].
  - destruct (width_modal (summary mine n)) as [[? _]|(_ & Hin & _)]; [lia|]. rewrite Hw in Hin.
    apply (summary_pointer _ _ 8) in Hin. rewrite Hw, Hin in E. discriminate.
  - revert E. unfold candidate_type. repeat case_match; try discriminate. by apply Z.eqb_eq in H3.
Qed.

Definition sample_member (off : string) (size : Z) (write : bool) : Value :=
  JObj [("base_ea", JStr "0x404000"); ("is_global", JBool true); ("offset", JStr off); ("access_size", JNum size); ("is_write", JBool write)].
Definition sample_evidence (ea limit : Z) : Result Value :=
  if ea =? 16 then Ok (JObj [("members", JArr [sample_member "0x8" 4 false; sample_member "0x0" 8 false; sample_member "0x8" 4 true])])
  else if ea =? 32 then Ok (JObj [("members", JArr [sample_member "0x8" 2 false])])
  else Err (Worker "no function").
Definition sample_types_index : AnalysisIndex :=
  {| schema_version := 1; binary_md5 := ""; idx_revision := 0; functions := ∅; idx_strings := [] |}.

Definition shown (x : Z * FieldProposal) :=
  (x.1, reads x.2, writes x.2, width x.2, candidate_type x.2 (width x.2), show_f2 (field_confidence x.2), observers x.2).
Definition sample_fields : Fields :=
  foldl (fun fs x => observe_function fs (observe <$> members_of x.2)) ∅ (evidence_of sample_evidence 64 [16; 32; 48]).

Example sample_rows :
  map (fun g => (g.1, map shown g.2)) (groups sample_fields) =
  [("g:0x404000", [(0, 1%nat, 0%nat, 8, "pointer", "0.26", 1%nat); (8, 2%nat, 1%nat, 4, "u32", "0.64", 2%nat)])].
Proof. vm_compute. reflexivity. Qed.

Lemma structure_exact_witness :
  exists (gs : list (string * list (Z * FieldProposal))) v, recover_structure sample_evidence (fun _ => Err (Worker "none")) sample_types_index [16; 32; 48] 64 = Ok v /\
    exists fs, ("g:0x404000", fs) ∈ gs /\
      (8, {| reads := 2; writes := 1; widths := [4; 4; 2]; observers := 2; pointer_candidate := false |}) ∈ fs.
Proof.
  destruct (structure_exact sample_evidence (fun _ => Err (Worker "none")) sample_types_index [16; 32; 48] 64 ltac:(discriminate))
    as (gs & E & _ & _ & _ & H & _).
  exists gs. eexists. split; [exact E|]. apply H. vm_compute. reflexivity.
Defined.
