(* ===== verification/Deob.v ===== *)
(** * Deob: detection of obfuscation patterns

    Models [rmcp-worker/src/deob.rs]: five analysis passes over the control
    flow graph, the ctree and the instructions of a function, run under a
    budget, and their report.  The passes only read the backend. *)

From stdpp Require Import base list gmap strings.
From Stdlib Require Import ZArith Lia Ascii.
From S2P Require Import Prelude Text Json Errors Index Backend Float Deep.

Local Open Scope Z_scope.
Local Open Scope rmcp_scope.

Record PassReport := {
  pass_name : string; pass_version : Z; confidence : f64; pass_evidence : Value; proposed : Value; failure : option string }.

Definition report_json (p : PassReport) : Value :=
  JObj [("pass", JStr (pass_name p)); ("version", JNum (pass_version p)); ("confidence", JStr (show_f2 (confidence p)));
        ("evidence", pass_evidence p); ("proposed", proposed p); ("failure", jopt JStr (failure p))].

Definition pass_budget (max_passes : Z) : Z := clamp 1 16 max_passes.

(** ** Constants *)

Definition p005 : f64 := f_of_bits 0x3fa999999999999a.
Definition p010 : f64 := f_of_bits 0x3fb999999999999a.
Definition p030 : f64 := f_of_bits 0x3fd3333333333333.
Definition p035 : f64 := f_of_bits 0x3fd6666666666666.
Definition p040 : f64 := f_of_bits 0x3fd999999999999a.
Definition p050 : f64 := f_of_bits 0x3fe0000000000000.
Definition p055 : f64 := f_of_bits 0x3fe199999999999a.
Definition p060 : f64 := f_of_bits 0x3fe3333333333333.
Definition p070 : f64 := f_of_bits 0x3fe6666666666666.
Definition p075 : f64 := f_of_bits 0x3fe8000000000000.
Definition p080 : f64 := f_of_bits 0x3fe999999999999a.
Definition p085 : f64 := f_of_bits 0x3feb333333333333.
Definition p090 : f64 := f_of_bits 0x3feccccccccccccd.
Definition p095 : f64 := f_of_bits 0x3fee666666666666.
Definition p160 : f64 := f_of_bits 0x3ff999999999999a.

Definition no_action : Value := JObj [("action", JStr "none")].
Definition act (action note : string) : Value := JObj [("action", JStr action); ("note", JStr note)].
Definition failed_pass (name reason : string) : PassReport :=
  {| pass_name := name; pass_version := 1; confidence := f0; pass_evidence := JObj []; proposed := no_action;
     failure := Some reason |}.

(** The report of a pass that collected sites. *)
Definition sites_pass (name : string) (score : nat -> f64) (action note : string) (fail : option string)
  (sites : list Value) : PassReport :=
  let n := length sites in
  {| pass_name := name; pass_version := 1; confidence := score n;
     pass_evidence := JObj [("sites", JArr sites); ("count", jnat n)];
     proposed := if (0 <? n)%nat then act action note else no_action; failure := fail |}.

(** ** Instruction patterns *)

(** An instruction with the one after it. *)
Fixpoint with_next {A} (l : list A) : list (A * option A) :=
  match l with
  | [] => []
  | x :: rest => (x, head rest) :: with_next rest
  end.

(** An instruction with the up to six before it, the nearest first. *)
Fixpoint with_previous {A} (prev : list A) (l : list A) : list (A * list A) :=
  match l with
  | [] => []
  | x :: rest => (x, take 6 prev) :: with_previous (x :: prev) rest
  end.

Definition operand_parts (ops : string) : list string := trim <$> split_on "," ops.
Definition mnem (i : InsnInfo) : string := to_ascii_lowercase (mnemonic i).
Definition one_of (l : list string) (s : string) : bool := bool_decide (s ∈ l).

Definition is_reg_only (ops : string) : bool :=
  one_of ["eax"; "ebx"; "ecx"; "edx"; "esi"; "edi"; "ebp"; "esp"; "rax"; "rbx"; "rcx"; "rdx"; "rsi"; "rdi"; "rbp"; "rsp"]
    (to_ascii_lowercase ops).

(** [cmp r, r] or [test r, r] before a conditional jump. *)
Definition self_cmp (i : InsnInfo) : bool :=
  one_of ["cmp"; "test"] (mnem i) &&
  match operand_parts (operands i) with
  | [a; b] => eq_ignore_ascii_case a b && negb (bool_decide (a = "?"))
  | _ => false
  end.
Definition cond_jump (i : InsnInfo) : bool := one_of ["jz"; "jnz"; "je"; "jne"] (mnem i).
Definition opaque_insn (x : InsnInfo * option InsnInfo) : bool :=
  self_cmp x.1 && match x.2 with Some next => cond_jump next | None => false end.
Definition opaque_site (x : InsnInfo * option InsnInfo) : option Value :=
  if opaque_insn x
  then Some (JObj [("ea", JStr (show_0x (insn_ea x.1))); ("pattern", JStr (mnem x.1 +:+ "_reg_reg")); ("text", JStr (insn_text x.1))])
  else None.

Definition indirect_insn (i : InsnInfo) : bool :=
  let ops := trim (operands i) in
  one_of ["jmp"; "call"] (mnem i) && (starts_with "[" ops || contains "reg" ops || is_reg_only ops).
Definition insn_site (i : InsnInfo) : Value := JObj [("ea", JStr (show_0x (insn_ea i))); ("text", JStr (insn_text i))].
Definition indirect_site (i : InsnInfo) : option Value := if indirect_insn i then Some (insn_site i) else None.

(** A memory slot stored and loaded back, or loaded twice. *)
Definition mem_operand (s : string) : bool := one_of ["Displ"; "Phrase"] s.
Definition is_load (i : InsnInfo) : bool :=
  eq_ignore_ascii_case (mnemonic i) "mov" &&
  match operand_parts (operands i) with [a; b] => bool_decide (a = "Reg") && mem_operand b | _ => false end.
Definition junk_insn (x : InsnInfo * option InsnInfo) : bool :=
  bool_decide (mnem x.1 = "mov") &&
  match operand_parts (trim (operands x.1)) with
  | [a; b] => (mem_operand a && bool_decide (b = "Reg")) || (bool_decide (a = "Reg") && mem_operand b)
  | _ => false
  end &&
  match x.2 with Some next => is_load next | None => false end.
Definition junk_site (x : InsnInfo * option InsnInfo) : option Value := if junk_insn x then Some (insn_site x.1) else None.

(** A jump to a register that one of the six instructions before it set. *)
Definition sets_reg (ops : string) (p : InsnInfo) : bool :=
  eq_ignore_ascii_case (mnemonic p) "mov" && bool_decide (trim <$> head (split_on "," (operands p)) = Some ops).
Definition tail_insn (x : InsnInfo * list InsnInfo) : bool :=
  let ops := trim (operands x.1) in
  bool_decide (mnem x.1 = "jmp") && is_reg_only ops && existsb (sets_reg ops) x.2.
Definition tail_site (x : InsnInfo * list InsnInfo) : option Value :=
  if tail_insn x then Some (JObj [("ea", JStr (show_0x (insn_ea x.1))); ("reg", JStr (trim (operands x.1)))]) else None.

(** ** Ctree patterns *)

Definition self_comparison (inner : string) : bool :=
  match (match split_once "==" inner with Some p => Some p | None => split_once "!=" inner end) with
  | Some (a, b) => bool_decide (trim a = trim b) && negb (bool_decide (trim a = "")) &&
                   match strip_suffix "=" (trim a) with Some _ => false | None => true end
  | None => false
  end.
Definition opaque_row (row : Value) : option Value :=
  text ← as_str (row @@ "text");
  let t := trim text in
  let inner := default t (s ← strip_prefix "if (" t; strip_suffix ")" s) in
  if one_of ["if (1)"; "if (0)"; "while (1)"] t then Some (JObj [("ea", row @@ "ea"); ("pattern", JStr t)])
  else if self_comparison inner
  then Some (JObj [("ea", row @@ "ea"); ("pattern", JStr "self_comparison"); ("text", JStr t)])
  else None.

(** ** Scores *)

Definition flatten_score (nodes : nat) (avg_in : f64) : f64 :=
  if (12 <=? nodes)%nat && fleb p160 avg_in then fmin (fdiv avg_in (f_of_Z 3)) p090
  else if (6 <=? nodes)%nat && fleb (f_of_Z 2) avg_in then p060
  else f0_2.
Definition opaque_score (n : nat) : f64 :=
  match n with
  | O => p005 | 1%nat => p040 | 2%nat => p060
  | _ => fmin (fadd p060 (fmul p010 (f_of_nat (n `min` 4)))) p095
  end.
Definition indirect_score (n : nat) : f64 :=
  match n with O => p005 | 1%nat => p035 | _ => if (n <=? 4)%nat then p055 else p075 end.
Definition junk_score (n : nat) : f64 :=
  match n with O => p005 | _ => if (n <=? 2)%nat then p030 else if (n <=? 6)%nat then p055 else p080 end.
Definition tail_score (n : nat) : f64 :=
  match n with O => p005 | 1%nat => p050 | _ => if (n <=? 3)%nat then p070 else p085 end.

(** ** The passes *)

Section Passes.
Context {B : Type} `{IdaBackend B} (b : B).

Definition flattening_pass (target : Z) : PassReport :=
  match graph b target {| g_kind := "cfg"; g_depth := 1; max_nodes := 400; max_edges := 800 |} with
  | inl e => failed_pass "flatten_detect" ("cfg unavailable: " +:+ to_string e)
  | inr g =>
      let nodes := length (array_or_empty (g @@ "nodes")) in
      let edges := length (array_or_empty (g @@ "edges")) in
      let avg_in := if (0 <? nodes)%nat then fdiv (f_of_nat edges) (f_of_nat nodes) else f0 in
      let score := flatten_score nodes avg_in in
      {| pass_name := "flatten_detect"; pass_version := 1; confidence := score;
         pass_evidence := JObj [("cfg_nodes", jnat nodes); ("cfg_edges", jnat edges); ("avg_in_degree", JStr (show_f2 avg_in));
           ("heuristic", JStr "dispatcher-like block would show avg in-degree far above 1.0")];
         proposed := if fleb p060 score
           then act "unflatten" "would require microcode-level transformation (proposed, not applied)" else no_action;
         failure := None |}
  end.

Definition opaque_sites (target : Z) : list Value :=
  let rows := match hr_cfunc (reports b) target true false 4000 with
              | inr hr => (push_until opaque_row 16 (array_or_empty (hr @@ "ctree")) []).1
              | inl _ => []
              end in
  match (f <-? function_at b target; disassemble b target (Some (ea_end f)) 2000) with
  | inr insns => (push_until opaque_site 16 (with_next insns) rows).1
  | inl _ => rows
  end.
Definition opaque_branch_pass (target : Z) : PassReport :=
  sites_pass "opaque_branch" opaque_score "simplify"
    "would fold constant/self comparisons in microcode (proposed, not applied)" None (opaque_sites target).

(** [insns.err().map(|e| e.to_string())]. *)
Definition err_text {A} (r : Result A) : option string := match r with inl e => Some (to_string e) | inr _ => None end.
Definition insns_or_empty (r : Result (list InsnInfo)) : list InsnInfo := match r with inr l => l | inl _ => [] end.

Definition indirect_pass (idx : AnalysisIndex) (target : Z) : PassReport :=
  match functions idx !! target with
  | None => failed_pass "indirect_transfer" "function not indexed"
  | Some f =>
      let insns := disassemble b target (Some (ff_end f)) 2000 in
      sites_pass "indirect_transfer" indirect_score "narrow_targets"
        "would resolve targets when a dominating assignment proves unique (proposed, not applied)" (err_text insns)
        (push_until indirect_site 16 (insns_or_empty insns) []).1
  end.

Definition junk_pass (target : Z) : PassReport :=
  match function_at b target with
  | inl _ => failed_pass "junk_code" "function not found"
  | inr f =>
      let insns := disassemble b target (Some (ea_end f)) 2000 in
      sites_pass "junk_code" junk_score "remove_noops"
        "would nop-free the instruction stream in microcode (proposed, not applied)" (err_text insns)
        (push_until junk_site 16 (with_next (insns_or_empty insns)) []).1
  end.

Definition tail_jump_pass (target : Z) : PassReport :=
  match function_at b target with
  | inl _ => failed_pass "tail_jump" "function not found"
  | inr f =>
      let insns := disassemble b target (Some (ea_end f)) 2000 in
      sites_pass "tail_jump" tail_score "convert_to_call"
        "would convert reg-jumps to explicit calls where the register assignment is unique (proposed, not applied)"
        (err_text insns) (push_until tail_site 8 (with_previous [] (insns_or_empty insns)) []).1
  end.

(** The five passes in order, as many as the budget allows. *)
Definition run_passes (idx : AnalysisIndex) (target budget : Z) : list PassReport :=
  take (Z.to_nat budget)
    [flattening_pass target; opaque_branch_pass target; indirect_pass idx target; junk_pass target; tail_jump_pass target].

Definition is_triggered (p : PassReport) : bool := fleb p060 (confidence p) && bool_decide (failure p = None).
Definition pseudocode_len (v : Value) : option nat := String.length <$> as_str (v @@ "pseudocode").

Definition deobfuscate (idx : AnalysisIndex) (target max_passes : Z) : Result Value :=
  match functions idx !! target with
  | None => Err (Worker ("no function at " +:+ show_0x target))
  | Some f =>
      let budget := pass_budget max_passes in
      let before := decompile b target in
      let passes := run_passes idx target budget in
      let after := decompile b target in
      let improved := match before, after with
                      | inr x, inr y => negb (bool_decide (pseudocode_len x = pseudocode_len y))
                      | _, _ => false
                      end in
      Ok (JObj [("target", JStr (show_0x target)); ("name", JStr (ff_name f)); ("mode", JStr "analysis_only");
        ("passes_run", jnat (length passes)); ("pass_budget", JNum budget);
        ("findings", JArr (report_json <$> passes));
        ("triggered_passes", JArr (JStr ∘ pass_name <$> filter (fun p => is_triggered p = true) passes));
        ("improved_after_redecompile", JBool improved);
        ("before_after_note", JStr "engine is read-only; before/after included for auditability, no IDB mutation occurred");
        ("safety", JStr "byte patches and IDB metadata repairs are separate explicit mutations (ida_mutation / plan)")])
  end.
End Passes.

(** ** What triggers a pass *)

Lemma sites_capped {A} (f : A -> option Value) (p : A -> bool) max l :
  (forall x, is_Some (f x) <-> p x = true) -> (0 < max)%nat ->
  length (push_until f max l []).1 = (max `min` length (filter (fun x => p x = true) l))%nat.
Proof.
  intros Hf Hm. rewrite push_until_spec by (cbn; lia). cbn [fst app]. rewrite length_take, Nat.max_l by lia. f_equal.
  induction l as [|x l IH]; [done|]. cbn [omap list_omap]. rewrite filter_cons. specialize (Hf x).
  destruct (f x) as [y|]; case_decide as Hp; cbn [length]; [by rewrite IH| | |done].
  - exfalso. apply Hp, Hf. by exists y.
  - exfalso. apply Hf in Hp as [? ?]. done.
Qed.

Lemma opaque_trigger n : fleb p060 (opaque_score n) = true <-> (2 <= n)%nat.
Proof.
  destruct n as [|[|[|n]]]; [split; [discriminate|lia]..|split; [lia|reflexivity]|]. split; [lia|intros _]. unfold opaque_score.
  assert (S (S (S n)) `min` 4 = 3 \/ S (S (S n)) `min` 4 = 4)%nat as [-> | ->] by lia; reflexivity.
Qed.

Lemma indirect_trigger n : fleb p060 (indirect_score n) = true <-> (5 <= n)%nat.
Proof.
  destruct n as [|[|n]]; [split; [discriminate|lia]..|]. unfold indirect_score.
  destruct (Nat.leb_spec (S (S n)) 4); split; try lia; try done; discriminate.
Qed.

Lemma junk_trigger n : fleb p060 (junk_score n) = true <-> (7 <= n)%nat.
Proof.
  destruct n as [|n]; [split; [discriminate|lia]|]. unfold junk_score.
  destruct (Nat.leb_spec (S n) 2), (Nat.leb_spec (S n) 6); split; try lia; try done; discriminate.
Qed.

Lemma tail_trigger n : fleb p060 (tail_score n) = true <-> (2 <= n)%nat.
Proof.
  destruct n as [|[|n]]; [split; [discriminate|lia]..|]. unfold tail_score.
  destruct (Nat.leb_spec (S (S n)) 3); split; try lia; done.
Qed.

Lemma is_triggered_sites name score action note fail sites :
  is_triggered (sites_pass name score action note fail sites) = true <->
  fleb p060 (score (length sites)) = true /\ fail = None.
Proof.
  unfold is_triggered, sites_pass. cbn [confidence failure]. by rewrite andb_true_iff, bool_decide_eq_true.
Qed.

Lemma failed_not_triggered name reason : is_triggered (failed_pass name reason) = false.
Proof. reflexivity. Qed.

Section Triggers.
Context {B : Type} `{IdaBackend B} (b : B).

(** The instructions of the function around [target], and those [p] holds for. *)
Definition body_insns (target : Z) : Result (list InsnInfo) :=
  f <-? function_at b target; disassemble b target (Some (ea_end f)) 2000.
Definition count {A} (p : A -> bool) (l : list A) : nat := length (filter (fun x => p x = true) l).

Lemma sites_trigger {A} (insns : Result (list InsnInfo)) name score action note (f : A -> option Value) (p : A -> bool) view max k :
  (forall x, is_Some (f x) <-> p x = true) -> (forall n, fleb p060 (score n) = true <-> (k <= n)%nat) ->
  (k <= max)%nat -> (0 < k)%nat ->
  is_triggered (sites_pass name score action note (err_text insns) (push_until f max (view (insns_or_empty insns)) []).1) = true <->
  exists l, insns = Ok l /\ (k <= count p (view l))%nat.
Proof using Type.
  intros Hf Hs Hk H0. rewrite is_triggered_sites, Hs, (sites_capped f p) by (done || lia). unfold count.
  destruct insns as [e|l]; cbn [err_text insns_or_empty].
  - split; [by intros [_ ?]|by intros (l & ? & _)].
  - split; [intros [? _]; exists l; split; [done|lia]|]. intros (l' & [= ->] & ?). split; [lia|done].
Qed.

Lemma if_some {A B'} (p : A -> bool) (g : A -> B') x : is_Some (if p x then Some (g x) else None) <-> p x = true.
Proof using Type. destruct (p x); split; try done; by intros []. Qed.

(** The detection report is exact: for a known function the engine
    answers with the first [max_passes] (clamped to 1..16) of its five passes,
    finds no improvement, since nothing was changed, and lists as triggered
    the passes without failure whose confidence reaches 0.6: branches from
    two opaque sites on, indirect transfers from five, junk from seven, tail
    jumps from two, counted over the function's instructions. *)
Theorem deob_exact idx target max_passes f :
  functions idx !! target = Some f ->
  let passes := run_passes b idx target (pass_budget max_passes) in
  (exists v, deobfuscate b idx target max_passes = Ok v /\
     v @@ "findings" = JArr (report_json <$> passes) /\ v @@ "passes_run" = JNum (pass_budget max_passes `min` 5) /\
     v @@ "improved_after_redecompile" = JBool false /\
     v @@ "triggered_passes" = JArr (JStr ∘ pass_name <$> filter (fun p => is_triggered p = true) passes)) /\
  (is_triggered (opaque_branch_pass b target) = true <-> (2 <= length (opaque_sites b target))%nat) /\
  (is_triggered (indirect_pass b idx target) = true <->
     exists insns, disassemble b target (Some (ff_end f)) 2000 = Ok insns /\ (5 <= count indirect_insn insns)%nat) /\
  (is_triggered (junk_pass b target) = true <->
     exists insns, body_insns target = Ok insns /\ (7 <= count junk_insn (with_next insns))%nat) /\
  (is_triggered (tail_jump_pass b target) = true <->
     exists insns, body_insns target = Ok insns /\ (2 <= count tail_insn (with_previous [] insns))%nat).
Proof using Type.
  intros Hf passes. split; [|split; [|split; [|split]]].
  - unfold deobfuscate. rewrite Hf. eexists. split; [reflexivity|]. fold passes. split_and!; [reflexivity| | |reflexivity].
    + change (jnat (length passes) = JNum (pass_budget max_passes `min` 5)). unfold jnat, passes, run_passes.
      rewrite length_take. cbn [length]. f_equal. unfold pass_budget, clamp. lia.
    + match goal with |- ?v @@ _ = _ => change (JBool (match decompile b target, decompile b target with
        | inr x, inr y => negb (bool_decide (pseudocode_len x = pseudocode_len y)) | _, _ => false end) = JBool false) end.
      destruct (decompile b target); [done|]. by rewrite bool_decide_eq_true_2.
  - unfold opaque_branch_pass. rewrite is_triggered_sites, opaque_trigger. split; [by intros [? _]|done].
  - unfold indirect_pass. rewrite Hf.
    apply (sites_trigger _ _ _ _ _ indirect_site indirect_insn id 16 5 (if_some _ _) indirect_trigger); lia.
  - unfold junk_pass, body_insns. destruct (function_at b target) as [e|f'].
    { split; [done|]. by intros (? & ? & _). }
    apply (sites_trigger _ _ _ _ _ junk_site junk_insn with_next 16 7 (if_some _ _) junk_trigger); lia.
  - unfold tail_jump_pass, body_insns. destruct (function_at b target) as [e|f'].
    { split; [done|]. by intros (? & ? & _). }
    apply (sites_trigger _ _ _ _ _ tail_site tail_insn (with_previous []) 8 2 (if_some _ _) tail_trigger); lia.
Qed.
End Triggers.

(** Operands reported by type, as the idalib backend does, are misread: a
    jump or call through a register is not found, a comparison of any two
    registers before a conditional jump is. *)
Lemma typed_operands_misread i next prev :
  (operands i = "Reg" -> indirect_insn i = false /\ tail_insn (i, prev) = false) /\
  (operands i = "Reg, Reg" -> mnem i = "cmp" -> cond_jump next = true -> opaque_insn (i, Some next) = true).
Proof.
  split.
  - intros E. unfold indirect_insn, tail_insn. cbn [fst snd]. rewrite E.
    change (trim "Reg") with "Reg". change (starts_with "[" "Reg") with false. change (contains "reg" "Reg") with false.
    change (is_reg_only "Reg") with false. by rewrite !andb_false_r.
  - intros E Hm Hj. unfold opaque_insn, self_cmp. cbn [fst snd]. rewrite E, Hm, Hj. reflexivity.
Qed.

Definition deob_mock : MockBackend := (mock_open "a.i64" MockBackend_new).2.
Definition deob_index : AnalysisIndex :=
  {| schema_version := 1; binary_md5 := ""; idx_revision := 0; functions := mock_index_functions deob_mock; idx_strings := [] |}.

Lemma deob_exact_witness :
  exists v, deobfuscate deob_mock deob_index 0x401000 3 = Ok v /\ v @@ "passes_run" = JNum 3 /\
    v @@ "improved_after_redecompile" = JBool false.
Proof.
  destruct (functions deob_index !! 0x401000) as [f|] eqn:E; [|vm_compute in E; discriminate E].
  destruct (deob_exact deob_mock deob_index 0x401000 3 f E) as [(v & Hv & _ & Hn & Hi & _) _].
  exists v. split; [exact Hv|]. split; [exact Hn|exact Hi].
Defined.

Example tail_jump_found :
  omap tail_site (with_previous [] [{| insn_ea := 16; mnemonic := "mov"; operands := "rax, 5"; insn_text := "" |};
    {| insn_ea := 20; mnemonic := "jmp"; operands := "rax"; insn_text := "" |}]) =
  [JObj [("ea", JStr "0x14"); ("reg", JStr "rax")]].
Proof. vm_compute. reflexivity. Qed.
