(* ===== verification/Signatures.v ===== *)
(** * Signatures: similarity of functions

    Models [rmcp-worker/src/signatures.rs] and the mapping of two signature
    indexes in [rmcp-worker/src/dispatch.rs] ([sig_map_from_sigs]): the
    fingerprint of a function, the scores of two of them, identification
    against a reference and the proposals of a cross-database map.  Scores are
    exact doubles ([Float]).  Reading and writing the index file is not
    modelled. *)

From stdpp Require Import base list gmap strings sorting.
From Stdlib Require Import ZArith Lia Ascii SpecFloat.
From S2P Require Import Prelude Text Json Errors Index Float.

Local Open Scope Z_scope.
Local Open Scope rmcp_scope.

Record FunctionSig := {
  sg_ea : Z; sg_name : string; sg_size : Z; sg_imports : list string; sg_strings : list string; sg_constants : list Z;
  callee_count : Z; caller_count : Z }.
Record SigIndex := { sig_format : Z; sig_md5 : string; sig_functions : list FunctionSig }.
Definition SIG_FORMAT : Z := 1.

(** [v.sort(); v.dedup()] *)
Definition sorted_strings (l : list string) : list string := dedup (sort_by String.leb l).
Definition sorted_consts (l : list Z) : list Z := dedup (sort_by_key id l).

Definition to_sig (ea : Z) (f : FunctionFacts) : FunctionSig :=
  {| sg_ea := ea; sg_name := ff_name f; sg_size := ff_size f; sg_imports := sorted_strings (imports f);
     sg_strings := sorted_strings (ff_strings f); sg_constants := sorted_consts (constants f);
     callee_count := Z.of_nat (length (callees f)); caller_count := Z.of_nat (length (callers f)) |}.

Definition build_sig_index_no_backend (idx : AnalysisIndex) : SigIndex :=
  {| sig_format := SIG_FORMAT; sig_md5 := binary_md5 idx;
     sig_functions := (fun x => to_sig x.1 x.2) <$> btree_iter (functions idx) |}.
Definition build_sig_index (idx : AnalysisIndex) : SigIndex :=
  {| sig_format := SIG_FORMAT; sig_md5 := binary_md5 idx;
     sig_functions := sort_by_key sg_ea ((fun x => to_sig x.1 x.2) <$> btree_iter (functions idx)) |}.

(** ** Scores *)

Definition w30 : f64 := f_of_bits 0x3fd3333333333333.
Definition w25 : f64 := f_of_bits 0x3fd0000000000000.
Definition w20 : f64 := f_of_bits 0x3fc999999999999a.
Definition w15 : f64 := f_of_bits 0x3fc3333333333333.
Definition w10 : f64 := f_of_bits 0x3fb999999999999a.
Definition w60 : f64 := f_of_bits 0x3fe3333333333333.
Definition w40 : f64 := f_of_bits 0x3fd999999999999a.
Definition w50 : f64 := f_of_bits 0x3fe0000000000000.
Definition w85 : f64 := f_of_bits 0x3feb333333333333.
Definition f100 : f64 := f_of_bits 0x4059000000000000.

Record FamilyScores := { s_imports : f64; s_strings : f64; s_constants : f64; s_calls : f64; s_size : f64 }.

Definition overall (s : FamilyScores) : f64 :=
  fadd (fadd (fadd (fadd (fmul w30 (s_imports s)) (fmul w25 (s_constants s))) (fmul w20 (s_strings s)))
             (fmul w15 (s_calls s))) (fmul w10 (s_size s)).

Definition round2 (v : f64) : f64 := fdiv (fround (fmul v f100)) f100.
Definition jf64 (x : f64) : Value := JFloat (f_to_bits x).

Definition scores_json (s : FamilyScores) : Value :=
  JObj [("imports", jf64 (round2 (s_imports s))); ("constants", jf64 (round2 (s_constants s)));
        ("strings", jf64 (round2 (s_strings s))); ("calls", jf64 (round2 (s_calls s))); ("size", jf64 (round2 (s_size s)))].

Definition set_sim {T : Type} `{Countable T} (a b : list T) : f64 :=
  if bool_decide (a = []) && bool_decide (b = []) then f1
  else if bool_decide (a = []) || bool_decide (b = []) then f0_25
  else
    let sa : gset T := list_to_set a in
    let sb : gset T := list_to_set b in
    let inter := size (sa ∩ sb) in
    let union := size (sa ∪ sb) in
    if (union =? 0)%nat then w50 else fdiv (f_of_nat inter) (f_of_nat union).

Definition size_sim (a b : Z) : f64 :=
  if Z.max a b =? 0 then w50 else fdiv (f_of_Z (Z.min a b)) (f_of_Z (Z.max a b)).

Definition count_ratio (a b : Z) : f64 :=
  if Z.max a b =? 0 then f1 else fdiv (f_of_Z (Z.min a b)) (f_of_Z (Z.max a b)).
Definition call_sim (a b : FunctionSig) : f64 :=
  fadd (fmul w60 (count_ratio (callee_count a) (callee_count b))) (fmul w40 (count_ratio (caller_count a) (caller_count b))).

Definition similarity (a b : FunctionSig) : FamilyScores :=
  {| s_imports := set_sim (sg_imports a) (sg_imports b); s_strings := set_sim (sg_strings a) (sg_strings b);
     s_constants := set_sim (sg_constants a) (sg_constants b); s_calls := call_sim a b; s_size := size_sim (sg_size a) (sg_size b) |}.

Record Thresholds := { strict : f64; relaxed : f64; strict_family_floor : f64 }.
Definition Thresholds_default : Thresholds := {| strict := w85; relaxed := w60; strict_family_floor := w50 |}.

Definition is_strict (th : Thresholds) (s : FamilyScores) : bool :=
  fleb (strict th) (overall s) && fleb (strict_family_floor th) (s_imports s)
  && fleb (strict_family_floor th) (s_constants s) && fleb (strict_family_floor th) (s_strings s).

(** ** Identification *)

Record Candidate := { cd_ea : Z; cd_name : string; cd_scores : FamilyScores; match_kind : string }.

Definition candidate_of (th : Thresholds) (probe rf : FunctionSig) : Candidate :=
  let s := similarity probe rf in
  {| cd_ea := sg_ea rf; cd_name := sg_name rf; cd_scores := s;
     match_kind := if is_strict th s then "strict" else if fleb (relaxed th) (overall s) then "relaxed" else "weak" |}.

(** [b.overall.total_cmp(&a.overall).then(a.ea.cmp(&b.ea))]: not after. *)
Definition candidate_leb (x y : Candidate) : bool :=
  match SFcompare (overall (cd_scores y)) (overall (cd_scores x)) with
  | Some Lt => true
  | Some Gt => false
  | _ => cd_ea x <=? cd_ea y
  end.

Definition candidate_json (c : Candidate) : Value :=
  JObj [("candidate", JObj [("ea", JStr (show_0x (cd_ea c))); ("name", JStr (cd_name c))]);
        ("score", jf64 (round2 (overall (cd_scores c)))); ("match_kind", JStr (match_kind c)); ("evidence", scores_json (cd_scores c))].

Definition identify_function (idx : AnalysisIndex) (reference : SigIndex) (target : Z) (th : Thresholds) (max_candidates : nat)
  : Result Value :=
  match functions idx !! target with
  | None => Err (Worker ("no function at " +:+ show_0x target))
  | Some f =>
      let probe := to_sig (ff_start f) f in
      let candidates := sort_by candidate_leb (candidate_of th probe <$> sig_functions reference) in
      Ok (JObj [("target", JStr (show_0x target)); ("name", JStr (sg_name probe)); ("reference_binary_md5", JStr (sig_md5 reference));
                ("candidates", JArr (candidate_json <$> take max_candidates candidates));
                ("thresholds", JObj [("strict", jf64 (strict th)); ("relaxed", jf64 (relaxed th)); ("family_floor", jf64 (strict_family_floor th))]);
                ("note", JStr "strict matches are rename-proposal material; relaxed are hints only")])
  end.

(** ** Mapping *)

Fixpoint best_target (th : Thresholds) (f : FunctionSig) (gs : list FunctionSig) (best : option FunctionSig) : option FunctionSig :=
  match gs with
  | [] => best
  | g :: rest =>
      let s := overall (similarity f g) in
      let better := match best with Some b => fltb (overall (similarity f b)) s | None => true end in
      best_target th f rest (if better && fleb (relaxed th) s then Some g else best)
  end.

Record Transfer := { tr_from : FunctionSig; tr_to : FunctionSig; tr_kind : string; tr_conflict : bool }.

Definition auto_named (name : string) : bool :=
  starts_with "sub_" name || (negb (starts_with "?" name) && starts_with "j_" name).

Definition transfer_of (th : Thresholds) (f g : FunctionSig) : Transfer :=
  {| tr_from := f; tr_to := g; tr_kind := if is_strict th (similarity f g) then "strict" else "relaxed";
     tr_conflict := negb (auto_named (sg_name g)) && negb (bool_decide (sg_name g = sg_name f)) |}.

Definition no_evidence (f : FunctionSig) : bool :=
  (sg_size f <? 16) && bool_decide (sg_imports f = []) && bool_decide (sg_constants f = []).

Definition propose_transfer (th : Thresholds) (gs : list FunctionSig) (f : FunctionSig) : option Transfer :=
  if no_evidence f then None else transfer_of th f <$> best_target th f gs None.

Definition tr_score (t : Transfer) : f64 := round2 (overall (similarity (tr_from t) (tr_to t))).
Definition transfer_leb (x y : Transfer) : bool := ftotal_le (tr_score y) (tr_score x).

Definition end_json (f : FunctionSig) : Value := JObj [("ea", JStr (show_0x (sg_ea f))); ("name", JStr (sg_name f))].
Definition transfer_json (t : Transfer) : Value :=
  JObj [("from", end_json (tr_from t)); ("to", end_json (tr_to t)); ("score", jf64 (tr_score t)); ("match_kind", JStr (tr_kind t));
        ("evidence", scores_json (similarity (tr_from t) (tr_to t)));
        ("proposal", JObj [("rename_to", JStr (sg_name (tr_from t))); ("conflict", JBool (tr_conflict t));
           ("note", JStr (if tr_conflict t then "target has a meaningful name; transfer requires explicit approval"
                          else "safe to apply (target is auto-named)"))])].

Definition map_functions (idx_from idx_to : AnalysisIndex) (th : Thresholds) (max_transfers : nat) : Value :=
  let '(ts, truncated) :=
    push_until (propose_transfer th (sig_functions (build_sig_index_no_backend idx_to))) max_transfers
      (sig_functions (build_sig_index_no_backend idx_from)) [] in
  JObj [("from_binary_md5", JStr (binary_md5 idx_from)); ("to_binary_md5", JStr (binary_md5 idx_to));
        ("transfers", JArr (transfer_json <$> sort_by transfer_leb ts));
        ("conflicts", jnat (length (filter (fun t => tr_conflict t = true) ts))); ("truncated", JBool truncated);
        ("note", JStr "PROPOSALS ONLY: apply via explicit rename mutations with expected_revision; nothing is applied here")].

(** [mk_idx] of [sig_map_from_sigs]: the view of a signature index as an analysis index. *)
Definition facts_of_sig (f : FunctionSig) : FunctionFacts :=
  {| ff_start := sg_ea f; ff_end := wrapping_add64 (sg_ea f) (sg_size f); ff_name := sg_name f; demangled := ""; ff_size := sg_size f;
     imports := sg_imports f; ff_strings := sg_strings f; constants := sg_constants f; indirect_calls := 0; callees := [];
     callers := []; globals := [] |}.
Definition mk_idx (sig : SigIndex) : AnalysisIndex :=
  {| schema_version := 1; binary_md5 := sig_md5 sig; idx_revision := 0;
     functions := foldl (fun m f => <[sg_ea f := facts_of_sig f]> m) ∅ (sig_functions sig); idx_strings := [] |}.
Definition sig_map_from_sigs (from to : SigIndex) (max : nat) : Value :=
  map_functions (mk_idx from) (mk_idx to) Thresholds_default max.

(** ** Identification ranks by score *)

Lemma candidate_leb_total x y : candidate_leb x y = false -> candidate_leb y x = true.
Proof.
  unfold candidate_leb. rewrite (SFcompare_antisym (overall (cd_scores y))). destruct (SFcompare _ _) as [[] |]; cbn; intros E; try done;
    apply Z.leb_gt in E; apply Z.leb_le; lia.
Qed.

Lemma candidate_leb_score x y :
  is_number (overall (cd_scores x)) -> is_number (overall (cd_scores y)) -> candidate_leb x y = true ->
  fleb (overall (cd_scores y)) (overall (cd_scores x)) = true.
Proof.
  intros Hx Hy. unfold candidate_leb, fleb, SFleb. destruct (SFcompare _ _) as [[] |] eqn:E; try done. intros _.
  exfalso. revert E. unfold is_number in *. destruct (overall (cd_scores y)), (overall (cd_scores x)); done.
Qed.

Definition score_ge (x y : Candidate) : Prop := fleb (overall (cd_scores y)) (overall (cd_scores x)) = true.
#[export] Instance score_ge_trans : Transitive score_ge.
Proof. intros x y z Hxy Hyz. exact (fleb_trans _ _ _ Hyz Hxy). Qed.

(** Identification is a ranking of the whole reference: for a known
    function the candidates reported are the first [max_candidates] of all
    reference functions, ordered so that, when the scores are numbers, no one
    left out scores higher than one reported; a candidate is called strict
    exactly when its overall score and its import, constant and string
    families all reach the thresholds. *)
Theorem identify_ranked idx reference target th max f :
  functions idx !! target = Some f ->
  (forall rf, rf ∈ sig_functions reference -> is_number (overall (similarity (to_sig (ff_start f) f) rf))) ->
  exists v ranked, identify_function idx reference target th max = inr v /\
    v @@ "candidates" = JArr (candidate_json <$> take max ranked) /\
    ranked ≡ₚ candidate_of th (to_sig (ff_start f) f) <$> sig_functions reference /\
    (forall x y, x ∈ take max ranked -> y ∈ drop max ranked -> score_ge x y) /\
    (forall c, c ∈ ranked -> match_kind c = "strict" <-> is_strict th (cd_scores c) = true).
Proof.
  intros Hf Hnum. set (probe := to_sig (ff_start f) f) in *.
  set (ranked := sort_by candidate_leb (candidate_of th probe <$> sig_functions reference)).
  assert (Hp : ranked ≡ₚ candidate_of th probe <$> sig_functions reference) by apply sort_by_perm.
  assert (Hc : forall c, c ∈ ranked -> exists rf, c = candidate_of th probe rf /\ rf ∈ sig_functions reference).
  { intros c Hc. rewrite Hp in Hc. by apply list_elem_of_fmap in Hc. }
  eexists _, ranked. unfold identify_function. rewrite Hf. split; [reflexivity |]. split; [reflexivity |]. split; [exact Hp |]. split.
  - assert (StronglySorted score_ge ranked) as Hs.
    { apply Sorted_StronglySorted; [exact score_ge_trans |].
      assert (Forall (fun c => is_number (overall (cd_scores c))) ranked) as HF.
      { apply Forall_forall. intros c Hin. destruct (Hc c Hin) as (rf & -> & Hrf). by apply Hnum. }
      pose proof (sort_by_sorted _ candidate_leb_total (candidate_of th probe <$> sig_functions reference)) as Hso. fold ranked in Hso.
      clear Hp Hc. induction Hso as [| x l Hl IH Hd]; [constructor |]. apply Forall_cons in HF as [Hx HF].
      constructor; [by apply IH |]. destruct Hd as [| y l Hxy]; constructor. apply Forall_cons in HF as [Hy _].
      by apply candidate_leb_score. }
    intros x y Hx Hy. rewrite <- (take_drop max ranked) in Hs. exact (StronglySorted_app_1_elem_of score_ge _ _ x y Hs Hx Hy).
  - intros c Hin. destruct (Hc c Hin) as (rf & -> & _). unfold candidate_of. cbn [match_kind cd_scores].
    destruct (is_strict th _); [done |]. destruct (fleb _ _); split; discriminate.
Qed.

(** ** Transfers go to the best target *)

Lemma best_target_spec th f gs best :
  (forall b, best = Some b -> fleb (relaxed th) (overall (similarity f b)) = true) ->
  let r := best_target th f gs best in
  (forall g, r = Some g -> fleb (relaxed th) (overall (similarity f g)) = true /\ (g ∈ gs \/ best = Some g)) /\
  (forall g, g ∈ gs \/ best = Some g -> fleb (relaxed th) (overall (similarity f g)) = true ->
     exists g', r = Some g' /\ fleb (overall (similarity f g)) (overall (similarity f g')) = true).
Proof.
  assert (Hn : forall x y, fleb x y = true -> is_number x /\ is_number y).
  { intros x y. unfold is_number, fleb, SFleb. destruct x, y; simpl; done || (split; discriminate). }
  revert best. induction gs as [| g gs IH]; intros best Hb; cbn [best_target].
  { split; [intros g Hg; split; [by apply Hb | by right] |]. intros g [Hg | Hg] Hr; [inversion Hg |]. exists g. split; [done |].
    apply fleb_refl. by apply Hn in Hr as [_ ?]. }
  set (s := overall (similarity f g)). set (better := match best with Some _ => _ | None => true end).
  destruct (IH (if better && fleb (relaxed th) s then Some g else best)) as [H1 H2].
  { destruct (better && fleb (relaxed th) s) eqn:E; [| exact Hb]. intros b [= <-]. by apply andb_true_iff in E as [_ ?]. }
  split.
  - intros g' Hg'. destruct (H1 g' Hg') as [Hr [Hin | Hin]]; (split; [exact Hr |]); [by left; right |].
    destruct (better && fleb (relaxed th) s); [injection Hin as <-; left; left | by right].
  - intros g' Hg' Hr.
    assert (Hnew : fleb (relaxed th) s = true -> exists g'', (if better && fleb (relaxed th) s then Some g else best) = Some g'' /\
              fleb s (overall (similarity f g'')) = true /\ (forall b, best = Some b -> fleb (overall (similarity f b)) (overall (similarity f g'')) = true)).
    { intros Hs. rewrite Hs, andb_true_r. destruct (Hn _ _ Hs) as [_ Hsn]. unfold better. destruct best as [b |].
      - pose proof (Hb b eq_refl) as Hbr. destruct (Hn _ _ Hbr) as [_ Hbn]. destruct (fltb _ s) eqn:E.
        + exists g. split; [done |]. split; [by apply fleb_refl |]. intros ? [= <-]. by apply fltb_fleb.
        + exists b. split; [done |]. split; [by apply fltb_false |]. intros ? [= <-]. by apply fleb_refl.
      - exists g. split; [done |]. split; [by apply fleb_refl | discriminate]. }
    destruct Hg' as [Hg' | Hg'].
    + apply elem_of_cons in Hg' as [-> | Hg']; [| apply H2; [by left | exact Hr]].
      destruct (Hnew Hr) as (g'' & Eg & Hle & _). destruct (H2 g'' (or_intror Eg)) as (h & Eh & Hh).
      { destruct (better && fleb (relaxed th) s); [injection Eg as <-; exact Hr | by apply Hb]. }
      exists h. split; [exact Eh |]. exact (fleb_trans _ _ _ Hle Hh).
    + destruct (fleb (relaxed th) s) eqn:Hs.
      * destruct (Hnew eq_refl) as (g'' & Eg & _ & Hle). destruct (H2 g'' (or_intror Eg)) as (h & Eh & Hh).
        { destruct (better && true); [injection Eg as <-; exact Hs | by apply Hb]. }
        exists h. split; [exact Eh |]. exact (fleb_trans _ _ _ (Hle g' Hg') Hh).
      * rewrite andb_false_r in *. apply H2; [by right | exact Hr].
Qed.

(** A map proposes the best target of every function with evidence: the
    transfers are the first [max_transfers] (at least one) of those of the
    source functions, in address order, that are not tiny and without
    evidence and have a target that reaches the relaxed threshold; each goes
    to a function of the target database that no other exceeds in score; the
    flag says whether the limit was reached, the conflicts are the transfers
    whose target has another, not generated, name. *)
Theorem map_functions_best idx_from idx_to th max :
  let fs := sig_functions (build_sig_index_no_backend idx_from) in
  let gs := sig_functions (build_sig_index_no_backend idx_to) in
  let all := omap (propose_transfer th gs) fs in
  let cap := (max `max` 1)%nat in
  let v := map_functions idx_from idx_to th max in
  (exists sorted, v @@ "transfers" = JArr (transfer_json <$> sorted) /\ sorted ≡ₚ take cap all) /\
  v @@ "truncated" = JBool (cap <=? length all)%nat /\
  v @@ "conflicts" = jnat (length (filter (fun t => tr_conflict t = true) (take cap all))) /\
  (forall t, t ∈ all -> tr_from t ∈ fs /\ tr_to t ∈ gs /\ no_evidence (tr_from t) = false /\
     fleb (relaxed th) (overall (similarity (tr_from t) (tr_to t))) = true /\
     (forall g, g ∈ gs -> fleb (relaxed th) (overall (similarity (tr_from t) g)) = true ->
        fleb (overall (similarity (tr_from t) g)) (overall (similarity (tr_from t) (tr_to t))) = true) /\
     (tr_conflict t = true <-> auto_named (sg_name (tr_to t)) = false /\ sg_name (tr_to t) <> sg_name (tr_from t))) /\
  (forall f g, f ∈ fs -> g ∈ gs -> no_evidence f = false -> fleb (relaxed th) (overall (similarity f g)) = true ->
     exists t, t ∈ all /\ tr_from t = f).
Proof.
  intros fs gs all cap v. unfold v, map_functions. rewrite push_until_spec by (cbn; lia). cbn [app]. fold fs gs all cap.
  split; [eexists; split; [reflexivity | apply sort_by_perm] |]. split; [reflexivity |]. split; [reflexivity |]. split.
  - intros t (f & Hf & Ht)%list_elem_of_omap. unfold propose_transfer in Ht. destruct (no_evidence f) eqn:En; [discriminate |].
    destruct (best_target_spec th f gs None) as [H1 H2]; [discriminate |].
    destruct (best_target th f gs None) as [g |]; [| discriminate]. injection Ht as <-. cbn [tr_from tr_to tr_conflict transfer_of].
    destruct (H1 g eq_refl) as [Hr [Hg | Hg]]; [| discriminate]. split_and!; try assumption.
    + intros g' Hg' Hr'. destruct (H2 g' (or_introl Hg') Hr') as (? & [= <-] & Hle). exact Hle.
    + rewrite andb_true_iff, !negb_true_iff, bool_decide_eq_false. reflexivity.
  - intros f g Hf Hg En Hr. destruct (best_target_spec th f gs None) as [_ H2]; [discriminate |].
    destruct (H2 g (or_introl Hg) Hr) as (g' & Eb & _). exists (transfer_of th f g'). split; [| reflexivity].
    apply list_elem_of_omap. exists f. split; [exact Hf |]. unfold propose_transfer. by rewrite En, Eb.
Qed.

(** ** What survives an export *)

Lemma dedup_strict_id {A} `{EqDecision A} (R : relation A) `{Irreflexive A R} l : StronglySorted R l -> dedup l = l.
Proof.
  induction 1 as [| x l Hs IH Hx]; [reflexivity |]. cbn [dedup]. destruct l as [| y l]; [reflexivity |].
  case_bool_decide as E; [| by rewrite IH]. subst y. apply Forall_cons in Hx as [Hx _]. by apply irreflexivity in Hx.
Qed.

Lemma sort_by_key_id {A} (key : A -> Z) (l : list A) : StronglySorted (key_le key) l -> sort_by_key key l = l.
Proof.
  induction 1 as [| x l Hs IH Hx]; [reflexivity |]. cbn [sort_by_key foldr]. fold (sort_by_key key l). rewrite IH.
  destruct l as [| y l]; [reflexivity |]. cbn [insert_by_key]. apply Forall_cons in Hx as [Hx _]. unfold key_le in Hx.
  by rewrite (proj2 (Z.leb_le _ _) Hx).
Qed.

Lemma sort_by_id {A} (leb : A -> A -> bool) (l : list A) : Sorted (fun x y => leb x y = true) l -> sort_by leb l = l.
Proof.
  induction 1 as [| x l Hs IH Hx]; [reflexivity |]. cbn [sort_by foldr]. fold (sort_by leb l). rewrite IH.
  destruct l as [| y l]; [reflexivity |]. cbn [insert_by]. inversion Hx as [| ? ? E]. by rewrite E.
Qed.

Lemma dedup_sorted {A} `{EqDecision A} (R : relation A) `{AntiSymm A (=) R} l :
  StronglySorted R l -> StronglySorted (fun x y => R x y /\ x <> y) (dedup l).
Proof.
  induction 1 as [| x l Hs IH Hx]; [constructor |]. cbn [dedup]. destruct l as [| y l]; [constructor; constructor |].
  case_bool_decide as E; [exact IH |]. constructor; [exact IH |]. apply Forall_forall. intros z Hz. rewrite elem_of_dedup in Hz.
  rewrite Forall_forall in Hx. split; [by apply Hx |]. intros <-. apply E.
  apply elem_of_cons in Hz as [-> | Hz]; [reflexivity |]. apply (anti_symm R); [apply Hx; left |].
  apply StronglySorted_inv in Hs as [_ Hy]. rewrite Forall_forall in Hy. by apply Hy.
Qed.

Lemma sorted_consts_idem l : sorted_consts (sorted_consts l) = sorted_consts l.
Proof.
  unfold sorted_consts. assert (StronglySorted Z.lt (dedup (sort_by_key id l))) as Hs.
  { apply dedup_strict. apply (StronglySorted_ext (key_le id) Z.le); [done |]. apply sort_by_key_sorted. }
  rewrite sort_by_key_id; [exact (dedup_strict_id Z.lt _ Hs) |].
  apply (StronglySorted_ext Z.lt (key_le id)); [intros x y; unfold key_le, id; lia | exact Hs].
Qed.

Lemma sorted_strings_idem l : sorted_strings (sorted_strings l) = sorted_strings l.
Proof.
  unfold sorted_strings. set (R := fun x y : string => String.leb x y = true).
  assert (StronglySorted (fun x y => R x y /\ x <> y) (dedup (sort_by String.leb l))) as Hs.
  { apply dedup_sorted; [exact leb_antisym |]. apply Sorted_StronglySorted; [exact leb_trans | apply sort_by_sorted, leb_total]. }
  rewrite sort_by_id.
  - assert (Irreflexive (fun x y => R x y /\ x <> y)) by (intros x [_ ?]; done). exact (dedup_strict_id _ _ Hs).
  - apply StronglySorted_Sorted. eapply StronglySorted_ext; [| exact Hs]. intros x y _ _ [? _]. done.
Qed.

Definition without_calls (f : FunctionSig) : FunctionSig :=
  {| sg_ea := sg_ea f; sg_name := sg_name f; sg_size := sg_size f; sg_imports := sg_imports f; sg_strings := sg_strings f;
     sg_constants := sg_constants f; callee_count := 0; caller_count := 0 |}.

Lemma to_sig_facts ea f : to_sig ea (facts_of_sig (to_sig ea f)) = without_calls (to_sig ea f).
Proof.
  unfold to_sig, facts_of_sig, without_calls.
  cbn [sg_ea sg_name sg_size sg_imports sg_strings sg_constants ff_name ff_size imports ff_strings constants callees callers length].
  rewrite !sorted_strings_idem, sorted_consts_idem. reflexivity.
Qed.

Lemma insert_sigs_lookup fs (m : gmap Z FunctionFacts) k :
  NoDup (sg_ea <$> fs) ->
  foldl (fun m f => <[sg_ea f := facts_of_sig f]> m) m fs !! k =
  match List.find (fun f => sg_ea f =? k) fs with Some f => Some (facts_of_sig f) | None => m !! k end.
Proof.
  revert m. induction fs as [| f fs IH]; intros m Hn; [reflexivity |]. cbn [fmap list_fmap] in Hn. apply NoDup_cons in Hn as [Hf Hn].
  cbn [foldl List.find]. rewrite IH by exact Hn. destruct (Z.eqb_spec (sg_ea f) k) as [<- | Hne].
  - destruct (List.find _ fs) as [g |] eqn:E; [| by rewrite lookup_insert_eq]. apply List.find_some in E as [Hg E%Z.eqb_eq].
    destruct Hf. rewrite <- E. apply list_elem_of_fmap_2. by apply list_elem_of_In.
  - by rewrite lookup_insert_ne by exact Hne.
Qed.

Lemma sort_by_key_fmap {A B} (g : A -> B) (key : B -> Z) (l : list A) :
  sort_by_key key (g <$> l) = g <$> sort_by_key (key ∘ g) l.
Proof.
  induction l as [| x l IH]; [reflexivity |]. cbn [fmap list_fmap sort_by_key foldr]. fold (g <$> l).
  change (foldr (insert_by_key key) [] (g <$> l)) with (sort_by_key key (g <$> l)). rewrite IH.
  change (foldr (insert_by_key (key ∘ g)) [] l) with (sort_by_key (key ∘ g) l).
  clear IH. generalize (sort_by_key (key ∘ g) l) as l'. intros l'.
  induction l' as [| y l' IHl]; [reflexivity |]. cbn [fmap list_fmap insert_by_key].
  change ((key ∘ g) x <=? (key ∘ g) y) with (key (g x) <=? key (g y)).
  destruct (key (g x) <=? key (g y)); [reflexivity |]. cbn [fmap list_fmap]. f_equal. exact IHl.
Qed.

(** Iterating over a map whose values were computed from their keys. *)
Lemma btree_iter_imap {A B} (g : Z -> A -> B) (m : gmap Z A) :
  btree_iter (map_imap (fun k x => Some (g k x)) m) = (fun x => (x.1, g x.1 x.2)) <$> btree_iter m.
Proof.
  transitivity (sort_by_key fst ((fun x => (x.1, g x.1 x.2)) <$> map_to_list m)); [| apply (sort_by_key_fmap (fun x => (x.1, g x.1 x.2)))].
  unfold btree_iter. apply sort_by_key_unique; [| apply NoDup_fst_map_to_list]. apply NoDup_Permutation.
  - apply NoDup_map_to_list.
  - apply (NoDup_fmap_1 fst). rewrite <- list_fmap_compose. apply (NoDup_fst_map_to_list m).
  - intros [k b]. rewrite elem_of_map_to_list, map_lookup_imap, list_elem_of_fmap. split.
    + destruct (m !! k) as [a |] eqn:Ek; [| discriminate]. cbn. intros [= <-]. exists (k, a). split; [done |]. by apply elem_of_map_to_list.
    + intros ([k' a] & [= -> ->] & Hk%elem_of_map_to_list). cbn. by rewrite Hk.
Qed.

Lemma mk_idx_functions md5 fmt (fs : gmap Z FunctionFacts) :
  functions (mk_idx {| sig_format := fmt; sig_md5 := md5; sig_functions := (fun x => to_sig x.1 x.2) <$> btree_iter fs |}) =
  map_imap (fun k f => Some (facts_of_sig (to_sig k f))) fs.
Proof.
  unfold mk_idx. cbn [functions sig_functions]. apply map_eq. intros k. rewrite insert_sigs_lookup, map_lookup_imap, lookup_empty.
  2:{ rewrite <- list_fmap_compose. change (sg_ea ∘ (fun x : Z * FunctionFacts => to_sig x.1 x.2)) with (@fst Z FunctionFacts).
      unfold btree_iter. rewrite sort_by_key_perm. apply NoDup_fst_map_to_list. }
  destruct (List.find _ _) as [g |] eqn:E.
  - apply List.find_some in E as [Hg E%Z.eqb_eq]. apply list_elem_of_In, list_elem_of_fmap in Hg as ([k' f] & -> & Hk).
    apply elem_of_btree_iter in Hk. cbn in E. subst k'. by rewrite Hk.
  - destruct (fs !! k) as [f |] eqn:Ek; [| reflexivity]. exfalso.
    assert ((sg_ea (to_sig k f) =? k) = false) as Hf; [| by rewrite Z.eqb_refl in Hf].
    apply (List.find_none _ _ E). apply list_elem_of_In, list_elem_of_fmap.
    exists (k, f). split; [reflexivity |]. by apply elem_of_btree_iter.
Qed.

Lemma sigs_sorted (fs : gmap Z FunctionFacts) :
  sort_by_key sg_ea ((fun x => to_sig x.1 x.2) <$> btree_iter fs) = (fun x => to_sig x.1 x.2) <$> btree_iter fs.
Proof.
  rewrite sort_by_key_fmap. f_equal. apply sort_by_key_id.
  change (sg_ea ∘ (fun x : Z * FunctionFacts => to_sig x.1 x.2)) with (@fst Z FunctionFacts). apply sort_by_key_sorted.
Qed.

(** Mapping two exported signature indexes compares everything but the
    calls: the view rebuilt from an export has the binary's hash and every
    function with its address, name, size, imports, strings and constants, in
    the same order, and zero callees and callers, so the call family scores
    the same for every pair. *)
Theorem export_view_loses_calls idx :
  build_sig_index_no_backend (mk_idx (build_sig_index idx)) =
  {| sig_format := SIG_FORMAT; sig_md5 := binary_md5 idx; sig_functions := without_calls <$> sig_functions (build_sig_index_no_backend idx) |}.
Proof.
  unfold build_sig_index_no_backend, build_sig_index. rewrite sigs_sorted, mk_idx_functions, btree_iter_imap.
  cbn [sig_functions]. f_equal. rewrite <- !list_fmap_compose. apply list_fmap_ext. intros ? [k f] _. apply to_sig_facts.
Qed.

(** Two functions, identified against themselves. *)
Definition sample_facts (start : Z) (name : string) (imps : list string) : FunctionFacts :=
  {| ff_start := start; ff_end := start + 0x40; ff_name := name; demangled := ""; ff_size := 0x40; imports := imps; ff_strings := ["log"];
     constants := [0x1234; 0x77]; indirect_calls := 0; callees := [0x5000]; callers := []; globals := [] |}.
Definition sample_index : AnalysisIndex :=
  {| schema_version := 1; binary_md5 := "m"; idx_revision := 0; idx_strings := [];
     functions := {[0x1000 := sample_facts 0x1000 "parse" ["read"; "close"]; 0x2000 := sample_facts 0x2000 "send" ["write"]]} |}.

Lemma identify_ranked_witness :
  exists v ranked, identify_function sample_index (build_sig_index sample_index) 0x1000 Thresholds_default 1 = inr v /\
    v @@ "candidates" = JArr (candidate_json <$> take 1 ranked) /\
    forall x y, x ∈ take 1 ranked -> y ∈ drop 1 ranked -> score_ge x y.
Proof.
  destruct (identify_ranked sample_index (build_sig_index sample_index) 0x1000 Thresholds_default 1
              (sample_facts 0x1000 "parse" ["read"; "close"])) as (v & ranked & E & Hc & _ & Hs & _).
  - vm_compute. reflexivity.
  - intros rf Hrf. assert (sig_functions (build_sig_index sample_index) =
      [to_sig 0x1000 (sample_facts 0x1000 "parse" ["read"; "close"]); to_sig 0x2000 (sample_facts 0x2000 "send" ["write"])]) as El
      by (vm_compute; reflexivity).
    rewrite El in Hrf. apply elem_of_cons in Hrf as [-> | Hrf]; [vm_compute; discriminate |].
    apply list_elem_of_singleton in Hrf as ->. vm_compute. discriminate.
  - exists v, ranked. by split_and!.
Defined.

Example self_is_strict :
  is_strict Thresholds_default (similarity (to_sig 0x1000 (sample_facts 0x1000 "parse" ["read"])) (to_sig 0x1000 (sample_facts 0x1000 "parse" ["read"]))) = true.
Proof. vm_compute. reflexivity. Qed.
