(* ===== verification/BlockDiff.v ===== *)
(** * BlockDiff: differences between basic blocks

    Models [rmcp-worker/src/blockdiff.rs]: fingerprints of the basic blocks
    of a function, the matching of two lists of them, and the comparison of
    two exported binaries.  Similarities are exact doubles ([Float]). *)

From stdpp Require Import base list gmap strings sorting.
From Stdlib Require Import ZArith Lia Ascii SpecFloat.
From S2P Require Import Prelude Text Json Errors Index Backend Float.

Local Open Scope Z_scope.
Local Open Scope rmcp_scope.

Definition FNV_OFFSET : Z := 0xcbf29ce484222325.
Definition FNV_PRIME : Z := 0x100000001b3.

(** [h ^= v; h = h.wrapping_mul(prime)] *)
Definition fnv_mix (h v : Z) : Z := (Z.lxor h v * FNV_PRIME) mod u64_modulus.
Fixpoint fnv_bytes (h : Z) (s : string) : Z :=
  match s with EmptyString => h | String c s' => fnv_bytes (fnv_mix h (ord c)) s' end.
Definition fnv1a64 (s : string) : Z := fnv_bytes FNV_OFFSET s.

Record BlockFp := {
  fp_ea : Z; mnemonic_hash : Z; const_hash : Z; const_count : Z; out_edges : Z; in_edges : Z; insn_count : Z }.
#[export] Instance BlockFp_eq_dec : EqDecision BlockFp.
Proof. solve_decision. Defined.

Definition shape_hash (b : BlockFp) : Z :=
  foldl fnv_mix FNV_OFFSET [mnemonic_hash b; const_hash b; out_edges b; in_edges b].

Definition f_of_bool (b : bool) : f64 := if b then f1 else f0.

Definition similarity (x y : BlockFp) : f64 :=
  let mnem := f_of_bool (mnemonic_hash x =? mnemonic_hash y) in
  let consts := f_of_bool (const_hash x =? const_hash y) in
  let edges := f_of_bool ((out_edges x =? out_edges y) && (in_edges x =? in_edges y)) in
  fadd (fadd (fmul f0_6 mnem) (fmul f0_2 consts)) (fmul f0_2 edges).

(** ** Fingerprints of a function *)

Section Fingerprints.
Context {B : Type} `{IdaBackend B}.

(** The constants of an instruction: hexadecimal operands from [0x100] on. *)
Definition operand_const (tok : string) : option Z :=
  let tok := trim tok in
  hex ← match strip_prefix "0x" tok with Some h => Some h | None => strip_prefix "0X" tok end;
  v ← ok (parse_hex_u64 hex);
  if 0x100 <=? v then Some v else None.

(** Instructions go to the last block start before them. *)
Fixpoint slice_blocks (starts : gset Z) (current : option Z) (insns : list InsnInfo) (m : gmap Z (list InsnInfo))
  : gmap Z (list InsnInfo) :=
  match insns with
  | [] => m
  | i :: rest =>
      let current := if bool_decide (insn_ea i ∈ starts) then Some (insn_ea i) else current in
      slice_blocks starts current rest
        (match current with Some c => <[c := default [] (m !! c) ++ [i]]> m | None => m end)
  end.

Definition bump_count (k : Z) (m : gmap Z Z) : gmap Z Z := <[k := default 0 (m !! k) + 1]> m.
Definition count_edges (side : string) (edges : list Value) : gmap Z Z :=
  foldl (fun m e =>
    match as_u64 (e @@ "from"), as_u64 (e @@ "to") with
    | Some from, Some to => bump_count (if bool_decide (side = "from") then from else to) m
    | _, _ => m
    end) ∅ edges.

Definition block_fp (outs ins : gmap Z Z) (start : Z) (insns : list InsnInfo) : BlockFp :=
  let mnem := join "" ((fun i => to_ascii_lowercase (mnemonic i) +:+ String (chr 0x1f) "") <$> insns) in
  let consts : gset Z := list_to_set (concat ((fun i => omap operand_const (split_on "," (operands i))) <$> insns)) in
  {| fp_ea := start;
     mnemonic_hash := fnv1a64 mnem;
     const_hash := foldl fnv_mix FNV_OFFSET (sort_by_key (fun x => x) (elements consts));
     const_count := Z.of_nat (size consts);
     out_edges := default 0 (outs !! start);
     in_edges := default 0 (ins !! start);
     insn_count := Z.of_nat (length insns) |}.

Definition function_block_fingerprints (b : B) (ea : Z) (max_blocks : nat) : Result (list BlockFp * bool) :=
  g <-? graph b ea {| g_kind := "cfg"; g_depth := 1; max_nodes := Z.of_nat max_blocks; max_edges := Z.of_nat (max_blocks * 4) |};
  nodes <-? ok_or_else (as_array (g @@ "nodes")) (Worker "graph: missing nodes");
  let truncated := default false (as_bool (g @@ "truncated")) || (max_blocks <=? length nodes)%nat in
  let starts : gset Z := list_to_set (omap (fun n => as_u64 (n @@ "ea")) nodes) in
  f <-? function_at b ea;
  insns <-? disassemble b ea (Some (ea_end f)) (max_blocks * 64);
  let per_block := slice_blocks starts None insns ∅ in
  let edges := default [] (as_array (g @@ "edges")) in
  let outs := count_edges "from" edges in
  let ins := count_edges "to" edges in
  Ok ((fun x => block_fp outs ins x.1 x.2) <$> btree_iter per_block, truncated).
End Fingerprints.

(** ** Matching *)

Record matching := { mt_pairs : list (nat * nat); mt_a : gset nat; mt_b : gset nat }.
Definition add_pair (ai bi : nat) (mt : matching) : matching :=
  {| mt_pairs := mt_pairs mt ++ [(ai, bi)]; mt_a := {[ai]} ∪ mt_a mt; mt_b := {[bi]} ∪ mt_b mt |}.

(** Blocks of the second list by shape, the last one in front. *)
Fixpoint by_shape (bi : nat) (b : list BlockFp) (m : gmap Z (list nat)) : gmap Z (list nat) :=
  match b with
  | [] => m
  | blk :: rest => by_shape (S bi) rest (<[shape_hash blk := bi :: default [] (m !! shape_hash blk)]> m)
  end.

Fixpoint match_exact (ai : nat) (a : list BlockFp) (m : gmap Z (list nat)) (mt : matching) : matching :=
  match a with
  | [] => mt
  | blk :: rest =>
      match m !! shape_hash blk with
      | Some (bi :: l) => match_exact (S ai) rest (<[shape_hash blk := l]> m) (add_pair ai bi mt)
      | _ => match_exact (S ai) rest m mt
      end
  end.

Fixpoint best_match (blk : BlockFp) (threshold : f64) (bi : nat) (b : list BlockFp) (used : gset nat)
    (best : option (nat * f64)) : option (nat * f64) :=
  match b with
  | [] => best
  | other :: rest =>
      let s := similarity blk other in
      let best :=
        if bool_decide (bi ∈ used) then best
        else if fltb s threshold then best
        else match best with
             | None => Some (bi, s)
             | Some (_, bs) => if fltb bs s then Some (bi, s) else best
             end in
      best_match blk threshold (S bi) rest used best
  end.

Fixpoint match_similar (threshold : f64) (ai : nat) (a b : list BlockFp) (mt : matching) : matching :=
  match a with
  | [] => mt
  | blk :: rest =>
      if bool_decide (ai ∈ mt_a mt) then match_similar threshold (S ai) rest b mt
      else match best_match blk threshold 0 b (mt_b mt) None with
           | Some (bi, _) => match_similar threshold (S ai) rest b (add_pair ai bi mt)
           | None => match_similar threshold (S ai) rest b mt
           end
  end.

Definition match_blocks (a b : list BlockFp) (threshold : f64) : matching :=
  match_similar threshold 0 a b
    (match_exact 0 a (by_shape 0 b ∅) {| mt_pairs := []; mt_a := ∅; mt_b := ∅ |}).

(** ** Rows *)

Record Row := { row_kind : string; row_a : option BlockFp; row_b : option BlockFp; row_sim : option f64 }.

Definition side_json (x : BlockFp) : Value :=
  JObj [("ea", JStr (show_0x (fp_ea x))); ("insns", JNum (insn_count x))].
Definition block_row (r : Row) : Value :=
  JObj [("kind", JStr (row_kind r)); ("a", jopt side_json (row_a r)); ("b", jopt side_json (row_b r));
        ("similarity", jopt (fun s => JStr (show_f2 s)) (row_sim r))].

Definition pair_row (a b : list BlockFp) (p : nat * nat) : option Row :=
  x ← a !! p.1; y ← b !! p.2;
  let s := similarity x y in
  Some {| row_kind := if fleb f0_999 s then "equal" else "modified"; row_a := Some x; row_b := Some y; row_sim := Some s |}.

Fixpoint unmatched (used : gset nat) (i : nat) (l : list BlockFp) : list BlockFp :=
  match l with
  | [] => []
  | x :: l' => if bool_decide (i ∈ used) then unmatched used (S i) l' else x :: unmatched used (S i) l'
  end.

Definition rows_of (a b : list BlockFp) (mt : matching) : list Row :=
  omap (pair_row a b) (mt_pairs mt)
  ++ ((fun x => {| row_kind := "removed"; row_a := Some x; row_b := None; row_sim := None |}) <$> unmatched (mt_a mt) 0 a)
  ++ ((fun x => {| row_kind := "added"; row_a := None; row_b := Some x; row_sim := None |}) <$> unmatched (mt_b mt) 0 b).

Definition rank (k : string) : Z :=
  if bool_decide (k = "equal") then 0 else if bool_decide (k = "modified") then 1
  else if bool_decide (k = "removed") then 2 else 3.
Definition row_ea (r : Row) : string := match row_a r with Some x => show_0x (fp_ea x) | None => "" end.
Definition row_leb (x y : Row) : bool :=
  (rank (row_kind x) <? rank (row_kind y)) || ((rank (row_kind x) =? rank (row_kind y)) && String.leb (row_ea x) (row_ea y)).
Definition sort_rows (l : list Row) : list Row := sort_by row_leb l.

Definition count_kind (k : string) (rows : list Row) : nat := length (filter (fun r => row_kind r = k) rows).

Record Diff := { df_rows : list Row; df_truncated : bool }.
Definition diff_rows (a b : list BlockFp) (threshold : f64) (max_rows : nat) : Diff :=
  let rows := sort_rows (rows_of a b (match_blocks a b threshold)) in
  {| df_rows := take max_rows rows; df_truncated := (max_rows <? length rows)%nat |}.

Definition diff_blocks (a b : list BlockFp) (threshold : f64) (max_rows : nat) : Value :=
  let d := diff_rows a b threshold max_rows in
  JObj [("blocks_a", jnat (length a)); ("blocks_b", jnat (length b));
        ("equal", jnat (count_kind "equal" (df_rows d))); ("modified", jnat (count_kind "modified" (df_rows d)));
        ("added", jnat (count_kind "added" (df_rows d))); ("removed", jnat (count_kind "removed" (df_rows d)));
        ("rows", JArr (block_row <$> df_rows d)); ("truncated", JBool (df_truncated d))].

(** ** Properties of the matching *)

(** The pairs match blocks of the two lists, none twice; the sets hold the matched ones. *)
Record proper (na nb : nat) (mt : matching) : Prop := {
  pp_a : NoDup (mt_pairs mt).*1;
  pp_b : NoDup (mt_pairs mt).*2;
  pp_used_a : mt_a mt = list_to_set (mt_pairs mt).*1;
  pp_used_b : mt_b mt = list_to_set (mt_pairs mt).*2;
  pp_range : Forall (fun p => (p.1 < na)%nat /\ (p.2 < nb)%nat) (mt_pairs mt);
}.

Lemma proper_add na nb ai bi mt :
  proper na nb mt -> ai ∉ mt_a mt -> bi ∉ mt_b mt -> (ai < na)%nat -> (bi < nb)%nat -> proper na nb (add_pair ai bi mt).
Proof.
  intros [H1 H2 H3 H4 H5] Ha Hb La Lb. rewrite H3, elem_of_list_to_set in Ha. rewrite H4, elem_of_list_to_set in Hb.
  constructor; simpl; rewrite ?fmap_app; simpl.
  - apply NoDup_app. split_and!; [exact H1 | set_solver | apply NoDup_singleton].
  - apply NoDup_app. split_and!; [exact H2 | set_solver | apply NoDup_singleton].
  - rewrite H3, list_to_set_app_L. set_solver.
  - rewrite H4, list_to_set_app_L. set_solver.
  - apply Forall_app. split; [exact H5 | by constructor].
Qed.

(** The shape index holds each block once, under its shape, free and in range. *)
Record shapes_ok (nb : nat) (m : gmap Z (list nat)) (used : gset nat) : Prop := {
  sh_range : forall k l bi, m !! k = Some l -> bi ∈ l -> (bi < nb)%nat /\ bi ∉ used;
  sh_nodup : forall k l, m !! k = Some l -> NoDup l;
  sh_disjoint : forall k k' l l' bi, m !! k = Some l -> m !! k' = Some l' -> bi ∈ l -> bi ∈ l' -> k = k';
}.

Lemma by_shape_ok b bi m :
  shapes_ok bi m ∅ -> shapes_ok (bi + length b) (by_shape bi b m) ∅.
Proof.
  revert bi m. induction b as [| blk b IH]; intros bi m [H1 H2 H3]; simpl; [by rewrite Nat.add_0_r |].
  replace (bi + S (length b))%nat with (S bi + length b)%nat by lia. apply IH.
  assert (forall k l x, m !! k = Some l -> x ∈ l -> (x < bi)%nat) as Hlt by (intros k l x Hk Hx; apply (H1 k l x Hk Hx)).
  assert (forall x, x ∈ default [] (m !! shape_hash blk) -> (x < bi)%nat) as Hd.
  { intros x Hx. destruct (m !! shape_hash blk) as [l |] eqn:E; [eauto | by apply elem_of_nil in Hx]. }
  constructor.
  - intros k l x [[<- <-] | [_ Hk]]%lookup_insert_Some Hx; [| split; [specialize (Hlt k l x Hk Hx); lia | set_solver]].
    split; [| set_solver]. apply elem_of_cons in Hx as [-> | Hx]; [lia | specialize (Hd x Hx); lia].
  - intros k l [[<- <-] | [_ Hk]]%lookup_insert_Some; [| eauto]. constructor; [intros Hx; specialize (Hd bi Hx); lia |].
    destruct (m !! shape_hash blk) eqn:E; [eauto | constructor].
  - intros k k' l l' x Hk Hk' Hx Hx'.
    apply lookup_insert_Some in Hk as [[<- <-] | [N Hk]]; apply lookup_insert_Some in Hk' as [[<- <-] | [N' Hk']]; [reflexivity | | | eauto].
    + apply elem_of_cons in Hx as [-> | Hx]; [specialize (Hlt k' l' _ Hk' Hx'); lia |].
      destruct (m !! shape_hash blk) eqn:E; [eauto | by apply elem_of_nil in Hx].
    + apply elem_of_cons in Hx' as [-> | Hx']; [specialize (Hlt k l _ Hk Hx); lia |].
      destruct (m !! shape_hash blk) eqn:E; [eauto | by apply elem_of_nil in Hx'].
Qed.

Lemma shapes_take nb m used k bi l :
  shapes_ok nb m used -> m !! k = Some (bi :: l) -> shapes_ok nb (<[k := l]> m) ({[bi]} ∪ used).
Proof.
  intros [H1 H2 H3] Hk. pose proof (H2 _ _ Hk) as ND. apply NoDup_cons in ND as [Hn ND].
  assert (forall k' l' x, <[k := l]> m !! k' = Some l' -> x ∈ l' -> x <> bi /\ exists l'', m !! k' = Some l'' /\ x ∈ l'') as Sub.
  { intros k' l' x [[<- <-] | [N Hk']]%lookup_insert_Some Hx.
    - split; [congruence |]. eexists. split; [exact Hk | by right].
    - split; [| eauto]. intros ->. destruct N. eapply H3; [exact Hk | exact Hk' | left | exact Hx]. }
  constructor.
  - intros k' l' x Hk' Hx. destruct (Sub _ _ _ Hk' Hx) as (N & l'' & Hl & Hx').
    destruct (H1 _ _ _ Hl Hx'). split; [assumption |]. set_solver.
  - intros k' l' [[<- <-] | [N Hk']]%lookup_insert_Some; eauto.
  - intros k1 k2 l1 l2 x Hk1 Hk2 Hx1 Hx2. destruct (Sub _ _ _ Hk1 Hx1) as (_ & l1' & E1 & Y1).
    destruct (Sub _ _ _ Hk2 Hx2) as (_ & l2' & E2 & Y2). eauto.
Qed.

Lemma match_exact_proper na nb ai a m mt :
  (ai + length a <= na)%nat -> proper na nb mt -> (forall i, i ∈ mt_a mt -> (i < ai)%nat) -> shapes_ok nb m (mt_b mt) ->
  proper na nb (match_exact ai a m mt).
Proof.
  revert ai m mt. induction a as [| blk a IH]; intros ai m mt L P F S; simpl; [exact P |]. simpl in L.
  assert (forall i, i ∈ mt_a mt -> (i < Datatypes.S ai)%nat) as F' by (intros i Hi; specialize (F i Hi); lia).
  destruct (m !! shape_hash blk) as [[| bi l] |] eqn:E; [apply IH; [lia | assumption ..] | | apply IH; [lia | assumption ..]].
  destruct (sh_range _ _ _ S _ _ bi E ltac:(left)) as [Hb Hu].
  apply IH; [lia | apply proper_add; try assumption; [intros Hi; specialize (F _ Hi); lia | lia] | | by apply shapes_take].
  simpl. intros i Hi. apply elem_of_union in Hi as [->%elem_of_singleton | Hi]; [lia | by apply F'].
Qed.

Lemma best_match_free blk th bi b used best r s :
  (forall x y, best = Some (x, y) -> x ∉ used /\ (x < bi)%nat) ->
  best_match blk th bi b used best = Some (r, s) -> r ∉ used /\ (r < bi + length b)%nat.
Proof.
  revert bi best. induction b as [| o b IH]; intros bi best H E; simpl in E.
  { destruct (H r s E). split; [assumption | simpl; lia]. }
  apply IH in E as [E1 E2]; [split; [exact E1 | simpl; lia] |]. clear IH E. intros x y Hxy.
  assert (forall p q, best = Some (p, q) -> p ∉ used /\ (p < S bi)%nat) as H' by (intros p q Hpq; destruct (H p q Hpq); split; [assumption | lia]).
  destruct (bool_decide_reflect (bi ∈ used)); [by apply (H' x y) |]. destruct (fltb _ _); [by apply (H' x y) |].
  destruct best as [[p q] |]; [destruct (fltb q _); [| by apply (H' x y)] |]; injection Hxy as <- _; (split; [assumption | lia]).
Qed.

Lemma match_similar_proper na b th ai a mt :
  (ai + length a <= na)%nat -> proper na (length b) mt -> proper na (length b) (match_similar th ai a b mt).
Proof.
  revert ai mt. induction a as [| blk a IH]; intros ai mt L P; simpl; [exact P |]. simpl in L.
  destruct (bool_decide_reflect (ai ∈ mt_a mt)) as [Hin | Hin]; [apply IH; [lia | exact P] |].
  destruct (best_match blk th 0 b (mt_b mt) None) as [[bi s] |] eqn:E; [| apply IH; [lia | exact P]].
  destruct (best_match_free blk th 0 b (mt_b mt) None bi s) as [Hf Hr]; [discriminate | exact E |].
  apply IH; [lia |]. apply proper_add; try assumption; lia.
Qed.

Lemma match_blocks_proper a b th : proper (length a) (length b) (match_blocks a b th).
Proof.
  apply match_similar_proper; [lia |]. apply match_exact_proper; [lia | | simpl; set_solver |].
  - constructor; simpl; try constructor; reflexivity.
  - apply (by_shape_ok b 0 ∅). constructor; intros k; intros; by rewrite lookup_empty in *.
Qed.

(** ** Every block is accounted for *)

Lemma unmatched_from used (l pre : list BlockFp) :
  unmatched used (length pre) l =
  omap (fun j => (pre ++ l) !! j) (filter (fun j => j ∉ used) (seq (length pre) (length l))).
Proof.
  revert pre. induction l as [| x l IH]; intros pre; [reflexivity |]. cbn [unmatched length seq]. rewrite filter_cons.
  specialize (IH (pre ++ [x])). rewrite length_app, Nat.add_1_r, <- app_assoc in IH. simpl in IH.
  case_bool_decide as H.
  - rewrite decide_False by tauto. exact IH.
  - rewrite decide_True by exact H. cbn [omap list_omap]. rewrite list_lookup_middle by reflexivity. f_equal. exact IH.
Qed.

Lemma omap_lookup_seq (l pre : list BlockFp) : omap (fun j => (pre ++ l) !! j) (seq (length pre) (length l)) = l.
Proof.
  revert pre. induction l as [| x l IH]; intros pre; [reflexivity |]. cbn [length seq omap list_omap].
  rewrite list_lookup_middle by reflexivity. f_equal. specialize (IH (pre ++ [x])).
  rewrite length_app, Nat.add_1_r, <- app_assoc in IH. exact IH.
Qed.

Lemma matched_unmatched (l : list BlockFp) (js : list nat) :
  NoDup js -> Forall (fun i => (i < length l)%nat) js ->
  omap (fun j => l !! j) js ++ unmatched (list_to_set js) 0 l ≡ₚ l.
Proof.
  intros ND R. pose proof (unmatched_from (list_to_set js) l []) as U. simpl in U. rewrite U, <- omap_app.
  assert (js ++ filter (fun j => j ∉@{gset nat} list_to_set js) (seq 0 (length l)) ≡ₚ seq 0 (length l)) as P.
  { apply NoDup_Permutation.
    - apply NoDup_app. split_and!; [exact ND | | apply NoDup_filter, NoDup_seq].
      intros i Hi [Hn _]%list_elem_of_filter. set_solver.
    - apply NoDup_seq.
    - intros i. rewrite elem_of_app, list_elem_of_filter, elem_of_list_to_set, elem_of_seq. rewrite Forall_forall in R.
      destruct (decide (i ∈ js)) as [Hi | Hi]; [specialize (R i Hi); split; [lia | tauto] | split; [tauto | intros; right; split; [exact Hi | lia]]]. }
  rewrite P. pose proof (omap_lookup_seq l []) as S. simpl in S. by rewrite S.
Qed.

Lemma length_omap_lookup (l : list BlockFp) js :
  Forall (fun i => (i < length l)%nat) js -> length (omap (fun j => l !! j) js) = length js.
Proof.
  induction 1 as [| j js Hj _ IH]; [reflexivity |]. cbn [omap list_omap].
  destruct (lookup_lt_is_Some_2 l j Hj) as [x ->]. simpl. f_equal. exact IH.
Qed.

Lemma sort_rows_perm l : sort_rows l ≡ₚ l.
Proof. apply sort_by_perm. Qed.

(** Which sides a row of each kind has. *)
Definition row_shaped (r : Row) : Prop :=
  match row_a r, row_b r with
  | Some _, Some _ => row_kind r = "equal" \/ row_kind r = "modified"
  | Some _, None => row_kind r = "removed"
  | None, Some _ => row_kind r = "added"
  | None, None => False
  end.

Lemma pair_rows_sides a b ps :
  Forall (fun p => (p.1 < length a)%nat /\ (p.2 < length b)%nat) ps ->
  omap row_a (omap (pair_row a b) ps) = omap (fun j => a !! j) ps.*1 /\
  omap row_b (omap (pair_row a b) ps) = omap (fun j => b !! j) ps.*2 /\
  Forall row_shaped (omap (pair_row a b) ps) /\ length (omap (pair_row a b) ps) = length ps.
Proof.
  induction 1 as [| [i j] ps [Hi Hj] _ (IH1 & IH2 & IH3 & IH4)]; [done |].
  destruct (lookup_lt_is_Some_2 a i Hi) as [x Hx]. destruct (lookup_lt_is_Some_2 b j Hj) as [y Hy].
  assert (pair_row a b (i, j) = Some {| row_kind := if fleb f0_999 (similarity x y) then "equal" else "modified";
    row_a := Some x; row_b := Some y; row_sim := Some (similarity x y) |}) as E by (unfold pair_row; simpl; by rewrite Hx, Hy).
  cbn [fmap list_fmap fst snd omap list_omap]. rewrite E, Hx, Hy. cbn [omap list_omap row_a row_b].
  split_and!; [f_equal; exact IH1 | f_equal; exact IH2 | | simpl; f_equal; exact IH4].
  constructor; [| exact IH3]. unfold row_shaped. simpl. destruct (fleb _ _); auto.
Qed.

Lemma rows_of_sides a b mt :
  proper (length a) (length b) mt ->
  omap row_a (rows_of a b mt) ≡ₚ a /\ omap row_b (rows_of a b mt) ≡ₚ b /\ Forall row_shaped (rows_of a b mt) /\
  (length (rows_of a b mt) <= length a + length b)%nat.
Proof.
  intros [H1 H2 H3 H4 H5]. destruct (pair_rows_sides a b (mt_pairs mt) H5) as (Ea & Eb & Sh & Len).
  assert (Forall (fun i => (i < length a)%nat) (mt_pairs mt).*1) as Ra by (apply Forall_fmap; eapply Forall_impl; [exact H5 | simpl; tauto]).
  assert (Forall (fun i => (i < length b)%nat) (mt_pairs mt).*2) as Rb by (apply Forall_fmap; eapply Forall_impl; [exact H5 | simpl; tauto]).
  pose proof (matched_unmatched a _ H1 Ra) as Pa. pose proof (matched_unmatched b _ H2 Rb) as Pb. rewrite <- H3 in Pa. rewrite <- H4 in Pb.
  assert (forall l : list BlockFp, omap row_a ((fun x => {| row_kind := "added"; row_a := None; row_b := Some x; row_sim := None |}) <$> l) = []) as N1
    by (induction l; [reflexivity | assumption]).
  assert (forall l : list BlockFp, omap row_b ((fun x => {| row_kind := "removed"; row_a := Some x; row_b := None; row_sim := None |}) <$> l) = []) as N2
    by (induction l; [reflexivity | assumption]).
  assert (forall l : list BlockFp, omap row_a ((fun x => {| row_kind := "removed"; row_a := Some x; row_b := None; row_sim := None |}) <$> l) = l) as K1
    by (induction l as [| ?? IHl]; [reflexivity | simpl; f_equal; exact IHl]).
  assert (forall l : list BlockFp, omap row_b ((fun x => {| row_kind := "added"; row_a := None; row_b := Some x; row_sim := None |}) <$> l) = l) as K2
    by (induction l as [| ?? IHl]; [reflexivity | simpl; f_equal; exact IHl]).
  unfold rows_of. split_and!.
  - by rewrite !omap_app, Ea, K1, N1, app_nil_r.
  - by rewrite !omap_app, Eb, K2, N2.
  - rewrite !Forall_app. split_and!; [exact Sh | apply Forall_fmap, Forall_true; reflexivity | apply Forall_fmap, Forall_true; reflexivity].
  - apply Permutation_length in Pa, Pb. rewrite length_app in Pa, Pb. rewrite !length_app, !length_fmap, Len.
    rewrite <- (length_fmap fst (mt_pairs mt)).
    assert (length (omap (fun j => a !! j) (mt_pairs mt).*1) = length (mt_pairs mt).*1) as La.
    { by apply length_omap_lookup. }
    lia.
Qed.

Lemma count_sides rows :
  Forall row_shaped rows ->
  (count_kind "equal" rows + count_kind "modified" rows + count_kind "removed" rows = length (omap row_a rows))%nat /\
  (count_kind "equal" rows + count_kind "modified" rows + count_kind "added" rows = length (omap row_b rows))%nat.
Proof.
  unfold count_kind. induction 1 as [| r rows H _ [IH1 IH2]]; [done |]. rewrite !filter_cons. cbn [omap list_omap].
  unfold omap in IH1, IH2. unfold row_shaped in H.
  destruct (row_a r), (row_b r); [destruct H as [H | H] | | | contradiction]; rewrite !H;
    repeat (first [rewrite decide_True by reflexivity | rewrite decide_False by discriminate]);
    cbn [length]; unfold omap; (split; [rewrite <- IH1; lia | rewrite <- IH2; lia]).
Qed.

(** Every block is accounted for exactly once: when the row budget allows
    it, the first sides of the rows of a diff are the blocks of the first
    list and the second sides those of the second list, each as often as it
    occurs, so the counts of equal, modified and removed rows add up to the
    first list and those of equal, modified and added rows to the second. *)
Theorem diff_accounts_blocks a b threshold max_rows :
  (length a + length b <= max_rows)%nat ->
  let d := diff_rows a b threshold max_rows in
  df_truncated d = false /\ omap row_a (df_rows d) ≡ₚ a /\ omap row_b (df_rows d) ≡ₚ b /\
  (count_kind "equal" (df_rows d) + count_kind "modified" (df_rows d) + count_kind "removed" (df_rows d) = length a)%nat /\
  (count_kind "equal" (df_rows d) + count_kind "modified" (df_rows d) + count_kind "added" (df_rows d) = length b)%nat.
Proof.
  intros L d. destruct (rows_of_sides a b _ (match_blocks_proper a b threshold)) as (Pa & Pb & Sh & Len).
  unfold d, diff_rows. set (rows := rows_of _ _ _) in *. simpl.
  assert (length (sort_rows rows) = length rows) as El by (by rewrite sort_rows_perm).
  rewrite take_ge by lia. assert (Forall row_shaped (sort_rows rows)) as Sh' by (by rewrite sort_rows_perm).
  destruct (count_sides _ Sh') as [C1 C2].
  assert (omap row_a (sort_rows rows) ≡ₚ a) as Pa' by (by rewrite sort_rows_perm).
  assert (omap row_b (sort_rows rows) ≡ₚ b) as Pb' by (by rewrite sort_rows_perm).
  split_and!; [apply Nat.ltb_ge; lia | exact Pa' | exact Pb' | by rewrite C1, Pa' | by rewrite C2, Pb'].
Qed.

Definition sample_fp (ea mnem : Z) : BlockFp :=
  {| fp_ea := ea; mnemonic_hash := mnem; const_hash := 9; const_count := 1; out_edges := 2; in_edges := 1; insn_count := 4 |}.

Lemma diff_accounts_blocks_witness :
  (3 <= 64)%nat /\
  omap row_b (df_rows (diff_rows [sample_fp 256 7] [sample_fp 256 7; sample_fp 384 11] f0_6 64)) ≡ₚ [sample_fp 256 7; sample_fp 384 11].
Proof. split; [lia |]. apply (diff_accounts_blocks [sample_fp 256 7] [sample_fp 256 7; sample_fp 384 11] f0_6 64). simpl. lia. Defined.

(** ** A function does not differ from itself *)

Definition same_shape (x y : BlockFp) : Prop :=
  mnemonic_hash x = mnemonic_hash y /\ const_hash x = const_hash y /\ out_edges x = out_edges y /\ in_edges x = in_edges y.

Lemma similarity_same x y : same_shape x y -> fleb f0_999 (similarity x y) = true.
Proof.
  intros (E1 & E2 & E3 & E4). unfold similarity. rewrite E1, E2, E3, E4, !Z.eqb_refl. vm_compute. reflexivity.
Qed.

Definition shape_count (k : Z) (l : list BlockFp) : nat := length (filter (fun x => shape_hash x = k) l).

(** Entries of the index have the shape they are filed under. *)
Definition filed (b : list BlockFp) (m : gmap Z (list nat)) : Prop :=
  forall k l bi, m !! k = Some l -> bi ∈ l -> shape_hash <$> b !! bi = Some k.

Lemma by_shape_filed (pre b : list BlockFp) m :
  filed (pre ++ b) m ->
  filed (pre ++ b) (by_shape (length pre) b m) /\
  forall k, (length (default [] (by_shape (length pre) b m !! k)) = length (default [] (m !! k)) + shape_count k b)%nat.
Proof.
  revert pre m. induction b as [| x b IH]; intros pre m F; simpl; [split; [exact F | intros k; unfold shape_count; simpl; lia] |].
  set (m' := <[shape_hash x := _]> m).
  assert (filed ((pre ++ [x]) ++ b) m') as F'.
  { rewrite <- app_assoc. simpl. intros k l bi [[<- <-] | [_ Hk]]%lookup_insert_Some Hb; [| eauto].
    apply elem_of_cons in Hb as [-> | Hb]; [by rewrite list_lookup_middle |].
    destruct (m !! shape_hash x) eqn:E; [eauto | by apply elem_of_nil in Hb]. }
  specialize (IH (pre ++ [x]) m' F'). rewrite length_app, Nat.add_1_r, <- app_assoc in IH. simpl in IH.
  destruct IH as [G C]. split; [exact G |]. intros k. rewrite C. unfold shape_count. rewrite filter_cons. unfold m'.
  destruct (decide (shape_hash x = k)) as [<- | N]; [rewrite lookup_insert_eq | rewrite lookup_insert_ne by exact N]; simpl; lia.
Qed.

(** Each remaining block finds a partner of its shape. *)
Lemma match_exact_all b ai a m mt :
  filed b m -> (forall k, (shape_count k a <= length (default [] (m !! k)))%nat) ->
  let mt' := match_exact ai a m mt in
  exists ps, mt_pairs mt' = mt_pairs mt ++ ps /\ ps.*1 = seq ai (length a) /\
    Forall2 (fun x p => shape_hash <$> b !! p.2 = Some (shape_hash x)) a ps.
Proof.
  revert ai m mt. induction a as [| x a IH]; intros ai m mt F C; cbn [match_exact].
  { exists []. rewrite app_nil_r. split_and!; [reflexivity | reflexivity | constructor]. }
  pose proof (C (shape_hash x)) as Cx. unfold shape_count in Cx. rewrite filter_cons, decide_True in Cx by reflexivity.
  destruct (m !! shape_hash x) as [[| bi l] |] eqn:E; [simpl in Cx; lia | | simpl in Cx; lia].
  destruct (IH (S ai) (<[shape_hash x := l]> m) (add_pair ai bi mt)) as (ps & E1 & E2 & E3).
  - intros k l' y [[<- <-] | [_ Hk]]%lookup_insert_Some Hy; [| eauto]. apply (F _ _ y E). by right.
  - intros k. specialize (C k). unfold shape_count in *. rewrite filter_cons in C.
    destruct (decide (shape_hash x = k)) as [<- | N]; [rewrite lookup_insert_eq; rewrite E in C; simpl in *; lia |].
    rewrite lookup_insert_ne by exact N. exact C.
  - exists ((ai, bi) :: ps). simpl in E1. rewrite E1, <- app_assoc. split_and!; [reflexivity | simpl; f_equal; exact E2 |].
    constructor; [| exact E3]. simpl. apply (F _ _ bi E). left.
Qed.

Lemma match_similar_none th ai a b mt :
  (forall i, (ai <= i < ai + length a)%nat -> i ∈ mt_a mt) -> match_similar th ai a b mt = mt.
Proof.
  revert ai. induction a as [| x a IH]; intros ai H; simpl; [reflexivity |].
  rewrite bool_decide_true by (apply H; simpl; lia). apply IH. intros i Hi. apply H. simpl. lia.
Qed.

Lemma unmatched_none used i l : (forall j, (i <= j < i + length l)%nat -> j ∈ used) -> unmatched used i l = [].
Proof.
  revert i. induction l as [| x l IH]; intros i H; simpl; [reflexivity |].
  rewrite bool_decide_true by (apply H; simpl; lia). apply IH. intros j Hj. apply H. simpl. lia.
Qed.

Lemma NoDup_range_all (l : list nat) n :
  NoDup l -> Forall (fun i => (i < n)%nat) l -> length l = n -> forall j, (j < n)%nat -> j ∈ l.
Proof.
  intros ND R L j Hj. assert (l ⊆+ seq 0 n) as S.
  { apply NoDup_submseteq; [exact ND |]. intros i Hi. rewrite Forall_forall in R. specialize (R i Hi). apply elem_of_seq. lia. }
  apply submseteq_length_Permutation in S; [| rewrite length_seq; lia]. rewrite S. apply elem_of_seq. lia.
Qed.

(** Compared with itself, every block is in a row of an equal pair. *)
Lemma self_rows a threshold :
  (forall x y, x ∈ a -> y ∈ a -> shape_hash x = shape_hash y -> same_shape x y) ->
  let rows := rows_of a a (match_blocks a a threshold) in
  Forall (fun r => row_kind r = "equal") rows /\ length rows = length a.
Proof.
  intros NC. set (m := by_shape 0 a ∅). set (mt0 := {| mt_pairs := []; mt_a := ∅; mt_b := ∅ |}).
  destruct (by_shape_filed [] a ∅) as [F C]; [intros k l bi Hk; by rewrite lookup_empty in Hk |]. simpl in F, C.
  destruct (match_exact_all a 0 a m mt0 F) as (ps & E1 & E2 & E3).
  { intros k. unfold m. rewrite C, lookup_empty. simpl. lia. }
  simpl in E1.
  assert (proper (length a) (length a) (match_exact 0 a m mt0)) as P.
  { apply match_exact_proper; [lia | | simpl; set_solver |].
    - constructor; simpl; try constructor; reflexivity.
    - apply (by_shape_ok a 0 ∅). constructor; intros k; intros; by rewrite lookup_empty in *. }
  destruct P as [P1 P2 P3 P4 P5]. rewrite E1 in *.
  assert (forall j, (j < length a)%nat -> j ∈ mt_a (match_exact 0 a m mt0)) as Ua.
  { intros j Hj. rewrite P3, elem_of_list_to_set, E2. apply elem_of_seq. lia. }
  assert (forall j, (j < length a)%nat -> j ∈ mt_b (match_exact 0 a m mt0)) as Ub.
  { intros j Hj. rewrite P4, elem_of_list_to_set. apply (NoDup_range_all _ (length a)); [exact P2 | | | exact Hj].
    - apply Forall_fmap. eapply Forall_impl; [exact P5 | simpl; tauto].
    - rewrite length_fmap. symmetry. exact (Forall2_length _ _ _ E3). }
  assert (match_blocks a a threshold = match_exact 0 a m mt0) as Em.
  { unfold match_blocks. apply match_similar_none. intros i Hi. apply Ua. lia. }
  assert (rows_of a a (match_blocks a a threshold) = omap (pair_row a a) ps) as Er.
  { unfold rows_of. rewrite Em, E1, !unmatched_none by (intros j Hj; first [apply Ua | apply Ub]; lia). by rewrite !app_nil_r. }
  assert (Forall (fun r => row_kind r = "equal") (omap (pair_row a a) ps) /\ length (omap (pair_row a a) ps) = length a) as [Q1 Q2].
  { destruct (pair_rows_sides a a ps P5) as (_ & _ & _ & Len). split; [| rewrite Len; symmetry; exact (Forall2_length _ _ _ E3)].
    apply Forall_forall. intros r (p & Hp & Hr)%list_elem_of_omap. apply list_elem_of_lookup in Hp as [i Hi].
    destruct (Forall2_lookup_r _ _ _ _ _ E3 Hi) as (x & Hx & Hs).
    assert (p.1 = i) as Ei.
    { assert (ps.*1 !! i = Some p.1) as H1 by (by rewrite list_lookup_fmap, Hi). rewrite E2 in H1. apply lookup_seq in H1 as [-> _]. lia. }
    unfold pair_row in Hr. rewrite Ei, Hx in Hr. simpl in Hr. destruct (a !! p.2) as [y |] eqn:Hy; [| discriminate].
    simpl in Hs, Hr. injection Hr as <-. simpl. injection Hs as Hs.
    rewrite similarity_same; [reflexivity |]. apply NC; [by eapply list_elem_of_lookup_2 | by eapply list_elem_of_lookup_2 | congruence]. }
  intros rows. unfold rows. rewrite Er. by split.
Qed.

(** A list of blocks compared with itself is reported unchanged: when blocks
    of one shape hash have the same mnemonics, constants and edge counts, every
    row is an equal pair and none is modified, added or removed, whatever the
    threshold. *)
Theorem diff_self_clean a threshold max_rows :
  (forall x y, x ∈ a -> y ∈ a -> shape_hash x = shape_hash y -> same_shape x y) ->
  let d := diff_rows a a threshold max_rows in
  Forall (fun r => row_kind r = "equal") (df_rows d) /\ length (df_rows d) = Nat.min max_rows (length a).
Proof.
  intros NC d. destruct (self_rows a threshold NC) as [Q1 Q2]. unfold d, diff_rows. simpl. split.
  - apply Forall_take. by rewrite sort_rows_perm.
  - rewrite length_take. by rewrite sort_rows_perm, Q2.
Qed.

Lemma diff_self_clean_witness :
  Forall (fun r => row_kind r = "equal") (df_rows (diff_rows [sample_fp 256 7; sample_fp 288 8; sample_fp 320 7] [sample_fp 256 7; sample_fp 288 8; sample_fp 320 7] f0_6 64)).
Proof.
  refine (proj1 (diff_self_clean [sample_fp 256 7; sample_fp 288 8; sample_fp 320 7] f0_6 64 _)).
  intros x y Hx Hy E. rewrite !elem_of_cons in Hx, Hy.
  destruct Hx as [-> | [-> | [-> | Hx]]]; [| | | by apply elem_of_nil in Hx];
    (destruct Hy as [-> | [-> | [-> | Hy]]]; [| | | by apply elem_of_nil in Hy]);
    first [by repeat split | vm_compute in E; discriminate].
Defined.
