(* ===== verification/Rules.v ===== *)
(** * Rules: rule packs

    Models [rmcp-worker/src/rules.rs]: the validation and compilation of a
    pack, the loading of a directory of packs, and the hash of a rule set.
    The JSON parser and the directory are parameters; slicing a string inside
    a character panics. *)

From stdpp Require Import base list gmap strings sorting.
From Stdlib Require Import ZArith Lia Ascii.
From S2P Require Import Prelude Text Json Errors Float BlockDiff.

Local Open Scope Z_scope.
Local Open Scope rmcp_scope.

Definition PACK_FORMAT : Z := 1.
Definition MAX_RULES_PER_PACK : Z := 10000.
Definition MAX_PATTERN_BYTES : Z := 4096.
Definition MAX_LITERAL_LEN : Z := 1024.
Definition MAX_CANDIDATES_PER_RULE : Z := 256.

Record ConstantRule := { cr_id : string; cr_bytes : list Z; cr_label : string; cr_table_size : Z; cr_rarity : f64 }.
Record ApiHashRule := { ar_id : string; ar_algo : string; ar_seed : Z; ar_rotate : Z; ar_candidates : list string }.
Record StringRule := { sr_id : string; sr_literal : string; sr_encoding : string }.

Record RulePack := {
  pk_name : string; pk_version : string; pk_source : string; pk_sha256 : string; pk_enabled : bool;
  pk_constants : list ConstantRule; pk_api_hashes : list ApiHashRule; pk_strings : list StringRule }.
Definition RuleSet : Type := list RulePack.

Abbreviation fmt ss := (join "" ss).
Definition show_bool (b : bool) : string := if b then "true" else "false".
Definition show_nat (n : nat) : string := show_dec (Z.of_nat n).

(** [{h:016x}] *)
Definition show_hex16 (h : Z) : string :=
  let s := show_hex h in repeat_str "0" (16 - String.length s) +:+ s.

(** ** The hash of a set *)

Definition sort_strings (l : list string) : list string := sort_by String.leb l.

Definition pack_print (p : RulePack) : string :=
  fmt [pk_sha256 p; "|"; show_nat (length (pk_constants p)); "|"; show_nat (length (pk_api_hashes p)); "|";
       show_nat (length (pk_strings p)); "|"; show_bool (pk_enabled p)].

Definition set_hash (packs : RuleSet) : string :=
  show_hex16 (foldl fnv_bytes FNV_OFFSET (sort_strings (pack_print <$> packs))).

(** ** Validation *)

Definition is_alnum (c : ascii) : bool :=
  is_ascii_digit c || ((65 <=? ord c) && (ord c <=? 90)) || ((97 <=? ord c) && (ord c <=? 122)).
Definition id_char (c : ascii) : bool :=
  is_alnum c || bool_decide (c = "_"%char) || bool_decide (c = "."%char) || bool_decide (c = ":"%char)
  || bool_decide (c = "-"%char).
Definition valid_rule_id (id : string) : bool :=
  negb (bool_decide (id = "")) && (String.length id <=? 128)%nat && all_chars id_char id.

(** [s.chars().filter(|c| !c.is_whitespace())], on the bytes of the text. *)
Fixpoint remove_ws_fuel (fuel : nat) (s : string) : string :=
  match fuel with
  | O => ""
  | S fuel' =>
      match s with
      | EmptyString => ""
      | String c s' =>
          match strip_any ws_strings s with
          | Some rest => remove_ws_fuel fuel' rest
          | None => String c (remove_ws_fuel fuel' s')
          end
      end
  end.
Definition remove_ws (s : string) : string := remove_ws_fuel (String.length s) s.

(** The pairs of [&t[i..i + 2]] for even [i]: a cut inside a character panics. *)
Fixpoint hex_pairs (t : string) (i : nat) (s : string) : outcome (option (list Z)) :=
  match s with
  | String a (String b rest) =>
      if is_char_boundary t i && is_char_boundary t (i + 2)
      then match from_str_radix 16 255 (String a (String b "")) with
           | inr x => r <~ hex_pairs t (i + 2) rest; Done (match r with Some l => Some (x :: l) | None => None end)
           | inl _ => Done None
           end
      else Panic
  | _ => Done (Some [])
  end.
Definition decode_hex_str (s : string) : outcome (option (list Z)) :=
  let t := remove_ws s in
  if Nat.even (String.length t) then hex_pairs t 0 t else Done None.

(** A control character other than a tab: [U+0000..1F], [U+007F..9F]. *)
Fixpoint has_control (s : string) : bool :=
  match s with
  | EmptyString => false
  | String c s' =>
      ((ord c <? 32) && negb (ord c =? 9)) || (ord c =? 127)
      || ((ord c =? 0xc2) && match s' with String d _ => (0x80 <=? ord d) && (ord d <=? 0x9f) | EmptyString => false end)
      || has_control s'
  end.

Definition as_f64 (v : Value) : option f64 :=
  match v with JNum n => Some (f_of_Z n) | JFloat bits => Some (f_of_bits bits) | _ => None end.

Definition f0_1 : f64 := lit 7205759403792794 (-56).
Definition f0_9 : f64 := lit 8106479329266893 (-53).

Inductive Compiled := CConstant (r : ConstantRule) | CString (r : StringRule) | CApiHash (r : ApiHashRule).

Definition slen (s : string) : Z := Z.of_nat (String.length s).
Definition in_bounds (n max : Z) : bool := (1 <=? n) && (n <=? max).

Definition rule_id (rule : Value) : string := default "" (as_str (rule @@ "id")).

(** A rule by its kind, or the reason it is refused. *)
Definition compile_rule (algos : list string) (rule : Value) : outcome (string + Compiled) :=
  let id := rule_id rule in
  let kind := default "" (as_str (rule @@ "kind")) in
  if bool_decide (kind = "constant") then
    decoded <~ decode_hex_str (default "" (as_str (rule @@ "hex")));
    match decoded with
    | None => Done (inl (fmt ["rule '"; id; "': bad 'hex'"]))
    | Some bytes =>
        if in_bounds (Z.of_nat (length bytes)) MAX_PATTERN_BYTES
        then Done (inr (CConstant {| cr_id := id; cr_label := default id (as_str (rule @@ "label")); cr_bytes := bytes;
               cr_table_size := default 0 (as_u64 (rule @@ "table_size"));
               cr_rarity := fclamp f0_1 f1 (default f0_9 (as_f64 (rule @@ "rarity"))) |}))
        else Done (inl (fmt ["rule '"; id; "': pattern length out of bounds (1.."; show_dec MAX_PATTERN_BYTES; ")"]))
    end
  else if bool_decide (kind = "string") then
    match as_str (rule @@ "literal") with
    | None => Done (inl (fmt ["rule '"; id; "': string rules require 'literal'"]))
    | Some lit =>
        if negb (in_bounds (slen lit) MAX_LITERAL_LEN)
        then Done (inl (fmt ["rule '"; id; "': literal length out of bounds (1.."; show_dec MAX_LITERAL_LEN; ")"]))
        else if has_control lit then Done (inl (fmt ["rule '"; id; "': control characters in literal"]))
        else Done (inr (CString {| sr_id := id; sr_literal := lit; sr_encoding := default "ascii" (as_str (rule @@ "encoding")) |}))
    end
  else if bool_decide (kind = "api_hash") then
    let algo := default "" (as_str (rule @@ "algo")) in
    if bool_decide (algo ∈ algos) then
      let candidates := omap as_str (default [] (as_array (rule @@ "candidates"))) in
      if in_bounds (Z.of_nat (length candidates)) MAX_CANDIDATES_PER_RULE
      then Done (inr (CApiHash {| ar_id := id; ar_algo := algo; ar_seed := default 0 (as_u64 (rule @@ "seed")) mod u32_modulus;
             ar_rotate := Z.max 1 (Z.min 31 (default 13 (as_u64 (rule @@ "rotate")))); ar_candidates := candidates |}))
      else Done (inl (fmt ["rule '"; id; "': candidates count out of bounds (1.."; show_dec MAX_CANDIDATES_PER_RULE; ")"]))
    else Done (inl (fmt ["rule '"; id; "': unknown algo '"; algo; "' (registered: "; join ", " algos; ")"]))
  else Done (inl (fmt ["rule '"; id; "': unknown kind '"; kind; "' (constant|string|api_hash)"])).

Definition push_compiled (c : Compiled) (p : RulePack) : RulePack :=
  {| pk_name := pk_name p; pk_version := pk_version p; pk_source := pk_source p; pk_sha256 := pk_sha256 p;
     pk_enabled := pk_enabled p;
     pk_constants := pk_constants p ++ match c with CConstant r => [r] | _ => [] end;
     pk_api_hashes := pk_api_hashes p ++ match c with CApiHash r => [r] | _ => [] end;
     pk_strings := pk_strings p ++ match c with CString r => [r] | _ => [] end |}.

Definition pack_error (file : string) (line : nat) (reason : string) : Error :=
  Worker (fmt ["rule pack '"; file; "' line "; show_nat line; ": "; reason]).

(** The loop over the rules, with the ids seen so far. *)
Fixpoint compile_rules (file : string) (algos : list string) (line : nat) (rules : list Value) (seen : gset string)
    (pack : RulePack) : outcome (Result RulePack) :=
  match rules with
  | [] => Done (Ok pack)
  | rule :: rest =>
      let id := rule_id rule in
      if negb (valid_rule_id id) then Done (Err (pack_error file line (fmt ["bad rule id '"; id; "'"])))
      else if bool_decide (id ∈ seen) then Done (Err (pack_error file line (fmt ["duplicate rule id '"; id; "'"])))
      else
        c <~ compile_rule algos rule;
        match c with
        | inl reason => Done (Err (pack_error file line reason))
        | inr c => compile_rules file algos (S line) rest ({[id]} ∪ seen) (push_compiled c pack)
        end
  end.

Definition parse_rules_value (file : string) (v : Value) (algos : list string) : outcome (Result RulePack) :=
  if negb (bool_decide (as_u64 (v @@ "format") = Some PACK_FORMAT))
  then Done (Err (pack_error file 0 (fmt ["'format' must be "; show_dec PACK_FORMAT])))
  else
    match as_str (v @@ "name") with
    | Some name =>
        if bool_decide (trim name = "") then Done (Err (Worker (fmt ["rule pack '"; file; "': missing 'name'"])))
        else
          match as_array (v @@ "rules") with
          | None => Done (Err (Worker (fmt ["rule pack '"; file; "': missing 'rules' array"])))
          | Some rules =>
              if MAX_RULES_PER_PACK <? Z.of_nat (length rules)
              then Done (Err (pack_error file 0 (fmt ["too many rules (max "; show_dec MAX_RULES_PER_PACK; ")"])))
              else compile_rules file algos 1 rules ∅
                     {| pk_name := name; pk_version := default "0" (as_str (v @@ "version"));
                        pk_source := default "" (as_str (v @@ "source")); pk_sha256 := "";
                        pk_enabled := default true (as_bool (v @@ "enabled"));
                        pk_constants := []; pk_api_hashes := []; pk_strings := [] |}
          end
    | None => Done (Err (Worker (fmt ["rule pack '"; file; "': missing 'name'"])))
    end.

(** ** Loading *)

Definition set_provenance (name version source sha : string) (p : RulePack) : RulePack :=
  {| pk_name := name; pk_version := version; pk_source := source; pk_sha256 := sha; pk_enabled := pk_enabled p;
     pk_constants := pk_constants p; pk_api_hashes := pk_api_hashes p; pk_strings := pk_strings p |}.

(** A directory entry: its name, and its bytes or the error of reading it. *)
Definition DirEntry : Type := string * (string + string).

(** [path.extension() == Some("json")] *)
Definition has_json_extension (name : string) : bool :=
  match strip_suffix ".json" name with Some stem => negb (bool_decide (stem = "")) | None => false end.

(** Orders of the entries and of the packs. *)
Definition entry_leb (x y : DirEntry) : bool := String.leb x.1 y.1.
Definition pack_leb (x y : RulePack) : bool := String.leb (pk_name x) (pk_name y).

Section Loading.
Context (parse_json : string -> string + Value).

Fixpoint load_entries (algos : list string) (es : list DirEntry) (acc : RuleSet) : outcome (Result RuleSet) :=
  match es with
  | [] => Done (Ok acc)
  | (fname, inl e) :: _ => Done (Err (Worker (fmt ["rule pack '"; fname; "': read failed: "; e])))
  | (fname, inr raw) :: rest =>
      match parse_json raw with
      | inl e => Done (Err (Worker (fmt ["rule pack '"; fname; "': bad JSON: "; e])))
      | inr v =>
          r <~ parse_rules_value fname v algos;
          match r with
          | inl e => Done (Err e)
          | inr p =>
              load_entries algos rest
                (acc ++ [set_provenance (pk_name p) (pk_version p) (pk_source p) (show_hex16 (fnv1a64 raw)) p])
          end
      end
  end.

(** [load_dir]: [None] is a directory that cannot be read. *)
Definition load_dir (dir : option (list DirEntry)) (algos : list string) : outcome (Result RuleSet) :=
  match dir with
  | None => Done (Ok [])
  | Some entries =>
      r <~ load_entries algos (sort_by entry_leb (filter (fun e => has_json_extension e.1 = true) entries)) [];
      Done (match r with inr set => Ok (sort_by pack_leb set) | inl e => Err e end)
  end.
End Loading.

(** ** What an accepted pack holds *)

Definition compiled_id (c : Compiled) : string :=
  match c with CConstant r => cr_id r | CString r => sr_id r | CApiHash r => ar_id r end.

Definition compiled_ok (algos : list string) (c : Compiled) : Prop :=
  match c with
  | CConstant r => 1 <= Z.of_nat (length (cr_bytes r)) <= MAX_PATTERN_BYTES /\ Forall (fun b => 0 <= b <= 255) (cr_bytes r)
  | CString r => 1 <= slen (sr_literal r) <= MAX_LITERAL_LEN /\ has_control (sr_literal r) = false
  | CApiHash r => ar_algo r ∈ algos /\ 1 <= Z.of_nat (length (ar_candidates r)) <= MAX_CANDIDATES_PER_RULE /\
                  is_u32 (ar_seed r) /\ 1 <= ar_rotate r <= 31
  end.

Lemma in_bounds_spec n max : in_bounds n max = true <-> 1 <= n <= max.
Proof. unfold in_bounds. rewrite andb_true_iff, Z.leb_le, Z.leb_le. reflexivity. Qed.

Lemma hex_pairs_range t i s l : hex_pairs t i s = Done (Some l) -> Forall (fun b => 0 <= b <= 255) l.
Proof.
  revert i l. induction s as [s IH] using (induction_ltof1 _ String.length). intros i l E.
  destruct s as [| a [| b s]]; cbn [hex_pairs] in E; [injection E as <-; constructor | injection E as <-; constructor |].
  destruct (_ && _); [| discriminate]. destruct (from_str_radix _ _ _) as [e | x] eqn:F; [discriminate |].
  destruct (hex_pairs t (i + 2) s) as [[r |] | |] eqn:H; simpl in E; try discriminate. injection E as <-.
  constructor; [by eapply from_str_radix_range in F; [| lia | lia] |]. eapply IH; [| exact H]. unfold ltof. simpl. lia.
Qed.

Lemma compile_rule_ok algos rule c :
  compile_rule algos rule = Done (inr c) -> compiled_id c = rule_id rule /\ compiled_ok algos c.
Proof.
  unfold compile_rule. intros E. destruct (bool_decide (_ = "constant")).
  { destruct (decode_hex_str _) as [[bytes |] | |] eqn:D; simpl in E; try discriminate.
    destruct (in_bounds _ _) eqn:B; [| discriminate]. injection E as <-. split; [reflexivity |].
    apply in_bounds_spec in B. split; [exact B |]. unfold decode_hex_str in D. destruct (Nat.even _); [| discriminate].
    exact (hex_pairs_range _ _ _ _ D). }
  destruct (bool_decide (_ = "string")).
  { destruct (as_str _) as [lit |]; [| discriminate]. destruct (in_bounds _ _) eqn:B; simpl in E; [| discriminate].
    destruct (has_control lit) eqn:H; [discriminate |]. injection E as <-. split; [reflexivity |].
    apply in_bounds_spec in B. split; [exact B | exact H]. }
  destruct (bool_decide (_ = "api_hash")); [| discriminate]. set (algo := default "" _) in *.
  destruct (bool_decide_reflect (algo ∈ algos)) as [Ha |]; [| discriminate].
  destruct (in_bounds _ _) eqn:B; [| discriminate]. injection E as <-. split; [reflexivity |].
  apply in_bounds_spec in B. split; [exact Ha |]. split; [exact B |].
  split; [apply Z.mod_pos_bound; reflexivity | cbn [ar_rotate]; lia].
Qed.

Definition push_all (cs : list Compiled) (p : RulePack) : RulePack := foldl (fun p c => push_compiled c p) p cs.

Lemma push_all_fields cs p :
  pk_constants (push_all cs p) = pk_constants p ++ omap (fun c => match c with CConstant r => Some r | _ => None end) cs /\
  pk_api_hashes (push_all cs p) = pk_api_hashes p ++ omap (fun c => match c with CApiHash r => Some r | _ => None end) cs /\
  pk_strings (push_all cs p) = pk_strings p ++ omap (fun c => match c with CString r => Some r | _ => None end) cs.
Proof.
  revert p. induction cs as [| c cs IH]; intros p; simpl; [by rewrite !app_nil_r |].
  destruct (IH (push_compiled c p)) as (-> & -> & ->). simpl. rewrite <- !app_assoc. by destruct c.
Qed.

(** The loop accepts exactly fresh, valid ids with rules that compile, and keeps every rule in order. *)
Lemma compile_rules_iff file algos line rules seen pack pack' :
  compile_rules file algos line rules seen pack = Done (inr pack') <->
  Forall (fun r => valid_rule_id (rule_id r) = true) rules /\ NoDup (rule_id <$> rules) /\
  Forall (fun r => rule_id r ∉ seen) rules /\
  exists cs, Forall2 (fun r c => compile_rule algos r = Done (inr c)) rules cs /\ pack' = push_all cs pack.
Proof.
  revert line seen pack. induction rules as [| r rules IH]; intros line seen pack; cbn [compile_rules].
  { split.
    - intros [= <-]. split_and!; [constructor | constructor | constructor |]. exists []. split; [constructor | reflexivity].
    - intros (_ & _ & _ & cs & F & ->). apply Forall2_nil_inv_l in F as ->. reflexivity. }
  rewrite !Forall_cons, fmap_cons, NoDup_cons.
  destruct (valid_rule_id (rule_id r)) eqn:V; simpl; [| split; [discriminate | intros ([? _] & _); congruence]].
  destruct (bool_decide_reflect (rule_id r ∈ seen)) as [Hs | Hs]; [split; [discriminate | intros (_ & _ & [? _] & _); tauto] |].
  assert (forall c, compile_rule algos r = Done (inr c) ->
    (compile_rules file algos (S line) rules ({[rule_id r]} ∪ seen) (push_compiled c pack) = Done (inr pack') <->
     Forall (fun r => valid_rule_id (rule_id r) = true) rules /\ NoDup (rule_id <$> rules) /\
     rule_id r ∉ rule_id <$> rules /\ Forall (fun r => rule_id r ∉ seen) rules /\
     exists cs, Forall2 (fun r c => compile_rule algos r = Done (inr c)) rules cs /\ pack' = push_all (c :: cs) pack)) as IH'.
  { intros c Hc. rewrite IH. assert (Forall (fun x => rule_id x ∉ {[rule_id r]} ∪ seen) rules <->
      rule_id r ∉ rule_id <$> rules /\ Forall (fun x => rule_id x ∉ seen) rules) as ->.
    { rewrite !Forall_forall, list_elem_of_fmap. set_solver. }
    simpl. tauto. }
  destruct (compile_rule algos r) as [[e | c] | |] eqn:C; simpl.
  - split; [discriminate |]. intros (_ & _ & _ & cs & F & _). apply Forall2_cons_inv_l in F as (? & ? & Hc & _). congruence.
  - rewrite (IH' c eq_refl). split.
    + intros (H1 & H2 & H3 & H4 & cs & F & ->). split_and!; try tauto. exists (c :: cs). split; [by constructor | reflexivity].
    + intros ([_ H1] & [H3 H2] & [_ H4] & cs & F & ->). apply Forall2_cons_inv_l in F as (c' & cs' & Hc & F & ->).
      assert (c' = c) as -> by congruence. split_and!; try assumption. eauto.
  - split; [discriminate |]. intros (_ & _ & _ & cs & F & _). apply Forall2_cons_inv_l in F as (? & ? & Hc & _). congruence.
  - split; [discriminate |]. intros (_ & _ & _ & cs & F & _). apply Forall2_cons_inv_l in F as (? & ? & Hc & _). congruence.
Qed.

(** C30. An accepted pack is well-typed and complete: its format is the current
    one, its name is not blank, it has at most 10,000 rules with valid and
    distinct ids, every rule of the file is in it exactly once and in order,
    and each satisfies its bounds (patterns of 1 to 4096 bytes, literals of 1
    to 1024 bytes without control characters, 1 to 256 candidates, a
    registered algorithm, a 32-bit seed, a rotation of 1 to 31). *)
Theorem accepted_pack_typed file v algos pack :
  parse_rules_value file v algos = Done (inr pack) ->
  as_u64 (v @@ "format") = Some PACK_FORMAT /\ trim (pk_name pack) <> "" /\
  exists rules cs, as_array (v @@ "rules") = Some rules /\ Z.of_nat (length rules) <= MAX_RULES_PER_PACK /\
    compiled_id <$> cs = rule_id <$> rules /\ NoDup (rule_id <$> rules) /\
    Forall (fun c => valid_rule_id (compiled_id c) = true /\ compiled_ok algos c) cs /\
    pk_constants pack = omap (fun c => match c with CConstant r => Some r | _ => None end) cs /\
    pk_api_hashes pack = omap (fun c => match c with CApiHash r => Some r | _ => None end) cs /\
    pk_strings pack = omap (fun c => match c with CString r => Some r | _ => None end) cs.
Proof.
  unfold parse_rules_value. intros E. destruct (bool_decide_reflect (as_u64 (v @@ "format") = Some PACK_FORMAT)) as [Hf |]; [| discriminate].
  simpl in E. destruct (as_str (v @@ "name")) as [name |]; [| discriminate].
  destruct (bool_decide_reflect (trim name = "")) as [| Hn]; [discriminate |].
  destruct (as_array (v @@ "rules")) as [rules |]; [| discriminate]. destruct (Z.ltb_spec MAX_RULES_PER_PACK (Z.of_nat (length rules))); [discriminate |].
  apply compile_rules_iff in E as (V & ND & _ & cs & F & ->).
  assert (pk_name (push_all cs {| pk_name := name; pk_version := default "0" (as_str (v @@ "version"));
            pk_source := default "" (as_str (v @@ "source")); pk_sha256 := ""; pk_enabled := default true (as_bool (v @@ "enabled"));
            pk_constants := []; pk_api_hashes := []; pk_strings := [] |}) = name) as ->.
  { generalize (@nil ConstantRule), (@nil ApiHashRule), (@nil StringRule).
    clear F. induction cs as [| c cs IH]; intros; [reflexivity | apply IH]. }
  split; [exact Hf |]. split; [exact Hn |]. exists rules, cs.
  destruct (push_all_fields cs {| pk_name := name; pk_version := default "0" (as_str (v @@ "version"));
            pk_source := default "" (as_str (v @@ "source")); pk_sha256 := ""; pk_enabled := default true (as_bool (v @@ "enabled"));
            pk_constants := []; pk_api_hashes := []; pk_strings := [] |}) as (Ec & Ea & Es).
  assert (compiled_id <$> cs = rule_id <$> rules /\ Forall (fun c => valid_rule_id (compiled_id c) = true /\ compiled_ok algos c) cs) as [Hi Hc].
  { clear -V F. induction F as [| r c rules cs Hrc _ IH]; [by split |]. apply Forall_cons in V as [Vr V]. destruct (IH V) as [IH1 IH2].
    destruct (compile_rule_ok _ _ _ Hrc) as [Eid Ok]. split; [simpl; by f_equal |]. constructor; [| exact IH2]. by rewrite Eid. }
  split_and!; try assumption; reflexivity.
Qed.

(** Why a rule is refused once the ids [seen] were used. *)
Definition refusal (algos : list string) (seen : list string) (bad : Value) (reason : string) : Prop :=
  if negb (valid_rule_id (rule_id bad)) then reason = fmt ["bad rule id '"; rule_id bad; "'"]
  else if bool_decide (rule_id bad ∈ seen) then reason = fmt ["duplicate rule id '"; rule_id bad; "'"]
  else compile_rule algos bad = Done (inl reason).

Lemma refusal_ext algos seen seen' bad reason :
  (rule_id bad ∈ seen <-> rule_id bad ∈ seen') -> refusal algos seen bad reason -> refusal algos seen' bad reason.
Proof. intros H. unfold refusal. by rewrite (bool_decide_ext _ _ H). Qed.

Lemma compile_rules_located file algos pre bad post reason done line pack :
  Forall (fun r => valid_rule_id (rule_id r) = true /\ exists c, compile_rule algos r = Done (inr c)) pre ->
  NoDup (rule_id <$> pre) -> Forall (fun r => rule_id r ∉ done) pre -> refusal algos (done ++ (rule_id <$> pre)) bad reason ->
  compile_rules file algos line (pre ++ bad :: post) (list_to_set done) pack =
    Done (inl (pack_error file (line + length pre) reason)).
Proof.
  intros Hp. revert done line pack.
  induction Hp as [| r pre [Hv [c Hc]] _ IH]; intros done line pack ND F Hb; cbn [app compile_rules length].
  - unfold refusal in Hb. rewrite app_nil_r in Hb. rewrite Nat.add_0_r. destruct (negb _); [by subst reason |].
    rewrite (bool_decide_ext _ (rule_id bad ∈ done)) by apply elem_of_list_to_set.
    destruct (bool_decide _); [by subst reason |]. by rewrite Hb.
  - apply Forall_cons in F as [Fr F]. simpl in ND. apply NoDup_cons in ND as [Hnew ND].
    rewrite Hv. simpl. rewrite bool_decide_false by (by rewrite elem_of_list_to_set). rewrite Hc. simpl.
    rewrite (IH (rule_id r :: done) (S line) _ ND); [do 3 f_equal; lia | |].
    + rewrite Forall_forall in F |- *. intros x Hx. rewrite not_elem_of_cons. split; [| by apply F].
      intros Ex. apply Hnew. rewrite <- Ex. by apply list_elem_of_fmap_2.
    + eapply refusal_ext; [| exact Hb]. simpl. rewrite elem_of_cons, !elem_of_app, elem_of_cons. tauto.
Qed.

(** A refused rule is located: when the rules before it are accepted, the
    first rule with an invalid id, a repeated id or a body that does not
    compile makes the load fail, and the error names the file, the rule's
    position and the reason; no partial pack is returned. *)
Theorem pack_error_located file v algos name pre bad post reason :
  as_u64 (v @@ "format") = Some PACK_FORMAT -> as_str (v @@ "name") = Some name -> trim name <> "" ->
  as_array (v @@ "rules") = Some (pre ++ bad :: post) -> Z.of_nat (length (pre ++ bad :: post)) <= MAX_RULES_PER_PACK ->
  Forall (fun r => valid_rule_id (rule_id r) = true /\ exists c, compile_rule algos r = Done (inr c)) pre ->
  NoDup (rule_id <$> pre) -> refusal algos (rule_id <$> pre) bad reason ->
  parse_rules_value file v algos = Done (inl (pack_error file (S (length pre)) reason)).
Proof.
  intros Hf Hn Ht Hr Hl Hp ND Hb. unfold parse_rules_value. rewrite bool_decide_true by exact Hf. simpl.
  rewrite Hn, bool_decide_false, Hr, (proj2 (Z.ltb_ge _ _) Hl) by exact Ht.
  apply (compile_rules_located file algos pre bad post reason [] 1); try assumption.
  apply Forall_forall. intros r _. apply not_elem_of_nil.
Qed.

(** ** The hash of a set does not depend on the order of its packs *)

Lemma sort_strings_perm l : sort_strings l ≡ₚ l.
Proof. apply sort_by_perm. Qed.

Lemma sort_strings_sorted l : StronglySorted (fun x y => String.leb x y = true) (sort_strings l).
Proof.
  apply Sorted_StronglySorted; [exact leb_trans |]. apply sort_by_sorted, leb_total.
Qed.

(** The hash that keys the scan cache depends on which packs are loaded and
    not on the order they were read in. *)
Theorem set_hash_order_independent packs packs' : packs ≡ₚ packs' -> set_hash packs = set_hash packs'.
Proof.
  intros P. unfold set_hash. do 2 f_equal. apply (StronglySorted_unique (fun x y => String.leb x y = true)).
  - apply sort_strings_sorted.
  - apply sort_strings_sorted.
  - by rewrite !sort_strings_perm, P.
Qed.

(** ** Examples *)

Definition sample_rule (id : string) : Value :=
  JObj [("id", JStr id); ("kind", JStr "constant"); ("hex", JStr "63 7c77")].
Definition sample_pack (rules : list Value) : Value :=
  JObj [("format", JNum 1); ("name", JStr "demo"); ("rules", JArr rules)].

Lemma accepted_pack_typed_witness :
  exists pack, parse_rules_value "p.json" (sample_pack [sample_rule "a"; sample_rule "b"]) [] = Done (inr pack) /\
    trim (pk_name pack) <> "" /\ (cr_bytes <$> pk_constants pack) = [[0x63; 0x7c; 0x77]; [0x63; 0x7c; 0x77]].
Proof.
  destruct (parse_rules_value "p.json" (sample_pack [sample_rule "a"; sample_rule "b"]) []) as [[e | pack] | |] eqn:E;
    try (vm_compute in E; discriminate).
  exists pack. split; [reflexivity |]. split.
  - exact (proj1 (proj2 (accepted_pack_typed _ _ _ _ E))).
  - vm_compute in E. injection E as <-. reflexivity.
Defined.

Lemma pack_error_located_witness :
  parse_rules_value "p.json" (sample_pack ([sample_rule "a"] ++ [sample_rule "a"])) [] =
    Done (inl (pack_error "p.json" 2 "duplicate rule id 'a'")).
Proof.
  apply (pack_error_located "p.json" _ [] "demo" [sample_rule "a"] (sample_rule "a") []); try reflexivity.
  - vm_compute. discriminate.
  - vm_compute. discriminate.
  - constructor; [| constructor]. split; [reflexivity |]. eexists. vm_compute. reflexivity.
  - repeat constructor. apply not_elem_of_nil.
Defined.

Lemma set_hash_order_independent_witness :
  exists p q, set_hash [p; q] = set_hash [q; p] /\ pk_sha256 p <> pk_sha256 q.
Proof.
  exists {| pk_name := "a"; pk_version := ""; pk_source := ""; pk_sha256 := "01"; pk_enabled := true; pk_constants := [];
            pk_api_hashes := []; pk_strings := [] |},
         {| pk_name := "b"; pk_version := ""; pk_source := ""; pk_sha256 := "02"; pk_enabled := true; pk_constants := [];
            pk_api_hashes := []; pk_strings := [] |}.
  split; [| discriminate]. apply set_hash_order_independent. apply Permutation_swap.
Defined.

(** A pattern with a multi-byte character at an odd offset does not fail to load but panics. *)
Example hex_inside_char_panics : decode_hex_str (of_codes [97; 0xc3; 0xa9; 98]) = Panic.
Proof. vm_compute. reflexivity. Qed.
