(* ===== verification/BinDiff.v ===== *)
(** * BinDiff: differences between two exported databases

    Models the rest of [rmcp-worker/src/blockdiff.rs] ([diff_function],
    [diff_from_json], [diff_binary_json]) and the arms [sig.fingerprints] and
    [sig.diff] of [rmcp-worker/src/dispatch.rs] with [block_fp_json]: the
    export of block fingerprints, the pairing of the functions of two exports
    by name and by evidence, and the comparison of the pairs. *)

From stdpp Require Import base list gmap strings sorting.
From Stdlib Require Import ZArith Lia Ascii SpecFloat.
From S2P Require Import Prelude Text Json Errors Index Backend Float Signatures BlockDiff Rules.

Local Open Scope Z_scope.
Local Open Scope rmcp_scope.

(** ** Fingerprints as JSON *)

Definition block_fp_json (fp : BlockFp) : Value :=
  JObj [("ea", JStr (show_0x (fp_ea fp))); ("mnemonic_hash", JStr (show_hex16 (mnemonic_hash fp)));
        ("const_hash", JStr (show_hex16 (const_hash fp))); ("const_count", JNum (const_count fp)); ("out_edges", JNum (out_edges fp));
        ("in_edges", JNum (in_edges fp)); ("insn_count", JNum (insn_count fp))].

Definition bd_parse_ea (s : string) : Result Z :=
  let t := trim s in
  match (match strip_prefix "0x" t with Some h => Some h | None => strip_prefix "0X" t end) with
  | Some hex => match parse_hex_u64 hex with inr v => Ok v | inl e => Err (Worker (fmt ["bad ea '"; s; "': "; ParseIntError_to_string e])) end
  | None => match parse_u64 t with inr v => Ok v | inl e => Err (Worker (fmt ["bad ea '"; s; "': "; ParseIntError_to_string e])) end
  end.

Definition hash_field (r : Value) (k : string) : Z := default 0 (ok (parse_hex_u64 (default "0" (as_str (r @@ k))))).
Definition count_field (r : Value) (k : string) : Z := default 0 (as_u64 (r @@ k)).

Definition parse_block (r : Value) : Result BlockFp :=
  ea <-? bd_parse_ea (default "0" (as_str (r @@ "ea")));
  Ok {| fp_ea := ea; mnemonic_hash := hash_field r "mnemonic_hash"; const_hash := hash_field r "const_hash";
        const_count := count_field r "const_count"; out_edges := count_field r "out_edges"; in_edges := count_field r "in_edges";
        insn_count := count_field r "insn_count" |}.

Fixpoint collect_results {A} (l : list (Result A)) : Result (list A) :=
  match l with [] => Ok [] | r :: rest => x <-? r; xs <-? collect_results rest; Ok (x :: xs) end.

Definition parse_fn_blocks (f : Value) : Result (list BlockFp) :=
  collect_results (parse_block <$> default [] (as_array (f @@ "blocks"))).

(** ** Pairing *)

Record Evidence := { ev_size : Z; ev_constants : list Z; ev_strings : list string; ev_imports : list string }.
Definition evidence (f : Value) : Evidence :=
  let e := f @@ "evidence" in
  {| ev_size := default 0 (as_u64 (e @@ "size"));
     ev_constants := omap as_u64 (default [] (as_array (e @@ "constants")));
     ev_strings := omap as_str (default [] (as_array (e @@ "strings")));
     ev_imports := omap as_str (default [] (as_array (e @@ "imports"))) |}.

Definition jaccard (a b : gset Z) : f64 :=
  if bool_decide (a = ∅) && bool_decide (b = ∅) then f1
  else if bool_decide (a = ∅) || bool_decide (b = ∅) then f0_25
  else fdiv (f_of_nat (size (a ∩ b))) (f_of_nat (Nat.max (size (a ∪ b)) 1)).

Definition hashes (l : list string) : gset Z := list_to_set (fnv1a64 <$> l).

Definition fam_sim (x y : Evidence) : f64 :=
  let big := Z.max (ev_size x) (ev_size y) in
  let small := Z.min (ev_size x) (ev_size y) in
  let size_sim := fsub f1 (fdiv (f_of_Z (saturating_sub big small)) (f_of_Z (Z.max big 1))) in
  fadd (fadd (fadd (fmul w30 (jaccard (hashes (ev_imports x)) (hashes (ev_imports y))))
                   (fmul w25 (jaccard (list_to_set (ev_constants x)) (list_to_set (ev_constants y)))))
             (fmul w25 (jaccard (hashes (ev_strings x)) (hashes (ev_strings y)))))
       (fmul w20 (fclamp f0 f1 size_sim)).

(** [by_name]: of several functions with one name the last is kept. *)
Definition name_of (f : Value) : option string := as_str (f @@ "name").
Definition by_name (fb : list Value) : gmap string Value :=
  foldl (fun m f => match name_of f with Some n => <[n := f]> m | None => m end) ∅ fb.

(** Stage 1: the pairs, the functions left over and the names left. *)
Fixpoint pair_names (fa : list Value) (names : gmap string Value) : list (Value * Value) * list Value * gmap string Value :=
  match fa with
  | [] => ([], [], names)
  | f :: rest =>
      match (n ← name_of f; g ← names !! n; Some (n, g)) with
      | Some (n, g) => let '(ps, more, names') := pair_names rest (delete n names) in ((f, g) :: ps, more, names')
      | None => let '(ps, more, names') := pair_names rest names in (ps, f :: more, names')
      end
  end.

(** [by_name.values()]: by name. *)
Definition names_iter (m : gmap string Value) : list Value := snd <$> sort_by (fun x y => String.leb x.1 y.1) (map_to_list m).

Fixpoint best_evidence (x : Evidence) (gs : list Value) (best : option (Value * f64)) : option (Value * f64) :=
  match gs with
  | [] => best
  | g :: rest =>
      let s := fam_sim x (evidence g) in
      let better := match best with Some (_, bs) => fltb bs s | None => true end in
      best_evidence x rest (if fleb w60 s && better then Some (g, s) else best)
  end.

Definition pair_evidence (leftovers : list Value) (remaining : list Value) : list (Value * Value) :=
  omap (fun f => (fun g => (f, g.1)) <$> best_evidence (evidence f) remaining None) leftovers.

Definition pair_functions (fa fb : list Value) : list (Value * Value) :=
  let '(ps, leftovers, names) := pair_names fa (by_name fb) in ps ++ pair_evidence leftovers (names_iter names).

(** ** Comparison *)

Definition count_of (d : Value) (k : string) : Z := default 0 (as_u64 (d @@ k)).

Fixpoint diff_pairs (ps : list (Value * Value)) (threshold : f64) (max_blocks : nat) (equal : nat) (changed : list Value)
  : Result (nat * list Value) :=
  match ps with
  | [] => Ok (equal, changed)
  | (f, g) :: rest =>
      a <-? parse_fn_blocks f;
      b <-? parse_fn_blocks g;
      let d := diff_blocks a b threshold (max_blocks * 4) in
      if (count_of d "modified" =? 0) && (count_of d "added" =? 0) && (count_of d "removed" =? 0)
      then diff_pairs rest threshold max_blocks (S equal) changed
      else diff_pairs rest threshold max_blocks equal
             (changed ++ [JObj [("name", f @@ "name"); ("name_b", g @@ "name"); ("ea_a", f @@ "ea"); ("ea_b", g @@ "ea");
                                ("modified", d @@ "modified"); ("added", d @@ "added"); ("removed", d @@ "removed"); ("rows", d @@ "rows")]])
  end.

Definition diff_binary_json (fa fb : list Value) (threshold : f64) (max_blocks : nat) : Result Value :=
  let pairs := pair_functions fa fb in
  r <-? diff_pairs pairs threshold max_blocks 0 [];
  Ok (JObj [("matched_functions", jnat (length pairs)); ("equal", jnat r.1); ("changed", JArr r.2);
            ("pairing", JStr "name + evidence-similarity fallback (stripped builds pair by evidence)")]).

(** [out[k] = v] on an object. *)
Definition set_field (k : string) (v : Value) (o : Value) : Value := match o with JObj kvs => JObj (set_assoc k v kvs) | _ => o end.

Definition diff_from_json (a b : Value) (threshold : f64) (max_blocks : nat) : Result Value :=
  match as_array (a @@ "functions"), as_array (b @@ "functions") with
  | Some fa, Some fb => diff_binary_json fa fb threshold max_blocks
  | _, _ =>
      fps_a <-? parse_fn_blocks a;
      fps_b <-? parse_fn_blocks b;
      let out := diff_blocks fps_a fps_b threshold (max_blocks * 4) in
      let out := match as_str (a @@ "ea") with Some ea => set_field "ea_a" (JStr ea) out | None => out end in
      Ok (match as_str (b @@ "ea") with Some ea => set_field "ea_b" (JStr ea) out | None => out end)
  end.

Section Exporting.
Context {B : Type} `{IdaBackend B}.

Definition diff_function (backend_a backend_b : B) (ea_a ea_b : Z) (max_blocks : nat) (threshold : f64) : Result Value :=
  match function_at backend_a ea_a with
  | inl _ => Err (Worker ("db A: no function at " +:+ show_0x ea_a))
  | inr _ =>
      match function_at backend_b ea_b with
      | inl _ => Err (Worker ("db B: no function at " +:+ show_0x ea_b))
      | inr _ =>
          fa <-? function_block_fingerprints backend_a ea_a max_blocks;
          fb <-? function_block_fingerprints backend_b ea_b max_blocks;
          let out := diff_blocks fa.1 fb.1 threshold (max_blocks * 4) in
          Ok (set_field "truncated" (JBool (fa.2 || fb.2 || default false (as_bool (out @@ "truncated"))))
               (set_field "ea_b" (JStr (show_0x ea_b)) (set_field "ea_a" (JStr (show_0x ea_a)) out)))
      end
  end.

(** [sig.fingerprints] for one function. *)
Definition export_function (b : B) (ea : Z) (max_blocks : nat) : Result Value :=
  r <-? function_block_fingerprints b ea max_blocks;
  Ok (JObj [("ea", JStr (show_0x ea)); ("blocks", JArr (block_fp_json <$> r.1)); ("truncated", JBool r.2)]).

(** Without an address: the largest functions that are not thunks, with their evidence. *)
Definition export_candidates (idx : AnalysisIndex) : list (Z * FunctionFacts) :=
  sort_by_key (fun x => - ff_size x.2)
    (filter (fun x => starts_with "j_" (ff_name x.2) = false /\ 16 <= ff_size x.2) (btree_iter (functions idx))).

Definition export_row (ea : Z) (f : FunctionFacts) (fps : list BlockFp) : Value :=
  let sig := to_sig ea f in
  JObj [("name", JStr (ff_name f)); ("ea", JStr (show_0x ea)); ("blocks", JArr (block_fp_json <$> fps));
        ("evidence", JObj [("size", JNum (sg_size sig)); ("constants", JArr (JNum <$> sg_constants sig));
           ("strings", JArr (JStr <$> sg_strings sig)); ("imports", JArr (JStr <$> sg_imports sig));
           ("callee_count", JNum (callee_count sig)); ("caller_count", JNum (caller_count sig))])].

Fixpoint export_rows (b : B) (max_blocks : nat) (fs : list (Z * FunctionFacts)) (truncated : bool) : Result (list Value * bool) :=
  match fs with
  | [] => Ok ([], truncated)
  | (ea, f) :: rest =>
      r <-? function_block_fingerprints b ea max_blocks;
      t <-? export_rows b max_blocks rest (truncated || r.2);
      Ok (export_row ea f r.1 :: t.1, t.2)
  end.

Definition export_binary (b : B) (idx : AnalysisIndex) (max_functions max_blocks : nat) : Result Value :=
  let sorted := export_candidates idx in
  r <-? export_rows b max_blocks (take max_functions sorted) (max_functions <? length sorted)%nat;
  Ok (JObj [("functions", JArr r.1); ("truncated", JBool r.2); ("binary_md5", JStr (binary_md5 idx))]).
End Exporting.

(** ** Fingerprints survive the export *)

Definition fp_u64 (fp : BlockFp) : Prop :=
  is_u64 (fp_ea fp) /\ is_u64 (mnemonic_hash fp) /\ is_u64 (const_hash fp) /\ is_u64 (const_count fp) /\
  is_u64 (out_edges fp) /\ is_u64 (in_edges fp) /\ is_u64 (insn_count fp).

Lemma parse_loop_zeros n max s : 0 <= max -> parse_loop 16 max 0 (repeat_str "0" n +:+ s) = parse_loop 16 max 0 s.
Proof.
  intros Hm. induction n as [| n IH]; [reflexivity |].
  change (repeat_str "0" (S n) +:+ s) with (String "0"%char (repeat_str "0" n +:+ s)). cbn [parse_loop].
  change (to_digit 16 "0"%char) with (Some 0). cbv zeta. rewrite Z.mul_0_l, Z.add_0_l.
  destruct (Z.ltb_spec max 0); [lia |]. exact IH.
Qed.

Lemma parse_hex16 h : is_u64 h -> parse_hex_u64 (show_hex16 h) = inr h.
Proof.
  intros Hh. unfold show_hex16. destruct (16 - String.length (show_hex h))%nat as [| n]; [apply (parse_show 16 h); [lia | exact Hh] |].
  assert (parse_hex_u64 (repeat_str "0" (S n) +:+ show_hex h) = parse_loop 16 u64_max 0 (repeat_str "0" (S n) +:+ show_hex h)) as ->.
  { change (repeat_str "0" (S n) +:+ show_hex h) with (String "0"%char (repeat_str "0" n +:+ show_hex h)).
    unfold parse_hex_u64, from_str_radix. change ((ord "0" =? 43) || (ord "0" =? 45)) with false. by rewrite andb_false_r. }
  rewrite parse_loop_zeros by (unfold u64_max, u64_modulus; lia). unfold is_u64 in Hh. unfold show_hex, show_radix.
  rewrite parse_loop_show; [reflexivity | lia | unfold u64_max; lia | | discriminate].
  eapply Z.lt_le_trans; [apply Hh |]. change (2 ^ 64 <= 16 ^ 64). lia.
Qed.

Lemma bd_parse_show n : is_u64 n -> bd_parse_ea (show_0x n) = Ok n.
Proof.
  intros Hn. unfold bd_parse_ea. rewrite trim_graphic.
  - unfold show_0x. rewrite strip_prefix_app. unfold parse_hex_u64, show_hex. rewrite (parse_show 16 n) by (lia || exact Hn). reflexivity.
  - unfold show_0x, show_hex. rewrite all_chars_app. rewrite show_graphic; [reflexivity | apply Hn | lia].
Qed.

Lemma as_u64_num n : is_u64 n -> as_u64 (JNum n) = Some n.
Proof. intros Hn. cbn [as_u64]. by rewrite bool_decide_eq_true_2. Qed.

Lemma parse_block_json fp : fp_u64 fp -> parse_block (block_fp_json fp) = Ok fp.
Proof.
  intros (H1 & H2 & H3 & H4 & H5 & H6 & H7). unfold parse_block, hash_field, count_field.
  change (as_str (block_fp_json fp @@ "ea")) with (Some (show_0x (fp_ea fp))).
  change (as_str (block_fp_json fp @@ "mnemonic_hash")) with (Some (show_hex16 (mnemonic_hash fp))).
  change (as_str (block_fp_json fp @@ "const_hash")) with (Some (show_hex16 (const_hash fp))).
  change (block_fp_json fp @@ "const_count") with (JNum (const_count fp)).
  change (block_fp_json fp @@ "out_edges") with (JNum (out_edges fp)).
  change (block_fp_json fp @@ "in_edges") with (JNum (in_edges fp)).
  change (block_fp_json fp @@ "insn_count") with (JNum (insn_count fp)).
  cbn [default id]. rewrite bd_parse_show, !parse_hex16, !as_u64_num by assumption. by destruct fp.
Qed.

Lemma parse_blocks_json fps v :
  Forall fp_u64 fps -> v @@ "blocks" = JArr (block_fp_json <$> fps) -> parse_fn_blocks v = Ok fps.
Proof.
  intros H E. unfold parse_fn_blocks. rewrite E. cbn [as_array default id]. clear E. induction H as [| fp fps Hf _ IH]; [reflexivity |].
  rewrite !fmap_cons. cbn [collect_results]. rewrite parse_block_json by exact Hf. cbn [bindR Ok]. by rewrite IH.
Qed.

(** ** A database does not differ from itself *)

(** No two blocks of different shapes share a hash. *)
Definition no_collision (a : list BlockFp) : Prop :=
  forall x y, x ∈ a -> y ∈ a -> shape_hash x = shape_hash y -> same_shape x y.

Lemma count_kind_none k rows : Forall (fun r => row_kind r = "equal") rows -> k <> "equal" -> count_kind k rows = 0%nat.
Proof.
  intros HF Hk. unfold count_kind. rewrite filter_none; [reflexivity |]. intros r Hr E. rewrite Forall_forall in HF.
  by rewrite (HF r Hr) in E.
Qed.

Lemma diff_blocks_self a th n k :
  no_collision a -> k = "modified" \/ k = "added" \/ k = "removed" -> count_of (diff_blocks a a th n) k = 0.
Proof.
  intros NC Hk. destruct (self_rows a th NC) as [Heq _].
  assert (Forall (fun r => row_kind r = "equal") (df_rows (diff_rows a a th n))) as HF.
  { cbn [diff_rows df_rows]. apply Forall_take. by rewrite sort_rows_perm. }
  assert (Hc : forall k, k <> "equal" -> as_u64 (jnat (count_kind k (df_rows (diff_rows a a th n)))) = Some 0).
  { intros k' Hne. by rewrite count_kind_none. }
  unfold count_of. destruct Hk as [-> | [-> | ->]].
  - change (diff_blocks a a th n @@ "modified") with (jnat (count_kind "modified" (df_rows (diff_rows a a th n)))). by rewrite Hc.
  - change (diff_blocks a a th n @@ "added") with (jnat (count_kind "added" (df_rows (diff_rows a a th n)))). by rewrite Hc.
  - change (diff_blocks a a th n @@ "removed") with (jnat (count_kind "removed" (df_rows (diff_rows a a th n)))). by rewrite Hc.
Qed.

Lemma diff_pairs_self fs th mb equal :
  Forall (fun f => exists fps, parse_fn_blocks f = Ok fps /\ no_collision fps) fs ->
  diff_pairs ((fun f => (f, f)) <$> fs) th mb equal [] = Ok ((equal + length fs)%nat, []).
Proof.
  intros HF. revert equal. induction HF as [| f fs (fps & E & NC) _ IH]; intros equal; cbn [fmap list_fmap diff_pairs length].
  { by rewrite Nat.add_0_r. }
  rewrite E. cbn [bindR Ok]. rewrite !diff_blocks_self by auto. cbn [Z.eqb andb]. rewrite IH. do 2 f_equal. lia.
Qed.

(** With distinct names every function is paired with itself. *)
Lemma by_name_lookup fb (m : gmap string Value) n :
  NoDup (omap name_of fb) ->
  foldl (fun m f => match name_of f with Some n => <[n := f]> m | None => m end) m fb !! n =
  match List.find (fun f => bool_decide (name_of f = Some n)) fb with Some f => Some f | None => m !! n end.
Proof.
  revert m. induction fb as [| f fb IH]; intros m Hn; [reflexivity |]. cbn [foldl List.find].
  assert (NoDup (omap name_of fb) /\ forall k, name_of f = Some k -> k ∉ omap name_of fb) as [Hn' Hf].
  { cbn [omap list_omap] in Hn. destruct (name_of f) as [k |]; [| by split].
    apply NoDup_cons in Hn as [Hk Hn]. split; [exact Hn | by intros ? [= <-]]. }
  rewrite IH by exact Hn'. destruct (name_of f) as [k |] eqn:Ek.
  - destruct (decide (k = n)) as [-> | Hne].
    + rewrite bool_decide_eq_true_2 by reflexivity. destruct (List.find _ fb) as [g |] eqn:E; [| apply lookup_insert_eq].
      apply List.find_some in E as [Hg E%bool_decide_eq_true]. destruct (Hf n eq_refl). apply list_elem_of_omap.
      exists g. split; [by apply list_elem_of_In | exact E].
    + rewrite bool_decide_eq_false_2 by congruence. by rewrite lookup_insert_ne.
  - by rewrite bool_decide_eq_false_2.
Qed.

Lemma pair_names_self fa (names : gmap string Value) :
  NoDup (name_of <$> fa) -> Forall (fun f => exists n, name_of f = Some n /\ names !! n = Some f) fa ->
  exists names', pair_names fa names = ((fun f => (f, f)) <$> fa, [], names').
Proof.
  revert names. induction fa as [| f fa IH]; intros names Hn HF; cbn [pair_names]; [eauto |].
  cbn [fmap list_fmap] in Hn. apply NoDup_cons in Hn as [Hf Hn]. apply Forall_cons in HF as [(n & En & El) HF].
  rewrite En. cbn [mbind option_bind]. rewrite El. cbn [mbind option_bind]. destruct (IH (delete n names) Hn) as [names' E].
  - apply Forall_forall. intros g Hg. rewrite Forall_forall in HF. destruct (HF g Hg) as (k & Ek & Elk). exists k. split; [exact Ek |].
    rewrite lookup_delete_ne; [exact Elk |]. intros <-. destruct Hf. rewrite En, <- Ek. by apply list_elem_of_fmap_2.
  - rewrite E. eauto.
Qed.

Lemma omap_named (fa : list Value) :
  Forall (fun f => is_Some (name_of f)) fa -> NoDup (name_of <$> fa) -> NoDup (omap name_of fa).
Proof.
  induction fa as [| f fa IH]; intros HF Hn; [constructor |]. apply Forall_cons in HF as [[n En] HF].
  cbn [fmap list_fmap] in Hn. apply NoDup_cons in Hn as [Hf Hn]. cbn [omap list_omap]. rewrite En. apply NoDup_cons. split; [| by apply IH].
  intros (g & Hg & Eg)%list_elem_of_omap. apply Hf. rewrite En, <- Eg. by apply list_elem_of_fmap_2.
Qed.

Lemma pair_functions_self fa :
  Forall (fun f => is_Some (name_of f)) fa -> NoDup (name_of <$> fa) -> pair_functions fa fa = (fun f => (f, f)) <$> fa.
Proof.
  intros HF Hn. unfold pair_functions. destruct (pair_names_self fa (by_name fa) Hn) as [names' ->]; [| apply app_nil_r].
  apply Forall_forall. intros f Hf. rewrite Forall_forall in HF. destruct (HF f Hf) as [n En]. exists n. split; [exact En |].
  unfold by_name. rewrite by_name_lookup by (apply omap_named; [by apply Forall_forall | exact Hn]).
  destruct (List.find _ fa) as [g |] eqn:E.
  - apply List.find_some in E as [Hg%list_elem_of_In Eg%bool_decide_eq_true]. f_equal. symmetry.
    apply list_elem_of_lookup in Hf as [i Hi]. apply list_elem_of_lookup in Hg as [j Hj].
    assert (i = j) as <-; [| congruence]. apply (NoDup_lookup (name_of <$> fa) i j (Some n)); [exact Hn | |]; rewrite list_lookup_fmap, ?Hi, ?Hj; cbn; congruence.
  - exfalso. apply list_elem_of_In in Hf. pose proof (List.find_none _ _ E f Hf) as Hnone. by apply bool_decide_eq_false in Hnone.
Qed.

Section SelfDiff.
Context {B : Type} `{IdaBackend B} (b : B).

(** What is asked of the fingerprints of a function: machine integers, no hash collision. *)
Definition plain_blocks (max_blocks : nat) (ea : Z) : Prop :=
  forall fps t, function_block_fingerprints b ea max_blocks = inr (fps, t) -> Forall fp_u64 fps /\ no_collision fps.

Lemma export_rows_shape max_blocks fs t rows t' :
  export_rows b max_blocks fs t = inr (rows, t') -> Forall (fun x => plain_blocks max_blocks x.1) fs ->
  name_of <$> rows = (fun x => Some (ff_name x.2)) <$> fs /\
  Forall (fun r => exists fps, parse_fn_blocks r = Ok fps /\ no_collision fps) rows.
Proof using Type.
  revert t rows. induction fs as [| [ea f] fs IH]; intros t rows E HF; cbn [export_rows] in E.
  { injection E as <- <-. by split. }
  apply Forall_cons in HF as [Hp HF].
  destruct (function_block_fingerprints b ea max_blocks) as [e | [fps tr]] eqn:Ef; [discriminate |]. cbn [bindR fst snd] in E.
  destruct (export_rows b max_blocks fs (t || tr)) as [e | [rest tt]] eqn:Er; [discriminate |]. cbn [bindR fst snd] in E.
  injection E as <- <-. destruct (IH _ _ Er HF) as [IH1 IH2]. destruct (Hp fps tr Ef) as [Hu Hc]. split.
  - cbn [fmap list_fmap]. f_equal. exact IH1.
  - constructor; [| exact IH2]. exists fps. split; [| exact Hc]. by apply parse_blocks_json.
Qed.

(** A database compared with its own export is reported unchanged: when
    the exported functions have distinct names and their fingerprints are
    machine integers without hash collisions, the export parses back, every
    function is paired with itself, and all are equal. *)
Theorem export_diff_self idx max_functions max_blocks v threshold mb :
  export_binary b idx max_functions max_blocks = inr v ->
  let fs := take max_functions (export_candidates idx) in
  NoDup ((fun x => ff_name x.2) <$> fs) -> Forall (fun x => plain_blocks max_blocks x.1) fs ->
  exists r, diff_from_json v v threshold mb = inr r /\
    r @@ "matched_functions" = jnat (length fs) /\ r @@ "equal" = jnat (length fs) /\ r @@ "changed" = JArr [].
Proof using Type.
  intros E fs Hn HF. unfold export_binary in E. fold fs in E.
  destruct (export_rows b max_blocks fs _) as [e | [rows t]] eqn:Er; [discriminate |]. cbn [bindR fst snd] in E. injection E as <-.
  destruct (export_rows_shape _ _ _ _ _ Er HF) as [Hnames Hrows].
  assert (Forall (fun f => is_Some (name_of f)) rows) as Hsome.
  { apply Forall_forall. intros r Hr. apply (list_elem_of_fmap_2 name_of) in Hr. rewrite Hnames in Hr.
    apply list_elem_of_fmap in Hr as (x & -> & _). eauto. }
  assert (NoDup (name_of <$> rows)) as Hnd.
  { rewrite Hnames. change (fun x : Z * FunctionFacts => Some (ff_name x.2)) with (Some ∘ (fun x : Z * FunctionFacts => ff_name x.2)).
    rewrite list_fmap_compose. apply NoDup_fmap_2; [intros x y; congruence | exact Hn]. }
  assert (length rows = length fs) as Hlen by (by rewrite <- (length_fmap name_of), Hnames, length_fmap).
  unfold diff_from_json.
  change (as_array (JObj [("functions", JArr rows); ("truncated", JBool t); ("binary_md5", JStr (binary_md5 idx))] @@ "functions")) with (Some rows).
  cbv iota beta. unfold diff_binary_json. rewrite pair_functions_self by assumption. rewrite diff_pairs_self by exact Hrows.
  eexists. split; [reflexivity |]. rewrite length_fmap, Hlen. cbn [fst snd Nat.add]. by split_and!.
Qed.
End SelfDiff.

(** ** A function of the second database can be paired twice *)

Definition stripped_fn (name : string) : Value :=
  JObj [("name", JStr name); ("ea", JStr "0x1000"); ("blocks", JArr []);
        ("evidence", JObj [("size", JNum 64); ("constants", JArr [JNum 7]); ("strings", JArr []); ("imports", JArr [])])].

Example evidence_pairs_twice :
  length (pair_functions [stripped_fn "a"; stripped_fn "b"] [stripped_fn "sub_1"]) = 2%nat.
Proof. vm_compute. reflexivity. Qed.

(** The mock database, exported and compared with itself. *)
Definition opened_mock : MockBackend := (mock_open "a.i64" MockBackend_new).2.
Definition two_functions : AnalysisIndex :=
  {| schema_version := 1; binary_md5 := "m"; idx_revision := 0; idx_strings := [];
     functions := {[0x401000 := sample_facts 0x401000 "main" []; 0x401100 := sample_facts 0x401100 "helper" ["send"]]} |}.

Lemma export_diff_self_witness :
  exists v r, export_binary opened_mock two_functions 8 64 = inr v /\ diff_from_json v v f0_6 64 = inr r /\
    r @@ "equal" = jnat 2 /\ r @@ "changed" = JArr [].
Proof.
  assert (exists v, export_binary opened_mock two_functions 8 64 = inr v) as [v E] by (eexists; vm_compute; reflexivity).
  assert (take 8 (export_candidates two_functions) =
          [(0x401000, sample_facts 0x401000 "main" []); (0x401100, sample_facts 0x401100 "helper" ["send"])]) as Hfs by (vm_compute; reflexivity).
  assert (Hb : forall ea fp, function_block_fingerprints opened_mock ea 64 = inr ([fp], false) -> fp_u64 fp -> plain_blocks opened_mock 64 ea).
  { intros ea fp Hfp Hu fps t Hfps. rewrite Hfp in Hfps. injection Hfps as <- <-. split; [by constructor |].
    intros x y ->%list_elem_of_singleton ->%list_elem_of_singleton _. by repeat split. }
  destruct (export_diff_self opened_mock two_functions 8 64 v f0_6 64 E) as (r & Er & _ & He & Hc).
  - rewrite Hfs. change (NoDup ["main"; "helper"]). apply NoDup_cons. split; [| apply NoDup_singleton].
    rewrite list_elem_of_singleton. discriminate.
  - rewrite Hfs. apply Forall_cons. split; [| apply Forall_singleton];
      (eapply Hb; [vm_compute; reflexivity |]; unfold fp_u64, is_u64, u64_modulus; cbn [fp_ea mnemonic_hash const_hash const_count out_edges in_edges insn_count]; lia).
  - rewrite Hfs in He. exists v, r. by split_and!.
Defined.
