(* ===== verification/Crypto.v ===== *)
(** * Crypto: constants, API hashes and recovered strings

    Models [rmcp-worker/src/crypto.rs]: the scan of segments for the byte
    patterns of rule packs, the API-hash algorithms with the corpus of
    imported names, and the recovery of strings from immediates.  The reports
    of the backend it reads ([segments], [imports], [hr_cfunc]) are arguments;
    bytes come from the backend interface. *)

From stdpp Require Import base list gmap strings sorting.
From Stdlib Require Import ZArith Lia Ascii SpecFloat.
From S2P Require Import Prelude Text Json Errors Index Backend Workflow Float BlockDiff Rules.

Local Open Scope Z_scope.
Local Open Scope rmcp_scope.

(** ** Constant packs *)

(** The rarity is given by its IEEE-754 bits. *)
Record ConstPack := { cp_name : string; cp_bytes : list Z; cp_table_size : Z; cp_rarity : Z }.

Definition CONST_PACKS : list ConstPack :=
  [{| cp_name := "AES S-box"; cp_bytes := [0x63; 0x7c; 0x77; 0x7b; 0xf2; 0x6b; 0x6f; 0xc5; 0x30; 0x01; 0x67; 0x2b; 0xfe; 0xd7; 0xab; 0x76]; cp_table_size := 256; cp_rarity := 0x3fefae147ae147ae |};
   {| cp_name := "AES inverse S-box"; cp_bytes := [0x52; 0x09; 0x6a; 0xd5; 0x30; 0x36; 0xa5; 0x38; 0xbf; 0x40; 0xa3; 0x9e; 0x81; 0xf3; 0xd7; 0xfb]; cp_table_size := 256; cp_rarity := 0x3fefae147ae147ae |};
   {| cp_name := "SHA-256 initial hash (H0)"; cp_bytes := [0x67; 0xe6; 0x09; 0x6a; 0x85; 0xae; 0x67; 0xbb; 0x72; 0xf3; 0x6e; 0x3c; 0x3a; 0xf5; 0x4f; 0xa5]; cp_table_size := 32; cp_rarity := 0x3fef0a3d70a3d70a |};
   {| cp_name := "SHA-256 round constants (K)"; cp_bytes := [0x42; 0x8a; 0x2f; 0x98; 0x71; 0x37; 0x44; 0x91; 0xb5; 0xc0; 0xfb; 0xcf; 0xe9; 0xb5; 0xdb; 0xa5]; cp_table_size := 256; cp_rarity := 0x3fef0a3d70a3d70a |};
   {| cp_name := "SHA-1 initial hash (H0)"; cp_bytes := [0x67; 0x45; 0x23; 0x01; 0xef; 0xcd; 0xab; 0x89; 0x98; 0xba; 0xdc; 0xfe; 0x10; 0x32; 0x54; 0x76]; cp_table_size := 20; cp_rarity := 0x3fee666666666666 |};
   {| cp_name := "MD5 initial state (A,B,C,D)"; cp_bytes := [0x01; 0x23; 0x45; 0x67; 0x89; 0xab; 0xcd; 0xef; 0xfe; 0xdc; 0xba; 0x98; 0x76; 0x54; 0x32; 0x10]; cp_table_size := 16; cp_rarity := 0x3fed70a3d70a3d71 |};
   {| cp_name := "CRC-32 polynomial table (reflected)"; cp_bytes := [0x00; 0x00; 0x00; 0x00; 0x96; 0x30; 0x07; 0x77; 0x2c; 0x61; 0x0e; 0xee; 0xba; 0x51; 0x09; 0x99]; cp_table_size := 1024; cp_rarity := 0x3feb333333333333 |};
   {| cp_name := "Blowfish P-array (pi digits)"; cp_bytes := [0x24; 0x3f; 0x6a; 0x88; 0x85; 0xa3; 0x08; 0xd3; 0x13; 0x19; 0x8a; 0x2e; 0x03; 0x70; 0x73; 0x44]; cp_table_size := 72; cp_rarity := 0x3fef0a3d70a3d70a |};
   {| cp_name := "TEA/XTEA delta"; cp_bytes := [0xb9; 0x79; 0x37; 0x9e]; cp_table_size := 4; cp_rarity := 0x3fe999999999999a |}].

Definition slug_char (c : ascii) : ascii :=
  if bool_decide (c = " "%char) || bool_decide (c = "("%char) || bool_decide (c = ")"%char) || bool_decide (c = "/"%char)
     || bool_decide (c = ","%char) then "_"%char else c.
(** The names are ASCII. *)
Definition builtin_id (name : string) : string := "builtin." +:+ smap slug_char (to_ascii_lowercase name).

Definition const_packs_json : Value :=
  JObj [("format", JNum 1); ("name", JStr "builtin"); ("version", JStr "1"); ("source", JStr "compiled-in CONST_PACKS (#12)");
        ("rules", JArr ((fun p => JObj [("kind", JStr "constant"); ("id", JStr (builtin_id (cp_name p)));
            ("hex", JStr (join "" (hex2 <$> cp_bytes p))); ("label", JStr (cp_name p)); ("table_size", JNum (cp_table_size p));
            ("rarity", JFloat (cp_rarity p))]) <$> CONST_PACKS))].

(** ** API hashes *)

Definition bytes_of (s : string) : list Z := ord <$> String.list_ascii_of_string s.

Definition rotate_right32 (x n : Z) : Z := Z.lor (Z.shiftr x n) (Z.shiftl x (32 - n) mod u32_modulus).
Definition rotate_left32 (x n : Z) : Z := Z.lor (Z.shiftl x n mod u32_modulus) (Z.shiftr x (32 - n)).
Definition wrapping_add32 (a b : Z) : Z := (a + b) mod u32_modulus.

Definition ror13_add (data : list Z) : Z := foldl (fun h b => wrapping_add32 (rotate_right32 h 13) b) 0 data.
Definition ror15_add (data : list Z) : Z := foldl (fun h b => wrapping_add32 (rotate_right32 h 15) b) 0 data.
Definition rol7_xor (data : list Z) : Z := foldl (fun h b => Z.lxor (rotate_left32 h 7) b) 0 data.

Definition CRC_POLY : Z := 0xEDB88320.
(** [let mask = (h & 1).wrapping_neg(); h = (h >> 1) ^ (poly & mask)] *)
Definition crc_shift (h : Z) : Z :=
  let mask := (- Z.land h 1) mod u32_modulus in
  Z.lxor (Z.shiftr h 1) (Z.land CRC_POLY mask).
Definition crc_byte (h b : Z) : Z := Nat.iter 8 crc_shift (Z.lxor h b).
Definition not32 (x : Z) : Z := Z.lxor x 0xFFFFFFFF.
Definition crc32 (data : list Z) : Z := not32 (foldl crc_byte (not32 0) data).

Record HashAlgo := { ha_name : string; ha_compute : list Z -> Z; ha_wide : bool }.
Definition ALGOS : list HashAlgo :=
  [{| ha_name := "ror13-add"; ha_compute := ror13_add; ha_wide := false |};
   {| ha_name := "ror13-add-wide"; ha_compute := ror13_add; ha_wide := true |};
   {| ha_name := "ror15-add"; ha_compute := ror15_add; ha_wide := false |};
   {| ha_name := "rol7-xor"; ha_compute := rol7_xor; ha_wide := false |};
   {| ha_name := "crc32"; ha_compute := crc32; ha_wide := false |}].
Definition algo_names : list string := ha_name <$> ALGOS.

(** [name.encode_utf16()]: the code points of a UTF-8 text as 16-bit units. *)
Fixpoint utf16_fuel (fuel : nat) (bs : list Z) : list Z :=
  match fuel with
  | O => []
  | S f =>
      match bs with
      | [] => []
      | a :: r =>
          if a <? 0x80 then a :: utf16_fuel f r
          else match r with
               | b :: r1 =>
                   if a <? 0xe0 then ((a - 0xc0) * 64 + (b - 0x80)) :: utf16_fuel f r1
                   else match r1 with
                        | c :: r2 =>
                            if a <? 0xf0 then ((a - 0xe0) * 4096 + (b - 0x80) * 64 + (c - 0x80)) :: utf16_fuel f r2
                            else match r2 with
                                 | d :: r3 =>
                                     let cp := (a - 0xf0) * 262144 + (b - 0x80) * 4096 + (c - 0x80) * 64 + (d - 0x80) - 0x10000 in
                                     (0xd800 + cp / 1024) :: (0xdc00 + cp mod 1024) :: utf16_fuel f r3
                                 | [] => []
                                 end
                        | [] => []
                        end
               | [] => []
               end
      end
  end.
Definition encode_utf16 (s : string) : list Z := let bs := bytes_of s in utf16_fuel (length bs) bs.

Definition normalize_name (wide : bool) (name : string) : list Z :=
  if wide then concat ((fun u => [u mod 256; u / 256]) <$> encode_utf16 name) ++ [0; 0] else bytes_of name ++ [0].

Record CorpusHit := { ch_algo : string; ch_name : string; ch_wide : bool }.
Abbreviation Corpus := (gmap Z (list CorpusHit)).

Definition add_hash (name : string) (c : Corpus) (a : HashAlgo) : Corpus :=
  let h := ha_compute a (normalize_name (ha_wide a) name) in
  <[h := default [] (c !! h) ++ [{| ch_algo := ha_name a; ch_name := name; ch_wide := ha_wide a |}]]> c.
Definition add_name (c : Corpus) (name : string) : Corpus := foldl (add_hash name) c ALGOS.

(** [imports]: the answer of [backend.imports(None, 0, 20_000)]. *)
Definition imported_names (imports : Value) : list string :=
  concat ((fun m => match as_array (m @@ "entries") with Some items => omap (fun e => as_str (e @@ "name")) items | None => [] end)
          <$> default [] (as_array (imports @@ "modules"))).
Definition build_corpus (imports : Result Value) : Result Corpus :=
  v <-? imports; Ok (foldl add_name ∅ (imported_names v)).

(** [{key:#010x}] *)
Definition show_0x8 (k : Z) : string :=
  let s := show_hex k in "0x" +:+ (repeat_str "0" (8 - String.length s) +:+ s).

Definition verified_row (key : Z) (m : CorpusHit) : Value :=
  JObj [("constant", JStr (show_0x8 key)); ("algorithm", JStr (ch_algo m)); ("api", JStr (ch_name m)); ("wide", JBool (ch_wide m))].

Fixpoint verify_constants (corpus : Corpus) (cs : list Z) (acc : list (Z * CorpusHit)) : list (Z * CorpusHit) :=
  match cs with
  | [] => acc
  | c :: rest =>
      let key := c mod u32_modulus in
      let acc := acc ++ (pair key <$> take 4 (default [] (corpus !! key))) in
      if (8 <=? length acc)%nat then acc else verify_constants corpus rest acc
  end.

Definition confidence_of (n : nat) : f64 :=
  match n with
  | 1%nat => f_of_bits 0x3fdccccccccccccd
  | 2%nat => f_of_bits 0x3fe8000000000000
  | 3%nat => f_of_bits 0x3fec28f5c28f5c29
  | _ => f_of_bits 0x3fee666666666666
  end.

Record Resolver := { rs_ea : Z; rs_facts : FunctionFacts; rs_verified : list (Z * CorpusHit) }.
Definition resolver_of (corpus : Corpus) (ea : Z) (f : FunctionFacts) : option Resolver :=
  if 0x800 <? saturating_sub (ff_end f) ea then None
  else if (length (constants f) <? 2)%nat then None
  else match verify_constants corpus (constants f) [] with
       | [] => None
       | vs => Some {| rs_ea := ea; rs_facts := f; rs_verified := vs |}
       end.

Definition find_resolvers (corpus : Corpus) (max : nat) (fs : list (Z * FunctionFacts)) : list Resolver * bool :=
  push_until (fun x => resolver_of corpus x.1 x.2) max fs [].

(** The printed confidences read back as the doubles they print, so the sort is by them. *)
Definition resolver_leb (x y : Resolver) : bool :=
  ftotal_le (confidence_of (length (rs_verified y))) (confidence_of (length (rs_verified x))).

Definition resolver_json (r : Resolver) : Value :=
  JObj [("kind", JStr "api_hash_resolver");
        ("function", JObj [("ea", JStr (show_0x (rs_ea r))); ("name", JStr (ff_name (rs_facts r)))]);
        ("confidence", JStr (show_f2 (confidence_of (length (rs_verified r)))));
        ("verified_hashes", JArr ((fun x => verified_row x.1 x.2) <$> rs_verified r));
        ("verified_count", jnat (length (rs_verified r)));
        ("callers", JArr ((fun c => JStr (show_0x c)) <$> callers (rs_facts r)))].

Definition resolve_api_hashes (imports : Result Value) (idx : AnalysisIndex) (max_findings : nat) : Result Value :=
  corpus <-? build_corpus imports;
  let '(found, truncated) := find_resolvers corpus max_findings (btree_iter (functions idx)) in
  Ok (JObj [("kind", JStr "api_hash_scan"); ("findings", JArr (resolver_json <$> sort_by resolver_leb found));
            ("truncated", JBool truncated); ("algorithms", JArr (JStr <$> algo_names));
            ("note", JStr "algorithms verified against the DB's import-name corpus; low-confidence single-hash resolvers are flagged as such")]).

(** ** The built-in pack *)

(** [builtin_packs] of [rules.rs], on the constants above. *)
Definition builtin_packs : outcome (Result RuleSet) :=
  r <~ parse_rules_value "<builtin>" const_packs_json algo_names;
  Done (match r with
        | inl e => Err e
        | inr p => Ok [set_provenance "builtin" "1" "compiled-in CONST_PACKS + ALGOS (#12)" (show_hex16 (fnv1a64 "builtin")) p]
        end).

(** [load_effective]: [dir] is the [rules] directory beside the executable. *)
Definition load_effective (parse_json : string -> string + Value) (dir : option (list DirEntry)) : outcome (Result RuleSet) :=
  r <~ load_dir parse_json dir algo_names;
  match r with
  | inl e => Done (Err e)
  | inr [] => builtin_packs
  | inr set => Done (Ok set)
  end.

Definition provenance (pack : RulePack) (rule_id label : string) : Value :=
  JObj [("pack", JStr (pk_name pack)); ("pack_sha256", JStr (pk_sha256 pack)); ("rule", JStr rule_id); ("label", JStr label)].

(** ** The scan *)

Record PackedRule := {
  pr_label : string; pr_pack : string; pr_sha : string; pr_id : string; pr_bytes : list Z; pr_size : Z; pr_rarity : f64 }.
Record ConstHit := {
  hit_ea : Z; hit_name : string; hit_label : string; hit_size : Z; hit_confidence : f64; hit_pack : string; hit_sha : string }.

Definition builtin_rules : list PackedRule :=
  (fun p => {| pr_label := cp_name p; pr_pack := "builtin"; pr_sha := "builtin"; pr_id := builtin_id (cp_name p);
               pr_bytes := cp_bytes p; pr_size := cp_table_size p; pr_rarity := f_of_bits (cp_rarity p) |}) <$> CONST_PACKS.

Definition pack_rules (p : RulePack) : list PackedRule :=
  if pk_enabled p then
    (fun r => {| pr_label := cr_label r; pr_pack := pk_name p; pr_sha := pk_sha256 p; pr_id := cr_id r;
                 pr_bytes := cr_bytes r; pr_size := cr_table_size r; pr_rarity := cr_rarity r |}) <$> pk_constants p
  else [].
Definition packed_rules (rules : option RuleSet) : list PackedRule :=
  match rules with None => builtin_rules | Some rs => concat (pack_rules <$> rs) end.

Definition decode_hex (hex : string) : outcome (option (list Z)) :=
  let t := trim hex in
  if Nat.even (String.length t) then hex_pairs t 0 t else Done None.

Definition CHUNK : Z := 1024 * 1024.
Definition MAX_SEGMENT : Z := 64 * 1024 * 1024.

Definition hit_at (r : PackedRule) (ea : Z) : ConstHit :=
  {| hit_ea := ea; hit_name := pr_id r; hit_label := pr_label r; hit_size := pr_size r; hit_confidence := pr_rarity r;
     hit_pack := pr_pack r; hit_sha := pr_sha r |}.

(** The hits so far, and whether the cap was met. *)
Definition Hits : Type := list ConstHit * bool.

(** [bytes.windows(pat.len()).enumerate()] from offset [i]. *)
Fixpoint scan_windows (cap : nat) (r : PackedRule) (base : Z) (i : nat) (bytes : list Z) (acc : list ConstHit) : Hits :=
  match bytes with
  | [] => (acc, false)
  | _ :: rest =>
      if bool_decide (take (length (pr_bytes r)) bytes = pr_bytes r) then
        let acc := acc ++ [hit_at r (wrapping_add64 base (Z.of_nat i))] in
        if (cap <=? length acc)%nat then (acc, true) else scan_windows cap r base (S i) rest acc
      else scan_windows cap r base (S i) rest acc
  end.

Fixpoint scan_rules (cap : nat) (base : Z) (bytes : list Z) (rules : list PackedRule) (acc : list ConstHit) : Hits :=
  match rules with
  | [] => (acc, false)
  | r :: rest =>
      if bool_decide (pr_bytes r = []) || (length bytes <? length (pr_bytes r))%nat then scan_rules cap base bytes rest acc
      else
        let '(acc, truncated) := scan_windows cap r base 0 bytes acc in
        if truncated then (acc, true) else scan_rules cap base bytes rest acc
  end.

Section Scan.
Context {B : Type} `{IdaBackend B} (backend : B).

(** The bytes of a chunk; [None] ends the segment. *)
Definition read_chunk (base want : Z) : outcome (option (list Z)) :=
  match get_bytes backend base want with
  | inl _ => Done None
  | inr b =>
      match as_str (b @@ "hex") with
      | None => Done None
      | Some hex => d <~ decode_hex hex; Done (match d with Some [] => None | d => d end)
      end
  end.

(** [while base < seg.end]: one turn per chunk. *)
Fixpoint scan_chunks (cap : nat) (rules : list PackedRule) (fuel : nat) (base stop : Z) (acc : list ConstHit) : outcome Hits :=
  if stop <=? base then Done (acc, false)
  else
    match fuel with
    | O => OutOfFuel
    | S fuel' =>
        let want := Z.min CHUNK (stop - base) in
        chunk <~ read_chunk base want;
        match chunk with
        | None => Done (acc, false)
        | Some bytes =>
            let '(acc, truncated) := scan_rules cap base bytes rules acc in
            if truncated then Done (acc, true) else scan_chunks cap rules fuel' (base + want) stop acc
        end
    end.

Definition skip_segment (s : SegmentInfo) : bool :=
  let size := saturating_sub (seg_end s) (seg_start s) in
  (size =? 0) || (MAX_SEGMENT <? size)
  || (contains "x" (seg_perms s) && negb (contains "w" (seg_perms s)) && negb (contains "r" (seg_perms s))).

Definition segment_fuel (s : SegmentInfo) : nat := Z.to_nat (seg_end s - seg_start s).

Fixpoint scan_segments (cap : nat) (rules : list PackedRule) (segs : list SegmentInfo) (acc : list ConstHit) : outcome Hits :=
  match segs with
  | [] => Done (acc, false)
  | s :: rest =>
      if skip_segment s then scan_segments cap rules rest acc
      else
        r <~ scan_chunks cap rules (segment_fuel s) (seg_start s) (seg_end s) acc;
        if (r.2 : bool) then Done (r.1, true) else scan_segments cap rules rest r.1
  end.

(** [b.confidence.total_cmp(&a.confidence).then(a.ea.cmp(&b.ea))]: not after. *)
Definition ranked (x y : ConstHit) : bool :=
  match SFcompare (hit_confidence y) (hit_confidence x) with
  | Some Lt => true
  | Some Gt => false
  | _ => hit_ea x <=? hit_ea y
  end.
Definition rank (l : list ConstHit) : list ConstHit := sort_by ranked l.

(** The function that starts last before a hit, when its range reaches it. *)
Definition containing_function (idx : AnalysisIndex) (ea : Z) : option (Z * FunctionFacts) :=
  match last_at_most idx ea with
  | Some (start, f) => if ea <=? ff_end f then Some (start, f) else None
  | None => None
  end.

Definition hit_json (idx : AnalysisIndex) (h : ConstHit) : Value :=
  let f := containing_function idx (hit_ea h) in
  JObj [("kind", JStr "crypto_constant"); ("rule", JStr (hit_name h)); ("label", JStr (hit_label h));
        ("ea", JStr (show_0x (hit_ea h))); ("table_size", JNum (hit_size h));
        ("confidence", JStr (show_f2 (hit_confidence h)));
        ("containing_function", JArr (match f with Some (start, _) => [JStr (show_0x start)] | None => [] end));
        ("callers", JArr (match f with
           | Some (_, f) => (fun c => JStr (show_0x c)) <$> dedup (sort_by_key id (callers f))
           | None => []
           end));
        ("pack", JStr (hit_pack h)); ("pack_sha256", JStr (hit_sha h))].

Definition crypto_scan (segments : Result (list SegmentInfo)) (idx : AnalysisIndex) (max_hits : nat) (rules : option RuleSet)
  : outcome (Result Value) :=
  match segments with
  | inl e => Done (Err e)
  | inr segs =>
      r <~ scan_segments (max_hits * 4) (packed_rules rules) segs [];
      Done (Ok (JObj [("kind", JStr "crypto_scan"); ("findings", JArr (hit_json idx <$> take max_hits (rank r.1)));
                      ("truncated", JBool r.2); ("packs", jnat (length CONST_PACKS));
                      ("note", JStr "ranked by confidence; callers come from the analysis index")]))
  end.
End Scan.

(** ** Recovered strings *)

(** [v.to_le_bytes()] of a [u64]. *)
Definition le_bytes (v : Z) : list Z := (fun k => Z.land (Z.shiftr v (8 * Z.of_nat k)) 255) <$> seq 0 8.

(** A [cot_num] row's site and value. *)
Definition immediate (row : Value) : list (Z * Z) :=
  if bool_decide (as_bool (row @@ "is_expr") = Some true) && bool_decide (as_u64 (row @@ "op") = Some 68)
  then pair (default 0 (as_u64 (row @@ "ea"))) <$> le_bytes (default 0 (as_u64 (row @@ "c")))
  else [].
Definition immediates (rows : list Value) : list (Z * Z) := concat (immediate <$> rows).

Definition printable (b : Z) : bool := (0x20 <=? b) && (b <? 0x7f).

Definition MIN_RUN : nat := 4.

(** The loop over the stream; [run] is the open run, from [run_start] to here.
    The cap breaks out with the run still open. *)
Fixpoint scan_runs (max : nat) (stream : list (Z * Z)) (run : option (list (Z * Z))) (out : list (list (Z * Z)))
  : option (list (Z * Z)) * list (list (Z * Z)) :=
  match stream with
  | [] => (run, out)
  | x :: rest =>
      if printable x.2 then scan_runs max rest (Some (default [] run ++ [x])) out
      else match run with
           | None => scan_runs max rest None out
           | Some r =>
               if (MIN_RUN <=? length r)%nat then
                 let out := out ++ [r] in
                 if (max <=? length out)%nat then (Some r, out) else scan_runs max rest None out
               else scan_runs max rest None out
           end
  end.

(** With the run at the end of the stream. *)
Definition recovered_runs (max : nat) (stream : list (Z * Z)) : list (list (Z * Z)) :=
  let '(run, out) := scan_runs max stream None [] in
  match run with
  | Some r => if (MIN_RUN <=? length r)%nat && (length out <? max)%nat then out ++ [r] else out
  | None => out
  end.

Definition run_json (r : list (Z * Z)) : Value :=
  JObj [("value", JStr (of_codes (snd <$> r))); ("technique", JStr "stack_or_array_immediates");
        ("sites", JArr ((fun x => JStr (show_0x x.1)) <$> r));
        ("confidence", JStr (if (6 <=? length r)%nat then "0.8" else "0.6"))].

(** [hr]: the answer of [backend.hr_cfunc(target, true, false, 8_000)]. *)
Definition recover_strings (hr : Result Value) (idx : AnalysisIndex) (target : Z) (max_strings : nat) : Result Value :=
  match functions idx !! target with
  | None => Err (Worker ("no function at " +:+ show_0x target))
  | Some f =>
      v <-? hr;
      Ok (match as_array (v @@ "ctree") with
          | None => JObj [("target", JStr (show_0x target)); ("strings", JArr []); ("note", JStr "no ctree available")]
          | Some rows =>
              JObj [("target", JStr (show_0x target)); ("name", JStr (ff_name f));
                    ("strings", JArr (run_json <$> recovered_runs max_strings (immediates rows)));
                    ("callers", JArr ((fun c => JStr (show_0x c)) <$> callers f));
                    ("note", JStr "recovered from immediate-store analysis; the IDB is not patched")]
          end)
  end.

(** ** What a scan finds *)

(** The reference: the offsets at which a pattern occurs. *)
Definition occurrences (pat bytes : list Z) : list nat :=
  filter (fun i => take (length pat) (drop i bytes) = pat) (seq 0 (length bytes)).

Definition chunk_hits (rules : list PackedRule) (base : Z) (bytes : list Z) : list ConstHit :=
  r ← rules; if bool_decide (pr_bytes r = []) then [] else (fun i => hit_at r (wrapping_add64 base (Z.of_nat i))) <$> occurrences (pr_bytes r) bytes.

(** The first [cap] of a stream of hits, and whether there were so many. *)
Definition capped (cap : nat) (hs : list ConstHit) : Hits := (take cap hs, (cap <=? length hs)%nat).

Lemma occurrences_cons pat x bs :
  occurrences pat (x :: bs) =
  (if bool_decide (take (length pat) (x :: bs) = pat) then [0%nat] else []) ++ (S <$> occurrences pat bs).
Proof.
  unfold occurrences. cbn [length seq]. rewrite filter_cons, <- fmap_S_seq, filter_fmap, drop_0.
  replace (filter _ (seq 0 (length bs))) with (filter (fun i => take (length pat) (drop i bs) = pat) (seq 0 (length bs)))
    by (apply list_filter_iff; intros i; reflexivity).
  case_decide; [rewrite bool_decide_eq_true_2 by assumption | rewrite bool_decide_eq_false_2 by assumption]; reflexivity.
Qed.

Lemma elem_of_occurrences pat bytes i :
  pat <> [] -> i ∈ occurrences pat bytes <-> take (length pat) (drop i bytes) = pat.
Proof.
  intros Hne. unfold occurrences. rewrite list_elem_of_filter, elem_of_seq. split; [tauto |]. intros E. split; [exact E |].
  split; [lia |]. destruct (decide (i < length bytes)%nat) as [| Hge]; [assumption |].
  rewrite drop_ge in E by lia. rewrite take_nil in E. congruence.
Qed.

Lemma occurrences_short pat bytes : (length bytes < length pat)%nat -> occurrences pat bytes = [].
Proof.
  intros Hlt. unfold occurrences. apply filter_none. intros i _ E.
  apply (f_equal length) in E. rewrite length_take, length_drop in E. lia.
Qed.

Section Capped.
Context (cap : nat).
Abbreviation C := (cap `max` 1)%nat.

(** One capped stream after another. *)
Lemma capped_then acc hs1 hs2 (G : list ConstHit -> Hits) :
  (forall a, (length a < C)%nat -> G a = capped C (a ++ hs2)) ->
  (let '(a, t) := capped C (acc ++ hs1) in if t then (a, true) else G a) = capped C (acc ++ hs1 ++ hs2).
Proof using Type.
  intros HG. unfold capped at 1. destruct (Nat.leb_spec C (length (acc ++ hs1))) as [Hle | Hlt].
  - unfold capped. rewrite app_assoc, (take_app_le (acc ++ hs1)) by exact Hle.
    replace (_ <=? length ((acc ++ hs1) ++ hs2))%nat with true; [reflexivity |].
    symmetry. apply Nat.leb_le. rewrite length_app. lia.
  - rewrite take_ge by lia. rewrite HG by exact Hlt. by rewrite app_assoc.
Qed.

Lemma capped_one acc h hs (G : list ConstHit -> Hits) :
  (length acc < C)%nat -> (forall a, (length a < C)%nat -> G a = capped C (a ++ hs)) ->
  (if (cap <=? length (acc ++ [h]))%nat then (acc ++ [h], true) else G (acc ++ [h])) = capped C (acc ++ h :: hs).
Proof using Type.
  intros Ha HG. change (h :: hs) with ([h] ++ hs).
  rewrite <- (capped_then acc [h] hs G HG). unfold capped. rewrite length_app. cbn [length].
  destruct (Nat.leb_spec cap (length acc + 1)); destruct (Nat.leb_spec C (length acc + 1)); try lia;
    (rewrite take_ge; [reflexivity |]; rewrite length_app; cbn [length]; lia).
Qed.

Lemma scan_windows_capped r base i bytes acc :
  (length acc < C)%nat ->
  scan_windows cap r base i bytes acc =
  capped C (acc ++ ((fun k => hit_at r (wrapping_add64 base (Z.of_nat (i + k)))) <$> occurrences (pr_bytes r) bytes)).
Proof using Type.
  revert i acc. induction bytes as [| x bs IH]; intros i acc Ha; cbn [scan_windows].
  { unfold occurrences. simpl. rewrite app_nil_r. unfold capped. rewrite take_ge by lia.
    destruct (Nat.leb_spec C (length acc)); [lia | reflexivity]. }
  rewrite occurrences_cons, fmap_app, <- list_fmap_compose.
  assert (Hs : ((fun k => hit_at r (wrapping_add64 base (Z.of_nat (i + k)))) ∘ S <$> occurrences (pr_bytes r) bs)
               = ((fun k => hit_at r (wrapping_add64 base (Z.of_nat (S i + k)))) <$> occurrences (pr_bytes r) bs)).
  { apply list_fmap_ext. intros ? k _. unfold compose. do 3 f_equal. lia. }
  rewrite Hs. case_bool_decide; cbn [fmap list_fmap app].
  - rewrite Nat.add_0_r. apply (capped_one _ _ _ (fun a => scan_windows cap r base (S i) bs a)); [exact Ha |].
    intros a Hl. by apply IH.
  - by apply IH.
Qed.

Lemma scan_rules_capped base bytes rules acc :
  (length acc < C)%nat -> scan_rules cap base bytes rules acc = capped C (acc ++ chunk_hits rules base bytes).
Proof using Type.
  revert acc. induction rules as [| r rules IH]; intros acc Ha; cbn [scan_rules].
  { simpl. rewrite app_nil_r. unfold capped. rewrite take_ge by lia.
    destruct (Nat.leb_spec C (length acc)); [lia | reflexivity]. }
  unfold chunk_hits. cbn [mbind list_bind]. fold (chunk_hits rules base bytes).
  case_bool_decide as Hnil; cbn [orb]; [by apply IH |].
  destruct (Nat.ltb_spec (length bytes) (length (pr_bytes r))) as [Hs | _].
  { rewrite occurrences_short by exact Hs. by apply IH. }
  rewrite scan_windows_capped by exact Ha. cbn [Nat.add]. apply capped_then. intros a Hl. by apply IH.
Qed.
End Capped.

(** The chunks of the segments, in order, as far as they can be read. *)
Section Reads.
Context {B : Type} `{IdaBackend B} (backend : B).

Fixpoint segment_reads (fuel : nat) (base stop : Z) : list (Z * list Z) :=
  if stop <=? base then []
  else
    match fuel with
    | O => []
    | S fuel' =>
        let want := Z.min CHUNK (stop - base) in
        match read_chunk backend base want with
        | Done (Some bytes) => (base, bytes) :: segment_reads fuel' (base + want) stop
        | _ => []
        end
    end.

Definition all_reads (segs : list SegmentInfo) : list (Z * list Z) :=
  s ← segs; if skip_segment s then [] else segment_reads (segment_fuel s) (seg_start s) (seg_end s).

Definition all_hits (rules : list PackedRule) (segs : list SegmentInfo) : list ConstHit :=
  c ← all_reads segs; chunk_hits rules c.1 c.2.

(** A hit is an occurrence of the pattern of a rule inside one chunk. *)
Lemma elem_of_all_hits rules segs h :
  h ∈ all_hits rules segs <->
  exists base bytes r i, (base, bytes) ∈ all_reads segs /\ r ∈ rules /\ pr_bytes r <> [] /\
    take (length (pr_bytes r)) (drop i bytes) = pr_bytes r /\ h = hit_at r (wrapping_add64 base (Z.of_nat i)).
Proof using Type.
  unfold all_hits, chunk_hits. rewrite list_elem_of_bind. split.
  - intros ([base bytes] & Hh & Hr). apply list_elem_of_bind in Hh as (r & Hh & Hin). cbn [fst snd] in Hh.
    case_bool_decide as Hn; [inversion Hh |]. apply list_elem_of_fmap in Hh as (i & -> & Hi).
    exists base, bytes, r, i. apply elem_of_occurrences in Hi; auto.
  - intros (base & bytes & r & i & Hread & Hin & Hn & Ho & ->). exists (base, bytes). split; [| exact Hread].
    apply list_elem_of_bind. exists r. split; [| exact Hin]. rewrite bool_decide_eq_false_2 by exact Hn.
    apply list_elem_of_fmap. exists i. split; [reflexivity |]. by apply elem_of_occurrences.
Qed.

Context (no_panic : forall base want, read_chunk backend base want <> Panic).
Context (cap : nat) (rules : list PackedRule).
Abbreviation C := (cap `max` 1)%nat.

Lemma hex_pairs_fuel t i s : hex_pairs t i s <> OutOfFuel.
Proof using Type.
  revert i. induction s as [s IH] using (induction_ltof1 _ String.length). intros i.
  destruct s as [| a [| b s]]; cbn [hex_pairs]; try discriminate. destruct (_ && _); [| discriminate].
  destruct (from_str_radix _ _ _); [discriminate |].
  specialize (IH s ltac:(unfold ltof; simpl; lia) (i + 2)%nat). by destruct (hex_pairs t (i + 2) s).
Qed.

Lemma read_chunk_done base want : exists c, read_chunk backend base want = Done c.
Proof using no_panic.
  specialize (no_panic base want). destruct (read_chunk backend base want) as [c | |] eqn:E; [by exists c | done |].
  exfalso. unfold read_chunk in E. destruct (get_bytes backend base want) as [| b]; [discriminate |].
  destruct (as_str _); [| discriminate]. destruct (decode_hex _) as [[[] |] | |] eqn:D; try discriminate.
  unfold decode_hex in D. destruct (Nat.even _); [| discriminate]. by apply hex_pairs_fuel in D.
Qed.

(** The outcome of a capped pass. *)
Lemma capped_then_outcome acc hs1 hs2 (G : list ConstHit -> outcome Hits) :
  (forall a, (length a < C)%nat -> G a = Done (capped C (a ++ hs2))) ->
  (let '(a, t) := capped C (acc ++ hs1) in if t then Done (a, true) else G a) = Done (capped C (acc ++ hs1 ++ hs2)).
Proof using Type.
  intros HG. rewrite <- (capped_then cap acc hs1 hs2 (fun a => capped C (a ++ hs2))) by done.
  set (c := capped C (acc ++ hs1)). destruct c as [a t] eqn:E. destruct t; [reflexivity |].
  apply HG. injection E as <- Hl. apply Nat.leb_gt in Hl. by rewrite take_ge by lia.
Qed.

Lemma scan_chunks_capped fuel base stop acc :
  stop - base <= Z.of_nat fuel -> (length acc < C)%nat ->
  scan_chunks backend cap rules fuel base stop acc =
  Done (capped C (acc ++ (c ← segment_reads fuel base stop; chunk_hits rules c.1 c.2))).
Proof using no_panic.
  assert (Hdone : forall acc, (length acc < C)%nat -> Done (acc, false) = Done (capped C (acc ++ []))).
  { intros a Ha. rewrite app_nil_r. unfold capped. rewrite take_ge by lia.
    destruct (Nat.leb_spec C (length a)); [lia | reflexivity]. }
  revert base acc. induction fuel as [| fuel IH]; intros base acc Hf Ha; cbn [scan_chunks segment_reads];
    destruct (Z.leb_spec stop base); try lia; try by apply Hdone.
  destruct (read_chunk_done base (Z.min CHUNK (stop - base))) as [[bytes |] E]; rewrite E; cbn [obind]; [| by apply Hdone].
  rewrite scan_rules_capped by exact Ha. cbn [mbind list_bind]. apply capped_then_outcome. intros a Hl.
  apply IH; [| exact Hl]. unfold CHUNK. lia.
Qed.

Lemma scan_segments_capped segs acc :
  (length acc < C)%nat -> scan_segments backend cap rules segs acc = Done (capped C (acc ++ all_hits rules segs)).
Proof using no_panic.
  revert acc. induction segs as [| s segs IH]; intros acc Ha; cbn [scan_segments].
  { rewrite app_nil_r. unfold capped. rewrite take_ge by lia. destruct (Nat.leb_spec C (length acc)); [lia | reflexivity]. }
  unfold all_hits, all_reads. cbn [mbind list_bind]. fold (all_reads segs). destruct (skip_segment s); [by apply IH |].
  rewrite scan_chunks_capped by (exact Ha || unfold segment_fuel; lia). rewrite bind_app. cbn [obind].
  rewrite <- (capped_then_outcome _ _ (all_hits rules segs) (fun a => scan_segments backend cap rules segs a)) by (intros; by apply IH).
  by destruct (capped _ _).
Qed.
End Reads.

(** ** Ranking *)

Lemma ranked_total x y : ranked x y = false -> ranked y x = true.
Proof.
  unfold ranked. rewrite (SFcompare_antisym (hit_confidence y)). destruct (SFcompare _ _) as [[] |]; cbn; intros E; try done;
    apply Z.leb_gt in E; apply Z.leb_le; lia.
Qed.

(** ** Bytes on the wire *)

Definition is_byte (b : Z) : Prop := 0 <= b < 256.
Definition hex_text (bs : list Z) : string := join "" (hex2 <$> bs).

Lemma hex2_check : forallb (fun n => let s := hex2 (Z.of_nat n) in
    all_chars is_graphic s && match from_str_radix 16 255 s with inr x => x =? Z.of_nat n | inl _ => false end) (seq 0 256) = true.
Proof. vm_compute. reflexivity. Qed.

Lemma hex2_byte b : is_byte b -> all_chars is_graphic (hex2 b) = true /\ from_str_radix 16 255 (hex2 b) = inr b.
Proof.
  intros Hb. pose proof hex2_check as H. rewrite forallb_forall in H. specialize (H (Z.to_nat b)).
  rewrite Z2Nat.id in H by (unfold is_byte in Hb; lia). cbv zeta in H. rewrite andb_true_iff in H.
  destruct H as [Hg Hr]; [apply in_seq; unfold is_byte in Hb; lia |]. split; [exact Hg |].
  destruct (from_str_radix _ _ _); [discriminate |]. apply Z.eqb_eq in Hr. congruence.
Qed.

Lemma hex_text_cons b bs : hex_text (b :: bs) = hex2 b +:+ hex_text bs.
Proof. unfold hex_text. cbn [fmap list_fmap]. destruct bs; [by rewrite append_nil_r | reflexivity]. Qed.

Lemma hex_text_graphic bs : Forall is_byte bs -> all_chars is_graphic (hex_text bs) = true.
Proof.
  induction 1 as [| b bs Hb _ IH]; [reflexivity |]. rewrite hex_text_cons, all_chars_app, IH.
  by rewrite (proj1 (hex2_byte b Hb)).
Qed.

Lemma length_hex_text bs : String.length (hex_text bs) = (2 * length bs)%nat.
Proof. induction bs as [| b bs IH]; [reflexivity |]. rewrite hex_text_cons. change (S (S (String.length (hex_text bs))) = (2 * S (length bs))%nat). rewrite IH. lia. Qed.

Lemma hex_pairs_text t i bs :
  Forall is_byte bs -> all_chars is_graphic t = true -> (i + 2 * length bs <= String.length t)%nat ->
  hex_pairs t i (hex_text bs) = Done (Some bs).
Proof.
  intros Hbs Ht. revert i. induction Hbs as [| b bs Hb _ IH]; intros i Hi; [reflexivity |]. cbn [length] in Hi.
  rewrite hex_text_cons.
  change (hex_pairs t i (hex2 b +:+ hex_text bs)) with
    (if is_char_boundary t i && is_char_boundary t (i + 2)
     then match from_str_radix 16 255 (hex2 b) with
          | inr x => r <~ hex_pairs t (i + 2) (hex_text bs); Done (match r with Some l => Some (x :: l) | None => None end)
          | inl _ => Done None
          end
     else Panic).
  rewrite !is_char_boundary_graphic by (exact Ht || lia). cbn [andb]. rewrite (proj2 (hex2_byte b Hb)).
  rewrite IH by lia. reflexivity.
Qed.

Lemma decode_hex_text bs : Forall is_byte bs -> decode_hex (hex_text bs) = Done (Some bs).
Proof.
  intros Hbs. unfold decode_hex. rewrite trim_graphic by by apply hex_text_graphic. rewrite length_hex_text.
  replace (Nat.even (2 * length bs)) with true by (symmetry; apply Nat.even_spec; by exists (length bs)).
  apply hex_pairs_text; [exact Hbs | by apply hex_text_graphic |]. rewrite length_hex_text. lia.
Qed.

(** What the scan relies on of a backend: it answers with the hexadecimal text of bytes. *)
Definition serves_hex {B : Type} `{IdaBackend B} (backend : B) : Prop :=
  forall base want v, get_bytes backend base want = inr v ->
    exists bs, Forall is_byte bs /\ as_str (v @@ "hex") = Some (hex_text bs).

Lemma serves_hex_reads {B : Type} `{IdaBackend B} (backend : B) base want :
  serves_hex backend ->
  read_chunk backend base want = Done (match get_bytes backend base want with
    | inr v => match decode_hex (default "" (as_str (v @@ "hex"))) with Done (Some (b :: bs)) => Some (b :: bs) | _ => None end
    | inl _ => None end).
Proof.
  intros Hs. unfold read_chunk. destruct (get_bytes backend base want) as [e | v] eqn:G; [reflexivity |].
  destruct (Hs _ _ _ G) as (bs & Hb & ->). change (default "" (Some (hex_text bs))) with (hex_text bs).
  rewrite decode_hex_text by exact Hb. destruct bs; reflexivity.
Qed.

(** C29. [crypto_scan] over a backend that answers with hexadecimal text
    terminates without a panic and reports exactly what it should: the
    matches are those of all rules at all offsets of all chunks that could be
    read, in scan order, cut at four times the limit (at least one); the
    truncation flag says whether that cut was reached; the findings are the
    first [max_hits] of them by confidence and address. *)
Theorem crypto_scan_exact {B : Type} `{IdaBackend B} (backend : B) segs idx max_hits rules :
  serves_hex backend ->
  let matches := all_hits backend (packed_rules rules) segs in
  let kept := rank (take ((max_hits * 4) `max` 1) matches) in
  exists v, crypto_scan backend (inr segs) idx max_hits rules = Done (inr v) /\
    v @@ "findings" = JArr (hit_json idx <$> take max_hits kept) /\
    v @@ "truncated" = JBool ((max_hits * 4) `max` 1 <=? length matches)%nat /\
    kept ≡ₚ take ((max_hits * 4) `max` 1) matches /\ Sorted (fun a b => ranked a b = true) kept /\
    forall h, h ∈ matches <->
      exists base bytes r i, (base, bytes) ∈ all_reads backend segs /\ r ∈ packed_rules rules /\ pr_bytes r <> [] /\
        take (length (pr_bytes r)) (drop i bytes) = pr_bytes r /\ h = hit_at r (wrapping_add64 base (Z.of_nat i)).
Proof.
  intros Hs matches kept. unfold crypto_scan. rewrite scan_segments_capped; [| | cbn; lia].
  2:{ intros base want. rewrite serves_hex_reads by exact Hs. discriminate. }
  eexists. split; [reflexivity |]. split; [reflexivity |]. split; [reflexivity |].
  split; [apply sort_by_perm |]. split; [exact (sort_by_sorted _ ranked_total _) |]. intros h. apply elem_of_all_hits.
Qed.

(** The mock database with the head of the AES S-box in a data segment, followed by the TEA delta. *)
Definition sbox_backend : MockBackend :=
  {| open_path := Some "a.exe"; mock_revision := 0; names := ∅; comments := ∅;
     bytes := {[0x1000 := [1; 2] ++ (CONST_PACKS ≫= (fun p => if bool_decide (cp_name p = "AES S-box") then cp_bytes p else []))
                          ++ [0xb9; 0x79; 0x37; 0x9e]]};
     decompile_off := false; extra_xrefs := []; snapshots := [] |}.
Definition sbox_segment : SegmentInfo := {| seg_name := ".data"; seg_start := 0x1000; seg_end := 0x1100; seg_perms := "rw" |}.
Definition empty_index : AnalysisIndex :=
  {| schema_version := 1; binary_md5 := ""; idx_revision := 0; functions := ∅; idx_strings := [] |}.

Lemma sbox_serves : serves_hex sbox_backend.
Proof.
  intros base want v E. cbn in E. injection E as <-. eexists. split; [| reflexivity]. apply Forall_take.
  destruct (decide (base = 0x1000)) as [-> | Hne].
  - rewrite lookup_singleton_eq. repeat constructor; unfold is_byte; lia.
  - rewrite lookup_singleton_ne by congruence. constructor.
Qed.

Lemma crypto_scan_exact_witness :
  serves_hex sbox_backend /\
  (fun h => (hit_ea h, hit_label h)) <$> all_hits sbox_backend (packed_rules None) [sbox_segment]
    = [(0x1002, "AES S-box"); (0x1012, "TEA/XTEA delta")] /\
  exists v, crypto_scan sbox_backend (inr [sbox_segment]) empty_index 10 None = Done (inr v) /\ v @@ "truncated" = JBool false.
Proof.
  split; [exact sbox_serves |]. split; [vm_compute; reflexivity |].
  destruct (crypto_scan_exact sbox_backend [sbox_segment] empty_index 10 None sbox_serves) as (v & E & _ & Ht & _).
  exists v. split; [exact E |]. rewrite Ht. vm_compute. reflexivity.
Defined.

(** ** The fallback pack scans for the compiled-in constants *)

(** A hit without the pack it is attributed to. *)
Definition hit_content (h : ConstHit) : Z * string * string * Z * f64 :=
  (hit_ea h, hit_name h, hit_label h, hit_size h, hit_confidence h).
Definition rule_content (r : PackedRule) : string * string * list Z * Z * f64 :=
  (pr_label r, pr_id r, pr_bytes r, pr_size r, pr_rarity r).

Lemma chunk_hits_content rules1 rules2 base bytes :
  rule_content <$> rules1 = rule_content <$> rules2 ->
  hit_content <$> chunk_hits rules1 base bytes = hit_content <$> chunk_hits rules2 base bytes.
Proof.
  revert rules2. induction rules1 as [| r1 rules1 IH]; intros [| r2 rules2] E; try discriminate; [reflexivity |].
  cbn [fmap list_fmap] in E. injection E as El Ei Eb Es Er E. unfold chunk_hits. cbn [mbind list_bind]. rewrite !fmap_app.
  f_equal; [| by apply IH]. rewrite Eb. case_bool_decide; [reflexivity |]. rewrite <- !list_fmap_compose.
  apply list_fmap_ext. intros ? i _. unfold compose, hit_content, hit_at. cbn. congruence.
Qed.

Lemma builtin_packs_content :
  exists set, builtin_packs = Done (inr set) /\ rule_content <$> packed_rules (Some set) = rule_content <$> packed_rules None.
Proof. eexists. split; vm_compute; reflexivity. Qed.

(** Without a rule directory the effective rule set is the compiled-in
    one: loading succeeds, and over every backend and segment list the scan
    has the same matches (address, rule, label, table size, confidence, in
    the same order) as the scan with the compiled-in constants. *)
Theorem fallback_scans_builtin {B : Type} `{IdaBackend B} (backend : B) parse_json segs :
  exists set, load_effective parse_json None = Done (inr set) /\
    hit_content <$> all_hits backend (packed_rules (Some set)) segs =
    hit_content <$> all_hits backend (packed_rules None) segs.
Proof.
  destruct builtin_packs_content as (set & E & Hc). exists set. split; [exact E |]. unfold all_hits.
  induction (all_reads backend segs) as [| [base bytes] reads IH]; [reflexivity |].
  cbn [mbind list_bind fst snd]. rewrite !fmap_app. f_equal; [by apply chunk_hits_content | exact IH].
Qed.

(** ** API hashes *)

Definition hashes_to (name : string) (h : CorpusHit) (key : Z) : Prop :=
  exists a, a ∈ ALGOS /\ ch_algo h = ha_name a /\ ch_name h = name /\ ch_wide h = ha_wide a /\
    key = ha_compute a (normalize_name (ha_wide a) name).

Lemma add_algos_spec algos name c key h :
  h ∈ default [] (foldl (add_hash name) c algos !! key) <->
  h ∈ default [] (c !! key) \/
  exists a, a ∈ algos /\ h = {| ch_algo := ha_name a; ch_name := name; ch_wide := ha_wide a |} /\
    key = ha_compute a (normalize_name (ha_wide a) name).
Proof.
  revert c. induction algos as [| a algos IH]; intros c; cbn [foldl].
  { split; [tauto |]. intros [? | (a & Ha & _)]; [assumption | inversion Ha]. }
  rewrite IH. clear IH. unfold add_hash. cbv zeta. set (k := ha_compute a _). destruct (decide (k = key)) as [<- | Hne].
  - rewrite lookup_insert_eq. cbn [default id]. rewrite elem_of_app, list_elem_of_singleton. split.
    + intros [[? | ->] | (b & Hb & ? & ?)]; [by left | right; exists a | right; exists b]; split_and!; try done; by constructor.
    + intros [? | (b & Hb & -> & E)]; [auto |]. inversion Hb; subst; [auto |]. right. by exists b.
  - rewrite lookup_insert_ne by exact Hne. split.
    + intros [? | (b & Hb & ? & ?)]; [by left |]. right. exists b. split_and!; try done. by constructor.
    + intros [? | (b & Hb & -> & E)]; [auto |]. inversion Hb; subst; [done |]. right. by exists b.
Qed.

Lemma add_name_spec c name key h :
  h ∈ default [] (add_name c name !! key) <-> h ∈ default [] (c !! key) \/ hashes_to name h key.
Proof.
  unfold add_name. rewrite add_algos_spec. apply or_iff_compat_l. unfold hashes_to.
  split; intros (a & Ha & Hh & Hrest); exists a.
  - subst h. by split_and!.
  - destruct h; cbn in *. split_and!; [done | destruct Hrest as (? & ? & ?); congruence | tauto].
Qed.

Lemma corpus_spec names key h :
  h ∈ default [] (foldl add_name ∅ names !! key) <-> exists name, name ∈ names /\ hashes_to name h key.
Proof.
  enough (forall c, h ∈ default [] (foldl add_name c names !! key) <->
            h ∈ default [] (c !! key) \/ exists name, name ∈ names /\ hashes_to name h key) as E.
  { rewrite E, lookup_empty. cbn. split; [intros [Hn | ?]; [inversion Hn | assumption] | by right]. }
  induction names as [| n names IH]; intros c; cbn [foldl].
  { split; [by left | intros [? | (? & Hn & _)]; [assumption | inversion Hn]]. }
  rewrite IH, add_name_spec. setoid_rewrite elem_of_cons. naive_solver.
Qed.

Lemma verify_constants_sound corpus cs acc :
  let out := verify_constants corpus cs acc in
  (forall key h, (key, h) ∈ out -> (key, h) ∈ acc \/ exists c, c ∈ cs /\ key = c mod u32_modulus /\ h ∈ default [] (corpus !! key)) /\
  ((length acc < 8)%nat -> (length out <= 11)%nat) /\ (length acc <= length out)%nat /\
  (acc = [] -> forall c, c ∈ cs -> default [] (corpus !! (c mod u32_modulus)) <> [] -> out <> []).
Proof.
  revert acc. induction cs as [| c cs IH]; intros acc; cbn [verify_constants]; cbv zeta.
  { split_and!; [tauto | lia | lia | intros _ c Hc; inversion Hc]. }
  set (acc' := acc ++ _).
  assert (Hlen : (length acc <= length acc')%nat /\ (length acc' <= length acc + 4)%nat).
  { unfold acc'. rewrite length_app, length_fmap, length_take. lia. }
  assert (Hin : forall key h, (key, h) ∈ acc' -> (key, h) ∈ acc \/ exists d, d ∈ c :: cs /\ key = d mod u32_modulus /\ h ∈ default [] (corpus !! key)).
  { intros key h Hk. apply elem_of_app in Hk as [? | Hk]; [by left |]. right. apply list_elem_of_fmap in Hk as (h' & E & Hh).
    injection E as -> ->. exists c. split_and!; [constructor | done |]. by eapply elem_of_take_1 || (apply elem_of_take in Hh as (? & Hh & _); by apply list_elem_of_lookup_2 in Hh). }
  assert (Hne : forall d, default [] (corpus !! (d mod u32_modulus)) <> [] -> d = c -> acc' <> []).
  { intros d Hd ->. unfold acc'. destruct (default [] _); [done |]. cbn. by destruct acc. }
  destruct (Nat.leb_spec 8 (length acc')) as [H8 | H8].
  { split_and!; [exact Hin | lia | lia | intros _ d _ _ ->; cbn in H8; lia]. }
  destruct (IH acc') as (H1 & H2 & H3 & H4). split_and!; [| lia | lia |].
  - intros key h Hk. apply H1 in Hk as [Hk | (d & Hd & ? & ?)]; [by apply Hin |]. right. exists d. split_and!; try done. by constructor.
  - intros _ d Hd Hc. destruct (decide (acc' = [])) as [E | E].
    + inversion Hd; subst; [by destruct (Hne c Hc eq_refl) |]. by eapply H4.
    + intros Hn. rewrite Hn in H3. destruct acc'; [done | cbn in H3; lia].
Qed.

Lemma resolver_of_spec corpus ea f r :
  resolver_of corpus ea f = Some r <->
  saturating_sub (ff_end f) ea <= 0x800 /\ (2 <= length (constants f))%nat /\ verify_constants corpus (constants f) [] <> [] /\
  r = {| rs_ea := ea; rs_facts := f; rs_verified := verify_constants corpus (constants f) [] |}.
Proof.
  unfold resolver_of. destruct (Z.ltb_spec 0x800 (saturating_sub (ff_end f) ea)).
  { split; [discriminate | lia]. }
  destruct (Nat.ltb_spec (length (constants f)) 2). { split; [discriminate | lia]. }
  destruct (verify_constants corpus (constants f) []); naive_solver lia.
Qed.


(** A resolver with the ROR-13 hash of an imported name. *)
Definition resolver_index : AnalysisIndex :=
  {| schema_version := 1; binary_md5 := ""; idx_revision := 0; idx_strings := [];
     functions := {[0x1000 := {| ff_start := 0x1000; ff_end := 0x1040; ff_name := "resolve"; demangled := ""; ff_size := 0x40; imports := [];
       ff_strings := []; constants := [0x10; ror13_add (normalize_name false "LoadLibraryA")]; indirect_calls := 0; callees := [];
       callers := []; globals := [] |}]} |}.
Definition kernel_imports : Value :=
  JObj [("modules", JArr [JObj [("entries", JArr [JObj [("name", JStr "LoadLibraryA")]])]])].


(** The standard check value of CRC-32. *)
Example crc32_check : crc32 (bytes_of "123456789") = 0xCBF43926.
Proof. vm_compute. reflexivity. Qed.

(** ** Recovered strings are the printable pieces of the stream *)

(** The reference: the stream cut at its unprintable bytes. *)
Fixpoint pieces (stream : list (Z * Z)) : list (list (Z * Z)) :=
  match stream with
  | [] => [[]]
  | x :: rest =>
      if printable x.2 then match pieces rest with p :: ps => (x :: p) :: ps | [] => [[x]] end
      else [] :: pieces rest
  end.

Abbreviation long p := (MIN_RUN <= length p)%nat.

Lemma pieces_cons_inv stream : exists p ps, pieces stream = p :: ps.
Proof. destruct stream as [| x rest]; cbn [pieces]; [eauto |]. destruct (printable x.2); [| eauto]. destruct (pieces rest); eauto. Qed.

(** The pieces with an open run before them. *)
Definition pieces_from (r : list (Z * Z)) (stream : list (Z * Z)) : list (list (Z * Z)) :=
  match pieces stream with p :: ps => (r ++ p) :: ps | [] => [r] end.

Lemma pieces_from_printable r x rest :
  printable x.2 = true -> pieces_from r (x :: rest) = pieces_from (r ++ [x]) rest.
Proof.
  intros Hp. unfold pieces_from. cbn [pieces]. rewrite Hp. destruct (pieces_cons_inv rest) as (p & ps & ->).
  by rewrite <- app_assoc.
Qed.
Lemma pieces_from_other r x rest : printable x.2 = false -> pieces_from r (x :: rest) = r :: pieces_from [] rest.
Proof.
  intros Hp. unfold pieces_from. cbn [pieces]. rewrite Hp, app_nil_r. by destruct (pieces_cons_inv rest) as (p & ps & ->).
Qed.

Definition finish_runs (max : nat) (s : option (list (Z * Z)) * list (list (Z * Z))) : list (list (Z * Z)) :=
  match s.1 with
  | Some r => if (MIN_RUN <=? length r)%nat && (length s.2 <? max)%nat then s.2 ++ [r] else s.2
  | None => s.2
  end.

Lemma scan_runs_pieces max stream run out :
  (length out < max)%nat -> run <> Some [] ->
  finish_runs max (scan_runs max stream run out) =
  take max (out ++ filter (fun p => long p) (pieces_from (default [] run) stream)).
Proof.
  revert run out. induction stream as [| x rest IH]; intros run out Hl Hr; cbn [scan_runs].
  - unfold pieces_from. cbn [pieces]. rewrite app_nil_r. unfold finish_runs. cbn [fst snd].
    destruct run as [r |]; cbn [default id]; rewrite filter_cons; cbn [filter list_filter].
    + destruct (Nat.leb_spec MIN_RUN (length r)); cbn [andb].
      * rewrite (proj2 (Nat.ltb_lt _ _) Hl), decide_True by assumption. rewrite take_ge; [reflexivity |]. rewrite length_app. cbn. lia.
      * rewrite decide_False by lia. rewrite app_nil_r, take_ge; [reflexivity | lia].
    + rewrite decide_False by (unfold MIN_RUN; cbn; lia). rewrite app_nil_r, take_ge; [reflexivity | lia].
  - destruct (printable x.2) eqn:Hp.
    { rewrite IH; [| exact Hl | destruct run as [[|] |]; discriminate]. rewrite pieces_from_printable by exact Hp. by destruct run. }
    rewrite pieces_from_other, filter_cons by exact Hp.
    destruct run as [r |]; cbn [default id].
    2:{ rewrite decide_False by (unfold MIN_RUN; cbn; lia). by apply IH. }
    destruct (Nat.leb_spec MIN_RUN (length r)) as [Hm | Hm]; [| rewrite decide_False by lia; by apply IH].
    rewrite decide_True, (cons_middle r out (filter _ _)), app_assoc by exact Hm.
    destruct (Nat.leb_spec max (length (out ++ [r]))) as [Hle | Hlt].
    + unfold finish_runs. cbn [fst snd]. rewrite (proj2 (Nat.ltb_ge _ _) Hle), andb_false_r.
      rewrite (take_app_le (out ++ [r])) by exact Hle. rewrite take_ge; [reflexivity |]. rewrite length_app. cbn. lia.
    + by apply IH.
Qed.

(** String recovery is exact: for a known function with a ctree and a
    positive limit, the strings reported are the first [max_strings] of the
    maximal printable runs of four or more bytes in the immediates of the
    ctree, in order, none joined and none split. *)
Theorem recovered_strings_exact hr rows idx target f max_strings :
  functions idx !! target = Some f -> as_array (hr @@ "ctree") = Some rows -> (1 <= max_strings)%nat ->
  exists v, recover_strings (inr hr) idx target max_strings = inr v /\
    v @@ "strings" = JArr (run_json <$> take max_strings (filter (fun p => long p) (pieces (immediates rows)))).
Proof.
  intros Hf Hr Hm. unfold recover_strings. rewrite Hf. cbn [bindR]. rewrite Hr. eexists. split; [reflexivity |].
  change (JArr (run_json <$> recovered_runs max_strings (immediates rows)) =
          JArr (run_json <$> take max_strings (filter (fun p => long p) (pieces (immediates rows))))).
  do 2 f_equal. pose proof (scan_runs_pieces max_strings (immediates rows) None []) as H. cbn [default app] in H.
  unfold pieces_from in H. destruct (pieces_cons_inv (immediates rows)) as (p & ps & E). rewrite E in *. cbn [app] in H.
  rewrite <- H by (cbn; lia || discriminate). unfold recovered_runs, finish_runs. by destruct (scan_runs _ _ _ _).
Qed.

Definition hello_ctree : Value :=
  JObj [("ctree", JArr [JObj [("is_expr", JBool true); ("op", JNum 68); ("ea", JNum 0x1004); ("c", JNum 0x6f6c6c6548)]])].

Lemma recovered_strings_exact_witness :
  map (map snd) (filter (fun p => long p) (pieces (immediates (default [] (as_array (hello_ctree @@ "ctree")))))) = [[0x48; 0x65; 0x6c; 0x6c; 0x6f]] /\
  exists v, recover_strings (inr hello_ctree) resolver_index 0x1000 8 = inr v.
Proof.
  split; [vm_compute; reflexivity |].
  destruct (recovered_strings_exact hello_ctree (default [] (as_array (hello_ctree @@ "ctree"))) resolver_index 0x1000
              (default (Build_FunctionFacts 0 0 "" "" 0 [] [] [] 0 [] [] []) (functions resolver_index !! 0x1000)) 8) as (v & E & _);
    [vm_compute; reflexivity | vm_compute; reflexivity | lia |].
  exists v. exact E.
Defined.
