(* ===== verification/Analyses.v ===== *)
(** * Analyses: the reading requests of a worker

    Models the arms of [dispatch] ([rmcp-worker/src/dispatch.rs]) that
    [Mutations] and [Worker] leave: the choice of a backend, the reports of
    the backend, and the analyses over the index, cached or not, composed
    from the components that model them; then the whole dispatcher
    ([full_dispatch]) and [handle] over it.  Parameters: the decoders and
    serializers of [Worker], the serde decoder of a signature index, the JSON
    parser of rule packs, [char::is_alphanumeric], the writing of a signature
    file, what this build links of idalib.  What differs from request to
    request outside the worker, the clock and the rule directory, is the
    [Env] each request is handled in. *)

From stdpp Require Import base list gmap strings sorting relations.
From Stdlib Require Import ZArith Lia Ascii.
From S2P Require Import Prelude Text Json Errors Protocol Bfs Index Backend Mutations Transforms Workflow Worker.
From S2P Require Import Float Rules Deep ValueAn Signatures BlockDiff BinDiff Crypto TypeRec Deob.

Local Open Scope Z_scope.
Local Open Scope rmcp_scope.

(** ** Parameters of requests *)

Definition u64_param (params : Value) (key : string) : option Z := v ← get key params; as_u64 v.
Definition str_param (params : Value) (key : string) : option string := v ← get key params; as_str v.
Definition bool_param (params : Value) (key : string) (d : bool) : bool := default d (v ← get key params; as_bool v).
Definition need_str (params : Value) (key : string) : Result string :=
  ok_or_else (str_param params key) (Worker ("missing " +:+ key)).

(** [ea_param(&params, "target").or_else(|_| ea_param(&params, "ea"))]. *)
Definition target_param (params : Value) : Result Z :=
  match ea_param params "target" with inr ea => Ok ea | inl _ => ea_param params "ea" end.

Definition ea_param_value (v : Value) : Result Z :=
  match v with
  | JStr s => parse_ea s
  | JNum _ | JFloat _ => ok_or_else (as_u64 v) (Worker "bad ea number")
  | _ => Err (Worker "bad ea value")
  end.

Definition as_f64 (v : Value) : option f64 :=
  match v with JNum n => Some (f_of_Z n) | JFloat bits => Some (f_of_bits bits) | _ => None end.

Definition usize_nat (z : Z) : nat := Z.to_nat z.

(** ** Serialized reports *)

Definition function_value (f : FunctionInfo) : Value :=
  JObj [("ea_start", JNum (ea_start f)); ("ea_end", JNum (ea_end f)); ("name", JStr (fn_name f)); ("size", JNum (fn_size f))].
Definition segment_value (s : SegmentInfo) : Value :=
  JObj [("name", JStr (seg_name s)); ("start", JNum (seg_start s)); ("end", JNum (seg_end s)); ("perms", JStr (seg_perms s))].
Definition string_value (s : StringInfo) : Value :=
  JObj [("ea", JNum (str_ea s)); ("value", JStr (str_value s)); ("length", JNum (str_length s))].
Definition xref_value (x : XrefInfo) : Value :=
  JObj [("from", JNum (xref_from x)); ("to", JNum (xref_to x)); ("kind", JStr (xref_kind x))].
Definition insn_value (i : InsnInfo) : Value :=
  JObj [("ea", JNum (insn_ea i)); ("mnemonic", JStr (mnemonic i)); ("operands", JStr (operands i)); ("text", JStr (insn_text i))].
Definition capabilities_value (c : Capabilities) : Value :=
  JObj [("decompile", JBool (cap_decompile c)); ("types", JBool (cap_types c)); ("imports_exports", JBool (cap_imports_exports c));
        ("patch_bytes", JBool (cap_patch_bytes c)); ("rename", JBool (cap_rename c)); ("comments", JBool (cap_comments c));
        ("bookmarks", JBool (cap_bookmarks c)); ("plugins", JBool (cap_plugins c)); ("ctree", JBool (cap_ctree c));
        ("lvars", JBool (cap_lvars c)); ("microcode", JBool (cap_microcode c)); ("switches", JBool (cap_switches c));
        ("fixups", JBool (cap_fixups c)); ("tails", JBool (cap_tails c)); ("sp_delta", JBool (cap_sp_delta c));
        ("file_map", JBool (cap_file_map c))].
Definition list_value {A} (f : A -> Value) (r : Result (list A)) : Result Value := l <-? r; Ok (JArr (f <$> l)).

(** ** Cache keys *)

(** What a request is handled in: the poll of a deadline [ms] milliseconds
    away, the [Debug] text of that instant, the rule directory. *)
Record Env := { poll : Z -> nat -> bool; instant_text : Z -> string; rules_dir : option (list DirEntry) }.

(** [format!("{budgets:?}")]. *)
Definition budgets_debug (env : Env) (params : Value) : string :=
  let bu := budgets_from (poll env) params in
  "DeepBudgets { depth: " +:+ (show_dec (b_depth bu) +:+
  (", max_functions: " +:+ (show_dec (Z.of_nat (b_max_functions bu)) +:+
  (", max_iterations: " +:+ (show_dec (Z.of_nat (b_max_iterations bu)) +:+
  (", max_calls: " +:+ (show_dec (b_max_calls bu) +:+
  (", deadline: " +:+ (match u64_param params "timeout_ms" with
                       | None => "None"
                       | Some ms => "Some(" +:+ (instant_text env (clamp 1000 1800000 ms) +:+ ")")
                       end +:+ " }"))))))))).

Definition walk_key (env : Env) (root : Z) (params : Value) : string :=
  show_0x root +:+ ("|" +:+ budgets_debug env params).
Definition flow_key (env : Env) (target : Z) (direction : string) (params : Value) : string :=
  show_0x target +:+ ("|" +:+ (direction +:+ ("|" +:+ budgets_debug env params))).
Definition crypto_key (max : Z) (rules : RuleSet) : string := show_dec max +:+ ("|" +:+ set_hash rules).

Definition direction_param (params : Value) : Result string :=
  let d := default "both" (str_param params "direction") in
  if one_of ["forward"; "backward"; "both"] d then Ok d
  else Err (Worker ("bad direction '" +:+ (d +:+ "' (forward|backward|both)"))).

(** [resume_from], when it is an object. *)
Definition resume_param (params : Value) : option Value :=
  match get "resume_from" params with Some (JObj kvs) => Some (JObj kvs) | _ => None end.

Definition graph_params (params : Value) : Result GraphParams :=
  let kind := default "calls" (str_param params "kind") in
  if one_of ["calls"; "cfg"] kind
  then Ok {| g_kind := kind; g_depth := default 1 (u64_param params "depth") mod u32_modulus;
             max_nodes := default 200 (u64_param params "max_nodes"); max_edges := default 400 (u64_param params "max_edges") |}
  else Err (Worker ("unknown graph kind '" +:+ (kind +:+ "' (calls|cfg)"))).

(** The addresses of [types.propose]. *)
Definition function_ea (v : Value) : Result Z :=
  match v with
  | JStr s => parse_ea s
  | JNum _ | JFloat _ => ok_or_else (as_u64 v) (Worker "bad function ea")
  | _ => Err (Worker "bad function ea")
  end.
Definition function_eas (params : Value) : Result (list Z) :=
  vs <-? ok_or_else (v ← get "functions" params; as_array v) (Worker "missing functions array");
  collect_results (function_ea <$> vs).

Definition pack_json (p : RulePack) : Value :=
  JObj [("name", JStr (pk_name p)); ("version", JStr (pk_version p)); ("source", JStr (pk_source p)); ("sha256", JStr (pk_sha256 p));
        ("enabled", JBool (pk_enabled p));
        ("rules", JObj [("constants", jnat (length (pk_constants p))); ("api_hashes", jnat (length (pk_api_hashes p)));
                        ("strings", jnat (length (pk_strings p)))])].

(** ** The arms *)

Section Arms.
Context {B : Type} `{!IdaBackend B}.
Context (to_lowercase : string -> string) (to_text : Value -> option string).
Context (parse_query : Value -> string + EvidenceQuery) (parse_request : Value -> string + WorkflowRequest).
Context (parse_sig : Value -> string + SigIndex) (parse_json : string -> string + Value) (is_alphanumeric : string -> bool).
Context (write_sig : string -> SigIndex -> Result unit).
(** A new mock, and what this build links of idalib: the compiled backend
    key, the version the runtime reports and a new backend. *)
Context (new_mock : B) (idalib : option (string * (string + Z * Z) * B)).
(** Turns allowed to a deep walk; enough ones exist by [Deep.deep_walk_exact]. *)
Context (fuel : nat).

Definition answered : Type := outcome (Result Value * Process B).

(** A request answered by the backend alone. *)
Definition asking (f : B -> Result Value) (w : Process B) : answered := Done (b <-? need_backend (ws w); f b, w).
(** The same after its parameters were read. *)
Definition asking_with {A} (args : Result A) (f : A -> B -> Result Value) (w : Process B) : answered :=
  Done (a <-? args; b <-? need_backend (ws w); f a b, w).
(** A request that needs the current index. *)
Definition with_index {A} (args : Result A) (k : A -> B -> AnalysisIndex -> Process B -> answered) (w : Process B) : answered :=
  match (a <-? args; b <-? need_backend (ws w); Ok (a, b)) with
  | inl e => Done (Err e, w)
  | inr (a, b) =>
      let '(r, w') := fresh_index b w in
      match r with inl e => Done (Err e, w') | inr im => k a b im.1 w' end
  end.
(** ... and answers from it. *)
Definition indexed {A} (args : Result A) (f : A -> B -> AnalysisIndex -> outcome (Result Value)) : Process B -> answered :=
  with_index args (fun a b idx w => v <~ f a b idx; Done (v, w)).

(** *** Backends *)

Definition set_backend (b : B) (w : Process B) : Process B := set_ws {| backend := Some b; audit := audit (ws w) |} w.

Definition idalib_unavailable (reason : string) : Error := CapabilityUnavailable "idalib" reason.
Definition version_key (v : Z * Z) : string := show_dec v.1 +:+ ("_" +:+ show_dec v.2).
Definition select_idalib : Result (Value * B) :=
  match idalib with
  | None => Err (idalib_unavailable "worker not built with an idalib feature")
  | Some (compiled, runtime, b) =>
      match runtime with
      | inl e => Err (idalib_unavailable ("IDA runtime version unavailable: " +:+ e))
      | inr v =>
          if bool_decide (version_key v = compiled)
          then Ok (JObj [("backend", JStr "idalib"); ("ida", JStr (version_key v))], b)
          else Err (idalib_unavailable ("worker compiled for IDA backend " +:+ (compiled +:+
                 (" but the loaded IDA runtime reports " +:+ (version_key v +:+ "; refusing to mix ABIs")))))
      end
  end.
Definition do_backend_select (params : Value) (w : Process B) : answered :=
  let kind := default "mock" (str_param params "kind") in
  Done (if bool_decide (kind = "mock") then (Ok (JObj [("backend", JStr "mock")]), set_backend new_mock w)
        else if bool_decide (kind = "idalib") then
          match select_idalib with inl e => (Err e, w) | inr (v, b) => (Ok v, set_backend b w) end
        else (Err (Worker ("backend kind '" +:+ (kind +:+ "' not built into this worker"))), w)).

Definition do_db_save (w : Process B) : answered :=
  Done (match need_backend (ws w) with
        | inl e => (Err e, w)
        | inr b => let '(r, b') := save_db b in (_ <-? r; Ok (JObj [("saved", JBool true)]), set_backend b' w)
        end).

Definition do_run_plugin (params : Value) (w : Process B) : answered :=
  Done (match (p <-? need_str params "plugin"; b <-? need_backend (ws w); Ok (p, b)) with
        | inl e => (Err e, w)
        | inr (p, b) => let '(r, b') := run_plugin p (str_param params "args") b in (r, set_backend b' w)
        end).

(** *** Reports *)

Definition at_ea (params : Value) (f : Z -> B -> Result Value) : Process B -> answered := asking_with (ea_param params "ea") f.
Definition paged {A} (params : Value) (show : A -> Value) (f : B -> Z -> Z -> Result (list A)) : Process B -> answered :=
  asking (fun b => list_value show (f b (default 0 (u64_param params "offset")) (default 100 (u64_param params "limit")))).

Definition do_disassemble (params : Value) : Process B -> answered :=
  asking_with (ea <-? ea_param params "ea"; e <-? opt_ea_param params "end"; Ok (ea, e))
    (fun a b => list_value insn_value (disassemble b a.1 a.2 (usize_nat (default 200 (u64_param params "max_insns"))))).

Definition do_graph (params : Value) : Process B -> answered :=
  asking_with (ea <-? ea_param params "ea"; g <-? graph_params params; Ok (ea, g)) (fun a b => graph b a.1 a.2).

Definition do_imports_list (params : Value) : Process B -> answered :=
  asking_with
    (match get "module" params with
     | None | Some JNull => Ok None
     | Some v => m <-? ok_or_else (as_u64 v) (Worker "bad 'module'"); Ok (Some m)
     end)
    (fun m b => imports_page (reports b) m (default 0 (u64_param params "offset")) (default 100 (u64_param params "limit"))).

Definition do_file_map (params : Value) : Process B -> answered :=
  asking_with (if bool_decide (is_Some (get "value" params)) then ea_param params "value" else ea_param params "ea")
    (fun value b => file_map (reports b) value (bool_param params "to_ea" false)).

Definition do_hr_cfunc (params : Value) : Process B -> answered :=
  at_ea params (fun ea b => hr_cfunc (reports b) ea (bool_param params "include_ctree" true)
    (bool_param params "include_lvars" true) (default 2000 (u64_param params "limit"))).

Definition region_report (ea : Z) (end_ea : option Z) (max_insns : Z) (b : B) : Result Value :=
  insns <-? disassemble b ea end_ea (usize_nat max_insns);
  let hexrays := match decompile b ea with
                 | inr hr => hr
                 | inl e => JObj [("status", JStr "unavailable"); ("error", JStr (to_string e))]
                 end in
  Ok (JObj [("region_ea", JStr (show_0x ea)); ("end_ea", jopt (fun e => JStr (show_0x e)) end_ea);
            ("insns", JArr (insn_site <$> insns)); ("insns_truncated", JBool (max_insns <=? Z.of_nat (length insns)));
            ("hexrays", hexrays)]).
Definition do_region_evidence (params : Value) : Process B -> answered :=
  asking_with (ea <-? ea_param params "ea"; e <-? opt_ea_param params "end_ea"; Ok (ea, e))
    (fun a => region_report a.1 a.2 (clamped params "max_insns" 4000 10 20000)).

(** *** Analyses *)

(** A cached answer, and one computed beside the cache. *)
Definition beside_cache (compute : outcome (Result Value)) (w : Process B) : answered :=
  r <~ compute; Done (v <-? r; Ok (cache_answer false (w_cache w) v), w).

Definition do_deep_function (env : Env) (params : Value) : Process B -> answered :=
  with_index (target_param params) (fun root b idx w =>
    let compute := deep_function (deep_function_info (reports b)) idx (budgets_from (poll env) params) fuel root (resume_param params) in
    match resume_param params with
    | None => through_cache ("deep_function", walk_key env root params, revision b) compute w
    | Some _ => beside_cache compute w
    end).

Definition do_deep_dataflow (env : Env) (params : Value) : Process B -> answered :=
  with_index (t <-? target_param params; d <-? direction_param params; Ok (t, d)) (fun a b idx w =>
    through_cache ("deep_dataflow", flow_key env a.1 a.2 params, revision b)
      (Done (trace_dataflow (deep_function_info (reports b)) idx (budgets_from (poll env) params) a.1 a.2)) w).

Definition do_value_propagate (env : Env) (params : Value) : Process B -> answered :=
  with_index (target_param params) (fun target b idx w =>
    through_cache ("value_propagate", walk_key env target params, revision b)
      (Done (value_analysis (deep_function_info (reports b)) (type_vtable_scan (reports b)) is_alphanumeric idx
               (budgets_from (poll env) params) target)) w).

Definition do_types_propose (params : Value) : Process B -> answered :=
  indexed (function_eas params) (fun eas b idx =>
    Done (recover_structure (type_member_evidence (reports b)) (type_udt_match (reports b)) idx eas
            (clamped params "limit" 64 1 512))).

Definition do_intel_crypto (env : Env) (params : Value) : Process B -> answered :=
  with_index (Ok (clamped params "max_findings" 50 1 500)) (fun max b idx w =>
    r <~ load_effective parse_json (rules_dir env);
    match r with
    | inl e => Done (Err e, w)
    | inr rules =>
        through_cache ("intel_crypto", crypto_key max rules, revision b)
          (crypto_scan b (segments (reports b)) idx (usize_nat max) (Some rules)) w
    end).

Definition do_intel_packs (env : Env) (w : Process B) : answered :=
  r <~ load_effective parse_json (rules_dir env);
  Done (rules <-? r;
        Ok (JObj [("packs", JArr (pack_json <$> rules)); ("set_hash", JStr (set_hash rules));
                  ("note", JStr "packs load from <exe dir>/rules/*.json (fail-closed); built-in pack covers #12 content")]), w).

Definition do_intel_api_hashes (params : Value) : Process B -> answered :=
  indexed (Ok (clamped params "max_findings" 50 1 500)) (fun max b idx =>
    Done (resolve_api_hashes (imports_page (reports b) None 0 20000) idx (usize_nat max))).

Definition do_intel_strings (params : Value) : Process B -> answered :=
  indexed (target_param params) (fun target b idx =>
    Done (recover_strings (hr_cfunc (reports b) target true false 8000) idx target
            (usize_nat (clamped params "max_strings" 50 1 500)))).

Definition do_deob_run (params : Value) : Process B -> answered :=
  indexed (target_param params) (fun target b idx =>
    Done (deobfuscate b idx target (clamped params "max_passes" 8 1 16))).

(** *** Signatures *)

Definition sig_param (params : Value) (key missing bad : string) : Result SigIndex :=
  v <-? ok_or_else (get key params) (Worker missing);
  match parse_sig v with inl e => Err (Worker (bad +:+ (": " +:+ e))) | inr s => Ok s end.

Definition do_sig_identify (params : Value) : Process B -> answered :=
  indexed (target_param params) (fun target b idx =>
    Done (reference <-? sig_param params "reference" "missing reference sig index" "bad reference sig index";
          identify_function idx reference target Thresholds_default (usize_nat (clamped params "max_candidates" 10 1 100)))).

Definition sig_path (b : B) : Result string :=
  info <-? db_info (reports b);
  p <-? ok_or_else (as_str (info @@ "path")) (Worker "no db path for sig index");
  Ok (p +:+ ".rsig.json").
Definition do_sig_export (params : Value) : Process B -> answered :=
  indexed (Ok tt) (fun _ b idx =>
    let sig := build_sig_index idx in
    Done (path <-? sig_path b;
          _ <-? write_sig path sig;
          Ok (JObj [("path", JStr path); ("functions", jnat (length (sig_functions sig))); ("binary_md5", JStr (sig_md5 sig));
                    ("format", JNum (sig_format sig))]))).

Definition do_sig_map (params : Value) (w : Process B) : answered :=
  Done (from <-? sig_param params "from" "missing 'from' sig index" "bad 'from' sig index";
        to <-? sig_param params "to" "missing 'to' sig index" "bad 'to' sig index";
        Ok (sig_map_from_sigs from to (usize_nat (clamped params "max_transfers" 100 1 2000))), w).

Definition do_sig_fingerprints (params : Value) : Process B -> answered :=
  let max_blocks := usize_nat (clamped params "max_blocks" 256 8 4096) in
  match get "ea" params with
  | Some v => asking_with (ea_param_value v) (fun ea b => export_function b ea max_blocks)
  | None => indexed (Ok (clamped params "max_functions" 64 1 1024)) (fun max b idx =>
      Done (export_binary b idx (usize_nat max) max_blocks))
  end.

Definition do_sig_diff (params : Value) (w : Process B) : answered :=
  let threshold := fclamp w50 f1 (default p080 (v ← get "threshold" params; as_f64 v)) in
  Done (diff_from_json (default JNull (get "a" params)) (default JNull (get "b" params)) threshold
          (usize_nat (clamped params "max_blocks" 256 8 4096)), w).

(** ** The dispatcher *)

Definition read_arms (env : Env) (params : Value) : list (string * (Process B -> answered)) :=
  [("db.info", asking (fun b => db_info (reports b)));
   ("capabilities", asking (fun b => Ok (capabilities_value (capabilities (reports b)))));
   ("functions", paged params function_value (fun b => functions_page (reports b)));
   ("function_at", at_ea params (fun ea b => f <-? function_at b ea; Ok (function_value f)));
   ("segments", asking (fun b => list_value segment_value (segments (reports b))));
   ("strings", paged params string_value (fun b => strings_page (reports b)));
   ("xrefs_to", at_ea params (fun ea b => list_value xref_value (xrefs_to b ea)));
   ("xrefs_from", at_ea params (fun ea b => list_value xref_value (xrefs_from (reports b) ea)));
   ("disassemble", do_disassemble params);
   ("decompile", at_ea params (fun ea b => decompile b ea));
   ("graph", do_graph params);
   ("search_text", asking_with (need_str params "needle") (fun needle b =>
      list_value id (search_text (reports b) needle (default 50 (u64_param params "limit")))));
   ("search_immediate", asking (fun b => list_value id (search_immediate (reports b) (default 0 (u64_param params "value"))
      (default 50 (u64_param params "limit")))));
   ("get_bytes", at_ea params (fun ea b => get_bytes b ea (default 16 (u64_param params "size"))));
   ("get_comment", at_ea params (fun ea b => get_comment (reports b) ea (bool_param params "repeatable" false)));
   ("types", asking (fun b => types (reports b) (str_param params "name")));
   ("db.metadata", asking (fun b => db_metadata (reports b)));
   ("imports.list", do_imports_list params);
   ("fixups.list", asking (fun b => fixups (reports b) (default 0 (u64_param params "offset")) (default 100 (u64_param params "limit"))));
   ("file.map", do_file_map params);
   ("func.tails", at_ea params (fun ea b => func_tails (reports b) ea));
   ("func.switch_info", at_ea params (fun ea b => func_switch_info (reports b) ea));
   ("func.sp_delta", at_ea params (fun ea b => func_sp_delta (reports b) ea));
   ("hr.cfunc", do_hr_cfunc params);
   ("region.evidence", do_region_evidence params);
   ("insn.features", at_ea params (fun ea b => insn_features (reports b) ea));
   ("names.demangle", asking_with (need_str params "name") (fun name b => demangle_name (reports b) name));
   ("list_plugins", asking (fun b => list_plugins (reports b)));
   ("deep.function", do_deep_function env params);
   ("deep.dataflow", do_deep_dataflow env params);
   ("value.propagate", do_value_propagate env params);
   ("types.evidence", at_ea params (fun ea b => type_member_evidence (reports b) ea (clamped params "limit" 64 1 512)));
   ("types.vtable", at_ea params (fun ea b => type_vtable_scan (reports b) ea (clamped params "max_entries" 32 1 256)));
   ("types.propose", do_types_propose params);
   ("intel.crypto", do_intel_crypto env params);
   ("intel.packs", do_intel_packs env);
   ("intel.api_hashes", do_intel_api_hashes params);
   ("intel.strings", do_intel_strings params);
   ("deob.run", do_deob_run params);
   ("sig.identify", do_sig_identify params);
   ("sig.export", do_sig_export params);
   ("sig.map", do_sig_map params);
   ("sig.fingerprints", do_sig_fingerprints params);
   ("sig.diff", do_sig_diff params)].

Definition other_arms (params : Value) : list (string * (Process B -> answered)) :=
  [("backend.select", do_backend_select params); ("db.save", do_db_save); ("run_plugin", do_run_plugin params)].

Fixpoint arm_of (method : string) (arms : list (string * (Process B -> answered))) : option (Process B -> answered) :=
  match arms with
  | [] => None
  | (m, h) :: rest => if bool_decide (method = m) then Some h else arm_of method rest
  end.

(** [dispatch]. *)
Definition full_dispatch (env : Env) (method : string) (params : Value) (w : Process B) : answered :=
  match arm_of method (read_arms env params ++ other_arms params) with
  | Some h => h w
  | None =>
      match worker_dispatch to_lowercase to_text parse_query parse_request method params w with
      | Some o => o
      | None => Done (Err (Worker ("unknown method '" +:+ (method +:+ "'"))), w)
      end
  end.

(** [handle]. *)
Definition full_handle (env : Env) (req : WorkerRequest) (w : Process B) : outcome (WorkerResponse * Process B) :=
  rw <~ full_dispatch env (req_method req) (req_params req) w; Done (respond req rw).

(** A session: requests answered one after the other, each in its own environment. *)
Inductive session : list WorkerRequest -> Process B -> Process B -> Prop :=
  | session_nil w : session [] w w
  | session_cons env req reqs w w1 w2 resp :
      full_handle env req w = Done (resp, w1) -> session reqs w1 w2 -> session (req :: reqs) w w2.
End Arms.

(** ** Cache keys determine the request *)

Lemma show_0x_span n m s t :
  is_u64 n -> is_u64 m -> show_0x n +:+ String "|" s = show_0x m +:+ String "|" t -> n = m /\ s = t.
Proof.
  intros Hn Hm E. unfold show_0x in E. rewrite !append_assoc in E. apply append_same in E. unfold show_hex, is_u64 in *.
  apply (append_span (fun x => negb (Ascii.eqb "|" x))) in E as [E Et]; [|apply show_no_bar; lia..|done|done].
  injection Et as ->. split; [|done]. by apply (show_radix_inj 16); unfold is_u64; [lia..|].
Qed.

Lemma budgets_u64 poll params :
  let bu := budgets_from poll params in
  is_u64 (b_depth bu) /\ is_u64 (Z.of_nat (b_max_functions bu)) /\ is_u64 (Z.of_nat (b_max_iterations bu)) /\ is_u64 (b_max_calls bu).
Proof.
  cbn [budgets_from b_depth b_max_functions b_max_iterations b_max_calls]. unfold is_u64, clamp, u64_modulus.
  split_and!; lia.
Qed.

(** Without a deadline the text of the budgets gives the budgets. *)
Lemma budgets_debug_inj env env' params params' :
  u64_param params "timeout_ms" = None -> budgets_debug env params = budgets_debug env' params' ->
  budgets_from (poll env) params = budgets_from (poll env') params'.
Proof.
  intros Ht E. unfold budgets_debug in E. rewrite Ht in E.
  destruct (budgets_u64 (poll env) params) as (D1 & F1 & I1 & C1). destruct (budgets_u64 (poll env') params') as (D2 & F2 & I2 & C2).
  apply append_same in E. apply show_dec_span in E as [Ed E]; [|done..]. apply append_same in E.
  apply show_dec_span in E as [Ef E]; [|done..]. apply append_same in E.
  apply show_dec_span in E as [Ei E]; [|done..]. apply append_same in E.
  apply show_dec_span in E as [Ec E]; [|done..]. apply append_same in E.
  assert (u64_param params' "timeout_ms" = None) as Ht'.
  { destruct (u64_param params' "timeout_ms"); [discriminate E|done]. }
  unfold u64_param in Ht, Ht'.
  assert (time_left (budgets_from (poll env) params) = time_left (budgets_from (poll env') params')) as El
    by (unfold budgets_from; cbn [time_left]; by rewrite Ht, Ht').
  revert Ed Ef Ei Ec El. destruct (budgets_from (poll env) params), (budgets_from (poll env') params'). cbn. intros -> Ef%Nat2Z.inj Ei%Nat2Z.inj -> ->. by subst.
Qed.

Lemma walk_key_inj env env' root root' params params' :
  is_u64 root -> is_u64 root' -> u64_param params "timeout_ms" = None ->
  walk_key env root params = walk_key env' root' params' ->
  root = root' /\ budgets_from (poll env) params = budgets_from (poll env') params'.
Proof.
  intros Hr Hr' Ht E. apply show_0x_span in E as [-> E]; [|done..]. split; [done|]. by apply budgets_debug_inj.
Qed.

Lemma direction_chars params d : direction_param params = Ok d -> all_chars (fun x => negb (Ascii.eqb "|" x)) d = true.
Proof.
  unfold direction_param. set (d' := default _ _). destruct (one_of _ d') eqn:E; [|done]. intros [= <-].
  apply bool_decide_eq_true in E. repeat (apply elem_of_cons in E as [->|E]; [reflexivity|]). by apply elem_of_nil in E.
Qed.

Lemma flow_key_inj env env' t t' d d' params params' :
  is_u64 t -> is_u64 t' -> all_chars (fun x => negb (Ascii.eqb "|" x)) d = true ->
  all_chars (fun x => negb (Ascii.eqb "|" x)) d' = true -> u64_param params "timeout_ms" = None ->
  flow_key env t d params = flow_key env' t' d' params' ->
  t = t' /\ d = d' /\ budgets_from (poll env) params = budgets_from (poll env') params'.
Proof.
  intros Hr Hr' Hd Hd' Ht E. apply show_0x_span in E as [-> E]; [|done..]. split; [done|].
  apply (append_span (fun x => negb (Ascii.eqb "|" x))) in E as [-> E]; [|done..]. split; [done|].
  apply append_same in E. by apply budgets_debug_inj.
Qed.

Lemma target_param_u64 params ea : target_param params = Ok ea -> is_u64 ea.
Proof.
  unfold target_param. destruct (ea_param params "target") as [e|x] eqn:E; [apply ea_param_u64|].
  intros [= <-]. exact (ea_param_u64 _ _ _ E).
Qed.

(** ** The scan reads the database *)

Lemma crypto_scan_alike {B : Type} `{!IdaBackend B} (b b' : B) segs idx max rules :
  reads_alike b b' -> crypto_scan b' segs idx max rules = crypto_scan b segs idx max rules.
Proof.
  intros Ha. unfold crypto_scan. destruct segs as [e|segs]; [done|].
  assert (forall cap rs fuel base stop acc, scan_chunks b' cap rs fuel base stop acc = scan_chunks b cap rs fuel base stop acc) as Hc.
  { intros cap rs fuel. induction fuel as [|fuel IH]; intros base stop acc; [done|]. cbn [scan_chunks]. destruct (stop <=? base); [done|].
    unfold read_chunk. rewrite (ra_bytes _ _ Ha). destruct (match get_bytes b base _ with inl _ => _ | inr _ => _ end) as [[bs|]| |]; cbn [obind]; [|done..].
    destruct (scan_rules _ _ _ _ _) as [acc' []]; [done|]. apply IH. }
  assert (forall cap rs l acc, scan_segments b' cap rs l acc = scan_segments b cap rs l acc) as Hs; [|by rewrite Hs].
  intros cap rs l. induction l as [|s l IH]; intros acc; [done|]. cbn [scan_segments]. destruct (skip_segment s); [apply IH|].
  rewrite Hc. destruct (scan_chunks b cap rs _ _ _ acc) as [[acc' []]| |]; cbn [obind snd fst]; [done|apply IH|done..].
Qed.

(** ** Sessions *)

(** The requests that replace the database, and those that may change a real
    one while its revision stays. *)
Definition unversioned : list string :=
  ["backend.select"; "db.open"; "db.close"; "db.save"; "run_plugin"; "analyze_wait"; "snapshot.restore"].

Lemma arm_of_elem {B} method (arms : list (string * (Process B -> answered))) h :
  arm_of method arms = Some h -> (method, h) ∈ arms.
Proof.
  induction arms as [|[m h'] arms IH]; cbn [arm_of]; [done|]. case_bool_decide as E.
  - intros [= ->]. subst m. constructor.
  - intros Hin%IH. by constructor.
Qed.

Section Sessions.
Context {B : Type} `{!IdaBackend B} `{!BackendLaws B}.
Context (to_lowercase : string -> string) (to_text : Value -> option string).
Context (parse_query : Value -> string + EvidenceQuery) (parse_request : Value -> string + WorkflowRequest).
Context (parse_sig : Value -> string + SigIndex) (parse_json : string -> string + Value) (is_alphanumeric : string -> bool).
Context (write_sig : string -> SigIndex -> Result unit).
Context (new_mock : B) (idalib : option (string * (string + Z * Z) * B)) (fuel : nat).

(** What the database answers to a deep walk, a data-flow trace, a value
    analysis, a scan. *)
Definition walk_now (b : B) idx env params root : outcome (Result Value) :=
  deep_function (deep_function_info (reports b)) idx (budgets_from (poll env) params) fuel root None.
Definition flow_now (b : B) idx env params target direction : Result Value :=
  trace_dataflow (deep_function_info (reports b)) idx (budgets_from (poll env) params) target direction.
Definition values_now (b : B) idx env params target : Result Value :=
  value_analysis (deep_function_info (reports b)) (type_vtable_scan (reports b)) is_alphanumeric idx
    (budgets_from (poll env) params) target.
Definition scan_now (b : B) idx max rules : outcome (Result Value) :=
  crypto_scan b (segments (reports b)) idx (usize_nat max) (Some rules).

Definition analysis_fresh (b : B) (name body : string) (v : Value) : Prop :=
  exists idx md5, build_index b = Ok (idx, md5) /\
  ((name = "deep_function" /\ exists env params root, is_u64 root /\ body = walk_key env root params /\
      walk_now b idx env params root = Done (Ok v)) \/
   (name = "deep_dataflow" /\ exists env params t d, is_u64 t /\ all_chars (fun x => negb (Ascii.eqb "|" x)) d = true /\
      body = flow_key env t d params /\ flow_now b idx env params t d = Ok v) \/
   (name = "value_propagate" /\ exists env params t, is_u64 t /\ body = walk_key env t params /\
      values_now b idx env params t = Ok v) \/
   (name = "intel_crypto" /\ exists max rules, body = crypto_key max rules /\ scan_now b idx max rules = Done (Ok v))).

Lemma analysis_fresh_alike b b' name body v :
  reads_alike b b' -> analysis_fresh b name body v -> analysis_fresh b' name body v.
Proof using Type.
  intros Ha (idx & md5 & Hb & H). exists idx, md5. rewrite (ra_index _ _ Ha). split; [done|].
  unfold walk_now, flow_now, values_now, scan_now in *. rewrite (ra_reports _ _ Ha).
  destruct H as [H|[H|[H|[Hn (max & rules & Hk & Hs)]]]]; [by left|by right; left|by right; right; left|].
  right; right; right. split; [done|]. exists max, rules. by rewrite (crypto_scan_alike b b' _ _ _ _ Ha).
Qed.

Abbreviation coherent := (coherent to_lowercase to_text analysis_fresh).
Abbreviation fhandle := (full_handle to_lowercase to_text parse_query parse_request parse_sig parse_json is_alphanumeric
  write_sig new_mock idalib fuel).
Abbreviation fsession := (session to_lowercase to_text parse_query parse_request parse_sig parse_json is_alphanumeric
  write_sig new_mock idalib fuel).

(** [h] keeps the index and the cache true to the database. *)
Definition keeps (h : Process B -> answered) : Prop :=
  forall n w b res w', coherent n w b -> (Z.of_nat n < u64_modulus)%Z -> h w = Done (res, w') -> coherent n w' b.

Lemma asking_keeps f : keeps (asking f).
Proof using Type. by intros n w b res w' Hco _ [= _ <-]. Qed.

Lemma asking_with_keeps {A} (args : Result A) f : keeps (asking_with args f).
Proof using Type. by intros n w b res w' Hco _ [= _ <-]. Qed.

(** What a request with the index does: an error, or its work on the index of now. *)
Lemma with_index_spec {A} (args : Result A) k n w b res w' :
  coherent n w b -> (Z.of_nat n < u64_modulus)%Z -> with_index args k w = Done (res, w') ->
  (coherent n w' b /\ is_ok res = false) \/
  exists a idx md5 w1, args = Ok a /\ build_index b = Ok (idx, md5) /\ coherent n w1 b /\ k a b idx w1 = Done (res, w').
Proof using BackendLaws0.
  intros Hco Hn. unfold with_index. pose proof (co_backend _ _ _ _ _ _ Hco) as Hb.
  assert (need_backend (ws w) = Ok b) as -> by (unfold need_backend; by rewrite Hb).
  destruct args as [e|a]; cbn [bindR Ok]; [intros [= <- <-]; by left|].
  destruct (fresh_index b w) as [ri w1] eqn:Hf. pose proof (fresh_index_spec _ _ _ _ _ _ _ _ Hco Hn Hf) as (-> & Hco1 & _).
  destruct (build_index b) as [e|[idx md5]]; [intros [= <- <-]; by left|]. cbn [fst]. intros Hk. right.
  exists a, idx, md5, w1. done.
Qed.

Lemma indexed_keeps {A} (args : Result A) f : keeps (indexed args f).
Proof using BackendLaws0.
  intros n w b res w' Hco Hn Hrun. unfold indexed in Hrun.
  destruct (with_index_spec _ _ _ _ _ _ _ Hco Hn Hrun) as [[? _]|(a & idx & md5 & w1 & _ & _ & Hco1 & Hk)]; [done|].
  destruct (f a b idx) as [r| |]; cbn [obind] in Hk; [by injection Hk as _ <-|done..].
Qed.

(** A cached analysis: its answer is what one with the same key gives now. *)
Lemma cached_spec n w b name body compute res w' :
  coherent n w b -> (Z.of_nat n < u64_modulus)%Z -> name ∈ analysis_caches -> (forall v, compute = Done (Ok v) -> analysis_fresh b name body v) ->
  through_cache (name, body, revision b) compute w = Done (res, w') ->
  coherent n w' b /\ forall a, res = Ok a -> analysis_fresh b name body (a @@ "result").
Proof using Type.
  intros Hco Hn Hname Hc Hrun.
  assert (forall v, entry_fresh to_lowercase to_text analysis_fresh b name body v <-> analysis_fresh b name body v) as He.
  { intros v. unfold entry_fresh. rewrite (bool_decide_false (name = "hr_microcode")).
    - by rewrite bool_decide_true.
    - intros ->. by apply (bool_decide_unpack (¬ "hr_microcode" ∈ analysis_caches)). }
  eapply through_cache_spec in Hrun; [|exact Hco|exact Hn|]; [|intros v Hv; by apply He, Hc].
  destruct Hrun as [Hco' Hres]. split; [done|]. intros a ->. destruct Hres as (v & -> & Hv). by apply He.
Qed.

(** *** The cached analyses *)

Lemma index_unique (b : B) idx md5 idx' md5' :
  build_index b = Ok (idx, md5) -> build_index b = Ok (idx', md5') -> idx = idx'.
Proof using Type. intros E E'. rewrite E in E'. by injection E'. Qed.

Lemma deep_function_keeps env params n w b res w' :
  coherent n w b -> (Z.of_nat n < u64_modulus)%Z -> do_deep_function fuel env params w = Done (res, w') ->
  coherent n w' b /\
  (u64_param params "timeout_ms" = None -> resume_param params = None -> forall a, res = Ok a ->
   exists root idx md5, target_param params = Ok root /\ build_index b = Ok (idx, md5) /\
     walk_now b idx env params root = Done (Ok (a @@ "result"))).
Proof using BackendLaws0.
  intros Hco Hn Hrun. unfold do_deep_function in Hrun.
  destruct (with_index_spec _ _ _ _ _ _ _ Hco Hn Hrun) as [[? He]|(root & idx & md5 & w1 & Ht & Hb & Hco1 & Hk)];
    [split; [done|]; by intros _ _ a ->|].
  destruct (resume_param params) as [tok|].
  - unfold beside_cache in Hk. destruct (deep_function _ _ _ _ _ _) as [r| |]; cbn [obind] in Hk; [|done..].
    injection Hk as _ <-. split; [done|]. done.
  - apply target_param_u64 in Ht as Hu. eapply (cached_spec n w1 b) in Hk as [Hco' Hres]; [|done|done|by apply (bool_decide_unpack _)|].
    + split; [done|]. intros Hto _ a Ha. destruct (Hres a Ha) as (idx' & md5' & Hb' & [(_ & env' & params' & root' & Hu' & Hkey & Hv)|H]).
      * exists root, idx, md5. split; [done|]. split; [done|]. destruct (walk_key_inj _ _ _ _ _ _ Hu Hu' Hto Hkey) as [-> Hbu].
        unfold walk_now in *. rewrite Hbu, (index_unique _ _ _ _ _ Hb Hb'). exact Hv.
      * exfalso. destruct H as [[H _]|[[H _]|[H _]]]; discriminate H.
    + intros v Hv. exists idx, md5. split; [done|]. left. split; [done|]. by exists env, params, root.
Qed.

Lemma deep_dataflow_keeps env params n w b res w' :
  coherent n w b -> (Z.of_nat n < u64_modulus)%Z -> do_deep_dataflow env params w = Done (res, w') ->
  coherent n w' b /\
  (u64_param params "timeout_ms" = None -> forall a, res = Ok a ->
   exists t d idx md5, target_param params = Ok t /\ direction_param params = Ok d /\ build_index b = Ok (idx, md5) /\
     flow_now b idx env params t d = Ok (a @@ "result")).
Proof using BackendLaws0.
  intros Hco Hn Hrun. unfold do_deep_dataflow in Hrun.
  destruct (with_index_spec _ _ _ _ _ _ _ Hco Hn Hrun) as [[? He]|([t d] & idx & md5 & w1 & Ht & Hb & Hco1 & Hk)];
    [split; [done|]; by intros _ a ->|].
  destruct (target_param params) as [|t0] eqn:Et; cbn [bindR] in Ht; [done|].
  destruct (direction_param params) as [|d0] eqn:Ed; cbn [bindR] in Ht; [done|]. injection Ht as -> ->.
  apply target_param_u64 in Et as Hu. apply direction_chars in Ed as Hd. cbn [fst snd] in Hk.
  eapply (cached_spec n w1 b) in Hk as [Hco' Hres]; [|done|done|by apply (bool_decide_unpack _)|].
  - split; [done|]. intros Hto a Ha.
    destruct (Hres a Ha) as (idx' & md5' & Hb' & [[H _]|[(_ & env' & params' & t' & d' & Hu' & Hd' & Hkey & Hv)|H]]); [discriminate H| |].
    + exists t, d, idx, md5. do 3 (split; [done|]). destruct (flow_key_inj _ _ _ _ _ _ _ _ Hu Hu' Hd Hd' Hto Hkey) as (-> & -> & Hbu).
      unfold flow_now in *. rewrite Hbu, (index_unique _ _ _ _ _ Hb Hb'). exact Hv.
    + exfalso. destruct H as [[H _]|[H _]]; discriminate H.
  - intros v [= Hv]. exists idx, md5. split; [done|]. right; left. split; [done|]. by exists env, params, t, d.
Qed.

Lemma value_propagate_keeps env params n w b res w' :
  coherent n w b -> (Z.of_nat n < u64_modulus)%Z -> do_value_propagate is_alphanumeric env params w = Done (res, w') ->
  coherent n w' b /\
  (u64_param params "timeout_ms" = None -> forall a, res = Ok a ->
   exists t idx md5, target_param params = Ok t /\ build_index b = Ok (idx, md5) /\
     values_now b idx env params t = Ok (a @@ "result")).
Proof using BackendLaws0.
  intros Hco Hn Hrun. unfold do_value_propagate in Hrun.
  destruct (with_index_spec _ _ _ _ _ _ _ Hco Hn Hrun) as [[? He]|(t & idx & md5 & w1 & Ht & Hb & Hco1 & Hk)];
    [split; [done|]; by intros _ a ->|].
  apply target_param_u64 in Ht as Hu. eapply (cached_spec n w1 b) in Hk as [Hco' Hres]; [|done|done|by apply (bool_decide_unpack _)|].
  - split; [done|]. intros Hto a Ha.
    destruct (Hres a Ha) as (idx' & md5' & Hb' & [[H _]|[[H _]|[(_ & env' & params' & t' & Hu' & Hkey & Hv)|[H _]]]]);
      [discriminate H..| |discriminate H].
    exists t, idx, md5. do 2 (split; [done|]). destruct (walk_key_inj _ _ _ _ _ _ Hu Hu' Hto Hkey) as [-> Hbu].
    unfold values_now in *. rewrite Hbu, (index_unique _ _ _ _ _ Hb Hb'). exact Hv.
  - intros v [= Hv]. exists idx, md5. split; [done|]. right; right; left. split; [done|]. by exists env, params, t.
Qed.

Lemma intel_crypto_keeps env params n w b res w' :
  coherent n w b -> (Z.of_nat n < u64_modulus)%Z -> do_intel_crypto parse_json env params w = Done (res, w') ->
  coherent n w' b /\
  (forall a, res = Ok a -> exists rules max' rules' idx md5, load_effective parse_json (rules_dir env) = Done (Ok rules) /\
     build_index b = Ok (idx, md5) /\ crypto_key max' rules' = crypto_key (clamped params "max_findings" 50 1 500) rules /\
     scan_now b idx max' rules' = Done (Ok (a @@ "result"))).
Proof using BackendLaws0.
  intros Hco Hn Hrun. unfold do_intel_crypto in Hrun.
  destruct (with_index_spec _ _ _ _ _ _ _ Hco Hn Hrun) as [[? He]|(max & idx & md5 & w1 & [= <-] & Hb & Hco1 & Hk)];
    [split; [done|]; by intros a ->|].
  destruct (load_effective parse_json (rules_dir env)) as [[e|rules]| |] eqn:El; cbn [obind] in Hk; [| |done..].
  { injection Hk as <- <-. split; [done|]. by intros a. }
  eapply (cached_spec n w1 b) in Hk as [Hco' Hres]; [|done|done|by apply (bool_decide_unpack _)|].
  - split; [done|]. intros a Ha.
    destruct (Hres a Ha) as (idx' & md5' & Hb' & [[H _]|[[H _]|[[H _]|(_ & max' & rules' & Hkey & Hv)]]]); [discriminate H..|].
    exists rules, max', rules', idx', md5'. done.
  - intros v Hv. exists idx, md5. split; [done|]. right; right; right. split; [done|]. by eexists _, _.
Qed.

(** *** All reads *)

Lemma read_arms_keep env params :
  Forall (fun a => keeps a.2) (read_arms parse_sig parse_json is_alphanumeric write_sig fuel env params).
Proof using BackendLaws0.
  unfold read_arms.
  repeat apply Forall_cons_2; try apply Forall_nil_2; cbn [snd];
    first [apply asking_keeps | apply asking_with_keeps | apply indexed_keeps | idtac].
  - intros n w b res w' Hco Hn Hrun. by apply (deep_function_keeps _ _ _ _ _ _ _ Hco Hn) in Hrun as [? _].
  - intros n w b res w' Hco Hn Hrun. by apply (deep_dataflow_keeps _ _ _ _ _ _ _ Hco Hn) in Hrun as [? _].
  - intros n w b res w' Hco Hn Hrun. by apply (value_propagate_keeps _ _ _ _ _ _ _ Hco Hn) in Hrun as [? _].
  - intros n w b res w' Hco Hn Hrun. by apply (intel_crypto_keeps _ _ _ _ _ _ _ Hco Hn) in Hrun as [? _].
  - intros n w b res w' Hco Hn Hrun. unfold do_intel_packs in Hrun.
    destruct (load_effective _ _); cbn [obind] in Hrun; [by injection Hrun as _ <-|done..].
  - by intros n w b res w' Hco _ [= _ <-].
  - unfold do_sig_fingerprints. destruct (get "ea" params); [apply asking_with_keeps|apply indexed_keeps].
  - by intros n w b res w' Hco _ [= _ <-].
Qed.

Lemma read_arm_reads env params method h :
  (method, h) ∈ read_arms parse_sig parse_json is_alphanumeric write_sig fuel env params -> method ∉ MUTATING_METHODS.
Proof using Type.
  intros Hin. apply (list_elem_of_fmap_2 fst) in Hin. revert Hin.
  assert (Forall (fun m => m ∉ MUTATING_METHODS) (read_arms parse_sig parse_json is_alphanumeric write_sig fuel env params).*1) as Hall.
  { cbn [read_arms fmap list_fmap fst]. repeat apply Forall_cons_2; try apply Forall_nil_2; by apply (bool_decide_unpack _). }
  cbn [fst]. intros Hin. rewrite Forall_forall in Hall. by apply Hall.
Qed.

(** *** The session *)

Lemma worker_methods method params (w : Process B) o :
  worker_dispatch to_lowercase to_text parse_query parse_request method params w = Some o ->
  method ∈ session_methods ++ ["db.open"; "db.close"; "analyze_wait"; "snapshot.restore"].
Proof using Type.
  unfold worker_dispatch. intros E.
  do 13 (case_bool_decide; [subst method; by apply (bool_decide_unpack _)|]).
  destruct (dispatch method params (ws w)) as [d|] eqn:Hd; [clear E|discriminate E]. unfold dispatch in Hd.
  repeat (case_bool_decide; [subst method; by apply (bool_decide_unpack _)|]). discriminate Hd.
Qed.

Lemma read_respond req (res : Result Value) (w : Process B) : req_method req ∉ MUTATING_METHODS -> (respond req (res, w)).2 = w.
Proof using Type. intros Hno. unfold respond. cbn [fst snd]. by rewrite (bool_decide_false (_ ∈ _)), andb_false_r by done. Qed.

Lemma full_step env n w b req resp w' :
  coherent n w b -> (Z.of_nat n < u64_modulus)%Z -> req_method req ∉ unversioned ->
  fhandle env req w = Done (resp, w') -> exists b', coherent (n + ops_of (req_params req)) w' b'.
Proof using BackendLaws0.
  intros Hco Hn Hm Hrun. unfold full_handle, full_dispatch in Hrun.
  destruct (arm_of _ _) as [h|] eqn:Ha.
  - apply arm_of_elem, elem_of_app in Ha as [Ha|Ha].
    + exists b. destruct (h w) as [[res w1]| |] eqn:Hh; cbn [obind] in Hrun; [|done..].
      apply Done_inj, (f_equal snd) in Hrun. rewrite read_respond in Hrun by (by eapply read_arm_reads).
      cbn [snd] in Hrun. subst w1. eapply coherent_le; [apply Nat.le_add_r|].
      pose proof (read_arms_keep env (req_params req)) as Hall. rewrite Forall_forall in Hall. by eapply (Hall _ Ha).
    + exfalso. apply Hm. unfold other_arms in Ha. apply (list_elem_of_fmap_2 fst) in Ha. cbn [fmap list_fmap fst] in Ha. revert Ha. unfold unversioned.
      rewrite !elem_of_cons. tauto.
  - destruct (worker_dispatch _ _ _ _ _ _ w) as [o|] eqn:Hd.
    + eapply (handle_step to_lowercase to_text parse_query parse_request analysis_fresh analysis_fresh_alike _ _ _ _ resp);
        [exact Hco|done| |].
      * apply worker_methods in Hd. apply elem_of_app in Hd as [Hd|Hd]; [done|]. exfalso. apply Hm. revert Hd. unfold unversioned.
        rewrite !elem_of_cons. tauto.
      * unfold handle. rewrite Hd. cbn [mbind option_bind]. by rewrite Hrun.
    + cbn [obind] in Hrun. apply Done_inj, (f_equal snd) in Hrun. unfold respond in Hrun. cbn in Hrun. subst w'.
      exists b. eapply coherent_le; [apply Nat.le_add_r|done].
Qed.

Lemma session_coherent n reqs w w' b :
  coherent n w b -> (Z.of_nat (n + total_ops reqs) < u64_modulus)%Z ->
  Forall (fun q => req_method q ∉ unversioned) reqs -> fsession reqs w w' ->
  exists b', coherent (n + total_ops reqs) w' b'.
Proof using BackendLaws0.
  intros Hco Hn Hall Hs. revert n b Hco Hn Hall.
  induction Hs as [w|env req reqs w w1 w2 resp Hh _ IH]; intros n b Hco Hn Hall.
  { exists b. by eapply coherent_le; [|exact Hco]; lia. }
  apply Forall_cons in Hall as [Hm Hall].
  change (total_ops (req :: reqs)) with (ops_of (req_params req) + total_ops reqs)%nat in *.
  destruct (full_step env n w b req resp w1) as [b1 Hco1]; [done|lia|done|done|].
  destruct (IH (n + ops_of (req_params req))%nat b1 Hco1) as [b' Hco']; [lia|done|].
  exists b'. by rewrite <- Nat.add_assoc in Hco'.
Qed.


End Sessions.

(** ** A session on the mock *)

Definition still : Env := {| poll := fun _ _ => true; instant_text := fun _ => "Instant"; rules_dir := None |}.
Definition no_sig (v : Value) : string + SigIndex := inl "none".
Definition no_json (s : string) : string + Value := inl "none".
Definition plain_char (s : string) : bool := all_chars is_ascii_digit s.
Definition unwritten (path : string) (sig : SigIndex) : Result unit := Ok tt.

Abbreviation mock_handle := (full_handle (B := MockBackend) id no_text no_criteria any_request no_sig no_json plain_char
  unwritten MockBackend_new None 60).
Abbreviation mock_sessions := (session (B := MockBackend) id no_text no_criteria any_request no_sig no_json plain_char
  unwritten MockBackend_new None 60).

Definition main_params : Value := JObj [("ea", JStr (show_0x 0x401000))].
Definition reading_session : list WorkerRequest :=
  [ask "index.query" (JObj []); ask "deep.function" main_params; ask "deep.function" main_params; rename_main;
   ask "intel.strings" main_params; ask "no.such.method" (JObj [])].

Fixpoint run_session (reqs : list WorkerRequest) (w : Process MockBackend) : option (Process MockBackend) :=
  match reqs with
  | [] => Some w
  | q :: reqs => match mock_handle still q w with Done (_, w') => run_session reqs w' | _ => None end
  end.

Lemma run_session_sound reqs w w' : run_session reqs w = Some w' -> mock_sessions reqs w w'.
Proof.
  revert w. induction reqs as [|q reqs IH]; intros w; [intros [= ->]; apply session_nil|]. cbn [run_session].
  destruct (mock_handle still q w) as [[resp w1]| |] eqn:Hq; try done.
  intros Hs. eapply session_cons; [exact Hq|by apply IH].
Qed.

Lemma reading_session_runs : exists w, mock_sessions reading_session (opened open_mock) w.
Proof.
  destruct (run_session reading_session (opened open_mock)) as [w|] eqn:Hs; [exists w; by apply run_session_sound|].
  exfalso. assert (match run_session reading_session (opened open_mock) with Some _ => true | None => false end = true) as Hsome by by vm_compute.
  by rewrite Hs in Hsome.
Qed.

Lemma reading_session_allowed : Forall (fun q => req_method q ∉ unversioned) reading_session.
Proof. by repeat apply Forall_cons_2; try apply (bool_decide_unpack _). Qed.

(** The second of two equal deep walks is answered from the cache. *)
Example deep_walk_cached :
  match run_session [ask "deep.function" main_params; ask "deep.function" main_params] (opened open_mock) with
  | Some w => hits (w_cache w) | None => 0 end = 1.
Proof. vm_compute. reflexivity. Qed.



(** ** Further properties of the arms *)

(** A backend is only replaced by one whose ABI the runtime matches. *)
Lemma select_matches_abi {B : Type} (new_mock : B) idalib params (w : Process B) v w' :
  do_backend_select new_mock idalib params w = Done (Ok v, w') ->
  (str_param params "kind" = None \/ str_param params "kind" = Some "mock") /\ backend (ws w') = Some new_mock \/
  str_param params "kind" = Some "idalib" /\
  exists compiled ver b, idalib = Some (compiled, inr ver, b) /\ version_key ver = compiled /\ backend (ws w') = Some b.
Proof.
  unfold do_backend_select. destruct (str_param params "kind") as [k|]; cbn [default from_option id].
  - case_bool_decide as Hk; [subst k; intros [= <- <-]; left; by split; [right|]|].
    case_bool_decide as Hi; [subst k|done]. unfold select_idalib.
    destruct idalib as [[[compiled [e|ver]] b]|]; [done| |done]. case_bool_decide as Hv; [|done].
    intros [= <- <-]. right. split; [done|]. by exists compiled, ver, b.
  - rewrite (bool_decide_true ("mock" = "mock")) by done. intros [= <- <-]. left. by split; [left|].
Qed.

(** A deep walk under a time limit is stored under a key with its own
    deadline, so a repeat at another time misses the cache. *)
Lemma timed_walks_miss env env' params ms root :
  u64_param params "timeout_ms" = Some ms ->
  instant_text env (clamp 1000 1800000 ms) <> instant_text env' (clamp 1000 1800000 ms) ->
  walk_key env root params <> walk_key env' root params.
Proof.
  intros Ht Hi E. unfold walk_key in E. apply append_same, append_same in E. unfold budgets_debug in E. rewrite Ht in E.
  rewrite !append_assoc in E. repeat (apply append_same in E). apply Hi. apply (f_equal srev) in E.
  rewrite !(srev_app (instant_text _ _)) in E. apply append_same in E. apply (f_equal srev) in E.
  by rewrite !srev_involutive in E.
Qed.
