(* ===== verification/SigFile.v ===== *)
(** * SigFile: the signature index on disk

    Models [save_sig_index] and [load_sig_index] of
    [rmcp-worker/src/signatures.rs] over a map of files; the JSON codec of an
    index is a parameter.  [save_sig_index] is what [sig.export] writes with:
    the function [write_sig] of [Analyses] is [write_sig_file] here. *)

From stdpp Require Import base list gmap strings.
From Stdlib Require Import ZArith Lia.
From S2P Require Import Prelude Text Json Errors Protocol Backend Index Signatures Analyses.

Local Open Scope rmcp_scope.

Record SigDisk := { sig_files : gmap string string; sig_fault : option string }.

Section SigFile.
Context {B : Type} `{!IdaBackend B} `{!FrameCodec SigIndex}.
Implicit Types d : SigDisk.

Definition write_sig_file (path : string) (sig : SigIndex) d : Result unit * SigDisk :=
  match to_vec sig with
  | inl e => (Err (Ipc e), d)
  | inr json =>
      match sig_fault d with
      | Some e => (Err (Ipc ("write sig index: " +:+ e)), d)
      | None => (Ok tt, {| sig_files := <[path := json]> (sig_files d); sig_fault := sig_fault d |})
      end
  end.

Definition save_sig_index (b : B) (sig : SigIndex) d : Result string * SigDisk :=
  match sig_path b with
  | inl e => (Err e, d)
  | inr path => let '(r, d') := write_sig_file path sig d in (_ <-? r; Ok path, d')
  end.

Definition load_sig_index (read : string -> string + string) (path : string) : Result SigIndex :=
  match read path with
  | inl e => Err (Ipc ("read sig index: " +:+ e))
  | inr raw =>
      match from_str raw with
      | inl e => Err (Ipc ("parse sig index: " +:+ e))
      | inr sig =>
          if negb (sig_format sig =? SIG_FORMAT)%Z
          then Err (Worker ("sig index format " +:+ show_dec (sig_format sig) +:+ " != supported " +:+ show_dec SIG_FORMAT))
          else Ok sig
      end
  end.

Definition read_of (missing : string) d (path : string) : string + string :=
  match sig_files d !! path with Some s => inr s | None => inl missing end.

Context (codec : forall sig s, to_vec sig = inr s -> from_str s = inr sig).

(** The export of a database is loaded again from the path that was reported,
    and no other file changed. *)
Lemma sig_file_roundtrip (b : B) (idx : AnalysisIndex) missing d path d' :
  save_sig_index b (build_sig_index idx) d = (Ok path, d') ->
  load_sig_index (read_of missing d') path = Ok (build_sig_index idx)
  /\ forall p, p <> path -> sig_files d' !! p = sig_files d !! p.
Proof using codec.
  unfold save_sig_index. destruct (sig_path b) as [e|p]; [done|]. unfold write_sig_file.
  destruct (to_vec (build_sig_index idx)) as [e|s] eqn:Es; [done|]. destruct (sig_fault d); [done|]. intros [= <- <-].
  split; [|intros q Hq; cbn; by rewrite lookup_insert_ne].
  unfold load_sig_index, read_of. cbn [sig_files]. rewrite lookup_insert_eq, (codec _ _ Es). by rewrite Z.eqb_refl.
Qed.

(** An index of another format is refused, by an error that names both. *)
Lemma sig_format_refused read path raw sig :
  read path = inr raw -> from_str raw = inr sig -> sig_format sig <> SIG_FORMAT ->
  load_sig_index read path = Err (Worker ("sig index format " +:+ show_dec (sig_format sig) +:+ " != supported " +:+ show_dec SIG_FORMAT)).
Proof using Type. intros Hr Hs Hf. unfold load_sig_index. rewrite Hr, Hs. apply Z.eqb_neq in Hf as ->. done. Qed.

(** A failed write leaves every file as it was. *)
Lemma save_failed (b : B) sig d e d' : save_sig_index b sig d = (Err e, d') -> d' = d.
Proof using Type.
  unfold save_sig_index. destruct (sig_path b); [by intros [= _ <-]|]. unfold write_sig_file.
  destruct (to_vec sig); [by intros [= _ <-]|]. destruct (sig_fault d); [by intros [= _ <-]|done].
Qed.
End SigFile.
