(* ===== verification/WasmModule.v ===== *)
(** * WasmModule: the normalized model of a WebAssembly module

    Models [rmcp-wasm/src/module.rs] and the error type of
    [rmcp-wasm/src/lib.rs].  Decoding of the binary is the [wasmparser]
    crate's: a module is the sequence of payloads its parser yields, a
    section the sequence of entries its reader yields (an unreadable one is
    the reader's error), a function body the sequence of operators.  What is
    modelled is what this program makes of them: the index spaces, the
    budgets, the attachment of code bodies and names to functions, the
    feature map. *)

From stdpp Require Import base list gmap strings.
From Stdlib Require Import ZArith Lia Ascii.
From S2P Require Import Prelude Text.

Local Open Scope Z_scope.

Inductive WError :=
  | Parse (offset : Z) (message : string)
  | FeatureDisabled (feature message : string)
  | Budget (what : string)
  | Ambiguous (what : string)
  | Io (message : string).

Abbreviation WResult A := (WError + A)%type.

(** ** Operators and bodies *)

(** The operators of [wasmparser] that the analyses tell apart; [Other] is
    any other, with its discriminant as it is printed. *)
Inductive Operator :=
  | Unreachable | Block | Loop | If | Else | Try | TryTable | End | Return | Drop
  | Br (relative_depth : Z) | BrIf (relative_depth : Z)
  | BrTable (targets : list (option Z)) (default_target : Z)
  | Call (function_index : Z) | CallIndirect (type_index table_index : Z)
  | ReturnCall (function_index : Z) | ReturnCallIndirect
  | LocalGet (i : Z) | LocalSet (i : Z) | LocalTee (i : Z) | GlobalGet (i : Z) | GlobalSet (i : Z)
  | I32Load (offset : Z) | I64Load (offset : Z) | I32Store (offset : Z) | I64Store (offset : Z)
  | I32Const (value : Z) | I64Const (value : Z) | F32Const (bits : Z) | F64Const (bits : Z)
  | I32Eqz | I32Eq | I32Ne | I32LtU | I32GeU
  | I32Add | I32Sub | I32Mul | I32And | I32Or | I32Xor
  | Other (discriminant : string).

(** One operator read: the position in front of it and the one behind it. *)
Record ReadOp := { op_at : Z; op_next : Z; op : Operator }.

(** A body: its operators, and the error that ends it if one does. *)
Record Body := { ops : list ReadOp; fault : option (Z * string) }.

(** Operators follow each other in the body. *)
Fixpoint laid_from (p : Z) (l : list ReadOp) : Prop :=
  match l with
  | [] => True
  | o :: l' => p <= op_at o /\ op_at o < op_next o /\ laid_from (op_next o) l'
  end.

(** ** The model *)

Record SectionInfo := { sec_id : Z; sec_name : string; sec_offset : Z; sec_size : Z }.
Record FuncType := { params : list string; results : list string }.
Record ImportEntry := {
  imp_module : string; imp_name : string; imp_kind : string; imp_type : option Z; wasi : bool }.
Record ExportEntry := { exp_name : string; exp_kind : string; exp_index : Z }.
Record FunctionEntry := {
  fn_index : Z; fn_type : Z; code_offset : Z; code_size : Z; local_types : list string; fname : option string }.
Record GlobalEntry := { glob_index : Z; glob_ty : string; mutable : bool; init : option string }.
Record TableEntry := { table_idx : Z; elem_ty : string; table_initial : Z; table_maximum : option Z }.
Record ElementSegment := {
  seg_index : Z; seg_table : Z; seg_offset : option Z; func_indices : list Z }.
Record MemoryEntry := {
  mem_index : Z; initial_pages : Z; maximum_pages : option Z; shared : bool; memory64 : bool;
  page_size_log2 : option Z }.
Record DataSegment := {
  data_index : Z; data_memory : Z; data_offset : option Z; data_len : Z; file_offset : Z }.
Record FeatureMap := {
  f_multi_value : bool; f_bulk_memory : bool; f_reference_types : bool; f_simd : bool; f_relaxed_simd : bool;
  f_tail_call : bool; f_exception_handling : bool; f_threads : bool; f_memory64 : bool; f_multi_memory : bool;
  f_function_references : bool; f_gc : bool }.
Record CustomInfo := {
  name_section : bool; producers : option (list (string * string)); other_names : list string }.

Record ModuleModel := {
  version : Z;
  sections : list SectionInfo;
  types : list FuncType;
  imports : list ImportEntry;
  exports : list ExportEntry;
  functions : list FunctionEntry;
  globals : list GlobalEntry;
  tables : list TableEntry;
  elements : list ElementSegment;
  memories : list MemoryEntry;
  datas : list DataSegment;
  features : FeatureMap;
  custom : CustomInfo;
  start : option Z;
  imported_functions : Z;
  binary_sha256 : string; (** left empty by the parser *)
}.

(** ** What the parser yields *)

Definition PErr : Type := Z * string.
Abbreviation entries A := (list (PErr + A)).

Inductive CompositeType := CFunc (ps rs : list string) | CStruct | CArray | CCont.
Inductive TypeRef := TFunc (type_index : Z) | TTable | TMemory | TGlobal | TTag.
Inductive ExternalKind := EFunc | ETable | EMemory | EGlobal | ETag.
(** An offset expression is known by its first operator, if it can be read. *)
Inductive ElementKind := EActive (table : option Z) (offset : option Operator) | EPassive | EDeclared.
Inductive ElementItems := IFunctions (fs : list (option Z)) | IExpressions.
Inductive DataKind := DActive (memory : Z) (offset : option Operator) | DPassive.
Inductive NameSub := FunctionNames (ns : list (option (Z * string))) | OtherNames.

Inductive Payload :=
  | Version
  | TypeSection (range : Z * Z) (groups : entries (list CompositeType))
  | ImportSection (range : Z * Z) (es : entries (string * string * TypeRef))
  | FunctionSection (range : Z * Z) (es : entries Z)
  | TableSection (range : Z * Z) (es : entries (string * Z * option Z))
  | MemorySection (range : Z * Z) (es : entries (Z * option Z * bool * bool * option Z))
  | GlobalSection (range : Z * Z) (es : entries (string * bool * option Operator))
  | ExportSection (range : Z * Z) (es : entries (string * ExternalKind * Z))
  | StartSection (func : Z)
  | ElementSection (range : Z * Z) (es : entries (ElementKind * ElementItems))
  | CodeSectionStart (range : Z * Z)
  | CodeSectionEntry (range : Z * Z) (locals : PErr + entries (Z * string))
  | DataSection (range : Z * Z) (es : entries (DataKind * Z * Z)) (** length of the data, start of its range *)
  | TagSection (range : Z * Z)
  | CustomName (subs : list (option NameSub))
  | CustomProducers (fields : option (list (option (string * list (option string)))))
  | CustomOther (name : string)
  | OtherPayload.

(** ** Parsing *)

Record ParseBudget := { max_sections : nat; max_types : nat; max_functions : nat; max_elements : nat; max_datas : nat }.
Definition ParseBudget_default : ParseBudget :=
  {| max_sections := 4096; max_types := 100000; max_functions := 500000; max_elements := 100000; max_datas := 100000 |}.
Definition model_max_sections : nat := 4096.

(** The model under construction with the counters of [parse_with_budget]. *)
Record pstate := {
  p_sections : list SectionInfo;
  p_types : list FuncType;
  p_imports : list ImportEntry;
  p_exports : list ExportEntry;
  p_functions : list FunctionEntry;
  p_globals : list GlobalEntry;
  p_tables : list TableEntry;
  p_elements : list ElementSegment;
  p_memories : list MemoryEntry;
  p_datas : list DataSegment;
  p_feature : FeatureMap;
  p_custom : CustomInfo;
  p_start : option Z;
  p_imported : Z;
  p_cursor : nat;
}.

Definition perr (e : PErr) : WError := Parse e.1 e.2.

(** A loop over the entries of a section that stops at the first error. *)
Fixpoint each {A T} (f : nat -> A -> T -> WResult T) (i : nat) (es : entries A) (st : T) : WResult T :=
  match es with
  | [] => inr st
  | inl e :: _ => inl (perr e)
  | inr a :: es' => match f i a st with inl e => inl e | inr st' => each f (S i) es' st' end
  end.

Definition const_expr_u64 (first : option Operator) : option Z :=
  match first with
  | Some (I32Const v) => Some (v mod u32_modulus)
  | Some (I64Const v) => Some (v mod u64_modulus)
  | _ => None
  end.

(** Field updates. *)
Definition set_sections (x : list SectionInfo) (p : pstate) : pstate := {|
  p_sections := x; p_types := p_types p; p_imports := p_imports p; p_exports := p_exports p;
  p_functions := p_functions p; p_globals := p_globals p; p_tables := p_tables p;
  p_elements := p_elements p; p_memories := p_memories p; p_datas := p_datas p; p_feature := p_feature p;
  p_custom := p_custom p; p_start := p_start p; p_imported := p_imported p; p_cursor := p_cursor p |}.
Definition set_types (x : list FuncType) (p : pstate) : pstate := {|
  p_sections := p_sections p; p_types := x; p_imports := p_imports p; p_exports := p_exports p;
  p_functions := p_functions p; p_globals := p_globals p; p_tables := p_tables p;
  p_elements := p_elements p; p_memories := p_memories p; p_datas := p_datas p; p_feature := p_feature p;
  p_custom := p_custom p; p_start := p_start p; p_imported := p_imported p; p_cursor := p_cursor p |}.
Definition set_imports (x : list ImportEntry) (p : pstate) : pstate := {|
  p_sections := p_sections p; p_types := p_types p; p_imports := x; p_exports := p_exports p;
  p_functions := p_functions p; p_globals := p_globals p; p_tables := p_tables p;
  p_elements := p_elements p; p_memories := p_memories p; p_datas := p_datas p; p_feature := p_feature p;
  p_custom := p_custom p; p_start := p_start p; p_imported := p_imported p; p_cursor := p_cursor p |}.
Definition set_exports (x : list ExportEntry) (p : pstate) : pstate := {|
  p_sections := p_sections p; p_types := p_types p; p_imports := p_imports p; p_exports := x;
  p_functions := p_functions p; p_globals := p_globals p; p_tables := p_tables p;
  p_elements := p_elements p; p_memories := p_memories p; p_datas := p_datas p; p_feature := p_feature p;
  p_custom := p_custom p; p_start := p_start p; p_imported := p_imported p; p_cursor := p_cursor p |}.
Definition set_functions (x : list FunctionEntry) (p : pstate) : pstate := {|
  p_sections := p_sections p; p_types := p_types p; p_imports := p_imports p; p_exports := p_exports p;
  p_functions := x; p_globals := p_globals p; p_tables := p_tables p; p_elements := p_elements p;
  p_memories := p_memories p; p_datas := p_datas p; p_feature := p_feature p; p_custom := p_custom p;
  p_start := p_start p; p_imported := p_imported p; p_cursor := p_cursor p |}.
Definition set_globals (x : list GlobalEntry) (p : pstate) : pstate := {|
  p_sections := p_sections p; p_types := p_types p; p_imports := p_imports p; p_exports := p_exports p;
  p_functions := p_functions p; p_globals := x; p_tables := p_tables p; p_elements := p_elements p;
  p_memories := p_memories p; p_datas := p_datas p; p_feature := p_feature p; p_custom := p_custom p;
  p_start := p_start p; p_imported := p_imported p; p_cursor := p_cursor p |}.
Definition set_tables (x : list TableEntry) (p : pstate) : pstate := {|
  p_sections := p_sections p; p_types := p_types p; p_imports := p_imports p; p_exports := p_exports p;
  p_functions := p_functions p; p_globals := p_globals p; p_tables := x; p_elements := p_elements p;
  p_memories := p_memories p; p_datas := p_datas p; p_feature := p_feature p; p_custom := p_custom p;
  p_start := p_start p; p_imported := p_imported p; p_cursor := p_cursor p |}.
Definition set_elements (x : list ElementSegment) (p : pstate) : pstate := {|
  p_sections := p_sections p; p_types := p_types p; p_imports := p_imports p; p_exports := p_exports p;
  p_functions := p_functions p; p_globals := p_globals p; p_tables := p_tables p; p_elements := x;
  p_memories := p_memories p; p_datas := p_datas p; p_feature := p_feature p; p_custom := p_custom p;
  p_start := p_start p; p_imported := p_imported p; p_cursor := p_cursor p |}.
Definition set_memories (x : list MemoryEntry) (p : pstate) : pstate := {|
  p_sections := p_sections p; p_types := p_types p; p_imports := p_imports p; p_exports := p_exports p;
  p_functions := p_functions p; p_globals := p_globals p; p_tables := p_tables p;
  p_elements := p_elements p; p_memories := x; p_datas := p_datas p; p_feature := p_feature p;
  p_custom := p_custom p; p_start := p_start p; p_imported := p_imported p; p_cursor := p_cursor p |}.
Definition set_datas (x : list DataSegment) (p : pstate) : pstate := {|
  p_sections := p_sections p; p_types := p_types p; p_imports := p_imports p; p_exports := p_exports p;
  p_functions := p_functions p; p_globals := p_globals p; p_tables := p_tables p;
  p_elements := p_elements p; p_memories := p_memories p; p_datas := x; p_feature := p_feature p;
  p_custom := p_custom p; p_start := p_start p; p_imported := p_imported p; p_cursor := p_cursor p |}.
Definition set_feature (x : FeatureMap) (p : pstate) : pstate := {|
  p_sections := p_sections p; p_types := p_types p; p_imports := p_imports p; p_exports := p_exports p;
  p_functions := p_functions p; p_globals := p_globals p; p_tables := p_tables p;
  p_elements := p_elements p; p_memories := p_memories p; p_datas := p_datas p; p_feature := x;
  p_custom := p_custom p; p_start := p_start p; p_imported := p_imported p; p_cursor := p_cursor p |}.
Definition set_custom (x : CustomInfo) (p : pstate) : pstate := {|
  p_sections := p_sections p; p_types := p_types p; p_imports := p_imports p; p_exports := p_exports p;
  p_functions := p_functions p; p_globals := p_globals p; p_tables := p_tables p;
  p_elements := p_elements p; p_memories := p_memories p; p_datas := p_datas p; p_feature := p_feature p;
  p_custom := x; p_start := p_start p; p_imported := p_imported p; p_cursor := p_cursor p |}.
Definition set_start (x : option Z) (p : pstate) : pstate := {|
  p_sections := p_sections p; p_types := p_types p; p_imports := p_imports p; p_exports := p_exports p;
  p_functions := p_functions p; p_globals := p_globals p; p_tables := p_tables p;
  p_elements := p_elements p; p_memories := p_memories p; p_datas := p_datas p; p_feature := p_feature p;
  p_custom := p_custom p; p_start := x; p_imported := p_imported p; p_cursor := p_cursor p |}.
Definition set_imported (x : Z) (p : pstate) : pstate := {|
  p_sections := p_sections p; p_types := p_types p; p_imports := p_imports p; p_exports := p_exports p;
  p_functions := p_functions p; p_globals := p_globals p; p_tables := p_tables p;
  p_elements := p_elements p; p_memories := p_memories p; p_datas := p_datas p; p_feature := p_feature p;
  p_custom := p_custom p; p_start := p_start p; p_imported := x; p_cursor := p_cursor p |}.
Definition set_cursor (x : nat) (p : pstate) : pstate := {|
  p_sections := p_sections p; p_types := p_types p; p_imports := p_imports p; p_exports := p_exports p;
  p_functions := p_functions p; p_globals := p_globals p; p_tables := p_tables p;
  p_elements := p_elements p; p_memories := p_memories p; p_datas := p_datas p; p_feature := p_feature p;
  p_custom := p_custom p; p_start := p_start p; p_imported := p_imported p; p_cursor := x |}.

Definition record_section (id : Z) (name : string) (range : Z * Z) (p : pstate) : pstate :=
  if (length (p_sections p) <? model_max_sections)%nat
  then set_sections (p_sections p ++ [{| sec_id := id; sec_name := name; sec_offset := range.1;
                                         sec_size := range.2 - range.1 |}]) p
  else p.

Definition FeatureMap_default : FeatureMap :=
  {| f_multi_value := false; f_bulk_memory := false; f_reference_types := false; f_simd := false;
     f_relaxed_simd := false; f_tail_call := false; f_exception_handling := false; f_threads := false;
     f_memory64 := false; f_multi_memory := false; f_function_references := false; f_gc := false |}.

(** [|=] of the flags this parser sets. *)
Definition flag (bulk refs simd eh threads mem64 multi gc : bool) (f : FeatureMap) : FeatureMap :=
  {| f_multi_value := f_multi_value f; f_bulk_memory := f_bulk_memory f || bulk;
     f_reference_types := f_reference_types f || refs; f_simd := f_simd f || simd;
     f_relaxed_simd := f_relaxed_simd f; f_tail_call := f_tail_call f;
     f_exception_handling := f_exception_handling f || eh; f_threads := f_threads f || threads;
     f_memory64 := f_memory64 f || mem64; f_multi_memory := f_multi_memory f || multi;
     f_function_references := f_function_references f; f_gc := f_gc f || gc |}.
Definition raise (f : FeatureMap -> FeatureMap) (p : pstate) : pstate := set_feature (f (p_feature p)) p.

Definition parse_type (budget : ParseBudget) (c : CompositeType) (p : pstate) : WResult pstate :=
  if (max_types budget <=? length (p_types p))%nat then inl (Budget "types")
  else
    let push t p := inr (set_types (p_types p ++ [t]) p) in
    let gc p := raise (flag false false false false false false false true) p in
    match c with
    | CFunc ps rs => push {| params := ps; results := rs |} p
    | CStruct => push {| params := ["struct"]; results := [] |} (gc p)
    | CArray => push {| params := ["array"]; results := [] |} (gc p)
    | CCont => inl (Parse 0 "stack switching (cont) types unsupported")
    end.

Fixpoint parse_group (budget : ParseBudget) (group : list CompositeType) (p : pstate) : WResult pstate :=
  match group with
  | [] => inr p
  | c :: group' => match parse_type budget c p with inl e => inl e | inr p' => parse_group budget group' p' end
  end.

Definition is_wasi (m : string) : bool :=
  starts_with "wasi_" m || bool_decide (m = "wasi_unstable") || bool_decide (m = "wasi_snapshot_preview1").

Definition parse_import (i : nat) (imp : string * string * TypeRef) (p : pstate) : WResult pstate :=
  let '(m, name, ty) := imp in
  let '(p, kind, tidx) :=
    match ty with
    | TFunc t => (set_imported ((p_imported p + 1) mod u32_modulus) p, "func", Some t)
    | TTable => (p, "table", None) | TMemory => (p, "memory", None)
    | TGlobal => (p, "global", None) | TTag => (p, "tag", None)
    end in
  inr (set_imports (p_imports p ++ [{| imp_module := m; imp_name := name; imp_kind := kind;
                                      imp_type := tidx; wasi := is_wasi m |}]) p).

Definition parse_function (budget : ParseBudget) (i : nat) (t : Z) (p : pstate) : WResult pstate :=
  if (max_functions budget <=? length (p_functions p))%nat then inl (Budget "functions")
  else inr (set_functions (p_functions p ++
    [{| fn_index := (p_imported p + Z.of_nat i) mod u32_modulus; fn_type := t; code_offset := 0; code_size := 0;
        local_types := []; fname := None |}]) p).

Definition parse_table (i : nat) (t : string * Z * option Z) (p : pstate) : WResult pstate :=
  let '(ty, initial, maximum) := t in
  let p := raise (flag false true false false false false false false) p in
  inr (set_tables (p_tables p ++ [{| table_idx := Z.of_nat i; elem_ty := ty; table_initial := initial;
                                     table_maximum := maximum |}]) p).

Definition parse_memory (i : nat) (m : Z * option Z * bool * bool * option Z) (p : pstate) : WResult pstate :=
  let '(initial, maximum, sh, m64, page) := m in
  let p := raise (flag false false false false sh m64 (1 <=? i)%nat false) p in
  inr (set_memories (p_memories p ++ [{| mem_index := Z.of_nat i; initial_pages := initial;
    maximum_pages := maximum; shared := sh; memory64 := m64; page_size_log2 := page |}]) p).

Section Printing.
(** [to_string] of a float given by its bits. *)
Context (show_f32 show_f64 : Z -> string).

Definition global_init (first : option Operator) : option string :=
  match first with
  | Some (I32Const v) | Some (I64Const v) => Some (show_signed v)
  | Some (F32Const bits) => Some (show_f32 bits)
  | Some (F64Const bits) => Some (show_f64 bits)
  | _ => None
  end.

Definition parse_global (i : nat) (g : string * bool * option Operator) (p : pstate) : WResult pstate :=
  let '(ty, mut, first) := g in
  inr (set_globals (p_globals p ++ [{| glob_index := Z.of_nat i; glob_ty := ty; mutable := mut;
                                       init := global_init first |}]) p).

Definition external_kind (k : ExternalKind) : string :=
  match k with EFunc => "func" | ETable => "table" | EMemory => "memory" | EGlobal => "global" | ETag => "tag" end.

Definition parse_export (i : nat) (e : string * ExternalKind * Z) (p : pstate) : WResult pstate :=
  let '(name, kind, index) := e in
  inr (set_exports (p_exports p ++ [{| exp_name := name; exp_kind := external_kind kind; exp_index := index |}]) p).

Definition parse_element (budget : ParseBudget) (i : nat) (e : ElementKind * ElementItems) (p : pstate)
  : WResult pstate :=
  if (max_elements budget <=? length (p_elements p))%nat then inl (Budget "elements")
  else
    let '(table, offset) :=
      match e.1 with
      | EActive t off => (default 0 t, const_expr_u64 off)
      | EPassive | EDeclared => (0, None)
      end in
    inr (set_elements (p_elements p ++ [{| seg_index := Z.of_nat i; seg_table := table; seg_offset := offset;
      func_indices := match e.2 with IFunctions fs => omap id fs | IExpressions => [] end |}]) p).

(** The declared locals, run-length encoded in the binary. *)
Fixpoint read_locals (es : entries (Z * string)) (acc : list string) : WResult (list string) :=
  match es with
  | [] => inr acc
  | inl e :: _ => inl (perr e)
  | inr (n, ty) :: es' => read_locals es' (acc ++ replicate (Z.to_nat n) ty)
  end.

Definition parse_code (range : Z * Z) (locals : PErr + entries (Z * string)) (p : pstate) : WResult pstate :=
  match p_functions p !! p_cursor p with
  | None => inl (Budget "code entries exceed declared functions")
  | Some f =>
      match locals with
      | inl e => inl (perr e)
      | inr es =>
          match read_locals es [] with
          | inl e => inl e
          | inr tys =>
              let f' := {| fn_index := fn_index f; fn_type := fn_type f; code_offset := range.1;
                           code_size := range.2 - range.1; local_types := tys; fname := fname f |} in
              inr (set_cursor (S (p_cursor p)) (set_functions (<[p_cursor p := f']> (p_functions p)) p))
          end
      end
  end.

Definition parse_data (budget : ParseBudget) (i : nat) (d : DataKind * Z * Z) (p : pstate) : WResult pstate :=
  let '(kind, len, at_file) := d in
  if (max_datas budget <=? length (p_datas p))%nat then inl (Budget "datas")
  else
    let p := raise (flag true false false false false false false false) p in
    let '(memory, offset) :=
      match kind with DActive m off => (m, const_expr_u64 off) | DPassive => (0, None) end in
    inr (set_datas (p_datas p ++ [{| data_index := Z.of_nat i; data_memory := memory; data_offset := offset;
                                     data_len := len; file_offset := at_file |}]) p).

(** The name of the first function with this index. *)
Fixpoint name_function (index : Z) (name : string) (fs : list FunctionEntry) : list FunctionEntry :=
  match fs with
  | [] => []
  | f :: fs' =>
      if fn_index f =? index
      then {| fn_index := fn_index f; fn_type := fn_type f; code_offset := code_offset f;
              code_size := code_size f; local_types := local_types f; fname := Some name |} :: fs'
      else f :: name_function index name fs'
  end.

Fixpoint name_functions (ns : list (option (Z * string))) (fs : list FunctionEntry) : list FunctionEntry :=
  match ns with
  | [] => fs
  | None :: ns' => name_functions ns' fs
  | Some (index, name) :: ns' => name_functions ns' (name_function index name fs)
  end.

(** The subsections up to the first unreadable one. *)
Fixpoint read_names (subs : list (option NameSub)) (fs : list FunctionEntry) : list FunctionEntry :=
  match subs with
  | [] | None :: _ => fs
  | Some (FunctionNames ns) :: subs' => read_names subs' (name_functions ns fs)
  | Some OtherNames :: subs' => read_names subs' fs
  end.

Definition read_producers (fields : list (option (string * list (option string)))) : list (string * string) :=
  concat ((fun f => match f with Some (n, vs) => (fun v => (n, v)) <$> omap id vs | None => [] end) <$> fields).

Definition set_name_section (p : pstate) : pstate :=
  set_custom {| name_section := true; producers := producers (p_custom p);
                other_names := other_names (p_custom p) |} p.

Definition parse_payload (budget : ParseBudget) (payload : Payload) (p : pstate) : WResult pstate :=
  match payload with
  | Version | OtherPayload => inr p
  | TypeSection r es => each (fun _ g p => parse_group budget g p) 0 es (record_section 1 "type" r p)
  | ImportSection r es => each parse_import 0 es (record_section 2 "import" r p)
  | FunctionSection r es => each (parse_function budget) 0 es (record_section 3 "function" r p)
  | TableSection r es => each parse_table 0 es (record_section 4 "table" r p)
  | MemorySection r es => each parse_memory 0 es (record_section 5 "memory" r p)
  | GlobalSection r es => each parse_global 0 es (record_section 6 "global" r p)
  | ExportSection r es => each parse_export 0 es (record_section 7 "export" r p)
  | StartSection func => inr (set_start (Some func) p)
  | ElementSection r es => each (parse_element budget) 0 es (record_section 9 "elem" r p)
  | CodeSectionStart r => inr (record_section 10 "code" r p)
  | CodeSectionEntry r locals => parse_code r locals p
  | DataSection r es => each (parse_data budget) 0 es (record_section 11 "data" r p)
  | TagSection r =>
      inr (raise (flag false false false true false false false false) (record_section 13 "tag" r p))
  | CustomName subs =>
      let p := set_name_section p in inr (set_functions (read_names subs (p_functions p)) p)
  | CustomProducers None => inr p
  | CustomProducers (Some fields) =>
      inr (set_custom {| name_section := name_section (p_custom p); producers := Some (read_producers fields);
                         other_names := other_names (p_custom p) |} p)
  | CustomOther name =>
      inr (set_custom {| name_section := name_section (p_custom p); producers := producers (p_custom p);
                         other_names := other_names (p_custom p) ++ [name] |} p)
  end.

Fixpoint parse_payloads (budget : ParseBudget) (payloads : entries Payload) (p : pstate) : WResult pstate :=
  match payloads with
  | [] => inr p
  | inl e :: _ => inl (perr e)
  | inr pl :: rest =>
      match parse_payload budget pl p with inl e => inl e | inr p' => parse_payloads budget rest p' end
  end.

Definition pstate_init : pstate := {|
  p_sections := []; p_types := []; p_imports := []; p_exports := []; p_functions := []; p_globals := [];
  p_tables := []; p_elements := []; p_memories := []; p_datas := []; p_feature := FeatureMap_default;
  p_custom := {| name_section := false; producers := None; other_names := [] |}; p_start := None;
  p_imported := 0; p_cursor := 0 |}.

Definition uses_v128 (f : FunctionEntry) : bool := existsb (contains "v128") (local_types f).

Definition finish_model (version : Z) (p : pstate) : ModuleModel := {|
  version := version; sections := p_sections p; types := p_types p; imports := p_imports p;
  exports := p_exports p; functions := p_functions p; globals := p_globals p; tables := p_tables p;
  elements := p_elements p; memories := p_memories p; datas := p_datas p;
  features := flag false false (existsb uses_v128 (p_functions p)) false false false false false (p_feature p);
  custom := p_custom p; start := p_start p; imported_functions := p_imported p;
  binary_sha256 := "" |}.

(** [parse_with_budget]: [bytes] is the file, [parse_all] the parser. *)
Definition parse_with_budget (parse_all : list Z -> entries Payload) (bytes : list Z) (budget : ParseBudget)
  : WResult ModuleModel :=
  match bytes with
  | 0 :: 0x61 :: 0x73 :: 0x6d :: _ :: _ :: v0 :: v1 :: _ =>
      match parse_payloads budget (parse_all bytes) pstate_init with
      | inl e => inl e
      | inr p => inr (finish_model (v0 + 256 * v1) p)
      end
  | _ => inl (Parse 0 "not a WASM module (bad magic)")
  end.

Definition parse (parse_all : list Z -> entries Payload) (bytes : list Z) : WResult ModuleModel :=
  parse_with_budget parse_all bytes ParseBudget_default.
End Printing.

(** ** Properties *)

Section Each.
Context {A T : Type} (f : nat -> A -> T -> WResult T) (P : T -> Prop).
Hypothesis step_ok : forall i a st st', P st -> f i a st = inr st' -> P st'.

Lemma each_inv i es st st' : P st -> each f i es st = inr st' -> P st'.
Proof using step_ok.
  revert i st. induction es as [| [e | a] es IH]; intros i st Hp E; simpl in E; [congruence | congruence |].
  destruct (f i a st) as [e | st1] eqn:F; [congruence |]. eauto.
Qed.
End Each.

(** *** Budgets *)

(** What the budget bounds. *)
Record within (budget : ParseBudget) (p : pstate) : Prop := {
  w_types : (length (p_types p) <= max_types budget)%nat;
  w_functions : (length (p_functions p) <= max_functions budget)%nat;
  w_elements : (length (p_elements p) <= max_elements budget)%nat;
  w_datas : (length (p_datas p) <= max_datas budget)%nat;
  w_sections : (length (p_sections p) <= model_max_sections)%nat;
  w_cursor : (p_cursor p <= length (p_functions p))%nat;
}.

(** Finishes a step of the parser: its guards are compared, its updates read back. *)
Ltac parser_step :=
  repeat match goal with
  | E : inl _ = inr _ |- _ => discriminate E
  | E : inr _ = inr _ |- _ => apply (inj inr) in E; subst
  | E : (_, _) = (_, _) |- _ => injection E; clear E; intros; subst
  | E : context [match ?x with _ => _ end] |- _ => destruct x eqn:?
  | E : context [if ?b then _ else _] |- _ => destruct b eqn:?
  end.

Lemma length_name_function k n fs : length (name_function k n fs) = length fs.
Proof. induction fs as [| f fs IH]; simpl; [reflexivity |]. destruct (_ =? _); simpl; congruence. Qed.

Lemma length_name_functions ns fs : length (name_functions ns fs) = length fs.
Proof.
  revert fs. induction ns as [| [[k n] |] ns IH]; intros fs; simpl; [reflexivity | | apply IH].
  rewrite IH. apply length_name_function.
Qed.

Lemma length_read_names subs fs : length (read_names subs fs) = length fs.
Proof.
  revert fs. induction subs as [| [[ns |] |] subs IH]; intros fs; simpl; try reflexivity; [| apply IH].
  rewrite IH. apply length_name_functions.
Qed.

Lemma record_section_within budget k n r p : within budget p -> within budget (record_section k n r p).
Proof.
  intros [???? Hs ?]. unfold record_section. destruct (_ <? _)%nat eqn:E; [| by constructor].
  apply Nat.ltb_lt in E. constructor; simpl; try assumption.
  rewrite length_app. simpl. unfold model_max_sections in *. lia.
Qed.

Ltac within_step :=
  match goal with H : within _ _ |- _ => destruct H end;
  parser_step; constructor; simpl; rewrite ?length_app, ?length_insert, ?length_read_names; simpl;
  repeat match goal with E : (_ <=? _)%nat = false |- _ => apply Nat.leb_gt in E end;
  try assumption; try lia.

Section Budgets.
Context (show_f32 show_f64 : Z -> string) (budget : ParseBudget).

Lemma parse_type_within c p p' : within budget p -> parse_type budget c p = inr p' -> within budget p'.
Proof. intros W E. unfold parse_type in E. within_step. Qed.

Lemma parse_group_within g p p' : within budget p -> parse_group budget g p = inr p' -> within budget p'.
Proof.
  revert p. induction g as [| c g IH]; intros p W E; simpl in E; [congruence |].
  destruct (parse_type budget c p) as [e | p1] eqn:F; [congruence |]. eauto using parse_type_within.
Qed.

Lemma parse_import_within i a p p' : within budget p -> parse_import i a p = inr p' -> within budget p'.
Proof. intros W E. unfold parse_import in E. within_step. Qed.

Lemma parse_function_within i a p p' :
  within budget p -> parse_function budget i a p = inr p' -> within budget p'.
Proof. intros W E. unfold parse_function in E. within_step. Qed.

Lemma parse_table_within i a p p' : within budget p -> parse_table i a p = inr p' -> within budget p'.
Proof. intros W E. unfold parse_table in E. within_step. Qed.

Lemma parse_memory_within i a p p' : within budget p -> parse_memory i a p = inr p' -> within budget p'.
Proof. intros W E. unfold parse_memory in E. within_step. Qed.

Lemma parse_global_within i a p p' :
  within budget p -> parse_global show_f32 show_f64 i a p = inr p' -> within budget p'.
Proof. intros W E. unfold parse_global in E. within_step. Qed.

Lemma parse_export_within i a p p' : within budget p -> parse_export i a p = inr p' -> within budget p'.
Proof. intros W E. unfold parse_export in E. within_step. Qed.

Lemma parse_element_within i a p p' :
  within budget p -> parse_element budget i a p = inr p' -> within budget p'.
Proof. intros W E. unfold parse_element in E. within_step. Qed.

Lemma parse_code_within r l p p' : within budget p -> parse_code r l p = inr p' -> within budget p'.
Proof.
  intros W E. unfold parse_code in E. destruct (p_functions p !! p_cursor p) eqn:L; [| congruence].
  apply lookup_lt_Some in L. within_step.
Qed.

Lemma parse_data_within i a p p' : within budget p -> parse_data budget i a p = inr p' -> within budget p'.
Proof. intros W E. unfold parse_data in E. within_step. Qed.

Lemma parse_payload_within pl p p' :
  within budget p -> parse_payload show_f32 show_f64 budget pl p = inr p' -> within budget p'.
Proof.
  intros W E.
  destruct pl; simpl in E; try (apply (inj inr) in E; subst p');
    try (refine (each_inv _ _ _ _ _ _ _ (record_section_within _ _ _ _ _ W) E); clear);
    try (apply record_section_within; exact W); try exact W.
  - intros _ a p p'. apply parse_group_within.
  - intros i a p p'. apply parse_import_within.
  - intros i a p p'. apply parse_function_within.
  - intros i a p p'. apply parse_table_within.
  - intros i a p p'. apply parse_memory_within.
  - intros i a p p'. apply parse_global_within.
  - intros i a p p'. apply parse_export_within.
  - within_step.
  - intros i a p p'. apply parse_element_within.
  - exact (parse_code_within _ _ _ _ W E).
  - intros i a p p'. apply parse_data_within.
  - apply (record_section_within budget 13 "tag" range) in W. within_step.
  - within_step.
  - within_step.
  - within_step.
Qed.

Lemma parse_payloads_within pls p p' :
  within budget p -> parse_payloads show_f32 show_f64 budget pls p = inr p' -> within budget p'.
Proof.
  revert p. induction pls as [| [e | pl] pls IH]; intros p W E; simpl in E; try congruence.
  destruct (parse_payload _ _ _ _ _) as [e | p1] eqn:F in E; [congruence |].
  eauto using parse_payload_within.
Qed.
End Budgets.

(** Declared locals are not budgeted: a body holds as many as its five-byte counts say. *)
Lemma locals_unbudgeted n ty : 0 <= n -> read_locals [inr (n, ty)] [] = inr (replicate (Z.to_nat n) ty).
Proof. reflexivity. Qed.

(** *** The function index space *)

(** The payloads that decide it. *)
Definition code_range (e : PErr + Payload) : option (Z * Z) :=
  match e with inr (CodeSectionEntry r _) => Some r | _ => None end.
Definition declares_functions (e : PErr + Payload) : bool :=
  match e with inr (FunctionSection _ _) => true | _ => false end.
Definition imports_entries (e : PErr + Payload) : bool :=
  match e with inr (ImportSection _ _) => true | _ => false end.

Definition view (p : pstate) : Z * list FunctionEntry * nat := (p_imported p, p_functions p, p_cursor p).

(** What naming keeps of a function. *)
Definition fn_key (f : FunctionEntry) : Z * Z * Z * Z := (fn_index f, fn_type f, code_offset f, code_size f).

Lemma fn_keys_name_function k n fs : fn_key <$> name_function k n fs = fn_key <$> fs.
Proof. induction fs as [| f fs IH]; simpl; [reflexivity |]. destruct (_ =? _); simpl; [reflexivity |]. by f_equal. Qed.

Lemma fn_keys_name_functions ns fs : fn_key <$> name_functions ns fs = fn_key <$> fs.
Proof.
  revert fs. induction ns as [| [[k n] |] ns IH]; intros fs; simpl; [reflexivity | | apply IH].
  rewrite IH. apply fn_keys_name_function.
Qed.

Lemma fn_keys_read_names subs fs : fn_key <$> read_names subs fs = fn_key <$> fs.
Proof.
  revert fs. induction subs as [| [[ns |] |] subs IH]; intros fs; simpl; try reflexivity; [| apply IH].
  rewrite IH. apply fn_keys_name_functions.
Qed.

Lemma view_record_section k n r p : view (record_section k n r p) = view p.
Proof. unfold record_section. by destruct (_ <? _)%nat. Qed.

Ltac view_step := parser_step; first [reflexivity | assumption].

Lemma view_parse_group budget g p p' : parse_group budget g p = inr p' -> view p' = view p.
Proof.
  revert p. induction g as [| c g IH]; intros p E; simpl in E; [by apply (inj inr) in E; subst |].
  destruct (parse_type budget c p) as [e | p1] eqn:F; [congruence |]. rewrite (IH _ E).
  unfold parse_type in F. view_step.
Qed.

(** Bodies, declarations and imports apart, a payload leaves the index space alone up to names. *)
Lemma view_other s32 s64 budget pl p p' :
  code_range (inr pl) = None -> declares_functions (inr pl) = false -> imports_entries (inr pl) = false ->
  parse_payload s32 s64 budget pl p = inr p' ->
  p_imported p' = p_imported p /\ fn_key <$> p_functions p' = fn_key <$> p_functions p /\ p_cursor p' = p_cursor p.
Proof.
  intros C D I E.
  assert ((exists subs, pl = CustomName subs) \/ view p' = view p) as [[subs ->] | V].
  { destruct pl; simpl in *; try discriminate; eauto; right;
      try (apply (inj inr) in E; subst p'; first [reflexivity | apply view_record_section]);
      try (match type of E with each ?f _ _ (record_section ?k ?n ?r _) = _ =>
             rewrite <- (view_record_section k n r p);
             refine (each_inv f (fun q => view q = view (record_section k n r p)) _ _ _ _ _ eq_refl E);
             clear; intros i a q q' <- E end).
    - exact (view_parse_group _ _ _ _ E).
    - unfold parse_table in E. view_step.
    - unfold parse_memory in E. view_step.
    - unfold parse_global in E. view_step.
    - unfold parse_export in E. view_step.
    - unfold parse_element in E. view_step.
    - unfold parse_data in E. view_step.
    - view_step. }
  - simpl in E. apply (inj inr) in E. subst p'. simpl.
    split_and!; [reflexivity | apply fn_keys_read_names | reflexivity].
  - unfold view in V. apply (inj2 pair) in V as [V ?]. apply (inj2 pair) in V as [??]. split_and!; congruence.
Qed.

(** A declared function before and after its body is read. *)
Definition declared (imported : Z) (rs : list (Z * Z)) (i : nat) (t : Z) : Z * Z * Z * Z :=
  let r := default (0, 0) (rs !! i) in ((imported + Z.of_nat i) mod u32_modulus, t, r.1, r.2 - r.1).

Lemma declare_functions budget es i p p' :
  each (parse_function budget) i es p = inr p' ->
  exists ts, es = inr <$> ts /\ p_imported p' = p_imported p /\ p_cursor p' = p_cursor p /\
    fn_key <$> p_functions p' =
      (fn_key <$> p_functions p) ++ imap (fun k t => declared (p_imported p) [] (i + k) t) ts.
Proof.
  revert i p. induction es as [| [e | t] es IH]; intros i p E; simpl in E.
  - apply (inj inr) in E. subst p'. exists []. by rewrite app_nil_r.
  - congruence.
  - unfold parse_function at 1 in E. destruct (_ <=? _)%nat; [congruence |].
    destruct (IH _ _ E) as (ts & -> & Hi & Hc & Hf). simpl in *. exists (t :: ts).
    split_and!; [reflexivity | exact Hi | exact Hc |].
    rewrite Hf, fmap_app, <- app_assoc. simpl. f_equal. f_equal.
    + unfold declared, fn_key. simpl. by rewrite Nat.add_0_r.
    + apply imap_ext. intros k u _. simpl. f_equal. lia.
Qed.

Lemma parse_code_key r l p p' ts rs imp :
  fn_key <$> p_functions p = imap (declared imp rs) ts -> p_cursor p = length rs ->
  parse_code r l p = inr p' ->
  p_imported p' = p_imported p /\ fn_key <$> p_functions p' = imap (declared imp (rs ++ [r])) ts /\
  p_cursor p' = length (rs ++ [r]).
Proof.
  intros Hf Hc E. unfold parse_code in E.
  destruct (p_functions p !! p_cursor p) as [f |] eqn:L; [| congruence].
  destruct l as [e | es]; [congruence |]. destruct (read_locals es []) as [e | tys]; [congruence |].
  apply (inj inr) in E. subst p'. simpl. split_and!; [reflexivity | | rewrite length_app; simpl; lia].
  rewrite list_fmap_insert, Hf. apply list_eq. intros k. rewrite list_lookup_imap.
  assert (fn_key <$> Some f = imap (declared imp rs) ts !! p_cursor p) as Hk by (by rewrite <- L, <- Hf, list_lookup_fmap).
  rewrite list_lookup_imap in Hk. destruct (ts !! p_cursor p) as [t |] eqn:T; [| discriminate].
  assert (length ts = length (p_functions p)) as Hl by
    (apply (f_equal length) in Hf; rewrite length_fmap, length_imap in Hf; lia).
  destruct (decide (k = p_cursor p)) as [-> | Hne].
  - rewrite list_lookup_insert_eq by (rewrite length_imap; apply lookup_lt_Some in T; exact T).
    rewrite T. simpl. f_equal. apply (inj Some) in Hk. unfold declared in *. simpl in *.
    rewrite Hc, lookup_app_r, Nat.sub_diag by lia. simpl. unfold fn_key in *. simpl.
    rewrite Hc in Hk. congruence.
  - rewrite list_lookup_insert_ne, list_lookup_imap by congruence.
    destruct (ts !! k) as [u |] eqn:K; [| reflexivity]. simpl. f_equal. unfold declared.
    destruct (decide (k < length rs)%nat).
    + by rewrite lookup_app_l.
    + rewrite lookup_ge_None_2 by lia. rewrite lookup_ge_None_2; [reflexivity |]. rewrite length_app. simpl. lia.
Qed.

Section Indexing.
Context (s32 s64 : Z -> string) (budget : ParseBudget).
Abbreviation run := (parse_payloads s32 s64 budget).

Lemma run_app a b p : run (a ++ b) p = match run a p with inl e => inl e | inr p' => run b p' end.
Proof.
  revert p. induction a as [| [e | pl] a IH]; intros p; simpl; [reflexivity | reflexivity |].
  destruct (parse_payload _ _ _ _ _); [reflexivity | apply IH].
Qed.

(** Before the function section there is no function, so no body either. *)
Lemma run_before pls p p' :
  existsb declares_functions pls = false -> p_functions p = [] -> run pls p = inr p' ->
  p_functions p' = [] /\ p_cursor p' = p_cursor p /\ omap code_range pls = [].
Proof.
  revert p. induction pls as [| [e | pl] pls IH]; intros p D F E; simpl in *; [| congruence |].
  { apply (inj inr) in E. by subst. }
  apply orb_false_iff in D as [D1 D].
  destruct (parse_payload s32 s64 budget pl p) as [e | p1] eqn:P; [congruence |].
  assert (p_functions p1 = [] /\ p_cursor p1 = p_cursor p /\ code_range (inr pl) = None) as (F1 & C1 & R1).
  { destruct (code_range (inr pl)) eqn:C.
    { destruct pl; try discriminate. simpl in P. unfold parse_code in P. rewrite F, lookup_nil in P. discriminate. }
    destruct (imports_entries (inr pl)) eqn:I.
    - destruct pl; try discriminate. simpl in P.
      enough (p_functions p1 = p_functions p /\ p_cursor p1 = p_cursor p) by (rewrite <- F; tauto).
      refine (each_inv _ (fun q => p_functions q = p_functions p /\ p_cursor q = p_cursor p) _ _ _ _ _ _ P).
      + intros i a q q' [<- <-] Q. unfold parse_import in Q. parser_step; by split.
      + unfold record_section. by destruct (_ <? _)%nat.
    - destruct (view_other _ _ _ _ _ _ C D1 I P) as (_ & Hf & Hc).
      rewrite F in Hf. apply fmap_nil_inv in Hf. tauto. }
  destruct (IH _ D F1 E) as (F2 & C2 & R2). simpl in R1. rewrite R1. split_and!; [exact F2 | congruence | exact R2].
Qed.

(** After it, bodies attach to the declared functions in order. *)
Lemma run_after pls p p' ts rs imp :
  existsb declares_functions pls = false -> existsb imports_entries pls = false ->
  p_imported p = imp -> fn_key <$> p_functions p = imap (declared imp rs) ts -> p_cursor p = length rs ->
  run pls p = inr p' ->
  p_imported p' = imp /\ fn_key <$> p_functions p' = imap (declared imp (rs ++ omap code_range pls)) ts.
Proof.
  revert p rs. induction pls as [| [e | pl] pls IH]; intros p rs D I Hi Hf Hc E; simpl in *; [| congruence |].
  { apply (inj inr) in E. subst. by rewrite app_nil_r. }
  apply orb_false_iff in D as [D1 D]. apply orb_false_iff in I as [I1 I].
  destruct (parse_payload s32 s64 budget pl p) as [e | p1] eqn:P; [congruence |].
  destruct (code_range (inr pl)) as [r |] eqn:C.
  - destruct pl; try discriminate. simpl in C. apply (inj Some) in C. subst r. simpl in P.
    destruct (parse_code_key _ _ _ _ _ _ _ Hf Hc P) as (Hi1 & Hf1 & Hc1). rewrite Hi in Hi1.
    destruct (IH _ _ D I Hi1 Hf1 Hc1 E) as [H1 H2]. rewrite <- app_assoc in H2. by split.
  - destruct (view_other _ _ _ _ _ _ C D1 I1 P) as (Hi1 & Hf1 & Hc1).
    rewrite Hi in Hi1. rewrite Hf in Hf1. rewrite Hc in Hc1. simpl in C. rewrite C.
    exact (IH _ _ D I Hi1 Hf1 Hc1 E).
Qed.

Lemma run_index_space pre r es post p :
  existsb declares_functions (pre ++ post) = false -> existsb imports_entries post = false ->
  run (pre ++ inr (FunctionSection r es) :: post) pstate_init = inr p ->
  exists ts, es = inr <$> ts /\
    fn_key <$> p_functions p =
      imap (declared (p_imported p) (omap code_range (pre ++ inr (FunctionSection r es) :: post))) ts.
Proof.
  intros D I E. rewrite existsb_app in D. apply orb_false_iff in D as [D1 D2].
  rewrite run_app in E. destruct (run pre pstate_init) as [e | p1] eqn:P1; [congruence |].
  destruct (run_before _ pstate_init _ D1 eq_refl P1) as (F1 & C1 & R1).
  cbn [parse_payloads parse_payload] in E.
  destruct (each _ 0%nat es _) as [e | p2] eqn:P2 in E; [congruence |].
  destruct (declare_functions _ _ _ _ _ P2) as (ts & -> & Hi & Hc & Hf).
  pose proof (view_record_section 3 "function" r p1) as V. unfold view in V.
  apply (inj2 pair) in V as [V V3]. apply (inj2 pair) in V as [V1 V2].
  rewrite V1 in Hi. rewrite V2, F1, V1 in Hf. rewrite V3, C1 in Hc. simpl in Hf, Hc.
  destruct (run_after _ _ _ ts [] _ D2 I Hi Hf Hc E) as [Hi2 Hf2].
  exists ts. split; [reflexivity |]. rewrite omap_app, R1. simpl. rewrite Hi2. exact Hf2.
Qed.
End Indexing.

(** *** Claims *)

(** Whatever the parser yields, a model that is returned respects its
    budget: at most [max_types] types, [max_functions] functions,
    [max_elements] element segments and [max_datas] data segments, and at
    most 4096 recorded sections; a module that needs more is an error. *)
Theorem parse_within_budget s32 s64 parse_all bytes budget m :
  parse_with_budget s32 s64 parse_all bytes budget = inr m ->
  (length (types m) <= max_types budget)%nat /\ (length (functions m) <= max_functions budget)%nat /\
  (length (elements m) <= max_elements budget)%nat /\ (length (datas m) <= max_datas budget)%nat /\
  (length (sections m) <= model_max_sections)%nat.
Proof.
  intros E. unfold parse_with_budget in E. parser_step. simpl.
  match goal with H : parse_payloads _ _ _ _ _ = _ |- _ => apply parse_payloads_within in H as [] end.
  - split_and!; assumption.
  - constructor; simpl; lia.
Qed.

(** A module of two imported and two defined functions. *)
Definition sample_payloads : entries Payload :=
  [inr (TypeSection (10, 20) [inr [CFunc ["i32"] []]; inr [CStruct]]);
   inr (ImportSection (20, 40) [inr ("env", "log", TFunc 0); inr ("wasi_snapshot_preview1", "fd_write", TFunc 1)]);
   inr (FunctionSection (40, 43) [inr 0; inr 1]);
   inr (CodeSectionStart (43, 70));
   inr (CodeSectionEntry (45, 50) (inr [inr (2, "i32")]));
   inr (CodeSectionEntry (52, 60) (inr []));
   inr (CustomName [Some (FunctionNames [Some (3, "main")])])].
Definition sample_bytes : list Z := [0; 0x61; 0x73; 0x6d; 1; 0; 0; 0].
Definition sample_budget : ParseBudget := {| max_sections := 4096; max_types := 2; max_functions := 2; max_elements := 1; max_datas := 1 |}.
Definition show_none (z : Z) : string := "".

Lemma parse_within_budget_witness :
  exists m, parse_with_budget show_none show_none (fun _ => sample_payloads) sample_bytes sample_budget = inr m /\
    (length (functions m) <= 2)%nat.
Proof.
  eexists. split; [vm_compute; reflexivity |].
  refine (proj1 (proj2 (parse_within_budget show_none show_none (fun _ => sample_payloads) sample_bytes
    sample_budget _ _))).
  vm_compute. reflexivity.
Defined.


