(* ===== verification/WasmCfg.v ===== *)
(** * WasmCfg: structured control flow of a function body

    Models [rmcp-wasm/src/cfg.rs]: [analyze_body] walks the operators of a
    body once and recovers its nested regions, the branches into them and its
    call sites.  The operators are the reader's ([WasmModule.Body]). *)

From stdpp Require Import base list strings sorting.
From Stdlib Require Import ZArith Lia.
From S2P Require Import Prelude Text WasmModule.

Local Open Scope Z_scope.

Inductive BlockKind := KFunction | KBlock | KLoop | KIf (has_else : bool) | KTry.

Record Region := {
  rg_id : Z; rg_kind : BlockKind; start_offset : Z; branch_sources : list Z; end_offset : Z;
  rg_parent : option Z }.

Record StructuredCfg := {
  regions : list Region;
  calls : list (Z * Z);
  indirect_calls : list (Z * Z * Z);
  br_tables : list (Z * list Z);
  diagnostics : list string;
  operator_count : Z }.

Definition StructuredCfg_default : StructuredCfg :=
  {| regions := []; calls := []; indirect_calls := []; br_tables := []; diagnostics := []; operator_count := 0 |}.

Definition set_regions (x : list Region) (c : StructuredCfg) : StructuredCfg :=
  {| regions := x; calls := calls c; indirect_calls := indirect_calls c; br_tables := br_tables c;
     diagnostics := diagnostics c; operator_count := operator_count c |}.
Definition push_diagnostic (d : string) (c : StructuredCfg) : StructuredCfg :=
  {| regions := regions c; calls := calls c; indirect_calls := indirect_calls c; br_tables := br_tables c;
     diagnostics := diagnostics c ++ [d]; operator_count := operator_count c |}.
Definition push_call (x : Z * Z) (c : StructuredCfg) : StructuredCfg :=
  {| regions := regions c; calls := calls c ++ [x]; indirect_calls := indirect_calls c;
     br_tables := br_tables c; diagnostics := diagnostics c; operator_count := operator_count c |}.
Definition push_indirect (x : Z * Z * Z) (c : StructuredCfg) : StructuredCfg :=
  {| regions := regions c; calls := calls c; indirect_calls := indirect_calls c ++ [x];
     br_tables := br_tables c; diagnostics := diagnostics c; operator_count := operator_count c |}.
Definition push_table (x : Z * list Z) (c : StructuredCfg) : StructuredCfg :=
  {| regions := regions c; calls := calls c; indirect_calls := indirect_calls c;
     br_tables := br_tables c ++ [x]; diagnostics := diagnostics c; operator_count := operator_count c |}.
Definition count_operator (c : StructuredCfg) : StructuredCfg :=
  {| regions := regions c; calls := calls c; indirect_calls := indirect_calls c; br_tables := br_tables c;
     diagnostics := diagnostics c; operator_count := operator_count c + 1 |}.

(** Stacks keep their top in front. *)
Definition resolve_label (stack : list Z) (depth : Z) : option Z := stack !! Z.to_nat depth.

(** [iter_mut().find(|r| r.id == id)] and an update of what it finds. *)
Fixpoint with_region (id : Z) (f : Region -> Region) (rs : list Region) : list Region :=
  match rs with
  | [] => []
  | r :: rs' => if rg_id r =? id then f r :: rs' else r :: with_region id f rs'
  end.

Definition add_source (at_ : Z) (r : Region) : Region :=
  {| rg_id := rg_id r; rg_kind := rg_kind r; start_offset := start_offset r;
     branch_sources := branch_sources r ++ [at_]; end_offset := end_offset r; rg_parent := rg_parent r |}.
Definition mark_else (r : Region) : Region :=
  match rg_kind r with
  | KIf _ => {| rg_id := rg_id r; rg_kind := KIf true; start_offset := start_offset r;
                branch_sources := branch_sources r; end_offset := end_offset r; rg_parent := rg_parent r |}
  | _ => r
  end.
Definition close_at (pos : Z) (r : Region) : Region :=
  {| rg_id := rg_id r; rg_kind := rg_kind r; start_offset := start_offset r;
     branch_sources := branch_sources r; end_offset := pos; rg_parent := rg_parent r |}.

Definition record_branch (region at_ : Z) (c : StructuredCfg) : StructuredCfg :=
  set_regions (with_region region (add_source at_) (regions c)) c.

(** The locals of the loop. *)
Record walk := { w_cfg : StructuredCfg; w_stack : list Z; w_next : Z; w_open : list (Z * Z) }.

Definition open_region (kind : BlockKind) (pos : Z) (w : walk) : walk :=
  {| w_cfg := set_regions (regions (w_cfg w) ++
       [{| rg_id := w_next w; rg_kind := kind; start_offset := pos; branch_sources := []; end_offset := 0;
           rg_parent := head (w_stack w) |}]) (w_cfg w);
     w_stack := w_next w :: w_stack w; w_next := w_next w + 1; w_open := (w_next w, pos) :: w_open w |}.

Definition upd_cfg (f : StructuredCfg -> StructuredCfg) (w : walk) : walk :=
  {| w_cfg := f (w_cfg w); w_stack := w_stack w; w_next := w_next w; w_open := w_open w |}.

Definition branch (what : string) (pos depth : Z) (w : walk) : walk :=
  match resolve_label (w_stack w) depth with
  | Some t => upd_cfg (record_branch t pos) w
  | None =>
      upd_cfg (push_diagnostic (what +:+ " at " +:+ show_0x pos +:+ ": depth " +:+ show_dec depth
                                 +:+ " out of range")) w
  end.

Definition branch_table (pos : Z) (targets : list (option Z)) (default_target : Z) (w : walk) : walk :=
  let resolved := omap (resolve_label (w_stack w)) (omap id targets)
                  ++ option_list (resolve_label (w_stack w) default_target) in
  let w := upd_cfg (push_table (pos, resolved)) w in
  foldl (fun w id => upd_cfg (record_branch id pos) w) w resolved.

Definition close_region (pos : Z) (w : walk) : walk :=
  match w_open w with
  | (id, _) :: opened =>
      {| w_cfg := set_regions (with_region id (close_at pos) (regions (w_cfg w))) (w_cfg w);
         w_stack := tail (w_stack w); w_next := w_next w; w_open := opened |}
  | [] => {| w_cfg := w_cfg w; w_stack := tail (w_stack w); w_next := w_next w; w_open := [] |}
  end.

(** One operator. *)
Definition walk_op (pos : Z) (o : Operator) (w : walk) : WResult walk :=
  match o with
  | Block => if 1000000 <? w_next w + 1 then inl (Budget "region count") else inr (open_region KBlock pos w)
  | Loop => inr (open_region KLoop pos w)
  | If => inr (open_region (KIf false) pos w)
  | Else =>
      inr (match w_stack w with
           | id :: _ => upd_cfg (fun c => set_regions (with_region id mark_else (regions c)) c) w
           | [] => w
           end)
  | Try | TryTable =>
      inr (upd_cfg (push_diagnostic ("try construct at " +:+ show_0x pos +:+ ": exception-handling proposal"))
             (open_region KTry pos w))
  | Br depth => inr (branch "br" pos depth w)
  | BrIf depth => inr (branch "br_if" pos depth w)
  | BrTable targets dflt => inr (branch_table pos targets dflt w)
  | Call f => inr (upd_cfg (push_call (pos, f)) w)
  | CallIndirect ty table => inr (upd_cfg (push_indirect (pos, ty, table)) w)
  | ReturnCall f =>
      inr (upd_cfg (fun c => push_diagnostic ("tail call at " +:+ show_0x pos +:+ ": tail-call proposal")
                               (push_call (pos, f) c)) w)
  | ReturnCallIndirect => inr (upd_cfg (push_diagnostic ("tail call_indirect at " +:+ show_0x pos)) w)
  | End => inr (close_region pos w)
  | _ => inr w
  end.

Definition max_operators : Z := 5000000.

Fixpoint walk_ops (l : list ReadOp) (fault : option (Z * string)) (w : walk) : WResult walk :=
  match l with
  | [] => match fault with Some (off, msg) => inl (Parse off msg) | None => inr w end
  | o :: l' =>
      let w := upd_cfg count_operator w in
      if max_operators <? operator_count (w_cfg w) then inl (Budget "operators per function")
      else
        match walk_op (op_at o) (op o) w with
        | inl e => inl e
        | inr w' =>
            match op o, w_stack w' with
            | End, [] => inr w'
            | _, _ => walk_ops l' fault w'
            end
        end
  end.

Definition walk_init : walk :=
  {| w_cfg := StructuredCfg_default; w_stack := [0]; w_next := 1; w_open := [(0, 0)] |}.

Definition finish_walk (w : walk) : StructuredCfg :=
  let unclosed := length (w_stack w) in
  if (1 <? unclosed)%nat
  then push_diagnostic (show_dec (Z.of_nat unclosed) +:+ " region(s) left unclosed at function end") (w_cfg w)
  else w_cfg w.

Definition analyze_body (b : Body) : WResult StructuredCfg :=
  match walk_ops (ops b) (fault b) walk_init with
  | inl e => inl e
  | inr w => inr (finish_walk w)
  end.

(** ** The nesting invariant *)

Record region_ok (p : Z) (stk : list Z) (i : nat) (r : Region) : Prop := {
  ro_id : rg_id r = Z.of_nat (S i);
  ro_start : start_offset r < p;
  ro_closed : rg_id r ∉ stk -> start_offset r < end_offset r < p;
  ro_sources : forall a, a ∈ branch_sources r ->
    start_offset r < a < p /\ (rg_id r ∉ stk -> a < end_offset r);
  ro_parent : exists q, rg_parent r = Some q /\ 0 <= q < rg_id r;
}.

(** Regions opened later start later and do not overlap those before. *)
Definition laminar (stk : list Z) (rs : list Region) : Prop :=
  forall i j r r', rs !! i = Some r -> rs !! j = Some r' -> (i < j)%nat ->
    start_offset r < start_offset r' /\
    (rg_id r ∉ stk -> end_offset r < start_offset r' \/ (rg_id r' ∉ stk /\ end_offset r' < end_offset r)).

Record nested (p : Z) (w : walk) : Prop := {
  n_ok : forall i r, regions (w_cfg w) !! i = Some r -> region_ok p (w_stack w) i r;
  n_laminar : laminar (w_stack w) (regions (w_cfg w));
  n_next : w_next w = Z.of_nat (length (regions (w_cfg w))) + 1;
  n_open : (w_open w).*1 = w_stack w;
  n_stack : StronglySorted Z.gt (w_stack w);
  n_range : Forall (fun q => 0 <= q < w_next w) (w_stack w);
}.

(** Ids number the regions, so the search finds the one that has the id. *)
Lemma with_region_alter id f rs k :
  (forall i r, rs !! i = Some r -> rg_id r = Z.of_nat (k + i)) ->
  with_region id f rs = if bool_decide (Z.of_nat k <= id) then alter f (Z.to_nat id - k)%nat rs else rs.
Proof.
  revert k. induction rs as [| r rs IH]; intros k H; simpl; [by destruct (bool_decide _) |].
  pose proof (H 0%nat r eq_refl) as E. rewrite Nat.add_0_r in E. rewrite E.
  assert (forall i x, rs !! i = Some x -> rg_id x = Z.of_nat (S k + i)) as H'.
  { intros i x Hx. rewrite (H (S i) x Hx). f_equal. lia. }
  rewrite (IH (S k) H'). clear IH H' H. destruct (Z.eqb_spec (Z.of_nat k) id) as [<- | Hne].
  - rewrite bool_decide_true by lia. by rewrite Nat2Z.id, Nat.sub_diag.
  - destruct (decide (Z.of_nat k <= id)).
    + rewrite !bool_decide_true by lia. replace (Z.to_nat id - k)%nat with (S (Z.to_nat id - S k)) by lia. reflexivity.
    + by rewrite !bool_decide_false by lia.
Qed.

Definition numbered (rs : list Region) : Prop :=
  forall i r, rs !! i = Some r -> rg_id r = Z.of_nat (S i).

Lemma lookup_with_region rs id f i r' :
  numbered rs -> with_region id f rs !! i = Some r' ->
  exists r, rs !! i = Some r /\ (r' = r /\ rg_id r <> id \/ r' = f r /\ rg_id r = id).
Proof.
  intros H. rewrite (with_region_alter id f rs 1) by exact H.
  destruct (decide (1 <= id)) as [L | L]; [rewrite bool_decide_true by lia | rewrite bool_decide_false by lia].
  - destruct (decide (i = Z.to_nat id - 1)%nat) as [-> | N].
    + rewrite list_lookup_alter_eq. intros (r & Hr & ->)%fmap_Some. exists r. split; [exact Hr |]. right.
      split; [reflexivity |]. rewrite (H _ _ Hr). lia.
    + rewrite list_lookup_alter_ne by congruence. intros Hr. exists r'. split; [exact Hr |]. left.
      split; [reflexivity |]. rewrite (H _ _ Hr). lia.
  - intros Hr. exists r'. split; [exact Hr |]. left. split; [reflexivity |]. rewrite (H _ _ Hr). lia.
Qed.

Lemma length_with_region id f rs : length (with_region id f rs) = length rs.
Proof. induction rs as [| r rs IH]; simpl; [reflexivity |]. destruct (_ =? _); simpl; congruence. Qed.

Lemma nested_numbered p w : nested p w -> numbered (regions (w_cfg w)).
Proof. intros N i r Hr. exact (ro_id _ _ _ _ (n_ok _ _ N i r Hr)). Qed.

(** *** Updates that keep the layout *)

Record refreshed (pos : Z) (stk : list Z) (r r' : Region) : Prop := {
  rf_id : rg_id r' = rg_id r;
  rf_start : start_offset r' = start_offset r;
  rf_end : end_offset r' = end_offset r;
  rf_parent : rg_parent r' = rg_parent r;
  rf_sources : forall a, a ∈ branch_sources r' -> a ∈ branch_sources r \/ (a = pos /\ rg_id r ∈ stk);
}.

Definition refresh (pos : Z) (stk : list Z) (rs rs' : list Region) : Prop :=
  length rs' = length rs /\
  forall i r', rs' !! i = Some r' -> exists r, rs !! i = Some r /\ refreshed pos stk r r'.

Lemma refreshed_refl pos stk r : refreshed pos stk r r.
Proof. constructor; auto. Qed.

Lemma refresh_refl pos stk rs : refresh pos stk rs rs.
Proof. split; [reflexivity |]. eauto using refreshed_refl. Qed.

Lemma refresh_trans pos stk rs1 rs2 rs3 :
  refresh pos stk rs1 rs2 -> refresh pos stk rs2 rs3 -> refresh pos stk rs1 rs3.
Proof.
  intros [L1 H1] [L2 H2]. split; [congruence |]. intros i r3 Hr3.
  destruct (H2 i r3 Hr3) as (r2 & Hr2 & [??? ? S2]). destruct (H1 i r2 Hr2) as (r1 & Hr1 & [I1 ?? ? S1]).
  exists r1. split; [exact Hr1 |]. constructor; try congruence.
  intros a [Ha | Ha]%S2; [eauto |]. rewrite I1 in Ha. eauto.
Qed.

Lemma refresh_numbered pos stk rs rs' : refresh pos stk rs rs' -> numbered rs -> numbered rs'.
Proof. intros [_ H] N i r' Hr'. destruct (H i r' Hr') as (r & Hr & [-> _ _ _ _]). eauto. Qed.

Lemma refresh_with_region pos stk id f rs :
  numbered rs -> (forall r, rg_id r = id -> refreshed pos stk r (f r)) -> refresh pos stk rs (with_region id f rs).
Proof.
  intros N F. split; [apply length_with_region |]. intros i r' Hr'.
  destruct (lookup_with_region _ _ _ _ _ N Hr') as (r & Hr & [[-> _] | [-> E]]); exists r; split; auto using refreshed_refl.
Qed.

Lemma refresh_mark_else pos stk id rs : numbered rs -> refresh pos stk rs (with_region id mark_else rs).
Proof.
  intros N. apply refresh_with_region; [exact N |]. intros r _. unfold mark_else.
  destruct (rg_kind r); first [apply refreshed_refl | constructor; simpl; auto].
Qed.

Lemma refresh_record_branch pos stk id c :
  numbered (regions c) -> id ∈ stk -> refresh pos stk (regions c) (regions (record_branch id pos c)).
Proof.
  intros N Hid. apply refresh_with_region; [exact N |]. intros r E. constructor; simpl; auto.
  intros a [Ha | ->%list_elem_of_singleton]%elem_of_app; [auto |]. right. by rewrite E.
Qed.

Lemma resolve_label_elem stk d id : resolve_label stk d = Some id -> id ∈ stk.
Proof. apply list_elem_of_lookup_2. Qed.

Lemma refresh_branch what pos d w :
  numbered (regions (w_cfg w)) -> refresh pos (w_stack w) (regions (w_cfg w)) (regions (w_cfg (branch what pos d w))).
Proof.
  intros N. unfold branch. destruct (resolve_label _ _) eqn:E; simpl; [| apply refresh_refl].
  apply refresh_record_branch; eauto using resolve_label_elem.
Qed.

Lemma refresh_branches pos (l : list Z) w :
  numbered (regions (w_cfg w)) -> Forall (fun q => q ∈ w_stack w) l ->
  let w' := foldl (fun w id => upd_cfg (record_branch id pos) w) w l in
  refresh pos (w_stack w) (regions (w_cfg w)) (regions (w_cfg w')) /\
  w_stack w' = w_stack w /\ w_next w' = w_next w /\ w_open w' = w_open w.
Proof.
  revert w. induction l as [| q l IH]; intros w N F; simpl; [split_and!; try reflexivity; apply refresh_refl |].
  apply Forall_cons in F as [Hq F].
  pose proof (refresh_record_branch pos _ _ _ N Hq) as R.
  destruct (IH (upd_cfg (record_branch q pos) w) (refresh_numbered _ _ _ _ R N) F) as (R' & E1 & E2 & E3).
  split_and!; [exact (refresh_trans _ _ _ _ _ R R') | exact E1 | exact E2 | exact E3].
Qed.

Lemma nested_refresh p p' pos w w' :
  nested p w -> p <= pos -> pos < p' ->
  refresh pos (w_stack w) (regions (w_cfg w)) (regions (w_cfg w')) ->
  w_stack w' = w_stack w -> w_next w' = w_next w -> w_open w' = w_open w -> nested p' w'.
Proof.
  intros [Hok Hl Hn Ho Hs Hr] Lp Lp' [Len R] Es En Eo. constructor; rewrite ?Es, ?En, ?Eo, ?Len; try assumption.
  - intros i r' Hi. destruct (R _ _ Hi) as (r & Hri & [Ei E1 E2 E3 S]). destruct (Hok _ _ Hri) as [O1 O2 O3 O4 O5].
    constructor; rewrite ?Ei, ?E1, ?E2, ?E3; try assumption; [lia | intros X; specialize (O3 X); lia |].
    intros a [Ha | [-> Hin]]%S; [destruct (O4 a Ha); split; [lia | assumption] |]. split; [lia | intros X; by destruct X].
  - intros i j r r' Hi Hj Lt. destruct (R _ _ Hi) as (x & Hx & [-> -> -> _ _]).
    destruct (R _ _ Hj) as (y & Hy & [-> -> -> _ _]). exact (Hl _ _ _ _ Hx Hy Lt).
Qed.

(** *** Opening and closing a region *)

Lemma nested_open p p' kind pos w :
  nested p w -> p <= pos -> pos < p' -> 0 <= pos -> w_stack w <> [] -> nested p' (open_region kind pos w).
Proof.
  intros [Hok Hl Hn Ho Hs Hr] Lp Lp' Hpos Hne.
  set (new := {| rg_id := w_next w; rg_kind := kind; start_offset := pos; branch_sources := []; end_offset := 0;
                 rg_parent := head (w_stack w) |}).
  set (stk := w_next w :: w_stack w).
  assert (forall i r, (regions (w_cfg w) ++ [new]) !! i = Some r ->
    (regions (w_cfg w) !! i = Some r /\ rg_id r <> w_next w) \/ (i = length (regions (w_cfg w)) /\ r = new)) as L.
  { intros i r [H | [H1 H2]]%lookup_app_Some; [left | right].
    - split; [exact H |]. rewrite (ro_id _ _ _ _ (Hok _ _ H)). apply lookup_lt_Some in H. lia.
    - apply list_lookup_singleton_Some in H2 as [? <-]. split; [lia | reflexivity]. }
  assert (forall r, rg_id r <> w_next w -> rg_id r ∉ stk <-> rg_id r ∉ w_stack w) as St.
  { intros r H. unfold stk. rewrite elem_of_cons. tauto. }
  constructor; simpl; fold new; fold stk.
  - intros i r [[H N] | [-> ->]]%L.
    + destruct (Hok _ _ H) as [O1 O2 O3 O4 O5]. constructor; try assumption; [lia | |].
      * rewrite St by exact N. intros X. specialize (O3 X). lia.
      * intros a Ha. rewrite St by exact N. destruct (O4 a Ha). split; [lia | assumption].
    + constructor; simpl; [lia | lia | intros X; destruct X; unfold stk; left | by intros a Ha%elem_of_nil |].
      destruct (w_stack w) as [| q s] eqn:E; [congruence |]. exists q. split; [reflexivity |].
      by apply Forall_cons in Hr as [? _].
  - intros i j r r' Hi Hj Lt. apply L in Hi as [[Hi Ni] | [-> ->]]; apply L in Hj as [[Hj Nj] | [-> ->]].
    + rewrite !St by assumption. exact (Hl _ _ _ _ Hi Hj Lt).
    + destruct (Hok _ _ Hi) as [O1 O2 O3 O4 O5]. rewrite St by assumption. simpl. split; [lia |].
      intros X. left. specialize (O3 X). lia.
    + apply lookup_lt_Some in Hj. lia.
    + lia.
  - rewrite length_app. simpl. lia.
  - unfold stk. f_equal. exact Ho.
  - unfold stk. constructor; [exact Hs |]. eapply Forall_impl; [exact Hr |]. simpl. lia.
  - unfold stk. constructor; [lia |]. eapply Forall_impl; [exact Hr |]. simpl. lia.
Qed.

Lemma nested_close p p' pos w :
  nested p w -> p <= pos -> pos < p' -> w_stack w <> [] -> nested p' (close_region pos w).
Proof.
  intros N Lp Lp' Hne. pose proof (nested_numbered _ _ N) as Hnum. destruct N as [Hok Hl Hn Ho Hs Hr].
  unfold close_region. destruct (w_open w) as [| [id st] opened] eqn:Eo.
  { simpl in Ho. congruence. }
  simpl in Ho. destruct (w_stack w) as [| q stk] eqn:Es; [congruence |]. injection Ho as -> Ho.
  inversion Hs as [| ?? Hs1 Hs2]; subst. apply Forall_cons in Hr as [Hq Hr].
  assert (q ∉ opened.*1) as Hout.
  { intros X. rewrite Forall_forall in Hs2. specialize (Hs2 _ X). lia. }
  assert (forall r, q < rg_id r -> rg_id r ∉ q :: opened.*1) as Above.
  { intros r Lt [E | X]%elem_of_cons; [lia |]. rewrite Forall_forall in Hs2. specialize (Hs2 _ X). lia. }
  assert (forall r, rg_id r <> q -> rg_id r ∉ opened.*1 <-> rg_id r ∉ q :: opened.*1) as St.
  { intros r H. rewrite elem_of_cons. tauto. }
  constructor; simpl; try assumption; try reflexivity.
  - intros i r' (r & Hi & [[-> E] | [-> E]])%lookup_with_region; [| | exact Hnum]; destruct (Hok _ _ Hi) as [O1 O2 O3 O4 O5].
    + constructor; try assumption; [lia | |].
      * rewrite St by exact E. intros X. specialize (O3 X). lia.
      * intros a Ha. rewrite St by exact E. destruct (O4 a Ha). split; [lia | assumption].
    + constructor; simpl; try assumption; [lia | lia |]. intros a Ha. destruct (O4 a Ha). lia.
  - intros i j r r' (x & Hi & Ex)%lookup_with_region (y & Hj & Ey)%lookup_with_region Lt; [| exact Hnum | exact Hnum].
    destruct (Hl _ _ _ _ Hi Hj Lt) as [L1 L2]. pose proof (Hnum _ _ Hi). pose proof (Hnum _ _ Hj).
    destruct (Hok _ _ Hj) as [P1 P2 P3 P4 P5].
    destruct Ex as [[-> Ex] | [-> Ex]], Ey as [[-> Ey] | [-> Ey]]; simpl; try lia.
    + rewrite !St by assumption. tauto.
    + split; [exact L1 |]. rewrite St by assumption. intros X. destruct (L2 X) as [? | [Y _]]; [left; assumption |].
      destruct Y. rewrite Ey. left.
    + split; [exact L1 |]. intros _. right. assert (rg_id y ∉ q :: opened.*1) as Y by (apply Above; lia).
      split; [by apply St |]. specialize (P3 Y). lia.
  - by rewrite length_with_region.
Qed.

(** *** The walk keeps it *)

Lemma walk_op_nested p p' pos o w w' :
  nested p w -> p <= pos -> pos < p' -> 0 <= pos -> w_stack w <> [] -> walk_op pos o w = inr w' -> nested p' w'.
Proof.
  intros N Lp Lp' Hpos Hne E. pose proof (nested_numbered _ _ N) as Hnum.
  assert (forall f, regions (f (w_cfg w)) = regions (w_cfg w) -> nested p' (upd_cfg f w)) as Keep.
  { intros f Hf. apply (nested_refresh p p' pos w); try assumption; try reflexivity. simpl. rewrite Hf. apply refresh_refl. }
  destruct o; simpl in E; try (apply (inj inr) in E; subst w');
    try (apply Keep; reflexivity); try (apply nested_open with p; assumption); try (apply nested_close with p; assumption);
    try (apply (nested_refresh p p' pos w); try assumption; try reflexivity; apply refresh_refl).
  - destruct (_ <? _); [discriminate |]. apply (inj inr) in E. subst. apply nested_open with p; assumption.
  - destruct (w_stack w) as [| q s] eqn:Es; [congruence |].
    apply (nested_refresh p p' pos w); try assumption; try reflexivity. by apply refresh_mark_else.
  - pose proof (nested_open p p' KTry pos w N Lp Lp' Hpos Hne) as []. constructor; assumption.
  - pose proof (nested_open p p' KTry pos w N Lp Lp' Hpos Hne) as []. constructor; assumption.
  - apply (nested_refresh p p' pos w); try assumption; [by apply refresh_branch | ..]; unfold branch; by destruct (resolve_label _ _).
  - apply (nested_refresh p p' pos w); try assumption; [by apply refresh_branch | ..]; unfold branch; by destruct (resolve_label _ _).
  - unfold branch_table. set (l := _ ++ _).
    destruct (refresh_branches pos l (upd_cfg (push_table (pos, l)) w)) as (R & E1 & E2 & E3).
    + exact Hnum.
    + unfold l. simpl. apply Forall_app. split; apply Forall_forall.
      * intros q (d & _ & Hd)%list_elem_of_omap. eauto using resolve_label_elem.
      * intros q Hq. destruct (resolve_label (w_stack w) default_target) as [t |] eqn:E; simpl in Hq.
        -- apply list_elem_of_singleton in Hq. subst. eauto using resolve_label_elem.
        -- by apply elem_of_nil in Hq.
    + apply (nested_refresh p p' pos w); assumption.
Qed.

(** Only [End] takes from the stack. *)
Lemma walk_op_stack pos o w w' :
  walk_op pos o w = inr w' -> o <> End -> w_stack w <> [] -> w_stack w' <> [].
Proof.
  intros E Ho Hne.
  destruct o; simpl in E; try congruence; try (apply (inj inr) in E; subst w'); try exact Hne; try discriminate.
  - destruct (_ <? _); [discriminate |]. apply (inj inr) in E. by subst.
  - destruct (w_stack w) eqn:Es in |- *; [exact Hne | simpl; exact Hne].
  - unfold branch. by destruct (resolve_label _ _).
  - unfold branch. by destruct (resolve_label _ _).
  - unfold branch_table. set (l := _ ++ _). clearbody l. revert Hne.
    change (w_stack w) with (w_stack (upd_cfg (push_table (pos, l)) w)). set (w0 := upd_cfg _ w). clearbody w0.
    revert w0. induction l as [| q l IH] in |- *; intros w0 H; simpl; [exact H |]. by apply IH.
Qed.

Lemma walk_ops_nested l flt p w w' :
  nested p w -> 0 <= p -> laid_from p l -> w_stack w <> [] -> walk_ops l flt w = inr w' -> exists p', nested p' w'.
Proof.
  revert p w. induction l as [| o l IH]; intros p w N Hp Hl Hne E; simpl in E.
  { destruct flt as [[??] |]; [discriminate |]. apply (inj inr) in E. subst. eauto. }
  destruct Hl as (L1 & L2 & Hl). destruct (_ <? _); [discriminate |].
  destruct (walk_op _ _ _) as [e | w1] eqn:F in E; [discriminate |].
  assert (nested (op_next o) w1) as N1.
  { apply (walk_op_nested p (op_next o) (op_at o) (op o) (upd_cfg count_operator w)); try assumption; [| lia].
    destruct N. constructor; assumption. }
  destruct (decide (w_stack w1 = [])) as [Es | Es].
  - assert (op o = End) as Eo.
    { destruct (op o) eqn:Eo; try reflexivity; destruct (walk_op_stack _ _ _ _ F ltac:(discriminate) Hne Es). }
    rewrite Eo, Es in E. apply (inj inr) in E. subst. eauto.
  - assert (walk_ops l flt w1 = inr w') as E' by (destruct (op o), (w_stack w1); congruence).
    apply (IH (op_next o) w1); try assumption. lia.
Qed.

(** The body is closed by the [End] of the function: the reference count of open constructs. *)
Definition opens (o : Operator) : bool :=
  match o with Block | Loop | If | Try | TryTable => true | _ => false end.
Fixpoint function_ends (depth : nat) (l : list ReadOp) : bool :=
  match l with
  | [] => false
  | o :: l' =>
      if opens (op o) then function_ends (S depth) l'
      else match op o with
           | End => match depth with O => true | S d => function_ends d l' end
           | _ => function_ends depth l'
           end
  end.

Lemma walk_op_depth pos o w w' :
  walk_op pos o w = inr w' ->
  length (w_stack w') =
    if opens o then S (length (w_stack w)) else match o with End => pred (length (w_stack w)) | _ => length (w_stack w) end.
Proof.
  intros E. destruct o; simpl in E; try (apply (inj inr) in E; subst w'); try reflexivity.
  - destruct (_ <? _); [discriminate |]. apply (inj inr) in E. by subst.
  - destruct (w_stack w) as [| q s] eqn:Es; simpl; by rewrite Es.
  - unfold close_region. by destruct (w_open w) as [| [??]], (w_stack w).
  - unfold branch. by destruct (resolve_label _ _).
  - unfold branch. by destruct (resolve_label _ _).
  - unfold branch_table. set (l := _ ++ _). clearbody l. change (w_stack w) with (w_stack (upd_cfg (push_table (pos, l)) w)).
    set (w0 := upd_cfg _ w). clearbody w0. revert w0. induction l as [| q l IH] in |- *; intros w0; simpl; [reflexivity |].
    by rewrite IH.
Qed.

Lemma walk_ops_ends l flt w w' d :
  length (w_stack w) = S d -> function_ends d l = true -> walk_ops l flt w = inr w' -> w_stack w' = [].
Proof.
  revert w d. induction l as [| o l IH]; intros w d L F E; simpl in E, F; [discriminate |].
  destruct (_ <? _); [discriminate |]. destruct (walk_op _ _ _) as [e | w1] eqn:Ew in E; [discriminate |].
  apply walk_op_depth in Ew. change (w_stack (upd_cfg count_operator w)) with (w_stack w) in Ew. rewrite L in Ew.
  destruct (w_stack w1) as [| q s] eqn:Es.
  - destruct (op o); simpl in Ew, E, F; try discriminate. apply (inj inr) in E. by subst.
  - assert (walk_ops l flt w1 = inr w') as E' by (destruct (op o); exact E). rewrite <- Es in Ew.
    destruct (opens (op o)); [exact (IH _ _ Ew F E') |].
    destruct (op o); try exact (IH _ _ Ew F E'). destruct d; [by rewrite Es in Ew |]. exact (IH _ _ Ew F E').
Qed.

Lemma nested_init : nested 0 walk_init.
Proof.
  constructor; simpl; try reflexivity; try (intros i; intros; by rewrite lookup_nil in *);
    repeat constructor; lia.
Qed.

(** ** What the walk is about: the regions around a position

    The constructs around a position, innermost first, read off the offsets of
    the regions; the function itself (0) is around all of them. *)
Definition enclosing (c : StructuredCfg) (a : Z) : list Z :=
  reverse (rg_id <$> filter (fun q => start_offset q < a < end_offset q) (regions c)) ++ [0].

(** The labels an operator may branch to. *)
Definition labels (o : Operator) : list Z :=
  match o with
  | Br d | BrIf d => [d]
  | BrTable targets dflt => omap id targets ++ [dflt]
  | _ => []
  end.

(** The regions those labels denote, [d] being the [d]-th construct around the operator. *)
Definition targets_of (around : Z -> list Z) (o : ReadOp) : list Z :=
  omap (fun d => around (op_at o) !! Z.to_nat d) (labels (op o)).

Definition branches_to (around : Z -> list Z) (id : Z) (l : list ReadOp) : list Z :=
  l ≫= fun o => const (op_at o) <$> filter (fun t => t = id) (targets_of around o).

Definition tables_of (around : Z -> list Z) (l : list ReadOp) : list (Z * list Z) :=
  omap (fun o => match op o with BrTable _ _ => Some (op_at o, targets_of around o) | _ => None end) l.

(** The operators up to the [End] of the function. *)
Fixpoint function_ops (depth : nat) (l : list ReadOp) : list ReadOp :=
  match l with
  | [] => []
  | o :: l' =>
      o :: if opens (op o) then function_ops (S depth) l'
           else match op o with
                | End => match depth with O => [] | S d => function_ops d l' end
                | _ => function_ops depth l'
                end
  end.

(** The same during the walk: a region on the stack has no end yet. *)
Definition open_at (stk : list Z) (a : Z) (r : Region) : Prop :=
  start_offset r < a /\ (rg_id r ∈ stk \/ a < end_offset r).
#[export] Instance open_at_dec stk a r : Decision (open_at stk a r) := _.

Definition around (stk : list Z) (rs : list Region) (a : Z) : list Z :=
  reverse (rg_id <$> filter (open_at stk a) rs) ++ [0].

Definition surround (w : walk) : Z -> list Z := around (w_stack w) (regions (w_cfg w)).

Record tracks (p : Z) (seen : list ReadOp) (w : walk) : Prop := {
  t_parent : forall r, r ∈ regions (w_cfg w) -> rg_parent r = head (surround w (start_offset r));
  t_sources : forall r, r ∈ regions (w_cfg w) -> branch_sources r = branches_to (surround w) (rg_id r) seen;
  t_tables : br_tables (w_cfg w) = tables_of (surround w) seen;
  t_seen : Forall (fun o => op_at o < p) seen;
  t_bottom : w_stack w <> [] -> 0 ∈ w_stack w;
}.

Lemma targets_of_ext f g o : f (op_at o) = g (op_at o) -> targets_of f o = targets_of g o.
Proof. intros E. unfold targets_of. by rewrite E. Qed.

Lemma branches_to_cons f id o l :
  branches_to f id (o :: l) = (const (op_at o) <$> filter (fun t => t = id) (targets_of f o)) ++ branches_to f id l.
Proof. reflexivity. Qed.

Lemma tables_of_cons f o l :
  tables_of f (o :: l) = match op o with BrTable _ _ => (op_at o, targets_of f o) :: tables_of f l | _ => tables_of f l end.
Proof. unfold tables_of. cbn [omap list_omap]. by destruct (op o). Qed.

Lemma branches_to_ext f g id l : Forall (fun o => f (op_at o) = g (op_at o)) l -> branches_to f id l = branches_to g id l.
Proof. induction 1 as [| o l E _ IH]; [reflexivity |]. by rewrite !branches_to_cons, IH, (targets_of_ext f g o E). Qed.

Lemma tables_of_ext f g l : Forall (fun o => f (op_at o) = g (op_at o)) l -> tables_of f l = tables_of g l.
Proof.
  induction 1 as [| o l E _ IH]; [reflexivity |]. by rewrite !tables_of_cons, IH, (targets_of_ext f g o E).
Qed.

Lemma branches_to_app f id l1 l2 : branches_to f id (l1 ++ l2) = branches_to f id l1 ++ branches_to f id l2.
Proof. apply bind_app. Qed.

Lemma tables_of_app f l1 l2 : tables_of f (l1 ++ l2) = tables_of f l1 ++ tables_of f l2.
Proof. apply omap_app. Qed.

(** An id around none of the operators has no branches. *)
Lemma branches_to_none f id l : Forall (fun o => id ∉ f (op_at o)) l -> branches_to f id l = [].
Proof.
  induction 1 as [| o l E _ IH]; [reflexivity |]. rewrite branches_to_cons, IH, app_nil_r.
  rewrite filter_none; [reflexivity |]. intros t (d & _ & Hd)%list_elem_of_omap ->.
  by apply E, (list_elem_of_lookup_2 _ _ _ Hd).
Qed.

(** *** The stack is what is around the next operator *)

Lemma around_sorted stk a rs k :
  (forall i r, rs !! i = Some r -> rg_id r = Z.of_nat (S k + i)) ->
  StronglySorted Z.lt (rg_id <$> filter (open_at stk a) rs) /\
  Forall (fun q => Z.of_nat k < q) (rg_id <$> filter (open_at stk a) rs).
Proof.
  revert k. induction rs as [| r rs IH]; intros k H; [split; constructor |].
  destruct (IH (S k)) as [I1 I2].
  { intros i x Hx. rewrite (H (S i) x Hx). f_equal. lia. }
  pose proof (H 0%nat r eq_refl) as E.
  rewrite filter_cons. destruct (decide _); rewrite ?fmap_cons.
  - split; constructor; [exact I1 | | lia |]; (eapply Forall_impl; [exact I2 |]; simpl; lia).
  - split; [exact I1 |]. eapply Forall_impl; [exact I2 |]. simpl. lia.
Qed.

Lemma sorted_reverse l : StronglySorted Z.lt l -> StronglySorted Z.gt (reverse l).
Proof.
  induction 1 as [| x l S IH F]; [constructor |]. rewrite reverse_cons. apply StronglySorted_app_2; [| exact IH | repeat constructor].
  intros y z Hy ->%list_elem_of_singleton. rewrite elem_of_reverse in Hy. rewrite Forall_forall in F. specialize (F _ Hy). lia.
Qed.

Lemma surround_stack p seen w pos :
  nested p w -> tracks p seen w -> p <= pos -> w_stack w <> [] -> surround w pos = w_stack w.
Proof.
  intros N T Lp Hne. pose proof (nested_numbered _ _ N) as Hnum. destruct N as [Hok _ Hn _ Hs Hr].
  destruct (around_sorted (w_stack w) pos _ 0 Hnum) as [S1 S2]. unfold surround, around.
  apply (StronglySorted_unique_strong Z.gt); [lia | | exact Hs |].
  - apply StronglySorted_app_2; [| by apply sorted_reverse | repeat constructor].
    intros y z Hy ->%list_elem_of_singleton. rewrite elem_of_reverse in Hy. rewrite Forall_forall in S2. specialize (S2 _ Hy). lia.
  - assert (forall l, StronglySorted Z.gt l -> NoDup l) as ND.
    { induction 1 as [| x l _ IH F]; constructor; [| exact IH]. intros X. rewrite Forall_forall in F. specialize (F _ X). lia. }
    apply NoDup_Permutation; [apply ND | apply ND, Hs |].
    + apply StronglySorted_app_2; [| by apply sorted_reverse | repeat constructor].
      intros y z Hy ->%list_elem_of_singleton. rewrite elem_of_reverse in Hy. rewrite Forall_forall in S2. specialize (S2 _ Hy). lia.
    + intros q. rewrite elem_of_app, elem_of_reverse, list_elem_of_singleton, list_elem_of_fmap.
      setoid_rewrite list_elem_of_filter. split.
      * intros [(r & -> & [_ Ho] & Hin) | ->]; [| by apply (t_bottom _ _ _ T)].
        apply list_elem_of_lookup in Hin as [i Hi]. destruct (Hok _ _ Hi) as [_ _ O3 _ _].
        destruct (decide (rg_id r ∈ w_stack w)) as [? | X]; [assumption |]. specialize (O3 X). destruct Ho; [assumption | lia].
      * intros Hq. destruct (decide (q = 0)) as [-> | Hq0]; [by right | left].
        rewrite Forall_forall in Hr. specialize (Hr _ Hq).
        destruct (lookup_lt_is_Some_2 (regions (w_cfg w)) (Z.to_nat q - 1)) as [r Hi]; [lia |].
        destruct (Hok _ _ Hi) as [O1 O2 _ _ _]. assert (rg_id r = q) as E by lia.
        exists r. split_and!; [done | | eauto using list_elem_of_lookup_2]. split; [lia |]. left. by rewrite E.
Qed.

(** *** One step *)

(** What a step does to a region: it may close it, and it adds the branches that resolve to it. *)
Record moved (pos : Z) (res : list Z) (stk stk' : list Z) (upto : Z -> Prop) (r r' : Region) : Prop := {
  mv_id : rg_id r' = rg_id r;
  mv_start : start_offset r' = start_offset r;
  mv_parent : rg_parent r' = rg_parent r;
  mv_sources : branch_sources r' = branch_sources r ++ (const pos <$> filter (fun t => t = rg_id r) res);
  mv_open : forall a, upto a -> open_at stk a r <-> open_at stk' a r';
}.

Lemma around_moved pos res stk stk' (upto : Z -> Prop) rs rs' new a :
  Forall2 (moved pos res stk stk' upto) rs rs' -> upto a -> Forall (fun r => a <= start_offset r) new ->
  around stk' (rs' ++ new) a = around stk rs a.
Proof.
  intros F Ha Hn. unfold around. do 2 f_equal. rewrite filter_app.
  rewrite (filter_none _ new); [rewrite app_nil_r |]; cycle 1.
  { rewrite Forall_forall in Hn. intros r Hr [? _]. specialize (Hn r Hr). lia. }
  induction F as [| r r' rs rs' [E1 _ _ _ E2] _ IH]; [reflexivity |]. rewrite !filter_cons.
  specialize (E2 _ Ha). destruct (decide (open_at stk a r)) as [D | D], (decide (open_at stk' a r')) as [D' | D'];
    try (exfalso; tauto); rewrite ?fmap_cons; congruence.
Qed.

Lemma around_ids stk rs a p : (forall i r, rs !! i = Some r -> rg_id r < p) -> 0 < p -> p ∉ around stk rs a.
Proof.
  intros H Hp. unfold around. rewrite elem_of_app, elem_of_reverse, list_elem_of_singleton, list_elem_of_fmap.
  intros [(r & -> & [_ Hin]%list_elem_of_filter) | ->]; [| lia]. apply list_elem_of_lookup in Hin as [i Hi]. specialize (H _ _ Hi). lia.
Qed.

Lemma tracks_step p p' seen o w w' rs' new :
  nested p w -> tracks p seen w -> p <= op_at o -> op_at o < p' -> w_stack w <> [] ->
  regions (w_cfg w') = rs' ++ new ->
  Forall2 (moved (op_at o) (targets_of (surround w) o) (w_stack w) (w_stack w')
             (fun a => a < op_at o \/ (a = op_at o /\ op o <> End))) (regions (w_cfg w)) rs' ->
  Forall (fun r => start_offset r = op_at o /\ branch_sources r = [] /\ rg_parent r = head (w_stack w) /\
                   rg_id r = w_next w /\ op o <> End) new ->
  br_tables (w_cfg w') = br_tables (w_cfg w) ++ tables_of (surround w) [o] ->
  (w_stack w' <> [] -> 0 ∈ w_stack w') ->
  tracks p' (seen ++ [o]) w'.
Proof.
  intros N T Lp Lp' Hne Er F Fn Et Hb. pose proof (surround_stack _ _ _ _ N T Lp Hne) as Es.
  assert (forall a, a < op_at o \/ (a = op_at o /\ op o <> End) -> surround w' a = surround w a) as Ext.
  { intros a Ha. unfold surround. rewrite Er. eapply around_moved; [exact F | exact Ha |].
    eapply Forall_impl; [exact Fn |]. simpl. lia. }
  assert (Forall (fun x => surround w' (op_at x) = surround w (op_at x)) seen) as Ext'.
  { eapply Forall_impl; [exact (t_seen _ _ _ T) |]. simpl. intros x Hx. apply Ext. lia. }
  assert (targets_of (surround w') o = targets_of (surround w) o) as Eo.
  { assert (op o = End \/ op o <> End) as [E | E] by (destruct (op o); first [by left | by right]);
      [unfold targets_of; by rewrite E |]. apply targets_of_ext, Ext. by right. }
  pose proof (n_next _ _ N) as Hn. pose proof (nested_numbered _ _ N) as Hnum.
  assert (forall r, r ∈ regions (w_cfg w) -> start_offset r < op_at o) as Hst.
  { intros r [i Hi]%list_elem_of_lookup. pose proof (ro_start _ _ _ _ (n_ok _ _ N i r Hi)). lia. }
  constructor.
  - intros r. rewrite Er. intros [Hr | Hr]%elem_of_app.
    + apply list_elem_of_lookup in Hr as [i Hi]. destruct (Forall2_lookup_r _ _ _ _ _ F Hi) as (x & Hx & [M1 M2 M3 M4 M5]).
      apply list_elem_of_lookup_2 in Hx. rewrite M3, M2, Ext by (left; by apply Hst). by apply (t_parent _ _ _ T).
    + rewrite Forall_forall in Fn. destruct (Fn _ Hr) as (-> & _ & -> & _ & He). rewrite Ext by (right; auto). by rewrite Es.
  - intros r. rewrite Er, branches_to_app, (branches_to_ext _ _ _ _ Ext'). intros [Hr | Hr]%elem_of_app.
    + apply list_elem_of_lookup in Hr as [i Hi]. destruct (Forall2_lookup_r _ _ _ _ _ F Hi) as (x & Hx & [M1 M2 M3 M4 M5]).
      apply list_elem_of_lookup_2 in Hx. rewrite M4, M1, (t_sources _ _ _ T _ Hx). f_equal.
      unfold branches_to. simpl. by rewrite Eo, app_nil_r.
    + rewrite Forall_forall in Fn. destruct (Fn _ Hr) as (_ & -> & _ & -> & He).
      assert (forall a, w_next w ∉ surround w a) as Fresh.
      { intros a. apply around_ids; [| lia]. intros i x Hx. rewrite (Hnum _ _ Hx). apply lookup_lt_Some in Hx. lia. }
      rewrite !branches_to_none; [reflexivity | |].
      * constructor; [| constructor]. rewrite Ext by (right; auto). apply Fresh.
      * apply Forall_forall. intros x _. apply Fresh.
  - rewrite Et, (t_tables _ _ _ T), tables_of_app, (tables_of_ext _ _ _ Ext'). f_equal.
    unfold tables_of. simpl. by rewrite Eo.
  - apply Forall_app. split; [| repeat constructor; lia]. eapply Forall_impl; [exact (t_seen _ _ _ T) |]. simpl. lia.
  - exact Hb.
Qed.

(** *** The operators, case by case *)

Lemma Forall2_id {A} (R : A -> A -> Prop) l : (forall x, x ∈ l -> R x x) -> Forall2 R l l.
Proof. induction l as [| x l IH]; intros H; constructor; [apply H; left |]. apply IH. intros y Hy. apply H. by right. Qed.

Lemma Forall2_compose {A} (P Q R : A -> A -> Prop) l1 l2 l3 :
  (forall x y z, P x y -> Q y z -> R x z) -> Forall2 P l1 l2 -> Forall2 Q l2 l3 -> Forall2 R l1 l3.
Proof. intros H F. revert l3. induction F; intros l3; inversion 1; subst; constructor; eauto. Qed.

Lemma moved_refl pos stk upto r : moved pos [] stk stk upto r r.
Proof. constructor; auto. simpl. by rewrite app_nil_r. Qed.

Lemma moved_compose pos l1 l2 stk upto r1 r2 r3 :
  moved pos l1 stk stk upto r1 r2 -> moved pos l2 stk stk upto r2 r3 -> moved pos (l1 ++ l2) stk stk upto r1 r3.
Proof.
  intros [A1 A2 A3 A4 A5] [B1 B2 B3 B4 B5]. constructor; try congruence.
  - rewrite B4, A4, A1, filter_app, fmap_app. by rewrite <- app_assoc.
  - intros a Ha. rewrite (A5 a Ha). exact (B5 a Ha).
Qed.

Lemma Forall2_with_region (R : Region -> Region -> Prop) id f rs :
  numbered rs -> (forall r, r ∈ rs -> rg_id r <> id -> R r r) -> (forall r, r ∈ rs -> rg_id r = id -> R r (f r)) ->
  Forall2 R rs (with_region id f rs).
Proof.
  intros N H1 H2. apply Forall2_same_length_lookup_2; [by rewrite length_with_region |]. intros i x y Hx Hy.
  destruct (lookup_with_region _ _ _ _ _ N Hy) as (r & Hr & C). rewrite Hx in Hr. injection Hr as <-.
  apply list_elem_of_lookup_2 in Hx. destruct C as [[-> ?] | [-> ?]]; auto.
Qed.

Lemma moved_branch pos stk upto t rs :
  numbered rs -> Forall2 (moved pos [t] stk stk upto) rs (with_region t (add_source pos) rs).
Proof.
  intros N. apply Forall2_with_region; [exact N | |]; intros r _ E; constructor; simpl; auto.
  - rewrite filter_cons_False by congruence. simpl. by rewrite app_nil_r.
  - by rewrite filter_cons_True.
Qed.

Lemma moved_numbered pos l stk stk' upto rs rs' :
  Forall2 (moved pos l stk stk' upto) rs rs' -> numbered rs -> numbered rs'.
Proof. intros F N i r Hr. destruct (Forall2_lookup_r _ _ _ _ _ F Hr) as (x & Hx & [-> _ _ _ _]). eauto. Qed.

Lemma moved_branches pos upto (l : list Z) w :
  numbered (regions (w_cfg w)) ->
  let w' := foldl (fun w id => upd_cfg (record_branch id pos) w) w l in
  Forall2 (moved pos l (w_stack w) (w_stack w) upto) (regions (w_cfg w)) (regions (w_cfg w')) /\
  w_stack w' = w_stack w /\ br_tables (w_cfg w') = br_tables (w_cfg w).
Proof.
  revert w. induction l as [| t l IH]; intros w N; simpl.
  { split_and!; try reflexivity. apply Forall2_id. intros. apply moved_refl. }
  pose proof (moved_branch pos (w_stack w) upto t _ N) as M.
  destruct (IH (upd_cfg (record_branch t pos) w) (moved_numbered _ _ _ _ _ _ _ M N)) as (F & E1 & E2).
  split_and!; [| exact E1 | exact E2]. simpl in F.
  eapply Forall2_compose; [| exact M | exact F]. intros r1 r2 r3. apply (moved_compose pos [t] l).
Qed.

Lemma tracks_open p p' seen o kind w :
  nested p w -> tracks p seen w -> p <= op_at o -> op_at o < p' -> w_stack w <> [] -> opens (op o) = true ->
  tracks p' (seen ++ [o]) (open_region kind (op_at o) w).
Proof.
  intros N T Lp Lp' Hne Ho. assert (labels (op o) = []) as El by (by destruct (op o)).
  eapply (tracks_step p p' seen o w); try eassumption.
  - reflexivity.
  - apply Forall2_id. intros r [i Hi]%list_elem_of_lookup. unfold targets_of. rewrite El.
    constructor; simpl; try reflexivity; [by rewrite app_nil_r |]. intros a _. unfold open_at. simpl.
    assert (rg_id r <> w_next w) as Hid.
    { rewrite (nested_numbered _ _ N _ _ Hi), (n_next _ _ N). apply lookup_lt_Some in Hi. lia. }
    rewrite elem_of_cons. tauto.
  - repeat constructor; simpl; try reflexivity. intros E. by rewrite E in Ho.
  - unfold tables_of. simpl. destruct (op o); by rewrite ?app_nil_r.
  - intros _. simpl. right. by apply (t_bottom _ _ _ T).
Qed.

Lemma tracks_close p p' seen o w :
  nested p w -> tracks p seen w -> p <= op_at o -> op_at o < p' -> w_stack w <> [] -> op o = End ->
  tracks p' (seen ++ [o]) (close_region (op_at o) w).
Proof.
  intros N T Lp Lp' Hne Ho. pose proof (n_open _ _ N) as Eo. pose proof (n_stack _ _ N) as Hs.
  pose proof (t_bottom _ _ _ T Hne) as Hb. pose proof (n_range _ _ N) as Hr.
  unfold close_region. destruct (w_open w) as [| [q st] opened]; [simpl in Eo; congruence |].
  destruct (w_stack w) as [| q' stk] eqn:Es; [congruence |]. simpl in Eo. injection Eo as -> _.
  inversion Hs as [| ?? Hs1 Hs2]; subst. rewrite Forall_forall in Hs2.
  eapply (tracks_step p p' seen o w _ _ []); try eassumption; rewrite ?Es; try congruence; simpl.
  - symmetry. apply app_nil_r.
  - unfold targets_of. rewrite Ho. simpl. apply Forall2_with_region; [exact (nested_numbered _ _ N) | |];
      intros r _ E; constructor; simpl; try reflexivity; try (by rewrite app_nil_r); intros a Ha; unfold open_at; simpl.
    + rewrite elem_of_cons. tauto.
    + rewrite elem_of_cons. split; [intros [? _]; split; [assumption |]; right; destruct Ha as [? | [_ []]]; [assumption | reflexivity] |]. intros [? _]. split; [assumption |]. left. by left.
  - constructor.
  - unfold tables_of. simpl. rewrite Ho. by rewrite app_nil_r.
  - intros Hne'. apply elem_of_cons in Hb as [E | Hb]; [| exact Hb]. subst q'. destruct stk as [| x stk]; [done |].
    specialize (Hs2 x ltac:(left)). rewrite Forall_forall in Hr. specialize (Hr x ltac:(right; left)). lia.
Qed.

(** Operators that move no region and branch nowhere. *)
Lemma tracks_still p p' seen o w w' :
  nested p w -> tracks p seen w -> p <= op_at o -> op_at o < p' -> w_stack w <> [] -> labels (op o) = [] ->
  w_stack w' = w_stack w -> br_tables (w_cfg w') = br_tables (w_cfg w) ->
  Forall2 (moved (op_at o) [] (w_stack w) (w_stack w) (const True)) (regions (w_cfg w)) (regions (w_cfg w')) ->
  tracks p' (seen ++ [o]) w'.
Proof.
  intros N T Lp Lp' Hne El Es Et F.
  eapply (tracks_step p p' seen o w _ _ []); try eassumption.
  - symmetry. apply app_nil_r.
  - unfold targets_of. rewrite El, Es. eapply Forall2_impl; [exact F |]. intros r r' [M1 M2 M3 M4 M5]. constructor; try assumption. intros a _. exact (M5 a I).
  - constructor.
  - unfold tables_of. simpl. rewrite Et. destruct (op o); simpl in El; rewrite ?app_nil_r; try reflexivity.
    by apply app_eq_nil in El as [_ ?].
  - rewrite Es. exact (t_bottom _ _ _ T).
Qed.

(** Branching operators. *)
Lemma tracks_branches p p' seen o w w' :
  nested p w -> tracks p seen w -> p <= op_at o -> op_at o < p' -> w_stack w <> [] ->
  w_stack w' = w_stack w ->
  br_tables (w_cfg w') = br_tables (w_cfg w) ++ tables_of (const (w_stack w)) [o] ->
  Forall2 (moved (op_at o) (targets_of (const (w_stack w)) o) (w_stack w) (w_stack w) (const True))
    (regions (w_cfg w)) (regions (w_cfg w')) ->
  tracks p' (seen ++ [o]) w'.
Proof.
  intros N T Lp Lp' Hne Es Et F. pose proof (surround_stack _ _ _ _ N T Lp Hne) as Ea.
  assert (targets_of (surround w) o = targets_of (const (w_stack w)) o) as Eo by (apply targets_of_ext; exact Ea).
  eapply (tracks_step p p' seen o w _ _ []); try eassumption.
  - symmetry. apply app_nil_r.
  - rewrite Eo, Es. eapply Forall2_impl; [exact F |]. intros r r' [M1 M2 M3 M4 M5]. constructor; try assumption. intros a _. exact (M5 a I).
  - constructor.
  - rewrite Et. f_equal. apply tables_of_ext. repeat constructor. by rewrite Ea.
  - rewrite Es. exact (t_bottom _ _ _ T).
Qed.

Lemma branch_moved what pos d w :
  numbered (regions (w_cfg w)) ->
  Forall2 (moved pos (option_list (w_stack w !! Z.to_nat d)) (w_stack w) (w_stack w) (const True))
    (regions (w_cfg w)) (regions (w_cfg (branch what pos d w))) /\
  w_stack (branch what pos d w) = w_stack w /\ br_tables (w_cfg (branch what pos d w)) = br_tables (w_cfg w).
Proof.
  intros N. unfold branch, resolve_label. destruct (w_stack w !! Z.to_nat d) as [t |]; simpl.
  - split_and!; try reflexivity. by apply moved_branch.
  - split_and!; try reflexivity. apply Forall2_id. intros. apply moved_refl.
Qed.

Lemma walk_op_tracks p p' seen o w w' :
  nested p w -> tracks p seen w -> p <= op_at o -> op_at o < p' -> w_stack w <> [] ->
  walk_op (op_at o) (op o) w = inr w' -> tracks p' (seen ++ [o]) w'.
Proof.
  intros N T Lp Lp' Hne E. pose proof (nested_numbered _ _ N) as Hnum.
  assert (forall f, regions (f (w_cfg w)) = regions (w_cfg w) -> br_tables (f (w_cfg w)) = br_tables (w_cfg w) ->
            labels (op o) = [] -> tracks p' (seen ++ [o]) (upd_cfg f w)) as Keep.
  { intros f E1 E2 E3. apply (tracks_still p p' seen o w); try assumption; [reflexivity |]. simpl. rewrite E1.
    apply Forall2_id. intros. apply moved_refl. }
  assert (labels (op o) = [] -> tracks p' (seen ++ [o]) w) as Same.
  { intros E3. pose proof (Keep id eq_refl eq_refl E3) as []. constructor; assumption. }
  assert (forall kind, opens (op o) = true -> tracks p' (seen ++ [o]) (open_region kind (op_at o) w)) as Open.
  { intros kind Ho. by apply tracks_open with p. }
  destruct (op o) eqn:Eo; cbn [walk_op] in E;
    try (apply (inj inr) in E; subst w'); try (apply Keep; reflexivity); try (apply Same; reflexivity);
    try (apply Open; reflexivity).
  - destruct (_ <? _); [discriminate |]. apply (inj inr) in E. subst w'. apply Open. reflexivity.
  - destruct (w_stack w) as [| q s] eqn:Es; [congruence |]. rewrite <- Es in Hne.
    apply (tracks_still p p' seen o w); try assumption; try reflexivity; [by rewrite Eo |]. simpl.
    apply Forall2_with_region; [exact Hnum | intros; apply moved_refl |]. intros r _ _. unfold mark_else.
    destruct (rg_kind r); first [apply moved_refl | constructor; simpl; rewrite ?app_nil_r; auto].
  - destruct (Open KTry eq_refl). constructor; assumption.
  - destruct (Open KTry eq_refl). constructor; assumption.
  - by apply tracks_close with p.
  - destruct (branch_moved "br" (op_at o) relative_depth w Hnum) as (F & E1 & E2).
    apply (tracks_branches p p' seen o w); try assumption.
    + rewrite E2. unfold tables_of. simpl. by rewrite Eo, app_nil_r.
    + unfold targets_of. rewrite Eo. simpl. by destruct (w_stack w !! _).
  - destruct (branch_moved "br_if" (op_at o) relative_depth w Hnum) as (F & E1 & E2).
    apply (tracks_branches p p' seen o w); try assumption.
    + rewrite E2. unfold tables_of. simpl. by rewrite Eo, app_nil_r.
    + unfold targets_of. rewrite Eo. simpl. by destruct (w_stack w !! _).
  - unfold branch_table. set (l := omap _ _ ++ _).
    assert (targets_of (const (w_stack w)) o = l) as El.
    { unfold targets_of, l, resolve_label. rewrite Eo. simpl. rewrite omap_app. f_equal. }
    destruct (moved_branches (op_at o) (const True) l (upd_cfg (push_table (op_at o, l)) w) Hnum) as (F & E1 & E2).
    apply (tracks_branches p p' seen o w); try assumption.
    + rewrite E2. unfold tables_of. cbn [omap list_omap]. rewrite Eo, El. reflexivity.
    + rewrite El. exact F.
Qed.

Lemma walk_ops_tracks l flt p seen w w' d :
  nested p w -> tracks p seen w -> 0 <= p -> laid_from p l -> length (w_stack w) = S d -> function_ends d l = true ->
  walk_ops l flt w = inr w' -> exists p', tracks p' (seen ++ function_ops d l) w'.
Proof.
  revert p seen w d. induction l as [| o l IH]; intros p seen w d N T Hp Hl L Fe E; simpl in E, Fe; [discriminate |].
  destruct Hl as (L1 & L2 & Hl). destruct (_ <? _); [discriminate |].
  destruct (walk_op _ _ _) as [e | w1] eqn:F in E; [discriminate |].
  assert (w_stack w <> []) as Hne by (intros X; by rewrite X in L).
  set (w0 := upd_cfg count_operator w) in F.
  assert (nested p w0) as N0 by (destruct N; constructor; assumption).
  assert (tracks p seen w0) as T0 by (destruct T; constructor; assumption).
  pose proof (walk_op_nested p (op_next o) (op_at o) (op o) w0 w1 N0 L1 L2 ltac:(lia) Hne F) as N1.
  pose proof (walk_op_tracks p (op_next o) seen o w0 w1 N0 T0 L1 L2 Hne F) as T1.
  apply walk_op_depth in F. change (w_stack w0) with (w_stack w) in F. rewrite L in F. cbn [function_ops].
  destruct (w_stack w1) as [| q s] eqn:Es.
  - destruct (op o); simpl in F, E, Fe; try discriminate. apply (inj inr) in E. subst w'. destruct d; [| discriminate].
    simpl. eauto.
  - assert (walk_ops l flt w1 = inr w') as E' by (destruct (op o); exact E). rewrite <- Es in F.
    assert (forall d', length (w_stack w1) = S d' -> function_ends d' l = true ->
              exists p', tracks p' (seen ++ o :: function_ops d' l) w') as Go.
    { intros d' Ld Fd. destruct (IH (op_next o) (seen ++ [o]) w1 d' N1 T1 ltac:(lia) Hl Ld Fd E') as (p' & H).
      exists p'. by rewrite <- app_assoc in H. }
    destruct (opens (op o)); [exact (Go _ F Fe) |].
    destruct (op o); try exact (Go _ F Fe). destruct d; [by rewrite Es in F |]. exact (Go _ F Fe).
Qed.

Lemma tracks_init : tracks 0 [] walk_init.
Proof. constructor; simpl; try (intros r Hr; by apply elem_of_nil in Hr); try reflexivity; [constructor | intros _; left]. Qed.

(** With every region closed the two readings agree. *)
Lemma surround_enclosing w a : w_stack w = [] -> surround w a = enclosing (w_cfg w) a.
Proof.
  intros Es. unfold surround, around, enclosing. rewrite Es. do 3 f_equal.
  apply list_filter_iff. intros r. unfold open_at. rewrite elem_of_nil. tauto.
Qed.


(** A loop in a block, left by a conditional branch out of both. *)
Definition sample_body : Body :=
  {| ops := [{| op_at := 0; op_next := 2; op := Block |}; {| op_at := 2; op_next := 4; op := Loop |};
             {| op_at := 4; op_next := 6; op := LocalGet 0 |}; {| op_at := 6; op_next := 8; op := BrIf 1 |};
             {| op_at := 8; op_next := 10; op := Br 0 |}; {| op_at := 10; op_next := 11; op := End |};
             {| op_at := 11; op_next := 12; op := End |}; {| op_at := 12; op_next := 13; op := End |}];
     fault := None |}.

