(* ===== verification/WasmSsa.v ===== *)
(** * WasmSsa: values of a function body

    Models [rmcp-wasm/src/ssa.rs]: [analyze_values] names every value a body
    puts on the operand stack, with its uses, its constant if it is known, and
    the loads, stores, conditions and calls that involve it.  The constants
    are related to the executions of straight-line code. *)

From stdpp Require Import base list gmap strings.
From Stdlib Require Import ZArith Lia.
From S2P Require Import Prelude Text WasmModule.

Local Open Scope Z_scope.

(** Versions number the values; a body has fewer than [2^32] of them. *)
Record SsaName := { def_offset : Z; version : nat }.
#[export] Instance SsaName_eq_dec : EqDecision SsaName.
Proof. solve_decision. Defined.

Record ValueFact := {
  vname : SsaName; vty : string; constant : option Z; uses : list Z; produced_by : string }.

Record SsaBody := {
  values : list ValueFact;
  local_stores : list (Z * Z * SsaName);
  local_loads : list (Z * Z * SsaName);
  global_loads : list (Z * Z * SsaName);
  global_stores : list (Z * Z * SsaName);
  memory_ops : list (Z * SsaName * Z * bool);
  table_index_ops : list (Z * SsaName);
  branch_conditions : list (Z * SsaName);
  call_args : list (Z * Z * list SsaName);
  ssa_diagnostics : list string;
  ssa_operator_count : Z }.

Definition SsaBody_default : SsaBody :=
  {| values := []; local_stores := []; local_loads := []; global_loads := []; global_stores := [];
     memory_ops := []; table_index_ops := []; branch_conditions := []; call_args := [];
     ssa_diagnostics := []; ssa_operator_count := 0 |}.

(** The locals of the loop; the operand stack keeps its top in front. *)
Record sstate := { s_out : SsaBody; s_stack : list SsaName; s_version : nat; s_locals : gmap Z SsaName }.

(** Appends to the lists of the output. *)
Definition upd_out (f : SsaBody -> SsaBody) (s : sstate) : sstate :=
  {| s_out := f (s_out s); s_stack := s_stack s; s_version := s_version s; s_locals := s_locals s |}.
Definition set_values (x : list ValueFact) (o : SsaBody) : SsaBody :=
  {| values := x; local_stores := local_stores o; local_loads := local_loads o; global_loads := global_loads o;
     global_stores := global_stores o; memory_ops := memory_ops o; table_index_ops := table_index_ops o;
     branch_conditions := branch_conditions o; call_args := call_args o; ssa_diagnostics := ssa_diagnostics o;
     ssa_operator_count := ssa_operator_count o |}.
(** What an operator reports beside its values. *)
Inductive report :=
  | RLocalStore (x : Z * Z * SsaName) | RLocalLoad (x : Z * Z * SsaName)
  | RGlobalLoad (x : Z * Z * SsaName) | RGlobalStore (x : Z * Z * SsaName)
  | RMemory (x : Z * SsaName * Z * bool) | RTable (x : Z * SsaName) | RCondition (x : Z * SsaName)
  | RCall (x : Z * Z * list SsaName) | RDiagnostic (d : string) | ROperator.
Definition add_report (r : report) (o : SsaBody) : SsaBody :=
  {| values := values o;
     local_stores := local_stores o ++ match r with RLocalStore x => [x] | _ => [] end;
     local_loads := local_loads o ++ match r with RLocalLoad x => [x] | _ => [] end;
     global_loads := global_loads o ++ match r with RGlobalLoad x => [x] | _ => [] end;
     global_stores := global_stores o ++ match r with RGlobalStore x => [x] | _ => [] end;
     memory_ops := memory_ops o ++ match r with RMemory x => [x] | _ => [] end;
     table_index_ops := table_index_ops o ++ match r with RTable x => [x] | _ => [] end;
     branch_conditions := branch_conditions o ++ match r with RCondition x => [x] | _ => [] end;
     call_args := call_args o ++ match r with RCall x => [x] | _ => [] end;
     ssa_diagnostics := ssa_diagnostics o ++ match r with RDiagnostic d => [d] | _ => [] end;
     ssa_operator_count := ssa_operator_count o + match r with ROperator => 1 | _ => 0 end |}.
Definition note (r : report) (s : sstate) : sstate := upd_out (add_report r) s.

Definition push_name (n : SsaName) (s : sstate) : sstate :=
  {| s_out := s_out s; s_stack := n :: s_stack s; s_version := s_version s; s_locals := s_locals s |}.
Definition set_local (i : Z) (n : SsaName) (s : sstate) : sstate :=
  {| s_out := s_out s; s_stack := s_stack s; s_version := s_version s; s_locals := <[i := n]> (s_locals s) |}.

(** [iter_mut().find(|f| f.name == v)] and a push to its uses. *)
Fixpoint use_value (n : SsaName) (at_ : Z) (vs : list ValueFact) : list ValueFact :=
  match vs with
  | [] => []
  | f :: vs' =>
      if bool_decide (vname f = n)
      then {| vname := vname f; vty := vty f; constant := constant f; uses := uses f ++ [at_];
              produced_by := produced_by f |} :: vs'
      else f :: use_value n at_ vs'
  end.
Definition mark_use (n : SsaName) (at_ : Z) (s : sstate) : sstate :=
  upd_out (fun o => set_values (use_value n at_ (values o)) o) s.

(** [def_val!]: [here] is the reader's position, behind the operator. *)
Definition new_value (here : Z) (ty by_ : string) (c : option Z) (s : sstate) : sstate :=
  let n := {| def_offset := here; version := s_version s |} in
  {| s_out := set_values (values (s_out s) ++ [{| vname := n; vty := ty; constant := c; uses := [];
                                                  produced_by := by_ |}]) (s_out s);
     s_stack := s_stack s; s_version := S (s_version s); s_locals := s_locals s |}.
Definition def_val (here : Z) (ty by_ : string) (c : option Z) (s : sstate) : sstate :=
  push_name {| def_offset := here; version := s_version s |} (new_value here ty by_ c s).

(** [pop_use!] *)
Definition pop_use (here : Z) (s : sstate) : option SsaName * sstate :=
  match s_stack s with
  | n :: rest =>
      (Some n, mark_use n here {| s_out := s_out s; s_stack := rest; s_version := s_version s;
                                  s_locals := s_locals s |})
  | [] => (None, note (RDiagnostic ("stack underflow at " +:+ show_0x here)) s)
  end.

Definition fact_of (n : SsaName) (o : SsaBody) : option ValueFact :=
  List.find (fun f => bool_decide (vname f = n)) (values o).
Definition const_of (o : SsaBody) (v : option SsaName) : option Z :=
  match v with
  | Some n => match fact_of n o with Some f => constant f | None => None end
  | None => None
  end.

(** [as i32]. *)
Definition wrap_i32 (z : Z) : Z := (z + 2 ^ 31) mod u32_modulus - 2 ^ 31.

(** The folding; a product of [i128]s that wraps keeps its low 32 bits. *)
Definition fold_const (o : Operator) (x y : option Z) : option Z :=
  match x, y with
  | Some x, Some y =>
      match o with
      | I32Add => Some (wrap_i32 (x + y))
      | I32Sub => Some (wrap_i32 (x - y))
      | I32Mul => Some (wrap_i32 (x * y))
      | _ => None
      end
  | _, _ => None
  end.

Definition binop_mnemonic (o : Operator) : string :=
  match o with
  | I32Add => "i32.add" | I32Sub => "i32.sub" | I32Mul => "i32.mul" | I32And => "i32.and" | I32Or => "i32.or"
  | _ => "i32.xor"
  end.
Definition cmp_mnemonic (o : Operator) : string :=
  match o with I32Eq => "i32.eq" | I32Ne => "i32.ne" | I32LtU => "i32.lt_u" | _ => "i32.ge_u" end.

Section Analysis.
(** How [Debug] prints the discriminant of an operator. *)
Context (show_discriminant : Operator -> string).

(** One operator, read at [pos], the reader now at [here]. *)
Definition ssa_op (pos here : Z) (o : Operator) (s : sstate) : sstate :=
  match o with
  | I32Const v => def_val here "i32" "i32.const" (Some v) s
  | I64Const v => def_val here "i64" "i64.const" (Some v) s
  | F32Const bits => def_val here "f32" "f32.const" (Some bits) s
  | F64Const bits => def_val here "f64" "f64.const" (Some bits) s
  | LocalGet i =>
      match s_locals s !! i with
      | Some n => push_name n (note (RLocalLoad (pos, i, n)) (mark_use n pos s))
      | None => s
      end
  | LocalSet i =>
      match pop_use here s with
      | (Some n, s) => set_local i n (note (RLocalStore (pos, i, n)) s)
      | (None, s) => s
      end
  | LocalTee i =>
      match pop_use here s with
      | (Some n, s) => push_name n (set_local i n (note (RLocalStore (pos, i, n)) s))
      | (None, s) => s
      end
  | GlobalGet i =>
      let s := def_val here "global" ("global.get " +:+ show_dec i) None s in
      match s_stack s with n :: _ => note (RGlobalLoad (pos, i, n)) s | [] => s end
  | GlobalSet i =>
      match pop_use here s with (Some n, s) => note (RGlobalStore (pos, i, n)) s | (None, s) => s end
  | I32Load offset | I64Load offset =>
      let width := match o with I32Load _ => 4 | _ => 8 end in
      let '(addr, s) := pop_use here s in
      let s := def_val here (if width =? 4 then "i32" else "i64") ("load +" +:+ show_dec offset) None s in
      match addr with Some a => note (RMemory (pos, a, width, false)) s | None => s end
  | I32Store _ | I64Store _ =>
      let width := match o with I32Store _ => 4 | _ => 8 end in
      let '(val, s) := pop_use here s in
      let '(addr, s) := pop_use here s in
      match addr, val with
      | Some a, Some v => note (RMemory (pos, a, width, true)) (mark_use v pos s)
      | _, _ => s
      end
  | I32Add | I32Sub | I32Mul | I32And | I32Or | I32Xor =>
      let '(b, s) := pop_use here s in
      let '(a, s) := pop_use here s in
      def_val here "i32" (binop_mnemonic o) (fold_const o (const_of (s_out s) a) (const_of (s_out s) b)) s
  | I32Eqz => def_val here "i32" "i32.eqz" None (pop_use here s).2
  | I32Eq | I32Ne | I32LtU | I32GeU =>
      def_val here "i32" (cmp_mnemonic o) None (pop_use here (pop_use here s).2).2
  | BrIf _ => match pop_use here s with (Some c, s) => note (RCondition (pos, c)) s | (None, s) => s end
  | BrTable _ _ => match pop_use here s with (Some i, s) => note (RTable (pos, i)) s | (None, s) => s end
  | Call f => note (RCall (pos, f, [])) s
  | Return | Drop => (pop_use here s).2
  | _ => note (RDiagnostic ("opaque op at " +:+ show_0x pos +:+ ": " +:+ show_discriminant o)) s
  end.

Definition ssa_max_operators : Z := 5000000.

Fixpoint ssa_ops (l : list ReadOp) (flt : option (Z * string)) (s : sstate) : WResult sstate :=
  match l with
  | [] => match flt with Some (off, msg) => inl (Parse off msg) | None => inr s end
  | o :: l' =>
      let s := note ROperator s in
      if ssa_max_operators <? ssa_operator_count (s_out s) then inl (Budget "operators per function (ssa)")
      else match op o with
           | End => inr s
           | _ => ssa_ops l' flt (ssa_op (op_at o) (op_next o) (op o) s)
           end
  end.

Fixpoint seed_params (i n : nat) (s : sstate) : sstate :=
  match n with
  | O => s
  | S n' =>
      let name := {| def_offset := 0; version := s_version s |} in
      seed_params (S i) n'
        (set_local (Z.of_nat i) name (new_value 0 "param" ("param " +:+ show_dec (Z.of_nat i)) None s))
  end.

Definition sstate_init : sstate :=
  {| s_out := SsaBody_default; s_stack := []; s_version := 0; s_locals := ∅ |}.

Definition analyze_values (b : Body) (n_params : nat) : WResult SsaBody :=
  match ssa_ops (ops b) (fault b) (seed_params 0 n_params sstate_init) with
  | inl e => inl e
  | inr s => inr (s_out s)
  end.
End Analysis.

(** ** Well-formedness *)

Definition vkey (f : ValueFact) : SsaName * option Z := (vname f, constant f).
Definition vkeys (s : sstate) : list (SsaName * option Z) := vkey <$> values (s_out s).

Definition report_names (r : report) : list SsaName :=
  match r with
  | RLocalStore (_, _, n) | RLocalLoad (_, _, n) | RGlobalLoad (_, _, n) | RGlobalStore (_, _, n)
  | RMemory (_, n, _, _) | RTable (_, n) | RCondition (_, n) => [n]
  | RCall (_, _, ns) => ns
  | RDiagnostic _ | ROperator => []
  end.

(** Every name the output mentions. *)
Definition mentioned (o : SsaBody) : list SsaName :=
  (snd <$> local_stores o) ++ (snd <$> local_loads o) ++ (snd <$> global_loads o) ++ (snd <$> global_stores o) ++
  ((fun x => x.1.1.2) <$> memory_ops o) ++ (snd <$> table_index_ops o) ++ (snd <$> branch_conditions o) ++
  concat (snd <$> call_args o).

(** Values are numbered, defined no later than [p] and used after they are
    defined; the stack, the locals and the output mention values only. *)
Record ssa_wf (p : Z) (s : sstate) : Prop := {
  sw_version : s_version s = length (values (s_out s));
  sw_numbered : forall i f, values (s_out s) !! i = Some f -> version (vname f) = i /\ def_offset (vname f) <= p;
  sw_uses : forall f u, f ∈ values (s_out s) -> u ∈ uses f -> def_offset (vname f) <= u <= p;
  sw_stack : Forall (fun n => n ∈ vname <$> values (s_out s)) (s_stack s);
  sw_locals : map_Forall (fun _ n => n ∈ vname <$> values (s_out s)) (s_locals s);
  sw_mentioned : Forall (fun n => n ∈ vname <$> values (s_out s)) (mentioned (s_out s));
}.

Lemma use_value_keys n a vs : vkey <$> use_value n a vs = vkey <$> vs.
Proof. induction vs as [| f vs IH]; simpl; [reflexivity |]. case_bool_decide; simpl; [reflexivity | f_equal; exact IH]. Qed.

Lemma use_value_names n a vs : vname <$> use_value n a vs = vname <$> vs.
Proof. induction vs as [| f vs IH]; simpl; [reflexivity |]. case_bool_decide; simpl; [reflexivity | f_equal; exact IH]. Qed.

Lemma use_value_lookup n a vs i f :
  use_value n a vs !! i = Some f ->
  exists g, vs !! i = Some g /\ vname f = vname g /\ forall u, u ∈ uses f -> u ∈ uses g \/ (u = a /\ vname g = n).
Proof.
  revert i. induction vs as [| g vs IH]; intros i H; simpl in H; [by rewrite lookup_nil in H |].
  case_bool_decide as E.
  - destruct i as [| i]; simpl in H.
    + apply (inj Some) in H. subst f. exists g. split_and!; [reflexivity | reflexivity |]. simpl.
      intros u [Hu | ->%list_elem_of_singleton]%elem_of_app; eauto.
    + exists f. eauto.
  - destruct i as [| i]; simpl in H; [exists f; apply (inj Some) in H; subst; simpl; eauto |]. exact (IH i H).
Qed.

Lemma mentioned_add n r o : n ∈ mentioned (add_report r o) -> n ∈ mentioned o \/ n ∈ report_names r.
Proof.
  unfold mentioned. simpl. rewrite !fmap_app, !concat_app, !elem_of_app.
  destruct r as [[[??]?] | [[??]?] | [[??]?] | [[??]?] | [[[??]?]?] | [??] | [??] | [[??]?] | ? |]; simpl;
    rewrite ?app_nil_r, ?elem_of_nil, ?list_elem_of_singleton; tauto.
Qed.

Lemma ssa_wf_le p q s : p <= q -> ssa_wf p s -> ssa_wf q s.
Proof.
  intros L [H1 H2 H3 H4 H5 H6]. constructor; try assumption.
  - intros i f Hi. destruct (H2 i f Hi). split; [assumption | lia].
  - intros f u Hf Hu. specialize (H3 f u Hf Hu). lia.
Qed.

Lemma ssa_wf_name p s n : ssa_wf p s -> n ∈ vname <$> values (s_out s) -> def_offset n <= p.
Proof.
  intros W (f & -> & Hf)%list_elem_of_fmap. apply list_elem_of_lookup in Hf as [i Hi].
  apply (sw_numbered _ _ W i f Hi).
Qed.

Lemma ssa_wf_note p r s :
  ssa_wf p s -> Forall (fun n => n ∈ vname <$> values (s_out s)) (report_names r) -> ssa_wf p (note r s).
Proof.
  intros [H1 H2 H3 H4 H5 H6] F. constructor; try assumption.
  apply Forall_forall. intros n [Hn | Hn]%mentioned_add; simpl.
  - exact (proj1 (Forall_forall _ _) H6 n Hn).
  - exact (proj1 (Forall_forall _ _) F n Hn).
Qed.

Lemma ssa_wf_push p n s : ssa_wf p s -> n ∈ vname <$> values (s_out s) -> ssa_wf p (push_name n s).
Proof. intros [] Hn. constructor; try assumption. by constructor. Qed.

Lemma ssa_wf_local p i n s : ssa_wf p s -> n ∈ vname <$> values (s_out s) -> ssa_wf p (set_local i n s).
Proof. intros [] Hn. constructor; try assumption. by apply map_Forall_insert_2. Qed.

Lemma ssa_wf_use p n a s : ssa_wf p s -> def_offset n <= a <= p -> ssa_wf p (mark_use n a s).
Proof.
  intros [H1 H2 H3 H4 H5 H6] Ha. constructor; simpl.
  - rewrite H1. rewrite <- (length_fmap vname), <- (use_value_names n a), length_fmap. reflexivity.
  - intros i f (g & Hg & E & _)%use_value_lookup. rewrite E. eauto.
  - intros f u (i & Hi)%list_elem_of_lookup Hu. destruct (use_value_lookup _ _ _ _ _ Hi) as (g & Hg & E & U).
    rewrite E. destruct (U u Hu) as [Hu' | [-> En]]; [| rewrite En; exact Ha].
    eapply H3; [by eapply list_elem_of_lookup_2 | exact Hu'].
  - by rewrite use_value_names.
  - by rewrite use_value_names.
  - rewrite use_value_names. exact H6.
Qed.

Lemma ssa_wf_new p here ty by_ c s : ssa_wf p s -> here <= p -> ssa_wf p (new_value here ty by_ c s).
Proof.
  intros [H1 H2 H3 H4 H5 H6] Hp.
  assert (forall n, n ∈ vname <$> values (s_out s) -> n ∈ vname <$> values (s_out (new_value here ty by_ c s))) as Mono.
  { intros n Hn. simpl. rewrite fmap_app, elem_of_app. by left. }
  constructor.
  - simpl. rewrite length_app. simpl. lia.
  - simpl. intros i f [Hi | [Hi Hf]]%lookup_app_Some; [eauto |].
    apply list_lookup_singleton_Some in Hf as [? <-]. simpl. split; [lia | exact Hp].
  - simpl. intros f u [Hf | ->%list_elem_of_singleton]%elem_of_app Hu; [eauto |]. by apply elem_of_nil in Hu.
  - eapply Forall_impl; [exact H4 | exact Mono].
  - eapply map_Forall_impl; [exact H5 |]. intros i n. apply Mono.
  - eapply Forall_impl; [exact H6 | exact Mono].
Qed.

Lemma new_value_name here ty by_ c s :
  {| def_offset := here; version := s_version s |} ∈ vname <$> values (s_out (new_value here ty by_ c s)).
Proof. simpl. rewrite fmap_app, elem_of_app. right. left. Qed.

Lemma ssa_wf_def p here ty by_ c s : ssa_wf p s -> here <= p -> ssa_wf p (def_val here ty by_ c s).
Proof. intros W Hp. apply ssa_wf_push; [by apply ssa_wf_new | apply new_value_name]. Qed.

(** What a pop returns is a value that was on the stack. *)
Lemma ssa_wf_pop q p here s n s' :
  ssa_wf p s -> (forall x, x ∈ s_stack s -> def_offset x <= q) -> q <= here <= p -> pop_use here s = (n, s') ->
  ssa_wf p s' /\ (forall x, x ∈ s_stack s' -> def_offset x <= q) /\ s_locals s' = s_locals s /\
  vname <$> values (s_out s') = vname <$> values (s_out s) /\
  match n with Some x => x ∈ vname <$> values (s_out s') /\ def_offset x <= q | None => True end.
Proof.
  intros W B Hq E. unfold pop_use in E. destruct (s_stack s) as [| x rest] eqn:Es; injection E as <- <-.
  - split_and!; try done; [apply ssa_wf_note; [exact W | constructor] |]. simpl. rewrite Es. exact B.
  - pose proof (sw_stack _ _ W) as St. rewrite Es in St. apply Forall_cons in St as [Hx St].
    assert (def_offset x <= q) as Bx by (apply B; left).
    split_and!; simpl; [| intros y Hy; apply B; by right | reflexivity | apply use_value_names | |].
    + apply ssa_wf_use; [| lia]. destruct W. constructor; assumption.
    + by rewrite use_value_names.
    + exact Bx.
Qed.

Section WellFormed.
Context (show_discriminant : Operator -> string).
Abbreviation step := (ssa_op show_discriminant).

(** Splits the pops of an operator, with what is known of each. *)
Ltac pops q p :=
  repeat match goal with
  | |- context [pop_use ?here ?s] =>
      let n := fresh "n" in let s1 := fresh "s" in let E := fresh "E" in
      let W := fresh "W" in let B := fresh "B" in let K := fresh "K" in let L := fresh "L" in let N := fresh "N" in
      destruct (pop_use here s) as [n s1] eqn:E;
      match goal with
      | HW : ssa_wf p s, HB : forall x, x ∈ s_stack s -> _ |- _ =>
          destruct (ssa_wf_pop q p here s n s1 HW HB ltac:(lia) E) as (W & B & L & K & N)
      end;
      cbn [snd fst]
  end.

Lemma ssa_op_wf p pos here o s :
  ssa_wf p s -> p <= pos -> pos < here -> ssa_wf here (step pos here o s).
Proof.
  intros W0 Lp Lh.
  assert (forall x, x ∈ s_stack s -> def_offset x <= p) as B.
  { intros x Hx. apply (ssa_wf_name p s); [exact W0 |]. exact (proj1 (Forall_forall _ _) (sw_stack _ _ W0) x Hx). }
  assert (ssa_wf here s) as W by (apply (ssa_wf_le p); [lia | exact W0]).
  destruct o; simpl; try (apply ssa_wf_def; [exact W | lia]);
    try (apply ssa_wf_note; [exact W | simpl; constructor]);
    try (pops p here; try (apply ssa_wf_def; [assumption | lia]); assumption).
  - pops p here. destruct n as [x |]; [| assumption]. apply ssa_wf_note; [assumption | constructor; [tauto | constructor]].
  - pops p here. destruct n as [x |]; [| assumption]. apply ssa_wf_note; [assumption | constructor; [tauto | constructor]].
  - destruct (s_locals s !! i) as [x |] eqn:Ex; [| exact W].
    pose proof (map_Forall_lookup_1 _ _ _ _ (sw_locals _ _ W) Ex) as Hx.
    pose proof (ssa_wf_name p s x W0 Hx). apply ssa_wf_push; [| simpl; by rewrite use_value_names].
    apply ssa_wf_note; [apply ssa_wf_use; [exact W | lia] |]. constructor; [| constructor]. simpl. by rewrite use_value_names.
  - pops p here. destruct n as [x |]; [| assumption]. apply ssa_wf_local; [| simpl; tauto].
    apply ssa_wf_note; [assumption | constructor; [tauto | constructor]].
  - pops p here. destruct n as [x |]; [| assumption]. apply ssa_wf_push; [| simpl; tauto].
    apply ssa_wf_local; [| simpl; tauto]. apply ssa_wf_note; [assumption | constructor; [tauto | constructor]].
  - apply ssa_wf_note; [apply ssa_wf_def; [exact W | lia] |]. constructor; [apply new_value_name | constructor].
  - pops p here. destruct n as [x |]; [| assumption]. apply ssa_wf_note; [assumption | constructor; [tauto | constructor]].
  - pops p here. destruct n as [x |]; [| apply ssa_wf_def; [assumption | lia]].
    apply ssa_wf_note; [apply ssa_wf_def; [assumption | lia] |]. constructor; [| constructor].
    simpl. rewrite fmap_app, elem_of_app. left. tauto.
  - pops p here. destruct n as [x |]; [| apply ssa_wf_def; [assumption | lia]].
    apply ssa_wf_note; [apply ssa_wf_def; [assumption | lia] |]. constructor; [| constructor].
    simpl. rewrite fmap_app, elem_of_app. left. tauto.
  - pops p here. destruct n0 as [x |], n as [y |]; try assumption.
    apply ssa_wf_note; [apply ssa_wf_use; [assumption | lia] |]. constructor; [| constructor].
    simpl. rewrite use_value_names. tauto.
  - pops p here. destruct n0 as [x |], n as [y |]; try assumption.
    apply ssa_wf_note; [apply ssa_wf_use; [assumption | lia] |]. constructor; [| constructor].
    simpl. rewrite use_value_names. tauto.
Qed.

Lemma ssa_ops_wf l flt p s s' :
  ssa_wf p s -> laid_from p l -> ssa_ops show_discriminant l flt s = inr s' -> exists p', ssa_wf p' s'.
Proof.
  revert p s. induction l as [| o l IH]; intros p s W Hl E; simpl in E.
  { destruct flt as [[??] |]; [discriminate |]. apply (inj inr) in E. subst. eauto. }
  destruct (_ <? _); [discriminate |]. destruct Hl as (L1 & L2 & Hl).
  assert (ssa_wf p (note ROperator s)) as W1 by (apply ssa_wf_note; [exact W | constructor]).
  assert (op o = End /\ s' = note ROperator s \/
          ssa_ops show_discriminant l flt (step (op_at o) (op_next o) (op o) (note ROperator s)) = inr s') as [[_ ->] | E'].
  { destruct (op o); try (right; exact E). left. split; [reflexivity | congruence]. }
  - eauto.
  - refine (IH (op_next o) _ _ Hl E'). by apply (ssa_op_wf p).
Qed.

Lemma seed_params_wf i n s : ssa_wf 0 s -> ssa_wf 0 (seed_params i n s).
Proof.
  revert i s. induction n as [| n IH]; intros i s W; simpl; [exact W |]. apply IH.
  apply ssa_wf_local; [by apply ssa_wf_new | apply new_value_name].
Qed.

Lemma sstate_init_wf : ssa_wf 0 sstate_init.
Proof.
  constructor; simpl.
  - reflexivity.
  - intros i f Hi. by rewrite lookup_nil in Hi.
  - by intros f u Hf%elem_of_nil.
  - constructor.
  - apply map_Forall_empty.
  - constructor.
Qed.

(** The values of a body are in static single assignment form: the [i]-th
    value is version [i], so names are unique; every use of a value lies at or
    behind its definition; and every load, store, condition, table index and
    argument the analysis reports names a value of the list. *)
Theorem ssa_well_formed b n_params o :
  laid_from 0 (ops b) -> analyze_values show_discriminant b n_params = inr o ->
  (forall i f, values o !! i = Some f -> version (vname f) = i) /\
  NoDup (vname <$> values o) /\
  (forall f u, f ∈ values o -> u ∈ uses f -> def_offset (vname f) <= u) /\
  (forall n, n ∈ mentioned o -> n ∈ vname <$> values o).
Proof.
  intros Hl E. unfold analyze_values in E. destruct (ssa_ops _ _ _ _) as [e | s] eqn:S; [discriminate |].
  apply (inj inr) in E. subst o.
  destruct (ssa_ops_wf _ _ 0 _ _ (seed_params_wf 0 n_params _ sstate_init_wf) Hl S) as [p [H1 H2 H3 H4 H5 H6]].
  split_and!.
  - intros i f Hi. apply (H2 i f Hi).
  - apply NoDup_alt. intros i j n Hi Hj. rewrite list_lookup_fmap in Hi, Hj.
    destruct (values (s_out s) !! i) as [f |] eqn:Ei; [| discriminate].
    destruct (values (s_out s) !! j) as [g |] eqn:Ej; [| discriminate].
    destruct (H2 _ _ Ei), (H2 _ _ Ej). simpl in Hi, Hj. congruence.
  - intros f u Hf Hu. apply (H3 f u Hf Hu).
  - exact (proj1 (Forall_forall _ _) H6).
Qed.
End WellFormed.

(** ** Executions *)

(** The machine WebAssembly defines for straight-line code, with the list of
    the values it produced.  Memory and globals are any store [M]. *)
Section Machine.
Context {M : Type} (load : Z -> Z -> M -> Z) (store : Z -> Z -> Z -> M -> M)
  (get_global : Z -> M -> Z) (put_global : Z -> Z -> M -> M).

Record machine := { m_stack : list Z; m_locals : gmap Z Z; m_store : M; m_trace : list Z }.

Definition produce (v : Z) (m : machine) : machine :=
  {| m_stack := v :: m_stack m; m_locals := m_locals m; m_store := m_store m; m_trace := m_trace m ++ [v] |}.
Definition with_stack (st : list Z) (m : machine) : machine :=
  {| m_stack := st; m_locals := m_locals m; m_store := m_store m; m_trace := m_trace m |}.
Definition with_local (i v : Z) (m : machine) : machine :=
  {| m_stack := m_stack m; m_locals := <[i := v]> (m_locals m); m_store := m_store m; m_trace := m_trace m |}.
Definition with_store (x : M) (m : machine) : machine :=
  {| m_stack := m_stack m; m_locals := m_locals m; m_store := x; m_trace := m_trace m |}.

Definition i32_binop (o : Operator) (a b : Z) : Z :=
  match o with
  | I32Add => wrap_i32 (a + b) | I32Sub => wrap_i32 (a - b) | I32Mul => wrap_i32 (a * b)
  | I32And => Z.land a b | I32Or => Z.lor a b | _ => Z.lxor a b
  end.
Definition i32_cmp (o : Operator) (a b : Z) : Z :=
  let a := a mod u32_modulus in
  let b := b mod u32_modulus in
  Z.b2z (match o with I32Eq => a =? b | I32Ne => negb (a =? b) | I32LtU => a <? b | _ => b <=? a end).

(** A step; none for what leaves straight-line code and for an empty stack.  A
    declared local that was not written yet holds 0. *)
Definition exec_op (o : Operator) (m : machine) : option machine :=
  match o, m_stack m with
  | I32Const v, _ | I64Const v, _ | F32Const v, _ | F64Const v, _ => Some (produce v m)
  | LocalGet i, st => Some (with_stack (default 0 (m_locals m !! i) :: st) m)
  | LocalSet i, v :: st => Some (with_local i v (with_stack st m))
  | LocalTee i, v :: st => Some (with_local i v (with_stack (v :: st) m))
  | GlobalGet i, _ => Some (produce (get_global i (m_store m)) m)
  | GlobalSet i, v :: st => Some (with_store (put_global i v (m_store m)) (with_stack st m))
  | I32Load off, a :: st => Some (produce (load 4 (a + off) (m_store m)) (with_stack st m))
  | I64Load off, a :: st => Some (produce (load 8 (a + off) (m_store m)) (with_stack st m))
  | I32Store off, v :: a :: st => Some (with_store (store 4 (a + off) v (m_store m)) (with_stack st m))
  | I64Store off, v :: a :: st => Some (with_store (store 8 (a + off) v (m_store m)) (with_stack st m))
  | (I32Add | I32Sub | I32Mul | I32And | I32Or | I32Xor) as o, b :: a :: st =>
      Some (produce (i32_binop o a b) (with_stack st m))
  | I32Eqz, a :: st => Some (produce (Z.b2z (a =? 0)) (with_stack st m))
  | (I32Eq | I32Ne | I32LtU | I32GeU) as o, b :: a :: st => Some (produce (i32_cmp o a b) (with_stack st m))
  | BrIf _, c :: st => if c =? 0 then Some (with_stack st m) else None
  | Drop, _ :: st => Some (with_stack st m)
  | _, _ => None
  end.

(** Up to the [End] of the function. *)
Fixpoint exec (l : list ReadOp) (m : machine) : option machine :=
  match l with
  | [] => Some m
  | o :: l' => match op o with End => Some m | o1 => m' ← exec_op o1 m; exec l' m' end
  end.

Fixpoint param_locals (i : nat) (vs : list Z) (ls : gmap Z Z) : gmap Z Z :=
  match vs with [] => ls | v :: vs' => param_locals (S i) vs' (<[Z.of_nat i := v]> ls) end.
Definition enter (args : list Z) (x : M) : machine :=
  {| m_stack := []; m_locals := param_locals 0 args ∅; m_store := x; m_trace := args |}.

(** Every local the straight-line code reads is a parameter or was written before. *)
Fixpoint locals_set (known : gset Z) (l : list ReadOp) : bool :=
  match l with
  | [] => true
  | o :: l' =>
      match op o with
      | End => true
      | LocalGet i => bool_decide (i ∈ known) && locals_set known l'
      | LocalSet i | LocalTee i => locals_set ({[i]} ∪ known) l'
      | _ => locals_set known l'
      end
  end.
Definition params_set (n : nat) : gset Z := list_to_set (Z.of_nat <$> seq 0 n).

(** *** The simulation *)

(** Name [n] stands for the value [v]. *)
Definition denotes (ks : list (SsaName * option Z)) (tr : list Z) (n : SsaName) (v : Z) : Prop :=
  fst <$> ks !! version n = Some n /\ tr !! version n = Some v.

Record sim (s : sstate) (m : machine) : Prop := {
  sm_length : s_version s = length (m_trace m);
  sm_keys : length (vkeys s) = s_version s;
  sm_number : forall i k, vkeys s !! i = Some k -> version k.1 = i;
  sm_const : forall i n c v, vkeys s !! i = Some (n, Some c) -> m_trace m !! i = Some v -> v = c;
  sm_stack : Forall2 (denotes (vkeys s) (m_trace m)) (s_stack s) (m_stack m);
  sm_locals : forall i, option_relation (denotes (vkeys s) (m_trace m)) (fun _ => False) (fun _ => False)
                (s_locals s !! i) (m_locals m !! i);
}.

Lemma denotes_mono ks tr ks' tr' n v : denotes ks tr n v -> denotes (ks ++ ks') (tr ++ tr') n v.
Proof.
  intros [H1 H2]. apply fmap_Some in H1 as (k & Hk & E). split.
  - by rewrite (lookup_app_l_Some _ _ _ _ Hk), E.
  - exact (lookup_app_l_Some _ _ _ _ H2).
Qed.

Lemma sim_note r s m : sim s m -> sim (note r s) m.
Proof. intros []. constructor; assumption. Qed.

Lemma vkeys_mark n a s : vkeys (mark_use n a s) = vkeys s.
Proof. apply use_value_keys. Qed.

Lemma sim_mark n a s m : sim s m -> sim (mark_use n a s) m.
Proof. intros []. constructor; rewrite ?vkeys_mark; assumption. Qed.

Lemma sim_def here ty by_ c v s m :
  sim s m -> (forall x, c = Some x -> v = x) -> sim (def_val here ty by_ c s) (produce v m).
Proof.
  intros [H1 H2 H3 H4 H5 H6] Hc.
  assert (vkeys (def_val here ty by_ c s) = vkeys s ++ [({| def_offset := here; version := s_version s |}, c)]) as K.
  { unfold vkeys. simpl. by rewrite fmap_app. }
  constructor; rewrite ?K; simpl.
  - rewrite length_app. simpl. lia.
  - rewrite length_app. simpl. lia.
  - intros i k [Hi | [Hi Hk]]%lookup_app_Some; [eauto |]. apply list_lookup_singleton_Some in Hk as [? <-]. simpl. lia.
  - intros i n x w [Hi | [Hi Hk]]%lookup_app_Some Hw.
    + pose proof (lookup_lt_Some _ _ _ Hi). rewrite lookup_app_l in Hw by lia. eauto.
    + apply list_lookup_singleton_Some in Hk as [Hz [= _ ->]]. rewrite lookup_app_r in Hw by lia.
      replace (i - length (m_trace m))%nat with 0%nat in Hw by lia. injection Hw as <-. by apply Hc.
  - constructor; [| eapply Forall2_impl; [exact H5 | intros; by apply denotes_mono]].
    split; simpl.
    + rewrite lookup_app_r by lia. by replace (s_version s - length (vkeys s))%nat with 0%nat by lia.
    + rewrite lookup_app_r by lia. by replace (s_version s - length (m_trace m))%nat with 0%nat by lia.
  - intros i. specialize (H6 i). destruct (s_locals s !! i), (m_locals m !! i); simpl in *; try exact H6.
    by apply denotes_mono.
Qed.

(** A pop of both machines. *)
Lemma sim_pop here s m v st :
  sim s m -> m_stack m = v :: st ->
  exists n s', pop_use here s = (Some n, s') /\ sim s' (with_stack st m) /\ denotes (vkeys s') (m_trace m) n v.
Proof.
  intros [H1 H2 H3 H4 H5 H6] E. rewrite E in H5. inversion H5 as [| n ? rest ? Hn Hr Es]; subst.
  unfold pop_use. rewrite <- Es. eexists n, _. split; [reflexivity |]. rewrite vkeys_mark. split; [| exact Hn].
  apply sim_mark. constructor; assumption.
Qed.

Lemma denotes_const s m n v c :
  sim s m -> denotes (vkeys s) (m_trace m) n v -> const_of (s_out s) (Some n) = Some c -> v = c.
Proof.
  intros S [Hn Hv] E. simpl in E. destruct (fact_of n (s_out s)) as [f |] eqn:F; [| discriminate].
  apply List.find_some in F as [Hf Hb]. apply bool_decide_eq_true in Hb. apply list_elem_of_In, list_elem_of_lookup in Hf as [i Hi].
  assert (vkeys s !! i = Some (n, Some c)) as K.
  { unfold vkeys. rewrite list_lookup_fmap, Hi. simpl. unfold vkey. congruence. }
  pose proof (sm_number _ _ S _ _ K) as Ei. simpl in Ei. subst i. exact (sm_const _ _ S _ _ _ _ K Hv).
Qed.

Lemma sim_push n v s m : sim s m -> denotes (vkeys s) (m_trace m) n v -> sim (push_name n s) (with_stack (v :: m_stack m) m).
Proof. intros [] D. constructor; try assumption. by constructor. Qed.

Lemma sim_local i n v s m : sim s m -> denotes (vkeys s) (m_trace m) n v -> sim (set_local i n s) (with_local i v m).
Proof.
  intros [H1 H2 H3 H4 H5 H6] D. constructor; try assumption. intros j. simpl.
  destruct (decide (i = j)) as [<- | N]; [by rewrite !lookup_insert_eq | rewrite !lookup_insert_ne by exact N; apply H6].
Qed.

Lemma sim_store x s m : sim s m -> sim s (with_store x m).
Proof. intros []. constructor; assumption. Qed.

Context (show_discriminant : Operator -> string).

Lemma pop_use_keys here s : vkeys (pop_use here s).2 = vkeys s.
Proof. unfold pop_use. destruct (s_stack s); simpl; [reflexivity | apply use_value_keys]. Qed.

Lemma sim_pop2 here s m b a st :
  sim s m -> m_stack m = b :: a :: st ->
  exists nb na s1 s2, pop_use here s = (Some nb, s1) /\ pop_use here s1 = (Some na, s2) /\ sim s2 (with_stack st m) /\
    denotes (vkeys s2) (m_trace m) nb b /\ denotes (vkeys s2) (m_trace m) na a.
Proof.
  intros S E. destruct (sim_pop here s m b (a :: st) S E) as (nb & s1 & P1 & S1 & D1).
  destruct (sim_pop here s1 _ a st S1 eq_refl) as (na & s2 & P2 & S2 & D2).
  exists nb, na, s1, s2. split_and!; try assumption.
  pose proof (pop_use_keys here s1) as K. rewrite P2 in K. simpl in K. rewrite K. exact D1.
Qed.

Lemma sim_binop o here a b n n0 by_ s m :
  sim s m -> denotes (vkeys s) (m_trace m) n b -> denotes (vkeys s) (m_trace m) n0 a ->
  sim (def_val here "i32" by_ (fold_const o (const_of (s_out s) (Some n0)) (const_of (s_out s) (Some n))) s)
    (produce (i32_binop o a b) m).
Proof.
  intros S Db Da. apply sim_def; [exact S |]. intros x E. unfold fold_const in E.
  destruct (const_of (s_out s) (Some n0)) as [ca |] eqn:Ea; [| discriminate].
  destruct (const_of (s_out s) (Some n)) as [cb |] eqn:Eb; [| discriminate].
  pose proof (denotes_const _ _ _ _ _ S Da Ea). pose proof (denotes_const _ _ _ _ _ S Db Eb). subst ca cb.
  destruct o; try discriminate; injection E as <-; reflexivity.
Qed.

(** Reads the stack of the machine for an operator that pops one or two values. *)
Ltac pop_one S E here :=
  let Es := fresh "Es" in
  destruct (m_stack _) as [| v st] eqn:Es in E; [discriminate |];
  match type of E with Some _ = Some _ => apply (inj Some) in E; subst | _ => idtac end;
  destruct (sim_pop here _ _ _ _ S Es) as (n & s1 & -> & S1 & D).
Ltac pop_two S E here :=
  let Es := fresh "Es" in
  destruct (m_stack _) as [| b [| a st]] eqn:Es in E; [discriminate | discriminate |];
  apply (inj Some) in E; subst;
  destruct (sim_pop2 here _ _ _ _ _ S Es) as (nb & na & s1 & s2 & P1 & P2 & S2 & Db & Da);
  rewrite P1; cbn [fst snd]; rewrite P2; cbn [fst snd].

Lemma ssa_op_sim pos here o s m m' :
  sim s m -> (forall i, o = LocalGet i -> is_Some (m_locals m !! i)) -> exec_op o m = Some m' ->
  sim (ssa_op show_discriminant pos here o s) m'.
Proof.
  intros S Hl E.
  destruct o; simpl in E |- *; try discriminate;
    try (apply (inj Some) in E; subst m'; first [apply sim_def | apply sim_note, sim_def]; [exact S | congruence]);
    try (pop_two S E here; first [apply sim_binop; assumption | apply sim_def; [assumption | discriminate]
                                 | apply sim_store, sim_note, sim_mark; assumption]).
  - pop_one S E here. exact S1.
  - pop_one S E here. destruct (v =? 0); [| discriminate]. apply (inj Some) in E. subst. by apply sim_note.
  - pose proof (sm_locals _ _ S i) as L. destruct (Hl i eq_refl) as [v Hv]. rewrite Hv in L, E.
    apply (inj Some) in E. subst m'. destruct (s_locals s !! i) as [n |]; [| contradiction]. simpl in L.
    apply sim_push; [by apply sim_note, sim_mark |]. simpl.
    change (vkeys _) with (vkeys (mark_use n pos s)). rewrite vkeys_mark. exact L.
  - pop_one S E here. apply (sim_local _ _ _ _ (with_stack st m)); [by apply sim_note | exact D].
  - pop_one S E here. 
    apply (sim_push n v (set_local i n (note (RLocalStore (pos, i, n)) s1)) (with_local i v (with_stack st m))).
    + apply sim_local; [by apply sim_note | exact D].
    + exact D.
  - pop_one S E here. apply sim_store. by apply sim_note.
  - pop_one S E here. apply sim_note. apply sim_def; [assumption | discriminate].
  - pop_one S E here. apply sim_note. apply sim_def; [assumption | discriminate].
  - pop_one S E here. apply sim_def; [assumption | discriminate].
  - pop_two S E here. exact (sim_binop I32Add _ _ _ _ _ _ _ _ S2 Db Da).
  - pop_two S E here. exact (sim_binop I32Sub _ _ _ _ _ _ _ _ S2 Db Da).
  - pop_two S E here. exact (sim_binop I32Mul _ _ _ _ _ _ _ _ S2 Db Da).
Qed.

(** A step keeps the locals that are set, and sets what it writes. *)
Lemma exec_op_locals o m m' :
  exec_op o m = Some m' ->
  (m_locals m' = m_locals m /\ forall i, o <> LocalSet i /\ o <> LocalTee i) \/ exists i v, (o = LocalSet i \/ o = LocalTee i) /\ m_locals m' = <[i := v]> (m_locals m).
Proof.
  intros E. destruct o; simpl in E; try discriminate; repeat (case_match; try discriminate); injection E as <-; simpl;
    first [left; split; [reflexivity | split; discriminate] | right; eauto 8].
Qed.

Lemma locals_set_step known o l m m' :
  op o <> End -> locals_set known (o :: l) = true -> known ⊆ dom (m_locals m) -> exec_op (op o) m = Some m' ->
  (forall i, op o = LocalGet i -> is_Some (m_locals m !! i)) /\
  exists known', locals_set known' l = true /\ known' ⊆ dom (m_locals m').
Proof.
  intros Ho F K X. apply exec_op_locals in X. cbn [locals_set] in F. split.
  - intros i E. rewrite E in F. apply andb_prop in F as [F _]. apply bool_decide_eq_true in F. apply elem_of_dom. set_solver.
  - destruct X as [[-> N] | (i & v & [E | E] & ->)].
    + destruct (op o) eqn:Eo; try congruence; try (exists known; by split); try (apply andb_prop in F as [_ F]; exists known; by split).
      all: destruct (N i); congruence.
    + rewrite E in F. exists ({[i]} ∪ known). split; [exact F | rewrite dom_insert; set_solver].
    + rewrite E in F. exists ({[i]} ∪ known). split; [exact F | rewrite dom_insert; set_solver].
Qed.

Lemma ssa_ops_sim known l flt s m m' s' :
  sim s m -> locals_set known l = true -> known ⊆ dom (m_locals m) ->
  exec l m = Some m' -> ssa_ops show_discriminant l flt s = inr s' -> sim s' m'.
Proof.
  revert known s m. induction l as [| o l IH]; intros known s m S F K X E; cbn [exec ssa_ops] in X, E.
  { destruct flt as [[??] |]; [discriminate |]. congruence. }
  destruct (_ <? _); [discriminate |]. apply (sim_note ROperator) in S.
  assert (m' = m /\ s' = note ROperator s \/
    (m1 ← exec_op (op o) m; exec l m1) = Some m' /\
    ssa_ops show_discriminant l flt (ssa_op show_discriminant (op_at o) (op_next o) (op o) (note ROperator s)) = inr s')
    as [[-> ->] | [X' E']].
  { destruct (op o); try (right; split; [exact X | exact E]). left. split; congruence. }
  - exact S.
  - destruct (exec_op (op o) m) as [m1 |] eqn:X1; [| discriminate].
    destruct (locals_set_step known o l m m1) as (Hl & known' & F' & K'); try assumption.
    { intros Eo. by rewrite Eo in X1. }
    exact (IH known' _ m1 (ssa_op_sim _ _ _ _ _ _ S Hl X1) F' K' X' E').
Qed.

(** Parameters are values no constant is claimed of. *)
Lemma sim_param i v s m :
  sim s m -> m_stack m = [] -> s_stack s = [] ->
  let n := {| def_offset := 0; version := s_version s |} in
  sim (set_local i n (new_value 0 "param" ("param " +:+ show_dec i) None s))
    {| m_stack := []; m_locals := <[i := v]> (m_locals m); m_store := m_store m; m_trace := m_trace m ++ [v] |}.
Proof.
  intros S Em Es n. pose proof (sim_def 0 "param" ("param " +:+ show_dec i) None v s m S ltac:(discriminate)) as S1.
  pose proof (sm_stack _ _ S1) as St. simpl in St. inversion St as [| ???? Hn _]; subst.
  assert (sim (new_value 0 "param" ("param " +:+ show_dec i) None s)
    {| m_stack := []; m_locals := m_locals m; m_store := m_store m; m_trace := m_trace m ++ [v] |}) as S2.
  { destruct S1. constructor; try assumption. simpl. rewrite Es. constructor. }
  exact (sim_local i n v _ _ S2 Hn).
Qed.

Lemma seed_params_sim i args s m :
  sim s m -> m_stack m = [] -> s_stack s = [] ->
  sim (seed_params i (length args) s)
    {| m_stack := []; m_locals := param_locals i args (m_locals m); m_store := m_store m; m_trace := m_trace m ++ args |}.
Proof.
  revert i s m. induction args as [| v args IH]; intros i s m Sm Em Es; simpl.
  - rewrite app_nil_r. destruct m. simpl in *. by subst.
  - pose proof (sim_param (Z.of_nat i) v s m Sm Em Es) as S1.
    specialize (IH (S i) _ _ S1 eq_refl Es). simpl in IH. by rewrite <- app_assoc in IH.
Qed.

Lemma enter_sim args x : sim (seed_params 0 (length args) sstate_init) (enter args x).
Proof.
  refine (seed_params_sim 0 args sstate_init {| m_stack := []; m_locals := ∅; m_store := x; m_trace := [] |} _ eq_refl eq_refl).
  constructor; simpl; try reflexivity.
  - intros i k Hi. discriminate Hi.
  - intros i n c v Hi. discriminate Hi.
  - constructor.
Qed.

Lemma param_locals_dom i args ls :
  dom (param_locals i args ls) = list_to_set (Z.of_nat <$> seq i (length args)) ∪ dom ls.
Proof.
  revert i ls. induction args as [| v args IH]; intros i ls; simpl; [set_solver |]. rewrite IH, dom_insert_L. set_solver.
Qed.

End Machine.

Fixpoint at_offsets (p : Z) (l : list Operator) : list ReadOp :=
  match l with [] => [] | o :: l' => {| op_at := p; op_next := p + 2; op := o |} :: at_offsets (p + 2) l' end.
Definition body_of (l : list Operator) : Body := {| ops := at_offsets 0 l; fault := None |}.
Definition no_discriminant (o : Operator) : string := "Discriminant".

Definition folding_body : Body := body_of [I32Const 2147483647; I32Const 1; I32Add; LocalGet 0; I32Xor; Drop; End].

Lemma ssa_well_formed_witness :
  exists o, analyze_values no_discriminant folding_body 1 = inr o /\ NoDup (vname <$> values o) /\ length (values o) = 5%nat.
Proof.
  destruct (analyze_values no_discriminant folding_body 1) as [e | o] eqn:E; [vm_compute in E; discriminate |].
  exists o. split; [reflexivity |]. split.
  - refine (proj1 (proj2 (ssa_well_formed no_discriminant folding_body 1 o _ E))). simpl. lia.
  - vm_compute in E. apply (inj inr) in E. subst o. reflexivity.
Defined.


(** A declared local that is read before it is written holds 0, but the
    analysis pushes nothing for it: [1 * (2 + local 0)] is analysed as if it
    were [1 + 2], and the sum, which is 2, is reported constant 3. *)
Definition unset_body : Body := body_of [I32Const 1; I32Const 2; LocalGet 0; I32Add; I32Mul; Drop; End].

Example unset_local_misaligns :
  m_trace <$> exec (fun _ _ _ => 0) (fun _ _ _ u => u) (fun _ _ => 0) (fun _ _ u => u) (ops unset_body) (enter [] tt)
    = Some [1; 2; 2; 2] /\
  (fun o => constant <$> values o) <$>
    match analyze_values no_discriminant unset_body 0 with
    | inl _ => None | inr o => Some o end = Some [Some 1; Some 2; Some 3; None].
Proof. split; vm_compute; reflexivity. Qed.
