(* ===== verification/WasmCalls.v ===== *)
(** * WasmCalls: resolution of indirect calls

    Models [rmcp-wasm/src/calls.rs]: [resolve_indirect] answers every
    [call_indirect] site from the module model, the element segments of its
    table, and the constant indices known for it. *)

From stdpp Require Import base list gmap strings sorting.
From Stdlib Require Import ZArith Lia.
From S2P Require Import Prelude Text WasmModule.

Local Open Scope Z_scope.

Inductive Confidence := Confirmed | Candidate | Unresolved.

Record IndirectTarget := {
  site_offset : Z; it_table : Z; it_type : Z; confidence : Confidence; it_targets : list Z;
  evidence : list string; reason : string }.

Definition debug_option (o : option Z) : string :=
  match o with Some v => "Some(" +:+ (show_dec v +:+ ")") | None => "None" end.

(** [BTreeSet::from_iter] read back in order. *)
Definition btree_set (l : list Z) : list Z := dedup (sort_by_key (fun x => x) l).

Definition in_table (table : Z) (model : ModuleModel) : list ElementSegment :=
  filter (fun s => seg_table s = table) (elements model).

(** The segment covers the slot [idx] of its table. *)
Definition covers (idx : Z) (s : ElementSegment) : bool :=
  match seg_offset s with
  | Some o => (o <=? idx) && (idx - o <? Z.of_nat (length (func_indices s)))
  | None => false
  end.

Definition compatible (tidx : Z) (model : ModuleModel) : list Z :=
  fn_index <$> filter (fun f => fn_type f = tidx) (functions model).

Definition element_evidence (s : ElementSegment) : string :=
  "elem " +:+ (show_dec (seg_index s) +:+ (" feeds table " +:+ (show_dec (seg_table s) +:+ (" at offset "
    +:+ (debug_option (seg_offset s) +:+ (" (" +:+ (show_dec (Z.of_nat (length (func_indices s)))
    +:+ " entries)"))))))).

Definition fn_with_index (target : Z) (model : ModuleModel) : option FunctionEntry :=
  List.find (fun f => fn_index f =? target) (functions model).

(** One site.  The slot of a covering segment is within it, so the indexing does not panic. *)
Definition resolve_site (model : ModuleModel) (const_indices : gmap Z Z) (st : Z * Z * Z) : IndirectTarget :=
  let '(site, tidx, table) := st in
  let answer conf targets ev why :=
    {| site_offset := site; it_table := table; it_type := tidx; confidence := conf; it_targets := targets;
       evidence := ev; reason := why |} in
  let evidence := element_evidence <$> in_table table model in
  match const_indices !! site with
  | Some idx =>
      match List.find (covers idx) (in_table table model) with
      | Some seg =>
          let slot := idx - default 0 (seg_offset seg) in
          let target := default 0 (func_indices seg !! Z.to_nat slot) in
          let type_ok := match fn_with_index target model with Some f => fn_type f =? tidx | None => false end in
          if type_ok
          then answer Confirmed [target]
                 (evidence ++ ["constant index " +:+ (show_dec idx +:+ (" -> elem " +:+ (show_dec (seg_index seg)
                                +:+ (" slot " +:+ show_dec slot))))])
                 "constant index proven by SSA; element segment covers it"
          else answer Unresolved (compatible tidx model) evidence
                 ("constant index " +:+ (show_dec idx +:+ (" resolves to fn " +:+ (show_dec target
                    +:+ " with a mismatched type (dead dispatch path?)"))))
      | None =>
          answer Unresolved (compatible tidx model) evidence
            ("constant index " +:+ (show_dec idx +:+ " not covered by any element segment"))
      end
  | None =>
      let entries := filter (fun i => i ∈ compatible tidx model) (concat (func_indices <$> in_table table model)) in
      let targets := btree_set entries in
      answer (match targets with [] => Unresolved | _ => Candidate end) targets evidence
        "runtime index; bounded to type-compatible entries in element segments"
  end.

Definition resolve_indirect (model : ModuleModel) (sites : list (Z * Z * Z)) (const_indices : gmap Z Z)
  : list IndirectTarget :=
  resolve_site model const_indices <$> sites.

(** ** The table a module builds *)

(** What instantiation leaves in a slot: segments are written in order. *)
Definition write_segment (idx : Z) (acc : option Z) (s : ElementSegment) : option Z :=
  match seg_offset s with
  | Some o => if covers idx s then func_indices s !! Z.to_nat (idx - o) else acc
  | None => acc
  end.
Definition table_slot (model : ModuleModel) (table idx : Z) : option Z :=
  foldl (write_segment idx) None (in_table table model).

(** No slot of the table is written twice. *)
Definition disjoint_segments (model : ModuleModel) (table : Z) : Prop :=
  forall idx i j s s', in_table table model !! i = Some s -> in_table table model !! j = Some s' ->
    covers idx s = true -> covers idx s' = true -> i = j.

(** The function a call through the slot may enter. *)
Definition callable (model : ModuleModel) (tidx t : Z) : Prop :=
  exists f, f ∈ functions model /\ fn_index f = t /\ fn_type f = tidx.

Lemma covers_slot idx s :
  covers idx s = true ->
  exists o t, seg_offset s = Some o /\ o <= idx /\ func_indices s !! Z.to_nat (idx - o) = Some t.
Proof.
  unfold covers. destruct (seg_offset s) as [o |]; [| discriminate].
  intros [H1%Z.leb_le H2%Z.ltb_lt]%andb_true_iff.
  destruct (lookup_lt_is_Some_2 (func_indices s) (Z.to_nat (idx - o))) as [t Ht]; [lia |]. eauto.
Qed.

Lemma write_segment_off idx l acc :
  Forall (fun s => covers idx s = false) l -> foldl (write_segment idx) acc l = acc.
Proof.
  intros H. revert acc. induction H as [| s l Hs _ IH]; intros acc; simpl; [reflexivity |].
  rewrite IH. unfold write_segment. rewrite Hs. by destruct (seg_offset s).
Qed.

(** The first covering segment is the one whose entry the slot holds, when no other covers it. *)
Lemma find_covers_slot idx l :
  (forall i j s s', l !! i = Some s -> l !! j = Some s' -> covers idx s = true -> covers idx s' = true -> i = j) ->
  match List.find (covers idx) l with
  | Some s => exists o t, seg_offset s = Some o /\ func_indices s !! Z.to_nat (idx - o) = Some t /\
                foldl (write_segment idx) None l = Some t
  | None => foldl (write_segment idx) None l = None
  end.
Proof.
  induction l as [| s l IH]; intros D; simpl; [reflexivity |]. destruct (covers idx s) eqn:C.
  - destruct (covers_slot idx s C) as (o & t & Ho & _ & Ht). exists o, t. split; [exact Ho |]. split; [exact Ht |].
    unfold write_segment at 2. rewrite C, Ho, Ht. apply write_segment_off. apply Forall_forall. intros s' Hs'.
    destruct (covers idx s') eqn:C'; [| reflexivity]. apply list_elem_of_lookup in Hs' as [j Hj].
    discriminate (D 0%nat (S j) s s' eq_refl Hj C C').
  - replace (write_segment idx None s) with (@None Z).
    + apply IH. intros i j x x' Hi Hj H H'. apply (inj S). exact (D (S i) (S j) x x' Hi Hj H H').
    + unfold write_segment. rewrite C. by destruct (seg_offset s).
Qed.

Lemma table_slot_entry model table idx t :
  table_slot model table idx = Some t -> t ∈ concat (func_indices <$> in_table table model).
Proof.
  unfold table_slot. generalize (in_table table model). intros l.
  enough (forall acc, foldl (write_segment idx) acc l = Some t -> acc = Some t \/ t ∈ concat (func_indices <$> l)) as H.
  { intros [E | E]%H; [discriminate | exact E]. }
  induction l as [| s l IH]; intros acc E; simpl in *; [by left |].
  apply IH in E as [E | E]; [| right; apply elem_of_app; by right].
  unfold write_segment in E. destruct (seg_offset s); [| by left]. destruct (covers idx s); [| by left].
  right. apply elem_of_app. left. by eapply list_elem_of_lookup_2.
Qed.

Lemma elem_of_btree_set x l : x ∈ btree_set l <-> x ∈ l.
Proof. unfold btree_set. by rewrite elem_of_dedup, sort_by_key_perm. Qed.

Lemma btree_set_sorted l : StronglySorted Z.lt (btree_set l).
Proof. apply dedup_strict. exact (sort_by_key_sorted (fun x => x) l). Qed.

Lemma elem_of_compatible model tidx t : t ∈ compatible tidx model <-> callable model tidx t.
Proof.
  unfold compatible, callable. rewrite list_elem_of_fmap. setoid_rewrite list_elem_of_filter. naive_solver.
Qed.

Lemma fn_with_index_callable model tidx t :
  NoDup (fn_index <$> functions model) ->
  match fn_with_index t model with Some f => fn_type f =? tidx | None => false end = true <-> callable model tidx t.
Proof.
  unfold fn_with_index, callable. generalize (functions model). intros fs.
  induction fs as [| f fs IH]; intros ND; simpl.
  { split; [discriminate |]. intros (f & Hf & _). by apply elem_of_nil in Hf. }
  simpl in ND. apply NoDup_cons in ND as [Hnew ND]. setoid_rewrite elem_of_cons.
  destruct (Z.eqb_spec (fn_index f) t) as [<- | Hne].
  - rewrite Z.eqb_eq. split; [eauto 10 |]. intros (g & [-> | Hg] & E & Ht); [exact Ht |].
    destruct Hnew. rewrite <- E. by apply list_elem_of_fmap_2.
  - rewrite (IH ND). naive_solver.
Qed.


Definition sample_fn (index type : Z) : FunctionEntry :=
  {| fn_index := index; fn_type := type; code_offset := 0; code_size := 0; local_types := []; fname := None |}.
Definition sample_seg (index offset : Z) (fs : list Z) : ElementSegment :=
  {| seg_index := index; seg_table := 0; seg_offset := Some offset; func_indices := fs |}.
Definition sample_module (segs : list ElementSegment) : ModuleModel :=
  finish_model 0 (set_elements segs (set_functions [sample_fn 0 1; sample_fn 1 1; sample_fn 2 0] pstate_init)).
Definition sample_table : ModuleModel := sample_module [sample_seg 0 0 [0; 1]; sample_seg 1 2 [2]].

Lemma sample_table_covers idx i s :
  in_table 0 sample_table !! i = Some s -> covers idx s = true -> i = if idx <? 2 then 0%nat else 1%nat.
Proof.
  change (in_table 0 sample_table) with [sample_seg 0 0 [0; 1]; sample_seg 1 2 [2]].
  destruct i as [| [| i]]; simpl; [intros <-%(inj Some) | intros <-%(inj Some) | discriminate];
    unfold covers; simpl; intros [H1%Z.leb_le H2%Z.ltb_lt]%andb_true_iff; destruct (Z.ltb_spec idx 2); lia.
Qed.

Lemma sample_table_disjoint : disjoint_segments sample_table 0.
Proof.
  intros idx i j s s' Hi Hj C C'. rewrite (sample_table_covers _ _ _ Hi C). by rewrite (sample_table_covers _ _ _ Hj C').
Qed.


(** Where two segments write one slot the later one stays, and the first is confirmed. *)
Example overlap_confirms_stale :
  let model := sample_module [sample_seg 0 0 [0]; sample_seg 1 0 [1]] in
  it_targets (resolve_site model {[5 := 0]} (5, 1, 0)) = [0] /\ table_slot model 0 0 = Some 1.
Proof. split; reflexivity. Qed.
