(* ===== verification/WasmPseudo.v ===== *)
(** * WasmPseudo: pseudocode of a function body

    Models [rmcp-wasm/src/pseudo.rs]: [render] prints a function as nested
    blocks, with a stack of the expressions not yet used.  The text is shown
    to be balanced. *)

From stdpp Require Import base list gmap strings.
From Stdlib Require Import ZArith Lia Ascii.
From S2P Require Import Prelude Text WasmModule WasmCfg WasmCalls.

Local Open Scope Z_scope.

Definition nl : string := of_codes [10].
Definition cat (ss : list string) : string := join "" ss.

(** The locals of the loop; the expression stack keeps its top in front. *)
Record pseudo := { ps_out : string; ps_indent : nat; ps_stack : list string }.

Definition emit (text : string) (p : pseudo) : pseudo :=
  {| ps_out := ps_out p +:+ text; ps_indent := ps_indent p; ps_stack := ps_stack p |}.
(** A line at the current indentation. *)
Definition line (parts : list string) (p : pseudo) : pseudo :=
  emit (repeat_str "  " (ps_indent p) +:+ (cat parts +:+ nl)) p.
Definition indent_in (p : pseudo) : pseudo :=
  {| ps_out := ps_out p; ps_indent := S (ps_indent p); ps_stack := ps_stack p |}.
Definition indent_out (p : pseudo) : pseudo :=
  {| ps_out := ps_out p; ps_indent := pred (ps_indent p); ps_stack := ps_stack p |}.
Definition epush (e : string) (p : pseudo) : pseudo :=
  {| ps_out := ps_out p; ps_indent := ps_indent p; ps_stack := e :: ps_stack p |}.
(** [estack.pop().unwrap_or(dflt)] *)
Definition epop (dflt : string) (p : pseudo) : string * pseudo :=
  match ps_stack p with
  | e :: st => (e, {| ps_out := ps_out p; ps_indent := ps_indent p; ps_stack := st |})
  | [] => (dflt, p)
  end.

Definition binop (sym : string) (p : pseudo) : pseudo :=
  let '(b, p) := epop "" p in
  let '(a, p) := epop "" p in
  epush (cat ["("; a; " "; sym; " "; b; ")"]) p.

(** The arguments of a call, popped and reversed. *)
Fixpoint pop_args (n : nat) (acc : list string) (p : pseudo) : list string * pseudo :=
  match n with
  | O => (acc, p)
  | S n' => let '(a, p) := epop "<arg>" p in pop_args n' (a :: acc) p
  end.

(** The operands of a return: as many as there are. *)
Fixpoint pop_results (n : nat) (p : pseudo) : list string * pseudo :=
  match n with
  | O => ([], p)
  | S n' =>
      match ps_stack p with
      | e :: st =>
          let '(l, p) := pop_results n' {| ps_out := ps_out p; ps_indent := ps_indent p; ps_stack := st |} in
          (e :: l, p)
      | [] => ([], p)
      end
  end.

Definition type_at (model : ModuleModel) (t : Z) : option FuncType := types model !! Z.to_nat t.

(** [names], then [l{i}]. *)
Definition local_name (names : gmap Z string) (i : Z) : string :=
  match names !! i with Some n => n | None => "l" +:+ show_dec i end.

Section Render.
Context (model : ModuleModel) (cfg : StructuredCfg) (func : FunctionEntry) (names : gmap Z string).

Definition render_call (f : Z) (p : pseudo) : pseudo :=
  let callee_ty := fn ← fn_with_index f model; type_at model (fn_type fn) in
  let n_args := match callee_ty with Some t => length (params t) | None => 0%nat end in
  let '(args, p) := pop_args n_args [] p in
  let callee := default ("wasm_fn_" +:+ show_dec f) (fn ← fn_with_index f model; fname fn) in
  let call := cat [callee; "("; join ", " args; ")"] in
  match callee_ty with
  | Some t => match results t with [] => line [call; ";"] p | _ :: _ => epush call p end
  | None => line [call; ";"] p
  end.

Definition render_return (p : pseudo) : pseudo :=
  let n := match type_at model (fn_type func) with Some t => length (results t) | None => 0%nat end in
  match n with
  | O => line ["return;"] p
  | S _ => let '(vals, p) := pop_results n p in line ["return "; join ", " vals; ";"] p
  end.

(** One operator; [true] when the function ends. *)
Definition render_op (pos : Z) (o : Operator) (p : pseudo) : pseudo * bool :=
  let at_ := show_0x pos in
  let go (p : pseudo) := (p, false) in
  match o with
  | I32Const v => go (epush (show_signed v) p)
  | I64Const v => go (epush (show_signed v +:+ "L") p)
  | LocalGet i => go (epush (local_name names i) p)
  | LocalSet i => let '(v, p) := epop "" p in go (line [local_name names i; " = "; v; ";"] p)
  | LocalTee i =>
      let '(v, p) := epop "" p in
      go (epush (local_name names i) (line [local_name names i; " = "; v; ";"] p))
  | GlobalGet i => go (epush ("g" +:+ show_dec i) p)
  | GlobalSet i => let '(v, p) := epop "" p in go (line ["g"; show_dec i; " = "; v; ";"] p)
  | I32Load off => let '(a, p) := epop "" p in go (epush (cat ["*(i32*)(mem+"; a; "+"; show_dec off; ")"]) p)
  | I64Load off => let '(a, p) := epop "" p in go (epush (cat ["*(i64*)(mem+"; a; "+"; show_dec off; ")"]) p)
  | I32Store off =>
      let '(v, p) := epop "" p in let '(a, p) := epop "" p in
      go (line ["*(i32*)(mem+"; a; "+"; show_dec off; ") = "; v; ";"] p)
  | I64Store off =>
      let '(v, p) := epop "" p in let '(a, p) := epop "" p in
      go (line ["*(i64*)(mem+"; a; "+"; show_dec off; ") = "; v; ";"] p)
  | I32Add => go (binop "+" p) | I32Sub => go (binop "-" p) | I32Mul => go (binop "*" p)
  | I32And => go (binop "&" p) | I32Or => go (binop "|" p) | I32Xor => go (binop "^" p)
  | I32Eqz => let '(a, p) := epop "" p in go (epush (cat ["("; a; " == 0)"]) p)
  | I32Eq => go (binop "==" p) | I32Ne => go (binop "!=" p)
  | I32LtU => go (binop "<u" p) | I32GeU => go (binop ">=u" p)
  | Block => go (indent_in (line ["{"; " // block @ "; at_] p))
  | Loop => go (indent_in (line ["do "; "{"; " // loop @ "; at_] p))
  | If =>
      let '(c, p) := epop "<cond>" p in go (indent_in (line ["if ("; c; ") "; "{"; " // if @ "; at_] p))
  | Else => go (indent_in (line ["}"; " else "; "{"] (indent_out p)))
  | Br d => go (line ["goto label_m"; show_dec d; "; // br @ "; at_] p)
  | BrIf d =>
      let '(c, p) := epop "<cond>" p in
      go (line ["if ("; c; ") goto label_m"; show_dec d; "; // br_if @ "; at_] p)
  | BrTable _ _ =>
      let targets := match List.find (fun x => x.1 =? pos) (br_tables cfg) with
                     | Some (_, t) => length t | None => 0%nat end in
      go (line ["switch (<idx>) "; "{"; " /* br_table @ "; at_; ": "; show_dec (Z.of_nat targets);
                " labeled targets */ "; "}"] p)
  | Call f => go (render_call f p)
  | CallIndirect ty table =>
      let '(a, p) := epop "" p in
      go (epush (cat ["table"; show_dec table; "["; a; "] /* type "; show_dec ty; "; targets: indirect_targets */"]) p)
  | Return => go (render_return p)
  | Unreachable => go (line ["unreachable;"] p)
  | Drop => go (epop "" p).2
  | End =>
      if (1 <? ps_indent p)%nat then let p := indent_out p in go (line ["}"] p)
      else (emit ("}" +:+ nl) p, true)
  | _ => go (line ["/* opaque op @ "; at_; " */"] p)
  end.

Fixpoint render_ops (l : list ReadOp) (flt : option (Z * string)) (p : pseudo) : WResult pseudo :=
  match l with
  | [] => match flt with Some (off, msg) => inl (Parse off msg) | None => inr p end
  | o :: l' =>
      match render_op (op_at o) (op o) p with
      | (p', true) => inr p'
      | (p', false) => render_ops l' flt p'
      end
  end.
End Render.

(** The names of parameters, then those of declared locals. *)
Fixpoint param_names (i n : nat) (m : gmap Z string) : gmap Z string :=
  match n with O => m | S n' => param_names (S i) n' (<[Z.of_nat i := "a" +:+ show_dec (Z.of_nat i)]> m) end.
Fixpoint declare_locals (i : nat) (ts : list string) (m : gmap Z string) : gmap Z string * string :=
  match ts with
  | [] => (m, "")
  | t :: ts' =>
      let idx := Z.of_nat i in
      let m := match m !! idx with Some _ => m | None => <[idx := "l" +:+ show_dec idx]> m end in
      let '(m, decl) := declare_locals (S i) ts' m in
      (m, cat ["  "; t; " l"; show_dec idx; ";"; nl] +:+ decl)
  end.

Definition render_header (func_index : Z) (func : FunctionEntry) (ty : FuncType) (name : string) : string :=
  let ps := join ", " (imap (fun i t => cat [t; " a"; show_dec (Z.of_nat i)]) (params ty)) in
  let ret := match results ty with [] => "void" | [r] => r
             | rs => cat ["(multi "; show_dec (Z.of_nat (length rs)); ")"] end in
  cat ["// WASM-native pseudocode (reverse-mcp; not Hex-Rays output)"; nl;
       "// func "; show_dec func_index; " @ code "; show_0x (code_offset func); " (";
       show_dec (code_size func); " bytes)"; nl; ret; " "; name; "("; ps; ") "; "{"; nl].

Definition render (model : ModuleModel) (func_index : Z) (body : Body) (cfg : StructuredCfg) : WResult string :=
  match fn_with_index func_index model with
  | None => inl (Ambiguous (cat ["function "; show_dec func_index; " not in model"]))
  | Some func =>
      let ty := default {| params := []; results := [] |} (type_at model (fn_type func)) in
      let name := default ("wasm_fn_" +:+ show_dec (fn_index func)) (fname func) in
      let '(names, decl) := declare_locals (length (params ty)) (local_types func) (param_names 0 (length (params ty)) ∅) in
      match render_ops model cfg func names (ops body) (fault body)
              {| ps_out := render_header func_index func ty name +:+ decl; ps_indent := 1; ps_stack := [] |} with
      | inl e => inl e
      | inr p => inr (ps_out p)
      end
  end.

(** ** Balance *)

Definition brace_free (c : ascii) : bool := negb (bool_decide (c = "{"%char)) && negb (bool_decide (c = "}"%char)).
Definition plain (s : string) : Prop := all_chars brace_free s = true.

(** Nesting depth behind a text that starts at depth [d]; none when a block is closed that was not open. *)
Fixpoint brace_depth (d : nat) (s : string) : option nat :=
  match s with
  | EmptyString => Some d
  | String c s' =>
      if bool_decide (c = "{"%char) then brace_depth (S d) s'
      else if bool_decide (c = "}"%char) then match d with O => None | S d' => brace_depth d' s' end
      else brace_depth d s'
  end.

Lemma brace_depth_app d s t : brace_depth d (s +:+ t) = d' ← brace_depth d s; brace_depth d' t.
Proof.
  revert d. induction s as [| c s IH]; intros d; [reflexivity |]. rewrite append_cons. cbn [brace_depth].
  repeat case_bool_decide; [apply IH | destruct d; [reflexivity | apply IH] | apply IH].
Qed.

Lemma brace_depth_plain d s : plain s -> brace_depth d s = Some d.
Proof.
  unfold plain. revert d. induction s as [| c s IH]; intros d H; [reflexivity |]. cbn [all_chars] in H.
  apply andb_true_iff in H as [[H1 H2]%andb_true_iff H]. cbn [brace_depth].
  apply negb_true_iff in H1, H2. rewrite H1, H2. by apply IH.
Qed.

Lemma plain_app s t : plain s -> plain t -> plain (s +:+ t).
Proof. unfold plain. rewrite all_chars_app. intros -> ->. reflexivity. Qed.

Lemma plain_join sep l : plain sep -> Forall plain l -> plain (join sep l).
Proof.
  intros Hs H. induction H as [| s l Hx Hl IH]; [reflexivity |]. destruct l as [| t l]; [exact Hx |].
  cbn [join]. repeat apply plain_app; assumption.
Qed.

Lemma plain_cat l : Forall plain l -> plain (cat l).
Proof. apply plain_join. reflexivity. Qed.

Lemma cat_cons s l : cat (s :: l) = s +:+ cat l.
Proof. unfold cat. destruct l; cbn [join]; [by rewrite append_nil_r | reflexivity]. Qed.

Lemma plain_digit_char d : d < 16 -> brace_free (digit_char d) = true.
Proof.
  intros H. unfold digit_char, chr.
  assert (exists k, (k < 103)%nat /\ Z.to_N (if d <? 10 then 48 + d else 87 + d) = N.of_nat k) as (k & Hk & ->).
  { exists (Z.to_nat (if d <? 10 then 48 + d else 87 + d)). destruct (Z.ltb_spec d 10); lia. }
  do 103 (destruct k as [| k]; [vm_compute; reflexivity |]). lia.
Qed.

Lemma plain_show_acc radix fuel n acc : 2 <= radix <= 16 -> plain acc -> plain (show_acc radix fuel n acc).
Proof.
  intros Hr. revert n acc. induction fuel as [| fuel IH]; intros n acc H; cbn [show_acc]; [exact H |].
  assert (forall d, d < 16 -> plain (String (digit_char d) acc)) as Hd.
  { intros d Hlt. unfold plain. cbn [all_chars]. rewrite plain_digit_char by exact Hlt. exact H. }
  destruct (Z.ltb_spec n radix); [apply Hd; lia |]. apply IH, Hd. pose proof (Z.mod_pos_bound n radix). lia.
Qed.

Lemma plain_show_dec n : plain (show_dec n).
Proof. apply plain_show_acc; [lia | reflexivity]. Qed.
Lemma plain_show_0x n : plain (show_0x n).
Proof. apply plain_app; [reflexivity |]. apply plain_show_acc; [lia | reflexivity]. Qed.
Lemma plain_show_signed n : plain (show_signed n).
Proof. unfold show_signed. destruct (_ <? _); [apply plain_app; [reflexivity |] |]; apply plain_show_dec. Qed.
Lemma plain_repeat s n : plain s -> plain (repeat_str s n).
Proof. intros H. induction n; cbn [repeat_str]; [reflexivity | by apply plain_app]. Qed.

Create HintDb plain.
#[local] Hint Resolve plain_show_dec plain_show_0x plain_show_signed plain_app plain_cat plain_join : plain.
#[local] Hint Extern 1 (plain ?s) => (is_ground s; reflexivity) : plain.
#[local] Hint Constructors Forall : plain.

(** The text so far ends at the current depth. *)
Record balanced (p : pseudo) : Prop := {
  b_depth : brace_depth 0 (ps_out p) = Some (ps_indent p);
  b_open : (1 <= ps_indent p)%nat;
  b_stack : Forall plain (ps_stack p);
}.

Lemma depth_line p parts d0 d :
  brace_depth 0 (ps_out p) = Some d0 -> brace_depth d0 (cat parts) = Some d ->
  brace_depth 0 (ps_out (line parts p)) = Some d.
Proof.
  intros H0 H. simpl. rewrite brace_depth_app, H0. cbn [mbind option_bind].
  rewrite brace_depth_app, brace_depth_plain by (apply plain_repeat; reflexivity). cbn [mbind option_bind].
  rewrite brace_depth_app, H. cbn [mbind option_bind]. by apply brace_depth_plain.
Qed.

Lemma balanced_line p parts : balanced p -> Forall plain parts -> balanced (line parts p).
Proof.
  intros [H1 H2 H3] F. constructor; [| exact H2 | exact H3]. simpl ps_indent.
  eapply depth_line; [exact H1 |]. by apply brace_depth_plain, plain_cat.
Qed.

Lemma balanced_open p pre post :
  balanced p -> Forall plain pre -> Forall plain post -> balanced (indent_in (line (pre ++ "{" :: post) p)).
Proof.
  intros [H1 H2 H3] Fp Fq. constructor; [| simpl; lia | exact H3]. simpl ps_indent.
  change (ps_out (indent_in ?x)) with (ps_out x). eapply depth_line; [exact H1 |].
  clear H1. induction Fp as [| s pre Hs _ IH]; simpl app; rewrite cat_cons, brace_depth_app.
  - cbn. by apply brace_depth_plain, plain_cat.
  - by rewrite brace_depth_plain.
Qed.

(** A pair of braces on one line. *)
Lemma balanced_braces p pre mid :
  balanced p -> Forall plain pre -> Forall plain mid -> balanced (line (pre ++ "{" :: mid ++ ["}"]) p).
Proof.
  intros [H1 H2 H3] Fp Fm. constructor; [| exact H2 | exact H3]. apply (depth_line _ _ _ _ H1). simpl ps_indent.
  generalize (ps_indent p). intros d. clear H1.
  assert (brace_depth (S d) (cat (mid ++ ["}"])) = Some d) as Hm.
  { induction Fm as [| s mid Hs _ IH]; simpl app; [reflexivity |]. by rewrite cat_cons, brace_depth_app, brace_depth_plain. }
  induction Fp as [| s pre Hs _ IH]; simpl app; rewrite cat_cons, brace_depth_app; [exact Hm |]. by rewrite brace_depth_plain.
Qed.

Lemma balanced_else p : balanced p -> balanced (indent_in (line ["}"; " else "; "{"] (indent_out p))).
Proof.
  intros [H1 H2 H3]. constructor; [| simpl; lia | exact H3]. simpl ps_indent.
  change (ps_out (indent_in ?x)) with (ps_out x). apply (depth_line (indent_out p) _ _ _ H1).
  destruct (ps_indent p); [lia | reflexivity].
Qed.

Lemma balanced_close p : balanced p -> (1 < ps_indent p)%nat -> balanced (line ["}"] (indent_out p)).
Proof.
  intros [H1 H2 H3] L. constructor; [| simpl; lia | exact H3]. apply (depth_line (indent_out p) _ _ _ H1).
  simpl. destruct (ps_indent p); [lia | reflexivity].
Qed.

Lemma balanced_push e p : balanced p -> plain e -> balanced (epush e p).
Proof. intros [] He. constructor; try assumption. by constructor. Qed.

Lemma balanced_pop dflt p : balanced p -> plain dflt -> plain (epop dflt p).1 /\ balanced (epop dflt p).2.
Proof.
  intros [H1 H2 H3] Hd. unfold epop. destruct (ps_stack p) as [| e st] eqn:E; simpl; [by split; [| constructor; rewrite ?E] |].
  apply Forall_cons in H3 as [He H3]. by split; [| constructor].
Qed.

Lemma balanced_pop_args n acc p :
  balanced p -> Forall plain acc -> Forall plain (pop_args n acc p).1 /\ balanced (pop_args n acc p).2.
Proof.
  revert acc p. induction n as [| n IH]; intros acc p B F; simpl; [by split |].
  destruct (balanced_pop "<arg>" p B eq_refl) as [H1 H2]. destruct (epop "<arg>" p) as [a q]. apply IH; [exact H2 | by constructor].
Qed.

Lemma balanced_pop_results n p : balanced p -> Forall plain (pop_results n p).1 /\ balanced (pop_results n p).2.
Proof.
  revert p. induction n as [| n IH]; intros p B; simpl; [by split |].
  destruct (ps_stack p) as [| e st] eqn:E; [by split |]. destruct B as [H1 H2 H3]. rewrite E in H3.
  apply Forall_cons in H3 as [He H3].
  destruct (IH {| ps_out := ps_out p; ps_indent := ps_indent p; ps_stack := st |}) as [F B]; [by constructor |].
  destruct (pop_results n _) as [l q]. simpl in *. split; [by constructor | exact B].
Qed.

Lemma balanced_binop sym p : balanced p -> plain sym -> balanced (binop sym p).
Proof.
  intros B Hs. unfold binop. destruct (balanced_pop "" p B eq_refl) as [Hb B1]. destruct (epop "" p) as [b p1].
  destruct (balanced_pop "" p1 B1 eq_refl) as [Ha B2]. destruct (epop "" p1) as [a p2]. simpl in *.
  apply balanced_push; [exact B2 |]. apply plain_cat. repeat constructor; assumption.
Qed.

(** Texts of the module without braces. *)
Record plain_model (model : ModuleModel) : Prop := {
  pm_names : Forall (fun f => forall n, fname f = Some n -> plain n) (functions model);
  pm_locals : Forall (fun f => Forall plain (local_types f)) (functions model);
  pm_params : Forall (fun t => Forall plain (params t)) (types model);
  pm_results : Forall (fun t => Forall plain (results t)) (types model);
}.

Lemma fn_with_index_elem i model f : fn_with_index i model = Some f -> f ∈ functions model /\ fn_index f = i.
Proof. intros H. apply List.find_some in H as [H1 H2%Z.eqb_eq]. split; [by apply list_elem_of_In | exact H2]. Qed.

Section Balanced.
Context (model : ModuleModel) (cfg : StructuredCfg) (func : FunctionEntry) (names : gmap Z string).
Hypothesis model_plain : plain_model model.
Hypothesis names_plain : map_Forall (fun _ n => plain n) names.

Lemma plain_local_name i : plain (local_name names i).
Proof using names_plain.
  unfold local_name. destruct (names !! i) eqn:E; [exact (names_plain i _ E) | auto with plain].
Qed.

Lemma plain_callee f :
  plain (default ("wasm_fn_" +:+ show_dec f) (fn ← fn_with_index f model; fname fn)).
Proof using model_plain.
  destruct (fn_with_index f model) as [fn |] eqn:E; cbn [mbind option_bind default from_option]; [| auto with plain].
  destruct (fname fn) as [n |] eqn:En; simpl; [| auto with plain].
  apply fn_with_index_elem in E as [E _]. exact (proj1 (Forall_forall _ _) (pm_names _ model_plain) fn E n En).
Qed.

Lemma render_call_balanced f p : balanced p -> balanced (render_call model f p).
Proof using model_plain.
  intros B. unfold render_call. set (n := match _ with Some t => _ | None => _ end).
  destruct (balanced_pop_args n [] p B (Forall_nil_2 _)) as [F B1]. destruct (pop_args n [] p) as [args q]. simpl in F, B1.
  assert (plain (cat [default ("wasm_fn_" +:+ show_dec f) (fn ← fn_with_index f model; fname fn); "("; join ", " args; ")"])) as Pc.
  { apply plain_cat. repeat constructor; [apply plain_callee | by apply plain_join]. }
  repeat case_match; try (by apply balanced_push); apply balanced_line; try exact B1; repeat constructor; exact Pc.
Qed.

Lemma render_return_balanced p : balanced p -> balanced (render_return model func p).
Proof.
  intros B. unfold render_return. set (n := match _ with Some t => _ | None => _ end). destruct n as [| n].
  - apply balanced_line; [exact B | repeat constructor].
  - destruct (balanced_pop_results (S n) p B) as [F B1]. destruct (pop_results (S n) p) as [vals q]. simpl in F, B1.
    apply balanced_line; [exact B1 |]. repeat constructor. by apply plain_join.
Qed.

Ltac pop_expr B :=
  repeat match goal with
  | |- context [epop ?d ?p] =>
      let e := fresh "e" in let q := fresh "q" in let P := fresh "P" in
      destruct (balanced_pop d p B eq_refl) as [P ?B']; clear B; rename B' into B;
      destruct (epop d p) as [e q]; cbn [fst snd] in *
  end.

Lemma render_op_balanced pos o p p' :
  balanced p -> render_op model cfg func names pos o p = (p', false) -> balanced p'.
Proof using model_plain names_plain.
  intros B E. pose proof plain_local_name as Hn.
  destruct o; cbn [render_op] in E; revert E; pop_expr B; intros E; try discriminate;
    try (injection E as <-);
    try (first [apply balanced_push | apply balanced_line | apply balanced_binop]; [exact B |];
         repeat constructor; auto 10 with plain; fail);
    try exact B.
  - apply (balanced_open p [] _ B); repeat constructor; auto with plain.
  - apply (balanced_open p ["do "] _ B); repeat constructor; auto with plain.
  - apply (balanced_open q ["if ("; e; ") "] _ B); repeat constructor; auto with plain.
  - apply balanced_else, B.
  - destruct (Nat.ltb_spec 1 (ps_indent p)); [| discriminate]. injection E as <-. by apply balanced_close.
  - by apply render_return_balanced.
  - apply (balanced_braces p ["switch (<idx>) "] [_; _; _; _; _] B); repeat constructor; auto with plain.
  - by apply render_call_balanced.
  - apply balanced_push; [| apply Hn]. apply balanced_line; [exact B |]. repeat constructor; auto.
Qed.

Lemma render_op_end pos o p p' :
  balanced p -> render_op model cfg func names pos o p = (p', true) ->
  o = End /\ ps_indent p = 1%nat /\ brace_depth 0 (ps_out p') = Some 0%nat.
Proof using Type.
  intros [H1 H2 _] E. destruct o; cbn [render_op] in E; revert E; repeat (destruct (epop _ _)); intros E; try discriminate.
  destruct (Nat.ltb_spec 1 (ps_indent p)); [discriminate |]. injection E as <-.
  assert (ps_indent p = 1%nat) as Hi by lia. split_and!; [reflexivity | exact Hi |].
  simpl. rewrite brace_depth_app, H1, Hi. reflexivity.
Qed.

Lemma render_op_indent pos o p p' :
  balanced p -> render_op model cfg func names pos o p = (p', false) -> o <> Try -> o <> TryTable ->
  ps_indent p' = if opens o then S (ps_indent p) else match o with End => pred (ps_indent p) | _ => ps_indent p end.
Proof using Type.
  assert (forall d q, ps_indent (epop d q).2 = ps_indent q) as Hp by (intros d q; unfold epop; by destruct (ps_stack q)).
  assert (forall n acc q, ps_indent (pop_args n acc q).2 = ps_indent q) as Ha.
  { induction n as [| n IH]; intros acc q; simpl; [reflexivity |]. specialize (Hp "<arg>" q).
    destruct (epop "<arg>" q) as [a q']. simpl in Hp. by rewrite IH. }
  assert (forall n q, ps_indent (pop_results n q).2 = ps_indent q) as Hr.
  { induction n as [| n IH]; intros q; simpl; [reflexivity |]. destruct (ps_stack q) as [| e st]; [reflexivity |].
    specialize (IH {| ps_out := ps_out q; ps_indent := ps_indent q; ps_stack := st |}).
    destruct (pop_results n _). exact IH. }
  intros [_ H2 _] E N1 N2.
  destruct o; cbn [render_op] in E; revert E; unfold binop;
    repeat match goal with
    | |- context [epop ?d ?q] => let E := fresh in pose proof (Hp d q) as E; destruct (epop d q); cbn [fst snd] in *
    end; intros E; try congruence; try (injection E as <-; simpl; congruence).
  - injection E as <-. simpl. lia.
  - destruct (Nat.ltb_spec 1 (ps_indent p)); [| discriminate]. by injection E as <-.
  - injection E as <-. unfold render_return. set (n := match _ with Some t => _ | None => _ end). destruct n as [| n]; [reflexivity |].
    specialize (Hr (S n) p). destruct (pop_results (S n) p). exact Hr.
  - injection E as <-. unfold render_call. set (n := match _ with Some t => _ | None => _ end).
    specialize (Ha n [] p). destruct (pop_args n [] p). simpl in Ha. cbn [opens].
    repeat case_match; exact Ha.
Qed.

Lemma render_ops_balanced l flt d p p' :
  balanced p -> ps_indent p = S d -> function_ends d l = true -> Forall (fun o => op o <> Try /\ op o <> TryTable) l ->
  render_ops model cfg func names l flt p = inr p' -> brace_depth 0 (ps_out p') = Some 0%nat.
Proof using model_plain names_plain.
  revert d p. induction l as [| o l IH]; intros d p B Hd He Hf E; cbn [render_ops function_ends] in *; [discriminate |].
  apply Forall_cons in Hf as [[N1 N2] Hf]. destruct (render_op _ _ _ _ _ _ _) as [q []] eqn:R.
  - apply (inj inr) in E. subst q. apply (render_op_end _ _ _ _ B R).
  - pose proof (render_op_balanced _ _ _ _ B R) as B1. pose proof (render_op_indent _ _ _ _ B R N1 N2) as I1. rewrite Hd in I1.
    destruct (opens (op o)); [exact (IH _ _ B1 I1 He Hf E) |].
    destruct (op o); try exact (IH _ _ B1 I1 He Hf E).
    destruct d as [| d]; [| exact (IH _ _ B1 I1 He Hf E)]. pose proof (b_open _ B1). simpl in I1. lia.
Qed.

Lemma render_ops_total l d p :
  balanced p -> ps_indent p = S d -> function_ends d l = true -> Forall (fun o => op o <> Try /\ op o <> TryTable) l ->
  forall flt, exists p', render_ops model cfg func names l flt p = inr p'.
Proof using model_plain names_plain.
  revert d p. induction l as [| o l IH]; intros d p B Hd He Hf flt; cbn [render_ops function_ends] in *; [discriminate |].
  apply Forall_cons in Hf as [[N1 N2] Hf]. destruct (render_op _ _ _ _ _ _ _) as [q []] eqn:R; [eauto |].
  pose proof (render_op_balanced _ _ _ _ B R) as B1. pose proof (render_op_indent _ _ _ _ B R N1 N2) as I1. rewrite Hd in I1.
  destruct (opens (op o)); [exact (IH _ _ B1 I1 He Hf flt) |].
  destruct (op o); try exact (IH _ _ B1 I1 He Hf flt).
  destruct d as [| d]; [| exact (IH _ _ B1 I1 He Hf flt)]. pose proof (b_open _ B1). simpl in I1. lia.
Qed.
End Balanced.

Lemma param_names_plain i n m : map_Forall (fun _ x => plain x) m -> map_Forall (fun _ x => plain x) (param_names i n m).
Proof.
  revert i m. induction n as [| n IH]; intros i m H; simpl; [exact H |]. apply IH.
  apply map_Forall_insert_2; [auto with plain | exact H].
Qed.

Lemma declare_locals_plain i ts m :
  map_Forall (fun _ x => plain x) m -> Forall plain ts ->
  map_Forall (fun _ x => plain x) (declare_locals i ts m).1 /\ plain (declare_locals i ts m).2.
Proof.
  intros H F. revert i m H. induction F as [| t ts Ht _ IH]; intros i m H; cbn [declare_locals]; [by split |].
  set (m1 := match m !! _ with Some _ => _ | None => _ end).
  assert (map_Forall (fun _ x => plain x) m1) as H1.
  { unfold m1. destruct (m !! _); [exact H |]. apply map_Forall_insert_2; [auto with plain | exact H]. }
  destruct (IH (S i) m1 H1) as [H2 H3]. destruct (declare_locals (S i) ts m1) as [m2 decl]. cbn [fst snd] in *.
  split; [exact H2 |]. apply plain_app; [| exact H3]. apply plain_cat. repeat constructor; auto with plain.
Qed.

Lemma header_depth func_index func ty name :
  plain name -> Forall plain (params ty) -> Forall plain (results ty) ->
  brace_depth 0 (render_header func_index func ty name) = Some 1%nat.
Proof.
  intros Hn Hp Hr. unfold render_header.
  set (ps := join ", " _). set (ret := match _ with [] => _ | _ => _ end).
  assert (plain ps) as Pp.
  { apply plain_join; [reflexivity |]. apply Forall_forall. intros x (i & t & -> & Ht)%elem_of_lookup_imap.
    apply plain_cat. repeat constructor; auto with plain.
    exact (proj1 (Forall_forall _ _) Hp t (list_elem_of_lookup_2 _ _ _ Ht)). }
  assert (plain ret) as Pr.
  { unfold ret. destruct Hr as [| r rs H1 H2]; [reflexivity |]. destruct rs; [exact H1 |].
    apply plain_cat. repeat constructor; auto with plain. }
  change (cat ?l) with (cat (take 16 l ++ "{" :: [nl])).
  set (pre := take 16 _).
  assert (Forall plain pre) as F.
  { unfold pre. cbn [take firstn]. repeat constructor; auto with plain. }
  clearbody pre. induction F as [| s pre Hs _ IH]; simpl app; [reflexivity |].
  by rewrite cat_cons, brace_depth_app, brace_depth_plain.
Qed.

(** Pseudocode is produced and balanced: for a function of the module whose
    body is closed by its [End] and holds no [try], when no name or type of
    the module contains a brace, rendering succeeds, no block of the text is
    closed before it is opened, and all are closed at its end. *)
Theorem pseudocode_balanced model func_index b cfg :
  plain_model model -> is_Some (fn_with_index func_index model) ->
  function_ends 0 (ops b) = true -> Forall (fun o => op o <> Try /\ op o <> TryTable) (ops b) ->
  exists text, render model func_index b cfg = inr text /\ brace_depth 0 text = Some 0%nat.
Proof.
  intros PM [func F] He Hf. unfold render. rewrite F. set (ty := default _ _). set (name := default _ (fname func)).
  assert (Forall plain (params ty) /\ Forall plain (results ty)) as [P1 P2].
  { unfold ty. destruct (type_at model (fn_type func)) as [t |] eqn:T; simpl; [| by split].
    apply list_elem_of_lookup_2 in T. split;
      [exact (proj1 (Forall_forall _ _) (pm_params _ PM) t T) | exact (proj1 (Forall_forall _ _) (pm_results _ PM) t T)]. }
  apply fn_with_index_elem in F as [Hin _].
  assert (plain name) as Pn.
  { unfold name. destruct (fname func) as [n |] eqn:E; simpl; [| auto with plain].
    exact (proj1 (Forall_forall _ _) (pm_names _ PM) func Hin n E). }
  destruct (declare_locals_plain (length (params ty)) (local_types func) (param_names 0 (length (params ty)) ∅)) as [Hn Hd].
  { apply param_names_plain, map_Forall_empty. }
  { exact (proj1 (Forall_forall _ _) (pm_locals _ PM) func Hin). }
  destruct (declare_locals _ _ _) as [names decl]. cbn [fst snd] in *. set (p := {| ps_out := _ |}).
  assert (balanced p) as B.
  { constructor; [| simpl; lia | constructor]. cbn [p ps_out ps_indent].
    rewrite brace_depth_app, header_depth by assumption. cbn [mbind option_bind].
    by apply brace_depth_plain. }
  destruct (render_ops_total model cfg func names PM Hn (ops b) 0 p B eq_refl He Hf (fault b)) as [p' E]. rewrite E.
  exists (ps_out p'). split; [reflexivity |]. exact (render_ops_balanced model cfg func names PM Hn _ _ 0 p p' B eq_refl He Hf E).
Qed.

Lemma pseudocode_balanced_witness :
  exists text, render (sample_module []) 0 sample_body StructuredCfg_default = inr text /\ brace_depth 0 text = Some 0%nat.
Proof.
  apply (pseudocode_balanced (sample_module []) 0 sample_body StructuredCfg_default).
  - constructor; repeat constructor; discriminate.
  - eexists. reflexivity.
  - reflexivity.
  - repeat constructor; discriminate.
Defined.

(** A [try] opens no block of the text, so its [End] ends the function: what follows is lost. *)
Example try_ends_function :
  let b after := {| ops := [{| op_at := 0; op_next := 2; op := Try |}; {| op_at := 2; op_next := 3; op := End |}] ++ after;
                    fault := None |} in
  forall after, render (sample_module []) 0 (b after) StructuredCfg_default =
                render (sample_module []) 0 (b []) StructuredCfg_default.
Proof. intros b after. reflexivity. Qed.
