(* ===== verification/WorkerMain.v ===== *)
(** * WorkerMain: the worker process

    Models [rmcp-worker/src/lib.rs]: the capability probe, the hello message
    and the loop of [worker_main] over its standard streams, and what the
    Windows start-up constructor [preload_ida_dlls] does to the environment.
    The standard streams are those of [Protocol]; a request is handled by
    [Analyses.full_handle], each in an environment of its own (the clock and
    the rule directory at that time). *)

From stdpp Require Import base list gmap strings.
From Stdlib Require Import ZArith Lia Ascii.
From S2P Require Import Prelude Text Json Errors Protocol Backend Mutations Index Workflow Worker Analyses.

Local Open Scope Z_scope.
Local Open Scope rmcp_scope.

(** ** Capabilities of the build *)

(** The idalib feature a build is compiled with; both at once do not compile. *)
Inductive Feature := Idalib92 | Idalib94.

Definition probe_backend (feature : option Feature) (kind : string) : bool :=
  if bool_decide (kind = "mock") then true
  else if bool_decide (kind = "idalib") then bool_decide (is_Some feature)
  else false.

Definition compiled_backend_key (feature : option Feature) : option string :=
  match feature with
  | Some Idalib92 => Some "9_2"
  | Some Idalib94 => Some "9_4"
  | None => None
  end.

(** ** The loop *)

Lemma line_shorter (a b : string) : (String.length b < String.length (a +:+ String newline b))%nat.
Proof. induction a as [|c a IH]; [exact (Nat.lt_succ_diag_r _)|]. rewrite append_cons. cbn [String.length]. lia. Qed.

(** What the process finds when it starts. *)
Record Startup := { env_var : string -> option string; process_id : Z; dup_stdout : bool; dup_stdin : bool }.

Definition hello_of (s : Startup) : WorkerHello := {|
  protocol := PROTOCOL_VERSION;
  hello_ida_version := default "9.2-mock" (env_var s "REVERSE_MCP_IDA_VERSION");
  pid := process_id s;
  hello_ida_dir := default "" (env_var s "REVERSE_MCP_IDA_DIR");
  idausr := default "" (env_var s "IDAUSR") |}.

Section Loop.
Context {B : Type} `{!FrameCodec WorkerRequest} `{!FrameCodec WorkerResponse} `{!FrameCodec WorkerHello}.
(** [dispatch::handle] on the k-th request. *)
Context (handle : nat -> WorkerRequest -> Process B -> outcome (WorkerResponse * Process B)).

(** The exit code, what was written and the final state. *)
Definition exited : Type := Z * Sink * Process B.

Fixpoint worker_loop (fuel : nat) (k : nat) (input : string) (out : Sink) (w : Process B) : outcome exited :=
  match fuel with
  | O => OutOfFuel
  | S fuel' =>
      match read_frame (T:=WorkerRequest) input with
      | (inr (Some req), rest) =>
          rw <~ handle k req w;
          let '(resp, w') := rw in
          match write_frame out resp with
          | inl _ => Done (3, out, w')
          | inr out' => if closed w' then Done (0, out', w') else worker_loop fuel' (S k) rest out' w'
          end
      | _ => Done (0, out, w)
      end
  end.

(** Every request takes at least one byte. *)
Definition worker_main (s : Startup) (input : string) (out : Sink) : outcome exited :=
  match write_frame out (hello_of s) with
  | inl _ => Done (3, out, Process_new)
  | inr out1 =>
      if negb (dup_stdout s) || negb (dup_stdin s) then Done (3, out1, Process_new)
      else worker_loop (S (String.length input)) 0 input out1 Process_new
  end.

(** What the worker is to do: the requests one after the other, up to the one
    that closes it. *)
Fixpoint serve_all (k : nat) (reqs : list WorkerRequest) (w : Process B) : outcome (list WorkerResponse * Process B) :=
  match reqs with
  | [] => Done ([], w)
  | req :: reqs' =>
      rw <~ handle k req w;
      let '(resp, w1) := rw in
      if closed w1 then Done ([resp], w1)
      else rs <~ serve_all (S k) reqs' w1; Done (resp :: rs.1, rs.2)
  end.

Context `{!FrameCodecOk WorkerRequest}.

(** [tail] holds no request: it is empty, or its first line is none. *)
Definition no_request (tail : string) : Prop :=
  match (read_frame (T:=WorkerRequest) tail).1 with inr (Some _) => False | _ => True end.

Lemma loop_ends fuel k tail out w :
  no_request tail -> (String.length tail < fuel)%nat -> worker_loop fuel k tail out w = Done (0, out, w).
Proof using Type.
  unfold no_request. intros Hn Hf. destruct fuel as [|fuel]; [lia|]. cbn [worker_loop].
  destruct (read_frame tail) as [[e|[req|]] rest]; done.
Qed.

Lemma loop_serves reqs tail : no_request tail -> forall fuel k input0 input out out' w w' resps,
  write_frames {| written := input0; fault := None |} reqs = Ok {| written := input0 +:+ input; fault := None |} ->
  (String.length (input +:+ tail) < fuel)%nat ->
  serve_all k (reread <$> reqs) w = Done (resps, w') -> write_frames out resps = Ok out' ->
  worker_loop fuel k (input +:+ tail) out w = Done (0, out', w').
Proof using FrameCodecOk0.
  intros Htail. induction reqs as [|req reqs IH]; intros fuel k input0 input out out' w w' resps Hw Hf Hs Ho.
  - cbn in Hw, Hs. injection Hw as Hw. rewrite <- (append_nil_r input0) in Hw at 1. apply append_same in Hw as <-.
    injection Hs as <- <-. injection Ho as <-. by apply loop_ends.
  - cbn [write_frames] in Hw. unfold write_frame in Hw at 1. destruct (to_vec req) as [e|buf] eqn:Hv; [done|].
    unfold write_all in Hw. cbn [fault written bindR Ok] in Hw. rename Hw into Hw0.
    assert (exists input', input = buf +:+ String newline input'
      /\ write_frames {| written := input0 +:+ (buf +:+ String newline ""); fault := None |} reqs
         = Ok {| written := (input0 +:+ (buf +:+ String newline "")) +:+ input'; fault := None |}) as (input' & -> & Hw).
    { change (write_frames {| written := input0 +:+ (buf +:+ String newline ""); fault := None |} reqs = Ok {| written := input0 +:+ input; fault := None |}) in Hw0.
      pose proof (write_frames_app _ _ _ Hw0) as (s & Es & _). cbn [written] in Es. rewrite append_assoc in Es.
      apply append_same in Es. exists s. rewrite append_assoc in Es. change (String newline "" +:+ s) with (String newline s) in Es.
      split; [exact Es|]. rewrite Hw0, Es. do 2 f_equal. by rewrite !append_assoc. }
    destruct fuel as [|fuel]; [lia|]. cbn [worker_loop serve_all] in *.
    rewrite append_assoc in Hf |- *. change (String newline input' +:+ tail) with (String newline (input' +:+ tail)) in Hf |- *.
    rewrite (read_frame_app req) by done. cbn match. unfold Ok.
    change (reread <$> req :: reqs) with (reread req :: (reread <$> reqs)) in Hs. cbn [serve_all] in Hs.
    destruct (handle k (reread req) w) as [[resp w1]| |]; cbn [obind] in *; [|done..].
    assert (String.length (input' +:+ tail) < fuel)%nat as Hf'.
    { pose proof (line_shorter buf (input' +:+ tail)). lia. }
    destruct (closed w1) eqn:Hc.
    + apply Done_inj in Hs. injection Hs as <- <-. cbn [write_frames] in Ho. destruct (write_frame out resp) as [e|out1]; [done|].
      injection Ho as <-. done.
    + destruct (serve_all (S k) (reread <$> reqs) w1) as [[resps1 w2]| |] eqn:Hs1; cbn [obind] in Hs; [|done..].
      apply Done_inj in Hs. injection Hs as <- <-. cbn [write_frames] in Ho. destruct (write_frame out resp) as [e|out1]; [done|].
      cbn [bindR Ok] in Ho. eapply IH; [exact Hw|exact Hf'|exact Hs1|exact Ho].
Qed.
End Loop.

(** ** The worker of this program *)

Lemma respond_id {B} (req : WorkerRequest) (rw : Result Value * Process B) : resp_id (respond req rw).1 = req_id req.
Proof. unfold respond. cbn [fst]. by destruct rw.1. Qed.

Section Main.
Context {B : Type} `{!IdaBackend B} `{!FrameCodec WorkerRequest} `{!FrameCodec WorkerResponse} `{!FrameCodec WorkerHello}.
Context `{!FrameCodecOk WorkerRequest}.
Context (to_lowercase : string -> string) (to_text : Value -> option string).
Context (parse_query : Value -> string + EvidenceQuery) (parse_request : Value -> string + WorkflowRequest).
Context (parse_sig : Value -> string + Signatures.SigIndex) (parse_json : string -> string + Value) (is_alphanumeric : string -> bool).
Context (write_sig : string -> Signatures.SigIndex -> Result unit).
Context (new_mock : B) (idalib : option (string * (string + Z * Z) * B)) (fuel : nat) (envs : nat -> Env).

Definition worker_handle (k : nat) : WorkerRequest -> Process B -> outcome (WorkerResponse * Process B) :=
  full_handle to_lowercase to_text parse_query parse_request parse_sig parse_json is_alphanumeric write_sig new_mock idalib fuel (envs k).

Lemma serve_all_ids k reqs w resps w' :
  serve_all worker_handle k reqs w = Done (resps, w') ->
  resp_id <$> resps = req_id <$> take (length resps) reqs /\ (closed w' = false -> length resps = length reqs).
Proof using Type.
  revert k w resps. induction reqs as [|req reqs IH]; intros k w resps Hs; cbn [serve_all] in Hs.
  { injection Hs as <- <-. done. }
  destruct (worker_handle k req w) as [[resp w1]| |] eqn:Hh; cbn [obind] in Hs; [|done..].
  assert (resp_id resp = req_id req) as Hid.
  { unfold worker_handle, full_handle in Hh. destruct (full_dispatch _ _ _ _ _ _ _ _ _ _ _ _ _ _ _); cbn [obind] in Hh; [|done..].
    apply Done_inj, (f_equal fst) in Hh. cbn [fst] in Hh. rewrite <- Hh. apply respond_id. }
  destruct (closed w1) eqn:Hc.
  - apply Done_inj in Hs. injection Hs as <- <-. cbn. rewrite Hid, take_0. split; [done|]. congruence.
  - destruct (serve_all _ (S k) reqs w1) as [[resps1 w2]| |] eqn:Hs1; cbn [obind] in Hs; [|done..].
    apply Done_inj in Hs. cbn [fst snd] in Hs. injection Hs as <- <-. apply IH in Hs1 as [H1 H2]. cbn. split; [by rewrite Hid, H1|].
    intros Hcl. by rewrite H2.
Qed.

(** C6. The worker process answers in order, once and in full: given the
    frames of a sequence of requests followed by anything that is not a
    request, it greets and then writes exactly the responses of handling the
    requests, as the codec rereads them, one after the other from a fresh
    state, each with the id of its request, up to and including the request
    that closes it, reads nothing further, and exits with code zero in the
    state those requests lead to. *)
Theorem worker_answers_in_order (s : Startup) (reqs : list WorkerRequest) (tail : string) (pipe out0 out1 out2 : Sink)
    (resps : list WorkerResponse) (w' : Process B) :
  write_frames {| written := ""; fault := None |} reqs = Ok pipe -> no_request tail ->
  serve_all worker_handle 0 (reread <$> reqs) Process_new = Done (resps, w') ->
  dup_stdout s = true -> dup_stdin s = true ->
  write_frame out0 (hello_of s) = Ok out1 -> write_frames out1 resps = Ok out2 ->
  worker_main worker_handle s (written pipe +:+ tail) out0 = Done (0, out2, w')
  /\ resp_id <$> resps = req_id <$> take (length resps) (reread <$> reqs)
  /\ (closed w' = false -> length resps = length reqs).
Proof using FrameCodecOk0.
  intros Hpipe Htail Hs Hout Hin Hhello Hw. split; [|rewrite <- (length_fmap reread reqs); by eapply serve_all_ids]. unfold worker_main. rewrite Hhello, Hout, Hin. cbn [negb orb Ok].
  assert (fault pipe = None) as Hfault.
  { clear -Hpipe. assert (forall w, fault w = None -> write_frames w reqs = Ok pipe -> fault pipe = None) as H; [|exact (H {| written := ""; fault := None |} eq_refl Hpipe)].
    clear Hpipe. induction reqs as [|req l IH]; intros w Hn; cbn [write_frames]; [by intros [= <-]|].
    unfold write_frame, write_all. destruct (to_vec req); [done|]. rewrite Hn. cbn [bindR Ok]. by apply IH. }
  eapply (loop_serves _ reqs tail Htail _ 0 ""); [|lia|exact Hs|exact Hw]. rewrite Hpipe. destruct pipe as [wr f]. cbn in Hfault. by subst f.
Qed.
End Main.

(** ** Before [main]: the Windows start-up constructor

    Wide strings are lists of UTF-16 code units without the terminating zero. *)

Record WinState := {
  variables : list (string * list Z);
  dll_directory : option (list Z);
  attempted : list string; (** the libraries loaded, or tried *)
}.

Definition variable (w : WinState) (name : string) : option (list Z) :=
  snd <$> find (fun kv => bool_decide (kv.1 = name)) (variables w).

Definition set_variable (name : string) (v : list Z) (w : WinState) : WinState :=
  {| variables := (name, v) :: filter (fun kv => kv.1 <> name) (variables w); dll_directory := dll_directory w; attempted := attempted w |}.

(** [GetEnvironmentVariableW] with a buffer of [size] units: 0 for a variable
    that is not set, the length when the value fits with its terminator, and
    the size needed otherwise. *)
Definition env_length (w : WinState) (name : string) (size : Z) : Z :=
  match variable w name with
  | None => 0
  | Some v => let n := Z.of_nat (length v) in if n <? size then n else n + 1
  end.

Definition wide (s : string) : list Z := ord <$> String.list_ascii_of_string s.

Definition FILE_ATTRIBUTE_NORMAL : Z := 0x80.
Definition FILE_ATTRIBUTE_DIRECTORY : Z := 0x10.

Definition preload_ida_dlls (attributes : list Z -> Z) (w : WinState) : WinState :=
  let n := env_length w "REVERSE_MCP_IDA_DIR" 1024 in
  if (n =? 0) || (1024 <=? n) then w
  else
    let dir := default [] (variable w "REVERSE_MCP_IDA_DIR") in
    let w := {| variables := variables w; dll_directory := Some dir; attempted := attempted w |} in
    let np := env_length w "PATH" 32768 in
    let w := if np <? 32768 then set_variable "PATH" (dir ++ wide ";" ++ default [] (variable w "PATH")) w else w in
    let w := if env_length w "PYTHONHOME" 1 =? 0 then
               let pyhome := dir ++ wide "\Python311" in
               let attrs := attributes pyhome in
               if negb (attrs =? FILE_ATTRIBUTE_NORMAL) && negb (Z.land attrs FILE_ATTRIBUTE_DIRECTORY =? 0)
               then set_variable "PYTHONHOME" pyhome w else w
             else w in
    {| variables := variables w; dll_directory := dll_directory w; attempted := attempted w ++ ["ida.dll"; "idalib.dll"] |}.

(** The broker, which runs the same binary without the variable, is left alone. *)
Lemma preload_without_dir attributes w : variable w "REVERSE_MCP_IDA_DIR" = None -> preload_ida_dlls attributes w = w.
Proof. intros E. unfold preload_ida_dlls, env_length. by rewrite E. Qed.

Lemma variable_set name v w : variable (set_variable name v w) name = Some v.
Proof. unfold variable, set_variable. cbn. by rewrite bool_decide_true. Qed.

Lemma variable_set_ne name name' v w : name <> name' -> variable (set_variable name v w) name' = variable w name'.
Proof.
  intros Hne. unfold variable, set_variable. cbn. rewrite bool_decide_false by done. f_equal.
  induction (variables w) as [|[k x] l IH]; [done|]. rewrite filter_cons. cbn [find fst].
  destruct (decide (k <> name)) as [Hk|Hk%dec_stable].
  - cbn [find fst]. by rewrite IH.
  - subst k. rewrite IH, bool_decide_false by done. done.
Qed.

(** What [GetFileAttributesW] answers for a path that does not exist. *)
Definition INVALID_FILE_ATTRIBUTES : Z := 0xFFFFFFFF.

(** [PYTHONHOME] is meant to be set only when the directory is there; the
    answer for a missing file has the directory bit, so it is always set. *)
Theorem missing_python_home_is_set (attributes : list Z -> Z) (w : WinState) (dir : list Z) :
  variable w "REVERSE_MCP_IDA_DIR" = Some dir -> (0 < length dir < 1024)%nat -> variable w "PYTHONHOME" = None ->
  attributes (dir ++ wide "\Python311") = INVALID_FILE_ATTRIBUTES ->
  variable (preload_ida_dlls attributes w) "PYTHONHOME" = Some (dir ++ wide "\Python311").
Proof.
  intros Ed Hd Ep Ha. unfold preload_ida_dlls. assert (env_length w "REVERSE_MCP_IDA_DIR" 1024 = Z.of_nat (length dir)) as ->.
  { unfold env_length. rewrite Ed. destruct (Z.ltb_spec (Z.of_nat (length dir)) 1024); lia. }
  destruct (Z.eqb_spec (Z.of_nat (length dir)) 0); [lia|]. destruct (Z.leb_spec 1024 (Z.of_nat (length dir))); [lia|]. cbn [orb].
  rewrite Ed. cbn [from_option id]. cbv zeta.
  match goal with |- context [env_length ?x "PYTHONHOME" 1] => set (w2 := x) end.
  assert (variable w2 "PYTHONHOME" = None) as E2.
  { subst w2. case_match; [rewrite variable_set_ne by done|]; exact Ep. }
  assert (env_length w2 "PYTHONHOME" 1 = 0) as -> by (unfold env_length; by rewrite E2). cbn [Z.eqb]. rewrite Ha. cbn [negb andb Z.eqb].
  apply (variable_set "PYTHONHOME" _ w2).
Qed.

(** ** A worker that is selected, asked and shut down *)

Module WorkerMainWitness.
(** Three requests, by number; every other number asks for the revision. *)
Definition method_of (z : Z) : string := if z =? 1 then "backend.select" else if z =? 3 then "shutdown" else "revision".
Definition request_of (z : Z) : WorkerRequest := {| req_id := z; req_method := method_of z; req_params := JNull |}.

#[local] Instance request_codec : FrameCodec WorkerRequest := {
  to_vec q := match req_params q with
              | JNull => if bool_decide (req_method q = method_of (req_id q)) then to_vec (req_id q) else inl "not one of them"
              | _ => inl "not one of them"
              end;
  from_str s := match from_str s with inr z => inr (request_of z) | inl e => inl e end;
}.
#[local] Instance response_codec : FrameCodec WorkerResponse := { to_vec r := to_vec (resp_id r); from_str s := inl s }.
#[local] Instance hello_codec : FrameCodec WorkerHello := { to_vec h := to_vec (pid h); from_str s := inl s }.

#[local] Instance request_codec_ok : FrameCodecOk WorkerRequest.
Proof.
  assert (forall q s, to_vec q = inr s -> q = request_of (req_id q) /\ to_vec (req_id q) = inr s) as H.
  { intros [i m p] s. cbn [to_vec request_codec req_params req_method req_id]. destruct p; try done. case_bool_decide as E; [|done].
    intros H. by rewrite E. }
  refine {| reread q := q |}; intros q s [Hq Hs]%H.
  - by eapply (to_vec_utf8 (T:=Z)).
  - by eapply (to_vec_line (T:=Z)).
  - cbn [from_str request_codec]. by rewrite (from_to (T:=Z) _ _ Hs), Hq.
Defined.

Definition startup : Startup := {| env_var := fun _ => None; process_id := 7; dup_stdout := true; dup_stdin := true |}.
Definition reqs : list WorkerRequest := request_of <$> [1; 2; 3; 4].
Abbreviation demo_handle := (worker_handle (B := MockBackend) id no_text no_criteria any_request no_sig no_json plain_char unwritten
  MockBackend_new None 60 (fun _ => still)).

(** The request behind the one that closes the worker is not answered. *)
Lemma worker_answers_in_order_witness :
  exists pipe out w', write_frames {| written := ""; fault := None |} reqs = Ok pipe
    /\ worker_main demo_handle startup (written pipe +:+ "junk") {| written := ""; fault := None |} = Done (0, out, w')
    /\ written out = join (String newline "") ["7"; "1"; "2"; "3"; ""] /\ closed w' = true.
Proof.
  destruct (write_frames {| written := ""; fault := None |} reqs) as [e|pipe] eqn:Hp; [vm_compute in Hp; discriminate Hp|].
  destruct (serve_all demo_handle 0 (reread <$> reqs) Process_new) as [[resps w']| |] eqn:Hs; [|vm_compute in Hs; discriminate Hs..].
  destruct (write_frame {| written := ""; fault := None |} (hello_of startup)) as [e|out1] eqn:Hh; [vm_compute in Hh; discriminate Hh|].
  destruct (write_frames out1 resps) as [e|out2] eqn:Ho.
  { vm_compute in Hs. injection Hs as <- <-. vm_compute in Hh. injection Hh as <-. vm_compute in Ho. discriminate Ho. }
  destruct (worker_answers_in_order id no_text no_criteria any_request no_sig no_json plain_char unwritten MockBackend_new None 60
    (fun _ => still) startup reqs "junk" pipe {| written := ""; fault := None |} out1 out2 resps w' Hp ltac:(vm_compute; exact Logic.I) Hs eq_refl eq_refl Hh Ho)
    as [Hmain _].
  exists pipe, out2, w'. split; [reflexivity|]. split; [exact Hmain|]. vm_compute in Hs. injection Hs as <- <-.
  vm_compute in Hh. injection Hh as <-. vm_compute in Ho. injection Ho as <-. split; reflexivity.
Defined.
End WorkerMainWitness.
