(* ===== verification/ChildEnv.v ===== *)
(** * ChildEnv: the environment a worker is started with

    Models what the broker changes in the environment of its children: the
    [Command] of [spawn_for_with_budget] and [probe_command] in
    [rmcp-broker/src/worker_pool.rs], and that of [run_isolated] in
    [rmcp-broker/src/isolation.rs].  A child inherits the broker's variables
    with these set on top; the worker's start ([WorkerMain]) reads them back.
    Names of variables are compared exactly. *)

From stdpp Require Import base list gmap strings.
From Stdlib Require Import ZArith Lia.
From S2P Require Import Prelude Text Json Errors Protocol Discovery Pump Pool WorkerMain.

Local Open Scope rmcp_scope.

Abbreviation Vars := (gmap string string).

Section Env.
Context (m : Machine) (is_dir : string -> bool) (plugins_dir : string).
Implicit Types env : Vars.

(** [REVERSE_MCP_IDA_DIR] and the directory in front of [PATH]. *)
Definition with_install (dir : string) env : Vars :=
  <[path_env := prepend_path (os m) dir (default "" (env !! path_env))]> (<["REVERSE_MCP_IDA_DIR" := dir]> env).

(** [PYTHONHOME], when the install has one. *)
Definition with_python (dir : string) env : Vars :=
  let pyhome := path_join m dir (python_home_dirname (os m)) in
  if is_dir pyhome then <["PYTHONHOME" := pyhome]> env else env.

Definition with_ida (dir : option string) env : Vars :=
  match dir with Some d => with_python d (with_install d env) | None => env end.

Definition worker_env (dir : option string) env : Vars := <["IDAUSR" := plugins_dir]> (with_ida dir env).

Definition disposable_env (dir : option string) env : Vars := <["REVERSE_MCP_DISPOSABLE" := "1"]> (<["IDAUSR" := plugins_dir]> (with_ida dir env)).

(** The pool's directory, or else [IDADIR]. *)
Definition probe_command (p : WorkerPool) env : Vars :=
  match (match ida_dir p with Some d => Some d | None => env !! "IDADIR" end) with
  | Some d => with_install d env
  | None => env
  end.

Definition probe_mock_env (p : WorkerPool) env : Vars := <["REVERSE_MCP_PROBING" := "1"]> (probe_command p env).

(** The guard of [ensure_worker_exe]. *)
Definition is_probing env : bool := bool_decide (env !! "REVERSE_MCP_PROBING" = Some "1").

Definition startup_of (pid : Z) env : Startup := {| env_var v := env !! v; process_id := pid; dup_stdout := true; dup_stdin := true |}.

(** ** What arrives *)

Lemma with_ida_other dir env v :
  v ∉ ["REVERSE_MCP_IDA_DIR"; path_env; "PYTHONHOME"] -> with_ida dir env !! v = env !! v.
Proof using Type.
  intros Hv. rewrite !not_elem_of_cons in Hv. destruct Hv as (H1 & H2 & H3 & _). destruct dir as [d|]; [|done].
  cbn [with_ida]. unfold with_python, with_install. cbv zeta. destruct (is_dir _); rewrite !lookup_insert_ne by congruence; done.
Qed.

Lemma with_ida_dir d env : with_ida (Some d) env !! "REVERSE_MCP_IDA_DIR" = Some d.
Proof using Type.
  cbn [with_ida]. unfold with_python, with_install. cbv zeta. destruct (is_dir _); rewrite ?(lookup_insert_ne _ "PYTHONHOME") by done;
    rewrite (lookup_insert_ne _ path_env) by done; by rewrite lookup_insert_eq.
Qed.

Lemma with_ida_path d env : with_ida (Some d) env !! path_env = Some (prepend_path (os m) d (default "" (env !! path_env))).
Proof using Type.
  cbn [with_ida]. unfold with_python, with_install. cbv zeta. destruct (is_dir _); rewrite ?(lookup_insert_ne _ "PYTHONHOME") by done; by rewrite lookup_insert_eq.
Qed.

(** A worker of the pool greets with the install it was started for and the
    portable plugin directory, finds that install first in its search path,
    and everything but four variables is as in the broker. *)
Lemma worker_env_arrives d env pid :
  let h := hello_of (startup_of pid (worker_env (Some d) env)) in
  hello_ida_dir h = d /\ idausr h = plugins_dir
  /\ worker_env (Some d) env !! path_env = Some (prepend_path (os m) d (default "" (env !! path_env)))
  /\ forall v, v ∉ ["IDAUSR"; "REVERSE_MCP_IDA_DIR"; path_env; "PYTHONHOME"] -> worker_env (Some d) env !! v = env !! v.
Proof using Type.
  unfold worker_env, hello_of. cbn [hello_ida_dir idausr env_var startup_of]. split; [|split; [|split]].
  - rewrite lookup_insert_ne by done. by rewrite with_ida_dir.
  - by rewrite lookup_insert_eq.
  - rewrite lookup_insert_ne by done. apply with_ida_path.
  - intros v [H1 H2]%not_elem_of_cons. rewrite lookup_insert_ne by congruence. by apply with_ida_other.
Qed.

(** A disposable worker is started like any other, but for its mark. *)
Lemma disposable_like_worker dir env v :
  v <> "REVERSE_MCP_DISPOSABLE" -> disposable_env dir env !! v = worker_env dir env !! v.
Proof using Type. intros Hv. unfold disposable_env, worker_env. by rewrite lookup_insert_ne by congruence. Qed.

(** A probe never probes: the child of a mock probe refuses to look for a
    worker binary, whatever its own pool. *)
Lemma probe_never_probes (p p' : WorkerPool) (w : World) env :
  probing w = is_probing (probe_mock_env p env) -> (ensure_worker_exe w p').1 = Err (Worker "re-entrant worker probe").
Proof using Type.
  unfold is_probing, probe_mock_env. rewrite lookup_insert_eq, bool_decide_true by done. intros Hp.
  unfold ensure_worker_exe. by rewrite Hp.
Qed.

(** The version in the greeting is not that of the install: the variable it
    is read from is one the broker never sets. *)
Lemma hello_version_is_inherited dir env pid :
  hello_ida_version (hello_of (startup_of pid (worker_env dir env))) = default "9.2-mock" (env !! "REVERSE_MCP_IDA_VERSION").
Proof using Type.
  unfold worker_env, hello_of. cbn [hello_ida_version env_var startup_of]. rewrite lookup_insert_ne by done.
  rewrite with_ida_other; [done|]. unfold path_env. rewrite !not_elem_of_cons. by repeat split; try by intros ?%elem_of_nil.
Qed.

(** A worker that is started without an install (the mock) inherits the
    directory of another one. *)
Lemma mock_inherits_dir env pid :
  hello_ida_dir (hello_of (startup_of pid (worker_env None env))) = default "" (env !! "REVERSE_MCP_IDA_DIR").
Proof using Type. unfold worker_env, hello_of. cbn. by rewrite lookup_insert_ne. Qed.
End Env.
