(* ===== verification/Isolation.v ===== *)
(** * Isolation: disposable analysis workers

    Models [rmcp-broker/src/isolation.rs].  One risky request runs in a worker
    process of its own under a hard timeout.  What the process does is a
    [Child]: whether it starts, its hello frame, and for each request how long
    the exchange takes and what comes back, and how long the killed process
    takes to be reaped.  [run_isolated] is split where other runs can
    interleave with it: taking one of the two permits, and the [event]s that
    follow, on the processes and on the process-wide counters.  [isolated] is
    an uninterrupted run, [iso_step] any interleaving of any number of them.
    Durations are nanoseconds.  The environment of the child is in [ChildEnv],
    its guard and the Job Object in [JobObject]. *)

From stdpp Require Import base list sets strings.
From Stdlib Require Import ZArith Lia.
From S2P Require Import Prelude Text Json Errors Protocol.

Local Open Scope Z_scope.
Local Open Scope rmcp_scope.

Record IsoStats := {
  spawned : Z;
  killed_timeout : Z;
  killed_crash : Z;
  exited_clean : Z;
  rejected_cap : Z;
}.

Definition IsoStats_default : IsoStats :=
  {| spawned := 0; killed_timeout := 0; killed_crash := 0; exited_clean := 0; rejected_cap := 0 |}.

Definition snapshot (s : IsoStats) : Value :=
  JObj [("spawned", JNum (spawned s)); ("killed_timeout", JNum (killed_timeout s));
        ("killed_crash", JNum (killed_crash s)); ("exited_clean", JNum (exited_clean s));
        ("rejected_cap", JNum (rejected_cap s))].

Inductive DisposableOutcome :=
  | DOk (v : Value)
  | DTimeout (after : Z) (stage : string)
  | DCrashed (detail stage : string)
  | DBadResponse (detail stage : string).

Definition MAX_CONCURRENT : nat := 2.

(** The statics: the counters, and how many permits of the semaphore are out. *)
Record Iso := { stats : IsoStats; used : nat }.
Definition Iso_init : Iso := {| stats := IsoStats_default; used := 0 |}.

Definition secs (n : Z) : Z := n * 10 ^ 9.
Definition millis (n : Z) : Z := n * 10 ^ 6.

(** ** The process *)

Inductive HelloRead := HelloFrame (h : WorkerHello) | HelloClosed | HelloBroken (e : string).
Inductive ReplyRead := Reply (r : WorkerResponse) | ReplyClosed | ReplyBroken (e : string).

(** Writing one request and reading its answer: how long it takes, and a
    failed write or what was read. *)
Record Exchange := { took : Z; exchanged : string + ReplyRead }.

Record Child := {
  spawn_error : option string;
  has_stdin : bool;
  has_stdout : bool;
  hello_took : Z;
  hello_read : HelloRead;
  exchange : WorkerRequest -> Exchange;
  reap_took : Z;
}.

(** ** The requests *)

Definition sequence_of (db_path method : string) (params : Value) : list WorkerRequest :=
  [{| req_id := 1; req_method := "backend.select"; req_params := JObj [("kind", JStr "mock")] |};
   {| req_id := 2; req_method := "db.open"; req_params := JObj [("path", JStr db_path)] |};
   {| req_id := 3; req_method := method; req_params := params |}].

(** The loop over the requests, from request [i] on with [spent] of
    [remaining] gone; [None] is the elapsed timeout. *)
Fixpoint run_sequence (c : Child) (remaining : Z) (i : nat) (reqs : list WorkerRequest) (spent : Z)
  : option (Result (option Value)) * Z :=
  match reqs with
  | [] => (Some (Ok None), spent)
  | req :: rest =>
      let ex := exchange c req in
      let spent' := spent + took ex in
      if remaining <? spent' then (None, remaining)
      else match exchanged ex with
      | inl e => (Some (Err (Worker ("stdin write: " +:+ e))), spent')
      | inr (ReplyBroken e) => (Some (Err (Worker ("frame error: " +:+ e))), spent')
      | inr ReplyClosed => (Some (Err (Worker "disposable worker died mid-sequence")), spent')
      | inr (Reply r) =>
          match resp_error r with
          | Some e => (Some (Err (Worker (req_method req +:+ ": " +:+ body_code e +:+ " " +:+ body_message e))), spent')
          | None => if (i =? 2)%nat then (Some (Ok (Some (default JNull (resp_result r)))), spent')
                    else run_sequence c remaining (S i) rest spent'
          end
      end
  end.

Definition hello_budget (hard_timeout : Z) : Z := Z.min hard_timeout (secs 120) / 2.

(** ** One run *)

(** What a run does after it got its permit: it starts the process, counts it,
    counts its end, orders it killed ([kill_tree], or the drop of the guard),
    and gives the permit back. *)
Inductive event := Forked | Spawned | AsTimeout | AsCrash | AsClean | Killed | Released.

Definition stage_of (detail : string) : string :=
  if starts_with "backend.select:" detail || starts_with "db.open:" detail then "open" else "risky".

Definition final_outcome (r : Result (option Value)) : DisposableOutcome :=
  match r with
  | inl e => DBadResponse (to_string e) (stage_of (to_string e))
  | inr (Some v) => DOk v
  | inr None => DBadResponse "no response" "risky"
  end.

(** [finish]: the counter of an outcome. *)
Definition finish_event (o : DisposableOutcome) : event :=
  match o with
  | DOk _ | DBadResponse _ _ => AsClean
  | DTimeout _ _ => AsTimeout
  | DCrashed _ _ => AsCrash
  end.

(** The bounded wait of [kill_tree] for the killed process. *)
Definition reap_wait (c : Child) : Z := Z.min (reap_took c) (secs 5).

(** [run_isolated] with its permit: the events, the answer, the time waited.
    A guard dropped before an outcome was accounted counts as a crash; the
    end is counted before the process is killed, and the guard is dropped
    before the permit. *)
Definition run_permitted (c : Child) (db_path method : string) (params : Value) (hard_timeout : Z)
  : list event * Result DisposableOutcome * Z :=
  let over end_ := [Forked; Spawned; end_; Killed; Released] in
  let dropped := over AsCrash in
  let crashed detail t := (dropped, Ok (DCrashed detail "startup"), t) in
  let hb := hello_budget hard_timeout in
  match spawn_error c with
  | Some e => ([Released], Err (Worker ("spawn disposable worker: " +:+ e)), 0)
  | None =>
      if negb (has_stdin c) then (dropped, Err (Worker "no disposable stdin"), 0)
      else if negb (has_stdout c) then (dropped, Err (Worker "no disposable stdout"), 0)
      else if hb <? hello_took c then
        (over AsTimeout, Ok (DTimeout hb "startup"), hb + reap_wait c)
      else match hello_read c with
      | HelloClosed => crashed "disposable worker died before hello" (hello_took c)
      | HelloBroken e => crashed ("disposable hello frame: " +:+ e) (hello_took c)
      | HelloFrame h =>
          if negb (protocol h =? PROTOCOL_VERSION) then
            crashed ("disposable protocol " +:+ show_dec (protocol h) +:+ " != " +:+ show_dec PROTOCOL_VERSION) (hello_took c)
          else
            let remaining := saturating_sub hard_timeout hb in
            match run_sequence c remaining 0 (sequence_of db_path method params) 0 with
            | (None, t) => (over AsTimeout, Ok (DTimeout hard_timeout "risky"), hello_took c + t + reap_wait c)
            | (Some r, t) =>
                let o := final_outcome r in (over (finish_event o), Ok o, hello_took c + t + reap_wait c)
            end
      end
  end.

Definition cap_error : Error :=
  Worker ("disposable analysis worker cap (" +:+ show_dec (Z.of_nat MAX_CONCURRENT) +:+ ") reached; retry shortly").

(** ** The statics *)

Definition up (x : Z) : Z := wrapping_add64 x 1.

Definition count (e : event) (s : Iso) : Iso :=
  let k := stats s in
  match e with
  | Spawned => {| stats := {| spawned := up (spawned k); killed_timeout := killed_timeout k; killed_crash := killed_crash k;
                              exited_clean := exited_clean k; rejected_cap := rejected_cap k |}; used := used s |}
  | AsTimeout => {| stats := {| spawned := spawned k; killed_timeout := up (killed_timeout k); killed_crash := killed_crash k;
                                exited_clean := exited_clean k; rejected_cap := rejected_cap k |}; used := used s |}
  | AsCrash => {| stats := {| spawned := spawned k; killed_timeout := killed_timeout k; killed_crash := up (killed_crash k);
                              exited_clean := exited_clean k; rejected_cap := rejected_cap k |}; used := used s |}
  | AsClean => {| stats := {| spawned := spawned k; killed_timeout := killed_timeout k; killed_crash := killed_crash k;
                              exited_clean := up (exited_clean k); rejected_cap := rejected_cap k |}; used := used s |}
  | Released => {| stats := k; used := pred (used s) |}
  | Forked | Killed => s
  end.

Definition acquire (s : Iso) : bool * Iso :=
  let k := stats s in
  if (used s <? MAX_CONCURRENT)%nat then (true, {| stats := k; used := S (used s) |})
  else (false, {| stats := {| spawned := spawned k; killed_timeout := killed_timeout k; killed_crash := killed_crash k;
                              exited_clean := exited_clean k; rejected_cap := up (rejected_cap k) |}; used := used s |}).

(** An uninterrupted [run_isolated]. *)
Definition isolated (c : Child) (db_path method : string) (params : Value) (hard_timeout : Z) (s : Iso)
  : Result DisposableOutcome * Iso :=
  let '(permit, s1) := acquire s in
  if (permit : bool) then
    let '(evs, res, _) := run_permitted c db_path method params hard_timeout in (res, foldl (fun s e => count e s) s1 evs)
  else (Err cap_error, s1).

(** The processes started and not yet ordered killed. *)
Definition processes (e : event) (n : nat) : nat := match e with Forked => S n | Killed => pred n | _ => n end.

(** Any number of runs, interleaved: the statics, the processes, and what each
    run that is under way still has to do. *)
Definition IsoState : Type := Iso * nat * list (list event).

Inductive iso_step : IsoState -> IsoState -> Prop :=
  | iso_start s n tasks c db method params hard evs res t s' :
      acquire s = (true, s') -> run_permitted c db method params hard = (evs, res, t) ->
      iso_step (s, n, tasks) (s', n, evs :: tasks)
  | iso_reject s n tasks s' : acquire s = (false, s') -> iso_step (s, n, tasks) (s', n, tasks)
  | iso_event s n pre e es post : iso_step (s, n, pre ++ (e :: es) :: post) (count e s, processes e n, pre ++ es :: post).

Inductive iso_reach : IsoState -> Prop :=
  | iso_reach_init : iso_reach (Iso_init, 0%nat, [])
  | iso_reach_step x y : iso_reach x -> iso_step x y -> iso_reach y.

(** ** [Duration]'s [Debug] *)

Fixpoint trim_zeros (fuel : nat) (digits : nat) (x : Z) : nat * Z :=
  match fuel with
  | O => (digits, x)
  | S fuel' => if x mod 10 =? 0 then trim_zeros fuel' (pred digits) (x / 10) else (digits, x)
  end.

Definition fmt_decimal (int frac : Z) (digits : nat) (suffix : string) : string :=
  if frac =? 0 then show_dec int +:+ suffix
  else
    let '(d, x) := trim_zeros digits digits frac in
    show_dec int +:+ "." +:+ join "" (repeat "0" (d - String.length (show_dec x))) +:+ show_dec x +:+ suffix.

Definition micro : string := of_codes [194; 181; 115].

Definition duration_debug (ns : Z) : string :=
  let s := ns / 10 ^ 9 in
  let n := ns mod 10 ^ 9 in
  if 0 <? s then fmt_decimal s n 9 "s"
  else if 10 ^ 6 <=? n then fmt_decimal (n / 10 ^ 6) (n mod 10 ^ 6) 6 "ms"
  else if 10 ^ 3 <=? n then fmt_decimal (n / 10 ^ 3) (n mod 10 ^ 3) 3 micro
  else fmt_decimal n 0 1 "ns".

Example duration_examples :
  duration_debug (millis 2500) = "2.5s" /\ duration_debug (secs 60) = "60s" /\ duration_debug (millis 60050) = "60.05s".
Proof. vm_compute. done. Qed.

(** ** The ledger balances *)

Definition accounted (k : IsoStats) : Z := killed_timeout k + killed_crash k + exited_clean k.

(** What a run contributes, by what it still has to do: whether it is not over,
    whether it has a process it did not order killed, and whether it counted a
    process whose end it did not count. *)
Definition under_way (es : list event) : nat := match es with [] => 0 | _ => 1 end.
Definition has_process (es : list event) : nat :=
  match es with (Spawned | AsTimeout | AsCrash | AsClean | Killed) :: _ => 1 | _ => 0 end.
Definition owes_count (es : list event) : nat := match es with (AsTimeout | AsCrash | AsClean) :: _ => 1 | _ => 0 end.

Definition total (f : list event -> nat) (tasks : list (list event)) : nat := foldr (fun es n => f es + n)%nat 0%nat tasks.

(** The runs that are not over. *)
Definition pending (tasks : list (list event)) : nat := total under_way tasks.

Definition counts_end (a : event) : Prop := a = AsTimeout \/ a = AsCrash \/ a = AsClean.

(** What is left of a run at any point. *)
Definition tail_of_run (es : list event) : Prop :=
  exists a, counts_end a /\
    es ∈ [[Forked; Spawned; a; Killed; Released]; [Spawned; a; Killed; Released]; [a; Killed; Released]; [Killed; Released]; [Released]; []].

Lemma run_shape c db method params hard :
  (run_permitted c db method params hard).1.1 = [Released]
  \/ exists a, counts_end a /\ (run_permitted c db method params hard).1.1 = [Forked; Spawned; a; Killed; Released].
Proof.
  unfold run_permitted, counts_end. repeat case_match; subst; cbn [fst]; eauto 8. right. eexists. split; [|reflexivity].
  unfold finish_event. case_match; eauto.
Qed.

Lemma tail_step e es : tail_of_run (e :: es) -> tail_of_run es.
Proof. intros (a & Ha & Hin). exists a. split; [done|]. set_solver. Qed.

(** Equal up to the wrap-around of the counters. *)
Definition eq64 (x y : Z) : Prop := exists k, x = y + k * u64_modulus.

Lemma up_eq x : eq64 (up x) (x + 1).
Proof. exists (- ((x + 1) / u64_modulus)). unfold up, wrapping_add64. rewrite Z.mod_eq by done. ring. Qed.

(** The statics and the processes match the runs under way. *)
Record iso_inv (s : Iso) (n : nat) (tasks : list (list event)) : Prop := {
  ii_shape : Forall tail_of_run tasks;
  ii_used : used s = pending tasks;
  ii_cap : (used s <= MAX_CONCURRENT)%nat;
  ii_processes : n = total has_process tasks;
  ii_ledger : eq64 (spawned (stats s)) (accounted (stats s) + Z.of_nat (total owes_count tasks));
}.

Lemma total_split f pre es post : total f (pre ++ es :: post) = (total f pre + f es + total f post)%nat.
Proof. unfold total. induction pre as [|x pre IH]; cbn [app foldr]; [lia|]. rewrite IH. lia. Qed.

Lemma iso_inv_event s n pre e es post :
  iso_inv s n (pre ++ (e :: es) :: post) -> iso_inv (count e s) (processes e n) (pre ++ es :: post).
Proof.
  intros [Hs Hu Hc Hp [k Hl]]. unfold pending in Hu. rewrite total_split in Hu, Hp, Hl.
  rewrite Forall_app, Forall_cons in Hs. destruct Hs as (H1 & H2 & H3).
  assert (Forall tail_of_run (pre ++ es :: post)) as Hsh.
  { rewrite Forall_app, Forall_cons. split; [done|]. split; [by eapply tail_step|done]. }
  destruct (up_eq (spawned (stats s))) as [j1 J1]. destruct (up_eq (killed_timeout (stats s))) as [j2 J2].
  destruct (up_eq (killed_crash (stats s))) as [j3 J3]. destruct (up_eq (exited_clean (stats s))) as [j4 J4].
  destruct H2 as (a & Ha & Hin). repeat rewrite elem_of_cons in Hin. unfold accounted in Hl.
  destruct Hin as [E|[E|[E|[E|[E|[E|E]]]]]]; [..|by apply elem_of_nil in E]; inversion E; subst; clear E;
    destruct Ha as [-> |[-> | ->]]; cbn [under_way has_process owes_count] in *;
    (split; unfold pending, accounted; rewrite ?total_split; cbn [count used stats processes spawned killed_timeout killed_crash exited_clean
       under_way has_process owes_count]; [done|lia|lia|lia|]);
    first [exists k; lia | exists (k + j1); lia | exists (k - j2); lia | exists (k - j3); lia | exists (k - j4); lia].
Qed.

Lemma iso_inv_acquire s n tasks permit s' evs :
  iso_inv s n tasks -> acquire s = (permit, s') ->
  evs = [Released] \/ (exists a, counts_end a /\ evs = [Forked; Spawned; a; Killed; Released]) ->
  iso_inv s' n (if permit : bool then evs :: tasks else tasks).
Proof.
  intros [Hs Hu Hc Hp Hl] Hacq Hsh. unfold acquire in Hacq.
  destruct (Nat.ltb_spec (used s) MAX_CONCURRENT); injection Hacq as <- <-; [|by split].
  assert (tail_of_run evs) as Ht.
  { destruct Hsh as [->|(a & Ha & ->)]; [exists AsCrash|exists a]; (split; [unfold counts_end; auto|]); repeat constructor. }
  unfold pending in Hu.
  split; [by constructor|..]; cbn [used stats]; unfold pending; change (evs :: tasks) with ([] ++ evs :: tasks); rewrite ?total_split;
    destruct Hsh as [->|(a & _ & ->)]; cbn [total foldr under_way has_process owes_count Nat.add]; try lia; exact Hl.
Qed.

Lemma iso_inv_reach s n tasks : iso_reach (s, n, tasks) -> iso_inv s n tasks.
Proof.
  remember (s, n, tasks) as x eqn:E. intros H. revert s n tasks E.
  induction H as [|x y H IH Hstep]; intros s n tasks E.
  { injection E as <- <- <-. split; [done|done|unfold MAX_CONCURRENT; cbn; lia|done|by exists 0]. }
  destruct Hstep as [s0 n0 ts c db m ps hard evs res t s1 Hacq Hrun|s0 n0 ts s1 Hacq|s0 n0 pre e es post];
    injection E as <- <- <-; specialize (IH _ _ _ eq_refl).
  - pose proof (run_shape c db m ps hard) as Hsh. rewrite Hrun in Hsh. exact (iso_inv_acquire _ _ _ _ _ evs IH Hacq Hsh).
  - exact (iso_inv_acquire _ _ _ _ _ [Released] IH Hacq (or_introl eq_refl)).
  - by apply iso_inv_event.
Qed.

(** C22. The processes of the isolation layer and its ledger are kept together,
    however the runs interleave: the permits out are the runs under way, at
    most two; no more processes have been started and not yet ordered killed
    than runs are under way; the counter of spawned processes exceeds the sum
    of those counted as timed out, crashed or exited by no more than the
    processes not yet ordered killed (a process may be counted as ended
    before it is killed, never the other way round).  So when no run is under
    way every process started has been ordered killed, the ledger balances
    and both permits are back. *)
Theorem iso_ledger_balances (s : Iso) (n : nat) (tasks : list (list event)) :
  iso_reach (s, n, tasks) ->
  used s = pending tasks /\ (n <= used s <= MAX_CONCURRENT)%nat
  /\ (exists d, (d <= n)%nat /\ eq64 (spawned (stats s)) (accounted (stats s) + Z.of_nat d))
  /\ (Forall (eq []) tasks -> used s = 0%nat /\ n = 0%nat /\ eq64 (spawned (stats s)) (accounted (stats s))).
Proof.
  intros [Hs Hu Hc Hp Hl]%iso_inv_reach.
  assert (total owes_count tasks <= total has_process tasks /\ total has_process tasks <= pending tasks)%nat as [L1 L2].
  { clear. unfold pending. induction tasks as [|es tasks [IH1 IH2]]; [done|]. cbn [total foldr].
    unfold total in *. destruct es as [|[] es]; cbn [under_way has_process owes_count]; lia. }
  split; [done|]. split; [lia|]. split; [exists (total owes_count tasks); split; [lia|done]|]. intros Hdone.
  assert (pending tasks = 0%nat) as Hz by (clear -Hdone; unfold pending; by induction Hdone as [|es l <- _ IH]).
  split; [lia|]. split; [lia|]. replace (total owes_count tasks) with 0%nat in Hl by lia. by rewrite Z.add_0_r in Hl.
Qed.

(** ** The hard timeout *)

(** [c] answers the request sequence with [v] within the budget. *)
Record serves (c : Child) (db_path method : string) (params : Value) (hard : Z) (v : Value) : Prop := {
  sv_spawn : spawn_error c = None;
  sv_pipes : has_stdin c = true /\ has_stdout c = true;
  sv_hello : exists h, hello_read c = HelloFrame h /\ protocol h = PROTOCOL_VERSION;
  sv_startup : hello_took c <= hello_budget hard;
  sv_replies : exists r1 r2 r3,
    (fun q => exchanged (exchange c q)) <$> sequence_of db_path method params = [inr (Reply r1); inr (Reply r2); inr (Reply r3)]
    /\ Forall (fun r => resp_error r = None) [r1; r2; r3] /\ v = default JNull (resp_result r3);
  sv_time : foldr Z.add 0 ((fun q => took (exchange c q)) <$> sequence_of db_path method params)
            <= hard - hello_budget hard;
}.

Definition timely (c : Child) : Prop := 0 <= hello_took c /\ (forall q, 0 <= took (exchange c q)) /\ 0 <= reap_took c.

Lemma reap_wait_bound c : timely c -> 0 <= reap_wait c <= secs 5.
Proof. intros (_ & _ & H). unfold reap_wait, secs. lia. Qed.

Lemma hello_budget_half hard : 0 <= hard -> 0 <= hello_budget hard /\ 2 * hello_budget hard <= hard.
Proof.
  intros H. unfold hello_budget, secs. split; [apply Z.div_pos; lia|].
  pose proof (Z.mul_div_le (Z.min hard (120 * 10 ^ 9)) 2). lia.
Qed.

Lemma run_sequence_time c remaining i reqs spent :
  (forall q, 0 <= took (exchange c q)) -> 0 <= spent <= remaining ->
  0 <= (run_sequence c remaining i reqs spent).2 <= remaining.
Proof.
  intros Hc. revert i spent. induction reqs as [|q reqs IH]; intros i spent H; cbn [run_sequence]; [done|].
  specialize (Hc q). destruct (Z.ltb_spec remaining (spent + took (exchange c q))); [cbn; lia|].
  destruct (exchanged _) as [e|[r| |e]]; [cbn; lia| |cbn; lia..].
  destruct (resp_error r); [cbn; lia|]. case_match; [cbn; lia|]. apply IH. lia.
Qed.

Lemma run_permitted_time c db_path method params hard :
  timely c -> 0 <= hard -> 0 <= (run_permitted c db_path method params hard).2 <= hard + secs 5.
Proof.
  intros Ht Hhard. pose proof (reap_wait_bound c Ht) as Hw. destruct Ht as (Hh & Hc & _). pose proof (hello_budget_half hard Hhard) as [Hb1 Hb2]. unfold run_permitted.
  destruct (spawn_error c); [cbn; lia|]. destruct (negb (has_stdin c)); [cbn; lia|]. destruct (negb (has_stdout c)); [cbn; lia|].
  destruct (Z.ltb_spec (hello_budget hard) (hello_took c)); [cbn; lia|].
  destruct (hello_read c) as [h| |e]; [|cbn; lia..]. destruct (negb _); [cbn; lia|].
  pose proof (run_sequence_time c (saturating_sub hard (hello_budget hard)) 0 (sequence_of db_path method params) 0 Hc) as Hs.
  unfold saturating_sub in *. destruct (run_sequence _ _ _ _ _) as [[r|] t]; cbn [snd] in *; lia.
Qed.

Lemma run_sequence_cons c remaining i q rest spent v :
  (run_sequence c remaining i (q :: rest) spent).1 = Some (Ok (Some v)) <->
  spent + took (exchange c q) <= remaining
  /\ exists r, exchanged (exchange c q) = inr (Reply r) /\ resp_error r = None
     /\ if (i =? 2)%nat then v = default JNull (resp_result r)
        else (run_sequence c remaining (S i) rest (spent + took (exchange c q))).1 = Some (Ok (Some v)).
Proof.
  cbn [run_sequence]. destruct (Z.ltb_spec remaining (spent + took (exchange c q))).
  { split; [done|]. intros [? _]. lia. }
  destruct (exchanged _) as [e|[r| |e]]; cbn [fst];
    [split; [done|]; intros (_ & r & Hr & _); done| |split; [done|]; intros (_ & r & Hr & _); done..].
  destruct (resp_error r) eqn:Er; cbn [fst].
  { split; [done|]. intros (_ & r' & [= <-] & Hr & _). congruence. }
  split.
  - intros Hv. split; [done|]. exists r. split; [done|]. split; [done|]. case_match; [by injection Hv|done].
  - intros (_ & r' & [= <-] & _ & Hv). case_match; [by subst v|done].
Qed.

Lemma run_sequence_answer c remaining db_path method params v :
  (forall q, 0 <= took (exchange c q)) ->
  (run_sequence c remaining 0 (sequence_of db_path method params) 0).1 = Some (Ok (Some v)) <->
  (exists r1 r2 r3,
     (fun q => exchanged (exchange c q)) <$> sequence_of db_path method params = [inr (Reply r1); inr (Reply r2); inr (Reply r3)]
     /\ Forall (fun r => resp_error r = None) [r1; r2; r3] /\ v = default JNull (resp_result r3))
  /\ foldr Z.add 0 ((fun q => took (exchange c q)) <$> sequence_of db_path method params) <= remaining.
Proof.
  intros Hc. unfold sequence_of. set (q1 := {| req_id := 1 |}). set (q2 := {| req_id := 2 |}). set (q3 := {| req_id := 3 |}).
  pose proof (Hc q1). pose proof (Hc q2). pose proof (Hc q3). rewrite run_sequence_cons. cbn [Nat.eqb].
  setoid_rewrite run_sequence_cons. cbn [Nat.eqb]. setoid_rewrite run_sequence_cons. cbn [Nat.eqb fmap list_fmap foldr]. split.
  - intros (_ & r1 & E1 & N1 & _ & r2 & E2 & N2 & Ht & r3 & E3 & N3 & Hv). split; [|lia].
    exists r1, r2, r3. rewrite E1, E2, E3. by repeat constructor.
  - intros [(r1 & r2 & r3 & [= E1 E2 E3] & HN & Hv) Ht]. rewrite !Forall_cons in HN. destruct HN as (N1 & N2 & N3 & _).
    split; [lia|]. exists r1. split; [done|]. split; [done|]. split; [lia|]. exists r2. split; [done|]. split; [done|].
    split; [lia|]. by exists r3.
Qed.

Lemma final_answer o v : final_outcome o = DOk v <-> o = Ok (Some v).
Proof. destruct o as [e|[x|]]; cbn; split; intros [=]; by subst. Qed.

Lemma run_permitted_serves c db_path method params hard v :
  timely c -> 0 <= hard ->
  (run_permitted c db_path method params hard).1.2 = Ok (DOk v) <-> serves c db_path method params hard v.
Proof.
  intros (Hh & Hc & _) Hhard. pose proof (hello_budget_half hard Hhard) as [Hb1 Hb2]. unfold run_permitted.
  destruct (spawn_error c) eqn:Es; [split; [done|]; intros []; congruence|].
  destruct (has_stdin c) eqn:Ei; [|split; [done|]; intros [_ [] ]; congruence].
  destruct (has_stdout c) eqn:Eo; [|split; [done|]; intros [_ [] ]; congruence]. cbn [negb].
  destruct (Z.ltb_spec (hello_budget hard) (hello_took c)); [split; [done|]; intros []; lia|].
  destruct (hello_read c) as [h| |e] eqn:Er; [|split; [done|]; intros [_ _ (h & ? & _)]; congruence..].
  destruct (Z.eqb_spec (protocol h) PROTOCOL_VERSION) as [Ep|Ep]; cbn [negb];
    [|split; [done|]; intros [_ _ (h' & ? & ?)]; congruence].
  pose proof (run_sequence_answer c (saturating_sub hard (hello_budget hard)) db_path method params v Hc) as Hs.
  unfold saturating_sub in Hs at 2. rewrite Z.max_r in Hs by lia.
  destruct (run_sequence _ _ _ _ _) as [[r|] t]; cbn [fst snd] in *.
  - split.
    + intros [= Hv%final_answer]. subst r. destruct Hs as [[Hr Ht] _]; [done|]. by split; eauto.
    + intros []. destruct Hs as [_ Hs]. injection Hs as ->; done.
  - split; [done|]. intros []. destruct Hs as [_ Hs]. by discriminate Hs.
Qed.

(** C40. The hard timeout holds up to the reaping of the process: a run of the
    isolation layer waits no longer than its hard timeout and the five seconds
    it allows the killed process to be reaped, whatever the process does; of
    the hard timeout the request sequence always keeps at least half; and the
    run answers with a value exactly
    when the process starts, sends a hello of this protocol in time and
    answers the three requests without an error within the rest of the
    budget, the value being that of the third answer. *)
Theorem isolated_within_budget (c : Child) (db_path method : string) (params v : Value) (hard : Z) :
  timely c -> 0 <= hard ->
  let '(_, res, waited) := run_permitted c db_path method params hard in
  0 <= waited <= hard + secs 5 /\ hard <= 2 * (hard - hello_budget hard)
  /\ (res = Ok (DOk v) <-> serves c db_path method params hard v).
Proof.
  intros Hc Hhard. pose proof (run_permitted_time c db_path method params hard Hc Hhard) as Ht.
  pose proof (run_permitted_serves c db_path method params hard v Hc Hhard) as Hs.
  pose proof (hello_budget_half hard Hhard). destruct (run_permitted c db_path method params hard) as [[evs res] t].
  cbn [fst snd] in *. split; [done|]. split; [lia|done].
Qed.

(** ** What the outcomes leave unsaid *)

Lemma run_sequence_errors c remaining i reqs spent e :
  (run_sequence c remaining i reqs spent).1 = Some (Err e) -> exists m, e = Worker m.
Proof.
  revert i spent. induction reqs as [|q reqs IH]; intros i spent; cbn [run_sequence]; [done|].
  repeat case_match; cbn [fst]; try done; try (intros [= <-]; eauto). apply IH.
Qed.

(** The prefix of the error's display hides the method name from [stage_of]:
    a failed [backend.select] or [db.open] is reported as stage [risky]. *)
Theorem open_stage_unreachable (c : Child) (db_path method : string) (params : Value) (hard : Z) (detail stage : string) :
  (run_permitted c db_path method params hard).1.2 = Ok (DBadResponse detail stage) -> stage = "risky".
Proof.
  unfold run_permitted. destruct (spawn_error c); [done|]. do 2 (destruct (negb _); [done|]). destruct (_ <? _); [done|].
  destruct (hello_read c); [|done..]. destruct (negb _); [done|].
  pose proof (run_sequence_errors c (saturating_sub hard (hello_budget hard)) 0 (sequence_of db_path method params) 0) as He.
  destruct (run_sequence _ _ _ _ _) as [[[e|[v|]]|] t]; cbn [fst snd final_outcome]; [|done|by intros [= _ <-]|done].
  destruct (He e eq_refl) as [m ->]. cbn [to_string]. intros [= _ <-]. unfold stage_of, starts_with.
  change "worker failure: " with ("w" +:+ "orker failure: "). by rewrite !append_assoc.
Qed.

(** ** Concrete processes *)
Module IsoWitness.
Definition hello : WorkerHello :=
  {| protocol := 1; hello_ida_version := "9.2-mock"; pid := 7; hello_ida_dir := ""; idausr := "" |}.
Definition answers (q : WorkerRequest) : Exchange :=
  {| took := millis 10; exchanged := inr (Reply (WorkerResponse_ok (req_id q) (JStr (req_method q)))) |}.
Definition good : Child :=
  {| spawn_error := None; has_stdin := true; has_stdout := true; hello_took := millis 5; hello_read := HelloFrame hello;
     exchange := answers; reap_took := millis 2 |}.
Definition hangs (q : WorkerRequest) : Exchange :=
  if (req_id q =? 3) then {| took := secs 3600; exchanged := inr ReplyClosed |} else answers q.
Definition dies (q : WorkerRequest) : Exchange :=
  if (req_id q =? 3) then {| took := millis 1; exchanged := inr ReplyClosed |} else answers q.
Definition hanging : Child :=
  {| spawn_error := None; has_stdin := true; has_stdout := true; hello_took := millis 5; hello_read := HelloFrame hello;
     exchange := hangs; reap_took := secs 60 |}.
Definition dying : Child :=
  {| spawn_error := None; has_stdin := true; has_stdout := true; hello_took := millis 5; hello_read := HelloFrame hello;
     exchange := dies; reap_took := millis 2 |}.

Lemma good_timely : timely good.
Proof. split; [done|]. split; [intros q; done|done]. Qed.

Lemma isolated_within_budget_witness :
  timely good /\ 0 <= (run_permitted good "a.i64" "region.evidence" JNull (secs 10)).2 <= secs 10 + secs 5
  /\ serves good "a.i64" "region.evidence" JNull (secs 10) (JStr "region.evidence").
Proof.
  split; [exact good_timely|].
  pose proof (isolated_within_budget good "a.i64" "region.evidence" JNull (JStr "region.evidence") (secs 10) good_timely
    ltac:(unfold secs; lia)) as H.
  split; [exact (proj1 H)|]. apply (proj2 (proj2 H)). vm_compute. reflexivity.
Defined.

(** Two runs interleaved: a third one is rejected while both have a process. *)
Lemma iso_ledger_balances_witness :
  exists s tasks, iso_reach (s, 2%nat, tasks) /\ rejected_cap (stats s) = 1 /\ used s = pending tasks /\ (2 <= used s <= MAX_CONCURRENT)%nat.
Proof.
  assert (iso_reach ({| stats := {| spawned := 2; killed_timeout := 0; killed_crash := 0; exited_clean := 0;
    rejected_cap := 1 |}; used := 2 |}, 2%nat, [[AsClean; Killed; Released]; [AsClean; Killed; Released]])) as Hr.
  { eapply iso_reach_step; [eapply iso_reach_step; [eapply iso_reach_step; [eapply iso_reach_step; [eapply iso_reach_step;
      [eapply iso_reach_step; [eapply iso_reach_step; [apply iso_reach_init|]|]|]|]|]|]|].
    - eapply (iso_start _ _ _ good "a.i64" "region.evidence" JNull (secs 10)); vm_compute; reflexivity.
    - eapply (iso_start _ _ _ good "a.i64" "region.evidence" JNull (secs 10)); vm_compute; reflexivity.
    - apply (iso_event _ _ [] Forked _ [[Forked; Spawned; AsClean; Killed; Released]]).
    - apply (iso_event _ _ [] Spawned _ [[Forked; Spawned; AsClean; Killed; Released]]).
    - apply (iso_event _ _ [[AsClean; Killed; Released]] Forked _ []).
    - apply (iso_event _ _ [[AsClean; Killed; Released]] Spawned _ []).
    - apply iso_reject. vm_compute. reflexivity. }
  eexists _, _. split; [exact Hr|]. split; [reflexivity|]. destruct (iso_ledger_balances _ _ _ Hr) as (H1 & H2 & _).
  split; [exact H1|exact H2].
Defined.

(** A hanging process is killed at the hard timeout, and the run waits five
    seconds more for one that cannot be reaped; one that dies in the
    middle of the risky request is a bad response and counts as a clean exit. *)
Example hang_times_out :
  run_permitted hanging "a.i64" "decompile" JNull (secs 10) =
    ([Forked; Spawned; AsTimeout; Killed; Released], Ok (DTimeout (secs 10) "risky"), millis 5 + secs 5 + secs 5).
Proof. vm_compute. reflexivity. Qed.

Example death_counts_clean :
  (run_permitted dying "a.i64" "decompile" JNull (secs 10)).1 =
    ([Forked; Spawned; AsClean; Killed; Released], Ok (DBadResponse "worker failure: disposable worker died mid-sequence" "risky")).
Proof. vm_compute. reflexivity. Qed.
End IsoWitness.
