(* ===== verification/JobObject.v ===== *)
(** * JobObject: the process tree of a disposable worker

    Models [rmcp-broker/src/job_object.rs] and the guard of
    [rmcp-broker/src/isolation.rs] that owns a disposable worker: its job,
    [kill_tree] and what dropping it does.  The operating system is the class
    [Win] over an abstract state, its documented behaviour the class
    [WinOk]: a process started by a member of a job is a member, members stay
    members, and a call that terminates a job and succeeds has ordered the end
    of its members.  Termination is asynchronous and the calls may fail; a
    process whose end was ordered is [doomed], not gone.  What the processes
    do by themselves is the relation [os_step]. *)

From stdpp Require Import base list gmap strings relations.
From Stdlib Require Import ZArith Lia.
From S2P Require Import Prelude Layout Isolation.

Local Open Scope rmcp_scope.
Local Open Scope Z_scope.

(** ** The limits of a job *)

Definition JOB_OBJECT_LIMIT_KILL_ON_JOB_CLOSE : Z := 0x2000.
Definition JOB_OBJECT_LIMIT_PROCESS_MEMORY : Z := 0x100.
Definition JOB_OBJECT_EXTENDED_LIMIT_INFORMATION : Z := 9.

Definition IoCounters : ty := Struct [
  ("read_operation_count", Int 8); ("write_operation_count", Int 8); ("other_operation_count", Int 8); ("read_transfer_count", Int 8);
  ("write_transfer_count", Int 8); ("other_transfer_count", Int 8)].
Definition JobObjectBasicLimitInformation : ty := Struct [
  ("per_process_user_time_limit", Int 8); ("per_job_user_time_limit", Int 8); ("limit_flags", Int 4); ("minimum_working_set_size", Int 8);
  ("maximum_working_set_size", Int 8); ("active_process_limit", Int 4); ("affinity", Int 8); ("priority_class", Int 4);
  ("process_memory_limit", Int 8); ("job_memory_limit", Int 8); ("peak_process_memory_used", Int 8); ("peak_job_memory_used", Int 8)].
Definition JobObjectExtendedLimitInformation : ty := Struct [
  ("basic_limit_information", JobObjectBasicLimitInformation); ("io_info", IoCounters); ("process_memory_limit", Int 8);
  ("job_memory_limit", Int 8); ("peak_process_memory_used", Int 8); ("peak_job_memory_used", Int 8)].

(** The fields that are not zero. *)
Record Limits := { limit_flags : Z; basic_memory_limit : Z; process_memory_limit : Z }.
Definition limits : Limits := {|
  limit_flags := Z.lor JOB_OBJECT_LIMIT_KILL_ON_JOB_CLOSE JOB_OBJECT_LIMIT_PROCESS_MEMORY;
  basic_memory_limit := 2 * 1024 * 1024 * 1024; process_memory_limit := 2 * 1024 * 1024 * 1024 |}.

(** ** The operating system *)

Class Win (W : Type) := {
  CreateJobObjectW : W -> Z * W;
  SetInformationJobObject : Z -> Z -> Limits -> Z -> W -> bool * W;
  AssignProcessToJobObject : Z -> Z -> W -> bool * W;
  TerminateJobObject : Z -> Z -> W -> bool * W;
  CloseHandle : Z -> W -> bool * W;
  raw_handle : Z -> W -> option Z;
  start_kill : Z -> W -> bool * W;
  (** the processes: which run, whose end was ordered, who started whom, who is
      in the job of a handle; a process keeps its number and none gets it after *)
  running : W -> Z -> Prop;
  doomed : W -> Z -> Prop;
  started : W -> Z -> Z -> Prop;
  in_job : W -> Z -> Z -> Prop;
  os_step : W -> W -> Prop;
}.

Section Code.
Context {W : Type} `{!Win W} (windows : bool).

(** The answers of the last two calls are not looked at. *)
Definition create_and_assign (proc_handle : Z) (w : W) : Z * W :=
  let '(job, w) := CreateJobObjectW w in
  if job =? 0 then (0, w)
  else
    let w := (SetInformationJobObject job JOB_OBJECT_EXTENDED_LIMIT_INFORMATION limits
                (size_of JobObjectExtendedLimitInformation) w).2 in
    let w := (AssignProcessToJobObject job proc_handle w).2 in
    (job, w).

Definition terminate_and_close (job : Z) (w : W) : W :=
  if job =? 0 then w else (CloseHandle job (TerminateJobObject job 1 w).2).2.

Definition assign_child (child : Z) (w : W) : option Z * W :=
  if windows then
    match raw_handle child w with
    | Some h => let '(job, w) := create_and_assign h w in (Some job, w)
    | None => (None, w)
    end
  else (None, w).

Definition terminate_job (job : Z) (w : W) : W := if windows then terminate_and_close job w else w.

(** ** The guard *)

Record DisposableGuard := { job : option Z; child : option Z; accounted : bool }.

Definition take_job (g : DisposableGuard) (w : W) : W := match job g with Some j => terminate_job j w | None => w end.
Definition take_child (g : DisposableGuard) (w : W) : W := match child g with Some c => (start_kill c w).2 | None => w end.

(** The bounded wait for the killed child changes nothing of this, and the
    answers of the calls are not looked at. *)
Definition kill_tree (g : DisposableGuard) (w : W) : DisposableGuard * W :=
  ({| job := None; child := None; accounted := accounted g |}, take_child g (take_job g w)).

(** What dropping the guard counts, and the processes after it. *)
Definition drop_guard (g : DisposableGuard) (w : W) : list event * W :=
  (if accounted g then [] else [AsCrash], take_child g (take_job g w)).

Definition mark_accounted (g : DisposableGuard) : DisposableGuard := {| job := job g; child := child g; accounted := true |}.
End Code.

(** ** Documented behaviour *)

Definition tree {W} `{!Win W} (w : W) (c p : Z) : Prop := rtc (started w) c p.

(** All that runs of the tree of [c] is in the job of [j]. *)
Definition confined {W} `{!Win W} (w : W) (j c : Z) : Prop := forall p, tree w c p -> running w p -> in_job w j p.

(** [w'] has the processes of [w], of which some may have ended. *)
Record fewer {W} `{!Win W} (w w' : W) : Prop := {
  fw_running p : running w' p -> running w p;
  fw_started p q : started w' p q -> started w p q;
  fw_doomed p : doomed w p -> running w' p -> doomed w' p;
}.

(** [p] is the number of no process yet. *)
Definition fresh {W} `{!Win W} (w : W) (p : Z) : Prop :=
  (forall x, ~ started w x p /\ ~ started w p x) /\ raw_handle p w = None.

Class WinOk (W : Type) `{!Win W} : Prop := {
  set_fewer j c l n w : fewer w (SetInformationJobObject j c l n w).2;
  create_fewer w : fewer w (CreateJobObjectW w).2;
  assign_fewer j h w : fewer w (AssignProcessToJobObject j h w).2;
  terminate_fewer j n w : fewer w (TerminateJobObject j n w).2;
  close_fewer j w : fewer w (CloseHandle j w).2;
  kill_fewer c w : fewer w (start_kill c w).2;
  handle_set j k l n c w : raw_handle c (SetInformationJobObject j k l n w).2 = raw_handle c w;
  handle_create c w : raw_handle c (CreateJobObjectW w).2 = raw_handle c w;
  handle_assign j h c w : raw_handle c (AssignProcessToJobObject j h w).2 = raw_handle c w;
  handle_step w w' c h : os_step w w' -> raw_handle c w = Some h -> raw_handle c w' = Some h;
  (** who runs ran or is new; who is new was started by a process that ran, in its job, and has started nothing *)
  step_running w w' p : os_step w w' -> running w' p -> running w p \/ fresh w p;
  step_started w w' p q : os_step w w' -> started w' p q ->
    started w p q \/ (running w p /\ fresh w q /\ (forall j, in_job w j p -> in_job w' j q) /\ forall x, ~ started w' q x);
  step_member w w' j p : os_step w w' -> in_job w j p -> in_job w' j p;
  terminate_dooms j n p w : (TerminateJobObject j n w).1 = true -> in_job w j p ->
    running (TerminateJobObject j n w).2 p -> doomed (TerminateJobObject j n w).2 p;
}.

Section Laws.
Context {W : Type} `{!Win W} `{!WinOk W}.
Implicit Types w : W.

Lemma fewer_refl w : fewer w w.
Proof using Type. by split. Qed.

Lemma fewer_trans w1 w2 w3 : fewer w1 w2 -> fewer w2 w3 -> fewer w1 w3.
Proof using Type. intros [] []. split; auto. Qed.

Lemma fewer_tree w w' c p : fewer w w' -> tree w' c p -> tree w c p.
Proof using Type. intros F. apply rtc_subrel. intros x y. apply (fw_started _ _ F). Qed.

Lemma terminate_job_fewer win j w : fewer w (terminate_job win j w).
Proof using WinOk0.
  unfold terminate_job, terminate_and_close. destruct win; [|apply fewer_refl]. destruct (j =? 0); [apply fewer_refl|].
  eapply fewer_trans; [apply terminate_fewer|apply close_fewer].
Qed.

(** The tree of a confined child is doomed once its job was terminated. *)
Lemma terminate_dooms_tree j c w p :
  j <> 0 -> confined w j c -> (TerminateJobObject j 1 w).1 = true ->
  tree (terminate_job true j w) c p -> running (terminate_job true j w) p -> doomed (terminate_job true j w) p.
Proof using WinOk0.
  intros Hj Hc Hok Ht Hrun. unfold terminate_job, terminate_and_close in *. apply Z.eqb_neq in Hj as Hz. rewrite Hz in *.
  set (w1 := (TerminateJobObject j 1 w).2) in *. apply (fw_doomed _ _ (close_fewer j w1)); [|done].
  apply (fewer_tree _ _ _ _ (close_fewer j w1)), (fewer_tree _ _ _ _ (terminate_fewer j 1 w)) in Ht.
  apply (fw_running _ _ (close_fewer j w1)) in Hrun. apply terminate_dooms; [done| |done].
  apply Hc; [done|]. by apply (fw_running _ _ (terminate_fewer j 1 w)).
Qed.

(** A step adds to a tree only what a process of it has just started. *)
Lemma step_tree w w' c p :
  os_step w w' -> tree w' c p ->
  tree w c p \/ exists q, tree w c q /\ running w q /\ (forall j, in_job w j q -> in_job w' j p) /\ forall x, ~ started w' p x.
Proof using WinOk0.
  intros Hstep. apply (rtc_ind_r (fun p => tree w c p \/ exists q, tree w c q /\ running w q
    /\ (forall j, in_job w j q -> in_job w' j p) /\ forall x, ~ started w' p x)); [left; apply rtc_refl|].
  intros y z _ Hyz [IH|(q & _ & _ & _ & Hno)]; [|by destruct (Hno z)].
  destruct (step_started w w' y z Hstep Hyz) as [Hold|(Hr & _ & Hj & Hno)]; [left; by eapply rtc_r|right; by exists y].
Qed.

(** What a confined child starts is confined. *)
Lemma step_confined w w' j c h : os_step w w' -> raw_handle c w = Some h -> confined w j c -> confined w' j c.
Proof using WinOk0.
  intros Hstep Hh Hc p Ht Hr. destruct (step_tree w w' c p Hstep Ht) as [Hold|(q & Hq & Hrq & Hj & _)]; [|by apply Hj, Hc].
  apply (step_member w w'); [done|]. apply Hc; [done|].
  destruct (step_running w w' p Hstep Hr) as [?|[Hno Hnone]]; [done|]. exfalso.
  apply rtc_inv_r in Hold as [->|(y & _ & Hy)]; [congruence|]. by destruct (Hno y).
Qed.
End Laws.

(** ** The life of a guard *)

Section Life.
Context {W : Type} `{!Win W} `{!WinOk W}.
Implicit Types w : W.

(** A run of [run_isolated] ends by an early return, which drops the guard, or
    by an outcome, which is counted before the tree is killed and the guard
    dropped. *)
Inductive ends (win : bool) (g : DisposableGuard) w : list event -> W -> Prop :=
  | ends_early evs w' : drop_guard win g w = (evs, w') -> ends win g w evs w'
  | ends_counted g1 w1 evs w' :
      kill_tree win (mark_accounted g) w = (g1, w1) -> drop_guard win g1 w1 = (evs, w') -> ends win g w evs w'.

(** Dropping a guard that killed its tree does nothing more. *)
Lemma kill_tree_once win g w w' : drop_guard win (kill_tree win g w).1 w' = (if accounted g then [] else [AsCrash], w').
Proof using Type. done. Qed.

Lemma ends_spec win g w evs w' :
  ends win g w evs w' -> w' = take_child g (take_job win g w) /\ (evs = [AsCrash] /\ accounted g = false \/ evs = []).
Proof using Type.
  intros [evs' w1 [= <- <-]|g1 w1 evs' w2 [= <- <-] [= <- <-]]; [|by split; [|right]].
  split; [done|]. destruct (accounted g); [by right|by left].
Qed.

(** A step of the processes does not free them from their job. *)
Lemma steps_confined w w' j c h : rtc os_step w w' -> raw_handle c w = Some h -> confined w j c -> confined w' j c.
Proof using WinOk0.
  induction 1 as [|w1 w2 w3 H1 H2 IH]; [done|]. intros Hh Hc. apply IH; [by eapply handle_step|by eapply step_confined].
Qed.

Lemma assign_child_handle c h w0 j w1 : raw_handle c w0 = Some h -> assign_child true c w0 = (j, w1) -> raw_handle c w1 = Some h.
Proof using WinOk0.
  intros Hh. unfold assign_child, create_and_assign. rewrite Hh. pose proof (handle_create c w0) as Hc.
  destruct (CreateJobObjectW w0) as [j' wc]. cbn [snd] in Hc. destruct (j' =? 0); intros [= _ <-]; [congruence|].
  rewrite handle_assign, handle_set. congruence.
Qed.

(** A child that was assigned before it started anything is confined. *)
Lemma assigned_confined c h j w0 w1 :
  raw_handle c w0 = Some h -> assign_child true c w0 = (Some j, w1) -> j <> 0 -> in_job w1 j c ->
  (forall p, tree w0 c p -> running w0 p -> p = c) -> confined w1 j c.
Proof using WinOk0.
  intros Hh Ha Hj Hin Hone p Ht Hr. unfold assign_child, create_and_assign in Ha. rewrite Hh in Ha.
  pose proof (create_fewer w0) as F1. destruct (CreateJobObjectW w0) as [j' wc]. cbn [snd] in F1.
  destruct (j' =? 0) eqn:Ez; [injection Ha as <- _; done|]. injection Ha as -> <-.
  assert (fewer w0 (AssignProcessToJobObject j h (SetInformationJobObject j JOB_OBJECT_EXTENDED_LIMIT_INFORMATION limits
    (size_of JobObjectExtendedLimitInformation) wc).2).2) as F.
  { eapply fewer_trans; [exact F1|]. eapply fewer_trans; [apply set_fewer|apply assign_fewer]. }
  apply (fewer_tree _ _ _ _ F) in Ht. apply (fw_running _ _ F) in Hr. by rewrite (Hone p Ht Hr).
Qed.

(** C31. No process of a disposable worker's tree is spared.  On a system with
    the documented behaviour of jobs, when a worker was assigned to its job
    before it had started a process of its own, whatever the processes do
    while it runs: however the run ends, by an outcome or by an early return
    (counted as a crash at most once), if the call that terminates the job
    succeeds then the end of every process that is still running of those the
    worker started, at any remove, and of the worker itself, has been ordered. *)
Theorem guard_kills_tree (c h j : Z) (w0 w1 w2 w3 : W) (evs : list event) :
  raw_handle c w0 = Some h -> assign_child true c w0 = (Some j, w1) -> j <> 0 -> in_job w1 j c ->
  (forall p, tree w0 c p -> running w0 p -> p = c) -> rtc os_step w1 w2 ->
  ends true {| job := Some j; child := Some c; accounted := false |} w2 evs w3 ->
  (evs = [AsCrash] \/ evs = [])
  /\ ((TerminateJobObject j 1 w2).1 = true -> forall p, tree w3 c p -> running w3 p -> doomed w3 p).
Proof using WinOk0.
  intros Hh Ha Hj Hin Hone Hsteps [-> Hev]%ends_spec. cbn [take_child take_job job child].
  split; [by destruct Hev as [[-> _]| ->]; [left|right]|]. intros Hok p Ht Hr.
  pose proof (steps_confined w1 w2 j c h Hsteps (assign_child_handle c h w0 _ w1 Hh Ha) (assigned_confined c h j w0 w1 Hh Ha Hj Hin Hone)) as Hc.
  apply (fw_doomed _ _ (kill_fewer _ _)); [|done].
  apply (fewer_tree _ _ _ _ (kill_fewer _ _)) in Ht. apply (fw_running _ _ (kill_fewer _ _)) in Hr.
  by eapply (terminate_dooms_tree j c w2).
Qed.

(** A job that could not be set up is handed out like one that could. *)
Lemma failures_unreported h j w wc :
  CreateJobObjectW w = (j, wc) -> j <> 0 -> (create_and_assign h w).1 = j.
Proof using Type. intros E Hj. unfold create_and_assign. rewrite E. apply Z.eqb_neq in Hj as ->. done. Qed.

(** Without a job (not on Windows) only the worker itself is killed. *)
Lemma elsewhere_no_job c w : assign_child false c w = (None, w).
Proof using Type. done. Qed.
End Life.

(** ** The size of the limits *)

(** The two structures as the Windows headers declare them: the basic one ends
    with two 32-bit fields. *)
Definition winnt_basic : ty := Struct [
  ("PerProcessUserTimeLimit", Int 8); ("PerJobUserTimeLimit", Int 8); ("LimitFlags", Int 4); ("MinimumWorkingSetSize", Int 8);
  ("MaximumWorkingSetSize", Int 8); ("ActiveProcessLimit", Int 4); ("Affinity", Int 8); ("PriorityClass", Int 4); ("SchedulingClass", Int 4)].
Definition winnt_extended : ty := Struct [
  ("BasicLimitInformation", winnt_basic); ("IoInfo", IoCounters); ("ProcessMemoryLimit", Int 8); ("JobMemoryLimit", Int 8);
  ("PeakProcessMemoryUsed", Int 8); ("PeakJobMemoryUsed", Int 8)].

(** The mirror repeats the memory limits in the basic part and is 32 bytes too
    long, so the call that sets the limits is made with a wrong length. *)
Lemma limits_too_long : size_of winnt_extended = 144 /\ size_of JobObjectExtendedLimitInformation = 176
  /\ offset_of winnt_extended "ProcessMemoryLimit" = Some 112 /\ offset_of JobObjectExtendedLimitInformation "process_memory_limit" = Some 144.
Proof. by vm_compute. Qed.

(** A system that refuses a wrong length then has a job without limits. *)
Lemma limits_never_set {W} `{!Win W} h j w wc :
  (forall l n w', n <> size_of winnt_extended ->
     SetInformationJobObject j JOB_OBJECT_EXTENDED_LIMIT_INFORMATION l n w' = (false, w')) ->
  CreateJobObjectW w = (j, wc) -> j <> 0 -> create_and_assign h w = (j, (AssignProcessToJobObject j h wc).2).
Proof.
  intros Hset E Hj. unfold create_and_assign. rewrite E. apply Z.eqb_neq in Hj as ->.
  by rewrite Hset by (vm_compute; discriminate).
Qed.

(** ** A small system *)

Module JobWitness.
(** A process runs, is about to end, or has ended. *)
Inductive Life := Runs | Ending | Ended.
Record Proc := { parent : Z; member : option Z; life : Life }.
Record Sys := { procs : gmap Z Proc; jobs : Z }.

Definition update (f : Proc -> Proc) (w : Sys) : Sys := {| procs := f <$> procs w; jobs := jobs w |}.
Definition with_life (l : Life) (p : Proc) : Proc := {| parent := parent p; member := member p; life := l |}.
Definition order_end (p : Proc) : Proc := match life p with Runs => with_life Ending p | _ => p end.
Definition order_in (j : Z) (p : Proc) : Proc := if bool_decide (member p = Some j) then order_end p else p.

Inductive sys_step (w : Sys) : Sys -> Prop :=
  | sys_spawn q p e : procs w !! q = Some e -> life e = Runs -> procs w !! p = None -> (forall x e', procs w !! x = Some e' -> parent e' <> p) ->
      sys_step w {| procs := <[p := {| parent := q; member := member e; life := Runs |}]> (procs w); jobs := jobs w |}
  | sys_exit p : sys_step w {| procs := alter (with_life Ended) p (procs w); jobs := jobs w |}.

#[local] Instance sys_win : Win Sys := {
  CreateJobObjectW w := (jobs w + 1, {| procs := procs w; jobs := jobs w + 1 |});
  SetInformationJobObject j c l n w := (false, w);
  AssignProcessToJobObject j h w :=
    (bool_decide (is_Some (procs w !! h)),
     {| procs := alter (fun p => {| parent := parent p; member := Some j; life := life p |}) h (procs w); jobs := jobs w |});
  TerminateJobObject j n w := (true, update (order_in j) w);
  CloseHandle j w := (true, w);
  raw_handle c w := if procs w !! c then Some c else None;
  start_kill c w := (bool_decide (is_Some (procs w !! c)), {| procs := alter order_end c (procs w); jobs := jobs w |});
  running w p := exists e, procs w !! p = Some e /\ life e <> Ended;
  doomed w p := exists e, procs w !! p = Some e /\ life e = Ending;
  started w p q := exists e, procs w !! q = Some e /\ parent e = p;
  in_job w j p := exists e, procs w !! p = Some e /\ member e = Some j;
  os_step := sys_step;
}.

(** A change of processes that keeps who started them and wakes up none. *)
Record ebbing (f : Proc -> Proc) : Prop := {
  eb_parent e : parent (f e) = parent e;
  eb_runs e : life (f e) <> Ended -> life e <> Ended;
  eb_ending e : life e = Ending -> life (f e) <> Ended -> life (f e) = Ending;
}.

Lemma fewer_alter (f : Proc -> Proc) k w n : ebbing f -> fewer w {| procs := alter f k (procs w); jobs := n |}.
Proof.
  intros [Hp Ha Hd]. split; cbn.
  - intros p (e & He & Hal). apply lookup_alter_Some in He as [(-> & e' & He & ->)|[_ He]]; eexists; split; eauto.
  - intros p q (e & He & Hpa). apply lookup_alter_Some in He as [(-> & e' & He & ->)|[_ He]]; eexists; split; eauto.
    by rewrite <- Hpa.
  - intros p (e & He & Hl) (e' & He' & Hal). exists e'. split; [done|].
    apply lookup_alter_Some in He' as [(-> & e2 & He2 & ->)|[_ He2]]; assert (e2 = e) as -> || assert (e' = e) as -> by congruence; auto.
    congruence.
Qed.

Lemma fewer_update (f : Proc -> Proc) w : ebbing f -> fewer w (update f w).
Proof.
  intros [Hp Ha Hd]. split; cbn.
  - intros p (e & He & Hal). apply lookup_fmap_Some in He as (e' & <- & He). eexists; split; eauto.
  - intros p q (e & He & Hpa). apply lookup_fmap_Some in He as (e' & <- & He). eexists; split; eauto. by rewrite <- Hpa.
  - intros p (e & He & Hl) (e' & He' & Hal). exists e'. split; [done|]. apply lookup_fmap_Some in He' as (e2 & <- & He2).
    assert (e2 = e) as -> by congruence. auto.
Qed.

Lemma order_ebbing : ebbing order_end.
Proof. split; intros e; unfold order_end; destruct (life e) eqn:E; cbn; congruence. Qed.

Lemma order_in_ebbing j : ebbing (order_in j).
Proof.
  destruct order_ebbing as [H1 H2 H3]. split; intros e; unfold order_in; case_bool_decide; auto.
Qed.

#[local] Instance sys_ok : WinOk Sys.
Proof.
  split; try (intros; split; cbn; by eauto); try done.
  - intros j h w. apply fewer_alter. by split.
  - intros j n w. apply fewer_update, order_in_ebbing.
  - intros c w. apply fewer_alter, order_ebbing.
  - intros j h c w. cbn. destruct (decide (h = c)) as [->|Hne]; [rewrite lookup_alter_eq; by destruct (procs w !! c)|by rewrite lookup_alter_ne].
  - intros w w' c h [q p e Hq Ha Hp Hno|p] Hh; cbn in *.
    + destruct (decide (p = c)) as [->|Hne]; [by rewrite Hp in Hh|by rewrite lookup_insert_ne].
    + destruct (decide (p = c)) as [->|Hne]; [rewrite lookup_alter_eq; by destruct (procs w !! c)|by rewrite lookup_alter_ne].
  - intros w w' p [q p' e Hq Ha Hp Hno|p'] (e' & He' & Hal); cbn in He'.
    + apply lookup_insert_Some in He' as [[<- _]|[_ He']]; [right|left; by exists e']. split; [|cbn; by rewrite Hp].
      intros x. split; [intros (e2 & He2 & _); congruence|]. intros (e2 & He2 & E). by apply (Hno x e2).
    + left. apply lookup_alter_Some in He' as [(-> & e2 & He2 & ->)|[_ He2]]; [done|by exists e'].
  - intros w w' p q [q' p' e Hq Ha Hp Hno|p'] (e' & He' & Hpa); cbn in He'.
    + apply lookup_insert_Some in He' as [[<- <-]|[_ He']]; [right|left; by exists e']. cbn in Hpa. subst q'.
      split; [exists e; split; [done|congruence]|]. split; [|split].
      * split; [|cbn; by rewrite Hp]. intros x. split; [intros (e2 & He2 & _); congruence|]. intros (e2 & He2 & E). by apply (Hno x e2).
      * intros j (e2 & He2 & Hm). assert (e2 = e) as -> by congruence. eexists. cbn. by rewrite lookup_insert_eq.
      * intros x (e2 & He2 & E). cbn in He2. apply lookup_insert_Some in He2 as [[<- <-]|[_ He2]]; [cbn in E; congruence|by apply (Hno x e2)].
    + left. apply lookup_alter_Some in He' as [(-> & e2 & He2 & ->)|[_ He2]]; eexists; split; eauto.
  - intros w w' j p [q p' e Hq Ha Hp Hno|p'] (e' & He' & Hm); cbn.
    + exists e'. split; [|done]. cbn. rewrite lookup_insert_ne; [done|congruence].
    + destruct (decide (p' = p)) as [->|Hne]; [exists (with_life Ended e'); cbn; by rewrite lookup_alter_eq, He'|].
      exists e'. cbn. by rewrite lookup_alter_ne.
  - intros j n p w _ (e & He & Hm) (e' & He' & Hal). exists e'. split; [done|]. cbn in He'. rewrite lookup_fmap, He in He'. injection He' as <-.
    unfold order_in, order_end in *. rewrite bool_decide_true in * by done. by destruct (life e) eqn:E; cbn in *.
Qed.

(** A worker starts a helper, which starts another. *)
Definition w0 : Sys := {| procs := {[ 7 := {| parent := 1; member := None; life := Runs |} ]}; jobs := 4 |}.
Definition w1 : Sys := {| procs := {[ 7 := {| parent := 1; member := Some 5; life := Runs |} ]}; jobs := 5 |}.
Definition w2 : Sys := {| procs := <[8 := {| parent := 7; member := Some 5; life := Runs |}]> (procs w1); jobs := 5 |}.
Definition w3 : Sys := {| procs := <[9 := {| parent := 8; member := Some 5; life := Runs |}]> (procs w2); jobs := 5 |}.

(** Both are ordered to end with it. *)
Lemma guard_kills_tree_witness :
  running w3 9 /\ ~ doomed w3 9 /\ exists w4, ends true {| job := Some 5; child := Some 7; accounted := false |} w3 [AsCrash] w4
    /\ (forall p, tree w4 7 p -> running w4 p -> doomed w4 p) /\ doomed w4 9.
Proof.
  split; [eexists; split; [reflexivity|done]|]. split; [intros (e & [= <-] & H); discriminate H|].
  set (g := {| job := Some 5; child := Some 7; accounted := false |}).
  exists (drop_guard true g w3).2. assert (ends true g w3 [AsCrash] (drop_guard true g w3).2) as He by (by apply ends_early). split; [exact He|].
  assert (forall p, tree (drop_guard true g w3).2 7 p -> running (drop_guard true g w3).2 p -> doomed (drop_guard true g w3).2 p) as H.
  { refine (proj2 (guard_kills_tree 7 7 5 w0 w1 w3 (drop_guard true g w3).2 [AsCrash] eq_refl eq_refl _ _ _ _ He) eq_refl).
    - done.
    - by eexists.
    - intros p _ (e & He' & _). cbn [w0 procs] in He'. by apply lookup_singleton_Some in He' as [-> _].
    - eapply rtc_l; [|apply rtc_once].
      + apply (sys_spawn w1 7 8 {| parent := 1; member := Some 5; life := Runs |}); [reflexivity..|].
        intros x e' Hx. cbn [w1 procs] in Hx. apply lookup_singleton_Some in Hx as [_ <-]. cbn. lia.
      + apply (sys_spawn w2 8 9 {| parent := 7; member := Some 5; life := Runs |}); [reflexivity..|].
        intros x e' Hx. cbn [w1 w2 procs] in Hx. apply lookup_insert_Some in Hx as [[_ <-]|[_ Hx]]; [cbn; lia|]. apply lookup_singleton_Some in Hx as [_ <-]. cbn. lia. }
  split; [exact H|]. apply H.
  - apply (rtc_l _ _ 8); [|apply rtc_once]; eexists; (split; [reflexivity|reflexivity]).
  - eexists; split; [reflexivity|done].
Defined.

(** The assignment came too late for a helper that was already there. *)
Definition late : Sys := {| procs := <[8 := {| parent := 7; member := None; life := Runs |}]> (procs w0); jobs := 4 |}.
Example helper_survives :
  let w := (drop_guard true {| job := (assign_child true 7 late).1; child := Some 7; accounted := true |} (assign_child true 7 late).2).2 in
  running w 8 /\ ~ doomed w 8.
Proof. split; [eexists; split; [reflexivity|done]|]. intros (e & He & Hl). vm_compute in He. injection He as <-. discriminate Hl. Qed.
End JobWitness.
