(* ===== verification/Config.v ===== *)
(** * Config: configuration file and portable layout

    Models [rmcp-core/src/config.rs] and [rmcp-core/src/layout.rs].  The
    executable's surroundings (its path, the path operations, the file
    system, the TOML decoder) are a [Site]. *)

From stdpp Require Import base list strings.
From Stdlib Require Import ZArith Lia.
From S2P Require Import Prelude Text Errors.

Local Open Scope Z_scope.
Local Open Scope rmcp_scope.

(** Durations are nanoseconds. *)
Record Config := {
  cfg_ida_dir : option string;
  required_ida_version : string;
  max_workers : Z;
  result_threshold : Z;
  result_ttl : Z;
  result_max_entries : Z;
  config_path : option string;
}.

Definition Config_default : Config := {|
  cfg_ida_dir := None; required_ida_version := "9.2"; max_workers := 8; result_threshold := 24 * 1024;
  result_ttl := 3600 * 10 ^ 9; result_max_entries := 256; config_path := None |}.

Record FileConfig := {
  f_ida_dir : option string;
  f_required_ida_version : option string;
  f_max_workers : option Z;
  f_result_threshold_kib : option Z;
  f_result_ttl_secs : option Z;
  f_result_max_entries : option Z;
}.

Record Site := {
  current_exe : option string;
  parent : string -> option string;
  join_path : string -> string -> string;
  site_is_file : string -> bool;
  read_to_string : string -> string + string;
  parse_toml : string -> string + FileConfig;
}.

(** ** Layout *)

Definition exe_dir (s : Site) : string := default "." (p ← current_exe s; parent s p).
Definition plugins_dir (s : Site) : string := join_path s (exe_dir s) "plugins".
Definition cache_dir (s : Site) : string := join_path s (exe_dir s) "cache".
Definition logs_dir (s : Site) : string := join_path s (exe_dir s) "logs".

(** ** Loading *)

(** The multiplication wraps in a release build. *)
Definition of_file (file : FileConfig) (path : string) : Config := {|
  cfg_ida_dir := f_ida_dir file;
  required_ida_version := default "9.2" (f_required_ida_version file);
  max_workers := Z.max (default 8 (f_max_workers file)) 1;
  result_threshold := (default 24 (f_result_threshold_kib file) * 1024) mod u64_modulus;
  result_ttl := default 3600 (f_result_ttl_secs file) * 10 ^ 9;
  result_max_entries := default 256 (f_result_max_entries file);
  config_path := Some path |}.

Definition load (s : Site) : Result Config :=
  let path := join_path s (exe_dir s) "reverse-mcp.toml" in
  if negb (site_is_file s path) then Ok Config_default
  else match read_to_string s path with
  | inl e => Err (Io e)
  | inr raw => match parse_toml s raw with inl e => Err (Errors.Config e) | inr file => Ok (of_file file path) end
  end.

Definition with_ida_dir_override (dir : option string) (c : Config) : Config :=
  match dir with
  | Some d => {| cfg_ida_dir := Some d; required_ida_version := required_ida_version c; max_workers := max_workers c;
                 result_threshold := result_threshold c; result_ttl := result_ttl c;
                 result_max_entries := result_max_entries c; config_path := config_path c |}
  | None => c
  end.

(** An empty file and no file configure the server alike, up to the path. *)
Lemma empty_file_is_default path :
  of_file {| f_ida_dir := None; f_required_ida_version := None; f_max_workers := None; f_result_threshold_kib := None;
             f_result_ttl_secs := None; f_result_max_entries := None |} path =
  {| cfg_ida_dir := None; required_ida_version := "9.2"; max_workers := 8; result_threshold := 24 * 1024;
     result_ttl := 3600 * 10 ^ 9; result_max_entries := 256; config_path := Some path |}.
Proof. reflexivity. Qed.

(** A loaded configuration always allows a worker. *)
Lemma load_allows_worker (s : Site) (c : Config) : load s = Ok c -> 1 <= max_workers c.
Proof.
  unfold load. destruct (negb _); [by intros [= <-]|]. destruct (read_to_string s _); [done|].
  destruct (parse_toml s _); [done|]. intros [= <-]. cbn. lia.
Qed.
