(* ===== verification/Broker.v ===== *)
(** * Broker: the state the MCP tools share

    Models [rmcp-broker/src/lib.rs]: the broker's state, its janitor and the
    helpers every tool goes through ([resolve_db], [mcp_code], [bound_output],
    the argument readers), with [err_from] and [parse_ea] of [tools.rs].

    What is outside the broker is the class [Host]: the clock, the worker
    processes behind the sessions ([ask], the whole of [WorkerSession::call]),
    the machine the pool looks at, files, the processes of the isolation layer.
    A tool is a computation in [handler]: it threads the broker and the host,
    may fail with an [McpError] and may panic.  The handle counter is one
    process-wide static, here [next_id].  Locks are not modelled: a handler
    runs alone.  serde_json's printers and the iteration orders of the hash
    maps are the class [Runtime]. *)

From stdpp Require Import base list gmap strings.
From Stdlib Require Import ZArith Lia.
From S2P Require Import Prelude Text Handles Protocol ResultStore Discovery Pump Pool Jobs Isolation Config Json Errors.

Local Open Scope rmcp_scope.

(** ** Errors *)

Record McpError := { mcp_num : Z; mcp_message : string }.

(** [ErrorData::invalid_params]: the JSON-RPC code -32602. *)
Definition invalid_params (m : string) : McpError := {| mcp_num := -32602; mcp_message := m |}.

Definition mcp_code (code message : string) : McpError := invalid_params ("[" +:+ code +:+ "] " +:+ message).

Definition borrow_code (e : McpError) (code : string) : McpError := invalid_params ("[" +:+ code +:+ "] " +:+ mcp_message e).

Definition err_from (e : Error) : McpError := borrow_code (invalid_params (to_string e)) (code e).

(** ** State *)

Record Broker := {
  config : Config.Config;
  results : ResultStore;
  pool : WorkerPool;
  open_dbs : list (string * string);
  janitor_swept : Z;
  job_table : JobManager;
  iso : Iso;
  next_id : Z;
}.

(** [Broker::new], in a process whose handle counter stands at [id]. *)
Definition Broker_new (c : Config.Config) (id : Z) : Broker := {|
  config := c; results := ResultStore_new (Config.result_ttl c); pool := WorkerPool_new id; open_dbs := [];
  janitor_swept := 0; job_table := JobManager_new 4 (Config.result_ttl c) id; iso := Iso_init; next_id := id |}.

Definition set_results (s : ResultStore) (id : Z) (b : Broker) : Broker := {|
  config := config b; results := s; pool := pool b; open_dbs := open_dbs b; janitor_swept := janitor_swept b;
  job_table := job_table b; iso := iso b; next_id := id |}.
Definition set_pool (p : WorkerPool) (dbs : list (string * string)) (id : Z) (b : Broker) : Broker := {|
  config := config b; results := results b; pool := p; open_dbs := dbs; janitor_swept := janitor_swept b;
  job_table := job_table b; iso := iso b; next_id := id |}.
Definition set_jobs_table (m : JobManager) (id : Z) (b : Broker) : Broker := {|
  config := config b; results := results b; pool := pool b; open_dbs := open_dbs b; janitor_swept := janitor_swept b;
  job_table := m; iso := iso b; next_id := id |}.
Definition set_iso (i : Iso) (b : Broker) : Broker := {|
  config := config b; results := results b; pool := pool b; open_dbs := open_dbs b; janitor_swept := janitor_swept b;
  job_table := job_table b; iso := i; next_id := next_id b |}.
Definition set_swept (n : Z) (b : Broker) : Broker := {|
  config := config b; results := results b; pool := pool b; open_dbs := open_dbs b; janitor_swept := n;
  job_table := job_table b; iso := iso b; next_id := next_id b |}.

(** The pool and the job table with the process's handle counter. *)
Definition pool_at (b : Broker) : WorkerPool :=
  let p := pool b in
  {| sessions := sessions p; Pool.store := Pool.store p; next_ref := next_ref p; worker_exe := worker_exe p;
     worker_exe_error := worker_exe_error p; Pool.ida_dir := Pool.ida_dir p; idalib_feature := idalib_feature p;
     next_handle := next_id b |}.
Definition jobs_at (b : Broker) : JobManager :=
  let m := job_table b in
  {| jobs := jobs m; in_flight := in_flight m; max_running := max_running m; Jobs.result_ttl := Jobs.result_ttl m;
     next_job := next_id b |}.

(** ** What is outside *)

Class Runtime := {
  serialize : Value -> option string;
  pretty : Value -> option string;
  store_order : gmap string Entry -> list (string * Entry);
  jobs_order : gmap string Job -> list Job;
  store_order_perm : forall m, store_order m ≡ₚ map_to_list m;
}.

Class Host (N : Type) := {
  clock : N -> Z * N;
  (** session reference, method, parameters, budget in milliseconds *)
  ask : nat -> string -> Value -> Z -> N -> Result Value * N;
  world : N -> World;
  (** the attempt to open a database: its result, the path, the reference of the session *)
  after_open : Result string -> string -> nat -> N -> N;
  (** a background task: the job, the session, the request, its budget *)
  spawn_task : string -> nat -> string -> Value -> Z -> N -> N;
  read_file : string -> N -> (string + list Z) * N;
  (** what the k-th reading of a timer started now will show *)
  stopwatch : N -> nat -> Z;
  next_child : string -> option string -> N -> Child * N;
  self_probe : N -> option bool;
  idadir_set : N -> bool;
}.

Record bstate (N : Type) := { broker : Broker; host : N }.
Arguments broker {N} b.
Arguments host {N} b.
Arguments Build_bstate {N} _ _.

Definition handler (N A : Type) : Type := bstate N -> outcome ((McpError + A) * bstate N).

Section Monad.
Context {N : Type}.

Definition retM {A} (a : A) : handler N A := fun st => Done (inr a, st).
Definition failM {A} (e : McpError) : handler N A := fun st => Done (inl e, st).
Definition bindM {A B} (t : handler N A) (k : A -> handler N B) : handler N B := fun st =>
  match t st with
  | Done (inr a, st') => k a st'
  | Done (inl e, st') => Done (inl e, st')
  | Panic => Panic
  | OutOfFuel => OutOfFuel
  end.

(** [ok_or_else(..)?] and [map_err(..)?]. *)
Definition needM {A} (o : option A) (e : McpError) : handler N A := match o with Some a => retM a | None => failM e end.
Definition resultM {A} (r : Result A) : handler N A := match r with inr a => retM a | inl e => failM (err_from e) end.
(** [map_err(|e| mcp_code(e.code(), &e.to_string()))]. *)
Definition codedM {A} (r : Result A) : handler N A :=
  match r with inr a => retM a | inl e => failM (mcp_code (code e) (to_string e)) end.
Definition panicM {A} (o : outcome A) : handler N A := fun st => match o with Done a => Done (inr a, st) | Panic => Panic | OutOfFuel => OutOfFuel end.

Definition brokerM : handler N Broker := fun st => Done (inr (broker st), st).
Definition setM (f : Broker -> Broker) : handler N unit := fun st => Done (inr tt, {| broker := f (broker st); host := host st |}).
Definition hostM {A} (f : N -> A * N) : handler N A := fun st =>
  let '(a, n) := f (host st) in Done (inr a, {| broker := broker st; host := n |}).

(** The error as a value, for a caller that reports it. *)
Definition tryM {A} (t : handler N A) : handler N (McpError + A) := fun st =>
  match t st with Done (r, st') => Done (inr r, st') | Panic => Panic | OutOfFuel => OutOfFuel end.

(** A loop that collects what its body returns. *)
Fixpoint mapM {A B} (f : A -> handler N B) (l : list A) : handler N (list B) :=
  match l with
  | [] => retM []
  | a :: l' => bindM (f a) (fun b => bindM (mapM f l') (fun bs => retM (b :: bs)))
  end.
End Monad.

(** [match s { "a" => .., "b" => .., _ => d }]. *)
Fixpoint select {A} (s : string) (arms : list (string * A)) (d : A) : A :=
  match arms with
  | [] => d
  | (k, a) :: rest => if bool_decide (s = k) then a else select s rest d
  end.

Notation "x <-! t ; k" := (bindM t (fun x => k))
  (at level 60, t at level 59, k at level 60, right associativity) : rmcp_scope.
Notation "' p <-! t ; k" := (bindM t (fun x => match x with p => k end))
  (at level 60, p pattern, t at level 59, k at level 60, right associativity) : rmcp_scope.
Notation "t ;! k" := (bindM t (fun _ => k)) (at level 60, right associativity) : rmcp_scope.

(** ** Arguments *)

Definition arg_str (args : Value) (name : string) : option string := v ← get name args; as_str v.
Definition arg_u64 (args : Value) (name : string) (d : Z) : Z := default d (v ← get name args; as_u64 v).
Definition arg_bool (args : Value) (name : string) (d : bool) : bool := default d (v ← get name args; as_bool v).

(** [parse_ea]: hexadecimal with a prefix, or decimal. *)
Definition value_ea (v : Value) : option Z :=
  match as_str v with
  | Some s0 =>
      let s := trim s0 in
      match (match strip_prefix "0x" s with Some h => Some h | None => strip_prefix "0X" s end) with
      | Some hex => ok (parse_hex_u64 hex)
      | None => ok (parse_u64 s)
      end
  | None => as_u64 v
  end.
Definition arg_ea (args : Value) (name : string) : option Z := v ← get name args; value_ea v.

(** [json!(args.get(name))]. *)
Definition arg_or_null (args : Value) (name : string) : Value := jopt id (get name args).

(** [out[k] = v] and [out[k]] as a place: an object or [null]. *)
Definition index_set (k : string) (v o : Value) : outcome Value :=
  match o with
  | JObj kvs => Done (JObj (set_assoc k v kvs))
  | JNull => Done (JObj [(k, v)])
  | _ => Panic
  end.

(** [if let Some(obj) = req.as_object_mut() { obj.remove(k); }]. *)
Definition remove_key (k : string) (o : Value) : Value :=
  match o with JObj kvs => JObj (remove_assoc k kvs) | _ => o end.

(** ** Sessions *)

Section Helpers.
Context `{!Runtime} {N : Type} `{!Host N}.

Definition resolve_db (db : option string) : handler N (string * nat) :=
  b <-! brokerM;
  let dbs := open_dbs b in
  match db, dbs with
  | Some h, _ =>
      s <-! needM (session h (pool b)) (mcp_code "unknown_db" ("db handle '" +:+ h +:+ "' is unknown or closed"));
      retM (h, s)
  | None, [(h, _)] =>
      s <-! needM (session h (pool b)) (mcp_code "unknown_db" "session gone"); retM (h, s)
  | None, [] => failM (mcp_code "unknown_db" "no db open; call ida_db(action=open) first")
  | None, _ =>
      failM (mcp_code "db_ambiguous" ("db handle omitted and " +:+ show_dec (Z.of_nat (length dbs))
        +:+ " DBs are open; specify one of: " +:+ join ", " dbs.*1))
  end.

(** [session.call] and [session.call_with_timeout], before [map_err]. *)
Definition call_raw (s : nat) (method : string) (params : Value) (default_ms : Z) : handler N (Result Value) :=
  hostM (ask s method params (call_timeout params default_ms)).

Definition call_within (s : nat) (method : string) (params : Value) (default_ms : Z) : handler N Value :=
  r <-! call_raw s method params default_ms; resultM r.

Definition call (s : nat) (method : string) (params : Value) : handler N Value := call_within s method params 120000.

Definition now : handler N Z := hostM clock.

(** [bound_output]. *)
Definition bound (tl : string) (payload : Value) : handler N Value :=
  t <-! now;
  b <-! brokerM;
  let '(v, s, id) := bound_output serialize (results b) t (next_id b) (result_threshold (config b)) tl payload in
  setM (set_results s id);! retM v.

(** [Ok(json!({"db": db, key: out}))], with [out] as it is or bounded. *)
Definition answer (db key : string) (out : Value) : handler N Value := retM (JObj [("db", JStr db); (key, out)]).
Definition answer_bound (db key tl : string) (out : Value) : handler N Value := v <-! bound tl out; answer db key v.

(** ** The janitor *)

(** One tick: expired results, finished jobs, the cap on the results. *)
Definition janitor_tick : handler N unit :=
  t1 <-! now;
  b <-! brokerM;
  let '(swept, s1) := ResultStore.sweep store_order (results b) t1 in
  setM (set_results s1 (next_id b));!
  t2 <-! now;
  b <-! brokerM;
  let '(jobs_swept, m) := Jobs.sweep t2 (jobs_at b) in
  setM (set_jobs_table m (next_id b));!
  b <-! brokerM;
  let max := result_max_entries (config b) in
  let '(capped, s2) := if (0 <? max)%Z then enforce_cap store_order (results b) (Z.to_nat max) else (0%nat, results b) in
  setM (set_results s2 (next_id b));!
  let total := (swept + capped + jobs_swept)%nat in
  if (0 <? total)%nat then setM (fun b => set_swept (wrapping_add64 (janitor_swept b) (Z.of_nat total)) b) else retM tt.
End Helpers.

(** ** Reasoning about handlers

    [safe I t Q]: from a state with [I], [t] ends in one with [I], and a value
    it returns has [Q]. *)

Section Logic.
Context {N : Type} (I : bstate N -> Prop).

Definition safe {A} (t : handler N A) (Q : A -> Prop) : Prop :=
  forall st r st', I st -> t st = Done (r, st') -> I st' /\ forall a, r = inr a -> Q a.

Lemma safe_ret {A} (a : A) (Q : A -> Prop) : Q a -> safe (retM a) Q.
Proof. intros HQ st r st' HI [= <- <-]. split; [done|]. by intros ? [= <-]. Qed.

Lemma safe_fail {A} e (Q : A -> Prop) : safe (failM e) Q.
Proof. by intros st r st' HI [= <- <-]. Qed.

Lemma safe_bind {A B} (t : handler N A) (k : A -> handler N B) P Q :
  safe t P -> (forall a, P a -> safe (k a) Q) -> safe (bindM t k) Q.
Proof.
  intros Ht Hk st r st' HI. unfold bindM. destruct (t st) as [[[e|a] st1]| |] eqn:E; [| |done..].
  - intros [= <- <-]. split; [by eapply Ht|done].
  - destruct (Ht _ _ _ HI E) as [HI1 HP]. intros Hr. by eapply (Hk a (HP a eq_refl)).
Qed.

Lemma safe_weaken {A} (t : handler N A) (P Q : A -> Prop) : (forall a, P a -> Q a) -> safe t P -> safe t Q.
Proof. intros HPQ Ht st r st' HI E. destruct (Ht _ _ _ HI E) as [? HP]. split; [done|]. intros a ->. by apply HPQ, HP. Qed.

Lemma safe_need {A} (o : option A) e (Q : A -> Prop) : (forall a, o = Some a -> Q a) -> safe (needM o e) Q.
Proof. intros H. destruct o as [a|]; [by apply safe_ret, H|apply safe_fail]. Qed.

Lemma safe_result {A} (r : Result A) (Q : A -> Prop) : (forall a, r = inr a -> Q a) -> safe (resultM r) Q.
Proof. intros H. destruct r as [e|a]; [apply safe_fail|by apply safe_ret, H]. Qed.

Lemma safe_coded {A} (r : Result A) (Q : A -> Prop) : (forall a, r = inr a -> Q a) -> safe (codedM r) Q.
Proof. intros H. destruct r as [e|a]; [apply safe_fail|by apply safe_ret, H]. Qed.

Lemma safe_panic {A} (o : outcome A) (Q : A -> Prop) : (forall a, o = Done a -> Q a) -> safe (panicM o) Q.
Proof.
  intros H st r st' HI. unfold panicM. destruct o as [a| |]; [|done..]. intros [= <- <-]. split; [done|].
  intros ? [= <-]. by apply H.
Qed.

Lemma safe_try {A} (t : handler N A) P (Q : McpError + A -> Prop) :
  safe t P -> (forall e, Q (inl e)) -> (forall a, P a -> Q (inr a)) -> safe (tryM t) Q.
Proof.
  intros Ht He Ha st r st' HI. unfold tryM. destruct (t st) as [[r0 st1]| |] eqn:E; [|done..]. intros [= <- <-].
  destruct (Ht _ _ _ HI E) as [HI' HP]. split; [done|]. intros ? [= <-]. destruct r0; auto.
Qed.

Lemma safe_mapM {A B} (f : A -> handler N B) l (Q : list B -> Prop) :
  (forall a, a ∈ l -> safe (f a) (fun _ => True)) -> (forall bs, Q bs) -> safe (mapM f l) Q.
Proof.
  intros Hf HQ. revert Hf. assert (forall l, (forall a, a ∈ l -> safe (f a) (fun _ => True)) -> safe (mapM f l) (fun _ => True)) as H.
  { clear l. induction l as [|a l IH]; intros Hf; cbn [mapM]; [by apply safe_ret|].
    eapply safe_bind; [apply Hf; left|]. intros b _. eapply safe_bind; [apply IH; intros; apply Hf; by right|].
    intros bs _. by apply safe_ret. }
  intros Hf. eapply safe_weaken; [|by apply H]. auto.
Qed.

Lemma safe_select {A} (s : string) (arms : list (string * handler N A)) d Q :
  Forall (fun ka => safe ka.2 Q) arms -> safe d Q -> safe (select s arms d) Q.
Proof. intros Ha Hd. induction Ha as [|[k a] arms H _ IH]; cbn [select]; [done|]. by case_bool_decide. Qed.

Lemma safe_broker (Q : Broker -> Prop) : (forall st, I st -> Q (broker st)) -> safe brokerM Q.
Proof. intros H st r st' HI [= <- <-]. split; [done|]. intros ? [= <-]. by apply H. Qed.

Lemma safe_set f (Q : unit -> Prop) :
  (forall st, I st -> I {| broker := f (broker st); host := host st |}) -> Q tt -> safe (setM f) Q.
Proof. intros H HQ st r st' HI [= <- <-]. split; [by apply H|]. by intros [] _. Qed.

Lemma safe_host {A} (f : N -> A * N) (Q : A -> Prop) :
  (forall st, I st -> I {| broker := broker st; host := (f (host st)).2 |} /\ Q (f (host st)).1) -> safe (hostM f) Q.
Proof.
  intros H st r st' HI. unfold hostM. destruct (H st HI) as [HI' HQ]. destruct (f (host st)) as [a n].
  intros [= <- <-]. split; [done|]. by intros ? [= <-].
Qed.
End Logic.

(** ** The janitor bounds the stores *)

Section Janitor.
Context `{!Runtime} {N : Type} `{!Host N}.

(** The two stages on the results: [kept] of the unexpired entries stay. *)
Lemma sweep_and_cap (s s1 s2 : ResultStore) (t max : Z) (k1 k2 : nat) :
  ResultStore.sweep store_order s t = (k1, s1) ->
  (if (0 <? max)%Z then enforce_cap store_order s1 (Z.to_nat max) else (0%nat, s1)) = (k2, s2) ->
  let live := visible t (entries s) in
  entries s2 ⊆ live
  /\ size (entries s2) = (if (0 <? max)%Z then Nat.min (Z.to_nat max) (size live) else size live)
  /\ (k1 + k2 + size (entries s2) = size (entries s))%nat
  /\ (forall h1 h2 e1 e2, live !! h1 = Some e1 -> entries s2 !! h1 = None -> entries s2 !! h2 = Some e2 ->
       (created e1 <= created e2)%Z).
Proof.
  intros Hs Hc. apply (sweep_exact store_order store_order_perm) in Hs as [He Hk]. cbn zeta.
  destruct (0 <? max)%Z.
  - apply (enforce_cap_bounds store_order store_order_perm) in Hc as (Hl & -> & Hsub & Hold). unfold len in *.
    rewrite He in *. split; [done|]. split; [done|]. split; [lia|done].
  - injection Hc as <- <-. rewrite He. split; [done|]. split; [done|]. split; [lia|]. congruence.
Qed.

(** A tick of the janitor bounds the broker's memory and loses nothing it
    should keep: no expired result is left, with a cap exactly the smaller of
    the cap and the number of unexpired results is left and whatever was
    evicted is at least as old as whatever was kept, finished jobs past their
    lifetime are gone and every other job is as it was, the sessions are
    untouched, and the lifetime counter grows by exactly what was removed. *)
Theorem janitor_tick_exact (st : bstate N) :
  let b := broker st in
  let t1 := (clock (host st)).1 in
  let t2 := (clock (clock (host st)).2).1 in
  let live := visible t1 (entries (results b)) in
  let max := result_max_entries (config b) in
  exists st', janitor_tick st = Done (inr tt, st') /\
    let b' := broker st' in
    entries (results b') ⊆ live
    /\ size (entries (results b')) = (if (0 <? max)%Z then Nat.min (Z.to_nat max) (size live) else size live)
    /\ (forall h1 h2 e1 e2, live !! h1 = Some e1 -> entries (results b') !! h1 = None ->
         entries (results b') !! h2 = Some e2 -> (created e1 <= created e2)%Z)
    /\ (forall i, jobs (job_table b') !! i =
         (j ← jobs (job_table b) !! i; if is_expired (Jobs.result_ttl (job_table b)) t2 j then None else Some j))
    /\ pool b' = pool b /\ open_dbs b' = open_dbs b
    /\ (is_u64 (janitor_swept b) -> janitor_swept b' =
         (janitor_swept b + Z.of_nat (size (entries (results b)) - size (entries (results b')) + (Jobs.sweep t2 (jobs_at b)).1))
           mod u64_modulus)%Z.
Proof.
  cbn zeta. unfold janitor_tick, bindM, now, hostM, brokerM, setM. destruct (clock (host st)) as [t1 n1]. cbn [fst snd broker host].
  destruct (ResultStore.sweep store_order (results (broker st)) t1) as [k1 s1] eqn:Hs. cbn [broker host].
  destruct (clock n1) as [t2 n2]. cbn [fst snd broker host].
  change (jobs_at (set_results s1 (next_id (broker st)) (broker st))) with (jobs_at (broker st)).
  destruct (Jobs.sweep t2 (jobs_at (broker st))) as [kj m] eqn:Hj. cbn [broker host config set_results set_jobs_table results fst].
  set (max := result_max_entries (config (broker st))).
  destruct (if (0 <? max)%Z then _ else _) as [k2 s2] eqn:Hc. cbn [broker host].
  destruct (sweep_and_cap _ _ _ _ _ _ _ Hs Hc) as (H1 & H2 & H3 & H4).
  assert (forall i, jobs m !! i = (j ← jobs (job_table (broker st)) !! i;
    if is_expired (Jobs.result_ttl (job_table (broker st))) t2 j then None else Some j)) as Hjobs.
  { intros i. pose proof (Jobs.sweep_lookup t2 (jobs_at (broker st)) i) as Hl. by rewrite Hj in Hl. }
  destruct (Nat.ltb_spec 0 (k1 + k2 + kj)); eexists; (split; [reflexivity|]); cbn [broker host set_swept results entries job_table
    pool open_dbs janitor_swept set_results set_jobs_table]; do 6 (split; [done|]).
  - intros _. unfold wrapping_add64. f_equal. lia.
  - intros Hu. assert (size (entries (results (broker st))) - size (entries s2) + kj = 0)%nat as -> by lia.
    rewrite Z.add_0_r, Z.mod_small; [done|exact Hu].
Qed.
End Janitor.
