(* ===== verification/Tools.v ===== *)
(** * Tools: the IDA tools of the MCP surface

    Models [rmcp-broker/src/tools.rs]: one handler per tool, over the state
    and the helpers of [Broker].  A [match] on an action or a task is a
    [select]; the guards and early returns come in the order of the source. *)

From stdpp Require Import base list gmap strings.
From Stdlib Require Import ZArith Lia.
From S2P Require Import Prelude Text Handles Protocol ResultStore Discovery Pump Pool Jobs Isolation Config Json Errors Broker.

Local Open Scope rmcp_scope.

Definition invalid_args (m : string) : McpError := mcp_code "invalid_args" m.
Definition unknown (what other options : string) : McpError :=
  invalid_args ("unknown " +:+ what +:+ " '" +:+ other +:+ "'" +:+ options).
(** The task dispatchers of the analyses report without a stable code. *)
Definition unknown_task (other options : string) : McpError :=
  invalid_params ("unknown task '" +:+ other +:+ "' " +:+ options).

Definition jmin (x cap : Z) : Value := JNum (Z.min x cap).
Definition no_params : Value := JObj [].
Definition error_value (e : McpError) : Value :=
  JObj [("error", JObj [("code", JNum (mcp_num e)); ("message", JStr (mcp_message e))])].

(** serde's view of an installation. *)
Definition version_value (v : Version) : Value :=
  JObj [("major", JNum (major v)); ("minor", JNum (minor v)); ("build", JNum (build v))].
Definition arch_value (a : Arch) : Value := JStr (match a with X64 => "x64" | Arm64 => "arm64" end).
Definition decompiler_value (d : Decompiler) : Value := JObj [("name", JStr (dec_name d)); ("path", JStr (dec_path d))].
Definition source_value (s : DiscoverySource) : Value :=
  JStr (match s with
        | Explicit => "explicit" | EnvVar => "env_var" | ConfigFile => "config" | OsNative => "os_native"
        | CommonPaths => "common_paths" | RegHint => "reg_hint" | DriveScan => "drive_scan"
        end).
Definition status_value (s : BackendStatus) : Value :=
  JStr (match s with Ready => "ready" | AvailableUnverified => "available_unverified" | Unavailable => "unavailable" end).
Definition installation_value (i : IdaInstallation) : Value :=
  JObj [("root", JStr (root i)); ("version", version_value (version i)); ("arch", arch_value (arch i));
        ("idalib", JStr (idalib i)); ("ida", JStr (ida i)); ("decompilers", JArr (decompiler_value <$> decompilers i));
        ("source", source_value (source i)); ("backend", status_value (Discovery.backend i))].

Definition health_text (h : WorkerHealth) : string :=
  match h with Healthy => "healthy" | Crashed => "crashed" | Recovering => "recovering" | Dead => "dead" end.

Section Tools.
Context `{!Runtime} {N : Type} `{!Host N}.
Abbreviation tool := (handler N Value).

(** [resolve_db(broker, arg_str(&args, "db"))]. *)
Definition session_of (args : Value) : handler N (string * nat) := resolve_db (arg_str args "db").
Definition need_ea (args : Value) (key m : string) : handler N Z := needM (arg_ea args key) (invalid_args m).
Definition need_arg_str (args : Value) (key m : string) : handler N string := needM (arg_str args key) (invalid_args m).
Definition need_arg (args : Value) (key m : string) : handler N Value := needM (get key args) (invalid_args m).
Definition revision_arg (args : Value) : string * Value := ("expected_revision", arg_or_null args "expected_revision").

(** ** Databases *)

Definition tool_capabilities (args : Value) : tool :=
  '(db, s) <-! session_of args;
  caps <-! call s "capabilities" no_params;
  info <-! call s "db.info" no_params;
  b <-! brokerM;
  out <-! panicM (index_set "db" (JStr db) caps);
  out <-! panicM (index_set "identity" (JObj
    [("backend", arg_or_null info "processor"); ("bits", arg_or_null info "bits");
     ("decompiler", arg_or_null info "decompiler"); ("ida_version", arg_or_null info "ida_version");
     ("revision", arg_or_null info "revision")]) out);
  panicM (index_set "budgets" (JObj
    [("default_function_limit", JNum 100); ("max_limit_per_call", JNum 1000);
     ("result_threshold", JNum (result_threshold (config b)));
     ("result_ttl_seconds", JNum (as_secs (Config.result_ttl (config b))));
     ("mutation_revision_guard", JStr "expected_revision on every mutating call; stale -> revision_conflict")]) out).

(** [ida_db action=open]: the pool spawns the worker; the handle joins the list. *)
Definition spawn (path kind ver : string) : handler N (Result string) := fun st =>
  let b := broker st in
  let w := world (host st) in
  let '(r, p) := spawn_for w (pool_at b) path (max_workers (config b)) kind ver in
  let dbs := match r with inr h => open_dbs b ++ [(h, path)] | inl _ => open_dbs b end in
  Done (inr r, {| broker := set_pool p dbs (next_handle p) b; host := after_open r path (next_ref (pool b)) (host st) |}).

Definition db_open (args : Value) : tool :=
  path <-! need_arg_str args "path" "open requires 'path'";
  r <-! spawn path (default "auto" (arg_str args "backend")) (default "" (arg_str args "ida_version"));
  handle <-! resultM r;
  b <-! brokerM;
  info <-! match session handle (pool b) with
           | Some s => r <-! call_raw s "db.info" no_params 120000; retM (match r with inr v => v | inl _ => no_params end)
           | None => retM no_params
           end;
  info <-! bound "ida_db" info;
  retM (JObj [("db", JStr handle); ("path", JStr path); ("info", info)]).

Definition db_close (args : Value) : tool :=
  '(db, s) <-! session_of args;
  call s "db.save" no_params;!
  call s "db.close" no_params;!
  call s "shutdown" no_params;!
  setM (fun b => set_pool (set_sessions (filter (fun hs => hs.1 <> db) (sessions (pool b))) (Pool.store (pool b)) (pool b))
                   (filter (fun hp => hp.1 <> db) (open_dbs b)) (next_id b) b);!
  retM (JObj [("db", JStr db); ("closed", JBool true)]).

Definition tool_db (args : Value) : tool :=
  let action := default "info" (arg_str args "action") in
  select action
    [("open", db_open args);
     ("info", '(db, s) <-! session_of args; info <-! call s "db.info" no_params; answer_bound db "info" "ida_db" info);
     ("save", '(db, s) <-! session_of args; call s "db.save" no_params;! retM (JObj [("db", JStr db); ("saved", JBool true)]));
     ("close", db_close args);
     ("list", b <-! brokerM;
        retM (JObj [("dbs", JArr ((fun hp => JArr [JStr hp.1; JStr hp.2]) <$> list_sessions (pool b)))]))]
    (failM (unknown "action" action "")).

(** ** Reading *)

Definition tool_functions (args : Value) : tool :=
  '(db, s) <-! session_of args;
  out <-! call s "functions" (JObj [("offset", JNum (arg_u64 args "offset" 0)); ("limit", jmin (arg_u64 args "limit" 100) 1000)]);
  answer_bound db "functions" "ida_functions" out.

Definition tool_inspect (args : Value) : tool :=
  '(db, s) <-! session_of args;
  ea <-! need_ea args "ea" "inspect requires 'ea' (hex or decimal)";
  f <-! call s "function_at" (JObj [("ea", JNum ea)]);
  comment <-! call s "get_comment" (JObj [("ea", JNum ea); ("repeatable", JBool false)]);
  bytes <-! call s "get_bytes" (JObj [("ea", JNum ea); ("size", JNum 16)]);
  retM (JObj [("db", JStr db); ("ea", JStr (show_0x ea)); ("function", f); ("comment", comment); ("bytes", bytes)]).

Definition tool_disassemble (args : Value) : tool :=
  '(db, s) <-! session_of args;
  ea <-! need_ea args "ea" "disassemble requires 'ea'";
  out <-! call s "disassemble" (JObj [("ea", JNum ea); ("end", arg_or_null args "end");
                                     ("max_insns", jmin (arg_u64 args "max_insns" 200) 5000)]);
  answer_bound db "insns" "ida_disassemble" out.

Definition tool_decompile (args : Value) : tool :=
  '(db, s) <-! session_of args;
  ea <-! need_ea args "ea" "decompile requires 'ea'";
  out <-! call s "decompile" (JObj [("ea", JNum ea)]);
  answer_bound db "pseudocode" "ida_decompile" out.

Definition tool_xrefs (args : Value) : tool :=
  '(db, s) <-! session_of args;
  ea <-! need_ea args "ea" "xrefs requires 'ea'";
  let dir := default "to" (arg_str args "direction") in
  let method := if bool_decide (dir = "from") then "xrefs_from" else "xrefs_to" in
  out <-! call s method (JObj [("ea", JNum ea)]);
  v <-! bound "ida_xrefs" out;
  retM (JObj [("db", JStr db); ("direction", JStr dir); ("xrefs", v)]).

Definition tool_graph (args : Value) : tool :=
  '(db, s) <-! session_of args;
  ea <-! need_ea args "ea" "graph requires 'ea'";
  let k := default "calls" (arg_str args "kind") in
  kind <-! select k [("calls", retM "calls"); ("cfg", retM "cfg")] (failM (unknown "graph kind" k " (calls|cfg)"));
  out <-! call s "graph" (JObj [("ea", JNum ea); ("kind", JStr kind); ("depth", jmin (arg_u64 args "depth" 1) 5);
    ("max_nodes", jmin (arg_u64 args "max_nodes" 200) 5000); ("max_edges", jmin (arg_u64 args "max_edges" 400) 10000)]);
  answer_bound db "graph" "ida_graph" out.

Definition tool_search (args : Value) : tool :=
  '(db, s) <-! session_of args;
  out <-! (if bool_decide (default "text" (arg_str args "kind") = "immediate") then
             v <-! needM (v ← get "value" args; as_u64 v) (invalid_args "immediate search requires 'value'");
             call s "search_immediate" (JObj [("value", JNum v); ("limit", JNum (arg_u64 args "limit" 50))])
           else
             needle <-! need_arg_str args "text" "text search requires 'text'";
             call s "search_text" (JObj [("needle", JStr needle); ("limit", JNum (arg_u64 args "limit" 50))]));
  answer_bound db "hits" "ida_search" out.

Definition tool_segments (args : Value) : tool :=
  '(db, s) <-! session_of args; out <-! call s "segments" no_params; answer db "segments" out.

Definition tool_metadata (args : Value) : tool :=
  '(db, s) <-! session_of args; out <-! call s "db.metadata" no_params; answer_bound db "metadata" "ida_metadata" out.

Definition tool_imports (args : Value) : tool :=
  '(db, s) <-! session_of args;
  out <-! call s "imports.list" (JObj [("module", arg_or_null args "module"); ("offset", JNum (arg_u64 args "offset" 0));
                                      ("limit", jmin (arg_u64 args "limit" 100) 1000)]);
  answer_bound db "imports" "ida_imports" out.

Definition tool_fixups (args : Value) : tool :=
  '(db, s) <-! session_of args;
  out <-! call s "fixups.list" (JObj [("offset", JNum (arg_u64 args "offset" 0)); ("limit", jmin (arg_u64 args "limit" 100) 1000)]);
  answer_bound db "fixups" "ida_fixups" out.

Definition tool_filemap (args : Value) : tool :=
  '(db, s) <-! session_of args;
  value <-! need_ea args "value" "filemap requires 'value' (ea or file offset)";
  out <-! call s "file.map" (JObj [("value", JNum value); ("to_ea", JBool (arg_bool args "to_ea" false))]);
  answer db "map" out.

Definition tool_analysis (args : Value) : tool :=
  '(db, s) <-! session_of args; out <-! call s "analyze_wait" no_params; answer db "analysis" out.

Definition tool_insn (args : Value) : tool :=
  '(db, s) <-! session_of args;
  let action := default "features" (arg_str args "action") in
  out <-! select action
    [("features", ea <-! need_ea args "ea" "features requires 'ea'"; call s "insn.features" (JObj [("ea", JNum ea)]));
     ("demangle", name <-! need_arg_str args "name" "demangle requires 'name'"; call s "names.demangle" (JObj [("name", JStr name)]))]
    (failM (unknown "insn action" action " (features|demangle)"));
  answer db "result" out.

(** ** Changing *)

Definition tool_bytes (args : Value) : tool :=
  '(db, s) <-! session_of args;
  ea <-! need_ea args "ea" "bytes requires 'ea'";
  if bool_decide (default "get" (arg_str args "action") = "patch") then
    hex <-! need_arg_str args "hex" "patch requires 'hex'";
    out <-! call s "patch_bytes" (JObj [("ea", JNum ea); ("hex", JStr hex); revision_arg args]);
    answer db "outcome" out
  else
    out <-! call s "get_bytes" (JObj [("ea", JNum ea); ("size", jmin (arg_u64 args "size" 16) 4096)]);
    answer db "bytes" out.

Definition tool_types (args : Value) : tool :=
  '(db, s) <-! session_of args;
  let action := default "get" (arg_str args "action") in
  let view :=
    out <-! call s "types" (JObj [("name", jopt JStr (arg_str args "name"))]); answer_bound db "types" "ida_types" out in
  select action
    [("set",
      match arg_str args "decl", get "ea" args with
      | Some decl, Some ea_val =>
          ea <-! needM (value_ea ea_val) (invalid_args "bad ea");
          out <-! call s "set_type" (JObj [("ea", JNum ea); ("decl", JStr decl); revision_arg args]);
          answer db "outcome" out
      | _, _ => failM (invalid_args "set requires 'decl' and 'ea'")
      end);
     ("list", view); ("get", view)]
    (failM (unknown "action" action "")).

Definition tool_edit (args : Value) : tool :=
  '(db, s) <-! session_of args;
  ea <-! need_ea args "ea" "edit requires 'ea'";
  match arg_str args "rename" with
  | Some name =>
      out <-! call s "rename" (JObj [("ea", JNum ea); ("name", JStr name); revision_arg args]); answer db "outcome" out
  | None =>
  match arg_str args "comment" with
  | Some comment =>
      out <-! call s "set_comment" (JObj [("ea", JNum ea); ("comment", JStr comment);
        ("repeatable", JBool (arg_bool args "repeatable" false)); revision_arg args]);
      answer db "outcome" out
  | None => failM (invalid_args "edit requires 'rename' or 'comment'")
  end end.

Definition tool_func (args : Value) : tool :=
  '(db, s) <-! session_of args;
  let action := default "tails" (arg_str args "action") in
  out <-! select action
    [("tails", ea <-! need_ea args "ea" "tails requires 'ea'"; call s "func.tails" (JObj [("ea", JNum ea)]));
     ("create", start <-! need_ea args "start" "create requires 'start'";
        call s "func.create" (JObj [("start", JNum start); ("end", arg_or_null args "end"); revision_arg args]));
     ("delete", ea <-! need_ea args "ea" "delete requires 'ea'"; call s "func.delete" (JObj [("ea", JNum ea); revision_arg args]));
     ("resize", ea <-! need_ea args "ea" "resize requires 'ea'";
        call s "func.resize" (JObj [("ea", JNum ea); ("new_start", arg_or_null args "new_start");
                                    ("new_end", arg_or_null args "new_end"); revision_arg args]));
     ("switch_info", ea <-! need_ea args "ea" "switch_info requires 'ea'"; call s "func.switch_info" (JObj [("ea", JNum ea)]));
     ("sp_delta", ea <-! need_ea args "ea" "sp_delta requires 'ea'"; call s "func.sp_delta" (JObj [("ea", JNum ea)]))]
    (failM (unknown "func action" action " (tails|create|delete|resize|switch_info|sp_delta)"));
  retM (JObj [("db", JStr db); ("action", JStr action); ("result", out)]).

Definition tool_hr (args : Value) : tool :=
  '(db, s) <-! session_of args;
  ea <-! need_ea args "ea" "hr requires 'ea'";
  let action := default "cfunc" (arg_str args "action") in
  select action
    [("cfunc",
      out <-! call s "hr.cfunc" (JObj [("ea", JNum ea); ("include_ctree", JBool (arg_bool args "include_ctree" true));
        ("include_lvars", JBool (arg_bool args "include_lvars" true)); ("limit", jmin (arg_u64 args "limit" 2000) 50000)]);
      answer_bound db "cfunc" "ida_hr" out);
     ("lvar_rename",
      var_defea <-! need_ea args "var_defea" "lvar_rename requires 'var_defea'";
      name <-! need_arg_str args "name" "lvar_rename requires 'name'";
      out <-! call s "hr.lvar_rename" (JObj [("ea", JNum ea); ("var_defea", JNum var_defea); ("name", JStr name); revision_arg args]);
      answer db "outcome" out);
     ("microcode",
      out <-! call s "hr.microcode" (JObj [("ea", JNum ea); ("maturity", JNum (arg_u64 args "maturity" 0));
        ("max_insns", jmin (arg_u64 args "max_insns" 2000) 20000)]);
      answer_bound db "microcode" "ida_hr" out)]
    (failM (unknown "hr action" action " (cfunc|microcode|lvar_rename)")).

Definition tool_mutation (args : Value) : tool :=
  '(db, s) <-! session_of args;
  let action := default "plan" (arg_str args "action") in
  let operations m k := ops <-! need_arg args "operations" m; call s k (JObj [("operations", ops); revision_arg args]) in
  out <-! select action
    [("plan", operations "plan requires 'operations'" "plan.mutations");
     ("apply", operations "apply requires 'operations'" "plan.apply");
     ("audit", call s "mutation.audit" (JObj [("limit", JNum (arg_u64 args "limit" 100))]));
     ("snapshot", call s "snapshot.create" no_params);
     ("rollback", call s "snapshot.restore" no_params)]
    (failM (unknown "mutation action" action " (plan|apply|audit|snapshot|rollback)"));
  answer db "mutation" out.

(** ** Analyses *)

Definition value_keys : list string := ["depth"; "max_functions"; "max_calls"; "max_iterations"; "timeout_ms"].

Definition tool_value (args : Value) : tool :=
  '(db, s) <-! session_of args;
  ea <-! need_ea args "ea" "value requires 'ea'";
  let params := foldl (fun kvs key => match v ← get key args; as_u64 v with
                                      | Some v => set_assoc key (JNum v) kvs
                                      | None => kvs
                                      end) [("ea", JNum ea)] value_keys in
  out <-! call s "value.propagate" (JObj params);
  answer_bound db "value" "ida_value" out.

Definition tool_analyze (args : Value) : tool :=
  '(db, s) <-! session_of args;
  out <-! call s "workflow.run" (JObj [("workflow_req", remove_key "db" args)]);
  answer db "analysis" out.

Definition tool_deep (args : Value) : tool :=
  '(db, s) <-! session_of args;
  let task := default "deep_function" (arg_str args "task") in
  method <-! select task [("deep_function", retM "deep.function"); ("trace_dataflow", retM "deep.dataflow"); ("retype", retM "deep.retype")]
    (failM (unknown_task task "(deep_function|trace_dataflow|retype)"));
  out <-! call_within s method args 600000;
  answer db "deep" out.

Definition tool_type_recovery (args : Value) : tool :=
  '(db, s) <-! session_of args;
  let task := default "propose" (arg_str args "task") in
  method <-! select task [("evidence", retM "types.evidence"); ("propose", retM "types.propose"); ("vtable", retM "types.vtable");
                          ("create_struct", retM "types.apply")]
    (failM (unknown_task task "(evidence|propose|vtable|create_struct)"));
  out <-! call s method args;
  answer db "types" out.

Definition tool_intel (args : Value) : tool :=
  '(db, s) <-! session_of args;
  let task := default "crypto_scan" (arg_str args "task") in
  method <-! select task [("crypto_scan", retM "intel.crypto"); ("resolve_api_hashes", retM "intel.api_hashes");
                          ("recover_strings", retM "intel.strings"); ("packs_list", retM "intel.packs")]
    (failM (unknown_task task "(crypto_scan|resolve_api_hashes|recover_strings|packs_list)"));
  out <-! call_within s method args 600000;
  answer db "intel" out.

Definition tool_deobfuscate (args : Value) : tool :=
  '(db, s) <-! session_of args;
  let task := default "analyze" (arg_str args "task") in
  out <-! select task
    [("analyze", call_within s "deob.run" args 300000);
     ("propose", call_within s "deob.propose" args 300000);
     ("validate", plan <-! need_arg args "plan" "validate requires 'plan'"; call s "deob.validate" (JObj [("plan", plan)]));
     ("apply", plan <-! need_arg args "plan" "apply requires 'plan'";
        call_within s "deob.apply" (JObj [("plan", plan); revision_arg args]) 300000);
     ("rollback", call s "snapshot.restore" no_params)]
    (failM (unknown "deobfuscate task" task " (analyze|propose|validate|apply|rollback)"));
  answer db "deob" out.

Definition tool_sig (args : Value) : tool :=
  '(db, s) <-! session_of args;
  let task := default "export" (arg_str args "task") in
  method <-! select task [("export", retM "sig.export"); ("identify", retM "sig.identify"); ("map", retM "sig.map")]
    (failM (unknown_task task "(export|identify|map)"));
  out <-! call_within s method args 300000;
  answer db "sig" out.

(** The hits of a query, cut to the agent's limit.  [out["hits"]] as a place
    adds the key, and panics on an answer that is neither an object nor [null]. *)
Definition limit_hits (args out : Value) : outcome Value :=
  match v ← get "limit" args; as_u64 v with
  | None => Done out
  | Some limit =>
      out <~ match out with JObj kvs => Done (JObj (if assoc "hits" kvs then kvs else set_assoc "hits" JNull kvs))
                          | JNull => Done (JObj [("hits", JNull)])
                          | _ => Panic
             end;
      match as_array (out @@ "hits") with
      | None => Done out
      | Some hits =>
          let cut := take (Z.to_nat limit) hits in
          out <~ index_set "hits" (JArr cut) out; index_set "count" (jnat (length cut)) out
      end
  end.

Definition tool_evidence (args : Value) : tool :=
  '(db, s) <-! session_of args;
  let action := default "query" (arg_str args "action") in
  out <-! select action
    [("build", call s "index.build" no_params);
     ("status", call s "index.status" no_params);
     ("query", query <-! need_arg args "query" "evidence query requires 'query'";
        out <-! call s "index.query" (JObj [("query", query)]);
        panicM (limit_hits args out))]
    (failM (unknown "evidence action" action " (query|build|status)"));
  answer db "evidence" out.

(** ** Batches *)

(** [run_named]. *)
Definition run_named (tl : string) (args : Value) : tool :=
  select tl
    [("ida_functions", tool_functions args); ("ida_inspect", tool_inspect args); ("ida_disassemble", tool_disassemble args);
     ("ida_decompile", tool_decompile args); ("ida_xrefs", tool_xrefs args); ("ida_search", tool_search args);
     ("ida_bytes", tool_bytes args); ("ida_types", tool_types args); ("ida_segments", tool_segments args);
     ("ida_metadata", tool_metadata args); ("ida_imports", tool_imports args); ("ida_fixups", tool_fixups args);
     ("ida_filemap", tool_filemap args); ("ida_func", tool_func args); ("ida_hr", tool_hr args);
     ("ida_value", tool_value args); ("ida_insn", tool_insn args)]
    (failM (invalid_args ("batch cannot run '" +:+ tl +:+ "'"))).

Definition batch_op (iop : nat * Value) : tool :=
  let tl := default "" (arg_str iop.2 "tool") in
  r <-! tryM (run_named tl (default no_params (get "args" iop.2)));
  retM (JObj [("index", jnat iop.1); ("tool", JStr tl); ("result", match r with inr v => v | inl e => error_value e end)]).

Definition tool_batch (args : Value) : tool :=
  let ops := default [] (v ← get "operations" args; as_array v) in
  if (20 <? length ops)%nat then failM (invalid_args "batch limited to 20 operations")
  else results <-! mapM batch_op (imap pair ops); retM (JObj [("results", JArr results)]).

(** ** Stored results *)

Definition meta_value (m : StoredResultMeta) : Value :=
  JObj [("handle", JStr (meta_handle m)); ("tool", JStr (meta_tool m)); ("total_len", JNum (meta_total_len m));
        ("ttl_secs", JNum (meta_ttl_secs m)); ("age_secs", JNum (meta_age_secs m))].

Definition tool_result (args : Value) : tool :=
  let action := default "read" (arg_str args "action") in
  select action
    [("read", handle <-! need_arg_str args "handle" "read requires 'handle'";
        t <-! now; b <-! brokerM;
        let '(r, s) := ResultStore.get (results b) t handle in
        setM (set_results s (next_id b));! codedM r);
     ("metadata", handle <-! need_arg_str args "handle" "metadata requires 'handle'";
        t <-! now; b <-! brokerM; m <-! codedM (metadata (results b) t handle); retM (meta_value m));
     ("find", needle <-! need_arg_str args "text" "find requires 'text'";
        t <-! now; b <-! brokerM;
        retM (JObj [("handles", JArr (JStr <$> ResultStore.find serialize store_order (results b) t needle))]));
     ("release", handle <-! need_arg_str args "handle" "release requires 'handle'";
        b <-! brokerM;
        let '(r, s) := release (results b) handle in
        setM (set_results s (next_id b));! codedM r;! retM (JObj [("released", JStr handle)]))]
    (failM (unknown "action" action "")).

(** ** Background jobs *)

Definition MUTATING : list string :=
  ["patch_bytes"; "set_comment"; "rename"; "set_type"; "func.create"; "func.delete"; "func.resize"; "hr.lvar_rename";
   "deep.retype"; "types.apply"; "deob.apply"; "plan.apply"; "snapshot.restore"].

Definition job_budget (params : Value) : Z :=
  match v ← get "timeout_ms" params; as_u64 v with Some ms => clamp 5000 1800000 ms | None => 600000 end.

Definition jobs_start (args : Value) : tool :=
  method <-! need_arg_str args "method" "start requires 'method'";
  '(db, s) <-! resolve_db (arg_str args "db");
  if bool_decide (method ∈ MUTATING) then
    failM (invalid_args "mutation methods cannot be backgrounded; run them synchronously")
  else
    let params := default no_params (get "params" args) in
    t <-! now;
    b <-! brokerM;
    rm <-! panicM (Jobs.start (fun v => default "" (serialize v)) t db method params (jobs_at b));
    setM (set_jobs_table rm.2 (next_job rm.2));!
    id <-! codedM rm.1;
    hostM (fun n => (tt, spawn_task id s method params (call_timeout params (job_budget params)) n));!
    retM (JObj [("job", JStr id); ("db", JStr db); ("method", JStr method); ("status", JStr "running");
                ("note", JStr "agent can keep working; ida_jobs action=status/result to collect")]).

Definition tool_jobs (args : Value) : tool :=
  let action := default "list" (arg_str args "action") in
  select action
    [("start", jobs_start args);
     ("status", id <-! need_arg_str args "job" "status requires 'job'";
        t <-! now; b <-! brokerM; codedM (Jobs.status t id (jobs_at b)));
     ("result", id <-! need_arg_str args "job" "result requires 'job'";
        t <-! now; b <-! brokerM; out <-! codedM (Jobs.result t id (jobs_at b)); bound "ida_jobs" out);
     ("list", t <-! now; b <-! brokerM; retM (JObj [("jobs", JArr (list_jobs t (jobs_order (jobs (job_table b)))))]));
     ("cancel", id <-! need_arg_str args "job" "cancel requires 'job'";
        t <-! now; b <-! brokerM;
        let '(r, m) := cancel t id (jobs_at b) in
        setM (set_jobs_table m (next_id b));! codedM r)]
    (failM (unknown "jobs action" action " (start|status|result|list|cancel)")).

(** ** Installations and health *)

Definition dquote : string := of_codes [34%Z].

Definition tool_installations (args : Value) : tool :=
  b <-! brokerM;
  m <-! hostM (fun n => (machine (world n), n));
  retM (JObj [("installations", JArr (installation_value <$> discover_all m (cfg_ida_dir (config b))));
              ("hint", JStr (join dquote ["pass ida_version to ida_db(action=open): exact "; "9.2"; ", "; "latest"; ", or a range ";
                 ">=9.2,<9.4"; "; omit to auto-select (backend-ready highest version)"]))]).

Definition runtime_dlls : list string := ["ida.dll"; "idalib.dll"].

(** Which of the runtime libraries an installation has. *)
Definition dlls_present (w : World) (i : IdaInstallation) : list (string * bool) :=
  (fun d => (d, path_exists w (path_join (machine w) (root i) d))) <$> runtime_dlls.

Definition health_row (w : World) (i : IdaInstallation) : Value :=
  JObj [("root", JStr (root i)); ("version", version_value (version i)); ("source", JStr (source_as_str (source i)));
        ("backend", status_value (Discovery.backend i)); ("decompilers", JArr (decompiler_value <$> decompilers i));
        ("runtime_dlls", JArr ((fun dp => JObj [("dll", JStr dp.1); ("present", JBool dp.2)]) <$> dlls_present w i))].

Definition health_hint (none healthy probe_ok : bool) : string :=
  (if none then "No IDA installation discovered; set IDADIR or add the IDA install dir to PATH. "
   else if negb healthy then "IDA installations found but the runtime DLLs are incomplete; verify the install. " else "")
  +:+ ((if negb probe_ok then "Worker binary probe failed; the reverse-mcp exe may be broken or blocked. " else "")
  +:+ (if healthy then "All checks passed; open a database with ida_db(action=open)." else "")).

(** The open sessions with the health of their workers. *)
Definition session_rows (b : Broker) : list Value :=
  omap (fun hp => s ← session hp.1 (pool b); x ← Pool.store (pool b) !! s;
                  Some (JObj [("db", JStr hp.1); ("path", JStr hp.2); ("health", JStr (health_text (s_health x)));
                              ("worker_pid", JNum (pid (s_hello x)))])) (open_dbs b).

(** [pool.ensure_worker_exe().is_ok() && pool.worker_has_idalib_feature()]. *)
Definition probe_feature (w : World) (p : WorkerPool) : bool * WorkerPool :=
  let '(e, p1) := ensure_worker_exe w p in
  if is_ok e then worker_has_idalib_feature w p1 else (false, p1).

Definition tool_health (args : Value) : tool :=
  b <-! brokerM;
  w <-! hostM (fun n => (world n, n));
  probe <-! hostM (fun n => (self_probe n, n));
  idadir <-! hostM (fun n => (idadir_set n, n));
  let installs := discover_all (machine w) (cfg_ida_dir (config b)) in
  let probe_ok := default false probe in
  let healthy := probe_ok && existsb (fun i => forallb snd (dlls_present w i)) installs in
  let '(feature, p) := probe_feature w (pool b) in
  setM (set_pool p (open_dbs b) (next_id b));!
  b <-! brokerM;
  retM (JObj [("healthy", JBool healthy); ("worker_probe_ok", JBool probe_ok); ("idalib_feature", JBool feature);
              ("idadir_set", JBool idadir); ("installations", JArr (health_row w <$> installs));
              ("sessions", JArr (session_rows b));
              ("result_store", JObj [("entries", jnat (len (results b))); ("max_entries", JNum (result_max_entries (config b)));
                                     ("ttl_secs", JNum (as_secs (Config.result_ttl (config b))));
                                     ("janitor_swept_total", JNum (janitor_swept b))]);
              ("hint", JStr (health_hint (length installs =? 0)%nat healthy probe_ok))]).
End Tools.
