(* ===== verification/LargeFnTools.v ===== *)
(** * LargeFnTools: hierarchical analysis of large functions

    Models [rmcp-broker/src/largefn_tools.rs]: the two workflows of
    [ida_analyze] that the broker runs itself.  The preflight and the
    partition are those of [Cfg], [LargeFn] and [Regions], the pass over the
    regions that of [Dataflow], the disposable workers those of [Isolation]. *)

From stdpp Require Import base list gmap strings.
From Stdlib Require Import ZArith Lia.
From S2P Require Import Prelude Text Handles Protocol ResultStore Discovery Pump Pool Jobs Isolation Config.
From S2P Require Import Cfg Regions Dataflow LargeFn Json Errors Broker Tools.

Local Open Scope rmcp_scope.

Definition CFG_MAX_NODES : Z := 200000.
Definition CFG_MAX_EDGES : Z := 400000.

(** ** serde's view of the profile *)

Definition complexity_value (c : FunctionComplexity) : Value :=
  JObj [("byte_size", JNum (byte_size c)); ("blocks", JNum (blocks c)); ("edges", JNum (edges c));
        ("cyclomatic", JNum (cyclomatic c)); ("indirect_blocks", JNum (indirect_blocks c));
        ("direct_calls", JNum (fc_direct_calls c)); ("indirect_calls", JNum (fc_indirect_calls c));
        ("switches", JNum (fc_switches c)); ("chunks", JNum (Cfg.chunks c)); ("sccs", JNum (sccs c));
        ("max_scc_size", JNum (max_scc_size c)); ("loops", JNum (loops c));
        ("instruction_density", JFloat (instruction_density c)); ("decompiler_available", JBool (decompiler_available c))].

Definition role_value (r : RegionRole) : Value :=
  JStr (match r with Loop => "loop" | Dispatcher => "dispatcher" | Chunk => "chunk" end).

Definition mode_text (m : AnalysisMode) : string :=
  match m with Normal => "normal" | Large => "large_region" | Pathological => "pathological" end.

Definition strings_value (l : list string) : Value := JArr (JStr <$> l).

(** [r.block_eas.first().copied().unwrap_or(0)] and its [last]. *)
Definition first_ea (r : Region) : Z := default 0%Z (head (region_eas r)).
Definition last_ea (r : Region) : Z := default 0%Z (last (region_eas r)).
Definition saturating_succ (x : Z) : Z := Z.min (x + 1) u64_max.

(** The request for the evidence of a region. *)
Definition evidence_params (r : Region) (end_ea max_insns : Z) : Value :=
  JObj [("ea", JStr (show_0x (first_ea r))); ("end_ea", JStr (show_0x end_ea)); ("region_id", JStr (region_id r));
        ("role", role_value (role r)); ("max_insns", JNum max_insns)].

Definition unaffected (m : string) : string := m +:+ "; primary session unaffected".

(** How an outcome shows in the overview: the status, the evidence, whether it
    counts as analyzed and whether as a failure of Hex-Rays. *)
Definition region_status (r : Region) (o : Result DisposableOutcome) : string * Value * bool * bool :=
  match o with
  | inr (DOk v) => ("complete", v, true, false)
  | inr (DBadResponse detail _) =>
      ("partial_fallback_raw",
       JObj [("fallback", JStr "raw_ida_disassembly"); ("hexrays_error", JStr detail); ("blocks", jnat (length (region_eas r)))],
       true, true)
  | inr (DTimeout after stage) =>
      ("timeout",
       JObj [("hexrays_error", JStr ("hard timeout after " +:+ duration_debug after)); ("stage", JStr stage);
             ("note", JStr (unaffected "disposable worker killed"))], false, false)
  | inr (DCrashed detail stage) =>
      ("crashed",
       JObj [("hexrays_error", JStr detail); ("stage", JStr stage); ("note", JStr (unaffected "disposable worker killed"))],
       false, false)
  | inl e =>
      ("rejected", JObj [("error", JStr (to_string e)); ("note", JStr (unaffected "isolation cap or setup failure"))],
       false, false)
  end.

(** The region as drilled into: what the isolated attempt gave. *)
Definition hexrays_value (o : Result DisposableOutcome) : Value :=
  match o with
  | inr (DOk v) => v
  | inr (DBadResponse detail stage) =>
      JObj [("status", JStr "fallback_raw"); ("hexrays_error", JStr detail); ("stage", JStr stage)]
  | inr (DTimeout after stage) =>
      JObj [("status", JStr "timeout"); ("after", JStr (duration_debug after)); ("stage", JStr stage)]
  | inr (DCrashed detail stage) => JObj [("status", JStr "crashed"); ("detail", JStr detail); ("stage", JStr stage)]
  | inl e => JObj [("status", JStr "rejected"); ("error", JStr (to_string e))]
  end.

Definition no_facts (r : Region) : RegionFacts := {| rf_region_id := region_id r; out_facts := []; in_requests := [] |}.

(** One analyzed region of the loop. *)
Record RegionRow := { row_value : Value; row_analyzed : bool; row_failed : bool }.

Section LargeFnTools.
Context `{!Runtime} {N : Type} `{!Host N}.
Abbreviation tool := (handler N Value).

(** [run_isolated]: the process is started only with a permit. *)
Definition run_isolated (exe : string) (dir : option string) (db_path method : string) (params : Value) (hard : Z)
  : handler N (Result DisposableOutcome) :=
  b <-! brokerM;
  if (used (iso b) <? MAX_CONCURRENT)%nat then
    c <-! hostM (next_child exe dir);
    let '(r, i) := isolated c db_path method params hard (iso b) in
    setM (set_iso i);! retM r
  else setM (set_iso (acquire (iso b)).2);! retM (Err cap_error).

Definition session_path (s : nat) : handler N string :=
  b <-! brokerM; retM (default "" (x ← Pool.store (pool b) !! s; s_db_path x)).

(** The request for the control-flow graph. *)
Definition cfg_params (ea : Z) : Value :=
  JObj [("ea", JStr (show_0x ea)); ("kind", JStr "cfg"); ("depth", JNum 1); ("max_nodes", JNum CFG_MAX_NODES);
        ("max_edges", JNum CFG_MAX_EDGES)].

Definition hard_timeout (args : Value) : Z := clamp 5000 1800000 (arg_u64 args "hard_timeout_ms" 120000).

Definition region_row (exe : string) (dir : option string) (db_path : string) (hard : Z) (r : Region) : handler N RegionRow :=
  o <-! run_isolated exe dir db_path "region.evidence" (evidence_params r (last_ea r) 4000) hard;
  let '(status, evidence, analyzed, failed) := region_status r o in
  retM {| row_value := JObj [("region_id", JStr (region_id r)); ("role", role_value (role r));
                             ("blocks", jnat (length (region_eas r))); ("status", JStr status); ("evidence", evidence)];
          row_analyzed := analyzed; row_failed := failed |}.

(** The overview of a partitioned function. *)
Definition overview_value (ea : Z) (m : AnalysisMode) (c : FunctionComplexity) (p : Partition) (max_regions : nat)
    (rows : list RegionRow) (df : DataflowResult) (stats : Value) : Value :=
  let total := length (regions p) in
  let analyzed := length (filter (fun r => row_analyzed r = true) rows) in
  let remaining := (total - max_regions)%nat in
  JObj [("mode", JStr (mode_text m)); ("complexity", complexity_value c); ("function_ea", JStr (show_0x ea));
        ("partition", JObj [("version", JNum (Regions.version p)); ("regions_total", jnat total); ("regions_requested", jnat max_regions);
                            ("regions_skipped", jnat remaining); ("diagnostics", strings_value (diagnostics p))]);
        ("important_regions", JArr (row_value <$> rows));
        ("analysis_status", JStr (if (analyzed <? total)%nat then "partial" else "complete"));
        ("hexrays_failures", jnat (length (filter (fun r => row_failed r = true) rows)));
        ("resume", JObj [("frontier", strings_value (frontier df));
          ("hint", JStr (if (0 <? remaining)%nat
             then "more regions remain: re-run with a larger max_regions or drill into a region via workflow=function_region"
             else "drill into a region via workflow=function_region with its region_id"))]);
        ("dataflow", JObj [("iterations", jnat (iterations df)); ("converged", JBool (converged df)); ("stop_reason", JStr (stop_reason df))]);
        ("isolation", stats)].

Definition tool_analyze_hierarchical (args : Value) : tool :=
  '(db, s) <-! session_of args;
  ea <-! need_ea args "ea" "function_hierarchical requires 'ea'";
  let max_regions := Z.to_nat (clamp 1 256 (arg_u64 args "max_regions" 16)) in
  let hard := millis (hard_timeout args) in
  func <-! call s "function_at" (JObj [("ea", JStr (show_0x ea))]);
  graph <-! call s "graph" (cfg_params ea);
  caps <-! call s "capabilities" no_params;
  let complexity := complexity_from_function_graph func graph (arg_bool caps "decompile" false) in
  let m := mode complexity Thresholds_default in
  if bool_decide (m = Normal) then
    req <-! panicM (index_set "workflow" (JStr "function_context") (remove_key "db" args));
    out <-! call s "workflow.run" (JObj [("workflow_req", req)]);
    retM (JObj [("db", JStr db); ("analysis", out); ("mode", JStr "normal"); ("complexity", complexity_value complexity)])
  else
    partition <-! panicM (partition_from_graph graph ea PartitionOptions_default);
    b <-! brokerM;
    exe <-! needM (worker_exe (pool b)) (mcp_code "worker_missing" "worker exe not found");
    db_path <-! session_path s;
    let chosen := take max_regions (regions partition) in
    rows <-! mapM (region_row exe (Pool.ida_dir (pool b)) db_path hard) chosen;
    timer <-! hostM (fun n => (stopwatch n, n));
    let facts := list_to_map ((fun r => (region_id r, no_facts r)) <$> chosen) in
    let df := run_dataflow partition facts DataflowLimits_default timer in
    b <-! brokerM;
    answer_bound db "analysis" "ida_analyze.function_hierarchical"
      (overview_value ea m complexity partition max_regions rows df (snapshot (stats (iso b)))).

Definition unknown_region (region : string) (ea : Z) (p : Partition) : McpError :=
  mcp_code "unknown_region" ("region '" +:+ region +:+ "' not in partition of " +:+ show_0x ea +:+ "; valid regions: "
    +:+ join "," (region_id <$> regions p)).

Definition tool_analyze_region (args : Value) : tool :=
  '(db, s) <-! session_of args;
  ea <-! need_ea args "ea" "function_region requires 'ea'";
  rid <-! need_arg_str args "region_id" "function_region requires 'region_id'";
  let hard := millis (hard_timeout args) in
  let max_insns := clamp 10 20000 (arg_u64 args "max_insns" 4000) in
  let try_hexrays := (arg_u64 args "try_hexrays" 1 =? 1)%Z in
  graph <-! call s "graph" (cfg_params ea);
  partition <-! panicM (partition_from_graph graph ea PartitionOptions_default);
  r <-! needM (find_region partition rid) (unknown_region rid ea partition);
  let end_ea := saturating_succ (last_ea r) in
  disasm <-! call s "disassemble" (JObj [("ea", JStr (show_0x (first_ea r))); ("end", JStr (show_0x end_ea)); ("max_insns", JNum max_insns)]);
  b <-! brokerM;
  hexrays <-! match (if try_hexrays then worker_exe (pool b) else None) with
              | Some exe =>
                  db_path <-! session_path s;
                  o <-! run_isolated exe (Pool.ida_dir (pool b)) db_path "region.evidence" (evidence_params r end_ea max_insns) hard;
                  retM (hexrays_value o)
              | None => retM JNull
              end;
  answer_bound db "region" "ida_analyze.function_region"
    (JObj [("function_ea", JStr (show_0x ea)); ("region_id", JStr (region_id r)); ("role", role_value (role r));
           ("blocks", jnat (length (region_eas r))); ("block_eas", strings_value (show_0x <$> region_eas r));
           ("pred_regions", strings_value (pred_regions r)); ("succ_regions", strings_value (succ_regions r));
           ("partition_reason", JStr (partition_reason r)); ("disassembly", disasm); ("hexrays", hexrays)]).
End LargeFnTools.
