(* ===== verification/WasmTools.v ===== *)
(** * WasmTools: the WebAssembly tool

    Models [rmcp-broker/src/wasm_tools.rs]: [ida_wasm] parses the module file
    itself and fuses the model with what the IDA loader reports.  The decoder
    of the binary is the class [WasmLib] (the [wasmparser] crate); the
    parser, the control-flow recovery, the renderer and the resolution of
    indirect calls are those of the [Wasm] files.  The [_value] definitions
    are the derived serializers of the model. *)

From stdpp Require Import base list gmap strings.
From Stdlib Require Import ZArith Lia.
From S2P Require Import Prelude Text Regions Handles Protocol ResultStore Discovery Pump Pool Jobs Isolation Config.
From S2P Require Import WasmModule WasmCfg WasmCalls WasmPseudo Json Errors Broker Tools.

Local Open Scope rmcp_scope.

Class WasmLib := {
  parse_all : list Z -> WasmModule.entries Payload;
  read_body : list Z -> Body;
  show_f32 : Z -> string;
  show_f64 : Z -> string;
}.

Definition PARSE_LIMIT_BYTES : Z := 256 * 1024 * 1024.

(** [Display] of the parser's errors. *)
Definition werror_text (e : WError) : string :=
  match e with
  | Parse offset m => "wasm parse failed at offset " +:+ show_dec offset +:+ ": " +:+ m
  | FeatureDisabled feature m => "feature '" +:+ feature +:+ "' not enabled in this module: " +:+ m
  | Budget what => "budget exhausted: " +:+ what
  | Ambiguous what => "analysis ambiguous: " +:+ what
  | WasmModule.Io m => "io: " +:+ m
  end.

(** ** Serializers *)

Definition strs (l : list string) : Value := JArr (JStr <$> l).
Definition nums (l : list Z) : Value := JArr (JNum <$> l).
Definition rows {A} (f : A -> Value) (l : list A) : Value := JArr (f <$> l).

Definition section_value (s : SectionInfo) : Value :=
  JObj [("id", JNum (sec_id s)); ("name", JStr (sec_name s)); ("offset", JNum (sec_offset s)); ("size", JNum (sec_size s))].
Definition type_value (t : FuncType) : Value := JObj [("params", strs (params t)); ("results", strs (WasmModule.results t))].
Definition import_value (i : ImportEntry) : Value :=
  JObj [("module", JStr (imp_module i)); ("name", JStr (imp_name i)); ("kind", JStr (imp_kind i));
        ("type_index", jopt JNum (imp_type i)); ("wasi", JBool (wasi i))].
Definition export_value (e : ExportEntry) : Value :=
  JObj [("name", JStr (exp_name e)); ("kind", JStr (exp_kind e)); ("index", JNum (exp_index e))].
Definition global_value (g : GlobalEntry) : Value :=
  JObj [("index", JNum (glob_index g)); ("ty", JStr (glob_ty g)); ("mutable", JBool (mutable g)); ("init", jopt JStr (WasmModule.init g))].
Definition table_value (t : TableEntry) : Value :=
  JObj [("index", JNum (table_idx t)); ("elem_ty", JStr (elem_ty t)); ("initial", JNum (table_initial t));
        ("maximum", jopt JNum (table_maximum t))].
Definition element_value (e : ElementSegment) : Value :=
  JObj [("index", JNum (seg_index e)); ("table_index", JNum (seg_table e)); ("offset", jopt JNum (seg_offset e));
        ("func_indices", nums (func_indices e))].
Definition memory_value (m : MemoryEntry) : Value :=
  JObj [("index", JNum (mem_index m)); ("initial_pages", JNum (initial_pages m)); ("maximum_pages", jopt JNum (maximum_pages m));
        ("shared", JBool (shared m)); ("memory64", JBool (memory64 m)); ("page_size_log2", jopt JNum (page_size_log2 m))].
Definition data_value (d : DataSegment) : Value :=
  JObj [("index", JNum (data_index d)); ("memory_index", JNum (data_memory d)); ("offset", jopt JNum (data_offset d));
        ("len", JNum (data_len d)); ("file_offset", JNum (file_offset d))].
Definition features_value (f : FeatureMap) : Value :=
  JObj [("multi_value", JBool (f_multi_value f)); ("bulk_memory", JBool (f_bulk_memory f));
        ("reference_types", JBool (f_reference_types f)); ("simd", JBool (f_simd f)); ("relaxed_simd", JBool (f_relaxed_simd f));
        ("tail_call", JBool (f_tail_call f)); ("exception_handling", JBool (f_exception_handling f));
        ("threads", JBool (f_threads f)); ("memory64", JBool (f_memory64 f)); ("multi_memory", JBool (f_multi_memory f));
        ("function_references", JBool (f_function_references f)); ("gc", JBool (f_gc f))].
Definition custom_value (c : CustomInfo) : Value :=
  JObj [("name_section", JBool (name_section c));
        ("producers", jopt (rows (fun ps : string * string => JArr [JStr ps.1; JStr ps.2])) (producers c));
        ("other_names", strs (other_names c))].
Definition kind_value (k : BlockKind) : Value :=
  match k with
  | KFunction => JStr "Function" | KBlock => JStr "Block" | KLoop => JStr "Loop"
  | KIf has_else => JObj [("If", JObj [("has_else", JBool has_else)])]
  | KTry => JStr "Try"
  end.
Definition wasm_region_value (r : WasmCfg.Region) : Value :=
  JObj [("id", JNum (rg_id r)); ("kind", kind_value (rg_kind r)); ("start_offset", JNum (start_offset r));
        ("branch_sources", nums (branch_sources r)); ("end_offset", JNum (end_offset r)); ("parent", jopt JNum (rg_parent r))].
Definition cfg_value (c : StructuredCfg) : Value :=
  JObj [("regions", rows wasm_region_value (WasmCfg.regions c));
        ("calls", rows (fun x : Z * Z => nums [x.1; x.2]) (calls c));
        ("indirect_calls", rows (fun x : Z * Z * Z => nums [x.1.1; x.1.2; x.2]) (indirect_calls c));
        ("br_tables", rows (fun x : Z * list Z => JArr [JNum x.1; nums x.2]) (br_tables c));
        ("diagnostics", strs (WasmCfg.diagnostics c)); ("operator_count", JNum (operator_count c))].
Definition target_value (t : IndirectTarget) : Value :=
  JObj [("site_offset", JNum (site_offset t)); ("table_index", JNum (it_table t)); ("type_index", JNum (it_type t));
        ("confidence", JStr (match confidence t with Confirmed => "confirmed" | Candidate => "candidate" | Unresolved => "unresolved" end));
        ("targets", nums (it_targets t)); ("evidence", strs (evidence t)); ("reason", JStr (reason t))].

(** ** Helpers *)

Definition parse_index (v : Value) : option Z :=
  match v with
  | JStr s => parse_u32 (trim s)
  | JNum _ => n ← as_u64 v; Some (n mod u32_modulus)%Z
  | _ => None
  end.

(** The imports of the WASI namespaces, by namespace. *)
Definition wasi_groups (imports : list ImportEntry) : list Value :=
  let wasis := filter (fun i => wasi i = true) imports in
  (fun m => JObj [("module", JStr m); ("imports", strs (imp_name <$> filter (fun i => imp_module i = m) wasis))])
  <$> dedup_sorted (imp_module <$> wasis).

(** [&raw[from..to]]. *)
Definition slice (raw : list Z) (from to : Z) : outcome (list Z) :=
  if (from <=? to)%Z && (to <=? Z.of_nat (length raw))%Z
  then Done (take (Z.to_nat (to - from)) (drop (Z.to_nat from) raw)) else Panic.

(** The start, end and name of the segments that have them. *)
Definition seg_ranges (segments : Value) : list (Z * Z * string) :=
  omap (fun s => a ← as_u64 (s @@ "start"); e ← as_u64 (s @@ "end"); n ← as_str (s @@ "name"); Some (a, e, n))
    (default [] (as_array segments)).

(** Both cross-checks: whether the function counts agree, how the code section
    maps, and the diagnostics. *)
Definition count_check (model : ModuleModel) (ida_functions : Value) : bool * list string :=
  let ida := length (default [] (as_array ida_functions)) in
  let parsed := length (functions model) in
  if (ida =? parsed)%nat then (true, [])
  else (false, ["function count mismatch: parser=" +:+ show_dec (Z.of_nat parsed) +:+ " ida=" +:+ show_dec (Z.of_nat ida)]).

Definition code_check (model : ModuleModel) (ida_segments : Value) : string * list string :=
  match List.find (fun s => bool_decide (sec_name s = "code")) (sections model) with
  | None => ("absent", [])
  | Some s =>
      let start := sec_offset s in
      let end_ := (sec_offset s + sec_size s)%Z in
      if existsb (fun r => (r.1.1 <=? start)%Z && (end_ <=? r.1.2)%Z) (seg_ranges ida_segments) then ("confirmed", [])
      else ("mismatch", ["code section [" +:+ show_0x start +:+ "," +:+ show_0x end_ +:+ ") not covered by any IDA segment"])
  end.

Definition info_value (model : ModuleModel) (confirmed : bool) (mapping : string) (diags : list string) : Value :=
  JObj [("engine", JStr "rmcp-wasm + IDA native loader"); ("binary_sha256", JStr (binary_sha256 model));
        ("wasm_version", JNum (WasmModule.version model)); ("sections", rows section_value (sections model));
        ("features", features_value (features model));
        ("counts", JObj [("types", jnat (length (types model))); ("imports", jnat (length (imports model)));
           ("exports", jnat (length (exports model))); ("functions_defined", jnat (length (functions model)));
           ("globals", jnat (length (globals model))); ("tables", jnat (length (tables model)));
           ("memories", jnat (length (memories model))); ("elements", jnat (length (elements model)));
           ("datas", jnat (length (datas model)))]);
        ("custom", custom_value (custom model)); ("start", jopt JNum (WasmModule.start model));
        ("cross_check", JObj [("function_count_confirmed", JBool confirmed); ("code_offset_mapping", JStr mapping)]);
        ("diagnostics", strs diags);
        ("hexrays", JStr "unavailable (IDA has no WASM decompiler; pseudocode action is the rmcp-wasm renderer)")].

(** One of the listings, if [action] is one. *)
Definition listing (model : ModuleModel) (action : string) : option Value :=
  select action
    [("imports", Some (JObj [("imports", rows import_value (imports model)); ("wasi_groups", JArr (wasi_groups (imports model)))]));
     ("exports", Some (JObj [("exports", rows export_value (exports model))]));
     ("globals", Some (JObj [("globals", rows global_value (globals model))]));
     ("tables", Some (JObj [("tables", rows table_value (tables model))]));
     ("memories", Some (JObj [("memories", rows memory_value (memories model))]));
     ("elements", Some (JObj [("elements", rows element_value (elements model))]));
     ("datas", Some (JObj [("datas", rows data_value (datas model))]));
     ("types", Some (JObj [("types", rows type_value (types model))]));
     ("sections", Some (JObj [("sections", rows section_value (sections model))]))] None.

(** A row of the function listing: the parser's entry and the loader's entry at
    the same position. *)
Definition name_source (parser ida : option string) : string :=
  match parser, ida with
  | Some _, Some _ => "parser+ida" | Some _, None => "parser" | None, Some _ => "ida" | None, None => "none"
  end.
Definition function_row (model : ModuleModel) (ida_functions : list Value) (i : nat) (f : FunctionEntry) : Value :=
  let ida := ida_functions !! i in
  let ida_name := v ← ida; as_str (v @@ "name") in
  JObj [("wasm_index", JNum (fn_index f)); ("type_index", JNum (fn_type f));
        ("signature", jopt type_value (types model !! Z.to_nat (fn_type f)));
        ("code_offset", JNum (code_offset f)); ("code_size", JNum (code_size f)); ("local_types", strs (local_types f));
        ("name_parser", jopt JStr (fname f)); ("ida_name", jopt JStr ida_name);
        ("ida_ea", jopt JNum (v ← ida; as_u64 (v @@ "ea_start"))); ("name_source", JStr (name_source (fname f) ida_name))].

Section WasmTools.
Context `{!Runtime} `{!WasmLib} {N : Type} `{!Host N}.
Abbreviation tool := (handler N Value).

(** [map_err(|e| mcp_code(code, &format!("{what}: {e}")))]. *)
Definition wasmM {A} (code what : string) (r : WResult A) : handler N A :=
  match r with inr a => retM a | inl e => failM (mcp_code code (what +:+ ": " +:+ werror_text e)) end.

(** The function an action names, its body and the control flow of it. *)
Definition indexed_body (args : Value) (action : string) (model : ModuleModel) (raw : list Z)
  : handler N (Z * Body * StructuredCfg) :=
  idx <-! needM (v ← get "index" args; parse_index v) (invalid_args (action +:+ " requires 'index'"));
  f <-! needM (fn_with_index idx model) (invalid_args ("function index " +:+ show_dec idx +:+ " not in module"));
  bytes <-! panicM (slice raw (code_offset f) (code_offset f + code_size f)%Z);
  let body := read_body bytes in
  cfg <-! wasmM "wasm_cfg" "structured CFG failed" (analyze_body body);
  retM (idx, body, cfg).

(** The module of the open database. *)
Definition load_module (s : nat) : handler N (list Z * ModuleModel) :=
  b <-! brokerM;
  db_path <-! needM (x ← Pool.store (pool b) !! s; s_db_path x) (mcp_code "no_db" "wasm actions require an open database");
  r <-! hostM (read_file db_path);
  raw <-! match r with inr raw => retM raw | inl e => failM (mcp_code "io" ("cannot read module file: " +:+ e)) end;
  if (PARSE_LIMIT_BYTES <? Z.of_nat (length raw))%Z then
    failM (mcp_code "budget" ("module exceeds parse budget (" +:+ show_dec PARSE_LIMIT_BYTES +:+ " bytes)"))
  else
    model <-! wasmM "wasm_parse" "not a parseable WASM module" (parse show_f32 show_f64 parse_all raw);
    retM (raw, model).

Definition tool_wasm (args : Value) : tool :=
  let action := default "info" (arg_str args "action") in
  '(db, s) <-! session_of args;
  '(raw, model) <-! load_module s;
  ida_functions <-! call s "functions" (JObj [("offset", JNum 0); ("limit", JNum 10000)]);
  ida_segments <-! call s "segments" (JObj [("offset", JNum 0); ("limit", JNum 200)]);
  let '(confirmed, d1) := count_check model ida_functions in
  let '(mapping, d2) := code_check model ida_segments in
  let diags := d1 ++ d2 in
  let wasm name out := answer_bound db "wasm" ("ida_wasm." +:+ name) out in
  match listing model action with
  | Some out => wasm action out
  | None =>
  select action
    [("info", wasm "info" (info_value model confirmed mapping diags));
     ("functions", wasm "functions" (JObj
        [("functions", JArr (imap (function_row model (default [] (as_array ida_functions))) (functions model)));
         ("function_count_confirmed", JBool confirmed); ("diagnostics", strs diags)]));
     ("cfg", '(idx, body, cfg) <-! indexed_body args "cfg" model raw; wasm "cfg" (cfg_value cfg));
     ("pseudocode", '(idx, body, cfg) <-! indexed_body args "pseudocode" model raw;
        text <-! wasmM "wasm_pseudo" "pseudocode failed" (render model idx body cfg);
        wasm "pseudocode" (JObj [("wasm_index", JNum idx);
          ("engine", JStr "rmcp-wasm structured renderer (deterministic; NOT Hex-Rays output)"); ("pseudocode", JStr text)]));
     ("indirect_targets", '(idx, body, cfg) <-! indexed_body args "indirect_targets" model raw;
        wasm "indirect_targets" (JArr (target_value <$> resolve_indirect model (indirect_calls cfg) ∅)))]
    (failM (unknown "action" action " (info|sections|types|imports|exports|functions|globals|tables|memories|elements|datas|cfg|pseudocode|indirect_targets)"))
  end.
End WasmTools.
