(* ===== verification/ToolDefs.v ===== *)
(** * ToolDefs: the catalogue of the MCP surface

    The tool definitions of [rmcp-broker/src/registry.rs] (names,
    descriptions and JSON schemas), the resource templates of
    [rmcp-broker/src/resources.rs] and the prompts of
    [rmcp-broker/src/prompts.rs]. *)

From stdpp Require Import base list strings.
From Stdlib Require Import ZArith.
From S2P Require Import Prelude Text Json.

Local Open Scope rmcp_scope.

Definition quote : string := of_codes [34%Z].
Definition nl : string := of_codes [10%Z].

(** ** Tools *)

Record ToolDef := { tool_name : string; description : string; schema : Value }.

Definition defs : list ToolDef :=
  [
   {| tool_name := "ida_capabilities";
      description := "Report server/backend capabilities and limits.";
      schema := JObj [("type", JStr "object"); ("properties", JObj [("db", JObj [("type", JStr "string"); ("description", JStr
      "db handle (db1, ...); omit when exactly one DB is open")])])] |};
   {| tool_name := "ida_db";
      description := "Manage databases: action=open (path), info, save, close, list. Returns a short db handle.";
      schema := JObj [("type", JStr "object"); ("properties", JObj [("action", JObj [("type", JStr "string"); ("enum", JArr [JStr "open"; JStr "info"; JStr "save";
      JStr "close"; JStr "list"])]); ("path", JObj [("type", JStr "string")]); ("db", JObj [("type", JStr "string")])]); ("required", JArr [JStr "action"])] |};
   {| tool_name := "ida_functions";
      description := "List functions (paginated): name, start/end address, size.";
      schema := JObj [("type", JStr "object"); ("properties", JObj [("db", JObj [("type", JStr "string")]); ("offset", JObj [("type", JStr "integer")]); ("limit"
      , JObj [("type", JStr "integer"); ("maximum", JNum 1000)])])] |};
   {| tool_name := "ida_inspect";
      description := "Everything known about one address: function, comment, bytes.";
      schema := JObj [("type", JStr "object"); ("properties", JObj [("db", JObj [("type", JStr "string")]); ("ea", JObj [("type", JStr "string"); ("description"
      , JStr "address, hex like 0x401000 or decimal")])]); ("required", JArr [JStr "ea"])] |};
   {| tool_name := "ida_decompile";
      description := "Decompile the function containing ea; returns pseudocode.";
      schema := JObj [("type", JStr "object"); ("properties", JObj [("db", JObj [("type", JStr "string")]); ("ea", JObj [("type", JStr "string")])]); ("required"
      , JArr [JStr "ea"])] |};
   {| tool_name := "ida_disassemble";
      description := "Disassemble from ea (bounded by end or max_insns).";
      schema := JObj [("type", JStr "object"); ("properties", JObj [("db", JObj [("type", JStr "string")]); ("ea", JObj [("type", JStr "string")]); ("end", JObj [(
      "type", JStr "string")]); ("max_insns", JObj [("type", JStr "integer"); ("maximum", JNum 5000)])]); ("required", JArr [JStr "ea"])] |};
   {| tool_name := "ida_xrefs";
      description := "Cross references: direction=to (default) or from.";
      schema := JObj [("type", JStr "object"); ("properties", JObj [("db", JObj [("type", JStr "string")]); ("ea", JObj [("type", JStr "string")]); ("direction"
      , JObj [("type", JStr "string"); ("enum", JArr [JStr "to"; JStr "from"])])]); ("required", JArr [JStr "ea"])] |};
   {| tool_name := "ida_graph";
      description := "Graph around the function at ea. kind=calls (function-wide call discovery, multi-level) or kind=cfg (basic-block flow). Bounded by depth/max_nodes/max_edges.";
      schema := JObj [("type", JStr "object"); ("properties", JObj [("db", JObj [("type", JStr "string")]); ("ea", JObj [("type", JStr "string")]); ("kind", JObj [(
      "type", JStr "string"); ("enum", JArr [JStr "calls"; JStr "cfg"])]); ("depth", JObj [("type", JStr "integer"); ("maximum", JNum 5)]); ("max_nodes"
      , JObj [("type", JStr "integer")]); ("max_edges", JObj [("type", JStr "integer")])]); ("required", JArr [JStr "ea"])] |};
   {| tool_name := "ida_search";
      description := "Search: kind=text (needle in strings) or kind=immediate (value).";
      schema := JObj [("type", JStr "object"); ("properties", JObj [("db", JObj [("type", JStr "string")]); ("kind", JObj [("type", JStr "string"); ("enum"
      , JArr [JStr "text"; JStr "immediate"])]); ("text", JObj [("type", JStr "string")]); ("value", JObj [("type", JStr "integer")]); ("limit", JObj [(
      "type", JStr "integer")])])] |};
   {| tool_name := "ida_bytes";
      description := "Read bytes (action=get, size<=4096) or patch (action=patch, hex string).";
      schema := JObj [("type", JStr "object"); ("properties", JObj [("db", JObj [("type", JStr "string")]); ("action", JObj [("type", JStr "string"); ("enum"
      , JArr [JStr "get"; JStr "patch"])]); ("ea", JObj [("type", JStr "string")]); ("size", JObj [("type", JStr "integer")]); ("hex", JObj [("type", JStr
      "string")]); ("expected_revision", JObj [("type", JStr "integer")])]); ("required", JArr [JStr "ea"])] |};
   {| tool_name := "ida_types";
      description := "Local type view: action=list/get by name, or set with decl+ea.";
      schema := JObj [("type", JStr "object"); ("properties", JObj [("db", JObj [("type", JStr "string")]); ("action", JObj [("type", JStr "string"); ("enum"
      , JArr [JStr "list"; JStr "get"; JStr "set"])]); ("name", JObj [("type", JStr "string")]); ("decl", JObj [("type", JStr "string")]); ("ea", JObj [(
      "type", JStr "string")]); ("expected_revision", JObj [("type", JStr "integer")])])] |};
   {| tool_name := "ida_edit";
      description := "Mutate at ea: rename (new name) and/or comment (optionally repeatable). Bumps revision.";
      schema := JObj [("type", JStr "object"); ("properties", JObj [("db", JObj [("type", JStr "string")]); ("ea", JObj [("type", JStr "string")]); ("rename", JObj [(
      "type", JStr "string")]); ("comment", JObj [("type", JStr "string")]); ("repeatable", JObj [("type", JStr "boolean")]); ("expected_revision", JObj [(
      "type", JStr "integer")])]); ("required", JArr [JStr "ea"])] |};
   {| tool_name := "ida_analysis";
      description := "Wait for auto-analysis to finish; returns function count.";
      schema := JObj [("type", JStr "object"); ("properties", JObj [("db", JObj [("type", JStr "string")])])] |};
   {| tool_name := "ida_batch";
      description := "Run up to 20 read-only operations in one round trip; per-op results.";
      schema := JObj [("type", JStr "object"); ("properties", JObj [("operations", JObj [("type", JStr "array"); ("items", JObj [("type", JStr "object"); (
      "properties", JObj [("tool", JObj [("type", JStr "string")]); ("args", JObj [("type", JStr "object")])]); ("required", JArr [JStr "tool"])])])])] |};
   {| tool_name := "ida_result";
      description := "Access spilled large results: action=read/metadata/find/release on r-handles.";
      schema := JObj [("type", JStr "object"); ("properties", JObj [("action", JObj [("type", JStr "string"); ("enum", JArr [JStr "read"; JStr "metadata"; JStr "find"
      ; JStr "release"])]); ("handle", JObj [("type", JStr "string")]); ("text", JObj [("type", JStr "string")])])] |};
   {| tool_name := "ida_segments";
      description := "List segments: name, start/end address, permissions.";
      schema := JObj [("type", JStr "object"); ("properties", JObj [("db", JObj [("type", JStr "string")])])] |};
   {| tool_name := "ida_installations";
      description := "List discovered IDA installations: version, source, decompilers, backend readiness. Use with ida_db open ida_version to pick one.";
      schema := JObj [("type", JStr "object")] |};
   {| tool_name := "ida_mutation";
      description := "Transaction-like mutation layer: action=plan (validate+preview ops without changing anything, whole-plan revision guard), apply (sequential execution with per-op results and partial-outcome reporting), audit (bounded trail of applied mutations with old/new state), snapshot (IDB restore point), rollback (undo to last snapshot). Operations: rename, comment, patch_bytes (hex), func.create, func.delete, set_type with {ea, kind, ...}.";
      schema := JObj [("type", JStr "object"); ("properties", JObj [("db", JObj [("type", JStr "string")]); ("action", JObj [("type", JStr "string"); ("enum"
      , JArr [JStr "plan"; JStr "apply"; JStr "audit"; JStr "snapshot"; JStr "rollback"])]); ("operations", JObj [("type", JStr "array"); ("items", JObj [(
      "type", JStr "object"); ("properties", JObj [("ea", JObj [("type", JStr "string")]); ("kind", JObj [("type", JStr "string"); ("enum", JArr [JStr
      "rename"; JStr "comment"; JStr "patch_bytes"; JStr "func.create"; JStr "func.delete"; JStr "set_type"])]); ("name", JObj [("type", JStr "string")]); (
      "comment", JObj [("type", JStr "string")]); ("repeatable", JObj [("type", JStr "boolean")]); ("hex", JObj [("type", JStr "string")]); ("end", JObj [(
      "type", JStr "string")]); ("decl", JObj [("type", JStr "string")])]); ("required", JArr [JStr "ea"; JStr "kind"])])]); ("expected_revision", JObj [(
      "type", JStr "integer")]); ("limit", JObj [("type", JStr "integer")])]); ("required", JArr [JStr "action"])] |};
   {| tool_name := "ida_analyze";
      description := "Composite analysis workflows (#8): one request replaces many atomic calls. workflow=function_context (decompile+prototype+callers/callees+xrefs+strings+constants+imports), call_neighborhood (bounded BFS through call edges, noise-filtered), reference_context (target->xrefs->functions->callers), import_usage (import->sites->callers), subsystem_context (bounded multi-function from roots), trace_call_path (find path between two functions). workflow=function_hierarchical (#72): complexity preflight (blocks/edges/SCC, no Hex-Rays) classifies normal|large|pathological; normal keeps the whole-function path, large/pathological are partitioned into virtual CFG regions and analyzed per-region in disposable isolation workers (Hex-Rays failure degrades to raw-IDA evidence; true hard timeout, primary session never at risk); overview-first with resumable frontier. workflow=function_region: drill into one region (region_id from the hierarchical overview) - bounded disassembly window + optional per-region Hex-Rays attempt through the isolation worker. Budgets: depth, max_functions, detail=summary|normal|full, max_regions (1..256, default 16), hard_timeout_ms (5s..30min, default 120s), max_insns, try_hexrays. Unchanged repeats served from a revision-keyed cache (cached=true).";
      schema := JObj [("type", JStr "object"); ("properties", JObj [("db", JObj [("type", JStr "string")]); ("workflow", JObj [("type", JStr "string"); ("enum"
      , JArr [JStr "function_context"; JStr "call_neighborhood"; JStr "reference_context"; JStr "import_usage"; JStr "subsystem_context"; JStr
      "trace_call_path"; JStr "function_hierarchical"; JStr "function_region"])]); ("ea", JObj [("type", JStr "string")]); ("target_ea", JObj [("type"
      , JStr "string")]); ("name", JObj [("type", JStr "string")]); ("roots", JObj [("type", JStr "array"); ("items", JObj [("type", JStr "string")])]); (
      "depth", JObj [("type", JStr "integer")]); ("max_functions", JObj [("type", JStr "integer"); ("maximum", JNum 50)]); ("detail", JObj [("type", JStr
      "string"); ("enum", JArr [JStr "summary"; JStr "normal"; JStr "full"])]); ("include_noise", JObj [("type", JStr "boolean")]); ("region_id", JObj [(
      "type", JStr "string"); ("description", JStr "region id from the function_hierarchical overview (function_region)")]); ("max_regions", JObj [("type"
      , JStr "integer"); ("minimum", JNum 1); ("maximum", JNum 256)]); ("hard_timeout_ms", JObj [("type", JStr "integer"); ("minimum", JNum 5000); (
      "maximum", JNum 1800000)]); ("max_insns", JObj [("type", JStr "integer")]); ("try_hexrays", JObj [("type", JStr "integer"); ("enum", JArr [JNum 0;
      JNum 1])])]); ("required", JArr [JStr "workflow"])] |};
   {| tool_name := "ida_evidence";
      description := (join quote ["Structured evidence search over a database-wide analysis index (#14). action=query (default) runs a predicate tree against function facts: {"; "all"; ":[{"; "import"; ":"; "VirtualAlloc"; "},{"; "has_indirect_calls"; ":{"; "min"; ":1}}]}, {"; "string_contains"; ":"; "..."; "}, {"; "name_contains"; ":"; "..."; "}, {"; "constant"; ":123}, {"; "callee_matches"; ":{...}}, {"; "caller_matches"; ":{...}}, {"; "reachable_from"; ":{"; "root_ea"; ":"; "0x..."; ","; "levels"; ":2}}, {"; "not"; ":{...}}, {"; "any"; ":[...]}. Every hit lists concrete matched evidence; the score is evidence-derived. action=build rebuilds+persists; action=status shows index summary."]);
      schema := JObj [("type", JStr "object"); ("properties", JObj [("db", JObj [("type", JStr "string")]); ("action", JObj [("type", JStr "string"); ("enum"
      , JArr [JStr "query"; JStr "build"; JStr "status"])]); ("query", JObj [("type", JStr "object"); ("properties", JObj [("all", JObj [("type", JStr
      "array"); ("items", JObj [("type", JStr "object")])])]); ("limit", JObj [("type", JStr "integer"); ("maximum", JNum 1000)])]); ("limit", JObj [("type"
      , JStr "integer"); ("maximum", JNum 1000)])])] |};
   {| tool_name := "ida_deep";
      description := "Deep analysis (#10): recursive decompilation with type propagation and bounded data-flow. task=deep_function: walks direct callees first (post-order), applies recovered prototypes, re-decompiles improved callers and reports a convergence trace (iteration N: k type changes ... 0 -> converged). task=trace_dataflow: source->sink evidence for a target function across callers/callees with concrete call-site EAs; confidence=confirmed for direct calls, heuristic for indirect. task=retype: apply a C prototype declaration (mutation, invalidates caches). Budgets: depth, max_functions, max_iterations, max_calls. Repeats on an unchanged DB are served from the revision-keyed cache (cached=true).";
      schema := JObj [("type", JStr "object"); ("properties", JObj [("db", JObj [("type", JStr "string")]); ("task", JObj [("type", JStr "string"); ("enum"
      , JArr [JStr "deep_function"; JStr "trace_dataflow"; JStr "retype"])]); ("target", JObj [("type", JStr "string"); ("description", JStr
      "function ea or name (deep_function/trace_dataflow)")]); ("ea", JObj [("type", JStr "string"); ("description", JStr "function ea (retype)")]); ("decl"
      , JObj [("type", JStr "string"); ("description", JStr "C prototype declaration (retype)")]); ("direction", JObj [("type", JStr "string"); ("enum"
      , JArr [JStr "forward"; JStr "backward"; JStr "both"])]); ("depth", JObj [("type", JStr "integer")]); ("max_functions", JObj [("type", JStr "integer"
      )]); ("max_iterations", JObj [("type", JStr "integer")]); ("max_calls", JObj [("type", JStr "integer")])]); ("required", JArr [JStr "task"])] |};
   {| tool_name := "ida_type_recovery";
      description := "Type recovery (#11): infer struct shapes from member-access evidence and discover vtable candidates. task=evidence: member-access observations (offset, width, read/write, EA) of one decompiled function. task=propose: aggregate observations across several functions into field proposals with per-field evidence (read/write counts, candidate width/type, confidence 0..1) and a shape match against existing local types; PREVIEW ONLY. task=vtable: scan an EA as a vtable and map slots to candidate methods. task=create_struct: APPLY a reviewed struct definition (name + fields 'offset:size:name:type_decl') as an explicit mutation. Proposals never apply silently; low-confidence proposals are marked as such.";
      schema := JObj [("type", JStr "object"); ("properties", JObj [("db", JObj [("type", JStr "string")]); ("task", JObj [("type", JStr "string"); ("enum"
      , JArr [JStr "evidence"; JStr "propose"; JStr "vtable"; JStr "create_struct"])]); ("ea", JObj [("type", JStr "string")]); ("functions", JObj [("type"
      , JStr "array"); ("items", JObj [("type", JStr "string")]); ("description", JStr "function EAs to aggregate (propose)")]); ("name", JObj [("type"
      , JStr "string"); ("description", JStr "struct name (create_struct)")]); ("fields", JObj [("type", JStr "array"); ("items", JObj [("type", JStr
      "string")]); ("description", JStr "'offset:size:name:type_decl' quadruples (create_struct)")]); ("limit", JObj [("type", JStr "integer")]); (
      "max_entries", JObj [("type", JStr "integer")])]); ("required", JArr [JStr "task"])] |};
   {| tool_name := "ida_intel";
      description := "Binary intelligence (#12): crypto constants, API-hash resolvers, recovered strings. task=crypto_scan: scan all segments for known crypto constants (AES S-box, SHA/MD5 IVs, SHA-256 K, CRC-32 table, Blowfish P-array, TEA delta...); findings ranked by confidence with containing function + callers from the analysis index. task=resolve_api_hashes: detect likely hash-resolver functions and verify candidate algorithms (ror13-add, ror13-add-wide, ror15-add, rol7-xor, crc32) against the DB's own import-name corpus; single-hash resolvers are flagged low-confidence. task=recover_strings: stack/array string recovery from immediate-store analysis of one function; the IDB is never patched. Results are ranked, bounded and searchable.";
      schema := JObj [("type", JStr "object"); ("properties", JObj [("db", JObj [("type", JStr "string")]); ("task", JObj [("type", JStr "string"); ("enum"
      , JArr [JStr "crypto_scan"; JStr "resolve_api_hashes"; JStr "recover_strings"])]); ("target", JObj [("type", JStr "string"); ("description", JStr
      "function EA (recover_strings)")]); ("max_findings", JObj [("type", JStr "integer")]); ("max_strings", JObj [("type", JStr "integer")])]); ("required"
      , JArr [JStr "task"])] |};
   {| tool_name := "ida_deobfuscate";
      description := "Deobfuscation (#9 analysis + #46 transforms). task=analyze (default): analysis-only pass engine over one function (flattening, opaque branches, indirect transfers, junk no-ops, tail jumps) with evidence and proposals; no IDB change. task=propose: build a bounded transform plan (T1_opaque_branch / T2_junk_removal / T3_indirect_materialize patch sites with evidence; T4_unflatten reports requires_microcode) - still analysis-only. task=validate: re-check a plan against the live DB (outside-function sites, inbound xrefs, unreadable bytes) and return ok|rejected+reason. task=apply: snapshot first, then apply the plan through the audited mutation machinery with an expected_revision guard; returns before/after decompile fingerprints + rollback pointer. task=rollback: restore the last snapshot (audited). Every mutation is explicit and per-function; rejected plans never touch the IDB.";
      schema := JObj [("type", JStr "object"); ("properties", JObj [("db", JObj [("type", JStr "string")]); ("task", JObj [("type", JStr "string"); ("enum"
      , JArr [JStr "analyze"; JStr "propose"; JStr "validate"; JStr "apply"; JStr "rollback"])]); ("target", JObj [("type", JStr "string")]); ("kind"
      , JObj [("type", JStr "string"); ("enum", JArr [JStr "T1_opaque_branch"; JStr "T2_junk_removal"; JStr "T3_indirect_materialize"; JStr "T4_unflatten"
      ])]); ("plan", JObj [("type", JStr "object"); ("description", JStr "plan object returned by task=propose")]); ("max_passes", JObj [("type", JStr
      "integer"); ("maximum", JNum 16)]); ("expected_revision", JObj [("type", JStr "integer")])]); ("required", JArr [JStr "target"])] |};
   {| tool_name := "ida_sig";
      description := "Function signatures & cross-IDB comparison (#13). task=export: build a multi-family fingerprint index (imports, strings, constants, call shape, size - open JSON format '.rsig.json') and persist it next to the DB; returns the path. task=identify: rank reference-index candidates for one function with per-family evidence (score 0..1 explained per family); strict matches are safe for rename proposals, relaxed are hints only. task=map: cross-IDB function mapping between two exported sig indexes producing TRANSFER PROPOSALS with conflict detection (target meaningful names require explicit approval) - nothing is applied automatically.";
      schema := JObj [("type", JStr "object"); ("properties", JObj [("db", JObj [("type", JStr "string")]); ("task", JObj [("type", JStr "string"); ("enum"
      , JArr [JStr "export"; JStr "identify"; JStr "map"])]); ("target", JObj [("type", JStr "string"); ("description", JStr "function EA (identify)")]); (
      "reference", JObj [("type", JStr "object"); ("description", JStr "reference sig index JSON (identify)")]); ("from", JObj [("type", JStr "object"); (
      "description", JStr "from sig index (map)")]); ("to", JObj [("type", JStr "object"); ("description", JStr "to sig index (map)")]); ("max_candidates"
      , JObj [("type", JStr "integer")]); ("max_transfers", JObj [("type", JStr "integer")])]); ("required", JArr [JStr "task"])] |};
   {| tool_name := "ida_jobs";
      description := "Background analysis jobs (#57 agent autonomy). action=start: park a worker call (method + params, analysis methods only - mutations stay synchronous) in the broker with the agent's own timeout_ms budget (5s..30min, default 600s) and get a job id immediately; keep working on other DBs/tasks and collect later - nothing is lost on client disconnects or timeouts (results include deep-analysis partial output and resume tokens). action=status: bounded progress view. action=result: full stored outcome (repeatable until TTL). action=list: the job queue. action=cancel: discard a job (honest note: the in-flight worker frame cannot be interrupted). Bounded by construction: max 4 concurrent jobs, finished results TTL'd and swept by the broker janitor, no extra worker processes.";
      schema := JObj [("type", JStr "object"); ("properties", JObj [("action", JObj [("type", JStr "string"); ("enum", JArr [JStr "start"; JStr "status"; JStr
      "result"; JStr "list"; JStr "cancel"])]); ("db", JObj [("type", JStr "string")]); ("method", JObj [("type", JStr "string"); ("description", JStr
      "worker method to run in background (start)")]); ("params", JObj [("type", JStr "object"); ("description", JStr
      "worker call params incl. timeout_ms (start)")]); ("job", JObj [("type", JStr "string"); ("description", JStr "job id (status|result|cancel)")])]); (
      "required", JArr [JStr "action"])] |};
   {| tool_name := "ida_health";
      description := "Self-diagnosis report that works even with no IDA install found: discovery results, runtime DLL presence, worker probe, idalib feature, and a remediation hint.";
      schema := JObj [("type", JStr "object")] |};
   {| tool_name := "ida_metadata";
      description := "Extended DB metadata: md5/sha256 of the input file, image base, entry points (ordinal/ea/name). TLS callbacks and exception handlers are reported as unsupported when not exposed.";
      schema := JObj [("type", JStr "object"); ("properties", JObj [("db", JObj [("type", JStr "string")])])] |};
   {| tool_name := "ida_wasm";
      description := "WebAssembly analysis (#71). Fuses the IDA-native WASM loader facts with the independent rmcp-wasm parser (wasmparser-based, bounded, static-only). action=info: module model overview + feature map + cross-engine checks (function counts, code-offset mapping). Query actions: sections|types|imports (with WASI grouping)|exports|functions (fused index-space rows with per-row name provenance: parser/ida)|globals|tables|memories|elements|datas. action=cfg: structured control flow (block/loop/if preserved, never flattened) for one function by wasm 'index'. action=pseudocode: deterministic WASM-native C-like rendering - explicitly NOT Hex-Rays (IDA has no WASM decompiler). action=indirect_targets: evidence-backed call_indirect resolution (confirmed/candidate/unresolved, never fabricated certainty). Malformed modules fail locally with bounded diagnostics.";
      schema := JObj [("type", JStr "object"); ("properties", JObj [("db", JObj [("type", JStr "string")]); ("action", JObj [("type", JStr "string"); ("enum"
      , JArr [JStr "info"; JStr "sections"; JStr "types"; JStr "imports"; JStr "exports"; JStr "functions"; JStr "globals"; JStr "tables"; JStr "memories";
      JStr "elements"; JStr "datas"; JStr "cfg"; JStr "pseudocode"; JStr "indirect_targets"])]); ("index", JObj [("type", JStr "string"); ("description"
      , JStr "wasm function index (cfg|pseudocode|indirect_targets)")])]); ("required", JArr [JStr "action"])] |};
   {| tool_name := "ida_imports";
      description := "Imported modules and import entries (ea, name, ordinal); paginated.";
      schema := JObj [("type", JStr "object"); ("properties", JObj [("db", JObj [("type", JStr "string")]); ("module", JObj [("type", JStr "integer"); ("description"
      , JStr "module index; omit for all modules")]); ("offset", JObj [("type", JStr "integer")]); ("limit", JObj [("type", JStr "integer"); ("maximum"
      , JNum 1000)])])] |};
   {| tool_name := "ida_fixups";
      description := "Fixup/relocation records (ea, kind, flags, base, sel, off, displacement); paginated.";
      schema := JObj [("type", JStr "object"); ("properties", JObj [("db", JObj [("type", JStr "string")]); ("offset", JObj [("type", JStr "integer")]); ("limit"
      , JObj [("type", JStr "integer"); ("maximum", JNum 1000)])])] |};
   {| tool_name := "ida_filemap";
      description := "Map between EA and input-file offset: value + to_ea=false (default) maps EA->offset, to_ea=true maps offset->EA.";
      schema := JObj [("type", JStr "object"); ("properties", JObj [("db", JObj [("type", JStr "string")]); ("value", JObj [("type", JStr "string"); ("description"
      , JStr "address or file offset (hex 0x.. or decimal)")]); ("to_ea", JObj [("type", JStr "boolean")])]); ("required", JArr [JStr "value"])] |};
   {| tool_name := "ida_func";
      description := "Function-structure operations: action=tails (chunks incl. tails), create (start[,end]), delete (ea), resize (ea, new_start/new_end), switch_info (jump table at ea), sp_delta. Mutating actions bump the revision and honour expected_revision.";
      schema := JObj [("type", JStr "object"); ("properties", JObj [("db", JObj [("type", JStr "string")]); ("action", JObj [("type", JStr "string"); ("enum"
      , JArr [JStr "tails"; JStr "create"; JStr "delete"; JStr "resize"; JStr "switch_info"; JStr "sp_delta"])]); ("ea", JObj [("type", JStr "string")]); (
      "start", JObj [("type", JStr "string")]); ("end", JObj [("type", JStr "string")]); ("new_start", JObj [("type", JStr "string")]); ("new_end", JObj [(
      "type", JStr "string")]); ("expected_revision", JObj [("type", JStr "integer")])]); ("required", JArr [JStr "action"])] |};
   {| tool_name := "ida_hr";
      description := "Hex-Rays structured view: action=cfunc (bounded typed ctree node summaries, lvars with type/width/arg flags, return type), action=microcode (bounded microcode dump at maturity 0-7: blocks with pred/succ/insn counts + rendered instructions with opcode/operand kinds/immediates; revision-keyed cache), or lvar_rename (ea + var_defea + name; bumps revision).";
      schema := JObj [("type", JStr "object"); ("properties", JObj [("db", JObj [("type", JStr "string")]); ("action", JObj [("type", JStr "string"); ("enum"
      , JArr [JStr "cfunc"; JStr "microcode"; JStr "lvar_rename"])]); ("ea", JObj [("type", JStr "string")]); ("var_defea", JObj [("type", JStr "string"
      )]); ("name", JObj [("type", JStr "string")]); ("include_ctree", JObj [("type", JStr "boolean")]); ("include_lvars", JObj [("type", JStr "boolean"
      )]); ("limit", JObj [("type", JStr "integer"); ("maximum", JNum 50000)]); ("maturity", JObj [("type", JStr "integer"); ("maximum", JNum 7)]); (
      "max_insns", JObj [("type", JStr "integer"); ("maximum", JNum 20000)]); ("expected_revision", JObj [("type", JStr "integer")])]); ("required"
      , JArr [JStr "action"; JStr "ea"])] |};
   {| tool_name := "ida_value";
      description := "Bounded constant/value propagation and indirect-call target proposals (analysis-only): walks the target function plus optional k-hop callees once each (reuses the deep single-decompile cache), merges constant argument evidence per (function, argN) with confidence confirmed/set/heuristic, and probes unresolved indirect call sites against vtable slots. Budget keys: depth (default 1 = intra-procedural only), max_functions, max_calls, timeout_ms; cached per revision.";
      schema := JObj [("type", JStr "object"); ("properties", JObj [("db", JObj [("type", JStr "string")]); ("ea", JObj [("type", JStr "string"); ("description"
      , JStr "target function EA")]); ("depth", JObj [("type", JStr "integer"); ("minimum", JNum 1); ("maximum", JNum 16)]); ("max_functions", JObj [("type"
      , JStr "integer"); ("maximum", JNum 4096)]); ("max_calls", JObj [("type", JStr "integer"); ("maximum", JNum 100000)]); ("max_iterations", JObj [(
      "type", JStr "integer"); ("maximum", JNum 100000)]); ("timeout_ms", JObj [("type", JStr "integer"); ("maximum", JNum 1800000)]); ("resume_from"
      , JObj [("type", JStr "string")])]); ("required", JArr [JStr "ea"])] |};
   {| tool_name := "ida_insn";
      description := "Instruction-level metadata: action=features (canon CF_* feature bits + mnemonic at ea) or demangle (name -> demangled form).";
      schema := JObj [("type", JStr "object"); ("properties", JObj [("db", JObj [("type", JStr "string")]); ("action", JObj [("type", JStr "string"); ("enum"
      , JArr [JStr "features"; JStr "demangle"])]); ("ea", JObj [("type", JStr "string")]); ("name", JObj [("type", JStr "string")])]); ("required"
      , JArr [JStr "action"])] |}
  ].

Definition tool_names : list string := tool_name <$> defs.

(** ** Resources *)

Definition resource_kinds : list (string * string) :=
  [("metadata", "extended metadata: hashes, image base, entry points"); ("segments", "all segments");
   ("entrypoints", "entry points (ordinal/ea/name)"); ("imports", "imported modules and entries (paginated)");
   ("exports", "export view (entry points)"); ("info", "basic DB info: function count, processor, bits")].

Record ResourceTemplate := { uri_template : string; template_name : string; template_description : string; mime_type : string }.

Definition resource_templates : list ResourceTemplate :=
  (fun kd => {| uri_template := "ida://db/{id}/" +:+ kd.1; template_name := "ida-db-" +:+ kd.1;
                template_description := "Read-only " +:+ kd.2 +:+ " for an open database.";
                mime_type := "application/json" |}) <$> resource_kinds.

(** ** Prompts *)

Record PromptArgument := { arg_name : string; arg_description : string; arg_required : bool }.
Record Prompt := { prompt_name : string; prompt_description : string; prompt_arguments : list PromptArgument }.

Definition prompt_list : list Prompt :=
  [{| prompt_name := "ida_survey_binary";
      prompt_description := "Survey a binary end to end: metadata, segments, entry points, imports, functions overview, and notable strings — then report structure and attack/analysis surface.";
      prompt_arguments := [{| arg_name := "db"; arg_description := "db handle (db1, db2, ...); omit when exactly one DB is open"; arg_required := false |}] |};
   {| prompt_name := "ida_analyze_function_deep";
      prompt_description := "Deep-dive one function: decompile, list lvars, inspect callees and xrefs, check strings/constants, and summarize behavior with evidence.";
      prompt_arguments := [{| arg_name := "ea"; arg_description := "address inside the target function (hex 0x.. or decimal)"; arg_required := true |};
        {| arg_name := "db"; arg_description := "db handle; omit when exactly one DB is open"; arg_required := false |}] |};
   {| prompt_name := "ida_trace_data_flow";
      prompt_description := "Trace data flow from a source (argument, import, string) to sinks: follow xrefs both directions, decompile along the path, and report the chain with evidence.";
      prompt_arguments := [{| arg_name := "ea"; arg_description := "start address for the flow"; arg_required := true |};
        {| arg_name := "db"; arg_description := "db handle; omit when exactly one DB is open"; arg_required := false |}] |};
   {| prompt_name := "ida_safe_refactor";
      prompt_description := "Safe rename/retype/refactor workflow: plan mutations, review the preview, apply with expected_revision, verify via audit — never bulk-patch without a snapshot.";
      prompt_arguments := [{| arg_name := "db"; arg_description := "db handle; omit when exactly one DB is open"; arg_required := false |}] |};
   {| prompt_name := "ida_compare_binaries";
      prompt_description := "Compare two databases: open both, diff function counts/segments/strings/names, and report likely shared or divergent code regions.";
      prompt_arguments := [{| arg_name := "db1"; arg_description := "first db handle"; arg_required := true |};
        {| arg_name := "db2"; arg_description := "second db handle"; arg_required := true |}] |}].
