(* ===== verification/Registry.v ===== *)
(** * Registry: dispatch of the MCP requests

    Models [call] of [rmcp-broker/src/registry.rs], [read] of
    [rmcp-broker/src/resources.rs], [get] of [rmcp-broker/src/prompts.rs] and
    the [ServerHandler] of [rmcp-broker/src/lib.rs] that wraps a tool's
    outcome, over the tools of [Tools], [LargeFnTools] and [WasmTools]. *)

From stdpp Require Import base list gmap strings sets.
From Stdlib Require Import ZArith Lia.
From S2P Require Import Prelude Text Handles Protocol ResultStore Discovery Pump Pool Jobs Isolation Config.
From S2P Require Import Json Errors ToolDefs Broker Tools LargeFnTools WasmTools.

Local Open Scope rmcp_scope.

(** ** Prompts *)

Definition prompt_text (name db ea db1 db2 : string) : option string :=
  select name
    [("ida_survey_binary", Some (join nl
       ["Survey the binary at " +:+ db +:+ ".";
        "1. Read the ida://db/" +:+ db +:+ "/metadata and ida://db/" +:+ db +:+ "/segments resources.";
        "2. Read ida://db/" +:+ db +:+ "/imports and ida://db/" +:+ db +:+ "/entrypoints for the API and start surface.";
        "3. Call ida_functions (limit ~100) for the layout; call ida_search for interesting strings/constants.";
        "4. Summarize: binary type, language/runtime clues, protection, notable functionality, and which functions deserve deep analysis first.";
        "Prefer resources and batched reads over many small tool calls; report evidence (addresses, names), not conclusions without them."]));
     ("ida_analyze_function_deep", Some (join nl
       ["Deep-dive the function containing " +:+ ea +:+ " in " +:+ db +:+ ".";
        "1. ida_inspect the address, then ida_decompile it.";
        "2. Use ida_hr action=cfunc for lvars/types when decompile is noisy.";
        "3. ida_xrefs (to and from) on the entry; decompile the most relevant callees once each.";
        "4. ida_search for constants/strings used inside it.";
        "5. Summarize behavior with an evidence table: address -> fact.";
        "Batch independent reads with ida_batch where possible."]));
     ("ida_trace_data_flow", Some (join nl
       ["Trace data flow starting at " +:+ ea +:+ " in " +:+ db +:+ ".";
        "1. ida_xrefs direction=to to find who feeds this address; follow upward while the path stays interesting.";
        "2. ida_xrefs direction=from to find where the data goes (sinks: calls, memory writes).";
        "3. Decompile each hop once; record the value's transformation at each step.";
        "4. Report the chain as source -> transforms -> sink with addresses; flag where the trail needs runtime evidence."]));
     ("ida_safe_refactor", Some (join nl
       ["Refactor safely in " +:+ db +:+ ".";
        "1. Write the change set as operations for ida_mutation action=plan (rename/comment/patch_bytes/func.*).";
        "2. Review the preview rows; fix anything with target_resolves=false.";
        "3. For byte changes, take ida_mutation action=snapshot first.";
        "4. ida_mutation action=apply with expected_revision = current revision.";
        "5. ida_mutation action=audit to verify every change; on failure inspect partial results and re-plan.";
        "Never bulk-patch without a snapshot; never skip expected_revision."]));
     ("ida_compare_binaries", Some (join nl
       ["Compare " +:+ db1 +:+ " and " +:+ db2 +:+ ".";
        "1. ida_db action=info on both (read resources ida://db/" +:+ db1 +:+ "/info and ida://db/" +:+ db2 +:+ "/info).";
        "2. Compare function counts, segments (ida_segments on both), and strings via ida_search.";
        "3. Sample shared-looking functions with ida_decompile on each side; compare hashes via ida_metadata (md5/sha256 of inputs).";
        "4. Report shared regions, divergences, and confidence based on evidence counts."]))] None.

Definition get_prompt (name : string) (args : Value) : McpError + string :=
  let db := default "the single open db handle (omit the db argument when only one DB is open)" (arg_str args "db") in
  let ea := default "<ea>" (arg_str args "ea") in
  let db1 := default "<db1>" (arg_str args "db1") in
  let db2 := default "<db2>" (arg_str args "db2") in
  match prompt_text name db ea db1 db2 with
  | Some text => inr text
  | None => inl (invalid_params ("[invalid_args] unknown prompt '" +:+ name +:+ "'"))
  end.

Section Registry.
Context `{!Runtime} `{!WasmLib} {N : Type} `{!Host N}.
Abbreviation tool := (handler N Value).

(** ** Tools *)

Definition analyze (args : Value) : tool :=
  select (default "" (arg_str args "workflow"))
    [("function_hierarchical", tool_analyze_hierarchical args); ("function_region", tool_analyze_region args)]
    (tool_analyze args).

Definition call_table (args : Value) : list (string * tool) :=
  [("ida_capabilities", tool_capabilities args); ("ida_db", tool_db args); ("ida_functions", tool_functions args);
   ("ida_inspect", tool_inspect args); ("ida_decompile", tool_decompile args); ("ida_disassemble", tool_disassemble args);
   ("ida_xrefs", tool_xrefs args); ("ida_graph", tool_graph args); ("ida_search", tool_search args);
   ("ida_bytes", tool_bytes args); ("ida_types", tool_types args); ("ida_edit", tool_edit args);
   ("ida_analysis", tool_analysis args); ("ida_batch", tool_batch args); ("ida_result", tool_result args);
   ("ida_segments", tool_segments args); ("ida_installations", tool_installations args); ("ida_health", tool_health args);
   ("ida_jobs", tool_jobs args); ("ida_evidence", tool_evidence args); ("ida_analyze", analyze args);
   ("ida_deep", tool_deep args); ("ida_type_recovery", tool_type_recovery args); ("ida_intel", tool_intel args);
   ("ida_deobfuscate", tool_deobfuscate args); ("ida_sig", tool_sig args); ("ida_metadata", tool_metadata args);
   ("ida_wasm", tool_wasm args); ("ida_imports", tool_imports args); ("ida_fixups", tool_fixups args);
   ("ida_filemap", tool_filemap args); ("ida_func", tool_func args); ("ida_hr", tool_hr args);
   ("ida_value", tool_value args); ("ida_insn", tool_insn args); ("ida_mutation", tool_mutation args)].

(** [registry::call]. *)
Definition call_named (name : string) (args : Value) : tool :=
  select name (call_table args) (failM (invalid_params ("unknown tool '" +:+ name +:+ "'"))).

(** What [call_tool] returns to the client: whether it is an error, and the text. *)
Record ToolResult := { is_error : bool; content : string }.

Definition call_tool (name : string) (arguments : option (list (string * Value))) : handler N ToolResult :=
  r <-! tryM (call_named name (JObj (default [] arguments)));
  retM (match r with
        | inr v => {| is_error := false; content := default "{}" (pretty v) |}
        | inl e => {| is_error := true; content := default "" (pretty (error_value e)) |}
        end).

(** ** Resources *)

Definition call_session (id method : string) : tool :=
  b <-! brokerM;
  s <-! needM (session id (pool b)) (mcp_code "unknown_db" ("db handle '" +:+ id +:+ "' is unknown or closed"));
  call s method no_params.

Definition read_resource (uri : string) : handler N string :=
  rest <-! needM (strip_prefix "ida://db/" uri) (invalid_args "unsupported resource URI (want ida://db/{id}/{kind})");
  '(id, kind) <-! needM (split_once "/" rest) (invalid_args "URI must be ida://db/{id}/{kind}");
  payload <-! select kind
    [("metadata", call_session id "db.metadata"); ("segments", call_session id "segments");
     ("entrypoints", call_session id "db.metadata"); ("exports", call_session id "db.metadata");
     ("imports", call_session id "imports.list"); ("info", call_session id "db.info")]
    (failM (invalid_args ("unknown resource kind '" +:+ kind +:+ "' (metadata|segments|entrypoints|imports|exports|info)")));
  v <-! bound ("resource:" +:+ kind) payload;
  retM (default "{}" (pretty v)).
End Registry.
