(* ===== verification/Surface.v ===== *)
(** * Surface: what a tool call can reach

    Theorems on the dispatch of [Registry]: which workers a call talks to and
    with which requests, and that the broker's list of open databases and the
    pool's sessions stay the same list.  Requests are observed by running the
    broker over a [Logged] host, which records them and is otherwise any host. *)

From stdpp Require Import base list gmap strings sets.
From Stdlib Require Import ZArith Lia.
From S2P Require Import Prelude Text Handles Protocol ResultStore Discovery Pump Pool Jobs Isolation Config.
From S2P Require Import Json Errors ToolDefs Broker Tools LargeFnTools WasmTools Registry.

Local Open Scope rmcp_scope.

(** ** The catalogue and the dispatcher agree *)

Lemma catalogue_nodup : NoDup tool_names.
Proof. apply (bool_decide_unpack _). vm_compute. exact I. Qed.

Lemma catalogue_dispatched : forall `{!Runtime} `{!WasmLib} (N : Type) `{!Host N} (args : Value),
  (call_table (N:=N) args).*1 ≡ₚ tool_names.
Proof. intros. apply (bool_decide_unpack _). vm_compute. exact I. Qed.

(** The module comment of the registry counts 33. *)
Example catalogue_size : length defs = 36%nat.
Proof. vm_compute. reflexivity. Qed.

(** ** Logged hosts *)

Record Request := { rq_session : nat; rq_method : string; rq_params : Value; rq_budget : Z; rq_job : option string }.

Definition Logged (N : Type) : Type := (N * list Request)%type.

#[global] Instance logged_host {N : Type} `{!Host N} : Host (Logged N) := {
  clock x := let '(t, n) := clock x.1 in (t, (n, x.2));
  ask s m p ms x := let '(r, n) := ask s m p ms x.1 in
    (r, (n, x.2 ++ [{| rq_session := s; rq_method := m; rq_params := p; rq_budget := ms; rq_job := None |}]));
  world x := world x.1;
  after_open r path ref x := (after_open r path ref x.1, x.2);
  spawn_task id s m p ms x := (spawn_task id s m p ms x.1,
    x.2 ++ [{| rq_session := s; rq_method := m; rq_params := p; rq_budget := ms; rq_job := Some id |}]);
  read_file path x := let '(r, n) := read_file path x.1 in (r, (n, x.2));
  stopwatch x := stopwatch x.1;
  next_child exe dir x := let '(c, n) := next_child exe dir x.1 in (c, (n, x.2));
  self_probe x := self_probe x.1;
  idadir_set x := idadir_set x.1;
}.

(** ** What a call may do *)

(** The databases the arguments name: their own [db], and those of the
    operations of a batch. *)
Definition named_dbs (args : Value) : list (option string) :=
  arg_str args "db" ::
  ((fun op => arg_str (default no_params (get "args" op)) "db") <$> default [] (v ← get "operations" args; as_array v)).

(** [r] is the session that [db], or its omission, denotes. *)
Definition denotes (ss : list (string * nat)) (dbs : list (string * string)) (db : option string) (r : nat) : Prop :=
  match db with
  | Some h => snd ∘ snd <$> list_find (fun hs => hs.1 = h) ss = Some r
  | None => exists h, dbs.*1 = [h] /\ snd ∘ snd <$> list_find (fun hs => hs.1 = h) ss = Some r
  end.

(** The methods a tool may send to a worker. *)
Definition base_sends : list (string * list string) :=
  [("ida_capabilities", ["capabilities"; "db.info"]);
   ("ida_db", ["db.info"; "db.save"; "db.close"; "shutdown"]);
   ("ida_functions", ["functions"]);
   ("ida_inspect", ["function_at"; "get_comment"; "get_bytes"]);
   ("ida_disassemble", ["disassemble"]);
   ("ida_decompile", ["decompile"]);
   ("ida_xrefs", ["xrefs_to"; "xrefs_from"]);
   ("ida_graph", ["graph"]);
   ("ida_search", ["search_immediate"; "search_text"]);
   ("ida_bytes", ["get_bytes"; "patch_bytes"]);
   ("ida_types", ["types"; "set_type"]);
   ("ida_edit", ["rename"; "set_comment"]);
   ("ida_analysis", ["analyze_wait"]);
   ("ida_segments", ["segments"]);
   ("ida_metadata", ["db.metadata"]);
   ("ida_imports", ["imports.list"]);
   ("ida_fixups", ["fixups.list"]);
   ("ida_filemap", ["file.map"]);
   ("ida_func", ["func.tails"; "func.create"; "func.delete"; "func.resize"; "func.switch_info"; "func.sp_delta"]);
   ("ida_hr", ["hr.cfunc"; "hr.lvar_rename"; "hr.microcode"]);
   ("ida_value", ["value.propagate"]);
   ("ida_insn", ["insn.features"; "names.demangle"]);
   ("ida_mutation", ["plan.mutations"; "plan.apply"; "mutation.audit"; "snapshot.create"; "snapshot.restore"]);
   ("ida_analyze", ["workflow.run"; "function_at"; "graph"; "capabilities"; "disassemble"]);
   ("ida_deep", ["deep.function"; "deep.dataflow"; "deep.retype"]);
   ("ida_type_recovery", ["types.evidence"; "types.propose"; "types.vtable"; "types.apply"]);
   ("ida_intel", ["intel.crypto"; "intel.api_hashes"; "intel.strings"; "intel.packs"]);
   ("ida_deobfuscate", ["deob.run"; "deob.propose"; "deob.validate"; "deob.apply"; "snapshot.restore"]);
   ("ida_sig", ["sig.export"; "sig.identify"; "sig.map"]);
   ("ida_evidence", ["index.build"; "index.status"; "index.query"]);
   ("ida_wasm", ["functions"; "segments"])].

Definition base_methods (name : string) : list string :=
  base_sends ≫= fun nm => if bool_decide (nm.1 = name) then nm.2 else [].

(** The tools a batch may run. *)
Definition batchable : list string :=
  ["ida_functions"; "ida_inspect"; "ida_disassemble"; "ida_decompile"; "ida_xrefs"; "ida_search"; "ida_bytes"; "ida_types";
   "ida_segments"; "ida_metadata"; "ida_imports"; "ida_fixups"; "ida_filemap"; "ida_func"; "ida_hr"; "ida_value"; "ida_insn"].

Definition methods_of (name : string) : list string :=
  if bool_decide (name = "ida_batch") then batchable ≫= base_methods else base_methods name.

(** The methods a resource read sends. *)
Definition resource_methods : list string := ["db.metadata"; "segments"; "imports.list"; "db.info"].

(** A request a tool may send: to a denoted session, with an allowed method
    (in the background: not a mutation), within the bounds on budgets. *)
Record permitted (target : nat -> Prop) (allowed : string -> Prop) (q : Request) : Prop := {
  pm_session : target (rq_session q);
  pm_method : match rq_job q with None => allowed (rq_method q) | Some _ => rq_method q ∉ MUTATING end;
  pm_budget : (5000 <= rq_budget q <= 1800000)%Z;
}.

(** What the host does for permitted requests keeps [J]. *)
Record host_keeps {N : Type} `{!Host N} (target : nat -> Prop) (allowed : string -> Prop) (J : N -> Prop) : Prop := {
  hk_clock : forall n, J n -> J (clock n).2;
  hk_ask : forall s m p ms n, target s -> allowed m -> J n -> J (ask s m p ms n).2;
  hk_task : forall id s m p ms n, target s -> m ∉ MUTATING -> J n -> J (spawn_task id s m p ms n);
  hk_file : forall path n, J n -> J (read_file path n).2;
  hk_child : forall exe dir n, J n -> J (next_child exe dir n).2;
}.

Lemma host_keeps_any {N : Type} `{!Host N} target allowed : host_keeps target allowed (fun _ : N => True).
Proof. by split. Qed.

(** An allowed method, by its place in the list of the tool. *)
Ltac in_methods :=
  match goal with
  | H : Forall _ ?ms |- _ => apply (proj1 (Forall_forall _ _) H); apply (bool_decide_unpack _); vm_compute; exact Logic.I
  end.

Lemma safe_select_eq {N A} (I : bstate N -> Prop) (s : string) (arms : list (string * handler N A)) d Q :
  Forall (fun ka => s = ka.1 -> safe I ka.2 Q) arms -> safe I d Q -> safe I (select s arms d) Q.
Proof. intros Ha Hd. induction Ha as [|[k a] arms H _ IH]; cbn [select]; [done|]. case_bool_decide; [by apply H|done]. Qed.

Section Reach.
Context {RT : Runtime} {WL : WasmLib} {N : Type} {HN : Host N}.
Context (ss : list (string * nat)) (dbs : list (string * string)) (log0 : list Request) (target : nat -> Prop).
Context (allowed : string -> Prop) (J : N -> Prop) (HJ : host_keeps target allowed J).

(** The sessions are as they were, the host kept [J], and only permitted requests were added. *)
Definition within (st : bstate (Logged N)) : Prop :=
  sessions (pool (broker st)) = ss /\ open_dbs (broker st) = dbs /\ J (host st).1
  /\ exists new, (host st).2 = log0 ++ new /\ Forall (permitted target allowed) new.

Abbreviation sends name := (Forall allowed (methods_of name)).

Lemma sends_sub name name' : bool_decide (Forall (fun m => m ∈ methods_of name') (methods_of name)) = true -> sends name' -> sends name.
Proof using Type.
  intros Hsub%bool_decide_eq_true Hs. rewrite Forall_forall in Hs. eapply Forall_impl; [exact Hsub|]. intros m Hm. by apply Hs.
Qed.

Abbreviation ok t := (safe within t (fun _ => True)).

Lemma call_timeout_bounds params d : (5000 <= d <= 1800000)%Z -> (5000 <= call_timeout params d <= 1800000)%Z.
Proof. intros Hd. unfold call_timeout, clamp. case_match; lia. Qed.

(** *** The helpers *)

Lemma raw_ok s method params d :
  target s -> allowed method -> (5000 <= d <= 1800000)%Z -> ok (call_raw (N:=Logged N) s method params d).
Proof.
  intros Hs Hm Hd. apply safe_host. intros st (E1 & E2 & E4 & new & E3 & Hnew). split; [|done].
  pose proof (hk_ask _ _ _ HJ s method params (call_timeout params d) _ Hs Hm E4) as HJ'.
  cbn [ask logged_host]. destruct (ask s method params _ (host st).1) as [r n]. cbn [snd fst] in *.
  split; [exact E1|]. split; [exact E2|]. split; [exact HJ'|]. cbn [host snd]. rewrite E3, <- app_assoc. eexists. split; [reflexivity|].
  apply Forall_app. split; [done|]. apply Forall_singleton. split; [done|done|]. by apply call_timeout_bounds.
Qed.

Lemma within_ok s method params d :
  target s -> allowed method -> (5000 <= d <= 1800000)%Z -> ok (call_within (N:=Logged N) s method params d).
Proof. intros Hs Hm Hd. eapply safe_bind; [by apply raw_ok|]. intros r _. by apply safe_result. Qed.

Lemma call_ok s method params : target s -> allowed method -> ok (call (N:=Logged N) s method params).
Proof. intros Hs Hm. apply within_ok; [done|done|lia]. Qed.

Lemma now_ok : ok (now (N:=Logged N)).
Proof.
  apply safe_host. intros st (E1 & E2 & E4 & E3). split; [|done]. pose proof (hk_clock _ _ _ HJ _ E4) as HJ'.
  cbn [clock logged_host]. by destruct (clock (host st).1) as [t n].
Qed.

(** A step that leaves the sessions alone. *)
Lemma set_ok f :
  (forall b, sessions (pool (f b)) = sessions (pool b) /\ open_dbs (f b) = open_dbs b) -> ok (setM (N:=Logged N) f).
Proof using Type.
  intros H. apply safe_set; [|done]. intros st (E1 & E2 & E3). destruct (H (broker st)) as [F1 F2].
  split; [cbn; congruence|]. split; [cbn; congruence|exact E3].
Qed.

Lemma bound_ok tl payload : ok (bound (N:=Logged N) tl payload).
Proof.
  eapply safe_bind; [apply now_ok|]. intros t _. eapply safe_bind; [by apply (safe_broker _ (fun _ => True))|]. intros b _.
  destruct (bound_output _ _ _ _ _ _ _) as [[v s] id]. eapply safe_bind; [by apply set_ok|]. intros _ _. by apply safe_ret.
Qed.

Lemma answer_ok db key out : ok (answer (N:=Logged N) db key out).
Proof. by apply safe_ret. Qed.

Lemma answer_bound_ok db key tl out : ok (answer_bound (N:=Logged N) db key tl out).
Proof. eapply safe_bind; [apply bound_ok|]. intros v _. apply answer_ok. Qed.

Lemma resolve_ok db :
  (forall r, denotes ss dbs db r -> target r) -> safe within (resolve_db (N:=Logged N) db) (fun hr => target hr.2).
Proof.
  intros Hd. unfold resolve_db. eapply safe_bind.
  { apply (safe_broker _ (fun b => sessions (pool b) = ss /\ open_dbs b = dbs)). by intros st (E1 & E2 & _). }
  intros b [E1 E2]. rewrite E2. destruct db as [h|].
  - eapply safe_bind; [apply (safe_need _ _ _ (fun r => target r))|intros r Hr; by apply safe_ret].
    intros r Hr. apply Hd. cbn. unfold session in Hr. by rewrite E1 in Hr.
  - destruct dbs as [|[h path] [|]]; [apply safe_fail| |apply safe_fail].
    eapply safe_bind; [apply (safe_need _ _ _ (fun r => target r))|intros r Hr; by apply safe_ret].
    intros r Hr. apply Hd. exists h. split; [done|]. unfold session in Hr. by rewrite E1 in Hr.
Qed.

(** *** The tools *)

(** [reach]: follow a handler; [Hdb] tells where its session may be. *)
Ltac reach_leaf Hdb :=
  first
    [ by apply safe_ret | by apply safe_fail | by apply safe_need | by apply safe_result | by apply safe_coded | by apply safe_panic
    | by apply (safe_broker _ (fun _ => True)) | apply bound_ok | apply answer_ok | apply answer_bound_ok | apply now_ok
    | apply call_ok; [assumption|in_methods] | apply within_ok; [assumption|in_methods|lia]
    | apply raw_ok; [assumption|in_methods|lia] | by apply set_ok ].
Ltac reach Hdb :=
  repeat first
    [ reach_leaf Hdb
    | match goal with
      | |- safe _ (bindM (session_of _) _) _ => eapply safe_bind; [apply resolve_ok; exact Hdb|intros [? ?] ?; cbn [snd] in *]
      | |- safe _ (bindM (resolve_db _) _) _ => eapply safe_bind; [apply resolve_ok; exact Hdb|intros [? ?] ?; cbn [snd] in *]
      | |- safe _ (bindM ?t ?k) _ => apply (safe_bind _ t k (fun _ => True)); [|intros ? _]
      | |- safe _ (select _ _ _) _ => apply safe_select; [repeat apply Forall_cons_2; [..|apply Forall_nil_2]; cbn [snd]|]
      | |- safe _ (if ?x then _ else _) _ => destruct x
      | |- safe _ (match ?x with _ => _ end) _ => destruct x
      | |- safe _ (let _ := _ in _) _ => cbv zeta
      end ].

Section Tool.
Context (args : Value) (Hdb : forall r, denotes ss dbs (arg_str args "db") r -> target r).

Lemma capabilities_ok : sends "ida_capabilities" -> ok (tool_capabilities (N:=Logged N) args).
Proof using Hdb HJ. intros Ha. unfold tool_capabilities. reach Hdb. Qed.
Lemma functions_ok : sends "ida_functions" -> ok (tool_functions (N:=Logged N) args).
Proof using Hdb HJ. intros Ha. unfold tool_functions. reach Hdb. Qed.
Lemma inspect_ok : sends "ida_inspect" -> ok (tool_inspect (N:=Logged N) args).
Proof using Hdb HJ. intros Ha. unfold tool_inspect, need_ea. reach Hdb. Qed.
Lemma disassemble_ok : sends "ida_disassemble" -> ok (tool_disassemble (N:=Logged N) args).
Proof using Hdb HJ. intros Ha. unfold tool_disassemble, need_ea. reach Hdb. Qed.
Lemma decompile_ok : sends "ida_decompile" -> ok (tool_decompile (N:=Logged N) args).
Proof using Hdb HJ. intros Ha. unfold tool_decompile, need_ea. reach Hdb. Qed.
Lemma xrefs_ok : sends "ida_xrefs" -> ok (tool_xrefs (N:=Logged N) args).
Proof using Hdb HJ. intros Ha. unfold tool_xrefs, need_ea. case_bool_decide; reach Hdb. Qed.
Lemma graph_ok : sends "ida_graph" -> ok (tool_graph (N:=Logged N) args).
Proof using Hdb HJ. intros Ha. unfold tool_graph, need_ea. reach Hdb. Qed.
Lemma search_ok : sends "ida_search" -> ok (tool_search (N:=Logged N) args).
Proof using Hdb HJ. intros Ha. unfold tool_search, need_arg_str. reach Hdb. Qed.
Lemma segments_ok : sends "ida_segments" -> ok (tool_segments (N:=Logged N) args).
Proof using Hdb HJ. intros Ha. unfold tool_segments. reach Hdb. Qed.
Lemma metadata_ok : sends "ida_metadata" -> ok (tool_metadata (N:=Logged N) args).
Proof using Hdb HJ. intros Ha. unfold tool_metadata. reach Hdb. Qed.
Lemma imports_ok : sends "ida_imports" -> ok (tool_imports (N:=Logged N) args).
Proof using Hdb HJ. intros Ha. unfold tool_imports. reach Hdb. Qed.
Lemma fixups_ok : sends "ida_fixups" -> ok (tool_fixups (N:=Logged N) args).
Proof using Hdb HJ. intros Ha. unfold tool_fixups. reach Hdb. Qed.
Lemma filemap_ok : sends "ida_filemap" -> ok (tool_filemap (N:=Logged N) args).
Proof using Hdb HJ. intros Ha. unfold tool_filemap, need_ea. reach Hdb. Qed.
Lemma analysis_ok : sends "ida_analysis" -> ok (tool_analysis (N:=Logged N) args).
Proof using Hdb HJ. intros Ha. unfold tool_analysis. reach Hdb. Qed.
Lemma insn_ok : sends "ida_insn" -> ok (tool_insn (N:=Logged N) args).
Proof using Hdb HJ. intros Ha. unfold tool_insn, need_ea, need_arg_str. reach Hdb. Qed.
Lemma bytes_ok : sends "ida_bytes" -> ok (tool_bytes (N:=Logged N) args).
Proof using Hdb HJ. intros Ha. unfold tool_bytes, need_ea, need_arg_str. reach Hdb. Qed.
Lemma types_ok : sends "ida_types" -> ok (tool_types (N:=Logged N) args).
Proof using Hdb HJ. intros Ha. unfold tool_types. reach Hdb. Qed.
Lemma edit_ok : sends "ida_edit" -> ok (tool_edit (N:=Logged N) args).
Proof using Hdb HJ. intros Ha. unfold tool_edit, need_ea. reach Hdb. Qed.
Lemma func_ok : sends "ida_func" -> ok (tool_func (N:=Logged N) args).
Proof using Hdb HJ. intros Ha. unfold tool_func, need_ea. reach Hdb. Qed.
Lemma hr_ok : sends "ida_hr" -> ok (tool_hr (N:=Logged N) args).
Proof using Hdb HJ. intros Ha. unfold tool_hr, need_ea, need_arg_str. reach Hdb. Qed.
Lemma mutation_ok : sends "ida_mutation" -> ok (tool_mutation (N:=Logged N) args).
Proof using Hdb HJ. intros Ha. unfold tool_mutation, need_arg. reach Hdb. Qed.
Lemma value_ok : sends "ida_value" -> ok (tool_value (N:=Logged N) args).
Proof using Hdb HJ. intros Ha. unfold tool_value, need_ea. reach Hdb. Qed.
Lemma analyze_ok : sends "ida_analyze" -> ok (tool_analyze (N:=Logged N) args).
Proof using Hdb HJ. intros Ha. unfold tool_analyze. reach Hdb. Qed.
Lemma deobfuscate_ok : sends "ida_deobfuscate" -> ok (tool_deobfuscate (N:=Logged N) args).
Proof using Hdb HJ. intros Ha. unfold tool_deobfuscate, need_arg. reach Hdb. Qed.
Lemma evidence_ok : sends "ida_evidence" -> ok (tool_evidence (N:=Logged N) args).
Proof using Hdb HJ. intros Ha. unfold tool_evidence, need_arg. reach Hdb. Qed.
Lemma result_ok : ok (tool_result (N:=Logged N) args).
Proof using Hdb HJ. unfold tool_result, need_arg_str. reach Hdb. Qed.
Lemma installations_ok : ok (tool_installations (N:=Logged N) args).
Proof using Type. unfold tool_installations. reach Hdb. apply safe_host. done. Qed.

(** A method chosen by the task. *)
Lemma chosen_ok task (methods : list (string * string)) other s d (k : Value -> handler (Logged N) Value) :
  target s -> Forall (fun tm => allowed tm.2) methods -> (5000 <= d <= 1800000)%Z -> (forall v, ok (k v)) ->
  ok (m <-! select task ((fun tm => (tm.1, retM tm.2)) <$> methods) (failM other); out <-! call_within s m args d; k out).
Proof using HJ.
  intros Hs Hm Hd Hk. eapply (safe_bind _ _ _ allowed).
  - apply safe_select; [|apply safe_fail]. apply Forall_fmap. eapply Forall_impl; [exact Hm|]. intros tm H. by apply safe_ret.
  - intros m H. eapply safe_bind; [by apply within_ok|]. intros v _. apply Hk.
Qed.

Lemma deep_ok : sends "ida_deep" -> ok (tool_deep (N:=Logged N) args).
Proof using Hdb HJ.
  intros Ha. unfold tool_deep. eapply safe_bind; [apply resolve_ok; exact Hdb|intros [db s] Hs]. cbv zeta.
  apply (chosen_ok _ [("deep_function", "deep.function"); ("trace_dataflow", "deep.dataflow"); ("retype", "deep.retype")]);
    [done|repeat constructor; cbn [snd]; in_methods|lia|]. intros v. apply answer_ok.
Qed.
Lemma type_recovery_ok : sends "ida_type_recovery" -> ok (tool_type_recovery (N:=Logged N) args).
Proof using Hdb HJ.
  intros Ha. unfold tool_type_recovery. eapply safe_bind; [apply resolve_ok; exact Hdb|intros [db s] Hs]. cbv zeta.
  apply (chosen_ok _ [("evidence", "types.evidence"); ("propose", "types.propose"); ("vtable", "types.vtable");
    ("create_struct", "types.apply")]); [done|repeat constructor; cbn [snd]; in_methods|lia|]. intros v. apply answer_ok.
Qed.
Lemma intel_ok : sends "ida_intel" -> ok (tool_intel (N:=Logged N) args).
Proof using Hdb HJ.
  intros Ha. unfold tool_intel. eapply safe_bind; [apply resolve_ok; exact Hdb|intros [db s] Hs]. cbv zeta.
  apply (chosen_ok _ [("crypto_scan", "intel.crypto"); ("resolve_api_hashes", "intel.api_hashes");
    ("recover_strings", "intel.strings"); ("packs_list", "intel.packs")]);
    [done|repeat constructor; cbn [snd]; in_methods|lia|]. intros v. apply answer_ok.
Qed.
Lemma sig_ok : sends "ida_sig" -> ok (tool_sig (N:=Logged N) args).
Proof using Hdb HJ.
  intros Ha. unfold tool_sig. eapply safe_bind; [apply resolve_ok; exact Hdb|intros [db s] Hs]. cbv zeta.
  apply (chosen_ok _ [("export", "sig.export"); ("identify", "sig.identify"); ("map", "sig.map")]);
    [done|repeat constructor; cbn [snd]; in_methods|lia|]. intros v. apply answer_ok.
Qed.

Lemma jobs_start_ok : ok (jobs_start (N:=Logged N) args).
Proof using Hdb HJ.
  unfold jobs_start, need_arg_str. eapply safe_bind; [by apply (safe_need _ _ _ (fun _ => True))|]. intros method _.
  eapply safe_bind; [apply resolve_ok; exact Hdb|intros [db s] Hs]. case_bool_decide as Hm; [apply safe_fail|]. cbv zeta.
  eapply safe_bind; [apply now_ok|]. intros t _. eapply safe_bind; [by apply (safe_broker _ (fun _ => True))|]. intros b _.
  eapply safe_bind; [by apply (safe_panic _ _ (fun _ => True))|]. intros rm _.
  eapply safe_bind; [by apply set_ok|]. intros _ _. eapply safe_bind; [by apply (safe_coded _ _ (fun _ => True))|]. intros id _.
  eapply safe_bind; [|intros _ _; by apply safe_ret]. apply (safe_host _ _ (fun _ => True)).
  intros st (E1 & E2 & E4 & new & E3 & Hnew). split; [|done]. split; [done|]. split; [done|].
  split; [by apply (hk_task _ _ _ HJ)|]. cbn [host snd spawn_task logged_host].
  rewrite E3, <- app_assoc. eexists. split; [reflexivity|]. apply Forall_app. split; [done|]. apply Forall_singleton.
  split; [done|done|]. cbn [rq_budget]. unfold call_timeout, job_budget. destruct (v ← get "timeout_ms" _; as_u64 v); unfold clamp; lia.
Qed.
Lemma jobs_ok : ok (tool_jobs (N:=Logged N) args).
Proof using Hdb HJ.
  unfold tool_jobs, need_arg_str. apply safe_select; [|apply safe_fail].
  apply Forall_cons_2; [apply jobs_start_ok|]. repeat apply Forall_cons_2; [..|apply Forall_nil_2]; cbn [snd]; reach Hdb.
Qed.

(** Looking for the worker binary keeps the sessions. *)
Lemma probe_feature_kept w p : kept p (probe_feature w p).2.
Proof using Type.
  unfold probe_feature. pose proof (ensure_worker_exe_kept w p) as H1. destruct (ensure_worker_exe w p) as [e p1]. cbn [snd] in H1.
  destruct (is_ok e); [|done]. eapply kept_trans; [exact H1|]. apply idalib_feature_kept.
Qed.

Lemma health_ok : ok (tool_health (N:=Logged N) args).
Proof using Type.
  unfold tool_health. eapply safe_bind.
  { apply (safe_broker _ (fun b => sessions (pool b) = ss /\ open_dbs b = dbs)). by intros st (E1 & E2 & _). }
  intros b [E1 E2]. do 3 (eapply (safe_bind _ _ _ (fun _ => True)); [by apply safe_host|intros ? _]). cbv zeta.
  pose proof (probe_feature_kept a (pool b)) as (Hk & _). destruct (probe_feature a (pool b)) as [feature p]. cbn [snd] in Hk.
  eapply safe_bind; [|intros _ _; eapply safe_bind; [by apply (safe_broker _ (fun _ => True))|intros b' _; by apply safe_ret]].
  apply (safe_set _ _ (fun _ => True)); [|done]. intros st (_ & _ & E3).
  split; [cbn; congruence|]. split; [done|exact E3].
Qed.

(** *** Large functions and modules *)

Lemma isolated_ok exe dir path method params hard : ok (run_isolated (N:=Logged N) exe dir path method params hard).
Proof using HJ.
  unfold run_isolated. eapply safe_bind; [by apply (safe_broker _ (fun _ => True))|]. intros b _. case_match.
  - eapply (safe_bind _ _ _ (fun _ => True)).
    + apply safe_host. intros st (E1 & E2 & E4 & E3). split; [|done]. pose proof (hk_child _ _ _ HJ exe dir _ E4) as HJ'.
      cbn [next_child logged_host]. by destruct (next_child exe dir (host st).1).
    + intros c _. destruct (isolated _ _ _ _ _ _) as [r i]. eapply safe_bind; [by apply set_ok|]. intros _ _. by apply safe_ret.
  - eapply safe_bind; [by apply set_ok|]. intros _ _. by apply safe_ret.
Qed.

Lemma path_ok s : ok (session_path (N:=Logged N) s).
Proof using Type. unfold session_path. eapply safe_bind; [by apply (safe_broker _ (fun _ => True))|]. intros b _. by apply safe_ret. Qed.

Lemma region_row_ok exe dir path hard r : ok (region_row (N:=Logged N) exe dir path hard r).
Proof using HJ.
  unfold region_row. eapply safe_bind; [apply isolated_ok|]. intros o _.
  destruct (region_status r o) as [[[status ev] an] fa]. by apply safe_ret.
Qed.

Lemma hierarchical_ok : sends "ida_analyze" -> ok (tool_analyze_hierarchical (N:=Logged N) args).
Proof using Hdb HJ.
  intros Ha. unfold tool_analyze_hierarchical, need_ea. reach Hdb.
  - apply path_ok.
  - apply safe_mapM; [|done]. intros r _. apply region_row_ok.
  - by apply safe_host.
Qed.

Lemma region_ok : sends "ida_analyze" -> ok (tool_analyze_region (N:=Logged N) args).
Proof using Hdb HJ. intros Ha. unfold tool_analyze_region, need_ea, need_arg_str. reach Hdb; [apply path_ok|apply isolated_ok]. Qed.

Lemma registry_analyze_ok : sends "ida_analyze" -> ok (analyze (N:=Logged N) args).
Proof using Hdb HJ.
  intros Ha. apply safe_select; [|by apply analyze_ok]. repeat apply Forall_cons_2; [by apply hierarchical_ok|by apply region_ok|apply Forall_nil_2].
Qed.

Lemma wasmM_ok {A} code what (r : WasmModule.WResult A) : ok (wasmM (N:=Logged N) code what r).
Proof using Type. destruct r; [apply safe_fail|by apply safe_ret]. Qed.

Lemma module_ok s : ok (load_module (N:=Logged N) s).
Proof using HJ.
  unfold load_module. reach Hdb; [|apply wasmM_ok..].
  apply safe_host. intros st (E1 & E2 & E4 & E3). split; [|done]. pose proof (fun path => hk_file _ _ _ HJ path _ E4) as HJ'.
  cbn [read_file logged_host]. match goal with |- context [read_file ?p _] => specialize (HJ' p) end. by destruct (read_file _ (host st).1).
Qed.

Lemma body_ok action model raw : ok (indexed_body (N:=Logged N) args action model raw).
Proof using Type. unfold indexed_body. reach Hdb. apply wasmM_ok. Qed.

Lemma wasm_ok : sends "ida_wasm" -> ok (tool_wasm (N:=Logged N) args).
Proof using Hdb HJ.
  intros Ha. unfold tool_wasm. cbv zeta. eapply safe_bind; [apply resolve_ok; exact Hdb|intros [db s] Hs]. cbn [snd] in Hs.
  eapply safe_bind; [apply module_ok|intros [raw model] _]. eapply safe_bind; [apply call_ok; [done|in_methods]|intros fs _].
  eapply safe_bind; [apply call_ok; [done|in_methods]|intros segs _].
  destruct (count_check model fs) as [confirmed d1]. destruct (code_check model segs) as [mapping d2].
  destruct (listing model _); [apply answer_bound_ok|]. reach Hdb; apply body_ok || apply wasmM_ok.
Qed.

Lemma run_named_ok tl : sends "ida_batch" -> ok (run_named (N:=Logged N) tl args).
Proof using Hdb HJ.
  intros Ha. assert (forall name, bool_decide (Forall (fun m => m ∈ methods_of "ida_batch") (methods_of name)) = true -> sends name) as Hb.
  { intros name Hn. by eapply sends_sub. }
  apply safe_select; [|apply safe_fail]. repeat apply Forall_cons_2; [..|apply Forall_nil_2]; cbn [snd].
  1: apply functions_ok, Hb; reflexivity. 1: apply inspect_ok, Hb; reflexivity. 1: apply disassemble_ok, Hb; reflexivity. 1: apply decompile_ok, Hb; reflexivity. 1: apply xrefs_ok, Hb; reflexivity.
  1: apply search_ok, Hb; reflexivity. 1: apply bytes_ok, Hb; reflexivity. 1: apply types_ok, Hb; reflexivity. 1: apply segments_ok, Hb; reflexivity. 1: apply metadata_ok, Hb; reflexivity. 1: apply imports_ok, Hb; reflexivity.
  1: apply fixups_ok, Hb; reflexivity. 1: apply filemap_ok, Hb; reflexivity. 1: apply func_ok, Hb; reflexivity. 1: apply hr_ok, Hb; reflexivity. 1: apply value_ok, Hb; reflexivity. apply insn_ok, Hb; reflexivity.
Qed.

Lemma db_other_ok action :
  action ∉ ["open"; "close"] -> arg_str args "action" = Some action \/ (arg_str args "action" = None /\ action = "info") ->
  sends "ida_db" -> ok (tool_db (N:=Logged N) args).
Proof using Hdb HJ.
  intros Hne Hact0 Ha. unfold tool_db. assert (default "info" (arg_str args "action") = action) as Hact by (destruct Hact0 as [E|[E Hi]]; rewrite E; [reflexivity|by rewrite Hi]). rewrite Hact.
  cbn [select]. rewrite bool_decide_false by set_solver. case_bool_decide; [reach Hdb|]. case_bool_decide; [reach Hdb|].
  rewrite bool_decide_false by set_solver. reach Hdb.
Qed.
End Tool.

Lemma batch_ok args :
  sends "ida_batch" -> (forall d r, d ∈ named_dbs args -> denotes ss dbs d r -> target r) -> ok (tool_batch (N:=Logged N) args).
Proof using HJ.
  intros Ha Hdb. unfold tool_batch. cbv zeta. case_match; [apply safe_fail|]. eapply (safe_bind _ _ _ (fun _ => True)).
  - apply safe_mapM; [|done]. intros [i op] Hin. unfold batch_op. cbv zeta. cbn [fst snd].
    assert (op ∈ default [] (v ← get "operations" args; as_array v)) as Hop.
    { apply elem_of_lookup_imap in Hin as (j & x & E & Hx). injection E as -> ->. by eapply list_elem_of_lookup_2. }
    eapply (safe_bind _ _ _ (fun _ => True)); [|intros r _; by apply safe_ret]. eapply safe_try; [apply run_named_ok; [|exact Ha]|done|done].
    intros r Hr. eapply Hdb; [|exact Hr]. right. by apply (list_elem_of_fmap_2 (fun op => arg_str (default no_params (get "args" op)) "db")).
  - intros rs _. by apply safe_ret.
Qed.

(** Every tool but [ida_db]. *)
Lemma other_tools_ok name args :
  name <> "ida_db" -> sends name -> (forall d r, d ∈ named_dbs args -> denotes ss dbs d r -> target r) ->
  ok (call_named (N:=Logged N) name args).
Proof using HJ.
  intros Hname Ha Hdb. assert (forall r, denotes ss dbs (arg_str args "db") r -> target r) as Hdb1 by (intros r; apply Hdb; left).
  apply safe_select_eq; [|apply safe_fail]. unfold call_table.
  repeat apply Forall_cons_2; [..|apply Forall_nil_2]; cbn [fst snd]; intros ->.
  1: by apply capabilities_ok. 1: done.
  1: by apply functions_ok. 1: by apply inspect_ok. 1: by apply decompile_ok. 1: by apply disassemble_ok. 1: by apply xrefs_ok.
  1: by apply graph_ok. 1: by apply search_ok. 1: by apply bytes_ok. 1: by apply types_ok. 1: by apply edit_ok.
  1: by apply analysis_ok. 1: by apply batch_ok. 1: by apply result_ok. 1: by apply segments_ok. 1: by apply installations_ok.
  1: by apply health_ok. 1: by apply jobs_ok. 1: by apply evidence_ok. 1: by apply registry_analyze_ok. 1: by apply deep_ok.
  1: by apply type_recovery_ok. 1: by apply intel_ok. 1: by apply deobfuscate_ok. 1: by apply sig_ok. 1: by apply metadata_ok.
  1: by apply wasm_ok. 1: by apply imports_ok. 1: by apply fixups_ok. 1: by apply filemap_ok. 1: by apply func_ok.
  1: by apply hr_ok. 1: by apply value_ok. 1: by apply insn_ok. by apply mutation_ok.
Qed.
End Reach.

(** One step of a computation with a known invariant. *)
Lemma safe_step {M A B} (I : bstate M -> Prop) (t : handler M A) (Q : A -> Prop) (k : A -> handler M B) st r st' (G : Prop) :
  safe I t Q -> I st -> bindM t k st = Done (r, st') ->
  (I st' -> G) -> (forall a st1, I st1 -> Q a -> k a st1 = Done (r, st') -> G) -> G.
Proof.
  intros Ht HI Hrun He Hk. unfold bindM in Hrun. destruct (t st) as [[[e|a] st1]| |] eqn:E; [| |done..].
  - injection Hrun as <- <-. apply He. by eapply Ht.
  - destruct (Ht _ _ _ HI E) as [HI1 HQ]. by apply (Hk a st1 HI1 (HQ a eq_refl)).
Qed.

Section Db.
Context {RT : Runtime} {WL : WasmLib} {N : Type} {HN : Host N}.
Implicit Types st : bstate (Logged N).

Definition drop_db {A} (db : string) (l : list (string * A)) : list (string * A) := filter (fun x => x.1 <> db) l.

(** Requests were added, each of them permitted. *)
Definition added (target : nat -> Prop) (allowed : string -> Prop) st st' : Prop :=
  exists new, (host st').2 = (host st).2 ++ new /\ Forall (permitted target allowed) new.

Lemma within_refl target allowed (J : N -> Prop) st :
  J (host st).1 -> within (sessions (pool (broker st))) (open_dbs (broker st)) (host st).2 target allowed J st.
Proof. intros HJ. split; [done|]. split; [done|]. split; [done|]. exists []. by rewrite app_nil_r. Qed.

(** How a call leaves the two lists. *)
Definition lists_moved st st' : Prop :=
  let ss := sessions (pool (broker st)) in
  let dbs := open_dbs (broker st) in
  (sessions (pool (broker st')) = ss /\ open_dbs (broker st') = dbs)
  \/ (exists db, sessions (pool (broker st')) = drop_db db ss /\ open_dbs (broker st') = drop_db db dbs)
  \/ (exists h path, sessions (pool (broker st')) = ss ++ [(h, next_ref (pool (broker st)))]
        /\ open_dbs (broker st') = dbs ++ [(h, path)]).

(** The session a successful open added. *)
Definition opened st st' (s : nat) : Prop :=
  exists h path, sessions (pool (broker st')) = sessions (pool (broker st)) ++ [(h, next_ref (pool (broker st)))]
    /\ open_dbs (broker st') = open_dbs (broker st) ++ [(h, path)] /\ session h (pool (broker st')) = Some s.

(** The session of the first of the open databases with this handle. *)
Definition found_in (ss : list (string * nat)) (h : string) (s : nat) : Prop :=
  snd ∘ snd <$> list_find (fun hs => hs.1 = h) ss = Some s.

Lemma close_spec args (J : N -> Prop) st r st' :
  let target := denotes (sessions (pool (broker st))) (open_dbs (broker st)) (arg_str args "db") in
  let allowed m := m ∈ methods_of "ida_db" in
  host_keeps target allowed J -> J (host st).1 ->
  db_close (N:=Logged N) args st = Done (r, st') -> lists_moved st st' /\ added target allowed st st' /\ J (host st').1.
Proof.
  set (ss := sessions _). set (dbs := open_dbs _). cbv zeta. set (target := denotes _ _ _). set (allowed := fun m => _).
  intros HJ HJ0 Hrun. pose (I := within (N:=N) ss dbs (host st).2 target allowed J).
  assert (forall st1, I st1 -> added target allowed st st1 /\ J (host st1).1) as Hadd by (by intros st1 (_ & _ & HJ1 & H)).
  assert (I st' -> lists_moved st st' /\ added target allowed st st' /\ J (host st').1) as Hend.
  { intros Hw. split; [|by apply Hadd]. left. by destruct Hw as (? & ? & _). }
  assert (Forall allowed (methods_of "ida_db")) as Ha by (by apply Forall_forall).
  unfold db_close in Hrun. eapply (safe_step I); [by apply resolve_ok|by apply within_refl|exact Hrun|done|].
  clear Hrun. intros [db s] st1 H1 Hs Hrun. cbn [snd] in Hs.
  eapply (safe_step I); [|exact H1|exact Hrun|done|]; [apply call_ok; [exact HJ|exact Hs|in_methods]|]. clear Hrun. intros v2 st2 H2 _ Hrun.
  eapply (safe_step I); [|exact H2|exact Hrun|done|]; [apply call_ok; [exact HJ|exact Hs|in_methods]|]. clear Hrun. intros v3 st3 H3 _ Hrun.
  eapply (safe_step I); [|exact H3|exact Hrun|done|]; [apply call_ok; [exact HJ|exact Hs|in_methods]|]. clear Hrun. intros v4 st4 H4 _ Hrun.
  injection Hrun as _ <-. split; [|exact (Hadd _ H4)]. right. left. exists db. destruct H4 as (E1 & E2 & _).
  cbn. by rewrite E1, E2.
Qed.

(** What the pool does for an open. *)
Lemma spawn_lists path kind ver st r st' :
  spawn (N:=Logged N) path kind ver st = Done (r, st') ->
  (host st').2 = (host st).2
  /\ (exists res, (host st').1 = after_open res path (next_ref (pool (broker st))) (host st).1)
  /\ match r with
     | inr (inr h) => sessions (pool (broker st')) = sessions (pool (broker st)) ++ [(h, next_ref (pool (broker st)))]
         /\ open_dbs (broker st') = open_dbs (broker st) ++ [(h, path)]
     | _ => sessions (pool (broker st')) = sessions (pool (broker st)) /\ open_dbs (broker st') = open_dbs (broker st)
     end.
Proof.
  unfold spawn. pose proof (spawn_spec (world (host st)) (pool_at (broker st)) path (max_workers (config (broker st))) kind ver (JObj [])) as H.
  unfold spawn_for. destruct (spawn_for_with_budget _ _ _ _ _ _ _) as [[e|h] p]; intros [= <- <-]; (split; [done|]); (split; [by eexists|]).
  - destruct H as (E & _). by split.
  - destruct H as (_ & _ & E & _). by split.
Qed.

(** The rest of an open, from the state in which the session is listed. *)
Lemma opened_rest (h path : string) (J : N -> Prop) st1 r st' :
  let target := found_in (sessions (pool (broker st1))) h in
  let allowed m := m ∈ methods_of "ida_db" in
  host_keeps target allowed J -> J (host st1).1 ->
  (h' <-! retM h; b <-! brokerM;
   info <-! match session h' (pool b) with
            | Some s => r <-! call_raw s "db.info" no_params 120000; retM (match r with inr v => v | inl _ => no_params end)
            | None => retM no_params
            end;
   info <-! bound "ida_db" info;
   retM (JObj [("db", JStr h'); ("path", JStr path); ("info", info)])) st1 = Done (r, st') ->
  sessions (pool (broker st')) = sessions (pool (broker st1)) /\ open_dbs (broker st') = open_dbs (broker st1)
  /\ J (host st').1 /\ added target allowed st1 st'.
Proof.
  cbv zeta. set (target := found_in _ _). set (allowed := fun m => _). intros HJ HJ1 Hrun.
  assert (Forall allowed (methods_of "ida_db")) as Ha by (by apply Forall_forall).
  match type of Hrun with ?t _ = _ => assert (safe (within (sessions (pool (broker st1))) (open_dbs (broker st1)) (host st1).2 target allowed J)
    t (fun _ => True)) as Hsafe end.
  { eapply (safe_bind _ _ _ (fun x => x = h)); [by apply safe_ret|]. intros h' ->. eapply safe_bind.
    { apply (safe_broker _ (fun b => sessions (pool b) = sessions (pool (broker st1)))). by intros st2 (E & _). }
    intros b Eb. eapply (safe_bind _ _ _ (fun _ => True)).
    - destruct (session h (pool b)) as [s|] eqn:Hs; [|by apply safe_ret]. eapply (safe_bind _ _ _ (fun _ => True)).
      + apply raw_ok; [exact HJ| |in_methods|lia]. unfold target, found_in. rewrite <- Eb. exact Hs.
      + intros x _. by apply safe_ret.
    - intros v _. eapply safe_bind; [by apply bound_ok|]. intros w _. by apply safe_ret. }
  by destruct (Hsafe _ _ _ (within_refl _ _ _ _ HJ1) Hrun) as [(E1 & E2 & E4 & E3) _].
Qed.

Lemma host_keeps_sub (P Q : nat -> Prop) allowed (J : N -> Prop) :
  (forall s, P s -> Q s) -> host_keeps Q allowed J -> host_keeps P allowed J.
Proof. intros HPQ [H1 H2 H3 H4 H5]. split; eauto. Qed.

Lemma open_spec args (J : N -> Prop) st r st' :
  let allowed m := m ∈ methods_of "ida_db" in
  (forall res path n, J n -> J (after_open res path (next_ref (pool (broker st))) n)) ->
  host_keeps (opened st st') allowed J -> J (host st).1 ->
  db_open (N:=Logged N) args st = Done (r, st') ->
  lists_moved st st' /\ added (opened st st') allowed st st' /\ J (host st').1.
Proof.
  cbv zeta. set (allowed := fun m => _). intros Hopen HJ HJ0 Hrun. unfold db_open, need_arg_str in Hrun.
  assert (forall st1 : bstate (Logged N), sessions (pool (broker st1)) = sessions (pool (broker st)) /\ open_dbs (broker st1) = open_dbs (broker st) ->
    (host st1).2 = (host st).2 -> J (host st1).1 ->
    lists_moved st st1 /\ added (opened st st1) allowed st st1 /\ J (host st1).1) as Hnone.
  { intros st1 Hl E HJ1. split; [by left|]. split; [|done]. exists []. by rewrite app_nil_r. }
  destruct (arg_str args "path") as [path|]; cbn [needM] in Hrun; [|injection Hrun as <- <-; by apply Hnone].
  change (bindM (retM path) ?k st) with (k path st) in Hrun. cbv beta in Hrun. unfold bindM at 1 in Hrun.
  destruct (spawn path _ _ st) as [[[e|res] st1]| |] eqn:Hsp; [| |done..]; apply spawn_lists in Hsp as (Hlog & [res' Hn] & Hsp);
    (assert (J (host st1).1) as HJ1 by (rewrite Hn; by apply Hopen)).
  { injection Hrun as <- <-. by apply Hnone. }
  destruct res as [e|h]; cbn [resultM] in Hrun; [injection Hrun as <- <-; by apply Hnone|].
  destruct Hsp as [Es Eo]. pose proof (opened_rest h path (fun _ => True) st1 r st' (host_keeps_any _ _) Logic.I Hrun) as (E1 & E2 & _).
  assert (forall s, found_in (sessions (pool (broker st1))) h s -> opened st st' s) as Hfound.
  { intros s Hs. exists h, path. rewrite E1, E2. split; [done|]. split; [done|]. unfold session. rewrite E1. exact Hs. }
  eapply (opened_rest h path J) in Hrun as (_ & _ & E4 & new & E3 & Hnew); [|by eapply host_keeps_sub|done].
  split; [right; right; exists h, path; split; congruence|]. split; [|done]. exists new. split; [congruence|].
  eapply Forall_impl; [exact Hnew|]. intros q [Hq1 Hq2 Hq3]. split; [by apply Hfound|done|done].
Qed.

(** The sessions a call may talk to: those its arguments denote, and the one it opens. *)
Definition in_reach (name : string) (args : Value) st st' (s : nat) : Prop :=
  (exists d, d ∈ named_dbs args /\ denotes (sessions (pool (broker st))) (open_dbs (broker st)) d s)
  \/ (name = "ida_db" /\ opened st st' s).

Lemma added_mono (P Q : nat -> Prop) allowed st st' : (forall s, P s -> Q s) -> added P allowed st st' -> added Q allowed st st'.
Proof.
  intros HPQ (new & E & Hnew). exists new. split; [done|]. eapply Forall_impl; [exact Hnew|].
  intros q [H1 H2 H3]. split; [by apply HPQ|done|done].
Qed.

Lemma safe_moved {A} (t : handler (Logged N) A) (target : nat -> Prop) (allowed : string -> Prop) (J : N -> Prop) st r st' :
  safe (within (sessions (pool (broker st))) (open_dbs (broker st)) (host st).2 target allowed J) t (fun _ => True) ->
  J (host st).1 -> t st = Done (r, st') -> lists_moved st st' /\ added target allowed st st' /\ J (host st').1.
Proof.
  intros Ht HJ Hrun. destruct (Ht _ _ _ (within_refl _ _ _ _ HJ) Hrun) as [(E1 & E2 & E4 & E3) _]. split; [by left|by split].
Qed.

(** A call, for any property of the host its requests and its open keep. *)
Lemma call_spec name args (J : N -> Prop) st r st' :
  let allowed m := m ∈ methods_of name in
  host_keeps (in_reach name args st st') allowed J ->
  (name = "ida_db" -> forall res path n, J n -> J (after_open res path (next_ref (pool (broker st))) n)) ->
  J (host st).1 ->
  call_named (N:=Logged N) name args st = Done (r, st') ->
  lists_moved st st' /\ added (in_reach name args st st') allowed st st' /\ J (host st').1.
Proof.
  cbv zeta. intros HJ Hopen HJ0 Hrun. assert (Forall (fun m => m ∈ methods_of name) (methods_of name)) as Ha by (by apply Forall_forall).
  destruct (decide (name = "ida_db")) as [->|Hname].
  - change (call_named "ida_db" args) with (tool_db (N:=Logged N) args) in Hrun. specialize (Hopen eq_refl).
    assert (forall s, denotes (sessions (pool (broker st))) (open_dbs (broker st)) (arg_str args "db") s ->
      in_reach "ida_db" args st st' s) as Hden.
    { intros s H. left. exists (arg_str args "db"). split; [left|done]. }
    destruct (decide (default "info" (arg_str args "action") = "open")) as [Eo|No].
    { unfold tool_db in Hrun. rewrite Eo in Hrun. assert (forall s, opened st st' s -> in_reach "ida_db" args st st' s) as Hop by (by right).
      eapply open_spec in Hrun as (Hm & Hr & HJ'); [|done|by eapply host_keeps_sub|done]. split; [done|]. split; [|done].
      by eapply added_mono. }
    destruct (decide (default "info" (arg_str args "action") = "close")) as [Ec|Nc].
    { unfold tool_db in Hrun. rewrite Ec in Hrun. eapply close_spec in Hrun as (Hm & Hr & HJ'); [|by eapply host_keeps_sub|done].
      split; [done|]. split; [|done]. by eapply added_mono. }
    eapply safe_moved in Hrun as (Hm & Hr & HJ'); [done| |done].
    apply db_other_ok with (action := default "info" (arg_str args "action")); [done|exact Hden|set_solver| |done].
    destruct (arg_str args "action"); [by left|by right].
  - eapply safe_moved in Hrun as (Hm & Hr & HJ'); [done|apply other_tools_ok; [exact HJ|done|done|]|done].
    intros d s Hd Hs. left. by exists d.
Qed.

Lemma call_sent name args st r st' :
  call_named (N:=Logged N) name args st = Done (r, st') ->
  lists_moved st st' /\ added (in_reach name args st st') (fun m => m ∈ methods_of name) st st'.
Proof.
  intros Hrun. apply (call_spec _ _ (fun _ => True)) in Hrun as (Hm & Hr & _); [done|apply host_keeps_any|done|done].
Qed.

(** C4. A tool call stays within its databases and its methods: whatever the
    tool and its arguments, every request it sends goes to the session that a
    database named in the arguments (or in an operation of a batch, or the
    only open one when none is named) denotes, or to the one the call itself
    opens; the method of a request it sends itself is one of those listed for
    the tool; the method of a background job is the agent's choice, any but
    those in the refusal list of [ida_jobs] ([Tools.MUTATING], which lacks
    analyze_wait, run_plugin, db.open, db.close and shutdown); the budget is
    between five seconds and thirty minutes; and the sessions change by
    opening or closing one database at most. *)
Theorem calls_confined (name : string) (args : Value) (st st' : bstate (Logged N)) (r : McpError + Value) :
  call_named name args st = Done (r, st') ->
  exists new, (host st').2 = (host st).2 ++ new
    /\ Forall (fun q => in_reach name args st st' (rq_session q)
         /\ match rq_job q with None => rq_method q ∈ methods_of name | Some _ => rq_method q ∉ MUTATING end
         /\ (5000 <= rq_budget q <= 1800000)%Z) new
    /\ lists_moved st st'.
Proof.
  intros Hrun. apply call_sent in Hrun as (Hm & new & E & Hnew). exists new. split; [done|]. split; [|done].
  eapply Forall_impl; [exact Hnew|]. by intros q [H1 H2 H3].
Qed.

(** ** The broker in service *)

(** What happens to a broker: tool calls, resource reads, ticks of the
    janitor, the end of a background job, and the world going on. *)
Inductive mcp_step : bstate (Logged N) -> bstate (Logged N) -> Prop :=
  | step_tool name args r st st' : call_named name args st = Done (r, st') -> mcp_step st st'
  | step_resource uri r st st' : read_resource uri st = Done (r, st') -> mcp_step st st'
  | step_janitor r st st' : janitor_tick st = Done (r, st') -> mcp_step st st'
  | step_job t id out st : mcp_step st {| broker := set_jobs_table (complete t id out (jobs_at (broker st))) (next_id (broker st)) (broker st);
                                          host := host st |}
  | step_host st n : mcp_step st {| broker := broker st; host := n |}.

Inductive in_service : bstate (Logged N) -> Prop :=
  | service_new c id n : in_service {| broker := Broker_new c id; host := n |}
  | service_step st st' : in_service st -> mcp_step st st' -> in_service st'.

(** The databases listed as open are those of the sessions, in the same order. *)
Definition listed (b : Broker) : Prop := (open_dbs b).*1 = (sessions (pool b)).*1.

Lemma drop_db_fst {A} db (l : list (string * A)) : (drop_db db l).*1 = filter (fun h => h <> db) l.*1.
Proof. unfold drop_db. by rewrite filter_fmap. Qed.

Lemma moved_listed st st' : lists_moved st st' -> listed (broker st) -> listed (broker st').
Proof.
  unfold listed. intros [[-> ->]|[(db & -> & ->)|(h & path & -> & ->)]] H; [done| |].
  - by rewrite !drop_db_fst, H.
  - by rewrite !fmap_app, H.
Qed.

Lemma resource_ok uri (target : nat -> Prop) ss dbs log (J : N -> Prop) :
  host_keeps target (fun m => m ∈ resource_methods) J -> (forall r h, found_in ss h r -> target r) ->
  safe (within ss dbs log target (fun m => m ∈ resource_methods) J) (read_resource (N:=Logged N) uri) (fun _ => True).
Proof.
  intros HJ Ht. assert (Forall (fun m => m ∈ resource_methods) resource_methods) as Ha by (by apply Forall_forall).
  assert (forall id method, method ∈ resource_methods ->
    safe (within ss dbs log target (fun m => m ∈ resource_methods) J) (call_session (N:=Logged N) id method) (fun _ => True)) as Hc.
  { intros id method Hm. unfold call_session. eapply safe_bind.
    { apply (safe_broker _ (fun b => sessions (pool b) = ss)). by intros st (E & _). }
    intros b E. eapply (safe_bind _ _ _ target); [apply safe_need|intros s Hs; by apply call_ok].
    intros s Hs. unfold session in Hs. rewrite E in Hs. by eapply Ht. }
  unfold read_resource. eapply (safe_bind _ _ _ (fun _ => True)); [by apply safe_need|intros rest _].
  eapply (safe_bind _ _ _ (fun _ => True)); [by apply safe_need|intros [id kind] _].
  eapply (safe_bind _ _ _ (fun _ => True)); [|intros v _; eapply safe_bind; [by apply bound_ok|intros w _; by apply safe_ret]].
  apply safe_select; [|apply safe_fail]. repeat apply Forall_cons_2; [..|apply Forall_nil_2]; cbn [snd]; apply Hc; in_methods.
Qed.

Lemma janitor_ok (target : nat -> Prop) allowed ss dbs log (J : N -> Prop) :
  host_keeps target allowed J -> safe (within ss dbs log target allowed J) (janitor_tick (N:=Logged N)) (fun _ => True).
Proof.
  intros HJ. unfold janitor_tick.
  eapply safe_bind; [by apply now_ok|intros t1 _]. eapply safe_bind; [by apply (safe_broker _ (fun _ => True))|intros b _].
  destruct (ResultStore.sweep _ _ _). eapply safe_bind; [by apply set_ok|intros _ _]. eapply safe_bind; [by apply now_ok|intros t2 _].
  eapply safe_bind; [by apply (safe_broker _ (fun _ => True))|intros b2 _]. destruct (Jobs.sweep _ _).
  eapply safe_bind; [by apply set_ok|intros _ _]. eapply safe_bind; [by apply (safe_broker _ (fun _ => True))|intros b3 _]. cbv zeta.
  destruct (if (0 <? _)%Z then _ else _). eapply safe_bind; [by apply set_ok|intros _ _].
  case_match; [by apply set_ok|by apply safe_ret].
Qed.

Lemma service_listed st : in_service st -> listed (broker st).
Proof.
  induction 1 as [c id n|st st' _ IH Hstep]; [done|]. destruct Hstep as [name args r st st' Hrun|uri r st st' Hrun|r st st' Hrun|t id out st|st n].
  - apply call_sent in Hrun as [Hm _]. by eapply moved_listed.
  - eapply (safe_moved _ (fun _ => True)) in Hrun as [Hm _];
      [by eapply moved_listed|apply resource_ok; [apply host_keeps_any|done]|exact Logic.I].
  - eapply (safe_moved _ (fun _ => True) (fun _ => True)) in Hrun as [Hm _];
      [by eapply moved_listed|apply janitor_ok, host_keeps_any|exact Logic.I].
  - done.
  - done.
Qed.

(** C14. Database resolution is exact for every broker in service: the handle
    an agent passes denotes the session of that name and nothing else; when it
    passes none, the only open session is meant and it is always found; with
    none or several open the error says so and lists exactly the handles of
    the open sessions. The broker is left as it was. *)
Theorem resolution_exact (st : bstate (Logged N)) (db : option string) :
  in_service st ->
  resolve_db db st = Done
    (match db with
     | Some h => match session h (pool (broker st)) with
                 | Some s => inr (h, s)
                 | None => inl (mcp_code "unknown_db" ("db handle '" +:+ h +:+ "' is unknown or closed"))
                 end
     | None => match sessions (pool (broker st)) with
               | [] => inl (mcp_code "unknown_db" "no db open; call ida_db(action=open) first")
               | [(h, s)] => inr (h, s)
               | ss => inl (mcp_code "db_ambiguous" ("db handle omitted and " +:+ show_dec (Z.of_nat (length ss))
                   +:+ " DBs are open; specify one of: " +:+ join ", " ss.*1))
               end
     end, st).
Proof.
  intros Hs%service_listed. unfold listed in Hs. unfold resolve_db, bindM, brokerM. destruct db as [h|].
  { destruct (session h (pool (broker st))); done. }
  destruct (open_dbs (broker st)) as [|[h path] [|[h' path'] dbs]];
    destruct (sessions (pool (broker st))) as [|[k s] [|[k' s'] ss]] eqn:Es; try discriminate Hs; [done| |].
  - injection Hs as ->. unfold session. rewrite Es. cbn. by rewrite decide_True by done.
  - rewrite <- Hs, <- (length_fmap fst (_ :: _ :: ss)), <- Hs, length_fmap. done.
Qed.
End Db.

(** ** Witnesses *)

Module SurfaceWitness.
#[local] Instance demo_runtime : Runtime := {|
  serialize v := as_str v; pretty v := as_str v; store_order m := map_to_list m;
  jobs_order m := (map_to_list m).*2; store_order_perm m := Permutation_refl _ |}.
#[local] Instance demo_wasm : WasmLib := {|
  parse_all _ := []; read_body _ := WasmModule.Build_Body [] None; show_f32 _ := "0.0"; show_f64 _ := "0.0" |}.

(** A machine without IDA whose workers answer every request; time stands still. *)
#[local] Instance demo_host : Host unit := {|
  clock n := (0%Z, n); ask _ _ _ _ n := (Ok (JObj [("name", JStr "main")]), n); world _ := demo_world;
  after_open _ _ _ n := n; spawn_task _ _ _ _ _ n := n; read_file _ n := (inl "absent", n); stopwatch _ _ := 0%Z;
  next_child _ _ n := (IsoWitness.good, n); self_probe _ := Some false; idadir_set _ := false |}.

Definition fresh : bstate (Logged unit) := {| broker := Broker_new Config_default 1; host := (tt, []) |}.
Definition after (name : string) (args : Value) (st : bstate (Logged unit)) : bstate (Logged unit) :=
  match call_named name args st with Done (_, st') => st' | _ => st end.
Definition open_args (path : string) : Value := JObj [("action", JStr "open"); ("path", JStr path)].
Definition one_open : bstate (Logged unit) := Eval vm_compute in after "ida_db" (open_args "a.i64") fresh.
Definition two_open : bstate (Logged unit) := Eval vm_compute in after "ida_db" (open_args "b.i64") one_open.

Example opened : (open_dbs (broker two_open)).*2 = ["a.i64"; "b.i64"] /\ rq_method <$> (host two_open).2 = ["db.info"; "db.info"].
Proof. split; reflexivity. Qed.

(** Renaming a function in the second of two databases asks the second worker only. *)
Lemma calls_confined_witness :
  exists r st' new, call_named "ida_edit" (JObj [("db", JStr "db2"); ("ea", JStr "0x1000"); ("rename", JStr "f")])
      two_open = Done (r, st')
    /\ (host st').2 = (host two_open).2 ++ new /\ new <> [] /\ Forall (fun q => (5000 <= rq_budget q <= 1800000)%Z) new.
Proof.
  destruct (call_named "ida_edit" (JObj [("db", JStr "db2"); ("ea", JStr "0x1000"); ("rename", JStr "f")]) two_open)
    as [[r st']| |] eqn:E; [|vm_compute in E; discriminate E..].
  destruct (calls_confined _ _ _ _ _ E) as (new & Hnew & Hq & _). exists r, st', new. split; [reflexivity|]. split; [exact Hnew|]. split.
  - intros ->. vm_compute in E. injection E as <- <-. discriminate Hnew.
  - eapply Forall_impl; [exact Hq|]. by intros q (_ & _ & H).
Defined.

Lemma after_served name args st : in_service st -> in_service (after name args st).
Proof.
  intros Hs. unfold after. destruct (call_named name args st) as [[r st']| |] eqn:E; [|exact Hs..].
  exact (service_step _ _ Hs (step_tool _ _ _ _ _ E)).
Qed.

Lemma two_open_served : in_service two_open.
Proof.
  assert (two_open = after "ida_db" (open_args "b.i64") (after "ida_db" (open_args "a.i64") fresh)) as -> by (vm_compute; reflexivity).
  apply after_served, after_served, service_new.
Qed.

(** With two databases open, omitting the handle is refused and both are listed. *)
Lemma resolution_exact_witness :
  in_service two_open /\ resolve_db (Some "db2") two_open = Done (inr ("db2", 1%nat), two_open)
  /\ resolve_db None two_open = Done (inl (mcp_code "db_ambiguous" "db handle omitted and 2 DBs are open; specify one of: db1, db2"), two_open).
Proof.
  split; [exact two_open_served|]. split.
  - exact (resolution_exact two_open (Some "db2") two_open_served).
  - exact (resolution_exact two_open None two_open_served).
Defined.
End SurfaceWitness.
