(* ===== verification/Served.v ===== *)
(** * Served: the broker over its workers

    Composes the broker's tools with the worker processes they talk to: a
    host in which every session is a worker in the state its requests have
    led to, and a request is handled by that worker ([WorkerMain]).  The
    theorems say what a tool call can do to the databases. *)

From stdpp Require Import base list gmap strings sets.
From Stdlib Require Import ZArith Lia.
From S2P Require Import Prelude Text Handles Protocol ResultStore Discovery Pump Pool Jobs Isolation Config.
From S2P Require Import Json Errors Backend Mutations Index Workflow Worker Rules Crypto Analyses WorkerMain.
From S2P Require Import ToolDefs Broker Tools LargeFnTools WasmTools Registry Surface.

Local Open Scope rmcp_scope.

(** ** Requests that leave the database as it is *)

Definition quiet_methods : list string :=
  ["db.info"; "capabilities"; "functions"; "function_at"; "segments"; "strings"; "xrefs_to"; "xrefs_from"; "disassemble"; "decompile";
   "graph"; "search_text"; "search_immediate"; "get_bytes"; "get_comment"; "types"; "db.metadata"; "imports.list"; "fixups.list";
   "file.map"; "func.tails"; "func.switch_info"; "func.sp_delta"; "hr.cfunc"; "region.evidence"; "insn.features"; "names.demangle";
   "list_plugins"; "deep.function"; "deep.dataflow"; "value.propagate"; "types.evidence"; "types.vtable"; "types.propose";
   "intel.crypto"; "intel.packs"; "intel.api_hashes"; "intel.strings"; "deob.run"; "sig.identify"; "sig.export"; "sig.map";
   "sig.fingerprints"; "sig.diff"; "revision"; "index.build"; "index.query"; "index.status"; "workflow.run"; "hr.microcode";
   "deob.propose"; "deob.validate"; "plan.mutations"; "mutation.audit"].

(** The tools that send nothing else to the workers, now or later. *)
Definition read_tools : list string :=
  filter (fun name => name <> "ida_jobs" /\ Forall (fun m => m ∈ quiet_methods) (methods_of name)) tool_names.

Section Quiet.
Context {B : Type} `{!IdaBackend B}.
Context (to_lowercase : string -> string) (to_text : Value -> option string).
Context (parse_query : Value -> string + EvidenceQuery) (parse_request : Value -> string + WorkflowRequest).
Context (parse_sig : Value -> string + Signatures.SigIndex) (parse_json : string -> string + Value) (is_alphanumeric : string -> bool).
Context (write_sig : string -> Signatures.SigIndex -> Result unit).
Context (new_mock : B) (idalib : option (string * (string + Z * Z) * B)) (fuel : nat).

(** What of a worker its reads may not touch: the backend, the audit trail, and
    whether it is to exit. *)
Definition lasting (w : Process B) : WorkerState B * bool := (ws w, closed w).

(** They stay as they are. *)
Definition quiet (h : Process B -> answered (B:=B)) : Prop := forall w res w', h w = Done (res, w') -> lasting w' = lasting w.

Lemma quiet_same (f : Process B -> outcome (Result Value)) : quiet (fun w => r <~ f w; Done (r, w)).
Proof using Type. intros w res w'. destruct (f w); cbn [obind]; [|done..]. by intros [= _ <-]. Qed.

Lemma asking_quiet f : quiet (asking f).
Proof using Type. by intros w res w' [= _ <-]. Qed.

Lemma asking_with_quiet {A} (args : Result A) f : quiet (asking_with args f).
Proof using Type. by intros w res w' [= _ <-]. Qed.

Lemma fresh_index_ws b (w : Process B) : lasting (fresh_index b w).2 = lasting w.
Proof using Type. unfold fresh_index. repeat case_match; done. Qed.

Lemma with_index_quiet {A} (args : Result A) k :
  (forall a b idx, quiet (k a b idx)) -> quiet (with_index args k).
Proof using Type.
  intros Hk w res w'. unfold with_index. destruct (a <-? args; _) as [e|[a b]]; [by intros [= _ <-]|].
  pose proof (fresh_index_ws b w) as Hw. destruct (fresh_index b w) as [[e|im] w1]; cbn [snd] in Hw; [by intros [= _ <-]|].
  intros Hrun%Hk. congruence.
Qed.

Lemma indexed_quiet {A} (args : Result A) f : quiet (indexed args f).
Proof using Type. apply with_index_quiet. intros a b idx. apply (quiet_same (fun _ => f a b idx)). Qed.

Lemma through_cache_quiet k compute : quiet (through_cache k compute).
Proof using Type.
  intros w res w'. unfold through_cache. destruct (cache_get k (w_cache w)) as [[v|] c]; [by intros [= _ <-]|].
  destruct compute as [[e|v]| |]; cbn [obind]; [by intros [= _ <-]..|done|done].
Qed.

Lemma beside_cache_quiet compute : quiet (beside_cache compute).
Proof using Type. intros w res w'. unfold beside_cache. destruct compute; cbn [obind]; [|done..]. by intros [= _ <-]. Qed.

Hint Resolve asking_quiet asking_with_quiet indexed_quiet through_cache_quiet beside_cache_quiet : core.

Lemma read_arms_quiet env params :
  Forall (fun a => quiet a.2) (read_arms parse_sig parse_json is_alphanumeric write_sig fuel env params).
Proof using Type.
  unfold read_arms.
  repeat apply Forall_cons_2; try apply Forall_nil_2; cbn [snd];
    first [apply asking_quiet | apply asking_with_quiet | apply indexed_quiet | idtac].
  - apply with_index_quiet. intros root b idx. case_match; auto.
  - apply with_index_quiet. auto.
  - apply with_index_quiet. auto.
  - apply with_index_quiet. intros max b idx w res w'. destruct (load_effective _ _) as [[e|rules]| |]; cbn [obind]; [by intros [= _ <-]| |done..].
    apply through_cache_quiet.
  - intros w res w'. unfold do_intel_packs. destruct (load_effective _ _); cbn [obind]; [by intros [= _ <-]|done..].
  - by intros w res w' [= _ <-].
  - unfold do_sig_fingerprints. destruct (get "ea" params); [apply asking_with_quiet|apply indexed_quiet].
  - by intros w res w' [= _ <-].
Qed.

Abbreviation fdispatch := (full_dispatch to_lowercase to_text parse_query parse_request parse_sig parse_json is_alphanumeric
  write_sig new_mock idalib fuel).
Abbreviation fhandle := (full_handle to_lowercase to_text parse_query parse_request parse_sig parse_json is_alphanumeric
  write_sig new_mock idalib fuel).
Abbreviation wdispatch := (worker_dispatch to_lowercase to_text parse_query parse_request).

(** The quiet methods that are not among the read arms. *)
Definition quiet_rest : list string := drop 44 quiet_methods.

Lemma workflow_run_quiet params : quiet (do_workflow_run to_lowercase to_text parse_request params).
Proof using Type.
  intros w res w'. unfold do_workflow_run. destruct (parse_request _); [by intros [= _ <-]|].
  destruct (need_backend (ws w)) as [e|b]; [by intros [= _ <-]|]. pose proof (fresh_index_ws b w) as Hw.
  destruct (fresh_index b w) as [[e|[idx md5]] w1]; cbn [snd] in Hw; [by intros [= _ <-]|].
  intros Hrun%through_cache_quiet. congruence.
Qed.

Lemma hr_microcode_quiet params : quiet (do_hr_microcode params).
Proof using Type.
  intros w res w'. unfold do_hr_microcode. case_match; [by intros [= _ <-]|]. case_match. apply through_cache_quiet.
Qed.

Lemma index_build_ws (w : Process B) : lasting (do_index_build w).2 = lasting w.
Proof using Type. unfold do_index_build. repeat case_match; done. Qed.

Lemma index_query_ws params (w : Process B) : lasting (do_index_query to_lowercase parse_query params w).2 = lasting w.
Proof using Type.
  unfold do_index_query. destruct (parse_query _) as [e0|q]; [done|]. destruct (need_backend _) as [e|b]; [done|].
  pose proof (fresh_index_ws b w) as Hw. by destruct (fresh_index b w).
Qed.

Lemma deob_propose_ws params (w : Process B) : lasting (do_deob_propose params w).2 = lasting w.
Proof using Type.
  unfold do_deob_propose. destruct (bindR _ _) as [e|[[target kind] b]]; [done|].
  pose proof (fresh_index_ws b w) as Hw. by destruct (fresh_index b w).
Qed.

Lemma checked_ws {A} (r : Result A) st (f : A -> outcome (Result Value * WorkerState B)) res st' :
  (forall a, f a = Done (res, st') -> st' = st) -> checked r st f = Done (res, st') -> st' = st.
Proof using Type. intros Hf. unfold checked. destruct r as [e|a]; [by intros [= _ <-]|]. apply Hf. Qed.

Lemma rest_quiet method params w res w' :
  method ∈ quiet_rest -> wdispatch method params w = Some (Done (res, w')) -> lasting w' = lasting w.
Proof using Type.
  intros Hm E. unfold quiet_rest in Hm. cbn [drop quiet_methods] in Hm. unfold worker_dispatch in E.
  repeat (apply elem_of_cons in Hm as [->|Hm]; [|]); [..|by apply elem_of_nil in Hm];
    repeat first [rewrite bool_decide_false in E by discriminate | rewrite bool_decide_true in E by reflexivity].
  - by injection E as _ <-.
  - injection E as E. by rewrite <- (index_build_ws w), E.
  - injection E as E. by rewrite <- (index_query_ws params w), E.
  - by injection E as _ <-.
  - injection E as E. by apply workflow_run_quiet in E.
  - injection E as E. by apply hr_microcode_quiet in E.
  - injection E as E. by rewrite <- (deob_propose_ws params w), E.
  - by injection E as _ <-.
  - unfold dispatch in E. repeat first [rewrite bool_decide_false in E by discriminate | rewrite bool_decide_true in E by reflexivity].
    cbn [mbind option_bind] in E. injection E as E. destruct (do_plan_mutations params (ws w)) as [[r st]| |] eqn:Hd; cbn [obind] in E; [|done..].
    apply Done_inj, (f_equal snd) in E. cbn [snd fst] in E. unfold do_plan_mutations in Hd. apply checked_ws in Hd; [|by intros a [= _ <-]].
    subst w' st. by destruct (_ && _).
  - unfold dispatch in E. repeat first [rewrite bool_decide_false in E by discriminate | rewrite bool_decide_true in E by reflexivity].
    unfold do_mutation_audit in E. cbn [mbind option_bind obind] in E. injection E as _ <-. done.
Qed.

(** A quiet request that is answered leaves them as they are. *)
Lemma quiet_handle env req w resp w' :
  req_method req ∈ quiet_methods -> fhandle env req w = Done (resp, w') -> lasting w' = lasting w.
Proof using Type.
  intros Hm Hrun. unfold full_handle in Hrun. destruct (fdispatch env _ _ w) as [[res w1]| |] eqn:Hd; cbn [obind] in Hrun; [|done..].
  assert (lasting w1 = lasting w) as <-.
  { unfold full_dispatch in Hd. destruct (arm_of _ _) as [h|] eqn:Ha.
    - apply arm_of_elem, elem_of_app in Ha as [Ha|Ha].
      + pose proof (read_arms_quiet env (req_params req)) as Hall. rewrite Forall_forall in Hall. by eapply (Hall _ Ha).
      + exfalso. apply (list_elem_of_fmap_2 fst) in Ha. cbn [other_arms fmap list_fmap fst] in Ha.
        assert (forall m, m ∈ ["backend.select"; "db.save"; "run_plugin"] -> m ∉ quiet_methods) as Hno; [|by eapply Hno].
        apply Forall_forall. apply (bool_decide_unpack _). vm_compute. exact Logic.I.
    - assert (req_method req ∈ quiet_rest) as Hr.
      { rewrite <- (take_drop 44 quiet_methods) in Hm. apply elem_of_app in Hm as [Hm|Hm]; [|exact Hm]. exfalso.
        assert (exists h, arm_of (req_method req) (read_arms parse_sig parse_json is_alphanumeric write_sig fuel env (req_params req)
          ++ other_arms new_mock idalib (req_params req)) = Some h) as [h Hh]; [|congruence].
        cbn [take quiet_methods] in Hm. repeat (apply elem_of_cons in Hm as [->|Hm]; [by eexists|]). by apply elem_of_nil in Hm. }
      destruct (wdispatch _ _ w) as [o|] eqn:Hw; [subst o; by eapply rest_quiet|by injection Hd as _ <-]. }
  apply Done_inj in Hrun. unfold respond in Hrun. injection Hrun as _ <-. cbn [fst snd]. by case_match.
Qed.
End Quiet.

(** ** The host of a broker with its workers *)

(** The workers by session, the background requests not yet handled, and the
    number of things that have happened. *)
Record Workers (B : Type) := {
  procs : gmap nat (Process B);
  queue : list (string * nat * WorkerRequest);
  turn : nat;
}.
Arguments procs {B} _.
Arguments queue {B} _.
Arguments turn {B} _.
Arguments Build_Workers {B} _ _ _.

Section Served.
Context {B : Type} `{!IdaBackend B} {RT : Runtime} {WL : WasmLib}.
Context (to_lowercase : string -> string) (to_text : Value -> option string).
Context (parse_query : Value -> string + EvidenceQuery) (parse_request : Value -> string + WorkflowRequest).
Context (parse_sig : Value -> string + Signatures.SigIndex) (parse_json : string -> string + Value) (is_alphanumeric : string -> bool).
Context (write_sig : string -> Signatures.SigIndex -> Result unit).
Context (new_mock : B) (idalib : option (string * (string + Z * Z) * B)) (fuel : nat) (envs : nat -> Env).
(** The rest of the machine: the clock, which calls outlast their budget, the
    pool's view of it, the files, and the disposable processes. *)
Context (time : nat -> Z) (late : nat -> Z -> bool) (site : World) (file : string -> string + list Z) (child : nat -> Child).
Context (probed : option bool) (idadir_present : bool).
(** The backend the pool asks the k-th worker for. *)
Context (backend_kind : nat -> string).

Abbreviation handle_at := (worker_handle to_lowercase to_text parse_query parse_request parse_sig parse_json is_alphanumeric
  write_sig new_mock idalib fuel envs).

(** A worker after the two requests of an open: the backend selected, the file opened. *)
Definition boot (k : nat) (path : string) : Process B :=
  match serve_all handle_at k
    [{| req_id := 1; req_method := "backend.select"; req_params := JObj [("kind", JStr (backend_kind k))] |};
     {| req_id := 2; req_method := "db.open"; req_params := JObj [("path", JStr path)] |}] Process_new with
  | Done (_, w) => w
  | _ => Process_new
  end.

Definition timed_out (ms : Z) : Error :=
  Worker ("worker timed out after " +:+ show_dec (ms / 1000) +:+ "s (budget: the agent may pass timeout_ms, 5000..1800000)").

(** The worker of session [s] handles a request; one that panics is gone, and
    one that was asked to close exits. *)
Definition serve (s : nat) (method : string) (params : Value) (n : Workers B) : option WorkerResponse * Workers B :=
  let k := turn n in
  match procs n !! s with
  | None => (None, {| procs := procs n; queue := queue n; turn := S k |})
  | Some w =>
      match handle_at k {| req_id := Z.of_nat k; req_method := method; req_params := params |} w with
      | Done (resp, w') =>
          (Some resp, {| procs := if closed w' then delete s (procs n) else <[s := w']> (procs n); queue := queue n; turn := S k |})
      | _ => (None, {| procs := delete s (procs n); queue := queue n; turn := S k |})
      end
  end.

Definition tick {A} (a : A) (n : Workers B) : A * Workers B := (a, {| procs := procs n; queue := queue n; turn := S (turn n) |}).

#[global] Instance served_host : Host (Workers B) := {
  clock n := tick (time (turn n)) n;
  ask s m p ms n :=
    let '(resp, n') := serve s m p n in
    (match resp with
     | Some r => if late (turn n) ms then Err (timed_out ms) else response_value r
     | None => Err (Worker "worker dropped response (crashed?)")
     end, n');
  world n := site;
  after_open r path ref n :=
    match r with
    | inr _ => {| procs := <[ref := boot (turn n) path]> (procs n); queue := queue n; turn := S (S (turn n)) |}
    | inl _ => n
    end;
  spawn_task id s m p ms n :=
    {| procs := procs n; queue := queue n ++ [(id, s, {| req_id := 0; req_method := m; req_params := p |})]; turn := turn n |};
  read_file path n := tick (file path) n;
  stopwatch n k := time (turn n + k);
  next_child exe dir n := tick (child (turn n)) n;
  self_probe n := probed;
  idadir_set n := idadir_present;
}.

Implicit Types st : bstate (Logged (Workers B)).

Lemma serve_other s s' method params n :
  s <> s' -> procs (serve s method params n).2 !! s' = procs n !! s'.
Proof using Type.
  intros Hne. unfold serve. destruct (procs n !! s) as [w|]; [|done].
  destruct (handle_at _ _ w) as [[resp w']| |]; cbn [snd procs]; [|by rewrite lookup_delete_ne..].
  destruct (closed w'); [by rewrite lookup_delete_ne|by rewrite lookup_insert_ne].
Qed.

Lemma ask_procs s m p ms n : procs (ask s m p ms n).2 = procs (serve s m p n).2.
Proof using Type. cbn [ask served_host]. by destruct (serve s m p n). Qed.

(** [keeps_procs P]: [P] of the workers is kept when the only requests handled
    are those of the sessions in [target] with an allowed method. *)
Lemma keeps_procs (target : nat -> Prop) (allowed : string -> Prop) (P : gmap nat (Process B) -> Prop) :
  (forall s m p n, target s -> allowed m -> P (procs n) -> P (procs (serve s m p n).2)) ->
  host_keeps target allowed (fun n => P (procs n)).
Proof using Type.
  intros H. split; try done. intros s m p ms n Hs Hm HP. rewrite ask_procs. by apply H.
Qed.

(** C5. Databases are isolated from each other, from the agent's call down to
    the worker processes: whatever tool is called with whatever arguments, a
    worker whose session the arguments do not denote and the call does not
    open is in exactly the state it was in. *)
Theorem databases_isolated (name : string) (args : Value) (st st' : bstate (Logged (Workers B))) (r : McpError + Value) (s : nat) :
  call_named name args st = Done (r, st') ->
  ~ in_reach name args st st' s -> s <> next_ref (pool (broker st)) ->
  procs (host st').1 !! s = procs (host st).1 !! s.
Proof using Type.
  intros Hrun Hs Hnew.
  apply (call_spec name args (fun n => procs n !! s = procs (host st).1 !! s)) in Hrun as (_ & _ & H); [done| | |done].
  - apply (keeps_procs _ _ (fun ps => ps !! s = procs (host st).1 !! s)). intros s' m p n Hs' _ <-. apply serve_other. congruence.
  - intros -> res path n <-. cbn [after_open served_host]. destruct res; [done|]. cbn [procs]. by rewrite lookup_insert_ne.
Qed.

(** The request [m] with [p] is not answered by a worker in state [w]: the
    worker panics, or the model runs out of fuel. *)
Definition unanswered (k : nat) (m : string) (p : Value) (w : Process B) : Prop :=
  forall resp w', handle_at k {| req_id := Z.of_nat k; req_method := m; req_params := p |} w <> Done (resp, w').

(** A worker is gone because a read made it panic while it held the database [w] has. *)
Definition crashed_reading (w : Process B) : Prop :=
  exists k m p w1, m ∈ quiet_methods /\ lasting w1 = lasting w /\ unanswered k m p w1.

(** No worker is new, the workers that are left have the database and the
    audit trail they had, and a running worker that is not left panicked on a
    read. *)
Definition same_databases (ps ps' : gmap nat (Process B)) : Prop :=
  (forall s w', ps' !! s = Some w' -> exists w, ps !! s = Some w /\ lasting w' = lasting w) /\
  (forall s w, ps !! s = Some w -> closed w = false -> is_Some (ps' !! s) \/ crashed_reading w).

Lemma same_databases_refl ps : same_databases ps ps.
Proof using Type. split; [intros s w Hw; by exists w | eauto]. Qed.

(** A worker the second map lacks, when it was the one at [s]. *)
Lemma same_databases_gone s w ps ps' :
  same_databases ps ps' -> ps' !! s = Some w -> (closed w = false -> crashed_reading w) -> same_databases ps (delete s ps').
Proof using Type.
  intros [H1 H2] Hw Hc. split; [intros s' x [_ Hx]%lookup_delete_Some; eauto |].
  intros s' x Hx Ho. destruct (decide (s = s')) as [<- | Hne]; [| rewrite lookup_delete_ne by done; eauto].
  right. destruct (H1 _ _ Hw) as (x' & Hx' & E). rewrite Hx in Hx'. injection Hx' as <-.
  destruct Hc as (k & m & p & w1 & Hm & E1 & Hu); [unfold lasting in E; congruence |].
  exists k, m, p, w1. split_and!; [done | congruence | done].
Qed.

Lemma same_databases_kept s w w' ps ps' :
  same_databases ps ps' -> ps' !! s = Some w -> lasting w' = lasting w -> same_databases ps (<[s := w']> ps').
Proof using Type.
  intros [H1 H2] Hw E. split.
  - intros s' x [[<- <-] | [_ Hx]]%lookup_insert_Some; [| eauto]. destruct (H1 _ _ Hw) as (w0 & H0 & E0). exists w0. split; [done | congruence].
  - intros s' x Hx Ho. destruct (decide (s = s')) as [<- | Hne]; [left; rewrite lookup_insert_eq; eauto | rewrite lookup_insert_ne by done; eauto].
Qed.

Lemma serve_quiet s m p n ps : m ∈ quiet_methods -> same_databases ps (procs n) -> same_databases ps (procs (serve s m p n).2).
Proof using Type.
  intros Hm Hps. unfold serve. destruct (procs n !! s) as [w |] eqn:Hw; [| done].
  destruct (handle_at _ _ w) as [[resp w'] | |] eqn:Hh; cbn [snd procs].
  - unfold worker_handle in Hh. apply quiet_handle in Hh; [| done]. destruct (closed w') eqn:Hc; [| by eapply same_databases_kept].
    eapply same_databases_gone; [done.. |]. unfold lasting in Hh. congruence.
  - eapply same_databases_gone; [done.. |]. intros _. exists (turn n), m, p, w. split_and!; [done.. |]. intros ??. by rewrite Hh.
  - eapply same_databases_gone; [done.. |]. intros _. exists (turn n), m, p, w. split_and!; [done.. |]. intros ??. by rewrite Hh.
Qed.

Lemma quiet_keeps (target : nat -> Prop) (allowed : string -> Prop) ps :
  (forall m, allowed m -> m ∈ quiet_methods) -> host_keeps target allowed (fun n => same_databases ps (procs n)).
Proof using Type. intros Hq. apply keeps_procs. intros s m p n _ Hm. by apply serve_quiet, Hq. Qed.

End Served.

(** The read tools: 23 of the 36. *)
Example read_tools_are : read_tools =
  ["ida_capabilities"; "ida_functions"; "ida_inspect"; "ida_decompile"; "ida_disassemble"; "ida_xrefs"; "ida_graph"; "ida_search";
   "ida_result"; "ida_segments"; "ida_installations"; "ida_analyze"; "ida_evidence"; "ida_intel"; "ida_sig"; "ida_health";
   "ida_metadata"; "ida_wasm"; "ida_imports"; "ida_fixups"; "ida_filemap"; "ida_value"; "ida_insn"].
Proof. vm_compute. reflexivity. Qed.

(** ** Two databases, one edited, one read *)

Module ServedWitness.
#[local] Existing Instance SurfaceWitness.demo_runtime.
#[local] Existing Instance SurfaceWitness.demo_wasm.
#[local] Instance mock_host : Host (Workers MockBackend) :=
  served_host (B := MockBackend) id no_text no_criteria any_request no_sig no_json plain_char unwritten MockBackend_new None 60
    (fun _ => still) (fun _ => 0%Z) (fun _ _ => false) demo_world (fun _ => inl "absent") (fun _ => IsoWitness.good) (Some false) false (fun _ => "mock").

Definition fresh : bstate (Logged (Workers MockBackend)) :=
  {| broker := Broker_new Config_default 1; host := ({| procs := ∅; queue := []; turn := 0 |}, []) |}.
Definition after (name : string) (args : Value) (st : bstate (Logged (Workers MockBackend))) : bstate (Logged (Workers MockBackend)) :=
  match call_named name args st with Done (_, st') => st' | _ => st end.
Definition two_open : bstate (Logged (Workers MockBackend)) :=
  Eval vm_compute in after "ida_db" (SurfaceWitness.open_args "b.i64") (after "ida_db" (SurfaceWitness.open_args "a.i64") fresh).
Definition edit_second : Value := JObj [("db", JStr "db2"); ("ea", JStr "0x401000"); ("rename", JStr "start")].
Definition read_second : Value := JObj [("db", JStr "db2"); ("query", JObj [])].
Definition edited : bstate (Logged (Workers MockBackend)) := Eval vm_compute in after "ida_edit" edit_second two_open.

Definition revisions (st : bstate (Logged (Workers MockBackend))) : list (option Z) :=
  (fun s => w ← procs (host st).1 !! s; b ← backend (ws w); Some (revision b)) <$> [0; 1]%nat.

Example edit_moves_second : revisions two_open = [Some 0; Some 0]%Z /\ revisions edited = [Some 0; Some 1]%Z.
Proof. split; vm_compute; reflexivity. Qed.

Lemma databases_isolated_witness :
  exists r, call_named "ida_edit" edit_second two_open = Done (r, edited)
    /\ procs (host edited).1 !! 0%nat = procs (host two_open).1 !! 0%nat.
Proof.
  destruct (call_named "ida_edit" edit_second two_open) as [[r st']| |] eqn:E; [|vm_compute in E; discriminate E..].
  assert (st' = edited) as -> by (change edited with (after "ida_edit" edit_second two_open); unfold after; by rewrite E).
  exists r. split; [reflexivity|]. eapply (databases_isolated id no_text no_criteria any_request no_sig no_json plain_char unwritten MockBackend_new None 60
    (fun _ => still) (fun _ => 0%Z) (fun _ _ => false) demo_world (fun _ => inl "absent") (fun _ => IsoWitness.good) (Some false) false (fun _ => "mock")); [exact E| |vm_compute; discriminate].
  intros [(d & Hd & Hs)|[Hno _]]; [|discriminate Hno].
  vm_compute in Hd. apply elem_of_cons in Hd as [->|Hd]; [vm_compute in Hs; discriminate Hs|by apply elem_of_nil in Hd].
Defined.

End ServedWitness.
