(* ===== verification/Bench.v ===== *)
(** * Bench: the two benchmarks

    Models [src/src/bench.rs], which drives a mock worker through three
    scenarios, and [src/src/bench_real.rs], which drives a real one through
    three more.  A benchmark threads its own pool of [Pool] and the host of
    [Broker] behind it, whose workers answer as they like; the files of the
    real one are the class [Scratch].  [expect("session")] is a panic. *)

From stdpp Require Import base list gmap strings.
From Stdlib Require Import ZArith Lia SpecFloat.
From S2P Require Import Prelude Text Json Errors Handles Protocol Discovery Pump Pool Float Broker.

Local Open Scope rmcp_scope.

Record ScenarioResult := {
  name : string;
  ok : bool;
  round_trips : nat;
  output_bytes : nat;
  wall_ms : Z;
  detail : string;
}.

(** ** Computations over a pool and a host *)

Definition bench (N A : Type) : Type := WorkerPool -> N -> outcome (A * WorkerPool * N).

Definition retB {N A} (a : A) : bench N A := fun p n => Done (a, p, n).
Definition bindB {N A B} (t : bench N A) (k : A -> bench N B) : bench N B := fun p n =>
  r <~ t p n; let '(a, p', n') := r in k a p' n'.
Notation "x <-& t ; k" := (bindB t (fun x => k)) (at level 60, t at level 59, k at level 60, right associativity) : rmcp_scope.
Notation "t ;& k" := (bindB t (fun _ => k)) (at level 60, right associativity) : rmcp_scope.

(** The files of the real benchmark. *)
Class Scratch (N : Type) := {
  manifest_dir : string;
  temp_dir : string;
  remove_file : string -> N -> N;
  copy_file : string -> string -> N -> (string + unit) * N;
}.

Section Bench.
Context {N : Type} `{!Host N}.
(** [v.to_string()], and whether the binary is built for IDA 9.4. *)
Context (show_json : Value -> string) (idalib94 : bool).

Definition hostB {A} (f : N -> A * N) : bench N A := fun p n => let '(a, n') := f n in Done (a, p, n').
Definition started : bench N Z := hostB clock.
Definition elapsed (start : Z) : bench N Z := t <-& started; retB (Z.max 0 (t - start) / 10 ^ 6)%Z.

Definition open_db (path kind ver : string) : bench N (Result string) := fun p n =>
  let '(r, p') := spawn_for (world n) p path 8 kind ver in Done (r, p', after_open r path (next_ref p) n).

(** [pool.session(&h).await.expect("session")]. *)
Definition session_of (h : string) : bench N nat := fun p n => s <~ at_ (session h p); Done (s, p, n).

Definition call_s (s : nat) (method : string) (params : Value) : bench N (Result Value) :=
  hostB (ask s method params (call_timeout params 120000)).

(** [WorkerPool::close]: out of the pool first, then saved, closed and shut down. *)
Definition close_db (db : string) : bench N (Result unit) := fun p n =>
  match position db (sessions p) with
  | None => Done (Err (UnknownDb db), p, n)
  | Some idx =>
      slot <~ at_ (sessions p !! idx);
      let say m := call_s slot.2 m (JObj []) in
      (say "db.save";& say "db.close";& say "shutdown";& retB (Ok tt)) (close db p).2 n
  end.

(** ** The mock benchmark *)

(** A scenario of one request: [verdict] says what is wrong with an answer. *)
Definition scenario (name db method : string) (params : Value) (failed : string) (verdict : Value -> option string)
  : bench N ScenarioResult :=
  start <-& started;
  opened <-& open_db db "mock" "";
  match opened with
  | inl e =>
      w <-& elapsed start;
      retB {| name := name; ok := false; round_trips := 0; output_bytes := 0; wall_ms := w; detail := "open failed: " +:+ to_string e |}
  | inr h =>
      s <-& session_of h;
      a <-& call_s s method params;
      close_db h;&
      w <-& elapsed start;
      retB match a with
           | inr v => {| name := name; ok := bool_decide (verdict v = None); round_trips := 2;
                         output_bytes := String.length (show_json v); wall_ms := w; detail := default "" (verdict v) |}
           | inl e => {| name := name; ok := false; round_trips := 2; output_bytes := 0; wall_ms := w;
                         detail := failed +:+ " failed: " +:+ to_string e +:+ "; " |}
           end
  end.

Definition run_scenario (name db : string) (ea : Z) : bench N ScenarioResult :=
  scenario name db "workflow.run"
    (JObj [("workflow_req", JObj [("workflow", JStr "function_context"); ("ea", JStr (show_0x ea))])]) "function_context"
    (fun v => if is_null (v @@ "result" @@ "name") then Some "function_context returned no name; " else None).

Definition run_scenario_evidence : bench N ScenarioResult :=
  scenario "evidence_search" "mock-bench.i64" "index.query"
    (JObj [("query", JObj [("all", JArr [JObj [("name_contains", JStr "decrypt")]])])]) "index.query"
    (fun v => if bool_decide (default 0%Z (as_u64 (v @@ "count")) = 0%Z)
              then Some "evidence search found nothing for known import; " else None).

Definition run_scenario_deep : bench N ScenarioResult :=
  scenario "deep_chain_walk" "mock-bench.i64" "deep.function"
    (JObj [("target", JStr "0x401000"); ("depth", JNum 3); ("max_functions", JNum 10)]) "deep.function"
    (fun v => match as_array (v @@ "result" @@ "functions") with
              | Some (_ :: _) => None
              | _ => Some "deep walk visited nothing; "
              end).

Definition run_mock_bench : bench N (list ScenarioResult) :=
  r1 <-& run_scenario "one_call_function_context" "mock-bench.i64" 0x401000;
  r2 <-& run_scenario_evidence;
  r3 <-& run_scenario_deep;
  retB [r1; r2; r3].

(** ** The real benchmark *)

Context `{!Scratch N}.

Definition REQ_IDA_VERSION : string := if idalib94 then "9.4" else "9.2".

Definition fail (name : string) (start : Z) (why : string) : bench N ScenarioResult :=
  w <-& elapsed start;
  retB {| name := name; ok := false; round_trips := 0; output_bytes := 0; wall_ms := w; detail := why |}.

Definition fixture (m : Machine) (name : string) : option string :=
  let p := path_join m (path_join m (manifest_dir (N := N)) "tests/fixtures") name in
  if is_file m p then Some p else None.

Definition sidecars : list string := [".i64"; ".id0"; ".id1"; ".id2"; ".nam"; ".til"; ".idb"].

Definition open_real (name fixture_name : string) (start : Z) : bench N (ScenarioResult + string) :=
  m <-& hostB (fun n => (machine (world n), n));
  match fixture m fixture_name with
  | None => r <-& fail name start ("fixture missing: " +:+ fixture_name); retB (inl r)
  | Some src =>
      let dst := path_join m (temp_dir (N := N)) ("rmcp-bench-" +:+ fixture_name) in
      hostB (fun n => (tt, foldl (fun n ext => remove_file (dst +:+ ext) n) n sidecars));&
      copied <-& hostB (copy_file src dst);
      match copied with
      | inl e => r <-& fail name start ("copy: " +:+ e); retB (inl r)
      | inr _ =>
          opened <-& open_db dst "idalib" REQ_IDA_VERSION;
          match opened with
          | inr h => retB (inr h)
          | inl e =>
              r <-& fail name start ("no verified real-IDA backend available (bench cannot run): " +:+ to_string e
                                       +:+ " - set IDADIR to a licensed IDA 9.2 install");
              retB (inl r)
          end
      end
  end.

(** The function of that name, among the first 8000. *)
Definition ea_of (s : nat) (want : string) : bench N (string + Z) :=
  r <-& call_s s "functions" (JObj [("offset", JNum 0); ("limit", JNum 8000)]);
  retB match r with
       | inl e => inl ("functions: " +:+ to_string e)
       | inr fns =>
           match omap (fun f => if bool_decide (as_str (f @@ "name") = Some want) then as_u64 (f @@ "ea_start") else None)
                   (default [] (as_array fns)) with
           | ea :: _ => inr ea
           | [] => inl ("function '" +:+ want +:+ "' not found in fixture")
           end
       end.

Definition deep_request (root depth max_functions : Z) (rest : list (string * Value)) : Value :=
  JObj ([("target", JStr (show_0x root)); ("depth", JNum depth); ("max_functions", JNum max_functions)] ++ rest).

Definition is_true (v : Value) : bool := bool_decide (as_bool v = Some true).
Definition is_object (v : Value) : bool := match v with JObj _ => true | _ => false end.

(** What the first answer of a deep pass is checked for, in order. *)
Definition deep_checks (pass : nat) (v : Value) : list (bool * string) :=
  let cached := is_true (v @@ "cached") in
  let visited := default 0%Z (as_u64 (v @@ "result" @@ "visited_count")) in
  let fns := default [] (as_array (v @@ "result" @@ "functions")) in
  [(negb ((pass =? 1)%nat && cached), "pass1 unexpectedly cached; ");
   (3 <=? visited, "deep walk visited " +:+ show_dec visited +:+ " (<3); ");
   (Z.of_nat (length fns) =? visited, "single-decompile violation: " +:+ show_dec (Z.of_nat (length fns)) +:+ " dossiers for "
                                        +:+ show_dec visited +:+ " visited; ")]%Z.

Definition complaints (checks : list (bool * string)) : string := join "" (filter (fun c => c.1 = false) checks).*2.

Definition deep_pass (pass : nat) : bench N (ScenarioResult * option Value) :=
  let name := "deep_chain_walk" in
  let early start why := r <-& fail name start why; retB (r, None) in
  start <-& started;
  opened <-& open_real name "deep.exe" start;
  match opened with
  | inl r => retB (r, None)
  | inr h =>
      s <-& session_of h;
      found <-& ea_of s "process";
      match found with
      | inl e => early start e
      | inr root =>
          a <-& call_s s "deep.function" (deep_request root 4 32 []);
          match a with
          | inl e => early start ("deep.function failed: " +:+ to_string e)
          | inr v =>
              let cached := is_true (v @@ "cached") in
              let visited := default 0%Z (as_u64 (v @@ "result" @@ "visited_count")) in
              a2 <-& call_s s "deep.function" (deep_request root 4 32 []);
              match a2 with
              | inl e => early start ("deep.function repeat failed: " +:+ to_string e)
              | inr v2 =>
                  let repeat_cached := is_true (v2 @@ "cached") in
                  w <-& elapsed start;
                  let r := {|
                    name := name; ok := forallb fst (deep_checks pass v) && repeat_cached; round_trips := 3;
                    output_bytes := String.length (show_json v) + String.length (show_json v2); wall_ms := w;
                    detail := complaints (deep_checks pass v) +:+ "pass" +:+ show_dec (Z.of_nat pass) +:+ " visited=" +:+ show_dec visited
                                +:+ " cached=" +:+ (if cached then "true" else "false")
                                +:+ (if repeat_cached then "" else "; repeat not cached (re-decompiled)") |} in
                  close_db h;&
                  retB (r, Some (JObj [("visited_count", JNum visited); ("root", JStr (show_0x root));
                                       ("in_session_cache_hit", JBool repeat_cached)]))
              end
          end
      end
  end.

(** *** [one_call_function_context] *)

Record ContextRun := { c_ok : bool; c_detail : string; cache_hits : Z; fresh_runs : Z }.

Definition context_pass (s : nat) (req : Value) (pass : nat) (c : ContextRun) : bench N ContextRun :=
  a <-& call_s s "workflow.run" req;
  retB match a with
       | inr v =>
           let cached := is_true (v @@ "cached") in
           let late := (pass =? 2)%nat && negb cached in
           let nameless := is_null (v @@ "result" @@ "name") in
           {| c_ok := c_ok c && negb late && negb nameless;
              c_detail := c_detail c +:+ (if late then "pass2 not cached; " else "") +:+ (if nameless then "no name; " else "");
              cache_hits := default 0%Z (as_u64 (v @@ "cache_hits")); fresh_runs := fresh_runs c + (if cached then 0 else 1) |}%Z
       | inl e => {| c_ok := false; c_detail := c_detail c +:+ "workflow.run failed: " +:+ to_string e +:+ "; ";
                     cache_hits := cache_hits c; fresh_runs := fresh_runs c |}
       end.

Definition context_scenario : bench N (ScenarioResult * option Value) :=
  let name := "one_call_function_context" in
  start <-& started;
  opened <-& open_real name "simple.exe" start;
  match opened with
  | inl r => retB (r, None)
  | inr h =>
      s <-& session_of h;
      found <-& ea_of s "main";
      c <-& match found with
            | inl e => retB {| c_ok := false; c_detail := e +:+ "; "; cache_hits := 0; fresh_runs := 0 |}
            | inr ea =>
                let req := JObj [("workflow_req", JObj [("workflow", JStr "function_context"); ("ea", JStr (show_0x ea))])] in
                c <-& context_pass s req 1 {| c_ok := true; c_detail := ""; cache_hits := 0; fresh_runs := 0 |};
                context_pass s req 2 c
            end;
      w <-& elapsed start;
      close_db h;&
      retB ({| name := name; ok := c_ok c; round_trips := 2; output_bytes := 0; wall_ms := w; detail := c_detail c |},
            Some (JObj [("cache_hits", JNum (cache_hits c)); ("fresh_runs", JNum (fresh_runs c))]))
  end.

(** *** [timeout_resume] *)

(** The resumed calls: whether a terminal state was reached, and the error. *)
Fixpoint resume_rounds (left : nat) (s : nat) (root : Z) (token : Value) : bench N (bool * option Error) :=
  match left with
  | O => retB (false, None)
  | S left' =>
      a <-& call_s s "deep.function" (deep_request root 8 32 [("resume_from", token)]);
      match a with
      | inl e => retB (false, Some e)
      | inr v =>
          let token' := v @@ "result" @@ "resume" in
          if is_true (v @@ "result" @@ "budget_hit") && is_object token' then resume_rounds left' s root token'
          else retB (true, None)
      end
  end.

(** The verdict on the answer of the first call, with its complaints. *)
Definition resume_from (s : nat) (root : Z) (v : Value) : bench N (bool * string) :=
  let hit := is_true (v @@ "result" @@ "budget_hit") in
  let token := v @@ "result" @@ "resume" in
  let d0 := if hit then "" else "expected budget_hit; " in
  if is_object token then
    r <-& resume_rounds 32 s root token;
    let '(completed, err) := r in
    retB (hit && completed,
          d0 +:+ (match err with Some e => "resume failed: " +:+ to_string e +:+ "; " | None => "" end)
             +:+ (if completed then "" else "resume never reached terminal state; "))
  else retB (false, d0 +:+ "no resume token; ").

Definition resume_scenario : bench N ScenarioResult :=
  let name := "timeout_resume" in
  start <-& started;
  opened <-& open_real name "deep.exe" start;
  match opened with
  | inl r => retB r
  | inr h =>
      s <-& session_of h;
      found <-& ea_of s "process";
      let '(root, ok0, d0) := match found with inr ea => (ea, true, "") | inl e => (0%Z, false, e +:+ "; ") end in
      partial <-& (if (root =? 0)%Z then retB (Err (Worker "no chain root"))
                   else call_s s "deep.function" (deep_request root 4 2 []));
      r <-& match partial with
            | inr v => resume_from s root v
            | inl e => retB (false, "partial run failed: " +:+ to_string e +:+ "; ")
            end;
      let '(ok1, d1) := r in
      w <-& elapsed start;
      close_db h;&
      retB {| name := name; ok := ok0 && ok1; round_trips := 1; output_bytes := 0; wall_ms := w;
              detail := d0 +:+ d1 +:+ " (resumed pass bypasses result cache by design)" |}
  end.

Definition run_real_bench : bench N (list ScenarioResult * Value) :=
  a1 <-& deep_pass 1;
  a2 <-& deep_pass 2;
  a3 <-& context_scenario;
  r4 <-& resume_scenario;
  let deep_chain := JObj [("pass1", jopt id a1.2); ("pass2", jopt id a2.2)] in
  retB ([a1.1; a2.1; a3.1; r4],
        JObj (("deep_chain", deep_chain) :: match a3.2 with Some m => [("function_context", m)] | None => [] end)).
End Bench.

(** ** Reports *)

(** [x as usize]. *)
Definition f_to_usize (x : f64) : Z :=
  match x with
  | S754_finite false m e => Z.min usize_max (if (0 <=? e)%Z then Z.pos m * 2 ^ e else Z.pos m / 2 ^ (- e))
  | S754_infinity false => usize_max
  | _ => 0
  end.

Definition f0_5 : f64 := lit 4503599627370496 (-53).
Definition f0_95 : f64 := lit 8556839292003942 (-53).

(** The index of a quantile: [(((walls.len() as f64) - 1.0) * q).round() as usize]. *)
Definition quantile_index (len : nat) (q : f64) : nat :=
  Nat.min (Z.to_nat (f_to_usize (fround (fmul (fsub (f_of_nat len) f1) q)))) (len - 1).

Definition quantile (walls : list Z) (q : f64) : outcome Z :=
  match walls with
  | [] => Done 0%Z
  | _ => at_ (walls !! quantile_index (length walls) q)
  end.

(** [json!] of a [u128]: a number that fits 64 bits, or a panic. *)
Definition json_u128 (n : Z) : outcome Value := if (n <? u64_modulus)%Z then Done (JNum n) else Panic.

Definition scenario_json (r : ScenarioResult) : outcome Value :=
  w <~ json_u128 (wall_ms r);
  Done (JObj [("name", JStr (name r)); ("ok", JBool (ok r)); ("round_trips", jnat (round_trips r));
              ("output_bytes", jnat (output_bytes r)); ("wall_ms", w); ("detail", JStr (detail r))]).

Fixpoint scenarios_json (rs : list ScenarioResult) : outcome (list Value) :=
  match rs with
  | [] => Done []
  | r :: rs' => v <~ scenario_json r; vs <~ scenarios_json rs'; Done (v :: vs)
  end.

Definition latency (results : list ScenarioResult) : outcome Value :=
  let walls := sort_by_key id (wall_ms <$> results) in
  p50 <~ quantile walls f0_5; j50 <~ json_u128 p50;
  p95 <~ quantile walls f0_95; j95 <~ json_u128 p95;
  Done (JObj [("note", JStr "reported only; correctness and cache behavior are the gates"); ("p50_ms", j50); ("p95_ms", j95);
              ("samples", jnat (length walls))]).

Definition report (results : list ScenarioResult) : outcome Value :=
  rows <~ scenarios_json results;
  lat <~ latency results;
  Done (JObj [("benchmark", JStr "reverse-mcp-bench"); ("mode", JStr "mock"); ("scenarios", JArr rows);
    ("all_ok", JBool (forallb ok results)); ("latency", lat);
    ("thresholds", JObj [("note", JStr "mock-mode thresholds: correctness only; latency varies by runner")])]).

Definition report_real (results : list ScenarioResult) (extras : Value) : outcome Value :=
  rows <~ scenarios_json results;
  lat <~ latency results;
  Done (JObj [("benchmark", JStr "reverse-mcp-bench"); ("mode", JStr "real-ida");
    ("requires", JStr "licensed IDA 9.2 (IDADIR); verified backend registry entry"); ("no_mock_fallback", JBool true);
    ("scenarios", JArr rows); ("extras", extras); ("latency", lat); ("all_ok", JBool (forallb ok results))]).

(** ** They run to the end

    [total P t Q]: from a pool with [P], and whatever the host does, [t]
    returns, without a panic, and its result and the pool have [Q]. *)

Section Total.
Context {N : Type} `{!Host N}.

Definition total {A} (P : WorkerPool -> Prop) (t : bench N A) (Q : A -> WorkerPool -> Prop) : Prop :=
  forall p n, P p -> exists a p' n', t p n = Done (a, p', n') /\ Q a p'.

Lemma total_ret {A} (P : WorkerPool -> Prop) (a : A) Q : (forall p, P p -> Q a p) -> total P (retB a) Q.
Proof using Type. intros H p n HP. exists a, p, n. auto. Qed.

Lemma total_bind {A B} P (t : bench N A) (k : A -> bench N B) R Q :
  total P t R -> (forall a, total (R a) (k a) Q) -> total P (bindB t k) Q.
Proof using Type.
  intros Ht Hk p n HP. destruct (Ht p n HP) as (a & p1 & n1 & E & HR). destruct (Hk a p1 n1 HR) as (b & p2 & n2 & E2 & HQ).
  exists b, p2, n2. unfold bindB. by rewrite E.
Qed.

Lemma total_weaken {A} (P P' : WorkerPool -> Prop) (t : bench N A) (Q Q' : A -> WorkerPool -> Prop) :
  (forall p, P' p -> P p) -> (forall a p, Q a p -> Q' a p) -> total P t Q -> total P' t Q'.
Proof using Type. intros HP HQ Ht p n H. destruct (Ht p n (HP p H)) as (a & p' & n' & ? & ?). exists a, p', n'. auto. Qed.

Lemma total_use_pure {A} (F : Prop) P (t : bench N A) Q : (F -> total P t Q) -> total (fun p => F /\ P p) t Q.
Proof using Type. intros H p n [HF HP]. by apply H. Qed.

Lemma total_use_ex {A X} (P : X -> WorkerPool -> Prop) (t : bench N A) Q : (forall x, total (P x) t Q) -> total (fun p => exists x, P x p) t Q.
Proof using Type. intros H p n [x HP]. by eapply H. Qed.

Lemma total_swap {A} (F : Prop) P (t : bench N A) Q : total (fun p => P p /\ F) t Q <-> total (fun p => F /\ P p) t Q.
Proof using Type. split; apply total_weaken; tauto. Qed.

Lemma total_host {A} P (f : N -> A * N) : total P (hostB f) (fun _ => P).
Proof using Type. intros p n HP. unfold hostB. destruct (f n) as [a n']. by exists a, p, n'. Qed.

Lemma total_elapsed P start : total P (elapsed start) (fun w p => P p /\ (0 <= w)%Z).
Proof using Type.
  eapply total_bind; [apply total_host|]. intros t. apply total_ret. intros p HP. split; [done|]. apply Z.div_pos; lia.
Qed.

(** The pool lists [ss], and [k] more databases can be opened under new handles. *)
Definition holding (ss : list (string * nat)) (k : Z) (p : WorkerPool) : Prop :=
  sessions p = ss /\ (0 <= next_handle p)%Z /\ (next_handle p + k < u64_modulus)%Z
  /\ forall h, h ∈ ss.*1 -> exists j, (0 <= j < next_handle p)%Z /\ h = db_handle j.

Lemma holding_less ss k k' p : holding ss k p -> (k' <= k)%Z -> holding ss k' p.
Proof using Type. intros (? & ? & ? & ?) ?. split_and!; [done..|lia|done]. Qed.

Lemma holding_fresh ss k p : (0 <= k)%Z -> holding ss k p -> db_handle (next_handle p) ∉ ss.*1.
Proof using Type. intros Hk (_ & H0 & H1 & Hn) (j & Hj & E)%Hn. apply db_handle_inj in E; unfold is_u64; lia. Qed.

Lemma session_last (h : string) (s : nat) ss : h ∉ ss.*1 -> snd ∘ snd <$> list_find (fun hs => hs.1 = h) (ss ++ [(h, s)]) = Some s.
Proof using Type.
  intros Hn. rewrite list_find_app_r.
  - simpl. by rewrite decide_True by done.
  - apply list_find_None, Forall_forall. intros x Hx E. apply Hn. rewrite <- E. by apply list_elem_of_fmap_2.
Qed.

Lemma total_open ss k path kind ver : (0 <= k)%Z ->
  total (holding ss (k + 1)) (open_db path kind ver)
    (fun r p => match r with inl _ => holding ss k p | inr h => h ∉ ss.*1 /\ exists s, holding (ss ++ [(h, s)]) k p end).
Proof using Type.
  intros Hk p n Hp. pose proof (holding_fresh ss (k + 1) p ltac:(lia) Hp) as Hfresh. destruct Hp as (Hs & H0 & H1 & Hn).
  unfold open_db, spawn_for. pose proof (spawn_spec (world n) p path 8 kind ver (JObj [])) as Hsp.
  destruct (spawn_for_with_budget _ _ _ _ _ _ _) as [[e|h] p']; eexists _, _, _; (split; [reflexivity|]).
  - destruct Hsp as (E1 & _ & _ & E4 & _). split_and!; rewrite ?E1, ?E4; [done|lia|lia|exact Hn].
  - destruct Hsp as (_ & -> & Es & _ & Eh & _). split; [done|]. exists (next_ref p).
    rewrite wrapping_succ in Eh by (unfold is_u64, u64_max; lia).
    split_and!; rewrite ?Es, ?Eh, ?Hs; [done|lia|lia|]. intros h. rewrite fmap_app, elem_of_app. intros [(j & Hj & ->)%Hn|Hh].
    + exists j. split; [lia|done].
    + apply list_elem_of_singleton in Hh as ->. exists (next_handle p). split; [lia|done].
Qed.

Lemma total_session ss k h s : h ∉ ss.*1 ->
  total (holding (ss ++ [(h, s)]) k) (session_of h) (fun r p => r = s /\ holding (ss ++ [(h, s)]) k p).
Proof using Type.
  intros Hh p n Hp. exists s, p, n. split; [|done]. destruct Hp as (Hs & _). unfold session_of, session. by rewrite Hs, session_last.
Qed.

Lemma total_close ss k h s : h ∉ ss.*1 -> total (holding (ss ++ [(h, s)]) k) (close_db h) (fun _ => holding ss k).
Proof using Type.
  intros Hh p n (Hs & H0 & H1 & Hn). unfold close_db, close. rewrite Hs, position_last by done.
  rewrite lookup_app_r, Nat.sub_diag by lia. cbn [lookup list_lookup at_ obind snd].
  set (t := bindB _ _). assert (total (holding ss k) t (fun _ => holding ss k)) as Ht.
  { unfold t. do 3 (eapply total_bind; [apply total_host|intros ?]). by apply total_ret. }
  apply Ht. split_and!; cbn [set_sessions sessions next_handle]; [apply delete_last|done..|].
  intros h' Hin. apply Hn. rewrite fmap_app. apply elem_of_app. by left.
Qed.
End Total.

Section Results.
Context {N : Type} `{!Host N} `{!Scratch N} (show_json : Value -> string) (idalib94 : bool).

(** What every result of the mock benchmark satisfies. *)
Definition reported (nm : string) (r : ScenarioResult) : Prop :=
  name r = nm /\ (0 <= wall_ms r)%Z /\ (ok r = true <-> detail r = "")
  /\ (round_trips r = 2%nat \/ round_trips r = 0%nat /\ ok r = false).

Lemma scenario_total nm db method params failed verdict ss k :
  (0 <= k)%Z -> (forall v, verdict v <> Some "") ->
  total (holding ss (k + 1)) (scenario show_json nm db method params failed verdict) (fun r p => holding ss k p /\ reported nm r).
Proof using Type.
  intros Hk Hv. unfold scenario. eapply total_bind; [apply total_host|]. intros start.
  eapply total_bind; [apply total_open; exact Hk|]. intros [e|h].
  { eapply total_bind; [apply total_elapsed|]. intros w. apply total_ret. intros p [Hp Hw]. split; [exact Hp|].
    split_and!; [done|done|by split|by right]. }
  apply total_use_pure. intros Hh. apply total_use_ex. intros s.
  eapply total_bind; [by apply total_session|]. intros s'. apply total_use_pure. intros ->.
  eapply total_bind; [apply total_host|]. intros a. eapply total_bind; [by apply total_close|]. intros ?.
  eapply total_bind; [apply total_elapsed|]. intros w. apply total_ret. intros p [Hp Hw]. split; [exact Hp|].
  destruct a as [e|v].
  - split_and!; [done|done| |by left]. split; [done|]. by destruct failed.
  - split_and!; [done|done| |by left]. cbn [ok detail]. specialize (Hv v). rewrite bool_decide_eq_true. destruct (verdict v); cbn; naive_solver.
Qed.
Lemma mock_bench_total ss k :
  (0 <= k)%Z -> total (holding ss (k + 3)) (run_mock_bench show_json)
    (fun rs p => holding ss k p /\ Forall2 reported ["one_call_function_context"; "evidence_search"; "deep_chain_walk"] rs).
Proof using Type.
  intros Hk. unfold run_mock_bench, run_scenario, run_scenario_evidence, run_scenario_deep. replace (k + 3)%Z with (k + 1 + 1 + 1)%Z by lia.
  do 3 (eapply total_bind; [apply scenario_total; [lia|intros v; by repeat case_match]|]; intros ?; rewrite total_swap; apply total_use_pure; intros ?).
  apply total_ret. intros p Hp. split; [exact Hp|]. do 3 (constructor; [done|]). constructor.
Qed.

(** Opening for the real benchmark: a result that is not ok, or a session more. *)
Lemma open_real_total nm fx start ss k : (0 <= k)%Z ->
  total (holding ss (k + 1)) (open_real idalib94 nm fx start)
    (fun r p => match r with
                | inl r => ok r = false /\ holding ss k p
                | inr h => h ∉ ss.*1 /\ exists s, holding (ss ++ [(h, s)]) k p
                end).
Proof using Type.
  intros Hk. assert (forall why, total (holding ss k) (r <-& fail nm start why; retB (inl r))
    (fun (r : ScenarioResult + string) p => match r with
      | inl r => ok r = false /\ holding ss k p
      | inr h => h ∉ ss.*1 /\ exists s, holding (ss ++ [(h, s)]) k p end)) as Hfail.
  { intros why. eapply total_bind; [eapply total_bind; [apply total_elapsed|]|].
    - intros w. apply (total_ret _ _ (fun r p => ok r = false /\ holding ss k p)). by intros p [Hp _].
    - intros r. by apply total_ret. }
  assert (forall p, holding ss (k + 1) p -> holding ss k p) as Hless by (intros p Hp; eapply holding_less; [exact Hp|lia]).
  unfold open_real. eapply total_bind; [apply total_host|]. intros m. destruct (fixture m fx) as [src|]; [|exact (total_weaken _ _ _ _ _ Hless (fun _ _ H => H) (Hfail _))].
  eapply total_bind; [apply total_host|]. intros ?. eapply total_bind; [apply total_host|]. intros [e|[]];
    [exact (total_weaken _ _ _ _ _ Hless (fun _ _ H => H) (Hfail _))|].
  eapply total_bind; [by apply total_open|]. intros [e|h]; [apply Hfail|by apply total_ret].
Qed.
(** The pool afterwards: a session more only when the result is not ok. *)
Definition left_behind (ss : list (string * nat)) (k : Z) (good : bool) (p : WorkerPool) : Prop :=
  exists extra, holding (ss ++ extra) k p /\ (length extra <= 1)%nat /\ (good = true -> extra = []).

Lemma left_none ss k good p : holding ss k p -> left_behind ss k good p.
Proof using Type. intros Hp. exists []. rewrite app_nil_r. split; [exact Hp|]. split; [cbn; lia|done]. Qed.

Lemma fail_total nm start why ss k h s :
  total (holding (ss ++ [(h, s)]) k) (r <-& fail nm start why; retB (r, None))
    (fun (r : ScenarioResult * option Value) p => left_behind ss k (ok r.1) p).
Proof using Type.
  eapply total_bind; [eapply total_bind; [apply total_elapsed|]|].
  - intros w. apply (total_ret _ _ (fun r p => ok r = false /\ holding (ss ++ [(h, s)]) k p)). by intros p [Hp _].
  - intros r. apply total_ret. intros p [Hr Hp]. exists [(h, s)]. split; [exact Hp|]. split; [done|]. cbn. by rewrite Hr.
Qed.

Lemma deep_pass_total pass ss k : (0 <= k)%Z ->
  total (holding ss (k + 1)) (deep_pass show_json idalib94 pass) (fun r p => left_behind ss k (ok r.1) p).
Proof using Type.
  intros Hk. unfold deep_pass. eapply total_bind; [apply total_host|]. intros start.
  eapply total_bind; [by apply open_real_total|]. intros [r|h]; [apply total_ret; intros p [_ Hp]; by apply left_none|].
  apply total_use_pure. intros Hh. apply total_use_ex. intros s.
  eapply total_bind; [by apply total_session|]. intros s'. apply total_use_pure. intros ->.
  eapply total_bind; [eapply total_bind; [apply total_host|intros ?; apply (total_ret _ _ (fun _ p => holding (ss ++ [(h, s)]) k p)); done]|].
  intros [e|root]; [apply fail_total|]. eapply total_bind; [apply total_host|]. intros [e|v]; [apply fail_total|].
  eapply total_bind; [apply total_host|]. intros [e|v2]; [apply fail_total|].
  eapply total_bind; [apply total_elapsed|]. intros w. rewrite total_swap. apply total_use_pure. intros _.
  eapply total_bind; [by apply total_close|]. intros ?. apply total_ret. intros p Hp. by apply left_none.
Qed.

(** The other two close what they opened. *)
Lemma opened_total {A} nm fx start (bad : ScenarioResult -> A) (body : string -> nat -> bench N A) ss k : (0 <= k)%Z ->
  (forall h s, h ∉ ss.*1 -> total (holding (ss ++ [(h, s)]) k) (body h s) (fun _ => holding ss k)) ->
  total (holding ss (k + 1)) (opened <-& open_real idalib94 nm fx start;
    match opened with inl r => retB (bad r) | inr h => s <-& session_of h; body h s end) (fun _ => holding ss k).
Proof using Type.
  intros Hk Hbody. eapply total_bind; [by apply open_real_total|]. intros [r|h]; [apply total_ret; by intros p [_ Hp]|].
  apply total_use_pure. intros Hh. apply total_use_ex. intros s.
  eapply total_bind; [by apply total_session|]. intros s'. apply total_use_pure. intros ->. by apply Hbody.
Qed.

Lemma ea_of_total P s want : total P (ea_of (N := N) s want) (fun _ => P).
Proof using Type. eapply total_bind; [apply total_host|]. intros ?. by apply total_ret. Qed.

Lemma context_pass_total P s req pass c : total P (context_pass (N := N) s req pass c) (fun _ => P).
Proof using Type. eapply total_bind; [apply total_host|]. intros ?. by apply total_ret. Qed.

Lemma context_total ss k : (0 <= k)%Z -> total (holding ss (k + 1)) (context_scenario idalib94) (fun _ => holding ss k).
Proof using Type.
  intros Hk. unfold context_scenario. eapply total_bind; [apply total_host|]. intros start. apply opened_total; [exact Hk|].
  intros h s Hh. eapply total_bind; [apply ea_of_total|]. intros found.
  eapply (total_bind _ _ _ (fun _ => holding (ss ++ [(h, s)]) k)).
  { destruct found as [e|ea]; [by apply total_ret|]. eapply total_bind; [apply context_pass_total|]. intros c. apply context_pass_total. }
  intros c. eapply total_bind; [apply total_elapsed|]. intros w. rewrite total_swap. apply total_use_pure. intros _.
  eapply total_bind; [by apply total_close|]. intros ?. by apply total_ret.
Qed.

Lemma resume_rounds_total P left s root token : total P (resume_rounds (N := N) left s root token) (fun _ => P).
Proof using Type.
  revert token. induction left as [|left IH]; intros token; cbn [resume_rounds]; [by apply total_ret|].
  eapply total_bind; [apply total_host|]. intros [e|v]; [by apply total_ret|]. destruct (_ && _); [apply IH|by apply total_ret].
Qed.

Lemma resume_from_total P s root v : total P (resume_from (N := N) s root v) (fun _ => P).
Proof using Type.
  unfold resume_from. destruct (is_object _); [|by apply total_ret]. eapply total_bind; [apply resume_rounds_total|].
  intros [completed err]. by apply total_ret.
Qed.

Lemma resume_total ss k : (0 <= k)%Z -> total (holding ss (k + 1)) (resume_scenario idalib94) (fun _ => holding ss k).
Proof using Type.
  intros Hk. unfold resume_scenario. eapply total_bind; [apply total_host|]. intros start. apply (opened_total _ _ _ (fun r => r)); [exact Hk|].
  intros h s Hh. eapply total_bind; [apply ea_of_total|]. intros found.
  set (x := match found with inl _ => _ | inr _ => _ end). destruct x as [[root ok0] d0].
  eapply (total_bind _ _ _ (fun _ => holding (ss ++ [(h, s)]) k)).
  { destruct (root =? 0)%Z; [by apply total_ret|apply total_host]. }
  intros a. eapply (total_bind _ _ _ (fun _ => holding (ss ++ [(h, s)]) k)).
  { destruct a as [e|v]; [by apply total_ret|apply resume_from_total]. }
  intros [ok1 d1]. eapply total_bind; [apply total_elapsed|]. intros w. rewrite total_swap. apply total_use_pure. intros _.
  eapply total_bind; [by apply total_close|]. intros ?. by apply total_ret.
Qed.
Lemma real_bench_total k : (0 <= k)%Z ->
  total (holding [] (k + 4)) (run_real_bench show_json idalib94)
    (fun r p => length r.1 = 4%nat /\ exists extra, holding extra k p /\ (length extra <= 2)%nat /\ (forallb ok r.1 = true -> extra = [])).
Proof using Type.
  intros Hk. unfold run_real_bench. replace (k + 4)%Z with (k + 1 + 1 + 1 + 1)%Z by lia.
  eapply total_bind; [apply deep_pass_total; lia|]. intros [r1 m1]. apply total_use_ex. intros e1.
  rewrite total_swap. apply total_use_pure. intros [L1 G1].
  eapply total_bind; [apply deep_pass_total; lia|]. intros [r2 m2]. apply total_use_ex. intros e2.
  rewrite total_swap. apply total_use_pure. intros [L2 G2].
  eapply total_bind; [apply context_total; lia|]. intros [r3 m3]. eapply total_bind; [apply resume_total; lia|]. intros r4.
  apply total_ret. intros p Hp. split; [done|]. exists (e1 ++ e2). split; [exact Hp|]. rewrite length_app. split; [lia|].
  cbn [forallb fst] in *. rewrite !andb_true_iff. intros (H1 & H2 & _). by rewrite (G1 H1), (G2 H2).
Qed.

Lemma holding_new id k : (0 <= id)%Z -> (id + k < u64_modulus)%Z -> holding [] k (WorkerPool_new id).
Proof using Type. intros H0 H1. split_and!; [done..|]. intros h Hh. by apply elem_of_nil in Hh. Qed.

(** The benchmarks always come to an end: whatever the workers answer,
    however long they take and whatever is missing on the machine, both return
    a result for every scenario, in order, without a panic.  The mock one
    leaves no session open and calls a scenario ok exactly when there is
    nothing to say about it; the real one can leave a session of each deep
    pass behind, and leaves none when every scenario is ok. *)
Theorem benches_end (id : Z) (n : N) : (0 <= id)%Z -> (id + 4 < u64_modulus)%Z ->
  (exists rs p' n', run_mock_bench show_json (WorkerPool_new id) n = Done (rs, p', n')
     /\ sessions p' = [] /\ Forall2 reported ["one_call_function_context"; "evidence_search"; "deep_chain_walk"] rs)
  /\ (exists rs extras p' n', run_real_bench show_json idalib94 (WorkerPool_new id) n = Done (rs, extras, p', n')
     /\ length rs = 4%nat /\ (length (sessions p') <= 2)%nat /\ (forallb ok rs = true -> sessions p' = [])).
Proof using Type.
  intros H0 H1. split.
  - destruct (mock_bench_total [] 1 ltac:(lia) (WorkerPool_new id) n) as (rs & p' & n' & E & (Hs & _) & Hr); [by apply holding_new|].
    by exists rs, p', n'.
  - destruct (real_bench_total 0 ltac:(lia) (WorkerPool_new id) n) as ([rs extras] & p' & n' & E & L & extra & (Hs & _) & L' & G); [by apply holding_new|].
    exists rs, extras, p', n'. by rewrite Hs.
Qed.
End Results.

(** ** The reports are made *)

Lemma json_u128_small n : (n < u64_modulus)%Z -> json_u128 n = Done (JNum n).
Proof. intros H. unfold json_u128. by cbbn. Qed.

Lemma scenarios_json_total rs : Forall (fun r => wall_ms r < u64_modulus)%Z rs -> exists vs, scenarios_json rs = Done vs /\ length vs = length rs.
Proof.
  induction 1 as [|r rs Hr _ (vs & E & L)]; [by exists []|]. cbn [scenarios_json]. unfold scenario_json. rewrite json_u128_small by done.
  cbn [obind]. rewrite E. eexists. split; [done|]. cbn [length]. by rewrite L.
Qed.

(** A quantile is one of the samples. *)
Lemma quantile_sample walls q : walls <> [] -> exists x, quantile walls q = Done x /\ x ∈ walls.
Proof.
  intros Hne. destruct walls as [|w walls]; [done|]. unfold quantile.
  destruct ((w :: walls) !! quantile_index (length (w :: walls)) q) as [x|] eqn:E.
  - exists x. split; [done|]. by eapply list_elem_of_lookup_2.
  - exfalso. apply lookup_ge_None in E. unfold quantile_index in E. cbn [length] in E. lia.
Qed.

Lemma latency_total rs : Forall (fun r => wall_ms r < u64_modulus)%Z rs -> exists v, latency rs = Done v.
Proof.
  intros Hrs. unfold latency. set (walls := sort_by_key id _). assert (Forall (fun w => w < u64_modulus)%Z walls) as Hw.
  { unfold walls. by rewrite sort_by_key_perm, Forall_fmap. }
  assert (forall q, exists x, quantile walls q = Done x /\ (x < u64_modulus)%Z) as Hq.
  { intros q. destruct walls as [|w l] eqn:E; [by exists 0%Z|]. rewrite <- E in *. destruct (quantile_sample walls q) as (x & Hx & Hin); [by rewrite E|].
    exists x. split; [done|]. rewrite Forall_forall in Hw. by apply Hw. }
  destruct (Hq f0_5) as (x & -> & Hx), (Hq f0_95) as (y & -> & Hy). cbn [obind]. rewrite !json_u128_small by done. by eexists.
Qed.

(** The verdict of a report is the conjunction of its scenarios'. *)
Lemma reports_made rs extras : Forall (fun r => wall_ms r < u64_modulus)%Z rs ->
  (exists v, report rs = Done v /\ v @@ "all_ok" = JBool (forallb ok rs))
  /\ (exists v, report_real rs extras = Done v /\ v @@ "all_ok" = JBool (forallb ok rs) /\ v @@ "extras" = extras).
Proof.
  intros Hrs. destruct (scenarios_json_total rs Hrs) as (vs & Hvs & _), (latency_total rs Hrs) as (lat & Hlat). unfold report, report_real.
  rewrite Hvs, Hlat. split; eexists; by repeat split.
Qed.

(** With the samples of the two benchmarks, the quantiles are the middle one
    (of four the upper middle) and the largest. *)
Example quantiles_used :
  quantile_index 3 f0_5 = 1%nat /\ quantile_index 3 f0_95 = 2%nat /\ quantile_index 4 f0_5 = 2%nat /\ quantile_index 4 f0_95 = 3%nat.
Proof. repeat split; vm_compute; reflexivity. Qed.

Example quantiles_small :
  forallb (fun n => (quantile_index n f0_5 =? n / 2)%nat && (quantile_index n f0_95 =? (95 * (n - 1) + 50) / 100)%nat) (seq 1 300) = true.
Proof. vm_compute. reflexivity. Qed.
