(* ===== verification/BenchMock.v ===== *)
(** * BenchMock: the mock benchmark on the mock

    The benchmark of [Bench] run on the workers of [WorkerMain] behind the
    host of [Served], with the mock backend of [Backend] and the decoders of
    [Requests]: what its scenarios find. *)

From stdpp Require Import base list gmap strings.
From Stdlib Require Import ZArith Lia.
From S2P Require Import Prelude Text Json Errors Index Backend Workflow Worker Analyses WorkerMain Requests Discovery Pool Isolation Broker Surface Served Bench.

Local Open Scope rmcp_scope.

Module BenchWitness.
#[local] Existing Instance SurfaceWitness.demo_runtime.
#[local] Existing Instance SurfaceWitness.demo_wasm.

(** The machine of [Discovery], with an IDA 9.2 and the fixtures. *)
Definition lab_machine : Machine := {|
  os := os demo_machine; path_join := path_join demo_machine; file_name := file_name demo_machine;
  is_file p := is_file demo_machine p || bool_decide (p ∈ ["/src/tests/fixtures/deep.exe"; "/src/tests/fixtures/simple.exe"]);
  canonicalize := canonicalize demo_machine; pe_file_version := pe_file_version demo_machine;
  registry_version_for_dir := registry_version_for_dir demo_machine; idadir := idadir demo_machine;
  ida_config_dirs := ida_config_dirs demo_machine; os_native_candidates := os_native_candidates demo_machine;
  common_paths := common_paths demo_machine; reg_hint_candidates := reg_hint_candidates demo_machine;
  cached_drive_scan := cached_drive_scan demo_machine |}.
Definition lab : World := {|
  machine := lab_machine; probing := false; exe_override := None; exe_candidates := exe_candidates demo_world;
  probe_mock := probe_mock demo_world; probe_idalib := probe_idalib demo_world; path_exists := path_exists demo_world;
  start_worker := start_worker demo_world; worker_call := worker_call demo_world |}.

(** Workers with the mock backend, whatever they are asked to run; each
    request takes a millisecond. *)
#[local] Instance mock_host : Host (Workers MockBackend) :=
  served_host (B := MockBackend) id no_text (Requests.parse_query brief) (Requests.parse_request brief) no_sig no_json plain_char unwritten
    MockBackend_new None 60 (fun _ => still) (fun k => 10 ^ 6 * Z.of_nat k)%Z (fun _ _ => false) lab (fun _ => inl "absent")
    (fun _ => IsoWitness.good) (Some false) false (fun _ => "mock").
#[local] Instance scratch {N : Type} : Scratch N := {|
  manifest_dir := "/src"; temp_dir := "/tmp"; remove_file _ n := n; copy_file _ _ n := (inr tt, n) |}.

Definition start : Logged (Workers MockBackend) := ({| procs := ∅; queue := []; turn := 0 |}, []).
Definition size_only (v : Value) : string := "{}".

Lemma benches_end_witness :
  (exists rs p' n', run_mock_bench size_only (WorkerPool_new 1) start = Done (rs, p', n') /\ sessions p' = [] /\ length rs = 3%nat)
  /\ (exists rs extras p' n', run_real_bench size_only false (WorkerPool_new 1) start = Done (rs, extras, p', n')
        /\ length rs = 4%nat /\ (length (sessions p') <= 2)%nat).
Proof.
  destruct (benches_end size_only false 1 start) as [(rs & p & n & E & Hs & Hr) (rs' & x & p' & n' & E' & L & L' & _)]; [lia|reflexivity|].
  split; [exists rs, p, n|exists rs', x, p', n'].
  - split; [exact E|]. split; [exact Hs|]. apply Forall2_length in Hr. symmetry. exact Hr.
  - split; [exact E'|]. split; [exact L|exact L'].
Defined.

Definition done_with {A} (o : outcome A) (P : A -> Prop) : Prop := match o with Done a => P a | _ => False end.

(** The mock benchmark passes: every scenario is ok on the mock, no worker is
    left, and the report says so. *)
Lemma mock_bench_passes :
  done_with (run_mock_bench size_only (WorkerPool_new 1) start) (fun '(rs, p, n) =>
    ok <$> rs = [true; true; true] /\ sessions p = [] /\ size (procs n.1) = 0%nat
    /\ done_with (report rs) (fun v => v @@ "all_ok" = JBool true)).
Proof. vm_compute. repeat split. Qed.

(** A deep pass that does not find its function leaves its session open: of
    the real benchmark's four, the first two stay in the pool, their workers
    run on, and only the last two are shut down. *)
Lemma deep_pass_leaks :
  done_with (run_real_bench size_only false (WorkerPool_new 1) start) (fun '(rs, _, p, n) =>
    (sessions p).*1 = ["db1"; "db2"] /\ (fun s => bool_decide (is_Some (procs n.1 !! s))) <$> [0; 1; 2; 3]%nat = [true; true; false; false]
    /\ rq_session <$> filter (fun q => rq_method q = "shutdown") n.2 = [2; 3]%nat).
Proof. vm_compute. repeat split. Qed.

(** Round trips are not counted by the real benchmark: three requests are
    reported as two, and a failed open or pass as none. *)
Lemma real_round_trips_fixed :
  done_with (run_real_bench size_only false (WorkerPool_new 1) start) (fun '(rs, _, _, n) =>
    round_trips <$> rs = [0; 0; 2; 1]%nat
    /\ (fun s => length (filter (fun q => rq_session q = s /\ rq_method q ∉ ["db.save"; "db.close"; "shutdown"]) n.2)) <$> [0; 1; 2; 3]%nat
       = [1; 1; 3; 1]%nat).
Proof. vm_compute. repeat split. Qed.
End BenchWitness.
