(* ===== verification/Cli.v ===== *)
(** * Cli: the command line

    Models [src/main.rs] and [src/cli.rs]: the subcommands of the binary,
    what they print and the code they exit with.  The broker's servers, the
    worker loop, the benchmarks and the processes a self test drives are
    fields of [Terminal]; configuration, discovery and the worker pool are
    the components modelled elsewhere. *)

From stdpp Require Import base list gmap strings.
From Stdlib Require Import ZArith Lia Ascii.
From S2P Require Import Prelude Text Json Errors Protocol Discovery Sources Config Pool WorkerMain Broker.

Local Open Scope Z_scope.
Local Open Scope rmcp_scope.

(** A line on the standard output or on the error stream. *)
Inductive Line := Print (s : string) | Eprint (s : string).

(** What a command prints, and its exit code. *)
Definition run : Type := list Line * Z.

Record Terminal := {
  t_site : Site;
  t_world : World;
  t_feature : option Feature;
  t_x86_64 : bool;
  t_version : string;
  (** the files in the plugin directory: whether each is a regular file *)
  t_plugins : option (list bool);
  (** [<exe> worker --probe-backend mock]: whether it ran, and succeeded *)
  t_self_probe : option bool;
  t_parse_addr : string -> string + string;
  t_serve_http : string -> string + unit;
  t_serve_stdio : string + unit;
  t_worker_main : Z;
  (** the report of a benchmark, [report] and [report_real] of [Bench] *)
  t_bench : bool -> Value;
  t_pretty : Value -> option string;
  t_show : Value -> string;
  (** a call on the session of a pool *)
  t_call : nat -> string -> Value -> Result Value;
  (** a worker process with this IDA directory: its hello, and its answer *)
  t_hello : string -> string + Value;
  t_reply : string -> Value -> string + Value;
}.

Section Cli.
Context (t : Terminal).

(** ** [serve] *)

Definition bind_address (arg : string) : string + string :=
  let parse a m := match t_parse_addr t a with inr x => inr x | inl e => inl (m +:+ e) end in
  if bool_decide (arg = "") then parse "127.0.0.1:8750" "bad default addr: "
  else match strip_prefix ":" arg with
       | Some port => parse ("127.0.0.1:" +:+ port) ("bad port '" +:+ arg +:+ "': ")
       | None => parse arg ("bad bind address '" +:+ arg +:+ "': ")
       end.

Definition cmd_serve (transport : option string) (args : list string) : run :=
  match load (t_site t) with
  | inl e => ([Eprint ("config error: " +:+ to_string e)], 1)
  | inr _ =>
      let stdio := match t_serve_stdio t with inr _ => ([], 0) | inl e => ([Eprint ("serve failed: " +:+ e)], 1) end in
      match transport with
      | Some tr =>
          if bool_decide (tr = "http") || bool_decide (tr = "--http") then
            match bind_address (default "" (args !! 2%nat)) with
            | inl e => ([Eprint e], 2)
            | inr addr =>
                match t_serve_http t addr with inr _ => ([], 0) | inl e => ([Eprint ("serve http failed: " +:+ e)], 1) end
            end
          else if starts_with "--" tr then ([Eprint ("unknown flag '" +:+ tr +:+ "'")], 2)
          else stdio
      | None => stdio
      end
  end.

(** ** [doctor] *)

Definition status_text (ready unverified unavailable : string) (s : BackendStatus) : string :=
  match s with Ready => ready | AvailableUnverified => unverified | Unavailable => unavailable end.

Definition config_report : list Line * bool :=
  match load (t_site t) with
  | inr cfg =>
      ([Print (match config_path cfg with Some p => "config: " +:+ p +:+ " loaded" | None => "config: none, using defaults" end);
        Print ("required ida version: " +:+ required_ida_version cfg); Print ("max workers: " +:+ show_dec (max_workers cfg))], true)
  | inl e => ([Print ("config: ERROR " +:+ to_string e)], false)
  end.

Definition plugin_count : Z := Z.of_nat (length (filter (fun b => b = true) (default [] (t_plugins t)))).

Definition worker_report : Line * bool :=
  match t_self_probe t with
  | Some true => (Print "worker mode: OK (single exe, `worker` subcommand)", true)
  | _ => (Print "worker mode: BROKEN (`<exe> worker --probe-backend mock` failed)", false)
  end.

Definition install_line (i : IdaInstallation) : Line :=
  let decos := if bool_decide (dec_name <$> decompilers i = []) then "no hexrays decompilers detected"
               else join ", " (dec_name <$> decompilers i) in
  Print ("ida " +:+ Version_to_string (version i) +:+ ": " +:+ root i +:+ " (source: " +:+ source_as_str (source i) +:+ ", " +:+ decos +:+ ", "
    +:+ status_text "backend ready" "backend available/unverified (real-IDA suite not passed yet)" "backend unavailable" (Discovery.backend i) +:+ ")").

Definition manifest_line (m : BackendManifest) : Line :=
  Print ("backend-" +:+ key m +:+ ": SDK " +:+ sdk_version m +:+ " (" +:+ sdk_commit m +:+ ") | ffi: " +:+ ffi_source m +:+ " | gen: "
    +:+ generator m +:+ " | arch: " +:+ join "," (verified_arch m) +:+ " | verified: " +:+ (if verified m then "true" else "false")).

Definition platform_line : Line :=
  let host_os := match os (machine (t_world t)) with Windows => "windows" | Macos => "macos" | Linux => "linux" end in
  let host_arch := if t_x86_64 t then "x86_64" else "other" in
  let registry := join " " ((fun m => key m +:+ "(" +:+ (if verified m then "verified" else "unverified") +:+ ")") <$> KNOWN_BACKENDS) in
  let compiled := match compiled_backend_key (t_feature t) with
                  | Some k => "this binary compiles the " +:+ k +:+ " idalib ABI"
                  | None => "this binary is mock-only (no idalib feature)"
                  end in
  let verified_windows := join "; " ((fun k => "windows-" +:+ k +:+ "-x86_64: real-IDA suite verified") <$> verified_keys) in
  Print ("platform matrix: host=" +:+ host_os +:+ "-" +:+ host_arch +:+ "; registry backends: " +:+ registry +:+ "; " +:+ verified_windows
    +:+ "; linux/macos: adapter-ready, real-IDA acceptance pending (allowed-to-fail CI); " +:+ compiled).

(** The first file that can be read, from the current directory or the binary's. *)
Definition toolchain_line : Line :=
  let s := t_site t in
  let text := match read_to_string s "rust-toolchain.toml" with
              | inr raw => Some raw
              | inl _ => match read_to_string s (join_path s (exe_dir s) "rust-toolchain.toml") with inr raw => Some raw | inl _ => None end
              end in
  match text with
  | Some raw =>
      let channel := default "unknown" (trim_quotes <$> first_some (fun l => strip_prefix "channel = " (trim l)) (lines raw)) in
      Print ("rust toolchain: pinned " +:+ channel +:+ " (rust-toolchain.toml)")
  | None => Print "rust toolchain: rust-toolchain.toml not found (unpinned!)"
  end.

Definition abi_line : Line :=
  if site_is_file (t_site t) "backends/abi/expected-9_2.json" then
    Print "abi probe: expected-9_2.json present (backends/abi/expected-9_2.json); run scripts/run-abi-probe.ps1 against the SDK headers to verify"
  else Print "abi probe: no expected fact file found in exe dir (probe runs from the repo checkout)".

Definition no_ready_line : Line :=
  Print ("no backend-ready IDA install (verified backends: "
    +:+ (if bool_decide (verified_keys = []) then "none of the known " +:+ join ", " known_keys else join ", " verified_keys) +:+ ")").

Definition cmd_doctor (ida_dir : option string) : run :=
  let '(config_lines, config_ok) := config_report in
  let '(worker_line, worker_ok) := worker_report in
  let installs := discover_all (machine (t_world t)) ida_dir in
  let none := bool_decide (root <$> installs = []) in
  let ready := existsb backend_ready installs in
  let ok := config_ok && worker_ok && negb none && ready in
  ([Print "reverse-mcp doctor"; Print "=================="] ++ config_lines
   ++ [Print ("exe dir: " +:+ exe_dir (t_site t));
       Print ("plugin source: " +:+ plugins_dir (t_site t) +:+ " (reverse-mcp managed, " +:+ show_dec plugin_count
         +:+ " plugin files; IDA install dir and %APPDATA%\.idapro are never used)"); worker_line]
   ++ (if none then [Print "ida: NOT FOUND"] else []) ++ (install_line <$> installs)
   ++ [Print "ida version check: re-verified by worker at startup (get_library_version)"] ++ (manifest_line <$> KNOWN_BACKENDS)
   ++ [platform_line; toolchain_line; abi_line] ++ (if ready then [] else [no_ready_line])
   ++ [Print (if ok then "doctor: OK" else "doctor: PROBLEMS FOUND")],
   if ok then 0 else 1).

(** ** Commands on a database *)

(** A new pool; a configuration that does not load is reported and ignored. *)
Definition new_pool : list Line * WorkerPool :=
  (match load (t_site t) with inr _ => [] | inl e => [Eprint ("config error: " +:+ to_string e)] end, WorkerPool_new 1).

Definition cmd_open (path : string) : run :=
  if bool_decide (path = "") then ([Eprint "usage: reverse-mcp open <binary-or-idb>"], 2)
  else if negb (site_is_file (t_site t) path) then ([Eprint ("not a file: " +:+ path)], 1)
  else
    let '(warn, pool) := new_pool in
    match (spawn_for (t_world t) pool path 8 "auto" "").1 with
    | inr handle => (warn ++ [Print handle], 0)
    | inl e => (warn ++ [Eprint ("open failed: " +:+ to_string e)], 1)
    end.

Definition cmd_sessions : run :=
  ([Eprint "sessions are owned by the running `reverse-mcp serve` process;";
    Eprint "query them from the agent with the ida_db tool (action=list)."], 0).

(** [parse_ea] of an argument. *)
Definition cli_ea (s : string) : option Z := value_ea (JStr s).

Definition answer_line (what : string) (show : Value -> string) (r : Result Value) : run :=
  match r with inr v => ([Print (show v)], 0) | inl e => ([Eprint (what +:+ " failed: " +:+ to_string e)], 1) end.

Definition cmd_inspect (db ea : option string) : run :=
  match db with
  | None => ([Eprint "usage: reverse-mcp inspect <db-handle> [ea]"], 2)
  | Some db =>
      let '(warn, pool) := new_pool in
      match session db pool with
      | None => (warn ++ [Eprint ("unknown or closed db handle '" +:+ db +:+ "' (sessions do not survive process restarts)")], 1)
      | Some s =>
          let '(ls, code) :=
            match ea with
            | Some ea => match cli_ea ea with
                         | None => ([Eprint ("bad ea '" +:+ ea +:+ "'")], 2)
                         | Some a => answer_line "inspect" (t_show t) (t_call t s "function_at" (JObj [("ea", JNum a)]))
                         end
            | None => answer_line "inspect" (t_show t) (t_call t s "db.info" (JObj []))
            end in
          (warn ++ ls, code)
      end
  end.

Definition cmd_decompile (db ea : option string) : run :=
  match db, ea with
  | Some db, Some ea =>
      match cli_ea ea with
      | None => ([Eprint ("bad ea '" +:+ ea +:+ "'")], 2)
      | Some a =>
          let '(warn, pool) := new_pool in
          match session db pool with
          | None => (warn ++ [Eprint ("unknown or closed db handle '" +:+ db +:+ "'")], 1)
          | Some s =>
              let '(ls, code) := answer_line "decompile" (fun v => default (t_show t v) (as_str (v @@ "pseudocode")))
                                   (t_call t s "decompile" (JObj [("ea", JNum a)])) in
              (warn ++ ls, code)
          end
      end
  | _, _ => ([Eprint "usage: reverse-mcp decompile <db-handle> <ea>"], 2)
  end.

(** ** [selftest] *)

Definition mock_chain : list Line * (string + unit) :=
  let '(warn, pool) := new_pool in
  let '(r, pool') := spawn_for (t_world t) pool "selftest-mock" 8 "mock" "" in
  (warn,
   match r with
   | inl e => inl (to_string e)
   | inr handle =>
       match session handle pool' with
       | None => inl "session gone"
       | Some s =>
           match t_call t s "db.info" (JObj []) with
           | inl e => inl (to_string e)
           | inr info =>
               match t_call t s "functions" (JObj [("offset", JNum 0); ("limit", JNum 10)]) with
               | inl e => inl (to_string e)
               | inr fns =>
                   if (default 0 (as_u64 (info @@ "function_count")) =? 0) || bool_decide (as_array fns = None)
                   then inl "mock backend returned empty data" else inr tt
               end
           end
       end
   end).

Definition select_request : Value :=
  JObj [("id", JNum 1); ("method", JStr "backend.select"); ("params", JObj [("kind", JStr "idalib")])].

Definition real_chain (ida_dir : string) : string + unit :=
  match t_hello t ida_dir with
  | inl e => inl e
  | inr hello =>
      if negb (bool_decide (as_u64 (hello @@ "protocol") = Some 1)) then inl "bad worker protocol"
      else match t_reply t ida_dir select_request with
           | inl e => inl e
           | inr resp =>
               match get "error" resp with
               | Some _ => inl ("idalib backend unavailable: " +:+ default "?" (as_str (resp @@ "error" @@ "message")))
               | None => inr tt
               end
           end
  end.

Definition step_line (r : string + unit) : Line := Print (match r with inr _ => "      OK" | inl e => "      FAILED: " +:+ e end).
Definition succeeded (r : string + unit) : bool := match r with inr _ => true | inl _ => false end.

Definition cmd_selftest : run :=
  let '(warn, r1) := mock_chain in
  let '(rest, ok) :=
    match discover (machine (t_world t)) None with
    | inr (dir, src) =>
        let r3 := real_chain dir in
        ([Print ("      OK: " +:+ dir +:+ " (" +:+ src +:+ ")"); Print "[3/3] real idalib chain (open -> functions -> disasm)..."; step_line r3],
         succeeded r1 && succeeded r3)
    | inl e => ([Print ("      NOT FOUND — " +:+ to_string e); Print "[3/3] real idalib chain: SKIPPED (mock selftest only)"], succeeded r1)
    end in
  ([Print "reverse-mcp selftest"; Print "==================="; Print "[1/3] worker binary + handshake (mock)..."] ++ warn
   ++ [step_line r1; Print "[2/3] IDA discovery..."] ++ rest ++ [Print (if ok then "selftest: OK" else "selftest: PROBLEMS FOUND")],
   if ok then 0 else 1).

(** ** [ida list] *)

(** [{:<n}]: spaces up to [n] characters. *)
Fixpoint char_count (s : string) : nat :=
  match s with
  | EmptyString => 0
  | String x s' => if (128 <=? ord x) && (ord x <? 192) then char_count s' else S (char_count s')
  end.
Definition pad (n : nat) (s : string) : string := s +:+ repeat_str " " (n - char_count s).

Definition list_row (ver runtime src decos backend root : string) : Line :=
  Print (pad 6 ver +:+ "  " +:+ pad 10 runtime +:+ "  " +:+ pad 12 src +:+ "  " +:+ pad 24 decos +:+ "  " +:+ pad 12 backend +:+ "  " +:+ root).

Definition install_row (i : IdaInstallation) : Line :=
  list_row (Version_to_string (version i)) ((match arch i with X64 => "64" | Arm64 => "32" end) +:+ "-bit") (source_as_str (source i))
    (if bool_decide (dec_name <$> decompilers i = []) then "-" else join "," (dec_name <$> decompilers i))
    (status_text "ready" "available/unverified" "unavailable" (Discovery.backend i)) (root i).

Definition cmd_ida_list (explicit : option string) : run :=
  let installs := discover_all (machine (t_world t)) explicit in
  if bool_decide (root <$> installs = []) then ([Print "no IDA installations found"], 1)
  else (list_row "VER" "RUNTIME" "SOURCE" "DECOMPILERS" "BACKEND" "ROOT" :: (install_row <$> installs), 0).

(** ** [main] *)

Definition cmd_bench (real : bool) : run :=
  let report := t_bench t real in
  ([Print (default "" (t_pretty t report))], if bool_decide (as_bool (report @@ "all_ok") = Some true) then 0 else 1).

Definition cmd_worker (args : list string) : run :=
  if bool_decide (args !! 1%nat = Some "--probe-backend") then
    let kind := default "" (args !! 2%nat) in
    if probe_backend (t_feature t) kind then ([Print kind], 0) else ([], 1)
  else ([], t_worker_main t).

Definition main (args : list string) : run :=
  match args with
  | [] => ([Eprint "usage: reverse-mcp <serve|doctor|ida list|open|sessions|inspect|decompile|selftest|version>"], 2)
  | cmd :: _ =>
      select cmd
        [("serve", cmd_serve (args !! 1%nat) args);
         ("worker", cmd_worker args);
         ("doctor", cmd_doctor (args !! 1%nat));
         ("open", cmd_open (default "" (args !! 1%nat)));
         ("sessions", cmd_sessions);
         ("inspect", cmd_inspect (args !! 1%nat) (args !! 2%nat));
         ("decompile", cmd_decompile (args !! 1%nat) (args !! 2%nat));
         ("selftest", cmd_selftest);
         ("bench", cmd_bench (bool_decide ("--real-ida" ∈ args)));
         ("ida", if bool_decide (args !! 1%nat = Some "list") then cmd_ida_list (args !! 2%nat)
                 else ([Eprint "usage: reverse-mcp ida list"], 2));
         ("version", ([Print ("reverse-mcp " +:+ t_version t)], 0));
         ("--version", ([Print ("reverse-mcp " +:+ t_version t)], 0));
         ("-V", ([Print ("reverse-mcp " +:+ t_version t)], 0))]
        ([Eprint ("unknown subcommand '" +:+ cmd +:+ "' (serve|doctor|ida list|open|sessions|inspect|decompile|selftest|version)")], 2)
  end.

(** ** What the exit codes mean *)

(** The doctor's verdict is exact: it exits with zero precisely when the
    configuration loads, the binary serves as its own worker, and discovery
    finds an install with a verified backend; otherwise with one. *)
Theorem doctor_exact (ida_dir : option string) :
  (cmd_doctor ida_dir).2 = 0 <->
    (exists cfg, load (t_site t) = Ok cfg) /\ t_self_probe t = Some true
    /\ exists i, i ∈ discover_all (machine (t_world t)) ida_dir /\ Discovery.backend i = Ready.
Proof.
  unfold cmd_doctor. destruct config_report as [cl cok] eqn:Hc. destruct worker_report as [wl wok] eqn:Hw.
  assert (cok = true <-> exists cfg, load (t_site t) = Ok cfg) as <-.
  { unfold config_report in Hc. destruct (load (t_site t)) as [e|cfg]; injection Hc as _ <-; split; [done|by intros [? [=]]|by exists cfg|done]. }
  assert (wok = true <-> t_self_probe t = Some true) as <-.
  { unfold worker_report in Hw. destruct (t_self_probe t) as [[]|]; injection Hw as _ <-; naive_solver. }
  cbv zeta. set (installs := discover_all _ _).
  assert (existsb backend_ready installs = true <-> exists i, i ∈ installs /\ Discovery.backend i = Ready) as <-.
  { rewrite existsb_exists. unfold backend_ready. setoid_rewrite bool_decide_eq_true. setoid_rewrite list_elem_of_In. naive_solver. }
  assert (existsb backend_ready installs = true -> bool_decide (root <$> installs = []) = false) as Hne.
  { intros H. apply bool_decide_eq_false_2. intros E%fmap_nil_inv. by rewrite E in H. }
  cbn [snd]. destruct cok, wok, (existsb backend_ready installs); cbn [andb negb]; try naive_solver;
    [rewrite Hne by done; cbn; naive_solver|..]; by destruct (bool_decide _); cbn; naive_solver.
Qed.

(** The pool of a command is its own and empty: [inspect] and [decompile]
    cannot find the session of any handle, and never succeed. *)
Theorem session_commands_never_succeed (db ea : option string) :
  (cmd_inspect db ea).2 <> 0 /\ (cmd_decompile db ea).2 <> 0.
Proof.
  split.
  - unfold cmd_inspect. destruct db as [db|]; [|done]. unfold new_pool. done.
  - unfold cmd_decompile. destruct db as [db|]; [|done]. destruct ea as [ea|]; [|done]. by destruct (cli_ea ea).
Qed.

(** A benchmark exits with zero when its report says that all is ok, and
    otherwise with one, also when no backend was found. *)
Lemma bench_exit_codes real :
  (cmd_bench real).2 = (if bool_decide (as_bool (t_bench t real @@ "all_ok") = Some true) then 0 else 1) /\ (cmd_bench real).2 <> 2.
Proof. unfold cmd_bench. cbn [snd]. by case_bool_decide. Qed.
End Cli.
